(* ===== verification/_CoqProject ===== *)
-Q . S2P
Prelude.v
Mem.v
CString.v
Params.v
Kalloc.v
LinkedList.v
ProcDef.v
Prioqueue.v
Bytes.v
Ring.v
Cache.v
Bio.v
Ide.v
Log.v
Tx.v
Fs.v
FsAlloc.v
FsFile.v
FsDisk.v
FsDemo.v
FsDir.v
FsPath.v
Pipe.v
File.v
Spinlock.v
Container.v
Sysfile.v
FsIo.v
Grep.v
Sleep.v
Mutex.v
Vm.v
VmProof.v
VmCopy.v
UserMem.v
Shm.v
Proc.v
ProcInv.v
Exec.v
ExecProof.v
ExecFs.v
Mkfs.v
MkfsProof.v
Display.v
Console.v
Kbd.v
Umalloc.v
Jsmn.v
Cm.v
Manager.v
Syscall.v
Sh.v
ShRound.v
