(* ===== verification/Prelude.v ===== *)
(** * A verification library for xv6 with containers

    This library models a teaching kernel, xv6 for the x86 extended with
    containers, named shared memory, named mutexes and priority scheduling,
    together with the user programs that carry its containers, and proves
    that the model does what the code means to do. File and function names
    below are those of [src/].

    ** The program and its parts

    A user program enters the kernel with a number and a stack of arguments
    ([syscall.c]); the system calls act on processes ([proc.c]), address
    spaces ([vm.c], [kalloc.c], [exec.c]), open files ([file.c], [pipe.c],
    [sysfile.c]) and containers ([container.c]). Files live in a file system
    ([fs.c]) which writes through a log ([log.c]) over a cache of disk blocks
    ([bio.c]) and a disk driver ([ide.c], or [memide.c] for a disk in memory);
    [mkfs.c] makes the first disk. Processes wait for each other with spin
    locks, sleep locks, [sleep] and [wakeup], and user programs with named
    mutexes and condition variables. The console ([console.c], [kbd.c],
    [uart.c]) is the terminal. In user space there are an allocator
    ([umalloc.c]), a library ([ulib.c]), a shell ([sh.c]), [grep.c] and the
    container manager ([cm.h], [helpers.h], with the JSON tokenizer
    [jsmn.h]).

    ** Conventions

    - A C routine is a function that returns [Ok] with its result and the new
      state, [Panic] with the message it stops the machine with, [Undef] where
      C gives it no meaning (a null pointer, an index outside an array) or
      [Hang] when a loop uses up the fuel of the model. Theorems show that the
      result is [Ok], so a routine that is proved correct neither panics nor
      runs forever. [ST] is the state monad over such results, [runs] its
      predicate transformer.
    - Integers are kept at their width: [u32], [i32] and [u8] write the
      wrap-around out.
    - Fuel is computed from the input (the length of a string, the number of
      pages of a range, the number of buffers); that it is enough is part of
      each theorem about the loop.
    - Pointers are indices into the tables of the kernel, or addresses where
      the code computes with them ([Mem], [Kalloc], [Vm], [Umalloc]).
    - Code that runs between two points at which it may sleep or be
      interrupted is one function; interleavings are sequences of such turns
      ([Pipe], [Console], [Mutex], [Ide]) or of single accesses to locks
      ([Spinlock], [Sleep]).

    ** The files

    Foundations: [Prelude] (results, monad, integers, arrays, tactics and hint
    databases), [Mem] (bytes and words of memory), [Bytes] (integers in disk
    blocks), [LinkedList] and [Ring] (lists threaded through tables),
    [Params] ([param.h], [memlayout.h], [mmu.h]), [ProcDef] ([proc.h]).

    Strings and memory: [CString] is [string.c] with its loops over memory;
    [Kalloc] the page allocator; [Vm] the routines of [vm.c] on page tables,
    [VmProof] the ownership of pages and what [allocuvm], [deallocuvm],
    [setupkvm] and [freevm] do to the view of the MMU, [VmCopy] the copy that
    [fork] makes, [UserMem] what a program sees of its memory and what
    [copyout] writes there, [Shm] shared memory and [growproc]. [Exec] is
    [exec.c] with [loaduvm] over an interface to the file system, [ExecProof]
    gives an executable file its meaning and proves that [exec] builds it,
    and [ExecFs] discharges the interface with the file system of [Fs].

    Disk and files: [Cache] states what the buffer cache promises, [Bio]
    implements it ([bio.c], [memide.c]) and [Ide] refines the disk in memory
    to the driver with its queue and interrupts. [Log] is [log.c] on the
    interface of the cache, [Tx] what it promises to the file system, [Fs]
    all of [fs.c] on that interface; [FsAlloc], [FsFile], [FsDisk], [FsDir]
    and [FsPath] prove the free map, file contents, the disk as a whole,
    directories and path resolution; [File] and [Sysfile] are [file.c],
    [sysfile.c] and the descriptors, [FsIo] carries a write from the
    descriptor to the disk. [FsDemo] is a small disk on which the theorems
    are instantiated; [Mkfs] is [mkfs.c], with what it makes proved in
    [MkfsProof]. [Pipe] is [pipe.c].

    Processes: [Prioqueue] the queue of the scheduler, [Spinlock] and [Sleep]
    the two kinds of waiting, [Mutex] the named mutexes and condition
    variables, [Proc] creation, exit, wait and scheduling over the states of
    the other components, [ProcInv] the invariants of the process table,
    [Container] the container table and the confinement of paths, [Syscall]
    the arguments of system calls.

    Terminal: [Display] and [Console] the two halves of [console.c], [Kbd]
    the keyboard.

    User space: [Umalloc] ([umalloc.c]), [Grep] ([grep.c]), [Jsmn] ([jsmn.h]),
    [Cm] and [Manager] (the container manager), [Sh] and [ShRound] (the
    parser of [sh.c]).

    ** What the theorems show

    - Storage. A transaction is atomic under a crash at any disk write and
      recovery may itself crash; a write through a descriptor is a sequence of
      such transactions and touches no other file; the disk that [mkfs]
      makes satisfies the invariant of the file system and holds the files
      it was given; path resolution is the walk
      over the directories of the disk and neither leaks nor keeps a lock; the
      disk driver serves requests in order, like a disk in memory, for every
      interleaving with its interrupts.
    - Memory. No page is handed out twice; growing, copying and freeing an
      address space conserve pages and give exactly the mappings they
      promise, on success and on failure; they fail only when pages are
      short. [exec] starts exactly the program that the file at the path
      means, with its arguments, or leaves the process as it was.
    - Processes. Spin locks exclude, no wakeup is lost, the process table
      keeps unique identifiers and live parents, [wait] reaps what it should,
      the queue implements priorities with round robin, named mutexes
      exclude.
    - Interfaces. Reference counts of open files are exact whatever calls are
      made, pipes are queues, the console's rings implement a line editor for
      every interleaving, system calls hand on only arguments inside the
      memory of the process, a path that [setpath] accepts stays inside the
      root of the container.
    - User programs. The allocator keeps blocks disjoint, the JSON tokenizer
      and the reader of specifications are correct on every layout and total
      on every text, the manager starts the first program of a container only
      when it is confined, the shell's parser is safe on every line and reads
      back what is printed, grep prints the lines that match.
    - Errors. Where the code does not do what it means to, a theorem shows the
      failing run: writes to a full file stop the kernel, a mutex can be held
      twice, a shared page is used after it is freed, the log is a block too
      short, a path escapes with [update = 0], the manager never enters a
      container, seven system calls do not check their pointer.

    ** Not modelled

    - Code that only programs the machine or runs before there is a kernel to
      speak of: [lapic.c], [ioapic.c], [picirq.c], [mp.c], [bootmain.c],
      [bootasm.S], [entry.S], [entryother.S], [initcode.S], [swtch.S],
      [trapasm.S], the generated vectors, [main.c], [seginit] and the register
      loads of [vm.c], the set-up of the serial port and of the timer. Its
      effect is on registers and descriptor tables that no other modelled code
      reads. [trap.c], which dispatches to the handlers modelled here, depends
      on that machinery too.
    - [printf.c] and the rest of [ulib.c]; the routines that [string.c] has
      too are modelled there.
    - The shell beyond its parser, the request loop of the container manager
      ([cm.c], [dockv6.c], the servers), the small commands ([cat.c], [wc.c],
      [ls.c], [ln.c], [rm.c], [kill.c], [mkdir.c], [echo.c], [cp.c], [ps.c],
      [pscon.c], [init.c]): sequences of system calls whose results they print.
    - The test programs ([usertests.c], [forktest.c], [stressfs.c],
      [shm_test*.c], [0.c] to [5.c] and the like), and the scripts that build
      the tree.
    - Debugging output: [getcallerpcs], [tostring], [print], [ps] and the
      [test_*] calls only write to the console. *)

From Stdlib Require Export ZArith Lia.
From stdpp Require Export prelude list strings.
Open Scope Z_scope.

(** ** Results of kernel code

    A C routine of the kernel returns a value ([Ok]), stops the machine with
    [panic(msg)] ([Panic]), runs into undefined behaviour of C such as a null
    dereference or an access outside an array ([Undef]), or its loop uses up
    the fuel the model gives it ([Hang]). *)

Inductive res (A : Type) : Type :=
| Ok (a : A)
| Panic (msg : string)
| Undef
| Hang.
Arguments Ok {A} a.
Arguments Panic {A} msg.
Arguments Undef {A}.
Arguments Hang {A}.

Definition rbind {A B} (c : res A) (k : A -> res B) : res B :=
  match c with
  | Ok a => k a
  | Panic msg => Panic msg
  | Undef => Undef
  | Hang => Hang
  end.

Declare Scope kernel_scope.
Delimit Scope kernel_scope with kernel.
Open Scope kernel_scope.

Notation "'let!' x := c 'in' k" := (rbind c (fun x => k))
  (at level 10, x pattern, c at level 200, k at level 200,
   format "'[v' 'let!'  x  :=  c  'in' '/' k ']'") : kernel_scope.

(** Code that works on shared state threads it explicitly. *)
Definition ST (S A : Type) : Type := S -> res (A * S).

Definition ret {S A} (a : A) : ST S A := fun s => Ok (a, s).
Definition bind {S A B} (c : ST S A) (k : A -> ST S B) : ST S B :=
  fun s => rbind (c s) (fun r => k (fst r) (snd r)).
Definition get {S A} (f : S -> A) : ST S A := fun s => Ok (f s, s).
Definition modify {S} (f : S -> S) : ST S unit := fun s => Ok (tt, f s).
Definition panic {S A} (msg : string) : ST S A := fun _ => Panic msg.
Definition undef {S A} : ST S A := fun _ => Undef.
Definition lift {S A} (c : res A) : ST S A := fun s => rbind c (fun a => Ok (a, s)).

Notation "'let*' x := c 'in' k" := (bind c (fun x => k))
  (at level 10, x pattern, c at level 200, k at level 200,
   format "'[v' 'let*'  x  :=  c  'in' '/' k ']'") : kernel_scope.
Notation "c ;;; k" := (bind c (fun _ => k))
  (at level 99, k at level 200, right associativity,
   format "'[v' c ;;; '/' k ']'") : kernel_scope.

(** ** Machine integers

    [uint] is 32 bits and wraps around; [int] is its two's complement
    reading; [char] is signed on this target and [uchar] is not. *)

Definition u32 (x : Z) : Z := x mod 4294967296.
Definition i32 (x : Z) : Z := (x + 2147483648) mod 4294967296 - 2147483648.
Definition uchar (x : Z) : Z := x mod 256.
Definition schar (x : Z) : Z := (x + 128) mod 256 - 128.

Lemma u32_small x : 0 <= x < 4294967296 -> u32 x = x.
Proof. intros H. unfold u32. now apply Z.mod_small. Qed.

Lemma u32_range x : 0 <= u32 x < 4294967296.
Proof. apply Z.mod_pos_bound. lia. Qed.

Lemma i32_small x : -2147483648 <= x < 2147483648 -> i32 x = x.
Proof. intros H. unfold i32. rewrite Z.mod_small; lia. Qed.

Lemma i32_range x : -2147483648 <= i32 x < 2147483648.
Proof.
  unfold i32. pose proof (Z.mod_pos_bound (x + 2147483648) 4294967296). lia.
Qed.

Lemma uchar_small x : 0 <= x < 256 -> uchar x = x.
Proof. intros H. unfold uchar. now apply Z.mod_small. Qed.

Lemma u32_add_l a b : u32 (u32 a + b) = u32 (a + b).
Proof. unfold u32. now rewrite Zplus_mod_idemp_l. Qed.

Lemma u32_sub_idemp a b : u32 (u32 a - u32 b) = u32 (a - b).
Proof. unfold u32. now rewrite <- Zminus_mod. Qed.

(** Counters that have advanced by less than 2^32 agree when the distances do. *)
Lemma u32_add_eqb x a b :
  0 <= a < 4294967296 -> 0 <= b < 4294967296 -> (u32 (x + a) =? u32 (x + b)) = (a =? b).
Proof.
  intros Ha Hb. destruct (Z.eqb_spec a b) as [->|Hne]; [apply Z.eqb_refl |]. apply Z.eqb_neq. unfold u32. intros He.
  pose proof (Z.div_mod (x + a) 4294967296 ltac:(lia)). pose proof (Z.div_mod (x + b) 4294967296 ltac:(lia)). lia.
Qed.

Lemma u32_diff x a b : 0 <= b - a < 4294967296 -> u32 (u32 (x + b) - u32 (x + a)) = b - a.
Proof. intros H. rewrite u32_sub_idemp. replace (x + b - (x + a)) with (b - a) by lia. by apply u32_small. Qed.

(** An index into a ring whose size divides 2^32 does not see the counter wrap. *)
Lemma u32_mod_ring k x : 0 < k -> (k | 4294967296) -> u32 x mod k = x mod k.
Proof.
  intros Hk [j Hj]. pose proof (Z.div_mod x 4294967296 ltac:(lia)) as H. fold (u32 x) in H. rewrite H at 2.
  rewrite Hj at 1. replace (j * k * (x / 4294967296) + u32 x) with (u32 x + (j * (x / 4294967296)) * k) by ring.
  by rewrite Z.mod_add by lia.
Qed.

(** A signed byte is zero, or equal to another, exactly when the byte is. *)
Lemma schar_sub_0 x y :
  0 <= x < 256 -> 0 <= y < 256 -> schar x - schar y = 0 <-> x = y.
Proof.
  intros Hx Hy. unfold schar.
  pose proof (Z.div_mod (x + 128) 256). pose proof (Z.div_mod (y + 128) 256).
  pose proof (Z.mod_pos_bound (x + 128) 256).
  pose proof (Z.mod_pos_bound (y + 128) 256). split; [| intros ->]; lia.
Qed.

Lemma schar_0 x : 0 <= x < 256 -> schar x = 0 <-> x = 0.
Proof.
  intros Hx. pose proof (schar_sub_0 x 0 Hx ltac:(lia)) as H. change (schar 0) with 0 in H.
  by rewrite Z.sub_0_r in H.
Qed.

(** Joining a shifted field and one below it adds them up. *)
Lemma lor_shiftl_add a b k :
  0 <= k -> 0 <= b < 2 ^ k -> Z.lor (Z.shiftl a k) b = a * 2 ^ k + b.
Proof.
  intros Hk Hb. pose proof (Z.add_lor_land (Z.shiftl a k) b) as H.
  assert (Z.land (Z.shiftl a k) b = 0) as H0.
  { apply Z.bits_inj'. intros n Hn. rewrite Z.land_spec, Z.bits_0.
    destruct (Z.lt_ge_cases n k).
    - by rewrite Z.shiftl_spec_low.
    - rewrite andb_comm, <- (Z.mod_small b (2 ^ k)) by done.
      by rewrite Z.mod_pow2_bits_high by lia. }
  rewrite H0, Z.shiftl_mul_pow2 in H by done.
  rewrite Z.shiftl_mul_pow2 by done. lia.
Qed.

(** ** Total correctness of a stateful routine *)

(** [runs c s Q]: from [s] the routine returns normally, and its result and
    final state satisfy [Q]. *)
Definition runs {S A} (c : ST S A) (s : S) (Q : A -> S -> Prop) : Prop :=
  exists a s', c s = Ok (a, s') /\ Q a s'.

Lemma runs_ret {S A} (a : A) (s : S) (Q : A -> S -> Prop) :
  Q a s -> runs (ret a) s Q.
Proof. intros H. exists a, s. auto. Qed.

Lemma runs_bind {S A B} (c : ST S A) (k : A -> ST S B) s Q :
  runs c s (fun a s' => runs (k a) s' Q) -> runs (bind c k) s Q.
Proof.
  intros (a & s' & Hc & b & s'' & Hk & HQ). exists b, s''. split; [|done].
  unfold bind. now rewrite Hc.
Qed.

Lemma runs_get {S A} (f : S -> A) (s : S) (Q : A -> S -> Prop) :
  Q (f s) s -> runs (get f) s Q.
Proof. intros H. exists (f s), s. auto. Qed.

Lemma runs_modify {S} (f : S -> S) s (Q : unit -> S -> Prop) :
  Q tt (f s) -> runs (modify f) s Q.
Proof. intros H. exists tt, (f s). auto. Qed.

Lemma runs_lift {S A} (c : res A) a (s : S) (Q : A -> S -> Prop) :
  c = Ok a -> Q a s -> runs (lift c) s Q.
Proof. intros -> H. exists a, s. auto. Qed.

Lemma runs_mono {S A} (c : ST S A) s (P Q : A -> S -> Prop) :
  runs c s P -> (forall a s', P a s' -> Q a s') -> runs c s Q.
Proof. intros (a & s' & Hc & HP) HPQ. exists a, s'. auto. Qed.

Lemma rbind_Ok {A B} (c : res A) (k : A -> res B) b :
  rbind c k = Ok b <-> exists a, c = Ok a /\ k a = Ok b.
Proof.
  destruct c; simpl; split; intros H; try (destruct H as (? & ? & ?)); try done.
  - eauto.
  - now simplify_eq.
Qed.

Lemma bind_Ok {S A B} (c : ST S A) (k : A -> ST S B) s r :
  bind c k s = Ok r <-> exists a s', c s = Ok (a, s') /\ k a s' = Ok r.
Proof.
  unfold bind. rewrite rbind_Ok. split.
  - intros ([a s'] & Hc & Hk). eauto.
  - intros (a & s' & Hc & Hk). exists (a, s'). auto.
Qed.

(** ** Automation *)

Create HintDb kernel.
#[export] Hint Resolve runs_ret runs_get runs_modify u32_range i32_range : kernel.

(** Splits the boolean comparisons of the code into propositions. *)
Ltac bool_cases :=
  repeat match goal with
  | |- context [ (?a =? ?b)%Z ] => destruct (Z.eqb_spec a b)
  | |- context [ (?a <? ?b)%Z ] => destruct (Z.ltb_spec a b)
  | |- context [ (?a <=? ?b)%Z ] => destruct (Z.leb_spec a b)
  | H : context [ (?a =? ?b)%Z ] |- _ => destruct (Z.eqb_spec a b)
  | H : context [ (?a <? ?b)%Z ] |- _ => destruct (Z.ltb_spec a b)
  | H : context [ (?a <=? ?b)%Z ] |- _ => destruct (Z.leb_spec a b)
  end.

(** Takes apart an equation [c = Ok r] between results step by step. *)
Ltac inv_ok :=
  repeat match goal with
  | H : rbind _ _ = Ok _ |- _ => apply rbind_Ok in H; destruct H as (? & ? & H)
  | H : bind _ _ _ = Ok _ |- _ => apply bind_Ok in H; destruct H as (? & ? & ? & H)
  | H : ret _ _ = Ok _ |- _ => injection H as; subst
  | H : get _ _ = Ok _ |- _ => injection H as; subst
  | H : modify _ _ = Ok _ |- _ => injection H as; subst
  | H : Ok _ = Ok _ |- _ => injection H as; subst
  | H : panic _ _ = Ok _ |- _ => discriminate H
  | H : undef _ = Ok _ |- _ => discriminate H
  | H : Panic _ = Ok _ |- _ => discriminate H
  | H : Undef = Ok _ |- _ => discriminate H
  | H : Hang = Ok _ |- _ => discriminate H
  end.

(** ** Arrays of the C code *)

(** Reading and writing [arr[i]] for an [int] index; outside the array the
    behaviour is undefined. *)
Definition arr_get {A} (arr : list A) (i : Z) : res A :=
  if i <? 0 then Undef
  else match arr !! Z.to_nat i with Some a => Ok a | None => Undef end.

Definition arr_set {A} (arr : list A) (i : Z) (a : A) : res (list A) :=
  if (0 <=? i) && (i <? Z.of_nat (length arr)) then Ok (<[Z.to_nat i := a]> arr)
  else Undef.

Lemma arr_get_Ok {A} (arr : list A) i a :
  arr_get arr i = Ok a <-> 0 <= i /\ arr !! Z.to_nat i = Some a.
Proof.
  unfold arr_get. destruct (Z.ltb_spec i 0); [split; [done | lia] |].
  destruct (arr !! Z.to_nat i); split; try done.
  - intros [= ->]. auto.
  - intros [_ [= ->]]. auto.
  - now intros [].
Qed.

Lemma arr_get_in {A} (arr : list A) i :
  0 <= i < Z.of_nat (length arr) -> exists a, arr_get arr i = Ok a.
Proof.
  intros H. destruct (lookup_lt_is_Some_2 arr (Z.to_nat i)) as [a Ha]; [lia |].
  exists a. apply arr_get_Ok. split; [lia | done].
Qed.

Lemma arr_set_in {A} (arr : list A) i (a : A) :
  0 <= i < Z.of_nat (length arr) -> arr_set arr i a = Ok (<[Z.to_nat i := a]> arr).
Proof. intros H. unfold arr_set. bool_cases; simpl; try done; lia. Qed.

Lemma arr_get_nat {A} (l : list A) i x : l !! i = Some x -> arr_get l (Z.of_nat i) = Ok x.
Proof. intros H. apply arr_get_Ok. rewrite Nat2Z.id. split; [lia | exact H]. Qed.

Lemma arr_set_nat {A} (l : list A) i x : (i < length l)%nat -> arr_set l (Z.of_nat i) x = Ok (<[i := x]> l).
Proof. intros H. rewrite arr_set_in by lia. by rewrite Nat2Z.id. Qed.

(** ** Searching an array

    The first index from [from] on whose element satisfies [f]: the shape of
    the loops that look for a free slot. *)
Fixpoint find_from {A} (f : A -> bool) (l : list A) (from : nat) : option nat :=
  match l with
  | [] => None
  | x :: l' => if f x then Some from else find_from f l' (S from)
  end.

Lemma find_from_Some {A} (f : A -> bool) l from i :
  find_from f l from = Some i ->
  exists j x, i = (from + j)%nat /\ l !! j = Some x /\ f x = true /\
    forall k y, (k < j)%nat -> l !! k = Some y -> f y = false.
Proof.
  revert from. induction l as [|x l IH]; intros from; simpl; [done |].
  destruct (f x) eqn:Hf.
  - intros [= <-]. exists 0%nat, x. repeat split; [lia | done | intros; lia].
  - intros H. destruct (IH _ H) as (j & y & -> & Hl & Hy & Hmin).
    exists (S j), y. repeat split; [lia | done | done |].
    intros [|k] z Hk Hz; simpl in Hz; [congruence |].
    apply (Hmin k z); [lia | done].
Qed.

Lemma find_from_None {A} (f : A -> bool) l from :
  find_from f l from = None <-> Forall (fun x => f x = false) l.
Proof.
  revert from. induction l as [|x l IH]; intros from; simpl.
  - split; [constructor | done].
  - rewrite Forall_cons. destruct (f x) eqn:Hf; [| rewrite IH]; intuition congruence.
Qed.

(** ** Filtering *)

Lemma filter_all {A} (P : A -> Prop) `{!forall x, Decision (P x)} (l : list A) :
  (forall x, x ∈ l -> P x) -> filter P l = l.
Proof.
  induction l as [|x l IH]; intros HP; [done |].
  rewrite filter_cons_True by (apply HP; by left). f_equal. apply IH.
  intros y Hy. apply HP. by right.
Qed.

Lemma filter_none {A} (P : A -> Prop) `{!forall x, Decision (P x)} (l : list A) :
  (forall x, x ∈ l -> ~ P x) -> filter P l = [].
Proof.
  induction l as [|x l IH]; intros HP; [done |].
  rewrite filter_cons_False by (apply HP; by left). apply IH.
  intros y Hy. apply HP. by right.
Qed.

Lemma filter_comm {A} (P Q : A -> Prop) `{!forall x, Decision (P x), !forall x, Decision (Q x)}
  (l : list A) : filter P (filter Q l) = filter Q (filter P l).
Proof.
  induction l as [|x l IH]; [done |].
  rewrite !(filter_cons _ _ l). repeat case_decide; rewrite ?filter_cons, ?decide_True, ?decide_False by done;
    by rewrite ?IH.
Qed.

Lemma list_alter_lookup_insert {A} (f : A -> A) (l : list A) i x :
  l !! i = Some x -> alter f i l = <[i := f x]> l.
Proof.
  revert i. induction l as [|y l IH]; intros [|i] H; simpl in H |- *; try done.
  - by injection H as ->.
  - f_equal. by apply IH.
Qed.

Lemma list_alter_alter {A} (f g : A -> A) (l : list A) i :
  alter f i (alter g i l) = alter (fun x => f (g x)) i l.
Proof.
  revert i. induction l as [|x l IH]; intros [|i]; [done | done | done |].
  change (x :: alter f i (alter g i l) = x :: alter (fun x => f (g x)) i l). by rewrite IH.
Qed.

Lemma filter_ne_mid {A} `{EqDecision A} (x : A) l1 l2 :
  NoDup (l1 ++ x :: l2) -> filter (fun y => y <> x) (l1 ++ x :: l2) = l1 ++ l2.
Proof.
  intros (_ & Hd & Hnd)%NoDup_app. apply NoDup_cons in Hnd as [Hi _].
  rewrite filter_app, filter_cons_False by naive_solver.
  rewrite !filter_all by set_solver. done.
Qed.

(** What the elements of a list contribute, after one of them changed. *)
Lemma concat_insert_perm {A B} (h : A -> list B) (l : list A) i x x' :
  l !! i = Some x -> h x ++ concat (h <$> <[i := x']> l) ≡ₚ h x' ++ concat (h <$> l).
Proof.
  intros Hi. rewrite (insert_take_drop l) by (by eapply lookup_lt_Some).
  rewrite <- (take_drop_middle l i x Hi) at 3.
  rewrite !fmap_app, !concat_app. simpl. solve_Permutation.
Qed.

Lemma concat_alter_perm {A B} (h : A -> list B) (f : A -> A) (l : list A) i x :
  l !! i = Some x -> h x ++ concat (h <$> alter f i l) ≡ₚ h (f x) ++ concat (h <$> l).
Proof. intros Hi. rewrite (list_alter_lookup_insert _ _ _ _ Hi). by apply concat_insert_perm. Qed.

(** The same for a function over the indices below [n] that changes at [i]. *)
Lemma concat_seq_perm {B} (h h' : nat -> list B) n i :
  (i < n)%nat -> (forall j, (j < n)%nat -> j <> i -> h' j = h j) ->
  h i ++ concat (h' <$> seq 0 n) ≡ₚ h' i ++ concat (h <$> seq 0 n).
Proof.
  intros Hi Hx. replace n with (i + S (n - S i))%nat by lia. rewrite seq_app. cbn [seq].
  rewrite !fmap_app, !concat_app. cbn [fmap list_fmap concat].
  rewrite (list_fmap_ext h' h (seq 0 i)).
  2: { intros k j [-> Hj]%lookup_seq. apply Hx; lia. }
  rewrite (list_fmap_ext h' h (seq _ (n - S i))).
  2: { intros k j [-> Hj]%lookup_seq. apply Hx; lia. }
  solve_Permutation.
Qed.

Lemma concat_seq_perm_add {B} (h h' : nat -> list B) n i b :
  (i < n)%nat -> (forall j, (j < n)%nat -> j <> i -> h' j = h j) -> h i = [] -> h' i = [b] ->
  concat (h' <$> seq 0 n) ≡ₚ b :: concat (h <$> seq 0 n).
Proof. intros Hi Hx Hn Hb. pose proof (concat_seq_perm h h' n i Hi Hx) as Hp. by rewrite Hn, Hb in Hp. Qed.

Lemma concat_seq_ext {B} (h h' : nat -> list B) n :
  (forall j, (j < n)%nat -> h' j = h j) -> concat (h' <$> seq 0 n) = concat (h <$> seq 0 n).
Proof. intros Hx. f_equal. apply list_fmap_ext. intros k j [-> Hj]%lookup_seq. apply Hx. lia. Qed.

Lemma elem_of_concat_seq {B} (h : nat -> list B) n x :
  x ∈ concat (h <$> seq 0 n) <-> exists i, (i < n)%nat /\ x ∈ h i.
Proof.
  rewrite list_elem_of_In, in_concat. split.
  - intros (l & Hl & Hx). apply list_elem_of_In, list_elem_of_fmap in Hl as (i & -> & Hi).
    apply elem_of_seq in Hi. exists i. split; [lia | by apply list_elem_of_In].
  - intros (i & Hi & Hx). exists (h i). split; apply list_elem_of_In; [| done].
    apply list_elem_of_fmap. exists i. split; [done |]. apply elem_of_seq. lia.
Qed.

(** Without duplicates an element belongs to one index. *)
Lemma NoDup_concat_seq {B} (h : nat -> list B) n i j x :
  NoDup (concat (h <$> seq 0 n)) -> (i < n)%nat -> (j < n)%nat -> x ∈ h i -> x ∈ h j -> i = j.
Proof.
  intros Hnd Hi Hj Hxi Hxj. destruct (decide (i = j)) as [|Hne]; [done |]. exfalso.
  pose proof (concat_seq_perm h (fun k => if decide (k = i) then [] else h k) n i Hi) as Hp.
  cbv beta in Hp. rewrite decide_True in Hp by done. simpl in Hp. rewrite <- Hp in Hnd by (intros; by rewrite decide_False).
  apply NoDup_app in Hnd as (_ & Hd & _). apply (Hd x Hxi). apply elem_of_concat_seq. exists j.
  split; [done |]. by rewrite decide_False.
Qed.

(** ** Invariants of step relations *)

Lemma rtc_invariant {A} (R : relation A) (P : A -> Prop) x y :
  (forall y z, P y -> R y z -> P z) -> P x -> rtc R x y -> P y.
Proof. intros Hs Hx Hr. induction Hr; eauto. Qed.
