(* ===== verification/Mem.v ===== *)
(** * Byte-addressed memory

    The memory the C code reads and writes through pointers: a byte per
    address, little-endian 32-bit words on top of it, and the predicate
    [cstr m p s] for a NUL-terminated string [s] at address [p]. *)

From S2P Require Import Prelude.

Definition mem : Type := Z -> Z.

Definition store (m : mem) (a v : Z) : mem := fun x => if x =? a then v else m x.

(** Two memories with the same bytes. *)
Definition mem_eq (m m' : mem) : Prop := forall x, m x = m' x.

#[export] Instance mem_eq_equivalence : Equivalence mem_eq.
Proof.
  split; [by intros m x | by intros m m' H x |].
  intros m1 m2 m3 H1 H2 x. by rewrite H1.
Qed.

#[export] Instance store_proper : Proper (mem_eq ==> eq ==> eq ==> mem_eq) store.
Proof. intros m m' H a ? <- v ? <- x. unfold store. by rewrite H. Qed.

Lemma store_eq m a v : store m a v a = v.
Proof. unfold store. by rewrite Z.eqb_refl. Qed.

Lemma store_ne m a v x : x <> a -> store m a v x = m x.
Proof. intros H. unfold store. destruct (Z.eqb_spec x a); done. Qed.

Create Rewrite HintDb mem.
#[export] Hint Rewrite store_eq : mem.
#[export] Hint Rewrite store_ne using lia : mem.

(** Little-endian words. *)
Definition load32 (m : mem) (a : Z) : Z :=
  m a + 256 * m (a + 1) + 65536 * m (a + 2) + 16777216 * m (a + 3).

Definition store32 (m : mem) (a w : Z) : mem :=
  store (store (store (store m a (w mod 256)) (a + 1) (w / 256 mod 256))
    (a + 2) (w / 65536 mod 256)) (a + 3) (w / 16777216 mod 256).

Lemma le32_digits w :
  0 <= w < 4294967296 ->
  w mod 256 + 256 * (w / 256 mod 256) + 65536 * (w / 65536 mod 256)
  + 16777216 * (w / 16777216 mod 256) = w.
Proof.
  intros H.
  replace (w / 65536) with (w / 256 / 256) by (rewrite Z.div_div by lia; f_equal; lia).
  replace (w / 16777216) with (w / 256 / 256 / 256)
    by (rewrite !Z.div_div by lia; f_equal; lia).
  pose proof (Z.div_mod w 256). pose proof (Z.div_mod (w / 256) 256).
  pose proof (Z.div_mod (w / 256 / 256) 256).
  assert (w / 256 / 256 / 256 < 256) by (rewrite !Z.div_div by lia; apply Z.div_lt_upper_bound; lia).
  assert (0 <= w / 256 / 256 / 256) by (rewrite !Z.div_div by lia; apply Z.div_pos; lia).
  rewrite (Z.mod_small (w / 256 / 256 / 256)) by lia. lia.
Qed.

Lemma load32_store32_eq m a w :
  0 <= w < 4294967296 -> load32 (store32 m a w) a = w.
Proof.
  intros H. unfold load32, store32. autorewrite with mem. by apply le32_digits.
Qed.

Lemma store32_ne m a w x : x < a \/ a + 4 <= x -> store32 m a w x = m x.
Proof. intros H. unfold store32. by autorewrite with mem. Qed.

Lemma load32_store32_ne m a b w :
  b + 4 <= a \/ a + 4 <= b -> load32 (store32 m a w) b = load32 m b.
Proof. intros H. unfold load32. rewrite !store32_ne by lia. done. Qed.

Lemma load32_store_ne m a b v :
  a < b \/ b + 4 <= a -> load32 (store m a v) b = load32 m b.
Proof. intros H. unfold load32. autorewrite with mem. done. Qed.

Lemma load32_ext m m' a :
  (forall x, a <= x < a + 4 -> m x = m' x) -> load32 m a = load32 m' a.
Proof. intros H. unfold load32. rewrite !H by lia. done. Qed.

#[export] Instance load32_proper : Proper (mem_eq ==> eq ==> eq) load32.
Proof. intros m m' H a ? <-. apply load32_ext. auto. Qed.

#[export] Hint Rewrite load32_store32_eq load32_store32_ne store32_ne using lia : mem.

(** ** NUL-terminated strings *)

Abbreviation cstring := (list Z).

Fixpoint cstr (m : mem) (p : Z) (s : cstring) : Prop :=
  match s with
  | [] => m p = 0
  | c :: s' => m p = c /\ c <> 0 /\ cstr m (p + 1) s'
  end.

(** The memory holding the bytes [l] from address [p] on, and [m] elsewhere. *)
Definition write_bytes (m : mem) (p : Z) (l : list Z) : mem :=
  fun x => if (p <=? x) && (x <? p + Z.of_nat (length l))
           then default 0 (l !! Z.to_nat (x - p)) else m x.

Lemma cstr_lookup m p s i c :
  cstr m p s -> s !! i = Some c -> m (p + Z.of_nat i) = c /\ c <> 0.
Proof.
  revert p i. induction s as [|d s IH]; intros p i; simpl; [done |].
  intros (Hp & Hd & Hs). destruct i as [|i]; simpl.
  - intros [= <-]. replace (p + Z.of_nat 0) with p by lia. done.
  - intros Hi. specialize (IH (p + 1) i Hs Hi).
    by replace (p + Z.of_nat (S i)) with (p + 1 + Z.of_nat i) by lia.
Qed.

Lemma cstr_nul m p s : cstr m p s -> m (p + Z.of_nat (length s)) = 0.
Proof.
  revert p. induction s as [|d s IH]; intros p; simpl.
  - intros H. by replace (p + Z.of_nat 0) with p by lia.
  - intros (_ & _ & Hs). specialize (IH _ Hs).
    by replace (p + Z.of_nat (S (length s))) with (p + 1 + Z.of_nat (length s)) by lia.
Qed.

Lemma cstr_ext m m' p s :
  (forall x, p <= x <= p + Z.of_nat (length s) -> m x = m' x) ->
  cstr m p s -> cstr m' p s.
Proof.
  revert p. induction s as [|d s IH]; intros p Hx; simpl.
  - intros H. rewrite <- Hx; [done | simpl; lia].
  - intros (Hp & Hd & Hs). split; [rewrite <- Hx; [done | simpl; lia] |].
    split; [done |]. apply IH; [| done]. intros x Hr. apply Hx. simpl. lia.
Qed.

Lemma cstr_inj m p s s' : cstr m p s -> cstr m p s' -> s = s'.
Proof.
  revert p s'. induction s as [|c s IH]; intros p [|c' s']; simpl; try done.
  - intros Hp (Hp' & Hc & _). congruence.
  - intros (Hp & Hc & _) Hp'. congruence.
  - intros (Hp & Hc & Hs) (Hp' & Hc' & Hs'). f_equal; [congruence | eauto].
Qed.

#[export] Instance cstr_proper : Proper (mem_eq ==> eq ==> eq ==> iff) cstr.
Proof.
  intros m m' H p ? <- s ? <-. split; apply cstr_ext; intros x _; by rewrite H.
Qed.

Lemma cstr_app m p s t :
  cstr m p (s ++ t) <->
  (forall i c, s !! i = Some c -> m (p + Z.of_nat i) = c /\ c <> 0) /\
  cstr m (p + Z.of_nat (length s)) t.
Proof.
  revert p. induction s as [|d s IH]; intros p; simpl.
  - replace (p + Z.of_nat 0) with p by lia. split; [by intros | by intros []].
  - rewrite IH.
    replace (p + Z.of_nat (S (length s))) with (p + 1 + Z.of_nat (length s)) by lia.
    split.
    + intros (Hp & Hd & Hs & Ht). split; [| done]. intros [|i] c; simpl.
      * intros [= <-]. by replace (p + Z.of_nat 0) with p by lia.
      * intros Hi. replace (p + Z.of_nat (S i)) with (p + 1 + Z.of_nat i) by lia. auto.
    + intros (Hs & Ht). destruct (Hs 0%nat d eq_refl) as [Hp Hd].
      replace (p + Z.of_nat 0) with p in Hp by lia. repeat split; try done;
      intros; replace (p + 1 + Z.of_nat i) with (p + Z.of_nat (S i)) by lia;
      by apply (Hs (S i)).
Qed.

(** A string built from its bytes. *)
Lemma cstr_intro m p s :
  (forall i c, s !! i = Some c -> m (p + Z.of_nat i) = c /\ c <> 0) ->
  m (p + Z.of_nat (length s)) = 0 -> cstr m p s.
Proof.
  intros H H0. rewrite <- (app_nil_r s). apply cstr_app. simpl. auto.
Qed.

(** Case analysis on every [store] of the goal, for frame conditions. *)
Ltac mem_cases :=
  unfold store in *; bool_cases; try done; try lia; try congruence.
