(* ===== verification/CString.v ===== *)
(** * The string library of the kernel (string.c)

    Every routine of src/string.c over the byte memory of [Mem]. Loops that
    run to a NUL take fuel and answer [Hang] when it is used up; the theorems
    give a fuel that is enough. *)

From S2P Require Import Prelude Mem.

(** ** Block operations *)

(** x86.h: [rep stosb] and [rep stosl]. *)
Fixpoint stosb (m : mem) (addr data : Z) (cnt : nat) : mem :=
  match cnt with
  | O => m
  | S cnt' => stosb (store m addr (uchar data)) (addr + 1) data cnt'
  end.

Fixpoint stosl (m : mem) (addr data : Z) (cnt : nat) : mem :=
  match cnt with
  | O => m
  | S cnt' => stosl (store32 m addr (u32 data)) (addr + 4) data cnt'
  end.

Definition memset (m : mem) (dst c n : Z) : mem :=
  if (dst mod 4 =? 0) && (n mod 4 =? 0) then
    let c := Z.land c 255 in
    stosl m dst
      (Z.lor (Z.lor (Z.lor (Z.shiftl c 24) (Z.shiftl c 16)) (Z.shiftl c 8)) c)
      (Z.to_nat (n / 4))
  else stosb m dst c (Z.to_nat n).

Fixpoint memcmp_loop (m : mem) (s1 s2 : Z) (n : nat) : Z :=
  match n with
  | O => 0
  | S n' =>
      if negb (m s1 =? m s2) then m s1 - m s2
      else memcmp_loop m (s1 + 1) (s2 + 1) n'
  end.

Definition memcmp (m : mem) (v1 v2 n : Z) : Z := memcmp_loop m v1 v2 (Z.to_nat n).

Fixpoint copy_backward (m : mem) (d s : Z) (n : nat) : mem :=
  match n with
  | O => m
  | S n' => copy_backward (store m (d - 1) (m (s - 1))) (d - 1) (s - 1) n'
  end.

Fixpoint copy_forward (m : mem) (d s : Z) (n : nat) : mem :=
  match n with
  | O => m
  | S n' => copy_forward (store m d (m s)) (d + 1) (s + 1) n'
  end.

Definition memmove (m : mem) (dst src n : Z) : mem :=
  if (src <? dst) && (dst <? src + n)
  then copy_backward m (dst + n) (src + n) (Z.to_nat n)
  else copy_forward m dst src (Z.to_nat n).

Definition memcpy (m : mem) (dst src n : Z) : mem := memmove m dst src n.

(** ** Strings *)

Fixpoint strncmp_loop (m : mem) (p q : Z) (n : nat) : Z :=
  match n with
  | O => 0
  | S n' =>
      if negb (m p =? 0) && (m p =? m q) then strncmp_loop m (p + 1) (q + 1) n'
      else uchar (m p) - uchar (m q)
  end.

Definition strncmp (m : mem) (p q n : Z) : Z := strncmp_loop m p q (Z.to_nat n).

Fixpoint strcpy (fuel : nat) (m : mem) (s t : Z) : res mem :=
  match fuel with
  | O => Hang
  | S f =>
      let c := m t in
      let m' := store m s c in
      if c =? 0 then Ok m' else strcpy f m' (s + 1) (t + 1)
  end.

Fixpoint strncpy_pad (m : mem) (s : Z) (n : nat) : mem :=
  match n with
  | O => m
  | S n' => strncpy_pad (store m s 0) (s + 1) n'
  end.

Fixpoint strncpy_loop (m : mem) (s t : Z) (n : nat) : mem :=
  match n with
  | O => m
  | S n' =>
      let c := m t in
      let m' := store m s c in
      if c =? 0 then strncpy_pad m' (s + 1) n'
      else strncpy_loop m' (s + 1) (t + 1) n'
  end.

Definition strncpy (m : mem) (s t n : Z) : mem := strncpy_loop m s t (Z.to_nat n).

(** The loop returns the memory and where [s] points when it stops. *)
Fixpoint safestrcpy_loop (m : mem) (s t : Z) (n : nat) : mem * Z :=
  match n with
  | O => (m, s)
  | S n' =>
      let c := m t in
      let m' := store m s c in
      if c =? 0 then (m', s + 1) else safestrcpy_loop m' (s + 1) (t + 1) n'
  end.

Definition safestrcpy (m : mem) (s t n : Z) : mem :=
  if n <=? 0 then m
  else let '(m', s') := safestrcpy_loop m s t (Z.to_nat (n - 1)) in store m' s' 0.

Fixpoint strlen_loop (fuel : nat) (m : mem) (s n : Z) : res Z :=
  match fuel with
  | O => Hang
  | S f => if m (s + n) =? 0 then Ok n else strlen_loop f m s (n + 1)
  end.

Definition strlen (fuel : nat) (m : mem) (s : Z) : res Z := strlen_loop fuel m s 0.

Fixpoint strcat_loop (fuel : nat) (m : mem) (dest src i j : Z) : res mem :=
  match fuel with
  | O => Hang
  | S f =>
      if m (src + j) =? 0 then Ok (store m (dest + (i + j)) 0)
      else strcat_loop f (store m (dest + (i + j)) (m (src + j))) dest src i (j + 1)
  end.

Definition strcat (fuel : nat) (m : mem) (dest src : Z) : res mem :=
  let! i := strlen_loop fuel m dest 0 in
  strcat_loop fuel m dest src i 0.

(** The null pointer is 0. *)
Fixpoint strchr (fuel : nat) (m : mem) (s c : Z) : res Z :=
  match fuel with
  | O => Hang
  | S f =>
      if m s =? 0 then Ok 0
      else if m s =? c then Ok s else strchr f m (s + 1) c
  end.

Fixpoint strcspn_loop (fuel : nat) (m : mem) (s1 s2 ret : Z) : res Z :=
  match fuel with
  | O => Hang
  | S f =>
      if m s1 =? 0 then Ok ret
      else
        let! p := strchr fuel m s2 (m s1) in
        if negb (p =? 0) then Ok ret else strcspn_loop f m (s1 + 1) s2 (ret + 1)
  end.

Definition strcspn (fuel : nat) (m : mem) (s1 s2 : Z) : res Z :=
  strcspn_loop fuel m s1 s2 0.

(** The [do ... while] of [strtok]: skips delimiters; [None] at the NUL. *)
Fixpoint strtok_skip (fuel : nat) (m : mem) (s delim : Z) : res (option Z) :=
  match fuel with
  | O => Hang
  | S f =>
      let ch := m s in
      if ch =? 0 then Ok None
      else
        let! p := strchr fuel m delim ch in
        if negb (p =? 0) then strtok_skip f m (s + 1) delim else Ok (Some s)
  end.

(** [strtok] returns the token, the memory and its static [lasts]. *)
Definition strtok (fuel : nat) (m : mem) (lasts s delim : Z) : res (Z * mem * Z) :=
  let s := if s =? 0 then lasts else s in
  let! r := strtok_skip fuel m s delim in
  match r with
  | None => Ok (0, m, lasts)
  | Some s =>
      let! n := strcspn fuel m s delim in
      let lasts := s + n in
      if negb (m lasts =? 0) then Ok (s, store m lasts 0, lasts + 1)
      else Ok (s, m, lasts)
  end.

(** ** Decimal conversion *)

Fixpoint itoa_digits (fuel : nat) (m : mem) (num str base i : Z) : res (mem * Z) :=
  match fuel with
  | O => Hang
  | S f =>
      if num =? 0 then Ok (m, i)
      else if base =? 0 then Undef
      else
        let rem := Z.rem num base in
        let rem := if 9 <? rem then rem - 10 else rem in
        itoa_digits f (store m (str + i) (uchar (rem + 48))) (Z.quot num base) str base (i + 1)
  end.

Fixpoint itoa_reverse (m : mem) (str i j : Z) (count : nat) : mem :=
  match count with
  | O => m
  | S count' =>
      let temp := m (str + j) in
      let m := store m (str + j) (m (str + (i - j - 1))) in
      itoa_reverse (store m (str + (i - j - 1)) temp) str i (j + 1) count'
  end.

Definition itoa (fuel : nat) (m : mem) (num str base : Z) : res mem :=
  if num =? 0 then Ok (store (store m str 48) (str + 1) 0)
  else
    let! (m, i) := itoa_digits fuel m num str base 0 in
    Ok (itoa_reverse (store m (str + i) 0) str i 0 (Z.to_nat (i / 2))).

(** ulib.c: [atoi], which stops at the first character that is no digit. *)
Fixpoint atoi_loop (fuel : nat) (m : mem) (s n : Z) : res Z :=
  match fuel with
  | O => Hang
  | S f =>
      if (48 <=? schar (m s)) && (schar (m s) <=? 57)
      then atoi_loop f m (s + 1) (i32 (n * 10 + schar (m s) - 48))
      else Ok n
  end.

Definition atoi (fuel : nat) (m : mem) (s : Z) : res Z := atoi_loop fuel m s 0.

(** * What the block operations do *)

Lemma stosb_spec m addr data cnt x :
  stosb m addr data cnt x =
  if (addr <=? x) && (x <? addr + Z.of_nat cnt) then uchar data else m x.
Proof.
  revert m addr. induction cnt as [|cnt IH]; intros m addr; cbn [stosb].
  - bool_cases; simpl; try done; lia.
  - rewrite IH. unfold store. bool_cases; simpl; try done; lia.
Qed.

Lemma word_of_byte c :
  0 <= c < 256 ->
  Z.lor (Z.lor (Z.lor (Z.shiftl c 24) (Z.shiftl c 16)) (Z.shiftl c 8)) c =
  c * 16843009.
Proof.
  intros H.
  replace (Z.shiftl c 24) with (Z.shiftl (Z.shiftl (Z.shiftl c 8) 8) 8)
    by (by rewrite !Z.shiftl_shiftl).
  replace (Z.shiftl c 16) with (Z.shiftl (Z.shiftl c 8) 8) by (by rewrite !Z.shiftl_shiftl).
  rewrite <- !Z.shiftl_lor, !lor_shiftl_add by lia. lia.
Qed.

Lemma store32_bytes m a c x :
  0 <= c < 256 ->
  store32 m a (c * 16843009) x = if (a <=? x) && (x <? a + 4) then c else m x.
Proof.
  intros H. unfold store32.
  replace (c * 16843009 mod 256) with c.
  2: { replace (c * 16843009) with (c + (c * 65793) * 256) by lia.
       rewrite Z_mod_plus_full, Z.mod_small; lia. }
  assert (Hd : forall k q, 0 < k -> 0 <= c * q < k ->
    forall r, c * 16843009 = (c + r * 256) * k + c * q -> c * 16843009 / k mod 256 = c).
  { intros k q Hk Hq r ->. rewrite Z.div_add_l, (Z.div_small (c * q)), Z.add_0_r by lia.
    rewrite Z_mod_plus_full, Z.mod_small; lia. }
  rewrite (Hd 256 1) with (r := c * 257) by lia.
  rewrite (Hd 65536 257) with (r := c) by lia.
  rewrite (Hd 16777216 65793) with (r := 0) by lia.
  unfold store. bool_cases; simpl; try done; lia.
Qed.

Lemma stosl_spec m addr c cnt x :
  0 <= c < 256 ->
  stosl m addr (c * 16843009) cnt x =
  if (addr <=? x) && (x <? addr + 4 * Z.of_nat cnt) then c else m x.
Proof.
  intros Hc. revert m addr. induction cnt as [|cnt IH]; intros m addr; cbn [stosl].
  - bool_cases; simpl; try done; lia.
  - rewrite IH, u32_small, store32_bytes by lia. bool_cases; simpl; try done; lia.
Qed.

(** Both implementations of [memset] fill exactly the [n] bytes. *)
Lemma memset_spec m dst c n x :
  0 <= n ->
  memset m dst c n x = if (dst <=? x) && (x <? dst + n) then uchar c else m x.
Proof.
  intros Hn. unfold memset.
  destruct ((dst mod 4 =? 0) && (n mod 4 =? 0)) eqn:Ha.
  - apply andb_prop in Ha as [_ Ha]. apply Z.eqb_eq in Ha.
    change (Z.land c 255) with (Z.land c (Z.ones 8)).
    rewrite (Z.land_ones c 8) by lia. change (2 ^ 8) with 256.
    pose proof (Z.mod_pos_bound c 256). pose proof (Z.div_mod n 4).
    rewrite word_of_byte, stosl_spec by lia. rewrite Z2Nat.id by lia.
    unfold uchar. bool_cases; simpl; try done; lia.
  - rewrite stosb_spec, Z2Nat.id by lia. done.
Qed.

Lemma memcmp_loop_0 m s1 s2 n :
  memcmp_loop m s1 s2 n = 0 <->
  forall i, 0 <= i < Z.of_nat n -> m (s1 + i) = m (s2 + i).
Proof.
  revert s1 s2. induction n as [|n IH]; intros s1 s2; cbn [memcmp_loop].
  - split; [intros _ i Hi; lia | done].
  - destruct (Z.eqb_spec (m s1) (m s2)) as [He|He]; simpl.
    + rewrite IH. split.
      * intros H i Hi. destruct (Z.eq_dec i 0) as [->|Hne]; [by rewrite !Z.add_0_r |].
        specialize (H (i - 1) ltac:(lia)).
        by replace (s1 + i) with (s1 + 1 + (i - 1)) by lia;
           replace (s2 + i) with (s2 + 1 + (i - 1)) by lia.
      * intros H i Hi. specialize (H (i + 1) ltac:(lia)).
        by replace (s1 + 1 + i) with (s1 + (i + 1)) by lia;
           replace (s2 + 1 + i) with (s2 + (i + 1)) by lia.
    + split; [lia |]. intros H. specialize (H 0 ltac:(lia)). by rewrite !Z.add_0_r in H.
Qed.

Lemma copy_forward_spec m d s n x :
  d <= s \/ s + Z.of_nat n <= d ->
  copy_forward m d s n x =
  if (d <=? x) && (x <? d + Z.of_nat n) then m (s + (x - d)) else m x.
Proof.
  revert m d s. induction n as [|n IH]; intros m d s Hov; cbn [copy_forward].
  - bool_cases; simpl; try done; lia.
  - rewrite IH by lia. unfold store. bool_cases; simpl; subst; try done; try lia;
      try (f_equal; lia).
Qed.

Lemma copy_backward_spec m d s n x :
  s <= d ->
  copy_backward m d s n x =
  if (d - Z.of_nat n <=? x) && (x <? d) then m (s + (x - d)) else m x.
Proof.
  revert m d s. induction n as [|n IH]; intros m d s Hov; cbn [copy_backward].
  - bool_cases; simpl; try done; lia.
  - rewrite IH by lia. unfold store. bool_cases; simpl; subst; try done; try lia;
      try (f_equal; lia).
Qed.

Lemma memmove_spec m dst src n x :
  0 <= n ->
  memmove m dst src n x = if (dst <=? x) && (x <? dst + n) then m (src + (x - dst)) else m x.
Proof.
  intros Hn. unfold memmove.
  destruct ((src <? dst) && (dst <? src + n)) eqn:Hov.
  - apply andb_prop in Hov as [H1 H2]. apply Z.ltb_lt in H1. apply Z.ltb_lt in H2.
    rewrite copy_backward_spec, Z2Nat.id by lia.
    replace (dst + n - n) with dst by lia.
    by replace (src + n + (x - (dst + n))) with (src + (x - dst)) by lia.
  - rewrite copy_forward_spec, Z2Nat.id by (try lia; bool_cases; simpl in Hov; try done; lia).
    done.
Qed.

(** * What the string routines do *)

Lemma strlen_loop_spec fuel m s n str :
  cstr m (s + n) str -> (length str < fuel)%nat ->
  strlen_loop fuel m s n = Ok (n + Z.of_nat (length str)).
Proof.
  revert n str. induction fuel as [|f IH]; intros n str Hs Hf; [lia |].
  cbn [strlen_loop]. destruct str as [|c str]; simpl in Hs.
  - rewrite Hs. simpl. f_equal. lia.
  - destruct Hs as (Hc & Hc0 & Hs). destruct (Z.eqb_spec (m (s + n)) 0); [congruence |].
    rewrite (IH (n + 1) str); [f_equal; simpl; lia | | simpl in Hf; lia].
    by replace (s + (n + 1)) with (s + n + 1) by lia.
Qed.

Lemma strlen_spec fuel m s str :
  cstr m s str -> (length str < fuel)%nat -> strlen fuel m s = Ok (Z.of_nat (length str)).
Proof.
  intros Hs Hf. unfold strlen. rewrite (strlen_loop_spec fuel m s 0 str); [f_equal; lia | | done].
  by replace (s + 0) with s by lia.
Qed.

(** [strcpy] to a destination below the source, or beyond its end: the
    destination holds the string, and nothing else changes. *)
Lemma strcpy_spec fuel m s t str :
  cstr m t str -> (length str < fuel)%nat ->
  s <= t \/ t + Z.of_nat (length str) < s ->
  exists m', strcpy fuel m s t = Ok m' /\ cstr m' s str /\
    forall x, x < s \/ s + Z.of_nat (length str) < x -> m' x = m x.
Proof.
  revert m s t str. induction fuel as [|f IH]; intros m s t str Hs Hf Hov; [lia |].
  cbn [strcpy]. destruct str as [|c str]; simpl in Hs.
  - rewrite Hs. simpl. eexists. split; [done |]. simpl. split; [apply store_eq |].
    intros x Hx. rewrite store_ne; [done | lia].
  - destruct Hs as (Hc & Hc0 & Hs). destruct (Z.eqb_spec (m t) 0); [congruence |].
    simpl length in *. destruct (IH (store m s (m t)) (s + 1) (t + 1) str) as (m' & He & Hm' & Hfr).
    + eapply cstr_ext; [| exact Hs]. intros x Hx. rewrite store_ne; [done | lia].
    + lia.
    + lia.
    + exists m'. split; [done |]. split.
      * simpl. rewrite Hfr, store_eq by lia. done.
      * intros x Hx. rewrite Hfr, store_ne by lia. done.
Qed.

Lemma strncpy_pad_spec m s n x :
  strncpy_pad m s n x = if (s <=? x) && (x <? s + Z.of_nat n) then 0 else m x.
Proof.
  revert m s. induction n as [|n IH]; intros m s; cbn [strncpy_pad].
  - bool_cases; simpl; try done; lia.
  - rewrite IH. unfold store. bool_cases; simpl; try done; lia.
Qed.

(** Byte [i] of the [n] that [strncpy] writes: the string, then zeros. *)
Definition str_byte (s : cstring) (i : Z) : Z := default 0 (s !! Z.to_nat i).

Lemma str_byte_cons c s i :
  0 <= i -> str_byte (c :: s) i = if i =? 0 then c else str_byte s (i - 1).
Proof.
  intros Hi. unfold str_byte. destruct (Z.eqb_spec i 0) as [->|Hne]; [done |].
  by replace (Z.to_nat i) with (S (Z.to_nat (i - 1))) by lia.
Qed.

Lemma strncpy_loop_spec m s t n str x :
  cstr m t str ->
  s + Z.of_nat n <= t \/ t + Z.of_nat (length str) < s ->
  strncpy_loop m s t n x =
  if (s <=? x) && (x <? s + Z.of_nat n) then str_byte str (x - s) else m x.
Proof.
  revert m s t str. induction n as [|n IH]; intros m s t str Hs Hov; cbn [strncpy_loop].
  - bool_cases; simpl; try done; lia.
  - destruct str as [|c str]; simpl in Hs.
    + rewrite Hs. simpl (0 =? 0). cbv iota. rewrite strncpy_pad_spec.
      unfold str_byte. rewrite lookup_nil. unfold store.
      bool_cases; simpl; try done; lia.
    + destruct Hs as (Hc & Hc0 & Hs). destruct (Z.eqb_spec (m t) 0); [congruence |].
      simpl length in Hov. rewrite (IH _ _ _ str); [| | lia].
      * unfold store. bool_cases; simpl; try done; try lia; rewrite str_byte_cons by lia;
          bool_cases; try lia; f_equal; lia.
      * eapply cstr_ext; [| exact Hs]. intros y Hy. rewrite store_ne; [done | lia].
Qed.

Lemma safestrcpy_loop_spec m s t n str m' s' :
  cstr m t str ->
  s + Z.of_nat n < t \/ t + Z.of_nat (length str) < s ->
  safestrcpy_loop m s t n = (m', s') ->
  s <= s' <= s + Z.of_nat n /\
  s' = s + Z.of_nat (n `min` S (length str)) /\
  forall x, m' x = if (s <=? x) && (x <? s') then str_byte str (x - s) else m x.
Proof.
  revert m s t str. induction n as [|n IH]; intros m s t str Hs Hov; cbn [safestrcpy_loop].
  - intros [= <- <-]. repeat split; try lia. intros x. bool_cases; simpl; try done; lia.
  - destruct str as [|c str]; simpl in Hs.
    + rewrite Hs. simpl (0 =? 0). intros [= <- <-]. repeat split; try (simpl; lia).
      intros x. unfold str_byte. rewrite lookup_nil. unfold store.
      bool_cases; simpl; try done; lia.
    + destruct Hs as (Hc & Hc0 & Hs). destruct (Z.eqb_spec (m t) 0); [congruence |].
      simpl length in Hov. intros He.
      apply (IH _ _ _ str) in He as (H1 & H2 & H3);
        [| eapply cstr_ext; [| exact Hs]; intros y Hy; rewrite store_ne; [done | lia] | lia].
      split; [lia |]. split; [simpl; lia |]. intros x. rewrite H3.
      unfold store. bool_cases; simpl; try done; try lia; rewrite str_byte_cons by lia;
        bool_cases; try lia; f_equal; lia.
Qed.

Lemma str_byte_in str i :
  0 <= i < Z.of_nat (length str) -> str !! Z.to_nat i = Some (str_byte str i).
Proof.
  intros H. unfold str_byte.
  destruct (lookup_lt_is_Some_2 str (Z.to_nat i)) as [c ->]; [lia | done].
Qed.

Lemma str_byte_out str i : Z.of_nat (length str) <= i -> str_byte str i = 0.
Proof. intros H. unfold str_byte. by rewrite lookup_ge_None_2 by lia. Qed.

Lemma cstr_str_byte m p str i :
  cstr m p str -> 0 <= i <= Z.of_nat (length str) -> m (p + i) = str_byte str i.
Proof.
  intros Hs Hi. destruct (Z.eq_dec i (Z.of_nat (length str))) as [->|Hne].
  - rewrite str_byte_out by lia. by apply cstr_nul.
  - destruct (cstr_lookup m p str (Z.to_nat i) (str_byte str i)) as [H _];
      [done | apply str_byte_in; lia |].
    by rewrite Z2Nat.id in H by lia.
Qed.

(** A NUL-terminated prefix read back as a string. *)
Lemma cstr_of_str_byte m p str k :
  (forall i c, str !! i = Some c -> c <> 0) ->
  (k <= length str)%nat ->
  (forall i, 0 <= i < Z.of_nat k -> m (p + i) = str_byte str i) ->
  m (p + Z.of_nat k) = 0 ->
  cstr m p (take k str).
Proof.
  intros Hnz Hk Hb H0. apply cstr_intro.
  - intros i c Hi. apply lookup_take_Some in Hi as [Hi Hlt].
    rewrite Hb by lia. unfold str_byte. rewrite Nat2Z.id, Hi. simpl. eauto.
  - by rewrite length_take, Nat.min_l by done.
Qed.

Lemma strcat_loop_spec fuel m dest src i j str rest :
  cstr m (src + j) rest -> (length rest < fuel)%nat ->
  dest + (i + j) + Z.of_nat (length rest) < src \/
    src + j + Z.of_nat (length rest) < dest + (i + j) ->
  (forall k c, str !! k = Some c -> m (dest + Z.of_nat k) = c /\ c <> 0) ->
  Z.of_nat (length str) = i + j -> 0 <= j ->
  exists m', strcat_loop fuel m dest src i j = Ok m' /\ cstr m' dest (str ++ rest) /\
    forall x, x < dest + (i + j) \/ dest + (i + j) + Z.of_nat (length rest) < x -> m' x = m x.
Proof.
  revert m j str rest. induction fuel as [|f IH]; intros m j str rest Hr Hf Hov Hs Hl Hj; [lia |].
  cbn [strcat_loop]. destruct rest as [|c rest]; simpl in Hr.
  - rewrite Hr. simpl. eexists. split; [done |]. rewrite app_nil_r. split.
    + apply cstr_intro.
      * intros k c Hk. pose proof (lookup_lt_Some _ _ _ Hk).
        rewrite store_ne by lia. auto.
      * rewrite Hl. apply store_eq.
    + intros x Hx. apply store_ne. lia.
  - destruct Hr as (Hc & Hc0 & Hr). simpl length in *.
    destruct (Z.eqb_spec (m (src + j)) 0); [congruence |].
    destruct (IH (store m (dest + (i + j)) (m (src + j))) (j + 1) (str ++ [c]) rest)
      as (m' & He & Hm' & Hfr).
    + eapply cstr_ext; [| replace (src + (j + 1)) with (src + j + 1) by lia; exact Hr].
      intros x Hx. rewrite store_ne; [done | lia].
    + lia.
    + lia.
    + intros k d Hk. apply lookup_app_Some in Hk as [Hk | [Hk1 Hk2]].
      * pose proof (lookup_lt_Some _ _ _ Hk). rewrite store_ne by lia. auto.
      * apply list_lookup_singleton_Some in Hk2 as [Hk2 <-].
        replace (dest + Z.of_nat k) with (dest + (i + j)) by lia. by rewrite store_eq.
    + rewrite length_app. simpl. lia.
    + lia.
    + exists m'. rewrite <- app_assoc in Hm'. split; [done |]. split; [done |].
      intros x Hx. rewrite Hfr, store_ne by lia. done.
Qed.

(** [strcat] appends, touching only the bytes after the destination string. *)
Lemma strcat_spec fuel m dest src s t :
  cstr m dest s -> cstr m src t ->
  (length s < fuel)%nat -> (length t < fuel)%nat ->
  dest + Z.of_nat (length s) + Z.of_nat (length t) < src \/
    src + Z.of_nat (length t) < dest + Z.of_nat (length s) ->
  exists m', strcat fuel m dest src = Ok m' /\ cstr m' dest (s ++ t) /\
    forall x, x < dest + Z.of_nat (length s) \/
      dest + Z.of_nat (length s) + Z.of_nat (length t) < x -> m' x = m x.
Proof.
  intros Hs Ht Hfs Hft Hov. unfold strcat.
  rewrite (strlen_loop_spec fuel m dest 0 s); [| by replace (dest + 0) with dest by lia | done].
  simpl. destruct (strcat_loop_spec fuel m dest src (Z.of_nat (length s)) 0 s t)
    as (m' & He & Hm' & Hfr); try lia; try done.
  - by replace (src + 0) with src by lia.
  - intros k c Hk. by apply (cstr_lookup m dest s).
  - exists m'. rewrite Z.add_0_l. split; [done |]. split; [done |].
    intros x Hx. apply Hfr. lia.
Qed.

(** ** Tokens *)

(** Whether a byte is one of the delimiters. *)
Definition delimb (d : list Z) (c : Z) : bool := bool_decide (c ∈ d).

Lemma strchr_spec fuel m s str c :
  cstr m s str -> (length str < fuel)%nat -> 0 < s ->
  exists p, strchr fuel m s c = Ok p /\ negb (p =? 0) = delimb str c.
Proof.
  revert s str. induction fuel as [|f IH]; intros s str Hs Hf H0; [lia |].
  cbn [strchr]. destruct str as [|d str]; simpl in Hs.
  - rewrite Hs. simpl. exists 0. split; [done |]. unfold delimb.
    by rewrite bool_decide_eq_false_2 by (apply not_elem_of_nil).
  - destruct Hs as (Hd & Hd0 & Hs). destruct (Z.eqb_spec (m s) 0); [congruence |].
    destruct (Z.eqb_spec (m s) c) as [He|He].
    + exists s. split; [done |]. unfold delimb. destruct (Z.eqb_spec s 0); [lia |].
      rewrite bool_decide_eq_true_2; [done |]. rewrite <- He, Hd. apply list_elem_of_here.
    + destruct (IH (s + 1) str) as (p & Hp & Hb); [done | simpl in Hf; lia | lia |].
      exists p. split; [done |]. rewrite Hb. unfold delimb. apply bool_decide_ext.
      rewrite elem_of_cons. intuition congruence.
Qed.

(** The rest of [s] after its leading delimiters, the length of its leading
    token, and all its tokens. *)
Fixpoint skip_delims (d s : list Z) : list Z :=
  match s with
  | [] => []
  | c :: s' => if delimb d c then skip_delims d s' else s
  end.

Fixpoint tok_len (d s : list Z) : nat :=
  match s with
  | [] => 0
  | c :: s' => if delimb d c then 0 else S (tok_len d s')
  end.

Fixpoint toks (d s : list Z) : list Z * list (list Z) :=
  match s with
  | [] => ([], [])
  | c :: s' =>
      let '(w, ws) := toks d s' in
      if delimb d c then ([], match w with [] => ws | _ => w :: ws end)
      else (c :: w, ws)
  end.

Definition tokens (d s : list Z) : list (list Z) :=
  let '(w, ws) := toks d s in match w with [] => ws | _ => w :: ws end.

Lemma tokens_delim d c s : delimb d c = true -> tokens d (c :: s) = tokens d s.
Proof. intros H. unfold tokens. cbn [toks]. destruct (toks d s). by rewrite H. Qed.

Lemma tokens_skip d s : tokens d (skip_delims d s) = tokens d s.
Proof.
  induction s as [|c s IH]; [done |]. cbn [skip_delims].
  destruct (delimb d c) eqn:H; [| done]. by rewrite tokens_delim.
Qed.

Lemma toks_spec d s :
  toks d s = (take (tok_len d s) s, tokens d (drop (tok_len d s) s)).
Proof.
  induction s as [|c s IH]; [done |]. cbn [tok_len].
  destruct (delimb d c) eqn:H; cbn [toks]; rewrite H.
  - simpl. rewrite (tokens_delim d c s H). unfold tokens. by destruct (toks d s).
  - by rewrite IH.
Qed.

Lemma tok_len_le d s : (tok_len d s <= length s)%nat.
Proof. induction s as [|c s IH]; simpl; [lia |]. destruct (delimb d c); simpl; lia. Qed.

Lemma tokens_drop_S d s :
  tokens d (drop (tok_len d s) s) = tokens d (drop (S (tok_len d s)) s).
Proof.
  induction s as [|c s IH]; [done |]. cbn [tok_len].
  destruct (delimb d c) eqn:H.
  - by rewrite skipn_O, tokens_delim.
  - exact IH.
Qed.

Lemma tokens_cons d c s :
  delimb d c = false ->
  tokens d (c :: s) =
  take (tok_len d (c :: s)) (c :: s) :: tokens d (drop (S (tok_len d (c :: s))) (c :: s)).
Proof.
  intros H. unfold tokens at 1. rewrite toks_spec, tokens_drop_S.
  cbn [tok_len]. by rewrite H.
Qed.

Lemma skip_delims_head d s c s' : skip_delims d s = c :: s' -> delimb d c = false.
Proof.
  induction s as [|e s IH]; simpl; [done |]. destruct (delimb d e) eqn:H; [auto |].
  by intros [= -> ->].
Qed.

Lemma skip_delims_suffix d s :
  exists p, s = p ++ skip_delims d s.
Proof.
  induction s as [|e s [p IH]]; simpl; [by exists [] |]. destruct (delimb d e).
  - exists (e :: p). simpl. by f_equal.
  - by exists [].
Qed.

Lemma strcspn_loop_spec fuel m s1 s2 d r str :
  cstr m s1 str -> cstr m s2 d -> 0 < s2 ->
  (length str + length d < fuel)%nat ->
  strcspn_loop fuel m s1 s2 r = Ok (r + Z.of_nat (tok_len d str)).
Proof.
  revert s1 r str. induction fuel as [|f IH]; intros s1 r str Hs Hd H0 Hf; [lia |].
  cbn [strcspn_loop]. destruct str as [|c str]; simpl in Hs.
  - rewrite Hs. simpl. f_equal. lia.
  - destruct Hs as (Hc & Hc0 & Hs). destruct (Z.eqb_spec (m s1) 0); [congruence |].
    simpl length in Hf.
    destruct (strchr_spec (S f) m s2 d (m s1)) as (p & Hp & Hb); [done | lia | done |].
    rewrite Hp. cbn [rbind]. rewrite Hb, Hc. cbn [tok_len]. destruct (delimb d c) eqn:Hdc.
    + f_equal. lia.
    + rewrite (IH _ _ str); [f_equal; lia | done | done | done | lia].
Qed.

Lemma strtok_skip_spec fuel m s dl d str :
  cstr m s str -> cstr m dl d -> 0 < dl ->
  (length str + length d < fuel)%nat ->
  strtok_skip fuel m s dl =
  Ok (match skip_delims d str with
      | [] => None
      | s' => Some (s + (Z.of_nat (length str) - Z.of_nat (length s')))
      end).
Proof.
  revert s str. induction fuel as [|f IH]; intros s str Hs Hd H0 Hf; [lia |].
  cbn [strtok_skip]. destruct str as [|c str]; simpl in Hs.
  - by rewrite Hs.
  - destruct Hs as (Hc & Hc0 & Hs). destruct (Z.eqb_spec (m s) 0); [congruence |].
    simpl length in Hf.
    destruct (strchr_spec (S f) m dl d (m s)) as (p & Hp & Hb); [done | lia | done |].
    rewrite Hp. cbn [rbind]. rewrite Hb, Hc. cbn [skip_delims].
    destruct (delimb d c) eqn:Hdc.
    + rewrite (IH _ str) by (done || lia). destruct (skip_delims d str); [done |].
      do 2 f_equal. simpl. lia.
    + do 2 f_equal. lia.
Qed.

Lemma cstr_drop m p str k :
  cstr m p str -> (k <= length str)%nat -> cstr m (p + Z.of_nat k) (drop k str).
Proof.
  intros H Hk. rewrite <- (take_drop k str) in H. apply cstr_app in H as [_ H].
  by rewrite length_take, Nat.min_l in H by done.
Qed.

(** One call of [strtok] on a string [str]: nothing left and a null result,
    or the first token, cut out of the string by a NUL, with [lasts] at what
    follows it. *)
Lemma strtok_spec fuel m lasts s dl d str q :
  q = (if s =? 0 then lasts else s) ->
  cstr m q str -> cstr m dl d -> 0 < dl ->
  dl + Z.of_nat (length d) < q \/ q + Z.of_nat (length str) < dl ->
  (length str + length d < fuel)%nat ->
  match skip_delims d str with
  | [] => strtok fuel m lasts s dl = Ok (0, m, lasts)
  | str' =>
      let t := q + (Z.of_nat (length str) - Z.of_nat (length str')) in
      let e := t + Z.of_nat (tok_len d str') in
      exists m' lasts',
        strtok fuel m lasts s dl = Ok (t, m', lasts') /\
        (lasts' = e /\ drop (S (tok_len d str')) str' = [] \/ lasts' = e + 1) /\
        cstr m' t (take (tok_len d str') str') /\
        cstr m' lasts' (drop (S (tok_len d str')) str') /\
        lasts' + Z.of_nat (length (drop (S (tok_len d str')) str')) <= q + Z.of_nat (length str) /\
        (forall x, ~ (q <= x < q + Z.of_nat (length str)) -> m' x = m x)
  end.
Proof.
  intros Hq Hs Hd H0 Hov Hf. unfold strtok. rewrite <- Hq.
  rewrite (strtok_skip_spec fuel m q dl d str) by done.
  destruct (skip_delims_suffix d str) as [pre Hpre].
  destruct (skip_delims d str) as [|c str'] eqn:Hsk; [done |].
  cbn [rbind]. rewrite <- Hsk in *. set (rest := skip_delims d str) in *.
  pose proof (f_equal length Hpre) as Hlen. rewrite length_app in Hlen.
  set (t := q + (Z.of_nat (length str) - Z.of_nat (length rest))).
  assert (Hrest : cstr m t rest).
  { rewrite Hpre in Hs. apply cstr_app in Hs as [_ Hs].
    by replace t with (q + Z.of_nat (length pre)) by lia. }
  pose proof (tok_len_le d rest) as Hle.
  assert (Hsp : strcspn fuel m t dl = Ok (Z.of_nat (tok_len d rest))).
  { unfold strcspn. rewrite (strcspn_loop_spec fuel m t dl d 0 rest); try done. lia. }
  rewrite Hsp. cbn [rbind]. set (n := tok_len d rest) in *.
  pose proof (cstr_drop m t rest n Hrest Hle) as Hdrop.
  rewrite (cstr_str_byte m t rest) by (done || lia).
  destruct (decide (n = length rest)) as [Hn|Hn].
  - rewrite str_byte_out by lia. cbn [negb Z.eqb]. exists m, (t + Z.of_nat n).
    rewrite take_ge, drop_ge by lia. split; [done |]. split; [by left |].
    repeat split; try done; try (simpl; lia). rewrite Hn. by apply cstr_nul.
  - destruct (cstr_lookup m t rest n (str_byte rest (Z.of_nat n))) as [Hb Hb0];
      [done | rewrite <- (Nat2Z.id n) at 1; apply str_byte_in; lia |].
    destruct (Z.eqb_spec (str_byte rest (Z.of_nat n)) 0); [done |]. cbn [negb].
    eexists _, _. split; [done |]. split; [by right |]. repeat split; try lia.
    + apply cstr_of_str_byte; [| lia | |].
      * intros i b Hi. by apply (cstr_lookup m t rest i b).
      * intros i Hi. rewrite store_ne by lia. apply cstr_str_byte; [done | lia].
      * apply store_eq.
    + eapply cstr_ext with m; [intros x Hx; rewrite store_ne; [done | lia] |].
      replace (t + Z.of_nat n + 1) with (t + Z.of_nat (S n)) by lia.
      apply cstr_drop; [done | lia].
    + rewrite length_drop. lia.
    + intros x Hx. apply store_ne. lia.
Qed.

(** The idiom of container.c: the array of tokens of a string, read with
    [strtok(s, delim)] and then [strtok(0, delim)] until it answers 0. *)
Fixpoint strtok_all (n fuel : nat) (m : mem) (lasts s delim : Z)
  : res (list Z * mem * Z) :=
  match n with
  | O => Hang
  | S n' =>
      let! (p, m, lasts) := strtok fuel m lasts s delim in
      if p =? 0 then Ok ([], m, lasts)
      else
        let! (ps, m, lasts) := strtok_all n' fuel m lasts 0 delim in
        Ok (p :: ps, m, lasts)
  end.

Lemma strtok_all_spec n fuel m lasts s dl d str q :
  q = (if s =? 0 then lasts else s) -> 0 < q ->
  cstr m q str -> cstr m dl d -> 0 < dl ->
  dl + Z.of_nat (length d) < q \/ q + Z.of_nat (length str) < dl ->
  (length str + length d < fuel)%nat -> (length str < n)%nat ->
  exists ps m' lasts',
    strtok_all n fuel m lasts s dl = Ok (ps, m', lasts') /\
    Forall2 (cstr m') ps (tokens d str) /\
    (forall x, ~ (q <= x < q + Z.of_nat (length str)) -> m' x = m x).
Proof.
  revert m lasts s str q.
  induction n as [|n IH]; intros m lasts s str q Hq Hq0 Hs Hd H0 Hov Hf Hn; [lia |].
  cbn [strtok_all]. pose proof (strtok_spec fuel m lasts s dl d str q Hq Hs Hd H0 Hov Hf) as H.
  rewrite <- (tokens_skip d str).
  destruct (skip_delims_suffix d str) as [pre Hpre].
  destruct (skip_delims d str) as [|c str'] eqn:Hsk.
  - rewrite H. simpl. exists [], m, lasts. split; [done |]. split; [constructor | done].
  - pose proof (skip_delims_head _ _ _ _ Hsk) as Hc.
    apply (f_equal length) in Hpre. rewrite length_app in Hpre.
    cbv zeta in H. destruct H as (m1 & lasts1 & He & Hle & Htok & Hrest & Hl & Hfr).
    rewrite He. cbn [rbind]. rewrite (tokens_cons d c str' Hc).
    set (n' := tok_len d (c :: str')) in *. set (rest := drop (S n') (c :: str')) in *.
    assert (Hr : (length rest < length (c :: str'))%nat)
      by (unfold rest; rewrite length_drop; simpl; lia).
    pose proof (tok_len_le d (c :: str')) as Hn'. fold n' in Hn'.
    set (t := q + (Z.of_nat (length str) - Z.of_nat (length (c :: str')))) in *.
    destruct (Z.eqb_spec t 0); [lia |].
    destruct (IH m1 lasts1 0 rest lasts1) as (ps & m2 & lasts2 & He2 & Hps & Hfr2);
      try done; try lia.
    + eapply cstr_ext; [| exact Hd]. intros x Hx. symmetry. apply Hfr. lia.
    + rewrite He2. cbn [rbind]. eexists _, m2, lasts2. split; [done |]. split.
      * constructor; [| done]. eapply cstr_ext; [| exact Htok].
        intros x Hx. symmetry. apply Hfr2. rewrite length_take in Hx.
        destruct Hle as [[-> ->] | ->]; simpl; lia.
      * intros x Hx. rewrite Hfr2, Hfr by lia. done.
Qed.

(** * Decimal conversion *)

(** The number whose decimal digits, least significant first, are [ds]. *)
Definition le_val (ds : list Z) : Z := foldr (fun d acc => d + 10 * acc) 0 ds.

Lemma le_val_range ds :
  Forall (fun d => 0 <= d < 10) ds -> 0 <= le_val ds < 10 ^ Z.of_nat (length ds).
Proof.
  induction 1 as [|d ds Hd _ IH]; [simpl; lia |]. cbn [le_val foldr length].
  fold (le_val ds). rewrite Nat2Z.inj_succ, Z.pow_succ_r by lia. lia.
Qed.

Lemma le_val_snoc ds d : le_val (ds ++ [d]) = le_val ds + d * 10 ^ Z.of_nat (length ds).
Proof.
  induction ds as [|e ds IH]; [simpl; lia |]. simpl length.
  change (le_val ((e :: ds) ++ [d])) with (e + 10 * le_val (ds ++ [d])).
  change (le_val (e :: ds)) with (e + 10 * le_val ds).
  rewrite IH, Nat2Z.inj_succ, Z.pow_succ_r; lia.
Qed.

Lemma itoa_digits_spec f m num str i :
  0 <= num < 10 ^ Z.of_nat f ->
  exists ds m', itoa_digits (S f) m num str 10 i = Ok (m', i + Z.of_nat (length ds)) /\
    Forall (fun d => 0 <= d < 10) ds /\ le_val ds = num /\ (length ds <= f)%nat /\
    (forall j d, ds !! j = Some d -> m' (str + i + Z.of_nat j) = 48 + d) /\
    (forall x, ~ (str + i <= x < str + i + Z.of_nat (length ds)) -> m' x = m x).
Proof.
  revert m num i. induction f as [|f IH]; intros m num i Hn.
  - cbn [itoa_digits]. simpl in Hn. destruct (Z.eqb_spec num 0); [| lia]. exists [], m. simpl.
    rewrite Z.add_0_r. repeat split; try done; lia.
  - remember (S f) as g eqn:Hg. cbn [itoa_digits]. subst g.
    destruct (Z.eqb_spec num 0) as [->|H0].
    + exists [], m. simpl. rewrite Z.add_0_r. repeat split; try done; lia.
    + rewrite Nat2Z.inj_succ, Z.pow_succ_r in Hn by lia.
      simpl (10 =? 0). cbv iota.
      rewrite Z.rem_mod_nonneg, Z.quot_div_nonneg by lia.
      pose proof (Z.div_mod num 10). pose proof (Z.mod_pos_bound num 10).
      destruct (Z.ltb_spec 9 (num mod 10)); [lia |]. rewrite uchar_small by lia.
      destruct (IH (store m (str + i) (num mod 10 + 48)) (num / 10) (i + 1))
        as (ds & m' & He & Hds & Hv & Hl & Hb & Hfr); [lia |].
      exists (num mod 10 :: ds), m'. simpl length.
      split; [rewrite He; do 2 f_equal; lia |].
      split; [constructor; [lia | done] |].
      split; [simpl; fold (le_val ds); lia |]. split; [lia |]. split.
      * intros [|j] d; simpl.
        -- intros [= <-].
           replace (str + i + Z.of_nat 0) with (str + i) by lia.
           rewrite Hfr, store_eq by lia. lia.
        -- intros Hj. replace (str + i + Z.of_nat (S j)) with (str + (i + 1) + Z.of_nat j) by lia.
           auto.
      * intros x Hx. rewrite Hfr, store_ne by lia. done.
Qed.

Lemma itoa_reverse_spec m str i j count x :
  0 <= j -> 2 * (j + Z.of_nat count) <= i ->
  itoa_reverse m str i j count x =
  if ((str + j <=? x) && (x <? str + j + Z.of_nat count)) ||
     ((str + (i - j - Z.of_nat count) <=? x) && (x <? str + (i - j)))
  then m (2 * str + i - 1 - x) else m x.
Proof.
  revert m j. induction count as [|count IH]; intros m j Hj Hi; cbn [itoa_reverse].
  - bool_cases; simpl; try done; lia.
  - rewrite IH by lia. unfold store.
    bool_cases; simpl; subst; try done; try lia; f_equal; lia.
Qed.

Lemma itoa_reverse_all m str i x :
  0 <= i ->
  itoa_reverse m str i 0 (Z.to_nat (i / 2)) x =
  if (str <=? x) && (x <? str + i) then m (2 * str + i - 1 - x) else m x.
Proof.
  intros Hi. pose proof (Z.div_mod i 2). pose proof (Z.mod_pos_bound i 2).
  rewrite itoa_reverse_spec, Z2Nat.id by lia.
  bool_cases; simpl; try done; try lia. f_equal. lia.
Qed.

Lemma atoi_loop_spec fuel m s n ds :
  Forall (fun d => 0 <= d < 10) ds -> (length ds < fuel)%nat -> 0 <= n ->
  n * 10 ^ Z.of_nat (length ds) + le_val (reverse ds) < 2147483648 ->
  (forall j d, ds !! j = Some d -> m (s + Z.of_nat j) = 48 + d) ->
  m (s + Z.of_nat (length ds)) = 0 ->
  atoi_loop fuel m s n = Ok (n * 10 ^ Z.of_nat (length ds) + le_val (reverse ds)).
Proof.
  revert s n ds. induction fuel as [|f IH]; intros s n ds Hds Hf Hn Hmax Hb H0; [lia |].
  cbn [atoi_loop]. destruct ds as [|d ds].
  - rewrite Z.add_0_r in H0. rewrite H0. simpl. f_equal. lia.
  - apply Forall_cons in Hds as [Hd Hds]. simpl length in *.
    pose proof (Hb 0%nat d eq_refl) as Hd0. rewrite Z.add_0_r in Hd0.
    assert (Hs : schar (m s) = 48 + d) by (rewrite Hd0; unfold schar; rewrite Z.mod_small; lia).
    rewrite Hs. destruct (Z.leb_spec 48 (48 + d)); [| lia].
    destruct (Z.leb_spec (48 + d) 57); [| lia]. cbn [andb].
    rewrite reverse_cons in *.
    rewrite le_val_snoc, length_reverse, Nat2Z.inj_succ, Z.pow_succ_r in * by lia.
    assert (Hr : 0 <= le_val (reverse ds)) by (apply le_val_range, Forall_reverse; done).
    assert (Hp : 1 <= 10 ^ Z.of_nat (length ds)) by (apply (Z.pow_le_mono_r 10 0); lia).
    rewrite i32_small by nia.
    rewrite (IH (s + 1) _ ds); [f_equal; lia | done | lia | lia | lia | |].
    + intros j e Hj. replace (s + 1 + Z.of_nat j) with (s + Z.of_nat (S j)) by lia. by apply Hb.
    + by replace (s + 1 + Z.of_nat (length ds)) with (s + Z.succ (Z.of_nat (length ds))) by lia.
Qed.

(** * Properties of the string library *)

(** [memmove] copies [n] bytes from [src] to [dst] as they were before
    the call, whether or not the two blocks overlap and in which direction,
    and changes no byte outside the destination block. *)
Theorem memmove_correct m dst src n :
  0 <= n ->
  (forall i, 0 <= i < n -> memmove m dst src n (dst + i) = m (src + i)) /\
  (forall x, x < dst \/ dst + n <= x -> memmove m dst src n x = m x).
Proof.
  intros Hn. split; intros; rewrite memmove_spec by done; bool_cases; simpl; try done; try lia.
  f_equal. lia.
Qed.

Lemma memmove_correct_witness :
  let m := write_bytes (fun _ => 0) 100 [1; 2; 3; 4; 5] in
  memmove m 102 100 3 (102 + 2) = m (100 + 2).
Proof. apply (memmove_correct (write_bytes (fun _ => 0) 100 [1; 2; 3; 4; 5]) 102 100 3); lia. Defined.

(** Reading a string with [strtok] until it answers null yields exactly
    the tokens of the string: the returned pointers point to them, in order,
    as NUL-terminated strings of the final memory, and no byte outside the
    tokenised string changes. *)
Theorem strtok_all_tokens fuel m lasts s dl d str :
  0 < s -> 0 < dl -> cstr m s str -> cstr m dl d ->
  dl + Z.of_nat (length d) < s \/ s + Z.of_nat (length str) < dl ->
  (length str + length d < fuel)%nat ->
  exists ps m' lasts',
    strtok_all fuel fuel m lasts s dl = Ok (ps, m', lasts') /\
    Forall2 (cstr m') ps (tokens d str) /\
    (forall x, x < s \/ s + Z.of_nat (length str) <= x -> m' x = m x).
Proof.
  intros Hs Hdl Hstr Hd Hov Hf.
  destruct (strtok_all_spec fuel fuel m lasts s dl d str s)
    as (ps & m' & lasts' & He & Hps & Hfr); try done; try lia.
  - destruct (Z.eqb_spec s 0); [lia | done].
  - exists ps, m', lasts'. split; [done |]. split; [done |].
    intros x Hx. apply Hfr. lia.
Qed.

Lemma strtok_all_tokens_witness :
  let m := write_bytes (write_bytes (fun _ => 0) 100 [47; 97; 47; 47; 98; 99; 0]) 200 [47; 0] in
  exists ps m' lasts',
    strtok_all 20 20 m 0 100 200 = Ok (ps, m', lasts') /\
    Forall2 (cstr m') ps [[97]; [98; 99]] /\
    (forall x, x < 100 \/ 100 + 6 <= x -> m' x = m x).
Proof.
  apply (strtok_all_tokens 20
    (write_bytes (write_bytes (fun _ => 0) 100 [47; 97; 47; 47; 98; 99; 0]) 200 [47; 0])
    0 100 200 [47] [47; 97; 47; 47; 98; 99]); try lia; vm_compute; intuition congruence || lia.
Defined.

(** [itoa] in base 10 writes a decimal numeral that [atoi] reads back,
    for every non-negative [int]; it touches at most eleven bytes, and eleven
    rounds of each loop are enough. *)
Theorem itoa_atoi_roundtrip m num str :
  0 <= num < 2147483648 ->
  exists m', itoa 11 m num str 10 = Ok m' /\ atoi 11 m' str = Ok num /\
    forall x, x < str \/ str + 11 <= x -> m' x = m x.
Proof.
  intros Hn. unfold itoa, atoi. destruct (Z.eqb_spec num 0) as [->|H0].
  { eexists. split; [done |]. split.
    - apply (atoi_loop_spec 11 _ str 0 [0]); try (simpl; lia); simpl.
      + by repeat constructor.
      + intros [|j] d; [intros [= <-] | done]. rewrite Z.add_0_r, store_ne, store_eq; lia.
      + apply store_eq.
    - intros x Hx. rewrite !store_ne by lia. done. }
  destruct (itoa_digits_spec 10 m num str 0) as (ds & m' & He & Hds & Hv & Hl & Hb & Hfr).
  { split; [lia |]. apply Z.lt_trans with 2147483648; [lia | reflexivity]. }
  rewrite He. cbn [rbind]. rewrite Z.add_0_l. eexists. split; [done |]. split.
  - rewrite (atoi_loop_spec 11 _ str 0 (reverse ds)).
    + by rewrite reverse_involutive, Hv.
    + by apply Forall_reverse.
    + rewrite length_reverse. lia.
    + lia.
    + rewrite reverse_involutive, Hv. simpl. lia.
    + intros j d Hj. pose proof (lookup_lt_Some _ _ _ Hj) as Hjl. rewrite length_reverse in Hjl.
      rewrite itoa_reverse_all by lia. bool_cases; simpl; try lia.
      rewrite store_ne by lia. rewrite reverse_lookup in Hj by lia.
      rewrite <- (Hb _ _ Hj). f_equal. lia.
    + rewrite length_reverse, itoa_reverse_all by lia. bool_cases; simpl; try lia; apply store_eq.
  - intros x Hx. rewrite itoa_reverse_all by lia. bool_cases; simpl; try lia;
      rewrite store_ne, Hfr by lia; done.
Qed.

Lemma itoa_atoi_roundtrip_witness :
  exists m', itoa 11 (fun _ => 7) 2147483647 100 10 = Ok m' /\ atoi 11 m' 100 = Ok 2147483647 /\
    forall x, x < 100 \/ 100 + 11 <= x -> m' x = 7.
Proof. apply (itoa_atoi_roundtrip (fun _ => 7) 2147483647 100). lia. Defined.
