(* ===== verification/Params.v ===== *)
(** * Constants and address arithmetic (param.h, memlayout.h, mmu.h)

    The compile-time constants of the kernel and the macros that cut an
    address into page-directory index, page-table index and offset. *)

From S2P Require Import Prelude.

(** param.h *)
Definition NPROC : nat := 64.
Definition KSTACKSIZE : Z := 4096.
Definition NOFILE : nat := 16.
Definition MAXARG : nat := 32.
Definition NFILE : nat := 100.
Definition MAXOPBLOCKS : Z := 10.
Definition LOGSIZE : Z := MAXOPBLOCKS * 3.
Definition MUX_MAXNUM : nat := 16.
Definition FSSIZE : Z := 4000.

(** shm.h *)
Definition SHM_MAXNUM : nat := 16.

(** memlayout.h *)
Definition EXTMEM : Z := 0x100000.
Definition PHYSTOP : Z := 0xE000000.
Definition DEVSPACE : Z := 0xFE000000.
Definition KERNBASE : Z := 0x80000000.
Definition V2P (a : Z) : Z := u32 (a - KERNBASE).
Definition P2V (a : Z) : Z := u32 (a + KERNBASE).

(** mmu.h *)
Definition PGSIZE : Z := 4096.
Definition PDX (va : Z) : Z := Z.land (Z.shiftr va 22) 0x3FF.
Definition PTX (va : Z) : Z := Z.land (Z.shiftr va 12) 0x3FF.
Definition PGADDR (d t o : Z) : Z := u32 (Z.lor (Z.lor (Z.shiftl d 22) (Z.shiftl t 12)) o).
Definition PGROUNDUP (sz : Z) : Z := Z.land (u32 (sz + PGSIZE - 1)) (Z.lnot (PGSIZE - 1)).
Definition PGROUNDDOWN (a : Z) : Z := Z.land a (Z.lnot (PGSIZE - 1)).
Definition PTE_P : Z := 0x001.
Definition PTE_W : Z := 0x002.
Definition PTE_U : Z := 0x004.
Definition PTE_ADDR (pte : Z) : Z := Z.land pte (Z.lnot 0xFFF).
Definition PTE_FLAGS (pte : Z) : Z := Z.land pte 0xFFF.

(** ** Facts about the address macros *)

Lemma land_lnot_pages a : Z.land a (Z.lnot 4095) = a - a mod 4096.
Proof.
  pose proof (Z.ldiff_land a (Z.ones 12)) as H.
  change (Z.ones 12) with 4095 in H. rewrite <- H.
  change 4095 with (Z.ones 12). rewrite Z.ldiff_ones_r by lia.
  rewrite Z.shiftl_mul_pow2, Z.shiftr_div_pow2 by lia. change (2 ^ 12) with 4096.
  pose proof (Z.div_mod a 4096). lia.
Qed.

Lemma pgrounddown_eq a : PGROUNDDOWN a = a - a mod PGSIZE.
Proof. apply land_lnot_pages. Qed.

Lemma pgrounddown_spec a :
  PGROUNDDOWN a <= a < PGROUNDDOWN a + PGSIZE /\ PGROUNDDOWN a mod PGSIZE = 0.
Proof.
  rewrite pgrounddown_eq. unfold PGSIZE. pose proof (Z.mod_pos_bound a 4096).
  split; [lia |]. rewrite Zminus_mod_idemp_r, Z.sub_diag. done.
Qed.

(** Below the last page, rounding up gives the next multiple of the page. *)
Lemma pgroundup_spec a :
  0 <= a <= 4294963200 ->
  a <= PGROUNDUP a < a + PGSIZE /\ PGROUNDUP a mod PGSIZE = 0.
Proof.
  intros H. unfold PGROUNDUP, PGSIZE. change (4096 - 1) with 4095.
  rewrite land_lnot_pages, u32_small by lia.
  pose proof (Z.mod_pos_bound (a + 4096 - 1) 4096).
  split; [lia |]. rewrite Zminus_mod_idemp_r, Z.sub_diag. done.
Qed.

Lemma aligned_eq_mul a : a mod PGSIZE = 0 <-> exists k, a = k * PGSIZE.
Proof.
  unfold PGSIZE. split.
  - intros H. exists (a / 4096). pose proof (Z.div_mod a 4096). lia.
  - intros [k ->]. by rewrite Z_mod_mult.
Qed.

Lemma land_1023 a : Z.land a 0x3FF = a mod 1024.
Proof. change 0x3FF with (Z.ones 10). by rewrite Z.land_ones. Qed.

Lemma pdx_eq va : PDX va = va / 4194304 mod 1024.
Proof. unfold PDX. by rewrite land_1023, Z.shiftr_div_pow2. Qed.

Lemma ptx_eq va : PTX va = va / 4096 mod 1024.
Proof. unfold PTX. by rewrite land_1023, Z.shiftr_div_pow2. Qed.

(** The two indices and the offset determine the address. *)
Lemma va_split va :
  0 <= va < 4294967296 -> va = PDX va * 4194304 + PTX va * 4096 + va mod 4096.
Proof.
  intros H. rewrite pdx_eq, ptx_eq.
  pose proof (Z.div_mod va 4096) as H1. pose proof (Z.div_mod (va / 4096) 1024) as H2.
  replace (va / 4194304) with (va / 4096 / 1024) by (rewrite Z.div_div by lia; f_equal; lia).
  rewrite (Z.mod_small (va / 4096 / 1024)).
  - lia.
  - split; [apply Z.div_pos; [apply Z.div_pos; lia | lia] |].
    rewrite Z.div_div by lia. apply Z.div_lt_upper_bound; lia.
Qed.
