(* ===== verification/Kalloc.v ===== *)
(** * The physical page allocator (kalloc.c)

    Free pages are kept on a list threaded through their first word. The
    state is [kmem] with the memory the pages live in; [kend] is the linker
    symbol [end], the first address after the kernel. The abstract view of
    the allocator is the list of its free pages. *)

From stdpp Require Import gmap.
From S2P Require Import Prelude Mem CString Params.

Record kmem := mkKmem {
  kmem_use_lock : Z;
  kmem_freelist : Z;
  kmem_mem : mem
}.

Section kalloc.
Context (kend : Z).

Definition kfree (v : Z) (k : kmem) : res kmem :=
  if negb (v mod PGSIZE =? 0) || (v <? kend) || (PHYSTOP <=? V2P v) then Panic "kfree"
  else
    let m := memset (kmem_mem k) v 1 PGSIZE in
    Ok (mkKmem (kmem_use_lock k) v (store32 m v (kmem_freelist k))).

Definition kalloc (k : kmem) : Z * kmem :=
  let r := kmem_freelist k in
  if r =? 0 then (r, k)
  else (r, mkKmem (kmem_use_lock k) (load32 (kmem_mem k) r) (kmem_mem k)).

Fixpoint freerange_loop (fuel : nat) (p vend : Z) (k : kmem) : res kmem :=
  match fuel with
  | O => Hang
  | S f =>
      if p + PGSIZE <=? vend
      then let! k := kfree p k in freerange_loop f (p + PGSIZE) vend k
      else Ok k
  end.

(** The loop runs once for each whole page below [vend]. *)
Definition freerange (vstart vend : Z) (k : kmem) : res kmem :=
  let p := PGROUNDUP vstart in
  freerange_loop (S (Z.to_nat ((vend - p) / PGSIZE))) p vend k.

Definition kinit1 (vstart vend : Z) (k : kmem) : res kmem :=
  freerange vstart vend (mkKmem 0 (kmem_freelist k) (kmem_mem k)).

Definition kinit2 (vstart vend : Z) (k : kmem) : res kmem :=
  let! k := freerange vstart vend k in
  Ok (mkKmem 1 (kmem_freelist k) (kmem_mem k)).

(** ** The free list *)

(** The pages [kfree] accepts. *)
Definition page (v : Z) : Prop :=
  v mod PGSIZE = 0 /\ kend <= v /\ KERNBASE <= v < KERNBASE + PHYSTOP.

Fixpoint free_chain (m : mem) (p : Z) (l : list Z) : Prop :=
  match l with
  | [] => p = 0
  | q :: l' => p = q /\ page q /\ free_chain m (load32 m q) l'
  end.

(** The allocator holds exactly the pages [l], next one first. *)
Definition kmem_free (k : kmem) (l : list Z) : Prop :=
  free_chain (kmem_mem k) (kmem_freelist k) l /\ NoDup l.

Lemma page_range v : page v -> 0 < v /\ v + PGSIZE < 4294967296.
Proof. unfold page, KERNBASE, PHYSTOP, PGSIZE. lia. Qed.

Lemma page_apart v w : page v -> page w -> v <> w -> v + PGSIZE <= w \/ w + PGSIZE <= v.
Proof.
  intros (Hv & _ & _) (Hw & _ & _) Hne.
  apply aligned_eq_mul in Hv as [i ->]. apply aligned_eq_mul in Hw as [j ->].
  unfold PGSIZE in *. nia.
Qed.

Lemma kfree_page v k :
  page v ->
  kfree v k = Ok (mkKmem (kmem_use_lock k) v
    (store32 (memset (kmem_mem k) v 1 PGSIZE) v (kmem_freelist k))).
Proof.
  intros (Ha & He & Hr). unfold kfree. rewrite Ha. simpl.
  assert (Hv : V2P v = v - KERNBASE).
  { unfold V2P. apply u32_small. unfold KERNBASE, PHYSTOP in *. lia. }
  rewrite Hv. bool_cases; simpl; try done; lia.
Qed.

Lemma free_chain_ext m m' p l :
  (forall q x, q ∈ l -> q <= x < q + 4 -> m x = m' x) ->
  free_chain m p l -> free_chain m' p l.
Proof.
  revert p. induction l as [|q l IH]; intros p Hx; simpl; [done |].
  intros (-> & Hq & Hc). split; [done |]. split; [done |].
  rewrite <- (load32_ext m m' q).
  - apply IH; [| done]. intros r x Hr. apply Hx. by right.
  - intros x Hr. apply (Hx q); [by left | done].
Qed.

Lemma free_chain_page m p l q : free_chain m p l -> q ∈ l -> page q.
Proof.
  revert p. induction l as [|r l IH]; intros p; simpl; [intros _ H; by apply not_elem_of_nil in H |].
  intros (_ & Hr & Hc) Hq. apply elem_of_cons in Hq as [->|Hq]; eauto.
Qed.

Lemma free_chain_head m p l : free_chain m p l -> 0 <= p < 4294967296.
Proof.
  destruct l as [|q l]; simpl; [lia |]. intros (-> & Hq & _).
  apply page_range in Hq. unfold PGSIZE in Hq. lia.
Qed.

(** Freeing a page that is not on the list puts it on top; the bytes of all
    other pages stay. *)
Lemma kfree_spec v k l :
  page v -> kmem_free k l -> v ∉ l ->
  exists k', kfree v k = Ok k' /\ kmem_free k' (v :: l) /\
    (forall x, x < v \/ v + PGSIZE <= x -> kmem_mem k' x = kmem_mem k x).
Proof.
  intros Hv (Hc & Hnd) Hnin. eexists. split; [by apply kfree_page |].
  assert (Hfr : forall x, x < v \/ v + PGSIZE <= x ->
    store32 (memset (kmem_mem k) v 1 PGSIZE) v (kmem_freelist k) x = kmem_mem k x).
  { intros x Hx. unfold PGSIZE in *. rewrite store32_ne, memset_spec by lia.
    bool_cases; simpl; try done; lia. }
  split; [| done]. split; [| by constructor]. simpl. split; [done |]. split; [done |].
  rewrite load32_store32_eq by (eapply free_chain_head, Hc).
  eapply free_chain_ext; [| exact Hc]. intros q x Hq Hx.
  pose proof (free_chain_page _ _ _ _ Hc Hq) as Hpq.
  destruct (page_apart v q) as [H|H]; try done; [by intros -> | |]; symmetry; apply Hfr;
    unfold PGSIZE in *; lia.
Qed.

Lemma kalloc_spec k l :
  kmem_free k l ->
  match l with
  | [] => kalloc k = (0, k)
  | v :: l' =>
      exists k', kalloc k = (v, k') /\ kmem_free k' l' /\ kmem_mem k' = kmem_mem k /\
        page v /\ v ∉ l'
  end.
Proof.
  intros (Hc & Hnd). unfold kalloc. destruct l as [|v l]; simpl in Hc.
  - by rewrite Hc.
  - destruct Hc as (-> & Hv & Hc). pose proof (page_range v Hv).
    destruct (Z.eqb_spec v 0); [lia |]. apply NoDup_cons in Hnd as [Hnin Hnd].
    eexists. split; [done |]. split; [split; done |]. done.
Qed.

(** The whole pages of a range, the order in which [freerange] stacks them. *)
Definition range_pages (p : Z) (n : nat) : list Z :=
  (fun i => p + Z.of_nat i * PGSIZE) <$> seq 0 n.

Lemma range_pages_S p n : range_pages p (S n) = p :: range_pages (p + PGSIZE) n.
Proof.
  unfold range_pages. cbn [seq fmap list_fmap]. f_equal; [lia |].
  rewrite <- (fmap_S_seq 0 n), <- list_fmap_compose. apply list_fmap_ext. intros i x Hx.
  simpl. lia.
Qed.

Lemma elem_of_range_pages p n q :
  q ∈ range_pages p n <-> exists i, (i < n)%nat /\ q = p + Z.of_nat i * PGSIZE.
Proof.
  unfold range_pages. rewrite list_elem_of_fmap. split.
  - intros (i & -> & Hi). apply elem_of_seq in Hi. exists i. split; [lia | done].
  - intros (i & Hi & ->). exists i. split; [done |]. apply elem_of_seq. lia.
Qed.

Lemma freerange_loop_spec n fuel p vend k l :
  p + Z.of_nat n * PGSIZE <= vend < p + (Z.of_nat n + 1) * PGSIZE ->
  (n < fuel)%nat ->
  (forall q, q ∈ range_pages p n -> page q /\ q ∉ l) ->
  kmem_free k l ->
  exists k', freerange_loop fuel p vend k = Ok k' /\
    kmem_free k' (reverse (range_pages p n) ++ l) /\ kmem_use_lock k' = kmem_use_lock k.
Proof.
  revert fuel p k l. induction n as [|n IH]; intros [|f] p k l Hn Hf Hpg Hk; try lia;
    cbn [freerange_loop]; unfold PGSIZE in Hn.
  - destruct (Z.leb_spec (p + PGSIZE) vend) as [H|H]; [unfold PGSIZE in H; lia |].
    exists k. done.
  - destruct (Z.leb_spec (p + PGSIZE) vend) as [H|H]; [| unfold PGSIZE in H; lia].
    rewrite range_pages_S in Hpg |- *.
    destruct (Hpg p) as [Hp Hpl]; [by left |].
    destruct (kfree_spec p k l Hp Hk Hpl) as (k1 & He & Hk1 & _).
    pose proof He as Hlk. rewrite kfree_page in Hlk by done. injection Hlk as Hlk.
    rewrite He. cbn [rbind].
    destruct (IH f (p + PGSIZE) k1 (p :: l)) as (k' & He' & Hk' & Hl').
    + unfold PGSIZE. lia.
    + lia.
    + intros q Hq. destruct (Hpg q) as [Hq1 Hq2]; [by right |]. split; [done |].
      apply not_elem_of_cons. split; [| done].
      apply elem_of_range_pages in Hq as (i & _ & ->). unfold PGSIZE. lia.
    + done.
    + exists k'. split; [done |]. rewrite reverse_cons, <- app_assoc. split; [done |].
      by rewrite Hl', <- Hlk.
Qed.

(** ** Clients of the allocator

    A client that frees only pages it was given and writes only inside them. *)
Inductive client_step : kmem * gset Z -> kmem * gset Z -> Prop :=
| step_alloc k own v k' :
    kalloc k = (v, k') -> v <> 0 -> client_step (k, own) (k', {[v]} ∪ own)
| step_alloc_fail k own k' :
    kalloc k = (0, k') -> client_step (k, own) (k', own)
| step_free k own v k' :
    v ∈ own -> kfree v k = Ok k' -> client_step (k, own) (k', own ∖ {[v]})
| step_write k own v a b :
    v ∈ own -> v <= a < v + PGSIZE ->
    client_step (k, own) (mkKmem (kmem_use_lock k) (kmem_freelist k) (store (kmem_mem k) a b), own).

(** Every page is either on the free list or with a client. *)
Definition pages_split (pages : gset Z) (s : kmem * gset Z) : Prop :=
  exists l, kmem_free s.1 l /\ s.2 ## list_to_set l /\ s.2 ∪ list_to_set l = pages /\
    forall v, v ∈ s.2 -> page v.

Lemma client_step_split pages s s' :
  pages_split pages s -> client_step s s' -> pages_split pages s'.
Proof.
  intros (l & Hk & Hd & Hu & Hp) Hstep.
  destruct Hstep as [k own v k' He Hv | k own k' He | k own v k' Hv He | k own v a b Hv Ha];
    simpl in *.
  - pose proof (kalloc_spec k l Hk) as H. destruct l as [|w l]; [congruence |].
    destruct H as (k1 & He1 & Hk1 & _ & Hw & Hnin). rewrite He in He1.
    injection He1 as -> ->. exists l. simpl.
    split; [done |]. split; [set_solver |]. split; [set_solver |].
    intros x Hx. apply elem_of_union in Hx as [Hx|Hx]; [| auto].
    by apply elem_of_singleton in Hx as ->.
  - pose proof (kalloc_spec k l Hk) as H. destruct l as [|w l].
    + rewrite He in H. injection H as ->. by exists [].
    + destruct H as (k1 & He1 & _ & _ & Hw & _). rewrite He in He1.
      injection He1 as <- _. apply page_range in Hw. lia.
  - destruct (kfree_spec v k l) as (k1 & He1 & Hk1 & _); [auto | done | set_solver |].
    rewrite He in He1. injection He1 as ->. exists (v :: l). simpl.
    split; [done |]. split; [set_solver |]. split; [| set_solver].
    rewrite <- Hu. apply set_eq. intros x. destruct (decide (x = v)); set_solver.
  - exists l. simpl. split; [| done]. destruct Hk as [Hc Hnd]. split; [| done].
    eapply free_chain_ext; [| exact Hc]. intros q x Hq Hx. simpl. rewrite store_ne; [done |].
    pose proof (free_chain_page _ _ _ _ Hc Hq).
    destruct (page_apart v q) as [H'|H']; auto; [set_solver | |]; unfold PGSIZE in *; lia.
Qed.

Lemma client_steps_split pages s s' :
  pages_split pages s -> rtc client_step s s' -> pages_split pages s'.
Proof. intros H Hr. induction Hr; eauto using client_step_split. Qed.
End kalloc.

(** * Properties of the page allocator *)

(** C28: from an allocator holding the pages [l0], after any sequence of
    allocations, frees of owned pages and writes inside owned pages: no page
    is lost or duplicated (owned and free pages partition the original
    ones), the next allocation answers 0 exactly when every page is owned and
    otherwise returns a page nobody owns, and freeing an owned page never
    panics. *)
Theorem kalloc_exclusive kend k0 l0 k own :
  kmem_free kend k0 l0 -> rtc (client_step kend) (k0, ∅) (k, own) ->
  (exists l, kmem_free kend k l /\ own ## list_to_set l /\ own ∪ list_to_set l = list_to_set l0) /\
  ((kalloc k).1 = 0 <-> own = list_to_set l0) /\
  ((kalloc k).1 <> 0 -> (kalloc k).1 ∉ own) /\
  (forall v, v ∈ own -> exists k', kfree kend v k = Ok k').
Proof.
  intros Hk0 Hr. apply (client_steps_split kend (list_to_set l0)) in Hr.
  2: { exists l0. simpl. split; [done |]. split; [set_solver |]. split; set_solver. }
  destruct Hr as (l & Hk & Hd & Hu & Hp). simpl in *.
  split; [by exists l |]. pose proof (kalloc_spec kend k l Hk) as Ha.
  split; [| split].
  - destruct l as [|v l]; [rewrite Ha; simpl; set_solver |].
    destruct Ha as (k' & -> & _ & _ & Hv & _). apply page_range in Hv. simpl.
    split; [lia |]. intros ->. exfalso. set_solver.
  - destruct l as [|v l]; [rewrite Ha; simpl; done |].
    destruct Ha as (k' & -> & _ & _ & Hv & _). set_solver.
  - intros v Hv. eexists. apply kfree_page. auto.
Qed.

Lemma kalloc_exclusive_witness :
  let k0 := mkKmem 0 0x80400000 (store32 (fun _ => 0) 0x80400000 0) in
  let k1 := mkKmem 0 0 (store32 (fun _ => 0) 0x80400000 0) in
  (kalloc k1).1 = 0 <-> {[0x80400000]} = (list_to_set [0x80400000] : gset Z).
Proof.
  intros k0 k1. apply (kalloc_exclusive 0x80100000 k0 [0x80400000] k1).
  - split; [| apply NoDup_singleton]. simpl. split; [done |].
    split; [unfold page, KERNBASE, PHYSTOP, PGSIZE; repeat split; try lia; reflexivity | done].
  - apply rtc_once. replace ({[0x80400000]} : gset Z) with ({[0x80400000]} ∪ ∅ : gset Z)
      by set_solver. by apply step_alloc.
Defined.

(** [kinit1] on an empty allocator puts exactly the whole pages inside
    [vstart, vend) on the free list, each once; the page at [PGROUNDUP(vstart)]
    ends up last. *)
Theorem kinit1_pages kend k vstart vend :
  kmem_freelist k = 0 -> 0 <= vstart <= 4294963200 -> kend <= vstart -> KERNBASE <= vstart ->
  PGROUNDUP vstart <= vend <= KERNBASE + PHYSTOP ->
  exists k' l, kinit1 kend vstart vend k = Ok k' /\ kmem_free kend k' l /\
    kmem_use_lock k' = 0 /\
    forall v, v ∈ l <-> v mod PGSIZE = 0 /\ vstart <= v /\ v + PGSIZE <= vend.
Proof.
  intros H0 Hs He Hb Hv. unfold kinit1, freerange.
  destruct (pgroundup_spec vstart Hs) as [Hr Hal]. set (p := PGROUNDUP vstart) in *.
  set (n := Z.to_nat ((vend - p) / PGSIZE)).
  pose proof (Z.div_mod (vend - p) PGSIZE) as Hdm.
  pose proof (Z.mod_pos_bound (vend - p) PGSIZE) as Hmb.
  assert (Hn : Z.of_nat n = (vend - p) / PGSIZE) by (unfold n; rewrite Z2Nat.id; [done | apply Z.div_pos; unfold PGSIZE; lia]).
  unfold PGSIZE in Hr, Hdm, Hmb, Hn.
  apply aligned_eq_mul in Hal as [kp Hkp]. unfold PGSIZE in Hkp.
  assert (Hiff : forall v, v ∈ range_pages p n <->
      v mod PGSIZE = 0 /\ vstart <= v /\ v + PGSIZE <= vend).
  { intros v. rewrite elem_of_range_pages, aligned_eq_mul. unfold PGSIZE. split.
    - intros (i & Hi & ->). split; [exists (kp + Z.of_nat i); lia | lia].
    - intros ((j & ->) & H1 & H2). exists (Z.to_nat (j - kp)). split; nia. }
  destruct (freerange_loop_spec kend n (S n) p vend (mkKmem 0 (kmem_freelist k) (kmem_mem k)) [])
    as (k' & Hk' & Hf & Hl); simpl in *.
  - unfold PGSIZE. lia.
  - lia.
  - intros q Hq. apply Hiff in Hq as (Hq1 & Hq2 & Hq3). split; [| apply not_elem_of_nil].
    unfold page, PGSIZE in *. lia.
  - split; [done | constructor].
  - exists k', (reverse (range_pages p n)). rewrite app_nil_r in Hf.
    split; [exact Hk' |]. split; [done |]. split; [done |].
    intros v. by rewrite elem_of_reverse, Hiff.
Qed.

Lemma kinit1_pages_witness :
  exists k' l, kinit1 0x80100000 0x80100001 0x80103FFF (mkKmem 1 0 (fun _ => 0)) = Ok k' /\
    kmem_free 0x80100000 k' l /\ kmem_use_lock k' = 0 /\
    forall v, v ∈ l <-> v mod PGSIZE = 0 /\ 0x80100001 <= v /\ v + PGSIZE <= 0x80103FFF.
Proof.
  apply (kinit1_pages 0x80100000 (mkKmem 1 0 (fun _ => 0)) 0x80100001 0x80103FFF);
    (reflexivity || (vm_compute; intuition congruence)).
Defined.
