(* ===== verification/LinkedList.v ===== *)
(** * Singly linked lists threaded through the elements of a table

    The kernel links processes through [proc->next]. A heap of such
    cells is seen through [nx : nat -> option (option nat)]: [nx i] is the
    link stored in cell [i] ([Some None] for NULL), or [None] when there is no
    cell [i]. [lpath nx h l t] says that following links from [h] visits the
    cells [l] and then arrives at [t]. *)

From S2P Require Import Prelude.

Fixpoint lpath (nx : nat -> option (option nat)) (h : option nat) (l : list nat)
  (t : option nat) : Prop :=
  match l with
  | [] => h = t
  | i :: l' => h = Some i /\ exists n, nx i = Some n /\ lpath nx n l' t
  end.

(** A whole list ends in NULL. *)
Abbreviation lseg nx h l := (lpath nx h l None).

Lemma lpath_app nx h l1 l2 t :
  lpath nx h (l1 ++ l2) t <-> exists u, lpath nx h l1 u /\ lpath nx u l2 t.
Proof.
  revert h. induction l1 as [|i l1 IH]; intros h; simpl.
  - split; [intros H; by exists h | by intros (u & -> & H)].
  - split.
    + intros (-> & n & Hn & H). apply IH in H as (u & H1 & H2).
      exists u. split; [| done]. split; [done |]. by exists n.
    + intros (u & (-> & n & Hn & H1) & H2). split; [done |]. exists n. split; [done |].
      apply IH. by exists u.
Qed.

Lemma lpath_ext nx nx' h l t :
  (forall i, i ∈ l -> nx i = nx' i) -> lpath nx h l t -> lpath nx' h l t.
Proof.
  revert h. induction l as [|i l IH]; intros h Hx; simpl; [done |].
  intros (-> & n & Hn & H). split; [done |]. exists n.
  rewrite <- Hx by (by left). split; [done |].
  apply IH; [| done]. intros j Hj. apply Hx. by right.
Qed.

Lemma lseg_inj nx h l l' : lseg nx h l -> lseg nx h l' -> l = l'.
Proof.
  revert h l'. induction l as [|i l IH]; intros h [|j l']; simpl; try done.
  - by intros -> [? _].
  - by intros [-> _].
  - intros (-> & n & Hn & H) ([= ->] & n' & Hn' & H'). f_equal.
    rewrite Hn in Hn'. injection Hn' as ->. eauto.
Qed.

(** A list that ends in NULL has no cycle. *)
Lemma lseg_NoDup nx h l : lseg nx h l -> NoDup l.
Proof.
  revert h. induction l as [|i l IH]; intros h; [constructor |].
  simpl. intros (-> & n & Hn & H). constructor; [| eauto].
  intros Hi. apply list_elem_of_split in Hi as (l1 & l2 & ->).
  assert (Hw : lseg nx n (l1 ++ i :: l2)) by done.
  apply lpath_app in H as (u & _ & Hu). simpl in Hu.
  destruct Hu as (-> & n' & Hn' & Hl2). rewrite Hn in Hn'. injection Hn' as ->.
  pose proof (lseg_inj _ _ _ _ Hw Hl2) as He. apply (f_equal length) in He.
  rewrite length_app in He. simpl in He. lia.
Qed.

Lemma lpath_cell nx h l t i : lpath nx h l t -> i ∈ l -> exists n, nx i = Some n.
Proof.
  intros H Hi. apply list_elem_of_split in Hi as (l1 & l2 & ->).
  apply lpath_app in H as (u & _ & Hu). simpl in Hu. destruct Hu as (_ & n & Hn & _). eauto.
Qed.

Lemma lseg_None nx l : lseg nx None l -> l = [].
Proof. destruct l; simpl; [done |]. by intros [? _]. Qed.

Lemma lseg_Some nx i l : lseg nx (Some i) l -> exists l', l = i :: l'.
Proof. destruct l as [|j l]; simpl; [done |]. intros [[= ->] _]. eauto. Qed.

(** Linking [i] in front of a list. *)
Lemma lseg_push nx nx' h l i :
  lseg nx h l -> i ∉ l -> nx' i = Some h ->
  (forall j, j <> i -> nx' j = nx j) -> lseg nx' (Some i) (i :: l).
Proof.
  intros H Hi Hn Ho. simpl. split; [done |]. exists h. split; [done |].
  eapply lpath_ext; [| exact H]. intros j Hj. symmetry. apply Ho. congruence.
Qed.

(** Unlinking [i] by redirecting its predecessor [p]. *)
Lemma lseg_unlink nx nx' h l1 p i l2 n :
  lseg nx h (l1 ++ p :: i :: l2) -> nx i = Some n -> nx' p = Some n ->
  (forall j, j <> p -> j <> i -> nx' j = nx j) -> lseg nx' h (l1 ++ p :: l2).
Proof.
  intros H Hi Hp Ho. pose proof (lseg_NoDup _ _ _ H) as Hnd.
  apply NoDup_app in Hnd as (_ & Hd & Hnd). apply NoDup_cons in Hnd as [Hp1 Hnd].
  apply NoDup_cons in Hnd as [Hi1 _].
  apply lpath_app in H as (u & H1 & H2). simpl in H2.
  destruct H2 as (-> & n1 & _ & -> & n2 & Hn2 & H2).
  rewrite Hi in Hn2. injection Hn2 as <-.
  apply lpath_app. exists (Some p). split.
  - eapply lpath_ext; [| exact H1]. intros j Hj. symmetry.
    apply Ho; intros ->; apply (Hd _ Hj); [by left | right; by left].
  - simpl. split; [done |]. exists n. split; [done |].
    eapply lpath_ext; [| exact H2]. intros j Hj. symmetry.
    apply Ho; intros ->; [apply Hp1; by right | done].
Qed.

(** Linking [i] after the last cell. *)
Lemma lseg_append nx nx' h l i :
  lseg nx h l -> i ∉ l -> nx' i = Some None ->
  (forall j, last l = Some j -> nx' j = Some (Some i)) ->
  (forall j, j <> i -> last l <> Some j -> nx' j = nx j) ->
  lseg nx' (if l is [] then Some i else h) (l ++ [i]).
Proof.
  intros H Hi Hn Hl Ho. destruct (decide (l = [])) as [->|Hne].
  - simpl. split; [done |]. exists None. done.
  - destruct (exists_last Hne) as (l' & p & ->). rewrite last_snoc in Hl, Ho.
    replace (if l' ++ [p] is [] then Some i else h) with h by (by destruct l').
    pose proof (lseg_NoDup _ _ _ H) as Hnd. apply NoDup_app in Hnd as (_ & Hd & _).
    apply lpath_app in H as (u & H1 & H2). simpl in H2. destruct H2 as (-> & n & _ & ->).
    rewrite <- app_assoc. apply lpath_app. exists (Some p). split.
    + eapply lpath_ext; [| exact H1]. intros j Hj. symmetry. apply Ho.
      * intros ->. apply Hi. apply elem_of_app. by left.
      * intros [= ->]. apply (Hd j Hj). by left.
    + simpl. split; [done |]. exists (Some i). split; [by apply Hl |].
      split; [done |]. exists None. done.
Qed.

(** An executable test of [lseg]. *)
Fixpoint lsegb (nx : nat -> option (option nat)) (h : option nat) (l : list nat) : bool :=
  match l with
  | [] => bool_decide (h = None)
  | i :: l' =>
      bool_decide (h = Some i) && match nx i with Some n => lsegb nx n l' | None => false end
  end.

Lemma lsegb_sound nx h l : lsegb nx h l = true -> lseg nx h l.
Proof.
  revert h. induction l as [|i l IH]; intros h; simpl; [by intros ?%bool_decide_eq_true |].
  intros [->%bool_decide_eq_true H]%andb_true_iff. split; [done |].
  destruct (nx i) as [n|]; [| done]. eauto.
Qed.
