(* ===== verification/ProcDef.v ===== *)
(** * Processes (proc.h)

    [struct proc], its states and the channels processes sleep on, with the
    field updates the code makes. A [struct proc *] is an index into the
    process table; NULL is [None]. [kstack], [pgdir] and the trap frame are
    kept by value; the saved kernel [context], which only [swtch] uses, and
    the unused fields [shm] and [shm_index] are left out. *)

From S2P Require Import Prelude Mem Params.

Inductive procstate := UNUSED | EMBRYO | SLEEPING | RUNNABLE | RUNNING | ZOMBIE.

#[export] Instance procstate_eq_dec : EqDecision procstate.
Proof. solve_decision. Defined.

(** What the [void *chan] of the code point to: a process (wait), the log, the
    clock, a pipe's counters, a named mutex (condition variables) and the
    sleep-lock inside it, a buffer, an inode, the console input. *)
Inductive chan :=
| ChNone
| ChProc (i : nat)
| ChTicks
| ChLog
| ChPipeRead (p : nat)
| ChPipeWrite (p : nat)
| ChMutex (g : nat)
| ChMutexLock (g : nat)
| ChBuf (b : nat)
| ChInode (i : nat)
| ChInput.

#[export] Instance chan_eq_dec : EqDecision chan.
Proof. solve_decision. Defined.

(** x86.h: the registers saved on entry to the kernel. *)
Record trapframe := mkTrapframe {
  tf_edi : Z; tf_esi : Z; tf_ebp : Z; tf_oesp : Z; tf_ebx : Z; tf_edx : Z;
  tf_ecx : Z; tf_eax : Z; tf_gs : Z; tf_fs : Z; tf_es : Z; tf_ds : Z;
  tf_trapno : Z; tf_err : Z; tf_eip : Z; tf_cs : Z; tf_eflags : Z;
  tf_esp : Z; tf_ss : Z
}.

Definition tf_zero : trapframe := mkTrapframe 0 0 0 0 0 0 0 0 0 0 0 0 0 0 0 0 0 0 0.

Definition tf_set_eax (v : Z) (t : trapframe) : trapframe :=
  mkTrapframe (tf_edi t) (tf_esi t) (tf_ebp t) (tf_oesp t) (tf_ebx t) (tf_edx t)
    (tf_ecx t) v (tf_gs t) (tf_fs t) (tf_es t) (tf_ds t) (tf_trapno t) (tf_err t)
    (tf_eip t) (tf_cs t) (tf_eflags t) (tf_esp t) (tf_ss t).

(** [name] is the whole buffer [char name[150]]. *)
Record shm_proc_info := mkShmProc { sp_name : list Z; sp_addr : Z }.

Record proc := mkProc {
  p_sz : Z;
  p_pgdir : Z;
  p_kstack : Z;
  p_state : procstate;
  p_pid : Z;
  p_parent : option nat;
  p_tf : trapframe;
  p_chan : chan;
  p_killed : Z;
  p_ofile : list (option nat);
  p_cwd : option nat;
  p_name : cstring;
  p_priority : Z;
  p_next : option nat;
  p_shms : list shm_proc_info;
  p_locks : list Z;
  p_ticks : Z;
  p_cid : Z;
  p_path : cstring;
  p_pipein : Z;
  p_pipeout : Z
}.

Definition set_sz (v : Z) (p : proc) : proc :=
  mkProc v (p_pgdir p) (p_kstack p) (p_state p) (p_pid p) (p_parent p) (p_tf p) (p_chan p)
    (p_killed p) (p_ofile p) (p_cwd p) (p_name p) (p_priority p) (p_next p) (p_shms p)
    (p_locks p) (p_ticks p) (p_cid p) (p_path p) (p_pipein p) (p_pipeout p).

Definition set_pgdir (v : Z) (p : proc) : proc :=
  mkProc (p_sz p) v (p_kstack p) (p_state p) (p_pid p) (p_parent p) (p_tf p) (p_chan p)
    (p_killed p) (p_ofile p) (p_cwd p) (p_name p) (p_priority p) (p_next p) (p_shms p)
    (p_locks p) (p_ticks p) (p_cid p) (p_path p) (p_pipein p) (p_pipeout p).

Definition set_kstack (v : Z) (p : proc) : proc :=
  mkProc (p_sz p) (p_pgdir p) v (p_state p) (p_pid p) (p_parent p) (p_tf p) (p_chan p)
    (p_killed p) (p_ofile p) (p_cwd p) (p_name p) (p_priority p) (p_next p) (p_shms p)
    (p_locks p) (p_ticks p) (p_cid p) (p_path p) (p_pipein p) (p_pipeout p).

Definition set_state (v : procstate) (p : proc) : proc :=
  mkProc (p_sz p) (p_pgdir p) (p_kstack p) v (p_pid p) (p_parent p) (p_tf p) (p_chan p)
    (p_killed p) (p_ofile p) (p_cwd p) (p_name p) (p_priority p) (p_next p) (p_shms p)
    (p_locks p) (p_ticks p) (p_cid p) (p_path p) (p_pipein p) (p_pipeout p).

Definition set_pid (v : Z) (p : proc) : proc :=
  mkProc (p_sz p) (p_pgdir p) (p_kstack p) (p_state p) v (p_parent p) (p_tf p) (p_chan p)
    (p_killed p) (p_ofile p) (p_cwd p) (p_name p) (p_priority p) (p_next p) (p_shms p)
    (p_locks p) (p_ticks p) (p_cid p) (p_path p) (p_pipein p) (p_pipeout p).

Definition set_parent (v : option nat) (p : proc) : proc :=
  mkProc (p_sz p) (p_pgdir p) (p_kstack p) (p_state p) (p_pid p) v (p_tf p) (p_chan p)
    (p_killed p) (p_ofile p) (p_cwd p) (p_name p) (p_priority p) (p_next p) (p_shms p)
    (p_locks p) (p_ticks p) (p_cid p) (p_path p) (p_pipein p) (p_pipeout p).

Definition set_tf (v : trapframe) (p : proc) : proc :=
  mkProc (p_sz p) (p_pgdir p) (p_kstack p) (p_state p) (p_pid p) (p_parent p) v (p_chan p)
    (p_killed p) (p_ofile p) (p_cwd p) (p_name p) (p_priority p) (p_next p) (p_shms p)
    (p_locks p) (p_ticks p) (p_cid p) (p_path p) (p_pipein p) (p_pipeout p).

Definition set_chan (v : chan) (p : proc) : proc :=
  mkProc (p_sz p) (p_pgdir p) (p_kstack p) (p_state p) (p_pid p) (p_parent p) (p_tf p) v
    (p_killed p) (p_ofile p) (p_cwd p) (p_name p) (p_priority p) (p_next p) (p_shms p)
    (p_locks p) (p_ticks p) (p_cid p) (p_path p) (p_pipein p) (p_pipeout p).

Definition set_killed (v : Z) (p : proc) : proc :=
  mkProc (p_sz p) (p_pgdir p) (p_kstack p) (p_state p) (p_pid p) (p_parent p) (p_tf p)
    (p_chan p) v (p_ofile p) (p_cwd p) (p_name p) (p_priority p) (p_next p) (p_shms p)
    (p_locks p) (p_ticks p) (p_cid p) (p_path p) (p_pipein p) (p_pipeout p).

Definition set_ofile (v : list (option nat)) (p : proc) : proc :=
  mkProc (p_sz p) (p_pgdir p) (p_kstack p) (p_state p) (p_pid p) (p_parent p) (p_tf p)
    (p_chan p) (p_killed p) v (p_cwd p) (p_name p) (p_priority p) (p_next p) (p_shms p)
    (p_locks p) (p_ticks p) (p_cid p) (p_path p) (p_pipein p) (p_pipeout p).

Definition set_cwd (v : option nat) (p : proc) : proc :=
  mkProc (p_sz p) (p_pgdir p) (p_kstack p) (p_state p) (p_pid p) (p_parent p) (p_tf p)
    (p_chan p) (p_killed p) (p_ofile p) v (p_name p) (p_priority p) (p_next p) (p_shms
    p) (p_locks p) (p_ticks p) (p_cid p) (p_path p) (p_pipein p) (p_pipeout p).

Definition set_name (v : cstring) (p : proc) : proc :=
  mkProc (p_sz p) (p_pgdir p) (p_kstack p) (p_state p) (p_pid p) (p_parent p) (p_tf p)
    (p_chan p) (p_killed p) (p_ofile p) (p_cwd p) v (p_priority p) (p_next p) (p_shms p)
    (p_locks p) (p_ticks p) (p_cid p) (p_path p) (p_pipein p) (p_pipeout p).

Definition set_priority (v : Z) (p : proc) : proc :=
  mkProc (p_sz p) (p_pgdir p) (p_kstack p) (p_state p) (p_pid p) (p_parent p) (p_tf p)
    (p_chan p) (p_killed p) (p_ofile p) (p_cwd p) (p_name p) v (p_next p) (p_shms p)
    (p_locks p) (p_ticks p) (p_cid p) (p_path p) (p_pipein p) (p_pipeout p).

Definition set_next (v : option nat) (p : proc) : proc :=
  mkProc (p_sz p) (p_pgdir p) (p_kstack p) (p_state p) (p_pid p) (p_parent p) (p_tf p)
    (p_chan p) (p_killed p) (p_ofile p) (p_cwd p) (p_name p) (p_priority p) v (p_shms p)
    (p_locks p) (p_ticks p) (p_cid p) (p_path p) (p_pipein p) (p_pipeout p).

Definition set_shms (v : list shm_proc_info) (p : proc) : proc :=
  mkProc (p_sz p) (p_pgdir p) (p_kstack p) (p_state p) (p_pid p) (p_parent p) (p_tf p)
    (p_chan p) (p_killed p) (p_ofile p) (p_cwd p) (p_name p) (p_priority p) (p_next p) v
    (p_locks p) (p_ticks p) (p_cid p) (p_path p) (p_pipein p) (p_pipeout p).

Definition set_locks (v : list Z) (p : proc) : proc :=
  mkProc (p_sz p) (p_pgdir p) (p_kstack p) (p_state p) (p_pid p) (p_parent p) (p_tf p)
    (p_chan p) (p_killed p) (p_ofile p) (p_cwd p) (p_name p) (p_priority p) (p_next p)
    (p_shms p) v (p_ticks p) (p_cid p) (p_path p) (p_pipein p) (p_pipeout p).

Definition set_ticks (v : Z) (p : proc) : proc :=
  mkProc (p_sz p) (p_pgdir p) (p_kstack p) (p_state p) (p_pid p) (p_parent p) (p_tf p)
    (p_chan p) (p_killed p) (p_ofile p) (p_cwd p) (p_name p) (p_priority p) (p_next p)
    (p_shms p) (p_locks p) v (p_cid p) (p_path p) (p_pipein p) (p_pipeout p).

Definition set_cid (v : Z) (p : proc) : proc :=
  mkProc (p_sz p) (p_pgdir p) (p_kstack p) (p_state p) (p_pid p) (p_parent p) (p_tf p)
    (p_chan p) (p_killed p) (p_ofile p) (p_cwd p) (p_name p) (p_priority p) (p_next p)
    (p_shms p) (p_locks p) (p_ticks p) v (p_path p) (p_pipein p) (p_pipeout p).

Definition set_path (v : cstring) (p : proc) : proc :=
  mkProc (p_sz p) (p_pgdir p) (p_kstack p) (p_state p) (p_pid p) (p_parent p) (p_tf p)
    (p_chan p) (p_killed p) (p_ofile p) (p_cwd p) (p_name p) (p_priority p) (p_next p)
    (p_shms p) (p_locks p) (p_ticks p) (p_cid p) v (p_pipein p) (p_pipeout p).

Definition set_pipein (v : Z) (p : proc) : proc :=
  mkProc (p_sz p) (p_pgdir p) (p_kstack p) (p_state p) (p_pid p) (p_parent p) (p_tf p)
    (p_chan p) (p_killed p) (p_ofile p) (p_cwd p) (p_name p) (p_priority p) (p_next p)
    (p_shms p) (p_locks p) (p_ticks p) (p_cid p) (p_path p) v (p_pipeout p).

Definition set_pipeout (v : Z) (p : proc) : proc :=
  mkProc (p_sz p) (p_pgdir p) (p_kstack p) (p_state p) (p_pid p) (p_parent p) (p_tf p)
    (p_chan p) (p_killed p) (p_ofile p) (p_cwd p) (p_name p) (p_priority p) (p_next p)
    (p_shms p) (p_locks p) (p_ticks p) (p_cid p) (p_path p) (p_pipein p) v.

(** A process table entry before its first use. *)
Definition proc_zero : proc :=
  mkProc 0 0 0 UNUSED 0 None tf_zero ChNone 0 (replicate NOFILE None) None [] 0 None
    (replicate SHM_MAXNUM (mkShmProc (replicate 150 0) 0)) (replicate MUX_MAXNUM 0)
    0 0 [] 0 0.

(** Reading and updating one entry of the table. *)
Definition proc_at (pt : list proc) (i : nat) : res proc :=
  match pt !! i with Some p => Ok p | None => Undef end.

Definition upd_proc (pt : list proc) (i : nat) (f : proc -> proc) : list proc := alter f i pt.

Lemma upd_proc_lookup pt i f j :
  upd_proc pt i f !! j = if decide (i = j) then f <$> pt !! j else pt !! j.
Proof.
  unfold upd_proc. case_decide as H.
  - subst. by rewrite list_lookup_alter_eq.
  - by rewrite list_lookup_alter_ne.
Qed.

Lemma upd_proc_length pt i f : length (upd_proc pt i f) = length pt.
Proof. apply length_alter. Qed.
