(* ===== verification/Prioqueue.v ===== *)
(** * The priority queue of the scheduler (proc.c)

    Ten buckets, one per priority, each a list of processes threaded through
    [proc->next]: [pq1_enqueue], [remove_node], [pq1_dequeue] and the system
    call [prio_set]. The abstract view of the queue is one list of process
    table indices per bucket; every operation is shown to implement an
    operation on those lists. *)

From S2P Require Import Prelude Mem Params LinkedList ProcDef.

Definition PRIO_MAX : nat := 10.

(** [ptable.proc] and [prioqueue.queue]. *)
Record prioq := mkPrioq {
  pq_procs : list proc;
  pq_queue : list (option nat)
}.

(** The walks below visit each process at most once. *)
Definition PQ_FUEL : nat := NPROC.

(** [pinit]: all buckets empty. *)
Definition pinit (s : prioq) : prioq := mkPrioq (pq_procs s) (replicate PRIO_MAX None).

Definition pq1_enqueue (p : nat) (priority : Z) (s : prioq) : res prioq :=
  let! h := arr_get (pq_queue s) priority in
  match h with
  | None =>
      let! q := arr_set (pq_queue s) priority (Some p) in
      Ok (mkPrioq (pq_procs s) q)
  | Some cur =>
      let! q := arr_set (pq_queue s) priority (Some p) in
      Ok (mkPrioq (upd_proc (pq_procs s) p (set_next (Some cur))) q)
  end.

(** [if (prev) prev->next = next; else prioqueue.queue[priority] = next] *)
Definition remove_unlink (priority : Z) (prev next : option nat) (s : prioq) : res prioq :=
  match prev with
  | Some pr => Ok (mkPrioq (upd_proc (pq_procs s) pr (set_next next)) (pq_queue s))
  | None =>
      let! q := arr_set (pq_queue s) priority next in
      Ok (mkPrioq (pq_procs s) q)
  end.

Fixpoint remove_loop (fuel : nat) (priority pid : Z) (prev cur : option nat) (s : prioq)
  : res prioq :=
  match cur with
  | None => Ok s
  | Some c =>
      match fuel with
      | O => Hang
      | S f =>
          let! pc := proc_at (pq_procs s) c in
          if p_pid pc =? pid then
            let! s := remove_unlink priority prev (p_next pc) s in
            Ok (mkPrioq (upd_proc (pq_procs s) c (set_next None)) (pq_queue s))
          else remove_loop f priority pid (Some c) (p_next pc) s
      end
  end.

Definition remove_node (curproc : nat) (s : prioq) : res prioq :=
  let! p := proc_at (pq_procs s) curproc in
  let! h := arr_get (pq_queue s) (p_priority p) in
  remove_loop PQ_FUEL (p_priority p) (p_pid p) None h s.

(** [while (cur && cur->state != RUNNABLE) cur = cur->next] *)
Fixpoint skip_not_runnable (fuel : nat) (pt : list proc) (cur : option nat) : res (option nat) :=
  match cur with
  | None => Ok None
  | Some c =>
      match fuel with
      | O => Hang
      | S f =>
          let! p := proc_at pt c in
          if bool_decide (p_state p = RUNNABLE) then Ok (Some c)
          else skip_not_runnable f pt (p_next p)
      end
  end.

Fixpoint first_runnable (pt : list proc) (buckets : list (option nat)) : res (option nat) :=
  match buckets with
  | [] => Ok None
  | h :: buckets' =>
      let! cur := skip_not_runnable PQ_FUEL pt h in
      match cur with
      | Some c => Ok (Some c)
      | None => first_runnable pt buckets'
      end
  end.

(** [while ( *head && ( *head)->next != cur) head = &( *head)->next] *)
Fixpoint find_pred (fuel : nat) (pt : list proc) (head : option nat) (cur : nat)
  : res (option nat) :=
  match head with
  | None => Ok None
  | Some j =>
      match fuel with
      | O => Hang
      | S f =>
          let! p := proc_at pt j in
          if bool_decide (p_next p = Some cur) then Ok (Some j)
          else find_pred f pt (p_next p) cur
      end
  end.

(** What the [struct proc **head] of the code points to. *)
Inductive ploc := LQueue (priority : Z) | LNext (i : nat).

Definition deref (l : ploc) (s : prioq) : res (option nat) :=
  match l with
  | LQueue b => arr_get (pq_queue s) b
  | LNext i => let! p := proc_at (pq_procs s) i in Ok (p_next p)
  end.

Definition assign (l : ploc) (v : option nat) (s : prioq) : res prioq :=
  match l with
  | LQueue b => let! q := arr_set (pq_queue s) b v in Ok (mkPrioq (pq_procs s) q)
  | LNext i => Ok (mkPrioq (upd_proc (pq_procs s) i (set_next v)) (pq_queue s))
  end.

(** [while ( *head) head = &( *head)->next] *)
Fixpoint find_tail (fuel : nat) (s : prioq) (head : ploc) : res ploc :=
  let! v := deref head s in
  match v with
  | None => Ok head
  | Some j => match fuel with O => Hang | S f => find_tail f s (LNext j) end
  end.

Definition pq1_dequeue (s : prioq) : res (option nat * prioq) :=
  let! r := first_runnable (pq_procs s) (pq_queue s) in
  match r with
  | None => Ok (None, s)
  | Some cur =>
      let! p := proc_at (pq_procs s) cur in
      let! h := arr_get (pq_queue s) (p_priority p) in
      let! s :=
        if bool_decide (h = Some cur) then
          let! q := arr_set (pq_queue s) (p_priority p) (p_next p) in
          Ok (mkPrioq (pq_procs s) q)
        else
          let! pr := find_pred PQ_FUEL (pq_procs s) h cur in
          match pr with
          | Some j => Ok (mkPrioq (upd_proc (pq_procs s) j (set_next (p_next p))) (pq_queue s))
          | None => Ok s
          end in
      let! head := find_tail PQ_FUEL s (LQueue (p_priority p)) in
      let! s := assign head (Some cur) s in
      Ok (Some cur, mkPrioq (upd_proc (pq_procs s) cur (set_next None)) (pq_queue s))
  end.

(** [prio_set]: the search has no [break], so the last match counts. *)
Definition find_pid (pt : list proc) (pid : Z) : option nat :=
  foldl (fun acc i => match pt !! i with
                      | Some p => if p_pid p =? pid then Some i else acc
                      | None => acc
                      end) None (seq 0 (length pt)).

Fixpoint in_ancestry (fuel : nat) (pt : list proc) (ancestor : option nat) (pid : Z) : res bool :=
  match ancestor with
  | None => Ok false
  | Some a =>
      match fuel with
      | O => Hang
      | S f =>
          let! p := proc_at pt a in
          if p_pid p =? pid then Ok true else in_ancestry f pt (p_parent p) pid
      end
  end.

Definition prio_set (curproc : nat) (pid priority : Z) (s : prioq) : res (Z * prioq) :=
  let! cp := proc_at (pq_procs s) curproc in
  if (priority <? 0) || (Z.of_nat PRIO_MAX <=? priority) then Ok (-1, s)
  else if priority <? p_priority cp then Ok (-1, s)
  else
    let setproc := find_pid (pq_procs s) pid in
    let! found := in_ancestry NPROC (pq_procs s) setproc (p_pid cp) in
    match found, setproc with
    | true, Some sp =>
        let! s := remove_node sp s in
        let s := mkPrioq (upd_proc (pq_procs s) sp (set_priority priority)) (pq_queue s) in
        let! s := pq1_enqueue sp priority s in
        Ok (0, s)
    | _, _ => Ok (-1, s)
    end.

(** ** The abstract queue *)

Definition next_of (pt : list proc) (i : nat) : option (option nat) := p_next <$> pt !! i.

(** Two tables that differ at most in the links. *)
Definition same_but_next (pt pt' : list proc) : Prop :=
  forall i, set_next None <$> pt !! i = set_next None <$> pt' !! i.

(** [qs]: the processes of each bucket, head first. *)
Record pq_ok (s : prioq) (qs : list (list nat)) : Prop := {
  ok_buckets : length (pq_queue s) = PRIO_MAX;
  ok_table : length (pq_procs s) = NPROC;
  ok_lists : Forall2 (fun h l => lseg (next_of (pq_procs s)) h l) (pq_queue s) qs;
  ok_prio : forall b l i, qs !! b = Some l -> i ∈ l ->
    exists p, pq_procs s !! i = Some p /\ p_priority p = Z.of_nat b;
  ok_off : forall i p, pq_procs s !! i = Some p ->
    (forall l, l ∈ qs -> i ∉ l) -> p_next p = None
}.

#[export] Instance same_but_next_equiv : Equivalence same_but_next.
Proof.
  split; [by intros pt i | by intros pt pt' H i |].
  intros p1 p2 p3 H1 H2 i. by rewrite H1.
Qed.

Definition runnable (pt : list proc) (i : nat) : Prop := p_state <$> pt !! i = Some RUNNABLE.

#[export] Instance runnable_dec pt i : Decision (runnable pt i).
Proof. unfold runnable. apply _. Defined.

(** ** Links and frames *)

Lemma next_of_lookup pt i p : pt !! i = Some p -> next_of pt i = Some (p_next p).
Proof. intros H. unfold next_of. by rewrite H. Qed.

Lemma next_of_Some pt i n : next_of pt i = Some n -> exists p, pt !! i = Some p /\ p_next p = n.
Proof. unfold next_of. destruct (pt !! i) as [p|]; simpl; [| done]. intros [= <-]. eauto. Qed.

Lemma next_of_upd_eq pt i v : is_Some (pt !! i) -> next_of (upd_proc pt i (set_next v)) i = Some v.
Proof. intros [p Hp]. unfold next_of. rewrite upd_proc_lookup, decide_True, Hp; done. Qed.

Lemma next_of_upd_ne pt i j v : i <> j -> next_of (upd_proc pt i (set_next v)) j = next_of pt j.
Proof. intros H. unfold next_of. by rewrite upd_proc_lookup, decide_False. Qed.

Lemma same_but_next_upd pt i v : same_but_next pt (upd_proc pt i (set_next v)).
Proof.
  intros j. rewrite upd_proc_lookup. case_decide as H; [| done].
  by destruct (pt !! j).
Qed.

Lemma same_but_next_lookup pt pt' i p :
  same_but_next pt pt' -> pt !! i = Some p ->
  exists p', pt' !! i = Some p' /\ set_next None p = set_next None p'.
Proof.
  intros H Hp. specialize (H i). rewrite Hp in H. simpl in H.
  destruct (pt' !! i) as [p'|]; simpl in H; [| done]. exists p'. split; congruence.
Qed.

Lemma same_but_next_prio pt pt' i p :
  same_but_next pt pt' -> pt !! i = Some p ->
  exists p', pt' !! i = Some p' /\ p_priority p' = p_priority p.
Proof.
  intros H Hp. destruct (same_but_next_lookup _ _ _ _ H Hp) as (p' & Hp' & He).
  exists p'. split; [done |]. by apply (f_equal p_priority) in He.
Qed.

(** A field other than the link does not change. *)
Lemma same_but_next_field {A} (f : proc -> A) pt pt' i :
  (forall p, f (set_next None p) = f p) -> same_but_next pt pt' -> f <$> pt !! i = f <$> pt' !! i.
Proof.
  intros Hf H. specialize (H i).
  destruct (pt !! i) as [p|], (pt' !! i) as [p'|]; simpl in *; try done.
  rewrite <- (Hf p), <- (Hf p'). congruence.
Qed.

Lemma same_but_next_length pt pt' : same_but_next pt pt' -> length pt = length pt'.
Proof.
  intros H. apply Nat.le_antisymm; apply Nat.nlt_ge; intros Hl.
  - destruct (lookup_lt_is_Some_2 pt _ Hl) as [p Hp].
    apply (same_but_next_lookup _ _ _ _ H) in Hp as (p' & Hp' & _).
    apply lookup_lt_Some in Hp'. lia.
  - destruct (lookup_lt_is_Some_2 pt' _ Hl) as [p Hp].
    apply (same_but_next_lookup _ pt) in Hp as (p' & Hp' & _); [| by symmetry].
    apply lookup_lt_Some in Hp'. lia.
Qed.

Lemma same_but_next_runnable pt pt' i :
  same_but_next pt pt' -> runnable pt i <-> runnable pt' i.
Proof.
  intros H. unfold runnable. by rewrite (same_but_next_field p_state pt pt' i (fun _ => eq_refl) H).
Qed.

#[export] Hint Resolve same_but_next_upd next_of_upd_eq next_of_upd_ne : kernel.

(** ** Consequences of the invariant *)

Lemma ok_qs_length s qs : pq_ok s qs -> length qs = PRIO_MAX.
Proof. intros H. rewrite <- (Forall2_length _ _ _ (ok_lists _ _ H)). apply H. Qed.

Lemma ok_bucket s qs b l :
  pq_ok s qs -> qs !! b = Some l ->
  exists h, pq_queue s !! b = Some h /\ lseg (next_of (pq_procs s)) h l.
Proof. intros H Hl. apply (Forall2_lookup_r _ _ _ _ _ (ok_lists _ _ H) Hl). Qed.

Lemma ok_bucket_unique s qs b b' l l' i :
  pq_ok s qs -> qs !! b = Some l -> qs !! b' = Some l' -> i ∈ l -> i ∈ l' -> b = b'.
Proof.
  intros H Hl Hl' Hi Hi'.
  destruct (ok_prio _ _ H _ _ _ Hl Hi) as (p & Hp & Hb).
  destruct (ok_prio _ _ H _ _ _ Hl' Hi') as (p' & Hp' & Hb'). simplify_eq. lia.
Qed.

Lemma bounded_NoDup_length (l : list nat) n :
  NoDup l -> (forall i, i ∈ l -> (i < n)%nat) -> (length l <= n)%nat.
Proof.
  intros Hnd Hb. rewrite <- (length_seq n 0). apply submseteq_length, NoDup_submseteq; [done |].
  intros i Hi. apply elem_of_seq. specialize (Hb i Hi). lia.
Qed.

(** The walks have enough fuel. *)
Lemma ok_fuel s qs b l : pq_ok s qs -> qs !! b = Some l -> (length l <= PQ_FUEL)%nat.
Proof.
  intros H Hl. destruct (ok_bucket _ _ _ _ H Hl) as (h & _ & Hs).
  apply bounded_NoDup_length; [by eapply lseg_NoDup |]. intros i Hi.
  destruct (ok_prio _ _ H _ _ _ Hl Hi) as (p & Hp & _). apply lookup_lt_Some in Hp.
  by rewrite (ok_table _ _ H) in Hp.
Qed.

Lemma ok_fuels s qs : pq_ok s qs -> Forall (fun l => (length l <= PQ_FUEL)%nat) qs.
Proof.
  intros H. apply Forall_forall. intros l Hl. apply list_elem_of_lookup in Hl as [c Hc].
  by eapply ok_fuel.
Qed.

(** A process that is not in the bucket of its priority is in none, and has no
    successor. *)
Lemma ok_off_bucket s qs i p b l :
  pq_ok s qs -> pq_procs s !! i = Some p -> p_priority p = Z.of_nat b ->
  qs !! b = Some l -> i ∉ l -> p_next p = None.
Proof.
  intros H Hp Hb Hl Hi. eapply (ok_off _ _ H); [done |].
  intros l' Hl' Hi'. apply list_elem_of_lookup in Hl' as [c Hc].
  destruct (ok_prio _ _ H _ _ _ Hc Hi') as (p' & Hp' & Hpc). simplify_eq.
  by assert (b = c) as -> by lia; simplify_eq.
Qed.

(** Rebuilding the invariant after bucket [b] changed to [l']. *)
Lemma pq_ok_update s qs s' b h' l' :
  pq_ok s qs -> (b < PRIO_MAX)%nat ->
  same_but_next (pq_procs s) (pq_procs s') ->
  pq_queue s' = <[b := h']> (pq_queue s) ->
  lseg (next_of (pq_procs s')) h' l' ->
  (forall i, i ∈ l' -> exists p, pq_procs s !! i = Some p /\ p_priority p = Z.of_nat b) ->
  (forall i p, pq_procs s !! i = Some p -> p_priority p <> Z.of_nat b ->
     next_of (pq_procs s') i = next_of (pq_procs s) i) ->
  (forall i p, pq_procs s !! i = Some p -> p_priority p = Z.of_nat b -> i ∉ l' ->
     next_of (pq_procs s') i = Some None) ->
  pq_ok s' (<[b := l']> qs).
Proof.
  intros H Hb Hsame Hq Hs Hmem Hother Hoff.
  split.
  - rewrite Hq, length_insert. apply H.
  - rewrite <- (same_but_next_length _ _ Hsame). apply H.
  - rewrite Hq. apply Forall2_same_length_lookup_2.
    { rewrite !length_insert, (ok_qs_length _ _ H). apply H. }
    intros c h l Hc Hl. destruct (decide (b = c)) as [<-|Hne].
    + rewrite list_lookup_insert_eq in Hc by (rewrite (ok_buckets _ _ H); lia).
      rewrite list_lookup_insert_eq in Hl by (rewrite (ok_qs_length _ _ H); lia). by simplify_eq.
    + rewrite list_lookup_insert_ne in Hc by done. rewrite list_lookup_insert_ne in Hl by done.
      destruct (ok_bucket _ _ _ _ H Hl) as (h0 & Hh0 & Hs0). simplify_eq.
      eapply lpath_ext; [| exact Hs0]. intros i Hi. symmetry.
      destruct (ok_prio _ _ H _ _ _ Hl Hi) as (p & Hp & Hpc). eapply Hother; [done | lia].
  - intros c l i Hl Hi. destruct (decide (b = c)) as [<-|Hne].
    + rewrite list_lookup_insert_eq in Hl by (rewrite (ok_qs_length _ _ H); lia). simplify_eq.
      destruct (Hmem i Hi) as (p & Hp & Hpb). destruct (same_but_next_prio _ _ _ _ Hsame Hp) as (p' & Hp' & He).
      exists p'. by rewrite He.
    + rewrite list_lookup_insert_ne in Hl by done.
      destruct (ok_prio _ _ H _ _ _ Hl Hi) as (p & Hp & Hpc).
      destruct (same_but_next_prio _ _ _ _ Hsame Hp) as (p' & Hp' & He). exists p'. by rewrite He.
  - intros i p' Hp' Hni. destruct (same_but_next_prio _ (pq_procs s) _ _ (symmetry Hsame) Hp') as (p & Hp & He).
    pose proof (next_of_lookup _ _ _ Hp') as Hn.
    destruct (decide (p_priority p = Z.of_nat b)) as [Hpb|Hpb].
    + rewrite (Hoff i p Hp Hpb) in Hn; [by injection Hn |]. apply Hni.
      apply list_elem_of_insert. rewrite (ok_qs_length _ _ H). lia.
    + rewrite (Hother i p Hp Hpb), (next_of_lookup _ _ _ Hp) in Hn. injection Hn as <-.
      eapply (ok_off _ _ H); [done |]. intros l Hl Hi.
      apply list_elem_of_lookup in Hl as [c Hc]. destruct (decide (b = c)) as [<-|Hne].
      * destruct (ok_prio _ _ H _ _ _ Hc Hi) as (p2 & Hp2 & Hpb2). by simplify_eq.
      * apply (Hni l); [| done]. apply list_elem_of_lookup. exists c.
        by rewrite list_lookup_insert_ne.
Qed.

Lemma arr_get_bucket {A} (q : list A) b (h : A) :
  q !! b = Some h -> arr_get q (Z.of_nat b) = Ok h.
Proof. intros H. apply arr_get_Ok. rewrite Nat2Z.id. split; [lia | done]. Qed.

Lemma arr_set_bucket {A} (q : list A) b (h v : A) :
  q !! b = Some h -> arr_set q (Z.of_nat b) v = Ok (<[b := v]> q).
Proof.
  intros H. apply lookup_lt_Some in H. rewrite arr_set_in by lia. by rewrite Nat2Z.id.
Qed.

Lemma proc_at_Ok pt i p : proc_at pt i = Ok p <-> pt !! i = Some p.
Proof. unfold proc_at. destruct (pt !! i); split; congruence. Qed.

Lemma bucket_lt s qs b l : pq_ok s qs -> qs !! b = Some l -> (b < PRIO_MAX)%nat.
Proof. intros H Hl. apply lookup_lt_Some in Hl. by rewrite (ok_qs_length _ _ H) in Hl. Qed.

(** ** [pq1_enqueue] pushes at the head of the bucket *)

Lemma pq1_enqueue_spec s qs i p b l :
  pq_ok s qs -> pq_procs s !! i = Some p -> p_priority p = Z.of_nat b ->
  qs !! b = Some l -> i ∉ l ->
  exists s', pq1_enqueue i (Z.of_nat b) s = Ok s' /\ pq_ok s' (<[b := i :: l]> qs) /\
    same_but_next (pq_procs s) (pq_procs s').
Proof.
  intros H Hp Hb Hl Hi. pose proof (bucket_lt _ _ _ _ H Hl) as Hlt.
  destruct (ok_bucket _ _ _ _ H Hl) as (h & Hh & Hs). unfold pq1_enqueue.
  rewrite (arr_get_bucket _ _ _ Hh). simpl. rewrite (arr_set_bucket _ _ _ _ Hh). simpl.
  set (pt' := match h with None => pq_procs s
              | Some c => upd_proc (pq_procs s) i (set_next (Some c)) end).
  assert (Hn : next_of pt' i = Some h).
  { subst pt'. destruct h; [by apply next_of_upd_eq; eauto |].
    rewrite (next_of_lookup _ _ _ Hp). by rewrite (ok_off_bucket _ _ _ _ _ _ H Hp Hb Hl Hi). }
  assert (Hne : forall j, j <> i -> next_of pt' j = next_of (pq_procs s) j).
  { intros j Hj. subst pt'. destruct h; [| done]. by apply next_of_upd_ne. }
  assert (Hsame : same_but_next (pq_procs s) pt') by (subst pt'; destruct h; [auto with kernel | reflexivity]).
  exists (mkPrioq pt' (<[b := Some i]> (pq_queue s))).
  split; [by destruct h |]. split; [| done].
  eapply pq_ok_update; simpl; try done.
  - by eapply lseg_push.
  - intros j [->|Hj]%elem_of_cons; [eauto |]. by eapply (ok_prio _ _ H).
  - intros j q Hq Hqb. apply Hne. congruence.
  - intros j q Hq Hqb Hj. apply not_elem_of_cons in Hj as [Hji Hj]. rewrite Hne by done.
    rewrite (next_of_lookup _ _ _ Hq). f_equal. by eapply ok_off_bucket.
Qed.

(** ** Taking a process out of its bucket *)

(** The links after the predecessor of [i] has been redirected. *)
Lemma remove_unlink_spec s qs b l1 i l2 n :
  pq_ok s qs -> qs !! b = Some (l1 ++ i :: l2) -> next_of (pq_procs s) i = Some n ->
  exists s1 h1, remove_unlink (Z.of_nat b) (last l1) n s = Ok s1 /\
    pq_queue s1 = <[b := h1]> (pq_queue s) /\
    lseg (next_of (pq_procs s1)) h1 (l1 ++ l2) /\
    same_but_next (pq_procs s) (pq_procs s1) /\
    (forall j, last l1 <> Some j -> next_of (pq_procs s1) j = next_of (pq_procs s) j).
Proof.
  intros H Hl Hn. destruct (ok_bucket _ _ _ _ H Hl) as (h & Hh & Hs). unfold remove_unlink.
  destruct l1 as [|pr l1 _] using rev_ind; simpl.
  - rewrite (arr_set_bucket _ _ _ _ Hh). simpl. eexists _, n. split; [done |]. simpl.
    simpl in Hs. destruct Hs as (_ & n' & Hn' & Hs). simplify_eq. done.
  - rewrite last_snoc. rewrite <- app_assoc in Hs, Hl. simpl in Hs, Hl.
    assert (is_Some (pq_procs s !! pr)) as Hpr.
    { destruct (ok_prio _ _ H _ _ pr Hl) as (p & Hp & _); [set_solver | eauto]. }
    eexists _, h. split; [done |]. simpl. rewrite list_insert_id by done.
    rewrite <- app_assoc. split; [done |].
    split; [eapply lseg_unlink; eauto with kernel |]. split; [auto with kernel |].
    intros j Hj. apply next_of_upd_ne. congruence.
Qed.

Lemma remove_loop_find fuel priority pid prev cur s l1 i l2 p :
  lseg (next_of (pq_procs s)) cur (l1 ++ i :: l2) -> (length (l1 ++ i :: l2) <= fuel)%nat ->
  (forall j q, j ∈ l1 -> pq_procs s !! j = Some q -> p_pid q <> pid) ->
  pq_procs s !! i = Some p -> p_pid p = pid ->
  remove_loop fuel priority pid prev cur s =
    let! s := remove_unlink priority (last (option_list prev ++ l1)) (p_next p) s in
    Ok (mkPrioq (upd_proc (pq_procs s) i (set_next None)) (pq_queue s)).
Proof.
  revert fuel prev cur. induction l1 as [|j l1 IH]; intros fuel prev cur Hs Hf Hne Hp Hpid.
  - destruct Hs as (-> & n & Hn & Hs). destruct fuel as [|f]; simpl in Hf; [lia |]. simpl.
    apply proc_at_Ok in Hp. rewrite Hp. simpl. rewrite Hpid, Z.eqb_refl.
    rewrite app_nil_r. by destruct prev.
  - simpl in Hs. destruct Hs as (-> & n & Hn & Hs). destruct fuel as [|f]; simpl in Hf; [lia |].
    simpl. destruct (next_of_Some _ _ _ Hn) as (q & Hq & <-).
    rewrite (proj2 (proc_at_Ok _ _ _) Hq). simpl.
    rewrite (proj2 (Z.eqb_neq _ _)) by (eapply Hne; [by left | done]).
    rewrite (IH f (Some j)); [| done | lia | | done | done].
    + simpl. do 2 f_equal. destruct prev; simpl; [by destruct l1 | done].
    + intros k r Hk. apply Hne. by right.
Qed.

(** [remove_node]: the process leaves its bucket and its link is cleared. *)
Lemma remove_node_spec s qs i p b l :
  pq_ok s qs -> pq_procs s !! i = Some p -> p_priority p = Z.of_nat b -> qs !! b = Some l ->
  i ∈ l ->
  (forall j q, j ∈ l -> pq_procs s !! j = Some q -> p_pid q = p_pid p -> j = i) ->
  exists s', remove_node i s = Ok s' /\
    pq_ok s' (<[b := filter (fun j => j <> i) l]> qs) /\
    same_but_next (pq_procs s) (pq_procs s').
Proof.
  intros H Hp Hb Hl Hi Huniq. destruct (ok_bucket _ _ _ _ H Hl) as (h & Hh & Hs).
  pose proof (lseg_NoDup _ _ _ Hs) as Hnd. pose proof (ok_fuel _ _ _ _ H Hl) as Hf.
  apply list_elem_of_split in Hi as (l1 & l2 & ->). rewrite filter_ne_mid by done.
  unfold remove_node. rewrite (proj2 (proc_at_Ok _ _ _) Hp). cbn [rbind].
  rewrite Hb, (arr_get_bucket _ _ _ Hh). cbn [rbind].
  pose proof (NoDup_app l1 (i :: l2)) as [(_ & Hd & Hnd2) _]; [done |].
  rewrite (remove_loop_find _ _ _ _ _ _ l1 i l2 p); try done.
  2: { intros j q Hj Hq He. apply (Hd j Hj). rewrite (Huniq j q); [by left | | done | done].
       set_solver. }
  simpl. destruct (remove_unlink_spec _ _ _ _ _ _ _ H Hl (next_of_lookup _ _ _ Hp))
    as (s1 & h1 & -> & Hq1 & Hs1 & Hsame & Hkeep). simpl.
  assert (Hi12 : i ∉ l1 ++ l2) by (apply NoDup_cons in Hnd2 as [? _]; set_solver).
  assert (is_Some (pq_procs s1 !! i)) as Hi1.
  { destruct (same_but_next_lookup _ _ _ _ Hsame Hp) as (? & ? & _). eauto. }
  eexists. split; [done |].
  assert (Hsame' : same_but_next (pq_procs s) (upd_proc (pq_procs s1) i (set_next None))).
  { etrans; [done |]. auto with kernel. }
  split; [| done]. eapply pq_ok_update; simpl; try done.
  - by eapply bucket_lt.
  - eapply lpath_ext; [| exact Hs1]. intros j Hj. symmetry. apply next_of_upd_ne. set_solver.
  - intros j Hj. eapply (ok_prio _ _ H); [done |]. set_solver.
  - intros j q Hq Hqb. rewrite next_of_upd_ne by congruence. apply Hkeep. intros Hj.
    apply last_Some_elem_of in Hj.
    destruct (ok_prio _ _ H _ _ j Hl) as (q' & Hq' & ?); [set_solver | congruence].
  - intros j q Hq Hqb Hj. destruct (decide (i = j)) as [<-|Hne]; [by apply next_of_upd_eq |].
    rewrite next_of_upd_ne, Hkeep by (done || intros ?%last_Some_elem_of; set_solver).
    rewrite (next_of_lookup _ _ _ Hq). f_equal. eapply ok_off_bucket; set_solver.
Qed.

(** ** [pq1_dequeue] *)

Lemma skip_not_runnable_spec fuel pt h l :
  lseg (next_of pt) h l -> (length l <= fuel)%nat ->
  skip_not_runnable fuel pt h = Ok (head (filter (runnable pt) l)).
Proof.
  revert fuel h. induction l as [|i l IH]; intros fuel h Hs Hf.
  - simpl in Hs. subst h. by destruct fuel.
  - destruct Hs as (-> & n & Hn & Hs). destruct fuel as [|f]; simpl in Hf; [lia |].
    destruct (next_of_Some _ _ _ Hn) as (p & Hp & <-). simpl.
    rewrite (proj2 (proc_at_Ok _ _ _) Hp). simpl. rewrite filter_cons.
    assert (runnable pt i <-> p_state p = RUNNABLE) as Hr
      by (unfold runnable; rewrite Hp; simpl; split; congruence).
    case_bool_decide as Hst.
    + by rewrite decide_True by (by apply Hr).
    + rewrite decide_False by (by rewrite Hr). apply IH; [done | lia].
Qed.

Lemma first_runnable_spec pt q qs :
  Forall2 (fun h l => lseg (next_of pt) h l) q qs ->
  Forall (fun l => (length l <= PQ_FUEL)%nat) qs ->
  first_runnable pt q = Ok (head (filter (runnable pt) (concat qs))).
Proof.
  induction 1 as [|h l q qs Hs Hq IH]; intros Hf; [done |].
  apply Forall_cons in Hf as [Hl Hf]. cbn [first_runnable].
  rewrite (skip_not_runnable_spec _ _ _ _ Hs Hl). cbn [rbind concat]. rewrite filter_app.
  destruct (filter (runnable pt) l) as [|i r]; [by apply IH | done].
Qed.

Lemma find_pred_spec fuel pt h l1 pr i l2 :
  lseg (next_of pt) h (l1 ++ pr :: i :: l2) -> (length (l1 ++ pr :: i :: l2) <= fuel)%nat ->
  find_pred fuel pt h i = Ok (Some pr).
Proof.
  revert fuel h. induction l1 as [|j l1 IH]; intros fuel h Hs Hf.
  - destruct Hs as (-> & n & Hn & -> & _). destruct fuel as [|f]; simpl in Hf; [lia |].
    destruct (next_of_Some _ _ _ Hn) as (p & Hp & He). simpl.
    rewrite (proj2 (proc_at_Ok _ _ _) Hp). simpl. by rewrite He, bool_decide_true.
  - pose proof (lseg_NoDup _ _ _ Hs) as Hnd.
    destruct Hs as (-> & n & Hn & Hs). destruct fuel as [|f]; simpl in Hf; [lia |].
    destruct (next_of_Some _ _ _ Hn) as (p & Hp & <-). simpl.
    rewrite (proj2 (proc_at_Ok _ _ _) Hp). simpl. rewrite bool_decide_false.
    + apply IH; [done | lia].
    + intros He. rewrite He in Hs. apply NoDup_cons in Hnd as [_ Hnd].
      apply NoDup_app in Hnd as (_ & Hd & Hnd). apply NoDup_cons in Hnd as [Hpr _].
      destruct l1 as [|k l1]; simpl in Hs; destruct Hs as ([= ->] & _); [apply Hpr | apply (Hd k)]; set_solver.
Qed.

(** The pointer variable at the end of a list. *)
Definition tail_loc (start : ploc) (l : list nat) : ploc :=
  match last l with Some j => LNext j | None => start end.

Lemma find_tail_spec fuel s loc h l :
  deref loc s = Ok h -> lseg (next_of (pq_procs s)) h l -> (length l <= fuel)%nat ->
  find_tail fuel s loc = Ok (tail_loc loc l).
Proof.
  revert fuel loc h. induction l as [|i l IH]; intros fuel loc h Hd Hs Hf.
  - simpl in Hs. subst h. destruct fuel; cbn [find_tail]; by rewrite Hd.
  - destruct Hs as (-> & n & Hn & Hs). destruct fuel as [|f]; simpl in Hf; [lia |].
    cbn [find_tail]. rewrite Hd. cbn [rbind].
    destruct (next_of_Some _ _ _ Hn) as (p & Hp & <-).
    rewrite (IH f (LNext i) (p_next p)); [| | done | lia].
    + f_equal. unfold tail_loc. destruct l as [|j l]; [done |].
      by destruct (last_is_Some (j :: l)) as [_ [k Hk]]; [| rewrite last_cons_cons, Hk].
    + simpl. by rewrite (proj2 (proc_at_Ok _ _ _) Hp).
Qed.

(** Taking [cur] out, as [pq1_dequeue] does it, is the unlinking of [remove_node]. *)
Lemma dequeue_unlink s qs b l1 i p l2 h :
  pq_ok s qs -> qs !! b = Some (l1 ++ i :: l2) -> pq_procs s !! i = Some p ->
  pq_queue s !! b = Some h ->
  (if bool_decide (h = Some i) then
     let! q := arr_set (pq_queue s) (Z.of_nat b) (p_next p) in Ok (mkPrioq (pq_procs s) q)
   else
     let! pr := find_pred PQ_FUEL (pq_procs s) h i in
     match pr with
     | Some j => Ok (mkPrioq (upd_proc (pq_procs s) j (set_next (p_next p))) (pq_queue s))
     | None => Ok s
     end) = remove_unlink (Z.of_nat b) (last l1) (p_next p) s.
Proof.
  intros H Hl Hp Hh. destruct (ok_bucket _ _ _ _ H Hl) as (h' & Hh' & Hs). simplify_eq.
  pose proof (ok_fuel _ _ _ _ H Hl) as Hf. unfold remove_unlink.
  destruct l1 as [|pr l1 _] using rev_ind.
  - destruct Hs as (-> & _). by rewrite bool_decide_true.
  - rewrite last_snoc. rewrite <- app_assoc in Hs, Hf. simpl in Hs, Hf.
    rewrite bool_decide_false; [by rewrite (find_pred_spec _ _ _ l1 pr i l2) |].
    intros ->. pose proof (lseg_NoDup _ _ _ Hs) as Hnd. apply NoDup_app in Hnd as (_ & Hd & Hnd).
    apply NoDup_cons in Hnd as [Hpr _].
    destruct l1 as [|k l1]; simpl in Hs; destruct Hs as ([= ->] & _); [apply Hpr | apply (Hd k)]; set_solver.
Qed.

(** Linking a process behind the last one of a bucket. *)
Lemma append_spec s b h l i :
  pq_queue s !! b = Some h -> lseg (next_of (pq_procs s)) h l -> (length l <= PQ_FUEL)%nat ->
  i ∉ l -> is_Some (pq_procs s !! i) ->
  exists s', (let! head := find_tail PQ_FUEL s (LQueue (Z.of_nat b)) in
              let! s := assign head (Some i) s in
              Ok (mkPrioq (upd_proc (pq_procs s) i (set_next None)) (pq_queue s))) = Ok s' /\
    pq_queue s' = <[b := if l is [] then Some i else h]> (pq_queue s) /\
    lseg (next_of (pq_procs s')) (if l is [] then Some i else h) (l ++ [i]) /\
    same_but_next (pq_procs s) (pq_procs s') /\
    (forall j, j <> i -> last l <> Some j ->
       next_of (pq_procs s') j = next_of (pq_procs s) j).
Proof.
  intros Hh Hs Hf Hi Hp.
  rewrite (find_tail_spec _ _ _ h l) by (done || by apply arr_get_bucket). cbn [rbind].
  unfold tail_loc. destruct l as [|k l _] using rev_ind.
  - simpl. rewrite (arr_set_bucket _ _ _ _ Hh). simpl. eexists. split; [done |]. simpl.
    split; [done |]. split; [| split; [auto with kernel |]].
    + split; [done |]. exists None. auto with kernel.
    + intros j Hj _. by apply next_of_upd_ne.
  - rewrite last_snoc. simpl. eexists. split; [done |]. simpl.
    assert (Hki : k <> i) by set_solver.
    assert (is_Some (pq_procs s !! k)) as Hk.
    { destruct (lpath_cell _ _ _ _ k Hs) as (n & Hn); [set_solver |].
      destruct (next_of_Some _ _ _ Hn) as (q & Hq & _). eauto. }
    assert (Hpi : is_Some (upd_proc (pq_procs s) k (set_next (Some i)) !! i)).
    { rewrite upd_proc_lookup, decide_False; done. }
    replace (if l ++ [k] is [] then Some i else h) with h by (by destruct l).
    rewrite list_insert_id by done. split; [done |].
    assert (Hne : forall j, j <> i -> Some k <> Some j ->
      next_of (upd_proc (upd_proc (pq_procs s) k (set_next (Some i))) i (set_next None)) j =
      next_of (pq_procs s) j).
    { intros j Hj Hkj. by rewrite !next_of_upd_ne by congruence. }
    split; [| split; [etrans; auto with kernel | done]].
    replace h with (if l ++ [k] is [] then Some i else h) by (by destruct l).
    eapply lseg_append; [exact Hs | done | by apply next_of_upd_eq | |]; rewrite last_snoc.
    + intros j [= <-]. rewrite next_of_upd_ne by done. by apply next_of_upd_eq.
    + done.
Qed.

Lemma concat_elem_bucket {A} (qs : list (list A)) x :
  x ∈ concat qs -> exists b l, qs !! b = Some l /\ x ∈ l.
Proof.
  intros H. apply list_elem_of_In, in_concat in H as (l & Hl & Hx).
  apply list_elem_of_In in Hl, Hx. apply list_elem_of_lookup in Hl as [b Hb]. eauto.
Qed.

(** The process moves to the end of its bucket; every other one keeps its
    place. *)
Lemma pq1_dequeue_some s qs i :
  pq_ok s qs -> head (filter (runnable (pq_procs s)) (concat qs)) = Some i ->
  exists b l s', qs !! b = Some l /\ i ∈ l /\ runnable (pq_procs s) i /\
    pq1_dequeue s = Ok (Some i, s') /\
    pq_ok s' (<[b := filter (fun j => j <> i) l ++ [i]]> qs) /\
    same_but_next (pq_procs s) (pq_procs s').
Proof.
  intros H Hi. pose proof (proj1 (list_elem_of_filter (runnable (pq_procs s)) (concat qs) i)
    (head_Some_elem_of _ _ Hi)) as [Hrun Hin].
  destruct (concat_elem_bucket _ _ Hin) as (b & l & Hl & Hil). exists b, l.
  pose proof (bucket_lt _ _ _ _ H Hl) as Hlt. pose proof (ok_fuel _ _ _ _ H Hl) as Hf.
  destruct (ok_prio _ _ H _ _ _ Hl Hil) as (p & Hp & Hb).
  destruct (ok_bucket _ _ _ _ H Hl) as (h & Hh & Hs).
  pose proof (lseg_NoDup _ _ _ Hs) as Hnd.
  unfold pq1_dequeue. rewrite (first_runnable_spec _ _ _ (ok_lists _ _ H) (ok_fuels _ _ H)), Hi.
  cbn [rbind]. rewrite (proj2 (proc_at_Ok _ _ _) Hp). cbn [rbind].
  rewrite Hb, (arr_get_bucket _ _ _ Hh). cbn [rbind].
  pose proof Hil as (l1 & l2 & ->)%list_elem_of_split. rewrite filter_ne_mid by done.
  rewrite (dequeue_unlink _ _ _ _ _ _ _ _ H Hl Hp Hh).
  destruct (remove_unlink_spec _ _ _ _ _ _ _ H Hl (next_of_lookup _ _ _ Hp))
    as (s1 & h1 & -> & Hq1 & Hs1 & Hsame1 & Hkeep1). cbn [rbind].
  apply NoDup_app in Hnd as (_ & Hd & Hnd). apply NoDup_cons in Hnd as [Hi2 _].
  destruct (append_spec s1 b h1 (l1 ++ l2) i) as (s' & He & Hq' & Hs' & Hsame' & Hkeep').
  { rewrite Hq1. apply list_lookup_insert_eq. rewrite (ok_buckets _ _ H). lia. }
  { done. } { rewrite length_app in *. simpl in Hf. lia. } { set_solver. }
  { destruct (same_but_next_lookup _ _ _ _ Hsame1 Hp) as (? & ? & _). eauto. }
  exists s'. do 3 (split; [done |]). split.
  { apply rbind_Ok in He as (hd & -> & He). cbn [rbind].
    apply rbind_Ok in He as (s2 & -> & He). cbn [rbind]. by injection He as <-. }
  assert (Hsame : same_but_next (pq_procs s) (pq_procs s')) by (by etrans).
  split; [| done]. rewrite Hq1, list_insert_insert_eq in Hq'.
  eapply pq_ok_update; [done | done | done | exact Hq' | done | | |].
  - intros j Hj. eapply (ok_prio _ _ H); [done |]. set_solver.
  - intros j q Hq Hqb. assert (j ∉ l1 ++ i :: l2) as Hj.
    { intros Hj. destruct (ok_prio _ _ H _ _ j Hl Hj) as (q' & Hq2 & ?). congruence. }
    rewrite Hkeep', Hkeep1 by (try intros ?%last_Some_elem_of; set_solver). done.
  - intros j q Hq Hqb Hj.
    rewrite Hkeep', Hkeep1 by (try intros ?%last_Some_elem_of; set_solver).
    rewrite (next_of_lookup _ _ _ Hq). f_equal. eapply ok_off_bucket; set_solver.
Qed.

Lemma pq1_dequeue_none s qs :
  pq_ok s qs -> head (filter (runnable (pq_procs s)) (concat qs)) = None ->
  pq1_dequeue s = Ok (None, s).
Proof.
  intros H Hi. unfold pq1_dequeue. rewrite (first_runnable_spec _ _ _ (ok_lists _ _ H) (ok_fuels _ _ H)).
  by rewrite Hi.
Qed.

(** An executable test of the invariant. *)
Definition pq_okb (s : prioq) (qs : list (list nat)) : bool :=
  bool_decide (length (pq_queue s) = PRIO_MAX) && bool_decide (length (pq_procs s) = NPROC) &&
  bool_decide (length qs = PRIO_MAX) &&
  forallb (fun hl => lsegb (next_of (pq_procs s)) (fst hl) (snd hl)) (zip (pq_queue s) qs) &&
  forallb (fun bl => forallb (fun i => bool_decide
      (p_priority <$> pq_procs s !! i = Some (Z.of_nat (fst bl)))) (snd bl))
    (zip (seq 0 PRIO_MAX) qs) &&
  forallb (fun i => bool_decide (next_of (pq_procs s) i = Some None) || bool_decide (i ∈ concat qs))
    (seq 0 NPROC).

Lemma pq_okb_sound s qs : pq_okb s qs = true -> pq_ok s qs.
Proof.
  unfold pq_okb. rewrite !andb_true_iff, !bool_decide_eq_true, !forallb_forall.
  intros [[[[[Hq Hp] Hqs] Hl] Hprio] Hoff]. split; [done | done | | |].
  - apply Forall2_same_length_lookup_2; [congruence |]. intros b h l Hh Hb.
    apply lsegb_sound, (Hl (h, l)), list_elem_of_In, list_elem_of_lookup. exists b.
    apply lookup_zip_Some. done.
  - intros b l i Hb Hi. assert (In (b, l) (zip (seq 0 PRIO_MAX) qs)) as Hin.
    { apply list_elem_of_In, list_elem_of_lookup. exists b. apply lookup_zip_Some.
      split; [| done]. apply lookup_seq. apply lookup_lt_Some in Hb. simpl. lia. }
    apply Hprio in Hin. rewrite forallb_forall in Hin. simpl in Hin.
    apply list_elem_of_In in Hi. apply Hin, bool_decide_eq_true in Hi.
    destruct (pq_procs s !! i) as [p|]; simpl in Hi; [| done]. exists p. split; [done | congruence].
  - intros i p Hi Hni. assert (In i (seq 0 NPROC)) as Hin.
    { apply in_seq. apply lookup_lt_Some in Hi. lia. }
    apply Hoff, orb_true_iff in Hin as [Hin|Hin]; apply bool_decide_eq_true in Hin.
    + rewrite (next_of_lookup _ _ _ Hi) in Hin. by injection Hin.
    + apply concat_elem_bucket in Hin as (b & l & Hb & Hil). exfalso.
      eapply Hni; [| done]. by eapply list_elem_of_lookup_2.
Qed.

(** Two runnable processes at priority 3 with a sleeping one between them. *)
Definition ex_procs : list proc :=
  let mk pid st par nx := set_pid pid (set_state st (set_parent par (set_next nx
    (set_priority 3 proc_zero)))) in
  mk 1 RUNNABLE None (Some 1%nat) :: mk 2 SLEEPING (Some 0%nat) (Some 2%nat) ::
  mk 3 RUNNABLE (Some 1%nat) None :: replicate 61 proc_zero.

Definition ex_prioq : prioq := mkPrioq ex_procs (<[3%nat := Some 0%nat]> (replicate 10 None)).

Definition ex_qs : list (list nat) := <[3%nat := [0; 1; 2]%nat]> (replicate 10 []).

Lemma ex_prioq_ok : pq_ok ex_prioq ex_qs.
Proof. apply pq_okb_sound. by vm_compute. Qed.

(** Checking a property of every entry of a concrete table. *)
Lemma table_forall (P : nat -> proc -> Prop) `{!forall i p, Decision (P i p)} pt :
  forallb (fun ip => bool_decide (P (fst ip) (snd ip))) (zip (seq 0 (length pt)) pt) = true ->
  forall i p, pt !! i = Some p -> P i p.
Proof.
  rewrite forallb_forall. intros Hall i p Hp.
  assert (In (i, p) (zip (seq 0 (length pt)) pt)) as Hin.
  { apply list_elem_of_In, list_elem_of_lookup. exists i. apply lookup_zip_Some.
    split; [| done]. apply lookup_seq. apply lookup_lt_Some in Hp. simpl. lia. }
  by apply Hall, bool_decide_eq_true in Hin.
Qed.

Lemma ex_pid_index i p :
  ex_procs !! i = Some p -> p_pid p = 0 \/ p_pid p = Z.of_nat i + 1.
Proof.
  revert i p. apply (table_forall (fun i p => p_pid p = 0 \/ p_pid p = Z.of_nat i + 1)).
  by vm_compute.
Qed.

Lemma ex_range i p : ex_procs !! i = Some p -> 0 <= p_priority p < Z.of_nat PRIO_MAX.
Proof.
  revert i p. apply (table_forall (fun _ p => 0 <= p_priority p < Z.of_nat PRIO_MAX)).
  by vm_compute.
Qed.

(** The first runnable process overall: no bucket before its own has one, and
    it is the first one of its bucket. *)
Lemma head_filter_concat (P : nat -> Prop) `{!forall x, Decision (P x)} qs i :
  head (filter P (concat qs)) = Some i ->
  exists b l1 l2, qs !! b = Some (l1 ++ i :: l2) /\ P i /\ (forall j, j ∈ l1 -> ~ P j) /\
    forall c l j, (c < b)%nat -> qs !! c = Some l -> j ∈ l -> ~ P j.
Proof.
  induction qs as [|l qs IH]; simpl; [done |]. rewrite filter_app.
  destruct (decide (Exists P l)) as [He|Hne].
  - intros Hh. exists 0%nat. simpl.
    assert (exists l1 x l2, l = l1 ++ x :: l2 /\ P x /\ forall j, j ∈ l1 -> ~ P j)
      as (l1 & x & l2 & -> & Hx & Hl1).
    { destruct (list_find P l) as [[k x]|] eqn:Hf.
      - apply list_find_Some in Hf as (Hk & Hx & Hmin).
        exists (take k l), x, (drop (S k) l). split; [by rewrite take_drop_middle |].
        split; [done |]. intros j Hj. apply list_elem_of_lookup in Hj as [m Hm].
        apply lookup_take_Some in Hm as [Hm ?]. eauto.
      - apply list_find_None in Hf. by apply Forall_not_Exists in Hf. }
    rewrite filter_app, (filter_none P l1), filter_cons_True in Hh by done.
    simpl in Hh. injection Hh as ->. exists l1, l2. repeat split; [done | done | lia].
  - rewrite (filter_none P l); [| intros x Hx Px; apply Hne, Exists_exists; eauto].
    intros Hh. destruct (IH Hh) as (b & l1 & l2 & Hb & Hi & Hl1 & Hlow).
    exists (S b), l1, l2. repeat split; [done | done | done |].
    intros [|c] l' j Hc Hl' Hj; simpl in Hl'.
    + injection Hl' as <-. intros Pj. apply Hne, Exists_exists. eauto.
    + eapply (Hlow c); [lia | done | done].
Qed.

(** C27: The scheduler's queue implements priority scheduling: on a
    well-formed queue [pq1_dequeue] returns normally. It returns NULL, and
    changes nothing, exactly when no queued process is runnable. Otherwise it
    returns the first runnable process of the best bucket that has one, moves
    it to the end of its bucket, keeps the order of all others, and changes
    no field of any process but the links. *)
Theorem pq1_dequeue_correct s qs (Hok : pq_ok s qs) :
  (pq1_dequeue s = Ok (None, s) /\ forall i, i ∈ concat qs -> ~ runnable (pq_procs s) i) \/
  (exists i b l1 l2 s', qs !! b = Some (l1 ++ i :: l2) /\
     runnable (pq_procs s) i /\ (forall j, j ∈ l1 -> ~ runnable (pq_procs s) j) /\
     (forall c l j, (c < b)%nat -> qs !! c = Some l -> j ∈ l -> ~ runnable (pq_procs s) j) /\
     pq1_dequeue s = Ok (Some i, s') /\
     pq_ok s' (<[b := l1 ++ l2 ++ [i]]> qs) /\ same_but_next (pq_procs s) (pq_procs s')).
Proof.
  destruct (head (filter (runnable (pq_procs s)) (concat qs))) as [i|] eqn:Hh.
  - right. destruct (pq1_dequeue_some _ _ _ Hok Hh)
      as (b & l & s' & Hl & Hi & Hrun & Hd & Hok' & Hsame).
    apply head_filter_concat in Hh as (b' & l1 & l2 & Hb' & _ & Hl1 & Hlow).
    assert (b = b') as <- by (eapply (ok_bucket_unique _ _ _ _ _ _ i Hok); [done | done | done | set_solver]).
    simplify_eq. exists i, b, l1, l2, s'. do 5 (split; [done |]). split; [| done].
    destruct (ok_bucket _ _ _ _ Hok Hb') as (h & _ & Hs).
    rewrite filter_ne_mid, <- app_assoc in Hok' by (by eapply lseg_NoDup). done.
  - left. split; [by eapply pq1_dequeue_none |]. intros i Hi Hrun.
    apply head_None in Hh. eapply elem_of_nil. rewrite <- Hh. apply list_elem_of_filter. eauto.
Qed.

Lemma pq1_dequeue_correct_witness :
  pq_ok ex_prioq ex_qs /\ runnable (pq_procs ex_prioq) 0%nat /\
  ((pq1_dequeue ex_prioq = Ok (None, ex_prioq) /\
    forall i, i ∈ concat ex_qs -> ~ runnable (pq_procs ex_prioq) i) \/
  (exists i b l1 l2 s', ex_qs !! b = Some (l1 ++ i :: l2) /\
     runnable (pq_procs ex_prioq) i /\ (forall j, j ∈ l1 -> ~ runnable (pq_procs ex_prioq) j) /\
     (forall c l j, (c < b)%nat -> ex_qs !! c = Some l -> j ∈ l ->
        ~ runnable (pq_procs ex_prioq) j) /\
     pq1_dequeue ex_prioq = Ok (Some i, s') /\
     pq_ok s' (<[b := l1 ++ l2 ++ [i]]> ex_qs) /\
     same_but_next (pq_procs ex_prioq) (pq_procs s'))).
Proof.
  split; [apply ex_prioq_ok |]. split; [reflexivity |].
  apply pq1_dequeue_correct. apply ex_prioq_ok.
Defined.

(** ** Round robin *)

(** The processes the scheduler picks in [n] rounds. *)
Fixpoint dequeue_n (n : nat) (s : prioq) : res (list (option nat) * prioq) :=
  match n with
  | O => Ok ([], s)
  | S n' =>
      let! (p, s) := pq1_dequeue s in
      let! (ps, s) := dequeue_n n' s in
      Ok (p :: ps, s)
  end.

(** Bucket [b] holds the runnable processes [r], in this order, and no better
    bucket has any. *)
Definition turn (s : prioq) (qs : list (list nat)) (b : nat) (r : list nat) : Prop :=
  pq_ok s qs /\ (exists l, qs !! b = Some l /\ filter (runnable (pq_procs s)) l = r) /\
  forall c l j, (c < b)%nat -> qs !! c = Some l -> j ∈ l -> ~ runnable (pq_procs s) j.

Lemma turn_step s qs b i r :
  turn s qs b (i :: r) ->
  exists s' qs', pq1_dequeue s = Ok (Some i, s') /\ turn s' qs' b (r ++ [i]) /\
    same_but_next (pq_procs s) (pq_procs s').
Proof.
  intros (H & (l & Hl & Hr) & Hlow).
  assert (Hh : head (filter (runnable (pq_procs s)) (concat qs)) = Some i).
  { rewrite <- (take_drop_middle _ _ _ Hl), concat_app. simpl.
    rewrite !filter_app, Hr, (filter_none _ (concat (take b qs))); [done |].
    intros j Hj. apply concat_elem_bucket in Hj as (c & lc & Hc & Hj).
    apply lookup_take_Some in Hc as [Hc ?]. eauto. }
  destruct (pq1_dequeue_some _ _ _ H Hh) as (b' & l' & s' & Hl' & Hi & Hrun & Hd & Hok' & Hsame).
  assert (i ∈ l) as Hil.
  { assert (i ∈ filter (runnable (pq_procs s)) l) as Hi' by (rewrite Hr; left).
    by apply list_elem_of_filter in Hi' as [_ ?]. }
  assert (b = b') as <- by (by eapply (ok_bucket_unique _ _ _ _ _ _ i H)). simplify_eq.
  eexists _, _. split; [done |]. split; [| done]. split; [done |].
  pose proof (bucket_lt _ _ _ _ H Hl) as Hlt.
  assert (Hext : forall j, runnable (pq_procs s') j <-> runnable (pq_procs s) j)
    by (intros j; symmetry; by apply same_but_next_runnable).
  split.
  - eexists. split; [apply list_lookup_insert_eq; rewrite (ok_qs_length _ _ H); lia |].
    rewrite (list_filter_iff _ (runnable (pq_procs s))) by done.
    rewrite filter_app, filter_cons_True by done. f_equal.
    destruct (ok_bucket _ _ _ _ H Hl) as (h & _ & Hs). pose proof (lseg_NoDup _ _ _ Hs) as Hnd.
    rewrite filter_comm, Hr.
    pose proof (NoDup_filter (runnable (pq_procs s)) l Hnd) as Hnd'. rewrite Hr in Hnd'.
    by apply (filter_ne_mid i [] r).
  - intros c lc j Hc Hlc Hj. rewrite Hext. rewrite list_lookup_insert_ne in Hlc by lia. eauto.
Qed.

Lemma turn_steps r1 : forall s qs b r2,
  turn s qs b (r1 ++ r2) ->
  exists s' qs', dequeue_n (length r1) s = Ok (map Some r1, s') /\ turn s' qs' b (r2 ++ r1) /\
    same_but_next (pq_procs s) (pq_procs s').
Proof.
  induction r1 as [|i r1 IH]; intros s qs b r2 H; simpl.
  - exists s, qs. rewrite app_nil_r. done.
  - destruct (turn_step _ _ _ _ _ H) as (s1 & qs1 & -> & H1 & Hs1).
    rewrite <- app_assoc in H1. destruct (IH _ _ _ _ H1) as (s2 & qs2 & He & H2 & Hs2).
    exists s2, qs2. simpl. rewrite He. simpl. rewrite <- app_assoc in H2.
    split; [done |]. split; [done |]. by etrans.
Qed.

(** Scheduling within the best priority is round robin: while the set of
    runnable processes stays the same, [length r] successive calls of
    [pq1_dequeue] return each of the [r] runnable processes of the best
    bucket exactly once, in the order of the queue, and leave them queued in
    that same order, so no process of that bucket starves. *)
Theorem pq1_round_robin s qs b r (H : turn s qs b r) :
  exists s' qs', dequeue_n (length r) s = Ok (map Some r, s') /\ turn s' qs' b r /\ NoDup r.
Proof.
  assert (NoDup r) as Hnd.
  { destruct H as (Hok & (l & Hl & <-) & _). apply NoDup_filter.
    destruct (ok_bucket _ _ _ _ Hok Hl) as (h & _ & Hs). by eapply lseg_NoDup. }
  rewrite <- (app_nil_r r) in H. destruct (turn_steps _ _ _ _ _ H) as (s' & qs' & Hd & H' & _).
  exists s', qs'. done.
Qed.

Lemma pq1_round_robin_witness : exists s' qs',
  dequeue_n 2 ex_prioq = Ok ([Some 0%nat; Some 2%nat], s') /\ turn s' qs' 3 [0; 2]%nat /\
  NoDup [0; 2]%nat.
Proof.
  apply (pq1_round_robin ex_prioq ex_qs 3 [0; 2]%nat). split; [apply ex_prioq_ok |]. split.
  - exists [0; 1; 2]%nat. split; reflexivity.
  - intros [|[|[|c]]] l j Hc Hl Hj; [| | | lia]; injection Hl as <-; by apply elem_of_nil in Hj.
Defined.

(** ** [prio_set] *)

Definition parent_of (pt : list proc) (i : nat) : option (option nat) := p_parent <$> pt !! i.

Lemma find_pid_Some pt pid i :
  find_pid pt pid = Some i -> exists p, pt !! i = Some p /\ p_pid p = pid.
Proof.
  unfold find_pid. generalize (length pt). intros n. induction n as [|n IH]; [done |].
  rewrite seq_S, foldl_app. simpl. destruct (pt !! n) as [p|] eqn:Hp; [| done].
  destruct (Z.eqb_spec (p_pid p) pid); [| done]. intros [= <-]. eauto.
Qed.

Lemma in_ancestry_spec fuel pt a chain pid :
  lseg (parent_of pt) a chain -> (length chain <= fuel)%nat ->
  in_ancestry fuel pt a pid = Ok (bool_decide (pid ∈ omap (fun i => p_pid <$> pt !! i) chain)).
Proof.
  revert fuel a. induction chain as [|i chain IH]; intros fuel a Hs Hf.
  - simpl in Hs. subst a. by destruct fuel.
  - destruct Hs as (-> & n & Hn & Hs). destruct fuel as [|f]; simpl in Hf; [lia |].
    unfold parent_of in Hn. destruct (pt !! i) as [p|] eqn:Hp; simpl in Hn; [| done].
    injection Hn as <-. simpl. rewrite (proj2 (proc_at_Ok _ _ _) Hp), Hp. simpl.
    destruct (Z.eqb_spec (p_pid p) pid) as [->|Hne].
    + rewrite bool_decide_true; [done | by left].
    + rewrite (IH f (p_parent p)) by (done || lia). f_equal. apply bool_decide_ext.
      rewrite elem_of_cons. naive_solver.
Qed.

Lemma chain_fuel pt a chain :
  length pt = NPROC -> lseg (parent_of pt) a chain -> (length chain <= NPROC)%nat.
Proof.
  intros Hl Hs. apply bounded_NoDup_length; [by eapply lseg_NoDup |]. intros i Hi.
  destruct (lpath_cell _ _ _ _ _ Hs Hi) as (n & Hn). unfold parent_of in Hn.
  destruct (pt !! i) eqn:Hp; [| done]. apply lookup_lt_Some in Hp. lia.
Qed.

(** A process that no bucket holds can change its priority. *)
Lemma pq_ok_set_priority s qs i v :
  pq_ok s qs -> (forall l, l ∈ qs -> i ∉ l) ->
  pq_ok (mkPrioq (upd_proc (pq_procs s) i (set_priority v)) (pq_queue s)) qs.
Proof.
  intros H Hi. assert (Hn : forall j,
    next_of (upd_proc (pq_procs s) i (set_priority v)) j = next_of (pq_procs s) j).
  { intros j. unfold next_of. rewrite upd_proc_lookup. case_decide; [| done].
    by destruct (pq_procs s !! j). }
  split; simpl.
  - apply H.
  - rewrite upd_proc_length. apply H.
  - eapply Forall2_impl; [apply H |]. intros h l Hs. eapply lpath_ext; [| exact Hs]. auto.
  - intros b l j Hl Hj. destruct (ok_prio _ _ H _ _ _ Hl Hj) as (p & Hp & Hb).
    exists p. split; [| done]. rewrite upd_proc_lookup, decide_False; [done |].
    intros <-. apply (Hi l); [by eapply list_elem_of_lookup_2 | done].
  - intros j p Hp Hj. specialize (Hn j). rewrite (next_of_lookup _ _ _ Hp) in Hn.
    symmetry in Hn. apply next_of_Some in Hn as (q & Hq & <-). by eapply (ok_off _ _ H).
Qed.

(** Without a process of that pid in the bucket the walk changes nothing. *)
Lemma remove_loop_absent fuel priority pid prev cur s l :
  lseg (next_of (pq_procs s)) cur l -> (length l <= fuel)%nat ->
  (forall j q, j ∈ l -> pq_procs s !! j = Some q -> p_pid q <> pid) ->
  remove_loop fuel priority pid prev cur s = Ok s.
Proof.
  revert fuel prev cur. induction l as [|j l IH]; intros fuel prev cur Hs Hf Hne.
  - simpl in Hs. subst cur. by destruct fuel.
  - destruct Hs as (-> & n & Hn & Hs). destruct fuel as [|f]; simpl in Hf; [lia |].
    simpl. destruct (next_of_Some _ _ _ Hn) as (q & Hq & <-).
    rewrite (proj2 (proc_at_Ok _ _ _) Hq). simpl.
    rewrite (proj2 (Z.eqb_neq _ _)) by (eapply Hne; [by left | done]).
    apply IH; [done | lia |]. intros k r Hk. apply Hne. by right.
Qed.

(** No two processes have the same pid; free entries have pid 0. *)
Definition pids_unique (pt : list proc) : Prop :=
  forall i j p q, pt !! i = Some p -> pt !! j = Some q ->
    p_pid p = p_pid q -> p_pid p <> 0 -> i = j.

(** [remove_node] for any process, queued or not. *)
Lemma remove_node_any s qs i p b l :
  pq_ok s qs -> pids_unique (pq_procs s) -> pq_procs s !! i = Some p ->
  p_pid p <> 0 -> p_priority p = Z.of_nat b -> qs !! b = Some l ->
  exists s', remove_node i s = Ok s' /\
    pq_ok s' (<[b := filter (fun j => j <> i) l]> qs) /\
    same_but_next (pq_procs s) (pq_procs s').
Proof.
  intros H Hu Hp Hpid Hb Hl. destruct (decide (i ∈ l)) as [Hi|Hi].
  - eapply remove_node_spec; try done. intros j q _ Hq He. eapply Hu; eauto. congruence.
  - destruct (ok_bucket _ _ _ _ H Hl) as (h & Hh & Hs). exists s.
    rewrite filter_all by set_solver. rewrite list_insert_id by done.
    split; [| done]. unfold remove_node. rewrite (proj2 (proc_at_Ok _ _ _) Hp). cbn [rbind].
    rewrite Hb, (arr_get_bucket _ _ _ Hh). cbn [rbind].
    eapply remove_loop_absent; [done | by eapply ok_fuel |].
    intros j q Hj Hq He. apply Hi. assert (j = i) as <-; [| done].
    eapply Hu; eauto. congruence.
Qed.

(** The queue after process [i] has moved from bucket [b] to the head of
    bucket [c]. *)
Definition move_bucket (i b c : nat) (qs : list (list nat)) : list (list nat) :=
  alter (cons i) c (alter (filter (fun j => j <> i)) b qs).

Lemma prio_set_move s qs i p b c :
  pq_ok s qs -> pids_unique (pq_procs s) -> pq_procs s !! i = Some p ->
  p_pid p <> 0 -> p_priority p = Z.of_nat b -> (b < PRIO_MAX)%nat -> (c < PRIO_MAX)%nat ->
  exists s', (let! s := remove_node i s in
    let s := mkPrioq (upd_proc (pq_procs s) i (set_priority (Z.of_nat c))) (pq_queue s) in
    let! s := pq1_enqueue i (Z.of_nat c) s in
    Ok (0, s)) = Ok (0, s') /\ pq_ok s' (move_bucket i b c qs) /\
    same_but_next (upd_proc (pq_procs s) i (set_priority (Z.of_nat c))) (pq_procs s').
Proof.
  intros H Hu Hp Hpid Hb Hlb Hlc.
  destruct (lookup_lt_is_Some_2 qs b) as [l Hl]; [rewrite (ok_qs_length _ _ H); lia |].
  destruct (remove_node_any _ _ _ _ _ _ H Hu Hp Hpid Hb Hl) as (s1 & -> & H1 & Hs1).
  cbn [rbind]. set (qs1 := <[b := filter (fun j => j <> i) l]> qs) in *.
  assert (Hout : forall l', l' ∈ qs1 -> i ∉ l').
  { intros l' Hl' Hi. apply list_elem_of_lookup in Hl' as [k Hk].
    destruct (ok_prio _ _ H1 _ _ _ Hk Hi) as (p' & Hp' & Hk').
    destruct (same_but_next_prio _ _ _ _ Hs1 Hp) as (p2 & Hp2 & He). simplify_eq.
    assert (b = k) as <- by lia. subst qs1. rewrite list_lookup_insert_eq in Hk
      by (rewrite (ok_qs_length _ _ H); lia).
    injection Hk as <-. by apply list_elem_of_filter in Hi as [? _]. }
  destruct (same_but_next_lookup _ _ _ _ Hs1 Hp) as (p1 & Hp1 & _).
  pose proof (pq_ok_set_priority _ _ _ (Z.of_nat c) H1 Hout) as H2.
  destruct (lookup_lt_is_Some_2 qs1 c) as [l' Hl']; [rewrite (ok_qs_length _ _ H1); lia |].
  destruct (pq1_enqueue_spec _ _ i (set_priority (Z.of_nat c) p1) c l' H2) as (s' & -> & H' & Hs');
    [by simpl; rewrite upd_proc_lookup, decide_True, Hp1 | done | done | |].
  { apply Hout. by eapply list_elem_of_lookup_2. }
  exists s'. split; [done |]. split.
  - unfold move_bucket. rewrite (list_alter_lookup_insert _ _ _ _ Hl).
    by rewrite (list_alter_lookup_insert _ _ _ _ Hl').
  - etrans; [| exact Hs']. simpl. intros j. rewrite !upd_proc_lookup. specialize (Hs1 j).
    case_decide; [| done]. destruct (pq_procs s !! j), (pq_procs s1 !! j); simpl in *; try done.
    by apply (f_equal (option_map (set_priority (Z.of_nat c)))) in Hs1.
Qed.

(** [prio_set] enforces its policy and keeps the queue well formed. Let
    [chain] be the process with the given pid followed by its ancestors. The
    call succeeds exactly when the priority is valid, not better than the
    caller's own, and the caller is on the chain. When it fails it returns -1
    and changes nothing; when it succeeds the process has the new priority,
    it has moved to the head of the new bucket, and nothing else changed but
    links. *)
Theorem prio_set_correct s qs cur cp pid priority chain
  (Hok : pq_ok s qs) (Hu : pids_unique (pq_procs s)) (Hcur : pq_procs s !! cur = Some cp)
  (Hpid : pid <> 0) (Hrange : forall i p, pq_procs s !! i = Some p ->
    0 <= p_priority p < Z.of_nat PRIO_MAX)
  (Hchain : lseg (parent_of (pq_procs s)) (find_pid (pq_procs s) pid) chain) :
  let allowed := p_priority cp <= priority < Z.of_nat PRIO_MAX /\
    p_pid cp ∈ omap (fun i => p_pid <$> pq_procs s !! i) chain in
  (~ allowed -> prio_set cur pid priority s = Ok (-1, s)) /\
  (allowed -> exists i p s', find_pid (pq_procs s) pid = Some i /\
     pq_procs s !! i = Some p /\ p_pid p = pid /\
     prio_set cur pid priority s = Ok (0, s') /\
     pq_ok s' (move_bucket i (Z.to_nat (p_priority p)) (Z.to_nat priority) qs) /\
     same_but_next (upd_proc (pq_procs s) i (set_priority priority)) (pq_procs s')).
Proof.
  intros allowed. pose proof (Hrange _ _ Hcur) as Hcp. unfold prio_set.
  rewrite (proj2 (proc_at_Ok _ _ _) Hcur). cbn [rbind].
  rewrite (in_ancestry_spec _ _ _ _ _ Hchain (chain_fuel _ _ _ (ok_table _ _ Hok) Hchain)).
  cbn [rbind]. split.
  - intros Hno. destruct (Z.ltb_spec priority 0), (Z.leb_spec (Z.of_nat PRIO_MAX) priority),
      (Z.ltb_spec priority (p_priority cp)); simpl; try done.
    rewrite bool_decide_false; [done |]. intros Hin. apply Hno. split; [lia | done].
  - intros [Hp Hin]. rewrite (proj2 (Z.ltb_ge _ _)), (proj2 (Z.leb_gt _ _)) by lia. simpl.
    rewrite (proj2 (Z.ltb_ge _ _)) by lia. rewrite bool_decide_true by done.
    destruct (find_pid (pq_procs s) pid) as [i|] eqn:Hi.
    2: { apply lseg_None in Hchain as ->. by apply elem_of_nil in Hin. }
    destruct (find_pid_Some _ _ _ Hi) as (p & Hpi & Hpp). pose proof (Hrange _ _ Hpi).
    destruct (prio_set_move s qs i p (Z.to_nat (p_priority p)) (Z.to_nat priority) Hok Hu Hpi)
      as (s' & He & H1 & H2); [congruence | lia | lia | lia |].
    rewrite !Z2Nat.id in He, H2 by lia. exists i, p, s'. done.
Qed.

Lemma prio_set_correct_witness :
  exists i p s', find_pid (pq_procs ex_prioq) 3 = Some i /\
     pq_procs ex_prioq !! i = Some p /\ p_pid p = 3 /\
     prio_set 0 3 5 ex_prioq = Ok (0, s') /\
     pq_ok s' (move_bucket i (Z.to_nat (p_priority p)) (Z.to_nat 5) ex_qs) /\
     same_but_next (upd_proc (pq_procs ex_prioq) i (set_priority 5)) (pq_procs s').
Proof.
  destruct (pq_procs ex_prioq !! 0%nat) as [cp|] eqn:Hcp; [| discriminate Hcp].
  apply (prio_set_correct ex_prioq ex_qs 0 cp 3 5 [2; 1; 0]%nat).
  - apply ex_prioq_ok.
  - intros i j p q Hp Hq He Hnz. apply ex_pid_index in Hp, Hq. 
    destruct Hp, Hq; lia.
  - exact Hcp.
  - lia.
  - apply ex_range.
  - by apply lsegb_sound.
  - vm_compute in Hcp. injection Hcp as <-. split; [done |]. vm_compute. by repeat constructor.
Defined.
