(* ===== verification/Bytes.v ===== *)
(** * Little-endian integers in byte buffers

    How the code reads and writes 16 and 32 bit fields of structures that lie
    in a disk block. *)

From S2P Require Import Prelude.

Definition byte_at (d : list Z) (i : nat) : Z := default 0 (d !! i).

Definition get32 (d : list Z) (off : nat) : Z :=
  byte_at d off + 256 * (byte_at d (off + 1) + 256 * (byte_at d (off + 2) + 256 * byte_at d (off + 3))).

Definition put32 (d : list Z) (off : nat) (v : Z) : list Z :=
  <[(off + 3)%nat := (v / 16777216) mod 256]> (<[(off + 2)%nat := (v / 65536) mod 256]>
    (<[(off + 1)%nat := (v / 256) mod 256]> (<[off := v mod 256]> d))).

Definition get16 (d : list Z) (off : nat) : Z := byte_at d off + 256 * byte_at d (off + 1).

Definition put16 (d : list Z) (off : nat) (v : Z) : list Z :=
  <[(off + 1)%nat := (v / 256) mod 256]> (<[off := v mod 256]> d).

Lemma byte_at_insert_eq d i v : (i < length d)%nat -> byte_at (<[i := v]> d) i = v.
Proof. intros H. unfold byte_at. by rewrite list_lookup_insert_eq. Qed.

Lemma byte_at_insert_ne d i j v : i <> j -> byte_at (<[i := v]> d) j = byte_at d j.
Proof. intros H. unfold byte_at. by rewrite list_lookup_insert_ne. Qed.

Lemma length_put32 d off v : length (put32 d off v) = length d.
Proof. unfold put32. by rewrite !length_insert. Qed.

Lemma length_put16 d off v : length (put16 d off v) = length d.
Proof. unfold put16. by rewrite !length_insert. Qed.

Create Rewrite HintDb bytes.
#[export] Hint Rewrite length_put32 length_put16 @length_insert : bytes.

Ltac byte_cases :=
  repeat first
    [ rewrite byte_at_insert_eq by (rewrite ?length_insert; lia)
    | rewrite byte_at_insert_ne by lia ].

Lemma get32_put32_eq d off v : (off + 4 <= length d)%nat -> get32 (put32 d off v) off = u32 v.
Proof.
  intros H. unfold get32, put32. byte_cases. unfold u32.
  pose proof (Z.div_mod v 256 ltac:(lia)). pose proof (Z.div_mod (v / 256) 256 ltac:(lia)).
  pose proof (Z.div_mod (v / 65536) 256 ltac:(lia)). pose proof (Z.div_mod (v / 16777216) 256 ltac:(lia)).
  pose proof (Z.div_mod v 4294967296 ltac:(lia)).
  assert (v / 256 / 256 = v / 65536) by (rewrite Z.div_div; done).
  assert (v / 65536 / 256 = v / 16777216) by (rewrite Z.div_div; done).
  assert (v / 16777216 / 256 = v / 4294967296) by (rewrite Z.div_div; done). lia.
Qed.

Lemma get32_put32_ne d off off' v :
  (off + 4 <= off' \/ off' + 4 <= off)%nat -> get32 (put32 d off v) off' = get32 d off'.
Proof. intros H. unfold get32, put32. by byte_cases. Qed.

Lemma get16_put16_eq d off v : (off + 2 <= length d)%nat -> get16 (put16 d off v) off = v mod 65536.
Proof.
  intros H. unfold get16, put16. byte_cases.
  pose proof (Z.div_mod v 256 ltac:(lia)). pose proof (Z.div_mod (v / 256) 256 ltac:(lia)).
  pose proof (Z.div_mod v 65536 ltac:(lia)). 
  assert (v / 256 / 256 = v / 65536) by (rewrite Z.div_div; done). lia.
Qed.

Lemma get16_put16_ne d off off' v :
  (off + 2 <= off' \/ off' + 2 <= off)%nat -> get16 (put16 d off v) off' = get16 d off'.
Proof. intros H. unfold get16, put16. by byte_cases. Qed.

Lemma get32_put16_ne d off off' v :
  (off + 2 <= off' \/ off' + 4 <= off)%nat -> get32 (put16 d off v) off' = get32 d off'.
Proof. intros H. unfold get32, put16. by byte_cases. Qed.

Lemma get16_put32_ne d off off' v :
  (off + 4 <= off' \/ off' + 2 <= off)%nat -> get16 (put32 d off v) off' = get16 d off'.
Proof. intros H. unfold get16, put32. by byte_cases. Qed.

(** An array of 32 bit fields. *)
Fixpoint put32s (d : list Z) (off : nat) (vs : list Z) : list Z :=
  match vs with [] => d | x :: vs' => put32s (put32 d off x) (off + 4) vs' end.

Lemma length_put32s d off vs : length (put32s d off vs) = length d.
Proof. revert d off. induction vs as [|x vs IH]; intros d off; [done |]. simpl. by rewrite IH, length_put32. Qed.

Lemma get32_put32s_ne vs : forall d off off',
  (off + 4 * length vs <= off' \/ off' + 4 <= off)%nat -> get32 (put32s d off vs) off' = get32 d off'.
Proof.
  induction vs as [|x vs IH]; intros d off off' H; [done |]. simpl in *.
  rewrite IH by lia. apply get32_put32_ne. lia.
Qed.

Lemma get16_put32s_ne vs : forall d off off',
  (off + 4 * length vs <= off' \/ off' + 2 <= off)%nat -> get16 (put32s d off vs) off' = get16 d off'.
Proof.
  induction vs as [|x vs IH]; intros d off off' H; [done |]. simpl in *.
  rewrite IH by lia. apply get16_put32_ne. lia.
Qed.

Lemma get32_put32s_in vs : forall d off j x,
  (off + 4 * length vs <= length d)%nat -> vs !! j = Some x -> get32 (put32s d off vs) (off + 4 * j) = u32 x.
Proof.
  induction vs as [|y vs IH]; intros d off j x H Hj; [done |]. cbn [length put32s] in H |- *. destruct j as [|j].
  - injection Hj as ->. rewrite get32_put32s_ne, Nat.mul_0_r, Nat.add_0_r by lia. apply get32_put32_eq. lia.
  - replace (off + 4 * S j)%nat with (off + 4 + 4 * j)%nat by lia.
    apply IH; [rewrite length_put32; lia | done].
Qed.

#[export] Hint Rewrite length_put32s : bytes.
