(* ===== verification/Ring.v ===== *)
(** * Doubly linked rings with a sentinel

    The buffer cache keeps its buffers on a circular list through [next] and
    [prev], entered at a sentinel. The links are seen through two functions
    [nx] and [pv]; [ring nx pv h l] says that [l] lists the elements in the
    order of [next], starting after the sentinel [h]. *)

From S2P Require Import Prelude.

Fixpoint chain (nx pv : nat -> nat) (c : list nat) : Prop :=
  match c with
  | a :: ((b :: _) as r) => nx a = b /\ pv b = a /\ chain nx pv r
  | _ => True
  end.

Definition ring (nx pv : nat -> nat) (h : nat) (l : list nat) : Prop :=
  chain nx pv (h :: l ++ [h]) /\ NoDup (h :: l).

Lemma chain_cons nx pv a b c : chain nx pv (a :: b :: c) <-> nx a = b /\ pv b = a /\ chain nx pv (b :: c).
Proof. done. Qed.

Lemma chain_app nx pv c1 a c2 :
  chain nx pv (c1 ++ a :: c2) <-> chain nx pv (c1 ++ [a]) /\ chain nx pv (a :: c2).
Proof.
  induction c1 as [|x c1 IH]; [split; [by intros | by intros [_ ?]] |].
  destruct c1 as [|y c1].
  - cbn [app]. rewrite !chain_cons. simpl. tauto.
  - cbn [app] in *. rewrite !chain_cons, IH. tauto.
Qed.

Lemma chain_ext nx pv nx' pv' c :
  (forall a c1 b c2, c = c1 ++ a :: b :: c2 -> nx' a = nx a /\ pv' b = pv b) ->
  chain nx pv c -> chain nx' pv' c.
Proof.
  induction c as [|a c IH]; [done |]. intros He. destruct c as [|b c]; [done |].
  rewrite !chain_cons. intros (Ha & Hb & Hc).
  destruct (He a [] b c eq_refl) as [-> ->]. split; [done |]. split; [done |].
  apply IH; [| done]. intros x c1 y c2 Heq. apply (He x (a :: c1) y c2). by rewrite Heq.
Qed.

(** The [next] of every element but the last and the [prev] of every element
    but the first matter. *)
Lemma chain_frame nx pv nx' pv' c d :
  chain nx pv (c ++ [d]) -> (forall a, a ∈ c -> nx' a = nx a) ->
  (forall b, b ∈ tail (c ++ [d]) -> pv' b = pv b) -> chain nx' pv' (c ++ [d]).
Proof.
  intros H Hn Hp. eapply chain_ext; [| exact H]. intros a c1 b c2 Heq. split.
  - apply Hn. destruct c2 as [|y c2 _] using rev_ind.
    + change [a; b] with ([a] ++ [b]) in Heq. rewrite app_assoc in Heq.
      apply app_inj_tail in Heq as [-> _]. set_solver.
    + change (a :: b :: c2 ++ [y]) with ((a :: b :: c2) ++ [y]) in Heq. rewrite app_assoc in Heq.
      apply app_inj_tail in Heq as [-> _]. set_solver.
  - apply Hp. rewrite Heq. destruct c1; simpl; set_solver.
Qed.

Lemma ring_push nx pv nx' pv' h l b :
  ring nx pv h l -> b ∉ h :: l ->
  nx' b = nx h -> pv' b = h -> pv' (nx h) = b -> nx' h = b ->
  (forall j, j <> b -> j <> h -> nx' j = nx j) ->
  (forall j, j <> b -> j <> nx h -> pv' j = pv j) -> ring nx' pv' h (b :: l).
Proof.
  intros [Hc Hnd] Hb H1 H2 H3 H4 Hn Hp. apply not_elem_of_cons in Hb as [Hbh Hb].
  apply NoDup_cons in Hnd as [Hhl Hnd]. split.
  2: { apply NoDup_cons. split; [set_solver |]. apply NoDup_cons. done. }
  assert (Hnd' : NoDup (l ++ [h])).
  { apply NoDup_app. split; [done |]. split; [set_solver |]. apply NoDup_singleton. }
  cbn [app]. rewrite chain_cons. split; [done |]. split; [done |].
  destruct l as [|x l]; cbn [app] in *; rewrite chain_cons in Hc |- *;
    destruct Hc as (Hx & _ & Hc); rewrite Hx in *.
  - done.
  - split; [done |]. split; [done |]. apply (chain_frame _ _ _ _ (x :: l) h Hc).
    + intros a Ha. apply Hn; set_solver.
    + intros a Ha. simpl in Ha. apply NoDup_cons in Hnd' as [Hx' _].
      apply Hp; [set_solver | congruence].
Qed.

Lemma ring_unlink nx pv nx' pv' h l1 b l2 :
  ring nx pv h (l1 ++ b :: l2) ->
  nx' (pv b) = nx b -> pv' (nx b) = pv b ->
  (forall j, j <> pv b -> nx' j = nx j) -> (forall j, j <> nx b -> pv' j = pv j) ->
  ring nx' pv' h (l1 ++ l2).
Proof.
  intros [Hc Hnd] H1 H2 Hn Hp. split.
  2: { eapply sublist_NoDup; [exact Hnd |]. apply sublist_skip, sublist_app; [done |].
       by apply sublist_cons. }
  destruct (exists_last (l := h :: l1)) as (c1 & p & Hc1); [done |].
  destruct (l2 ++ [h]) as [|n c2] eqn:Hc2; [by destruct l2 |].
  assert (Hall : h :: (l1 ++ b :: l2) ++ [h] = c1 ++ p :: b :: n :: c2).
  { rewrite <- app_assoc. simpl. rewrite Hc2, app_comm_cons, Hc1, <- app_assoc. done. }
  assert (Hgoal : h :: (l1 ++ l2) ++ [h] = c1 ++ p :: n :: c2).
  { rewrite <- app_assoc, Hc2, app_comm_cons, Hc1, <- app_assoc. done. }
  rewrite Hall in Hc. rewrite Hgoal. apply chain_app in Hc as [Hca Hcb].
  rewrite !chain_cons in Hcb. destruct Hcb as (Hpb & Hbp & Hbn & Hnb & Hcb).
  rewrite Hbp, Hbn in *. rewrite chain_app, chain_cons.
  rewrite app_comm_cons, Hc1 in Hnd. apply NoDup_app in Hnd as (Hnd1 & Hd & Hnd2).
  split; [| split; [done | split; [done |]]].
  - apply (chain_frame _ _ _ _ _ _ Hca).
    + intros a Ha. apply Hn. apply NoDup_app in Hnd1 as (_ & Hd1 & _). set_solver.
    + intros a Ha. apply Hp. rewrite <- Hc1 in Ha, Hd, Hnd1. simpl in Ha.
      apply NoDup_cons in Hnd1 as [Hh _]. destruct l2; simplify_eq/=; set_solver.
  - rewrite <- Hc2 in Hcb |- *. apply (chain_frame _ _ _ _ _ _ Hcb).
    + intros a Ha. apply Hn. intros ->. apply (Hd p); set_solver.
    + intros a Ha. apply Hp. apply NoDup_cons in Hnd2 as [_ Hnd2].
      assert (NoDup (l2 ++ [h])) as Hnd3.
      { apply NoDup_app. split; [done |]. split; [| apply NoDup_singleton].
        rewrite <- Hc1 in Hd. set_solver. }
      rewrite Hc2 in Ha, Hnd3. apply NoDup_cons in Hnd3 as [Hn' _]. simpl in Ha. congruence.
Qed.

Lemma chain_snoc nx pv c a b :
  chain nx pv (c ++ [a; b]) <-> chain nx pv (c ++ [a]) /\ nx a = b /\ pv b = a.
Proof. rewrite (chain_app nx pv c a [b]). simpl. tauto. Qed.

(** Following [prev] instead of [next]. *)
Lemma chain_reverse nx pv c : chain nx pv c -> chain pv nx (reverse c).
Proof.
  induction c as [|a c IH]; [done |]. destruct c as [|b c]; [done |].
  rewrite chain_cons. intros (Ha & Hb & Hc). rewrite !reverse_cons, <- app_assoc. simpl.
  apply chain_snoc. rewrite <- reverse_cons. auto.
Qed.

Lemma ring_reverse nx pv h l : ring nx pv h l -> ring pv nx h (reverse l).
Proof.
  intros [Hc Hnd]. split.
  - apply chain_reverse in Hc. rewrite reverse_cons, reverse_app in Hc. done.
  - apply NoDup_cons in Hnd as [Hh Hnd]. apply NoDup_cons. split; [by rewrite elem_of_reverse |].
    by rewrite reverse_Permutation.
Qed.

Lemma chain_next_in nx pv c d a :
  chain nx pv (c ++ [d]) -> a ∈ c -> nx a ∈ tail (c ++ [d]).
Proof.
  intros H Ha. apply list_elem_of_split in Ha as (c1 & c2 & ->).
  rewrite <- app_assoc in H |- *. simpl in H |- *. apply chain_app in H as [_ H].
  destruct c2 as [|b c2]; cbn [app] in *; rewrite chain_cons in H; destruct H as (-> & _);
    destruct c1; simpl; set_solver.
Qed.

Lemma ring_next_in nx pv h l a : ring nx pv h l -> a ∈ h :: l -> nx a ∈ h :: l.
Proof.
  intros [Hc _] Ha. apply (chain_next_in nx pv (h :: l) h a Hc) in Ha.
  simpl in Ha. set_solver.
Qed.

Lemma ring_prev_in nx pv h l a : ring nx pv h l -> a ∈ h :: l -> pv a ∈ h :: l.
Proof.
  intros Hr Ha. apply ring_reverse in Hr. apply (ring_next_in _ _ _ _ a) in Hr; set_solver.
Qed.

(** Moving an element to the front: unlinking it from its neighbours and
    linking it after the sentinel. *)
Lemma ring_to_front nx pv nx2 pv2 nx' pv' h l1 b l2 :
  ring nx pv h (l1 ++ b :: l2) ->
  nx2 (pv b) = nx b -> pv2 (nx b) = pv b ->
  (forall j, j <> pv b -> nx2 j = nx j) -> (forall j, j <> nx b -> pv2 j = pv j) ->
  nx' b = nx2 h -> nx' h = b -> (forall j, j <> b -> j <> h -> nx' j = nx2 j) ->
  pv' (nx2 h) = b -> (b <> nx2 h -> pv' b = h) ->
  (forall j, j <> b -> j <> nx2 h -> pv' j = pv2 j) ->
  ring nx' pv' h (b :: l1 ++ l2) /\ b <> nx2 h.
Proof.
  intros Hr H1 H2 H3 H4 H5 H6 H7 H8 H9 H10. pose proof Hr as [_ Hnd].
  pose proof (ring_unlink _ _ _ _ _ _ _ _ Hr H1 H2 H3 H4) as Hr2.
  apply NoDup_cons in Hnd as [Hh Hnd]. apply NoDup_app in Hnd as (_ & Hd & Hnd).
  apply NoDup_cons in Hnd as [Hb _].
  assert (Hout : b ∉ h :: l1 ++ l2) by set_solver.
  assert (b <> nx2 h) as Hne.
  { intros ->. apply Hout. apply (ring_next_in _ _ _ _ h Hr2). by left. }
  split; [| done]. eapply ring_push; eauto.
Qed.
