(* ===== verification/Cache.v ===== *)
(** * What the buffer cache promises

    The abstract state of the cache and the interface the log and the file
    system are written against: the operations of bio.c on an arbitrary
    state, and the laws that relate them to the abstract state. Bio.v proves
    that bio.c satisfies them. *)

From stdpp Require Import gmap functions.
From S2P Require Import Prelude Params.

Definition BSIZE : nat := 512.
Definition NBUF : nat := Z.to_nat (MAXOPBLOCKS * 3).

(** The contents of a disk block, one byte per element. *)
Definition block : Type := list Z.

(** [a_view]: what a reader of a block gets. [a_pinned]: blocks whose buffer
    is dirty and must not be recycled. [a_held]: the buffers in use and the
    block each of them holds. [a_mru]: the buffers, last used first.
    [a_writes]: the blocks written to the disk so far, in order. *)
Record cache := mkCache {
  a_disk : Z -> block;
  a_view : Z -> block;
  a_pinned : gset Z;
  a_held : gmap nat Z;
  a_mru : list nat;
  a_writes : list (Z * block)
}.

Definition with_held h a := mkCache (a_disk a) (a_view a) (a_pinned a) h (a_mru a) (a_writes a).
Definition with_view v a := mkCache (a_disk a) v (a_pinned a) (a_held a) (a_mru a) (a_writes a).
Definition with_pinned p a := mkCache (a_disk a) (a_view a) p (a_held a) (a_mru a) (a_writes a).

(** The block a buffer holds reaches the disk and is no longer pinned. *)
Definition written (bn : Z) (a : cache) : cache :=
  mkCache (<[bn := a_view a bn]> (a_disk a)) (a_view a) (a_pinned a ∖ {[bn]}) (a_held a)
    (a_mru a) (a_writes a ++ [(bn, a_view a bn)]).

(** A buffer is released and becomes the most recently used one. *)
Definition released (i : nat) (a : cache) : cache :=
  mkCache (a_disk a) (a_view a) (a_pinned a) (delete i (a_held a))
    (i :: filter (fun j => j <> i) (a_mru a)) (a_writes a).

(** The cache after boot: nothing cached, the buffers in the order [binit]
    links them. *)
Definition fresh (d : Z -> block) : cache :=
  mkCache d d ∅ ∅ (reverse (seq 0 NBUF)) [].

Definition block_held (a : cache) (bn : Z) : Prop := exists i, a_held a !! i = Some bn.

(** The blocks that occupy a buffer that cannot be recycled. *)
Definition busy_blocks (a : cache) : gset Z := a_pinned a ∪ map_to_set (fun _ bn => bn) (a_held a).

Class CacheOps (S : Type) := {
  c_boot : (Z -> block) -> S;
  c_bread : Z -> Z -> ST S nat;
  c_bwrite : nat -> ST S unit;
  c_brelse : nat -> ST S unit;
  c_blockno : nat -> ST S Z;
  c_bdata : nat -> ST S block;
  c_bdata_set : nat -> block -> ST S unit;
  c_set_dirty : nat -> ST S unit
}.

Class CacheSpec (S : Type) (disksize : Z) `{CacheOps S} := {
  c_rep : S -> cache -> Prop;
  c_rep_size s a bn : c_rep s a -> length (a_disk a bn) = BSIZE /\ length (a_view a bn) = BSIZE;
  c_rep_clean s a bn :
    c_rep s a -> bn ∉ a_pinned a -> ~ block_held a bn -> a_view a bn = a_disk a bn;
  c_boot_law d : (forall bn, length (d bn) = BSIZE) -> c_rep (c_boot d) (fresh d);
  c_bread_law s a bn :
    c_rep s a -> 0 <= bn < disksize -> ~ block_held a bn ->
    (size ({[bn]} ∪ busy_blocks a) <= NBUF)%nat ->
    runs (c_bread 1 bn) s (fun i s' =>
      c_rep s' (with_held (<[i := bn]> (a_held a)) a) /\ a_held a !! i = None);
  c_bwrite_law s a i bn :
    c_rep s a -> a_held a !! i = Some bn -> runs (c_bwrite i) s (fun _ s' => c_rep s' (written bn a));
  c_brelse_law s a i bn :
    c_rep s a -> a_held a !! i = Some bn -> (bn ∉ a_pinned a -> a_view a bn = a_disk a bn) ->
    runs (c_brelse i) s (fun _ s' => c_rep s' (released i a));
  c_blockno_law s a i bn :
    c_rep s a -> a_held a !! i = Some bn ->
    runs (c_blockno i) s (fun r s' => r = bn /\ c_rep s' a);
  c_bdata_law s a i bn :
    c_rep s a -> a_held a !! i = Some bn ->
    runs (c_bdata i) s (fun d s' => d = a_view a bn /\ c_rep s' a);
  c_bdata_set_law s a i bn d :
    c_rep s a -> a_held a !! i = Some bn -> length d = BSIZE ->
    runs (c_bdata_set i d) s (fun _ s' => c_rep s' (with_view (<[bn := d]> (a_view a)) a));
  c_set_dirty_law s a i bn :
    c_rep s a -> a_held a !! i = Some bn ->
    runs (c_set_dirty i) s (fun _ s' => c_rep s' (with_pinned ({[bn]} ∪ a_pinned a) a))
}.

(** ** A cache inside a larger state

    A component that keeps the cache in a part of its state calls it through
    that part. The larger state, whose other parts stay as they are in [t0],
    is then a cache too. *)
Section lift.
Context {S T : Type} (getS : T -> S) (setS : S -> T -> T).

Definition lift_st {A} (c : ST S A) : ST T A := fun t =>
  let! (a, s) := c (getS t) in Ok (a, setS s t).

Lemma runs_lift_st {A} (c : ST S A) (t : T) (Q : A -> T -> Prop) :
  runs c (getS t) (fun a s => Q a (setS s t)) -> runs (lift_st c) t Q.
Proof.
  intros (a & s & He & HQ). exists a, (setS s t). split; [| done].
  unfold lift_st. by rewrite He.
Qed.

Definition lift_ops `{CacheOps S} (t0 : T) : CacheOps T := {|
  c_boot d := setS (c_boot d) t0;
  c_bread dev bn := lift_st (c_bread dev bn);
  c_bwrite i := lift_st (c_bwrite i);
  c_brelse i := lift_st (c_brelse i);
  c_blockno i := lift_st (c_blockno i);
  c_bdata i := lift_st (c_bdata i);
  c_bdata_set i d := lift_st (c_bdata_set i d);
  c_set_dirty i := lift_st (c_set_dirty i)
|}.

Context (get_set : forall s t, getS (setS s t) = s)
  (set_set : forall s s' t, setS s (setS s' t) = setS s t).

Lemma lift_law `{CacheOps S} {A} (t0 t : T) (c : ST S A) (Q : A -> S -> Prop) :
  t = setS (getS t) t0 -> runs c (getS t) Q ->
  runs (lift_st c) t (fun a t' => Q a (getS t') /\ t' = setS (getS t') t0).
Proof.
  intros Ht H0. apply runs_lift_st. eapply runs_mono; [exact H0 |]. intros a s HQ.
  rewrite get_set. split; [done |]. rewrite Ht. by rewrite set_set.
Qed.

Definition lift_spec {disksize} `{CacheSpec S disksize} (t0 : T) :
  @CacheSpec T disksize (lift_ops t0).
Proof.
  refine (@Build_CacheSpec T disksize (lift_ops t0)
    (fun t a => c_rep (getS t) a /\ t = setS (getS t) t0) _ _ _ _ _ _ _ _ _ _).
  - intros t a bn [Hr _]. by eapply c_rep_size.
  - intros t a bn [Hr _]. by eapply c_rep_clean.
  - intros d Hd. simpl. rewrite get_set. split; [by apply c_boot_law | done].
  - intros t a bn [Hr Ht] Hbn Hh Hs. eapply runs_mono;
      [apply (lift_law t0 t _ _ Ht (c_bread_law _ _ _ Hr Hbn Hh Hs)) |]. simpl. tauto.
  - intros t a i bn [Hr Ht] Hh. apply (lift_law t0 t _ _ Ht (c_bwrite_law _ _ _ _ Hr Hh)).
  - intros t a i bn [Hr Ht] Hh Hc. apply (lift_law t0 t _ _ Ht (c_brelse_law _ _ _ _ Hr Hh Hc)).
  - intros t a i bn [Hr Ht] Hh. eapply runs_mono;
      [apply (lift_law t0 t _ _ Ht (c_blockno_law _ _ _ _ Hr Hh)) |]. simpl. tauto.
  - intros t a i bn [Hr Ht] Hh. eapply runs_mono;
      [apply (lift_law t0 t _ _ Ht (c_bdata_law _ _ _ _ Hr Hh)) |]. simpl. tauto.
  - intros t a i bn d [Hr Ht] Hh Hd. apply (lift_law t0 t _ _ Ht (c_bdata_set_law _ _ _ _ _ Hr Hh Hd)).
  - intros t a i bn [Hr Ht] Hh. apply (lift_law t0 t _ _ Ht (c_set_dirty_law _ _ _ _ Hr Hh)).
Defined.
End lift.

(** ** Moving blocks *)

Definition on_disk (disksize bn : Z) : Prop := 0 <= bn < disksize.

Section blocks.
Context {S : Type} {disksize : Z} `{CacheSpec S disksize}.

(** No buffer is in use; [d] is on the disk, [v] in the cache, [p] pinned, and
    [w] has been written since boot. *)
Definition quiet (c : S) (d v : Z -> block) (p : gset Z) (w : list (Z * block)) : Prop :=
  exists a, c_rep c a /\ a_held a = ∅ /\ a_disk a = d /\ a_view a = v /\ a_pinned a = p /\ a_writes a = w.


Lemma busy_blocks_subseteq a X :
  a_pinned a ⊆ X -> (forall i bn, a_held a !! i = Some bn -> bn ∈ X) -> busy_blocks a ⊆ X.
Proof.
  intros Hp Hh bn Hbn. apply elem_of_union in Hbn as [Hbn|Hbn]; [by apply Hp |].
  apply elem_of_map_to_set in Hbn as (i & c & Hi & <-). eauto.
Qed.

Lemma busy_room a (X : gset Z) bn :
  (size X <= NBUF)%nat -> bn ∈ X -> a_pinned a ⊆ X ->
  (forall i c, a_held a !! i = Some c -> c ∈ X) -> (size ({[bn]} ∪ busy_blocks a) <= NBUF)%nat.
Proof.
  intros HX Hbn Hp Hh. pose proof (busy_blocks_subseteq _ _ Hp Hh) as Hb.
  etrans; [| exact HX]. apply subseteq_size. apply union_subseteq. split; [| done].
  by apply singleton_subseteq_l.
Qed.

(** Opening the first and a second block. *)
Lemma open_first c d v p w bn (Q : nat -> S -> Prop) :
  quiet c d v p w -> on_disk disksize bn -> (size ({[bn]} ∪ p) <= NBUF)%nat ->
  (forall i c' a, c_rep c' a -> a_held a = {[i := bn]} -> a_disk a = d -> a_view a = v ->
     a_pinned a = p -> a_writes a = w -> Q i c') ->
  runs (c_bread 1 bn) c Q.
Proof.
  intros (a & Hr & Hh & Hd & Hv & Hp & Hw) Hbn Hsz HQ.
  eapply runs_mono; [apply (c_bread_law _ a bn Hr Hbn) |].
  - intros [i Hi]. by rewrite Hh, lookup_empty in Hi.
  - eapply busy_room; [exact Hsz | set_solver | rewrite Hp; set_solver |].
    intros i x Hi. by rewrite Hh, lookup_empty in Hi.
  - intros i c' [Hr' _]. eapply HQ; [exact Hr' | | done | done | done | done].
    simpl. by rewrite Hh.
Qed.

Lemma open_second c a i bn1 bn2 (Q : nat -> S -> Prop) :
  c_rep c a -> a_held a = {[i := bn1]} -> bn1 <> bn2 -> on_disk disksize bn2 ->
  (size ({[bn1; bn2]} ∪ a_pinned a) <= NBUF)%nat ->
  (forall j c', i <> j -> c_rep c' (with_held (<[j := bn2]> {[i := bn1]}) a) -> Q j c') ->
  runs (c_bread 1 bn2) c Q.
Proof.
  intros Hr Hh Hne Hbn Hsz HQ.
  eapply runs_mono; [apply (c_bread_law _ a bn2 Hr Hbn) |].
  - intros [k Hk]. rewrite Hh in Hk. apply lookup_singleton_Some in Hk as [_ ?]. done.
  - eapply busy_room; [exact Hsz | set_solver | set_solver |].
    intros k x Hk. rewrite Hh in Hk. apply lookup_singleton_Some in Hk as [_ <-]. set_solver.
  - intros j c' [Hr' Hj]. rewrite Hh in Hr', Hj. apply HQ; [| done].
    intros <-. by rewrite lookup_singleton_eq in Hj.
Qed.

(** With [src] in buffer [i] and [dst] in buffer [j]: copy and write. *)
Lemma transfer {B} c a i j src dst (k : ST S B) (Q : B -> S -> Prop) :
  c_rep c a -> a_held a !! i = Some src -> a_held a !! j = Some dst -> src <> dst ->
  (forall c', c_rep c' (written dst (with_view (<[dst := a_view a src]> (a_view a)) a)) -> runs k c' Q) ->
  runs (let* x := c_bdata i in c_bdata_set j x ;;; c_bwrite j ;;; k) c Q.
Proof.
  intros Hr Hi Hj Hne HQ. apply runs_bind.
  eapply runs_mono; [by eapply c_bdata_law |]. intros x c1 [-> Hr1].
  apply runs_bind. eapply runs_mono; [apply (c_bdata_set_law _ _ _ _ _ Hr1 Hj), (c_rep_size _ _ _ Hr1) |].
  intros [] c2 Hr2. apply runs_bind. eapply runs_mono; [apply (c_bwrite_law _ _ j dst Hr2); done |].
  intros [] c3 Hr3. by apply HQ.
Qed.

(** Releasing two clean buffers. *)
Lemma close_two {B} c a i j b1 b2 (k : ST S B) (Q : B -> S -> Prop) :
  c_rep c a -> i <> j -> a_held a !! i = Some b1 -> a_held a !! j = Some b2 ->
  delete j (delete i (a_held a)) = ∅ ->
  (b1 ∉ a_pinned a -> a_view a b1 = a_disk a b1) -> (b2 ∉ a_pinned a -> a_view a b2 = a_disk a b2) ->
  (forall c', quiet c' (a_disk a) (a_view a) (a_pinned a) (a_writes a) -> runs k c' Q) ->
  runs (c_brelse i ;;; c_brelse j ;;; k) c Q.
Proof.
  intros Hr Hne Hi Hj He H1 H2 HQ. apply runs_bind.
  eapply runs_mono; [by apply (c_brelse_law _ a i b1) |]. intros [] c1 Hr1.
  apply runs_bind. eapply runs_mono; [apply (c_brelse_law _ _ j b2 Hr1) |].
  - simpl. by rewrite lookup_delete_ne.
  - done.
  - intros [] c2 Hr2. apply HQ. eexists. split; [exact Hr2 |]. done.
Qed.

(** After the copy both buffers are clean, and releasing them leaves the disk
    and the cache with the copied block. *)
Lemma copied_close {B} c a i j src dst d v p w b1 b2 (k : ST S B) (Q : B -> S -> Prop) :
  c_rep c (written dst (with_view (<[dst := v src]> v) a)) ->
  a_disk a = d -> a_view a = v -> a_pinned a = p -> a_writes a = w -> src <> dst ->
  (src ∉ p -> v src = d src) -> i <> j ->
  a_held a !! i = Some b1 -> a_held a !! j = Some b2 -> delete j (delete i (a_held a)) = ∅ ->
  b1 ∈ [src; dst] -> b2 ∈ [src; dst] ->
  (forall c', quiet c' (<[dst := v src]> d) (<[dst := v src]> v) (p ∖ {[dst]}) (w ++ [(dst, v src)]) ->
     runs k c' Q) ->
  runs (c_brelse i ;;; c_brelse j ;;; k) c Q.
Proof.
  intros Hr <- <- <- <- Hne Hcl Hij Hi Hj He Hb1 Hb2 HQ.
  assert (Hclean : forall b, b ∈ [src; dst] -> b ∉ a_pinned a ∖ {[dst]} ->
    (<[dst := a_view a src]> (a_view a)) b =
    (<[dst := (<[dst := a_view a src]> (a_view a)) dst]> (a_disk a)) b).
  { intros b Hb Hnp. rewrite fn_lookup_insert. apply elem_of_cons in Hb as [->|Hb].
    - rewrite !fn_lookup_insert_ne by done. apply Hcl. set_solver.
    - apply list_elem_of_singleton in Hb as ->. by rewrite !fn_lookup_insert. }
  eapply close_two; [exact Hr | done | done | done | done | by apply Hclean | by apply Hclean |].
  simpl. rewrite fn_lookup_insert. exact HQ.
Qed.

(** With block [bn] in the only buffer in use: replace its contents, write,
    and release. *)
Lemma rewrite_close c a i bn x d v p w (Q : unit -> S -> Prop) :
  c_rep c a -> a_held a = {[i := bn]} -> a_disk a = d -> a_view a = v -> a_pinned a = p ->
  a_writes a = w -> length x = BSIZE ->
  (forall c', quiet c' (<[bn := x]> d) (<[bn := x]> v) (p ∖ {[bn]}) (w ++ [(bn, x)]) -> Q tt c') ->
  runs (c_bdata_set i x ;;; c_bwrite i ;;; c_brelse i) c Q.
Proof.
  intros Hr Hh <- <- <- <- Hx HQ. assert (a_held a !! i = Some bn) as Hi by (by rewrite Hh, lookup_singleton_eq).
  apply runs_bind. eapply runs_mono; [by apply (c_bdata_set_law _ _ _ _ _ Hr Hi) |]. intros [] c1 Hr1.
  apply runs_bind. eapply runs_mono; [by apply (c_bwrite_law _ _ i bn Hr1) |]. intros [] c2 Hr2.
  eapply runs_mono; [apply (c_brelse_law _ _ i bn Hr2); [done |] |].
  { intros _. simpl. by rewrite !fn_lookup_insert. }
  intros [] c3 Hr3. apply HQ. eexists. split; [exact Hr3 |]. simpl. rewrite fn_lookup_insert.
  rewrite Hh, delete_singleton_eq. done.
Qed.

(** Releasing the only buffer in use, unchanged. *)
Lemma close_one c a i bn (Q : unit -> S -> Prop) :
  c_rep c a -> a_held a = {[i := bn]} -> (bn ∉ a_pinned a -> a_view a bn = a_disk a bn) ->
  (forall c', quiet c' (a_disk a) (a_view a) (a_pinned a) (a_writes a) -> Q tt c') ->
  runs (c_brelse i) c Q.
Proof.
  intros Hr Hh Hcl HQ.
  eapply runs_mono; [apply (c_brelse_law _ _ i bn Hr); [by rewrite Hh, lookup_singleton_eq | done] |].
  intros [] c1 Hr1. apply HQ. eexists. split; [exact Hr1 |]. simpl. rewrite Hh, delete_singleton_eq. done.
Qed.


Lemma quiet_clean c d v p w bn : quiet c d v p w -> bn ∉ p -> v bn = d bn.
Proof.
  intros (a & Hr & Hh & <- & <- & <- & _) Hp. apply (c_rep_clean _ _ _ Hr Hp).
  intros [i Hi]. by rewrite Hh, lookup_empty in Hi.
Qed.

Lemma quiet_size c d v p w bn : quiet c d v p w -> length (d bn) = BSIZE /\ length (v bn) = BSIZE.
Proof. intros (a & Hr & Hh & <- & <- & _). by eapply c_rep_size. Qed.

Lemma quiet_boot d : (forall bn, length (d bn) = BSIZE) -> quiet (c_boot d) d d ∅ [].
Proof. intros Hd. exists (fresh d). split; [by apply c_boot_law | done]. Qed.
End blocks.
