(* ===== verification/Bio.v ===== *)
(** * The buffer cache (bio.c, memide.c, sleeplock.c)

    Thirty buffers on a ring in order of last use, each caching one disk
    block, with the disk underneath. The code runs here as one kernel thread:
    a thread that waits for a sleep lock it holds itself never continues.
    [bc_writes] records the blocks written to the disk, in order; no code
    reads it. The invariant [bio_rep] relates this state to the abstract cache
    of Cache.v, and the operations are shown to satisfy its laws. *)

From stdpp Require Import gmap functions.
From S2P Require Import Prelude Params Ring Cache.

Record buf := mkBuf {
  b_flags : Z;
  b_dev : Z;
  b_blockno : Z;
  b_locked : bool;
  b_refcnt : Z;
  b_prev : nat;
  b_next : nat;
  b_data : block
}.

Definition B_VALID : Z := 0x2.
Definition B_DIRTY : Z := 0x4.

(** [&bcache.head], after the buffers [bcache.buf[0..NBUF-1]]. *)
Definition HEAD : nat := NBUF.

Record bio := mkBio {
  bc_buf : list buf;
  bc_disk : Z -> block;
  bc_writes : list (Z * block)
}.

Definition bset_flags v b := mkBuf v (b_dev b) (b_blockno b) (b_locked b) (b_refcnt b) (b_prev b) (b_next b) (b_data b).
Definition bset_locked v b := mkBuf (b_flags b) (b_dev b) (b_blockno b) v (b_refcnt b) (b_prev b) (b_next b) (b_data b).
Definition bset_refcnt v b := mkBuf (b_flags b) (b_dev b) (b_blockno b) (b_locked b) v (b_prev b) (b_next b) (b_data b).
Definition bset_prev v b := mkBuf (b_flags b) (b_dev b) (b_blockno b) (b_locked b) (b_refcnt b) v (b_next b) (b_data b).
Definition bset_next v b := mkBuf (b_flags b) (b_dev b) (b_blockno b) (b_locked b) (b_refcnt b) (b_prev b) v (b_data b).
Definition bset_data v b := mkBuf (b_flags b) (b_dev b) (b_blockno b) (b_locked b) (b_refcnt b) (b_prev b) (b_next b) v.

(** [b->...] and an assignment to a field of [b]. *)
Definition node (i : nat) : ST bio buf := fun s =>
  match bc_buf s !! i with Some b => Ok (b, s) | None => Undef end.

Definition upd (i : nat) (f : buf -> buf) : ST bio unit := fun s =>
  match bc_buf s !! i with
  | Some _ => Ok (tt, mkBio (alter f i (bc_buf s)) (bc_disk s) (bc_writes s))
  | None => Undef
  end.

(** ** Sleep locks, as one thread sees them *)

Definition initsleeplock (i : nat) : ST bio unit := upd i (bset_locked false).

Definition acquiresleep (i : nat) : ST bio unit :=
  let* b := node i in
  if b_locked b then fun _ => Hang else upd i (bset_locked true).

Definition releasesleep (i : nat) : ST bio unit := upd i (bset_locked false).

Definition holdingsleep (i : nat) : ST bio bool := let* b := node i in ret (b_locked b).

(** ** The disk *)

Section bio.
Context (disksize : Z).

Definition iderw (i : nat) : ST bio unit :=
  let* held := holdingsleep i in
  if negb held then panic "iderw: buf not locked" else
  let* b := node i in
  if Z.land (b_flags b) (Z.lor B_VALID B_DIRTY) =? B_VALID then panic "iderw: nothing to do"
  else if negb (b_dev b =? 1) then panic "iderw: request not for disk 1"
  else if disksize <=? b_blockno b then panic "iderw: block out of range"
  else
    (if negb (Z.land (b_flags b) B_DIRTY =? 0) then
       upd i (bset_flags (Z.land (b_flags b) (Z.lnot B_DIRTY))) ;;;
       (fun s => Ok (tt, mkBio (bc_buf s) (<[b_blockno b := b_data b]> (bc_disk s))
                           (bc_writes s ++ [(b_blockno b, b_data b)])))
     else
       let* d := get bc_disk in
       upd i (bset_data (d (b_blockno b)))) ;;;
    let* b := node i in
    upd i (bset_flags (Z.lor (b_flags b) B_VALID)).

(** ** The cache *)

Definition binit_one (b : nat) : ST bio unit :=
  (let* h := node HEAD in upd b (bset_next (b_next h))) ;;;
  upd b (bset_prev HEAD) ;;;
  initsleeplock b ;;;
  (let* h := node HEAD in upd (b_next h) (bset_prev b)) ;;;
  upd HEAD (bset_next b).

Fixpoint binit_loop (bs : list nat) : ST bio unit :=
  match bs with
  | [] => ret tt
  | b :: bs' => binit_one b ;;; binit_loop bs'
  end.

Definition binit : ST bio unit :=
  upd HEAD (bset_prev HEAD) ;;;
  upd HEAD (bset_next HEAD) ;;;
  binit_loop (seq 0 NBUF).

(** [for (b = start; b != &bcache.head; b = step(b)) if (test(b)) break] *)
Fixpoint scan (fuel : nat) (step : buf -> nat) (test : buf -> bool) (b : nat)
  : ST bio (option nat) :=
  if (b =? HEAD)%nat then ret None
  else match fuel with
  | O => fun _ => Hang
  | S f =>
      let* bb := node b in
      if test bb then ret (Some b) else scan f step test (step bb)
  end.

Definition is_block (dev blockno : Z) (b : buf) : bool :=
  (b_dev b =? dev) && (b_blockno b =? blockno).

Definition is_free (b : buf) : bool :=
  (b_refcnt b =? 0) && (Z.land (b_flags b) B_DIRTY =? 0).

Definition bget (dev blockno : Z) : ST bio nat :=
  let* h := node HEAD in
  let* cached := scan NBUF b_next (is_block dev blockno) (b_next h) in
  match cached with
  | Some i =>
      let* b := node i in
      upd i (bset_refcnt (u32 (b_refcnt b + 1))) ;;;
      acquiresleep i ;;;
      ret i
  | None =>
      let* unused := scan NBUF b_prev is_free (b_prev h) in
      match unused with
      | Some i =>
          upd i (fun b => mkBuf 0 dev blockno (b_locked b) 1 (b_prev b) (b_next b) (b_data b)) ;;;
          acquiresleep i ;;;
          ret i
      | None => panic "bget: no buffers"
      end
  end.

Definition bread (dev blockno : Z) : ST bio nat :=
  let* i := bget dev blockno in
  let* b := node i in
  (if Z.land (b_flags b) B_VALID =? 0 then iderw i else ret tt) ;;;
  ret i.

Definition bwrite (i : nat) : ST bio unit :=
  let* held := holdingsleep i in
  if negb held then panic "bwrite" else
  let* b := node i in
  upd i (bset_flags (Z.lor (b_flags b) B_DIRTY)) ;;;
  iderw i.

(** The six assignments of [brelse] to the links. *)
Definition move_to_front (i : nat) : ST bio unit :=
  (let* b := node i in upd (b_next b) (bset_prev (b_prev b))) ;;;
  (let* b := node i in upd (b_prev b) (bset_next (b_next b))) ;;;
  (let* h := node HEAD in upd i (bset_next (b_next h))) ;;;
  upd i (bset_prev HEAD) ;;;
  (let* h := node HEAD in upd (b_next h) (bset_prev i)) ;;;
  upd HEAD (bset_next i).

Definition brelse (i : nat) : ST bio unit :=
  let* held := holdingsleep i in
  if negb held then panic "brelse" else
  releasesleep i ;;;
  let* b := node i in
  upd i (bset_refcnt (u32 (b_refcnt b - 1))) ;;;
  let* b := node i in
  if b_refcnt b =? 0 then
    move_to_front i
  else ret tt.

(** Reading [b->blockno], and reading and writing [b->data], of a buffer the
    caller has locked. *)
Definition bblockno (i : nat) : ST bio Z := let* b := node i in ret (b_blockno b).
Definition bdata (i : nat) : ST bio block := let* b := node i in ret (b_data b).
Definition bdata_set (i : nat) (d : block) : ST bio unit := upd i (bset_data d).

(** [b->flags |= B_DIRTY] *)
Definition set_dirty (i : nat) : ST bio unit :=
  let* b := node i in upd i (bset_flags (Z.lor (b_flags b) B_DIRTY)).
End bio.

(** ** Links *)

Definition nx (s : bio) (i : nat) : nat := from_option b_next HEAD (bc_buf s !! i).
Definition pv (s : bio) (i : nat) : nat := from_option b_prev HEAD (bc_buf s !! i).

(** A buffer without its links. *)
Definition core (b : buf) : buf :=
  mkBuf (b_flags b) (b_dev b) (b_blockno b) (b_locked b) (b_refcnt b) 0 0 (b_data b).

Definition same_core (s s' : bio) : Prop :=
  bc_disk s' = bc_disk s /\ bc_writes s' = bc_writes s /\
  forall j, core <$> bc_buf s' !! j = core <$> bc_buf s !! j.

#[export] Instance same_core_preorder : PreOrder same_core.
Proof.
  split; [done |]. intros s1 s2 s3 (H1 & H2 & H3) (H4 & H5 & H6).
  split; [congruence |]. split; [congruence |]. intros j. by rewrite H6.
Qed.

Definition upd_state (i : nat) (f : buf -> buf) (s : bio) : bio :=
  mkBio (alter f i (bc_buf s)) (bc_disk s) (bc_writes s).

Lemma runs_node i s b (Q : buf -> bio -> Prop) :
  bc_buf s !! i = Some b -> Q b s -> runs (node i) s Q.
Proof. intros H HQ. exists b, s. unfold node. by rewrite H. Qed.

Lemma runs_upd i f s b (Q : unit -> bio -> Prop) :
  bc_buf s !! i = Some b -> Q tt (upd_state i f s) -> runs (upd i f) s Q.
Proof. intros H HQ. exists tt, (upd_state i f s). unfold upd. by rewrite H. Qed.

Lemma upd_state_lookup i f s j :
  bc_buf (upd_state i f s) !! j = if decide (i = j) then f <$> bc_buf s !! j else bc_buf s !! j.
Proof.
  simpl. case_decide as H; [subst; apply list_lookup_alter_eq | by apply list_lookup_alter_ne].
Qed.

Lemma link_next i v s b (Q : unit -> bio -> Prop) :
  bc_buf s !! i = Some b ->
  (forall s', same_core s s' -> nx s' i = v -> (forall j, j <> i -> nx s' j = nx s j) ->
     (forall j, pv s' j = pv s j) -> Q tt s') ->
  runs (upd i (bset_next v)) s Q.
Proof.
  intros H HQ. eapply runs_upd; [done |]. apply HQ; unfold nx, pv.
  - split; [done |]. split; [done |]. intros j. rewrite upd_state_lookup.
    case_decide; [| done]. by destruct (bc_buf s !! j).
  - by rewrite upd_state_lookup, decide_True, H.
  - intros j Hj. by rewrite upd_state_lookup, decide_False.
  - intros j. rewrite upd_state_lookup. case_decide; [| done]. by destruct (bc_buf s !! j).
Qed.

Lemma link_prev i v s b (Q : unit -> bio -> Prop) :
  bc_buf s !! i = Some b ->
  (forall s', same_core s s' -> pv s' i = v -> (forall j, j <> i -> pv s' j = pv s j) ->
     (forall j, nx s' j = nx s j) -> Q tt s') ->
  runs (upd i (bset_prev v)) s Q.
Proof.
  intros H HQ. eapply runs_upd; [done |]. apply HQ; unfold nx, pv.
  - split; [done |]. split; [done |]. intros j. rewrite upd_state_lookup.
    case_decide; [| done]. by destruct (bc_buf s !! j).
  - by rewrite upd_state_lookup, decide_True, H.
  - intros j Hj. by rewrite upd_state_lookup, decide_False.
  - intros j. rewrite upd_state_lookup. case_decide; [| done]. by destruct (bc_buf s !! j).
Qed.

(** The buffers and the sentinel are all there, the buffers on the ring in the
    order [l]. *)
Definition links_ok (s : bio) (l : list nat) : Prop :=
  length (bc_buf s) = S NBUF /\ ring (nx s) (pv s) HEAD l /\ forall i, i ∈ l <-> (i < NBUF)%nat.

Lemma same_core_lookup s s' i b :
  same_core s s' -> bc_buf s !! i = Some b ->
  exists b', bc_buf s' !! i = Some b' /\ core b' = core b.
Proof.
  intros (_ & _ & H) Hb. specialize (H i). rewrite Hb in H. simpl in H.
  destruct (bc_buf s' !! i) as [b'|]; simpl in H; [| done]. exists b'. split; congruence.
Qed.

Lemma same_core_length s s' : same_core s s' -> length (bc_buf s') = length (bc_buf s).
Proof.
  intros H. apply Nat.le_antisymm; apply Nat.nlt_ge; intros Hl;
    destruct (lookup_lt_is_Some_2 _ _ Hl) as [b Hb].
  - destruct H as (_ & _ & H). specialize (H (length (bc_buf s))).
    rewrite Hb, lookup_ge_None_2 in H by lia. done.
  - apply (same_core_lookup _ _ _ _ H) in Hb as (b' & Hb' & _). apply lookup_lt_Some in Hb'. lia.
Qed.

Lemma links_node s l i :
  links_ok s l -> (i <= NBUF)%nat -> exists b, bc_buf s !! i = Some b /\ nx s i = b_next b /\ pv s i = b_prev b.
Proof.
  intros (Hl & _) Hi. destruct (lookup_lt_is_Some_2 (bc_buf s) i) as [b Hb]; [lia |].
  exists b. unfold nx, pv. by rewrite Hb.
Qed.

Lemma links_bound s l i : links_ok s l -> i ∈ HEAD :: l -> (i <= NBUF)%nat.
Proof. intros (_ & _ & H) [->|Hi]%elem_of_cons; [done |]. apply H in Hi. lia. Qed.

Lemma same_core_node s s' i :
  length (bc_buf s) = S NBUF -> same_core s s' -> (i <= NBUF)%nat ->
  exists b, bc_buf s' !! i = Some b /\ nx s' i = b_next b /\ pv s' i = b_prev b.
Proof.
  intros Hl Hc Hi. apply same_core_length in Hc.
  destruct (lookup_lt_is_Some_2 (bc_buf s') i) as [b Hb]; [lia |].
  exists b. unfold nx, pv. by rewrite Hb.
Qed.

(** An assignment [t->next = v] or [t->prev = v] where [t] and [v] are read
    from the links of node [i]. *)
Lemma link_read_next s0 s i (tgt val : buf -> nat) (Q : unit -> bio -> Prop) :
  length (bc_buf s0) = S NBUF -> same_core s0 s -> (i <= NBUF)%nat ->
  (forall b, bc_buf s !! i = Some b -> nx s i = b_next b -> pv s i = b_prev b ->
     (tgt b <= NBUF)%nat /\
     forall s', same_core s0 s' -> nx s' (tgt b) = val b ->
       (forall j, j <> tgt b -> nx s' j = nx s j) -> (forall j, pv s' j = pv s j) -> Q tt s') ->
  runs (let* b := node i in upd (tgt b) (bset_next (val b))) s Q.
Proof.
  intros Hl Hc Hi H. destruct (same_core_node _ _ _ Hl Hc Hi) as (b & Hb & Hn & Hp).
  destruct (H b Hb Hn Hp) as [Ht HQ].
  destruct (same_core_node _ _ _ Hl Hc Ht) as (bt & Hbt & _).
  apply runs_bind, (runs_node _ _ _ _ Hb), (link_next _ _ _ _ _ Hbt).
  intros s' Hc' H1 H2 H3. apply HQ; try done. by etrans.
Qed.

Lemma link_read_prev s0 s i (tgt val : buf -> nat) (Q : unit -> bio -> Prop) :
  length (bc_buf s0) = S NBUF -> same_core s0 s -> (i <= NBUF)%nat ->
  (forall b, bc_buf s !! i = Some b -> nx s i = b_next b -> pv s i = b_prev b ->
     (tgt b <= NBUF)%nat /\
     forall s', same_core s0 s' -> pv s' (tgt b) = val b ->
       (forall j, j <> tgt b -> pv s' j = pv s j) -> (forall j, nx s' j = nx s j) -> Q tt s') ->
  runs (let* b := node i in upd (tgt b) (bset_prev (val b))) s Q.
Proof.
  intros Hl Hc Hi H. destruct (same_core_node _ _ _ Hl Hc Hi) as (b & Hb & Hn & Hp).
  destruct (H b Hb Hn Hp) as [Ht HQ].
  destruct (same_core_node _ _ _ Hl Hc Ht) as (bt & Hbt & _).
  apply runs_bind, (runs_node _ _ _ _ Hb), (link_prev _ _ _ _ _ Hbt).
  intros s' Hc' H1 H2 H3. apply HQ; try done. by etrans.
Qed.

Lemma move_to_front_spec s l1 i l2 :
  links_ok s (l1 ++ i :: l2) ->
  runs (move_to_front i) s (fun _ s' => links_ok s' (i :: l1 ++ l2) /\ same_core s s').
Proof.
  intros Hl. pose proof Hl as (Hlen & Hr & Hin).
  assert (i < NBUF)%nat as Hi by (apply Hin; set_solver).
  assert (Hih : i <> HEAD) by (unfold HEAD; lia).
  pose proof (links_bound s _ (nx s i) Hl (ring_next_in _ _ _ _ i Hr ltac:(set_solver))) as Hni.
  pose proof (links_bound s _ (pv s i) Hl (ring_prev_in _ _ _ _ i Hr ltac:(set_solver))) as Hpi.
  unfold move_to_front. apply runs_bind, (link_read_prev s s i b_next b_prev _ Hlen); [done | lia |].
  intros b Hb <- <-. split; [done |]. intros s1 C1 A1 A2 A3.
  apply runs_bind, (link_read_next s s1 i b_prev b_next _ Hlen C1); [lia |]. intros b1 Hb1 <- <-.
  assert (pv s1 i = pv s i) as ->
    by (destruct (decide (i = nx s i)) as [He|]; [rewrite He at 1; by rewrite A1 | auto]).
  rewrite A3. split; [done |]. intros s2 C2 B1 B2 B3.
  assert (nx s2 HEAD <= NBUF)%nat as Hh.
  { destruct (decide (HEAD = pv s i)) as [He|]; [by rewrite He, B1 |]. rewrite B2, A3 by done.
    eapply links_bound; [exact Hl |]. eapply ring_next_in; [exact Hr | by left]. }
  apply runs_bind, (link_read_next s s2 HEAD (fun _ => i) b_next _ Hlen C2); [done |].
  intros b2 Hb2 <- _. split; [lia |]. intros s3 C3 D1 D2 D3.
  destruct (same_core_node _ _ i Hlen C3) as (b3 & Hb3 & _); [lia |].
  apply runs_bind, (link_prev _ _ _ _ _ Hb3). intros s4 C4 E1 E2 E3.
  apply runs_bind, (link_read_prev s s4 HEAD b_next (fun _ => i) _ Hlen); [by etrans | done |].
  intros b4 Hb4 <- _. rewrite E3, D2 by done. split; [done |]. intros s5 C5 F1 F2 F3.
  destruct (same_core_node _ _ HEAD Hlen C5) as (b5 & Hb5 & _); [done |].
  apply (link_next _ _ _ _ _ Hb5). intros s6 C6 G1 G2 G3.
  assert (C : same_core s s6) by (by etrans).
  split; [| done]. split; [by rewrite (same_core_length _ _ C) |].
  split; [| intros j; rewrite <- Hin; set_solver].
  apply (ring_to_front (nx s) (pv s) (nx s2) (pv s2) _ _ _ _ _ _ Hr).
  - by rewrite B1.
  - by rewrite B3, A1.
  - intros j Hj. by rewrite B2, A3.
  - intros j Hj. by rewrite B3, A2.
  - by rewrite G2, F3, E3, D1.
  - done.
  - intros j Hj1 Hj2. by rewrite G2, F3, E3, D2.
  - by rewrite G3, F1.
  - intros Hj. by rewrite G3, F2, E1.
  - intros j Hj1 Hj2. by rewrite G3, F2, E2, D3.
Qed.

(** ** [binit] *)

Definition unlocked (s : bio) : Prop :=
  forall i b, bc_buf s !! i = Some b -> b_locked b = false.

Lemma same_core_unlocked s s' : same_core s s' -> unlocked s -> unlocked s'.
Proof.
  intros (_ & _ & H) Hu i b Hb. specialize (H i). rewrite Hb in H.
  destruct (bc_buf s !! i) as [b'|] eqn:Hb'; [| done]. simpl in H.
  specialize (Hu _ _ Hb'). destruct b, b'. unfold core in H. simpl in *. congruence.
Qed.

Lemma initsleeplock_spec i s b (Q : unit -> bio -> Prop) :
  unlocked s -> bc_buf s !! i = Some b ->
  (forall s', same_core s s' -> (forall j, nx s' j = nx s j) -> (forall j, pv s' j = pv s j) ->
     Q tt s') ->
  runs (initsleeplock i) s Q.
Proof.
  intros Hu Hb HQ. eapply runs_upd; [done |].
  assert (He : bc_buf (upd_state i (bset_locked false) s) = bc_buf s).
  { apply list_eq. intros j. rewrite upd_state_lookup. case_decide as Hj; [| done].
    destruct (bc_buf s !! j) as [c|] eqn:Hc; [| done]. simpl. f_equal.
    specialize (Hu _ _ Hc). destruct c. unfold bset_locked. simpl in *. congruence. }
  apply HQ; unfold nx, pv; rewrite ?He; try done. split; [done |]. split; [done |].
  by rewrite He.
Qed.

Lemma binit_one_spec s b l :
  length (bc_buf s) = S NBUF -> unlocked s -> ring (nx s) (pv s) HEAD l ->
  (forall i, i ∈ l -> (i < NBUF)%nat) -> (b < NBUF)%nat -> b ∉ l ->
  runs (binit_one b) s (fun _ s' => same_core s s' /\ ring (nx s') (pv s') HEAD (b :: l)).
Proof.
  intros Hlen Hu Hr Hin Hb Hbl. assert (Hbh : b <> HEAD) by (unfold HEAD; lia).
  assert (nx s HEAD <= NBUF)%nat as Hh.
  { pose proof (ring_next_in _ _ _ _ HEAD Hr ltac:(set_solver)) as [->|H]%elem_of_cons; [done |].
    apply Hin in H. lia. }
  unfold binit_one.
  apply runs_bind, (link_read_next s s HEAD (fun _ => b) b_next _ Hlen); [done | done |].
  intros h Hh1 <- _. split; [lia |]. intros s1 C1 A1 A2 A3.
  destruct (same_core_node _ _ b Hlen C1) as (b1 & Hb1 & _); [lia |].
  apply runs_bind, (link_prev _ _ _ _ _ Hb1). intros s2 C2 B1 B2 B3.
  assert (C12 : same_core s s2) by (by etrans).
  destruct (same_core_node _ _ b Hlen C12) as (b2 & Hb2 & _); [lia |].
  apply runs_bind, (initsleeplock_spec _ _ _ _ (same_core_unlocked _ _ C12 Hu) Hb2).
  intros s3 C3 D1 D2.
  apply runs_bind, (link_read_prev s s3 HEAD b_next (fun _ => b) _ Hlen); [by etrans | done |].
  intros h3 Hh3 <- _. rewrite D1, B3, A2 by done. split; [done |]. intros s4 C4 E1 E2 E3.
  destruct (same_core_node _ _ HEAD Hlen C4) as (h4 & Hh4 & _); [done |].
  apply (link_next _ _ _ _ _ Hh4). intros s5 C5 F1 F2 F3. split; [by etrans |].
  assert (b <> nx s HEAD) as Hbn.
  { intros ->. pose proof (ring_next_in _ _ _ _ HEAD Hr ltac:(set_solver)). set_solver. }
  eapply (ring_push (nx s) (pv s)); [exact Hr | set_solver | | | | done | |].
  - by rewrite F2, E3, D1, B3, A1.
  - by rewrite F3, E2, D2, B1.
  - by rewrite F3, E1.
  - intros j H1 H2. by rewrite F2, E3, D1, B3, A2.
  - intros j H1 H2. by rewrite F3, E2, D2, B2, A3.
Qed.

Lemma binit_loop_spec bs s l :
  length (bc_buf s) = S NBUF -> unlocked s -> ring (nx s) (pv s) HEAD l ->
  (forall i, i ∈ l ++ bs -> (i < NBUF)%nat) -> NoDup (l ++ bs) ->
  runs (binit_loop bs) s (fun _ s' => same_core s s' /\ ring (nx s') (pv s') HEAD (reverse bs ++ l)).
Proof.
  revert s l. induction bs as [|b bs IH]; intros s l Hlen Hu Hr Hin Hnd.
  - apply runs_ret. done.
  - apply runs_bind. apply NoDup_app in Hnd as (Hndl & Hd & Hnd). apply NoDup_cons in Hnd as [Hb Hnd].
    eapply runs_mono; [apply binit_one_spec; try done; set_solver |].
    intros _ s' [C Hr']. eapply runs_mono; [apply (IH s' (b :: l)) |].
    + by rewrite (same_core_length _ _ C).
    + by eapply same_core_unlocked.
    + done.
    + set_solver.
    + simpl. apply NoDup_cons. split; [set_solver |]. apply NoDup_app. set_solver.
    + intros _ s'' [C' Hr'']. split; [by etrans |]. rewrite reverse_cons, <- app_assoc. done.
Qed.

(** After [binit] the last buffer is the first of the ring. *)
Lemma binit_spec s :
  length (bc_buf s) = S NBUF -> unlocked s ->
  runs binit s (fun _ s' => same_core s s' /\ links_ok s' (reverse (seq 0 NBUF))).
Proof.
  intros Hlen Hu. unfold binit.
  destruct (lookup_lt_is_Some_2 (bc_buf s) HEAD) as [h Hh]; [unfold HEAD; lia |].
  apply runs_bind, (link_prev _ _ _ _ _ Hh). intros s1 C1 A1 A2 A3.
  destruct (same_core_node _ _ HEAD Hlen C1) as (h1 & Hh1 & _); [done |].
  apply runs_bind, (link_next _ _ _ _ _ Hh1). intros s2 C2 B1 B2 B3.
  assert (C : same_core s s2) by (by etrans).
  assert (Hlen2 : length (bc_buf s2) = S NBUF) by (by rewrite (same_core_length _ _ C)).
  eapply runs_mono; [apply (binit_loop_spec _ _ [] Hlen2) |].
  - by eapply same_core_unlocked.
  - split; [| apply NoDup_singleton]. simpl. by rewrite B3.
  - intros i Hi. rewrite app_nil_l in Hi. apply elem_of_seq in Hi. lia.
  - apply NoDup_seq.
  - intros _ s' [C' Hr]. rewrite app_nil_r in Hr. split; [by etrans |].
    split; [by rewrite (same_core_length _ _ C') |]. split; [done |].
    intros i. rewrite elem_of_reverse, elem_of_seq. lia.
Qed.

(** ** The abstract cache *)

Section rep.
Context (disksize : Z).

(** A buffer that was never used, or one that caches a block of disk 1. *)
Definition buf_ok (a : cache) (i : nat) (b : buf) : Prop :=
  (b_dev b <> 1 /\ b_flags b = 0 /\ b_refcnt b = 0 /\ b_locked b = false /\ a_held a !! i = None) \/
  (b_dev b = 1 /\ 0 <= b_blockno b < disksize /\ b_data b = a_view a (b_blockno b) /\
   b_flags b = (if decide (b_blockno b ∈ a_pinned a) then 6 else 2) /\
   (a_held a !! i = Some (b_blockno b) /\ b_refcnt b = 1 /\ b_locked b = true \/
    a_held a !! i = None /\ b_refcnt b = 0 /\ b_locked b = false /\
      (b_blockno b ∉ a_pinned a -> a_view a (b_blockno b) = a_disk a (b_blockno b)))).

Definition caches (s : bio) (i : nat) (bn : Z) : Prop :=
  (i < NBUF)%nat /\ exists b, bc_buf s !! i = Some b /\ b_dev b = 1 /\ b_blockno b = bn.

Record bio_rep (s : bio) (a : cache) : Prop := {
  r_links : links_ok s (a_mru a);
  r_disk : bc_disk s = a_disk a;
  r_writes : bc_writes s = a_writes a;
  r_buf : forall i b, (i < NBUF)%nat -> bc_buf s !! i = Some b -> buf_ok a i b;
  r_key : forall i j bn, caches s i bn -> caches s j bn -> i = j;
  r_held : forall i bn, a_held a !! i = Some bn -> (i < NBUF)%nat;
  r_pin : forall bn, bn ∈ a_pinned a -> exists i, caches s i bn;
  r_view : forall bn, (forall i, ~ caches s i bn) -> a_view a bn = a_disk a bn;
  r_size : forall bn, length (a_disk a bn) = BSIZE /\ length (a_view a bn) = BSIZE
}.

Lemma rep_node s a i : bio_rep s a -> (i < NBUF)%nat -> exists b, bc_buf s !! i = Some b /\ buf_ok a i b.
Proof.
  intros H Hi. destruct (links_node _ _ i (r_links _ _ H)) as (b & Hb & _); [lia |].
  exists b. split; [done |]. by eapply (r_buf _ _ H).
Qed.

Lemma rep_head s a :
  bio_rep s a -> exists h, bc_buf s !! HEAD = Some h /\ nx s HEAD = b_next h /\ pv s HEAD = b_prev h.
Proof. intros H. apply (links_node _ _ HEAD (r_links _ _ H)). done. Qed.

(** The buffer in use holds the block, valid and locked. *)
Lemma rep_held s a i bn :
  bio_rep s a -> a_held a !! i = Some bn ->
  exists b, bc_buf s !! i = Some b /\ (i < NBUF)%nat /\ b_dev b = 1 /\ b_blockno b = bn /\
    0 <= bn < disksize /\ b_data b = a_view a bn /\
    b_flags b = (if decide (bn ∈ a_pinned a) then 6 else 2) /\ b_refcnt b = 1 /\ b_locked b = true.
Proof.
  intros H Hh. pose proof (r_held _ _ H _ _ Hh) as Hi. destruct (rep_node _ _ _ H Hi) as (b & Hb & Hok).
  exists b. destruct Hok as [(_ & _ & _ & _ & He) | (Hd & Hr & Hdt & Hf & [(He & Hrc & Hl) | (He & _)])];
    rewrite Hh in He; try done. injection He as ->. done.
Qed.

Lemma rep_held_caches s a i bn : bio_rep s a -> a_held a !! i = Some bn -> caches s i bn.
Proof.
  intros H Hh. destruct (rep_held _ _ _ _ H Hh) as (b & Hb & Hi & Hd & Hbn & _).
  split; [done |]. eauto.
Qed.

(** ** Scanning the ring *)

Definition passes (s : bio) (test : buf -> bool) (i : nat) : Prop :=
  from_option test false (bc_buf s !! i) = true.

#[export] Instance passes_dec s test i : Decision (passes s test i).
Proof. unfold passes. apply _. Defined.

Lemma scan_spec fuel (step : buf -> nat) test s f g l :
  (forall i b, bc_buf s !! i = Some b -> step b = f i) ->
  chain f g (l ++ [HEAD]) -> HEAD ∉ l -> (length l <= fuel)%nat ->
  (forall i, i ∈ l -> is_Some (bc_buf s !! i)) ->
  scan fuel step test (default HEAD (head l)) s = Ok (head (filter (passes s test) l), s).
Proof.
  intros Hstep. revert fuel. induction l as [|i l IH]; intros fuel Hc Hh Hf Hex.
  - simpl. destruct fuel; done.
  - apply not_elem_of_cons in Hh as [Hih Hh]. destruct fuel as [|fu]; simpl in Hf; [lia |].
    change (default HEAD (head (i :: l))) with i. cbn [scan]. rewrite (proj2 (Nat.eqb_neq i HEAD)) by done.
    destruct (Hex i) as [b Hb]; [by left |]. unfold bind, node. rewrite Hb. simpl.
    rewrite filter_cons. assert (passes s test i <-> test b = true) as Hp
      by (unfold passes; rewrite Hb; done).
    destruct (test b) eqn:Ht.
    + by rewrite decide_True by (by apply Hp).
    + rewrite decide_False by (rewrite Hp; done).
      assert (step b = default HEAD (head l)) as ->.
      { rewrite (Hstep _ _ Hb). destruct l; cbn [app] in Hc; rewrite chain_cons in Hc; apply Hc. }
      apply IH; [destruct l; cbn [app] in Hc; rewrite chain_cons in Hc; apply Hc | done | lia |].
      intros j Hj. apply Hex. by right.
Qed.

Lemma mru_length s a : bio_rep s a -> length (a_mru a) = NBUF.
Proof.
  intros H. destruct (r_links _ _ H) as (_ & [_ Hnd] & Hin). apply NoDup_cons in Hnd as [_ Hnd].
  rewrite <- (length_seq NBUF 0). apply Permutation_length, NoDup_Permutation; [done | apply NoDup_seq |].
  intros i. rewrite Hin, elem_of_seq. lia.
Qed.

Lemma ring_head f g l : ring f g HEAD l -> f HEAD = default HEAD (head l) /\ chain f g (l ++ [HEAD]) /\ HEAD ∉ l.
Proof.
  intros [Hc Hnd]. apply NoDup_cons in Hnd as [Hh _].
  destruct l; cbn [app] in *; rewrite chain_cons in Hc; naive_solver.
Qed.

(** The first scan finds the buffer of the block, the second one the least
    recently used free buffer. *)
Lemma scan_next_spec s a test :
  bio_rep s a ->
  scan NBUF b_next test (nx s HEAD) s = Ok (head (filter (passes s test) (a_mru a)), s).
Proof.
  intros H. pose proof (r_links _ _ H) as (Hlen & Hr & Hin).
  destruct (ring_head _ _ _ Hr) as (-> & Hc & Hh).
  eapply scan_spec; [| done | done | by rewrite (mru_length _ _ H) |].
  - intros i b Hb. unfold nx. by rewrite Hb.
  - intros i Hi. apply lookup_lt_is_Some. apply Hin in Hi. lia.
Qed.

Lemma scan_prev_spec s a test :
  bio_rep s a ->
  scan NBUF b_prev test (pv s HEAD) s = Ok (head (filter (passes s test) (reverse (a_mru a))), s).
Proof.
  intros H. pose proof (r_links _ _ H) as (Hlen & Hr & Hin). apply ring_reverse in Hr.
  destruct (ring_head _ _ _ Hr) as (-> & Hc & Hh).
  eapply scan_spec; [| done | done | by rewrite length_reverse, (mru_length _ _ H) |].
  - intros i b Hb. unfold pv. by rewrite Hb.
  - intros i Hi. rewrite elem_of_reverse in Hi. apply lookup_lt_is_Some. apply Hin in Hi. lia.
Qed.

(** ** Changing one buffer *)

(** [s'] is [s] with buffer [i] replaced by [b'], links kept. *)
Definition changed (s s' : bio) (i : nat) (b' : buf) : Prop :=
  bc_buf s' = <[i := b']> (bc_buf s) /\ (i < NBUF)%nat /\
  exists b, bc_buf s !! i = Some b /\ b_next b' = b_next b /\ b_prev b' = b_prev b.

Lemma changed_lookup s s' i b' j :
  changed s s' i b' -> bc_buf s' !! j = if decide (i = j) then Some b' else bc_buf s !! j.
Proof.
  intros (-> & _ & b & Hb & _). case_decide as Hj.
  - subst. apply list_lookup_insert_eq. by eapply lookup_lt_Some.
  - by apply list_lookup_insert_ne.
Qed.

Lemma changed_links s s' i b' l : changed s s' i b' -> links_ok s l -> links_ok s' l.
Proof.
  intros Hch (Hlen & Hr & Hin). pose proof Hch as (He & _ & b & Hb & Hn & Hp).
  assert (Hnx : forall j, nx s' j = nx s j /\ pv s' j = pv s j).
  { intros j. unfold nx, pv. rewrite (changed_lookup _ _ _ _ j Hch).
    case_decide; [subst; rewrite Hb |]; done. }
  split; [by rewrite He, length_insert |]. split; [| done]. destruct Hr as [Hc Hnd].
  split; [| done]. eapply chain_ext; [| exact Hc]. intros x c1 y c2 _.
  destruct (Hnx x), (Hnx y). done.
Qed.

Lemma changed_caches s s' i b' j bn :
  changed s s' i b' ->
  caches s' j bn <-> if decide (i = j) then b_dev b' = 1 /\ b_blockno b' = bn else caches s j bn.
Proof.
  intros Hch. pose proof Hch as (_ & Hi & _). unfold caches.
  rewrite (changed_lookup _ _ _ _ j Hch). case_decide as Hj; [| done]. subst.
  split; [intros (_ & b & [= <-] & ?); done |]. intros [? ?]. split; [done |]. by exists b'.
Qed.

(** A change of buffer [i] to [b'] that keeps the block it caches. *)
Lemma rep_change s s' a a' i b b' :
  bio_rep s a -> changed s s' i b' -> bc_buf s !! i = Some b ->
  b_dev b = 1 -> b_dev b' = 1 -> b_blockno b' = b_blockno b ->
  a_mru a' = a_mru a -> bc_disk s' = a_disk a' -> bc_writes s' = a_writes a' ->
  buf_ok a' i b' ->
  (forall j, j <> i -> a_held a' !! j = a_held a !! j) ->
  (forall bn, bn <> b_blockno b -> a_view a' bn = a_view a bn /\ a_disk a' bn = a_disk a bn /\
     (bn ∈ a_pinned a' <-> bn ∈ a_pinned a)) ->
  length (a_view a' (b_blockno b)) = BSIZE -> length (a_disk a' (b_blockno b)) = BSIZE ->
  bio_rep s' a'.
Proof.
  intros H Hch Hb Hd Hd' Hbn Hm Hdk Hw Hok Hh Ho Hl1 Hl2. pose proof Hch as (_ & Hi & _).
  assert (Hcs : forall j bn, caches s' j bn <-> caches s j bn).
  { intros j bn. rewrite (changed_caches _ _ _ _ _ _ Hch). case_decide as Hj; [| done]. subst j.
    unfold caches. rewrite Hb. split; [| by intros (_ & c & [= <-] & _ & <-)].
    intros [_ <-]. split; [done |]. exists b. done. }
  assert (Hib : caches s i (b_blockno b)) by (split; [done |]; by exists b).
  split; try done.
  - rewrite Hm. eapply changed_links; [done |]. apply H.
  - intros j c Hj Hc. rewrite (changed_lookup _ _ _ _ j Hch) in Hc. case_decide as Hji; [by simplify_eq |].
    pose proof (r_buf _ _ H _ _ Hj Hc) as Hokj. unfold buf_ok in *. rewrite Hh by done.
    destruct Hokj as [Hokj|Hokj]; [by left | right]. destruct Hokj as (Hdj & Hokj).
    assert (b_blockno c <> b_blockno b) as Hne.
    { intros He. apply Hji. eapply (r_key _ _ H); [exact Hib |]. split; [done |]. by exists c. }
    destruct (Ho _ Hne) as (-> & -> & Hp). split; [done |].
    rewrite (decide_ext _ _ _ _ Hp), Hp. done.
  - intros j k bn Hj Hk. apply Hcs in Hj, Hk. by eapply (r_key _ _ H).
  - intros j bn Hj. destruct (decide (j = i)) as [->|]; [done |]. rewrite Hh in Hj by done.
    by eapply (r_held _ _ H).
  - intros bn Hbn'. destruct (decide (bn = b_blockno b)) as [->|Hne]; [exists i; by apply Hcs |].
    apply Ho in Hbn'; [| done]. destruct (r_pin _ _ H _ Hbn') as [j Hj]. exists j. by apply Hcs.
  - intros bn Hno. destruct (decide (bn = b_blockno b)) as [->|Hne]; [by destruct (Hno i); apply Hcs |].
    destruct (Ho _ Hne) as (-> & -> & _). apply (r_view _ _ H). intros j Hj. apply (Hno j). by apply Hcs.
  - intros bn. destruct (decide (bn = b_blockno b)) as [->|Hne]; [done |].
    destruct (Ho _ Hne) as (-> & -> & _). apply (r_size _ _ H).
Qed.

(** Code that reads and changes one buffer only. *)

Lemma changed_refl s i b : (i < NBUF)%nat -> bc_buf s !! i = Some b -> changed s s i b.
Proof. intros Hi Hb. split; [by rewrite list_insert_id |]. split; [done |]. by exists b. Qed.

Lemma at_node s0 s i b (Q : buf -> bio -> Prop) : changed s0 s i b -> Q b s -> runs (node i) s Q.
Proof.
  intros Hch HQ. eapply runs_node; [| exact HQ].
  by rewrite (changed_lookup _ _ _ _ i Hch), decide_True.
Qed.

Lemma at_upd s0 s i b f (Q : unit -> bio -> Prop) :
  changed s0 s i b -> b_next (f b) = b_next b -> b_prev (f b) = b_prev b ->
  (forall s', changed s0 s' i (f b) -> bc_disk s' = bc_disk s -> bc_writes s' = bc_writes s -> Q tt s') ->
  runs (upd i f) s Q.
Proof.
  intros Hch Hn Hp HQ. assert (bc_buf s !! i = Some b) as Hb
    by (by rewrite (changed_lookup _ _ _ _ i Hch), decide_True).
  eapply runs_upd; [done |]. destruct Hch as (He & Hi & c & Hc & Hcn & Hcp). apply HQ; [| done | done].
  split; [| split; [done |]].
  - simpl. rewrite (list_alter_lookup_insert _ _ _ _ Hb), He. by rewrite list_insert_insert_eq.
  - exists c. split; [done |]. split; congruence.
Qed.

Lemma at_acquiresleep s0 s i b (Q : unit -> bio -> Prop) :
  changed s0 s i b -> b_locked b = false ->
  (forall s', changed s0 s' i (bset_locked true b) -> bc_disk s' = bc_disk s ->
     bc_writes s' = bc_writes s -> Q tt s') ->
  runs (acquiresleep i) s Q.
Proof.
  intros Hch Hl HQ. unfold acquiresleep. apply runs_bind, (at_node _ _ _ _ _ Hch).
  rewrite Hl. by eapply at_upd.
Qed.

Lemma at_holdingsleep s0 s i b (Q : bool -> bio -> Prop) :
  changed s0 s i b -> Q (b_locked b) s -> runs (holdingsleep i) s Q.
Proof.
  intros Hch HQ. unfold holdingsleep. apply runs_bind, (at_node _ _ _ _ _ Hch), runs_ret, HQ.
Qed.

(** Writing a dirty buffer and reading an invalid one. *)
Lemma at_iderw_write s0 s i b (Q : unit -> bio -> Prop) :
  changed s0 s i b -> b_locked b = true -> b_dev b = 1 -> b_blockno b < disksize -> b_flags b = 6 ->
  (forall s', changed s0 s' i (bset_flags 2 b) ->
     bc_disk s' = <[b_blockno b := b_data b]> (bc_disk s) ->
     bc_writes s' = bc_writes s ++ [(b_blockno b, b_data b)] -> Q tt s') ->
  runs (iderw disksize i) s Q.
Proof.
  intros Hch Hl Hd Hn Hf HQ. unfold iderw.
  apply runs_bind, (at_holdingsleep _ _ _ _ _ Hch). rewrite Hl. simpl.
  apply runs_bind, (at_node _ _ _ _ _ Hch). rewrite Hf, Hd. simpl.
  rewrite (proj2 (Z.leb_gt _ _)) by done. apply runs_bind, runs_bind.
  apply (at_upd _ _ _ _ _ _ Hch); [done | done |]. intros s1 Hc1 Hd1 Hw1.
  eexists _, _. split; [done |]. apply runs_bind.
  eapply at_node; [exact Hc1 |]. eapply at_upd; [exact Hc1 | done | done |].
  simpl. intros s2 Hc2 Hd2 Hw2. apply HQ; [done | |]; simpl in *; congruence.
Qed.

Lemma at_iderw_read s0 s i b (Q : unit -> bio -> Prop) :
  changed s0 s i b -> b_locked b = true -> b_dev b = 1 -> b_blockno b < disksize -> b_flags b = 0 ->
  (forall s', changed s0 s' i (bset_flags 2 (bset_data (bc_disk s (b_blockno b)) b)) ->
     bc_disk s' = bc_disk s -> bc_writes s' = bc_writes s -> Q tt s') ->
  runs (iderw disksize i) s Q.
Proof.
  intros Hch Hl Hd Hn Hf HQ. unfold iderw.
  apply runs_bind, (at_holdingsleep _ _ _ _ _ Hch). rewrite Hl. simpl.
  apply runs_bind, (at_node _ _ _ _ _ Hch). rewrite Hf, Hd. simpl.
  rewrite (proj2 (Z.leb_gt _ _)) by done. apply runs_bind, runs_bind, runs_get.
  eapply at_upd; [exact Hch | done | done |]. intros s1 Hc1 Hd1 Hw1.
  apply runs_bind, (at_node _ _ _ _ _ Hc1). eapply at_upd; [exact Hc1 | done | done |].
  simpl. rewrite Hf. intros s2 Hc2 Hd2 Hw2. apply HQ; [done | congruence | congruence].
Qed.

(** ** The operations *)

Lemma bwrite_spec s a i bn :
  bio_rep s a -> a_held a !! i = Some bn ->
  runs (bwrite disksize i) s (fun _ s' => bio_rep s' (written bn a)).
Proof.
  intros H Hh. destruct (rep_held _ _ _ _ H Hh) as (b & Hb & Hi & Hd & Hbn & Hr & Hdt & Hf & Hrc & Hl).
  pose proof (changed_refl _ _ _ Hi Hb) as Hch. unfold bwrite.
  apply runs_bind, (at_holdingsleep _ _ _ _ _ Hch). rewrite Hl. simpl.
  apply runs_bind, (at_node _ _ _ _ _ Hch). apply runs_bind, (at_upd _ _ _ _ _ _ Hch); [done | done |].
  intros s1 Hc1 Hd1 Hw1. eapply at_iderw_write; [exact Hc1 | done | done | simpl; lia | |].
  { simpl. rewrite Hf. by case_decide. }
  simpl. rewrite Hbn, Hdt. intros s2 Hc2 Hd2 Hw2.
  eapply (rep_change s s2 a _ i b); [exact H | exact Hc2 | exact Hb | done | done | done | done | | | | | | |].
  - rewrite Hd2, Hd1. simpl. by rewrite (r_disk _ _ H).
  - rewrite Hw2, Hw1. simpl. by rewrite (r_writes _ _ H).
  - right. simpl. rewrite Hbn. split; [done |]. split; [done |]. split; [done |].
    split; [by rewrite decide_False by set_solver |]. left. done.
  - done.
  - intros c Hc. simpl. rewrite fn_lookup_insert_ne by congruence. set_solver.
  - simpl. apply (r_size _ _ H).
  - simpl. rewrite Hbn, fn_lookup_insert. apply (r_size _ _ H).
Qed.

Lemma bblockno_spec s a i bn (Q : Z -> bio -> Prop) :
  bio_rep s a -> a_held a !! i = Some bn -> Q bn s -> runs (bblockno i) s Q.
Proof.
  intros H Hh HQ. destruct (rep_held _ _ _ _ H Hh) as (b & Hb & _ & _ & Hbn & _).
  apply runs_bind, (runs_node _ _ _ _ Hb), runs_ret. by rewrite Hbn.
Qed.

Lemma bdata_spec s a i bn (Q : block -> bio -> Prop) :
  bio_rep s a -> a_held a !! i = Some bn -> Q (a_view a bn) s -> runs (bdata i) s Q.
Proof.
  intros H Hh HQ. destruct (rep_held _ _ _ _ H Hh) as (b & Hb & _ & _ & _ & _ & Hdt & _).
  apply runs_bind, (runs_node _ _ _ _ Hb), runs_ret. by rewrite Hdt.
Qed.

Lemma bdata_set_spec s a i bn d :
  bio_rep s a -> a_held a !! i = Some bn -> length d = BSIZE ->
  runs (bdata_set i d) s (fun _ s' => bio_rep s' (with_view (<[bn := d]> (a_view a)) a)).
Proof.
  intros H Hh Hlen. destruct (rep_held _ _ _ _ H Hh) as (b & Hb & Hi & Hd & Hbn & Hr & Hdt & Hf & Hrc & Hl).
  pose proof (changed_refl _ _ _ Hi Hb) as Hch. unfold bdata_set.
  apply (at_upd _ _ _ _ _ _ Hch); [done | done |]. intros s1 Hc1 Hd1 Hw1.
  eapply (rep_change s s1 a _ i b); [exact H | exact Hc1 | exact Hb | done | done | done | done | | | | | | |].
  - rewrite Hd1. apply H.
  - rewrite Hw1. apply H.
  - right. simpl. rewrite Hbn, fn_lookup_insert. split; [done |]. split; [done |]. split; [done |].
    split; [done |]. left. done.
  - done.
  - intros c Hc. simpl. rewrite fn_lookup_insert_ne by congruence. done.
  - simpl. by rewrite Hbn, fn_lookup_insert.
  - simpl. apply (r_size _ _ H).
Qed.

Lemma set_dirty_spec s a i bn :
  bio_rep s a -> a_held a !! i = Some bn ->
  runs (set_dirty i) s (fun _ s' => bio_rep s' (with_pinned ({[bn]} ∪ a_pinned a) a)).
Proof.
  intros H Hh. destruct (rep_held _ _ _ _ H Hh) as (b & Hb & Hi & Hd & Hbn & Hr & Hdt & Hf & Hrc & Hl).
  pose proof (changed_refl _ _ _ Hi Hb) as Hch. unfold set_dirty.
  apply runs_bind, (at_node _ _ _ _ _ Hch), (at_upd _ _ _ _ _ _ Hch); [done | done |].
  intros s1 Hc1 Hd1 Hw1.
  eapply (rep_change s s1 a _ i b); [exact H | exact Hc1 | exact Hb | done | done | done | done | | | | | | |].
  - rewrite Hd1. apply H.
  - rewrite Hw1. apply H.
  - right. simpl. rewrite Hbn. split; [done |]. split; [done |]. split; [done |].
    split; [| left; done]. rewrite decide_True by set_solver. rewrite Hf. by case_decide.
  - done.
  - intros c Hc. simpl. set_solver.
  - simpl. apply (r_size _ _ H).
  - simpl. apply (r_size _ _ H).
Qed.

Definition with_mru l a := mkCache (a_disk a) (a_view a) (a_pinned a) (a_held a) l (a_writes a).

Lemma same_core_caches s s' i bn : same_core s s' -> caches s' i bn <-> caches s i bn.
Proof.
  intros (_ & _ & H). unfold caches. specialize (H i).
  destruct (bc_buf s !! i) as [b|], (bc_buf s' !! i) as [b'|]; simpl in H; try done.
  assert (core b' = core b) as Hc by congruence.
  pose proof (f_equal b_dev Hc). pose proof (f_equal b_blockno Hc). simpl in *.
  split; intros (Hi & c & [= <-] & Hd & Hn); (split; [done |]); eexists; (split; [done |]);
    split; congruence.
Qed.

Lemma rep_same_core s s' a l :
  bio_rep s a -> same_core s s' -> links_ok s' l -> bio_rep s' (with_mru l a).
Proof.
  intros H Hc Hl. pose proof Hc as (Hd & Hw & Hb). split; simpl; try done.
  - rewrite Hd. apply H.
  - rewrite Hw. apply H.
  - intros i b' Hi Hb'. specialize (Hb i). rewrite Hb' in Hb.
    destruct (bc_buf s !! i) as [b|] eqn:Hbi; [| done]. simpl in Hb.
    assert (core b' = core b) as He by congruence.
    pose proof (r_buf _ _ H _ _ Hi Hbi) as Hok. unfold buf_ok in *.
    pose proof (f_equal b_dev He) as E1. pose proof (f_equal b_blockno He) as E2.
    pose proof (f_equal b_flags He) as E3. pose proof (f_equal b_refcnt He) as E4.
    pose proof (f_equal b_locked He) as E5. pose proof (f_equal b_data He) as E6.
    simpl in *. by rewrite E1, E2, E3, E4, E5, E6.
  - intros i j bn. rewrite !(same_core_caches _ _ _ _ Hc). apply H.
  - apply H.
  - intros bn Hbn. destruct (r_pin _ _ H _ Hbn) as [i Hi]. exists i. by rewrite same_core_caches.
  - intros bn Hno. apply (r_view _ _ H). intros i Hi. apply (Hno i). by rewrite same_core_caches.
  - apply H.
Qed.

Lemma mru_NoDup s a : bio_rep s a -> NoDup (a_mru a).
Proof. intros H. destruct (r_links _ _ H) as (_ & [_ Hnd] & _). by apply NoDup_cons in Hnd as [_ ?]. Qed.

Lemma move_to_front_rep s a i :
  bio_rep s a -> (i < NBUF)%nat ->
  runs (move_to_front i) s (fun _ s' => bio_rep s' (with_mru (i :: filter (fun j => j <> i) (a_mru a)) a)).
Proof.
  intros H Hi. pose proof (mru_NoDup _ _ H) as Hnd. pose proof (r_links _ _ H) as Hl.
  assert (i ∈ a_mru a) as (l1 & l2 & He)%list_elem_of_split by (by apply Hl).
  rewrite He in *. rewrite filter_ne_mid by done.
  eapply runs_mono; [apply move_to_front_spec; exact Hl |].
  intros _ s' [Hl' Hc]. by eapply rep_same_core.
Qed.

Lemma brelse_spec s a i bn :
  bio_rep s a -> a_held a !! i = Some bn -> (bn ∉ a_pinned a -> a_view a bn = a_disk a bn) ->
  runs (brelse i) s (fun _ s' => bio_rep s' (released i a)).
Proof.
  intros H Hh Hclean. destruct (rep_held _ _ _ _ H Hh) as (b & Hb & Hi & Hd & Hbn & Hr & Hdt & Hf & Hrc & Hl).
  pose proof (changed_refl _ _ _ Hi Hb) as Hch. unfold brelse, releasesleep.
  apply runs_bind, (at_holdingsleep _ _ _ _ _ Hch). rewrite Hl. simpl.
  apply runs_bind, (at_upd _ _ _ _ _ _ Hch); [done | done |]. intros s1 Hc1 Hd1 Hw1.
  apply runs_bind, (at_node _ _ _ _ _ Hc1), runs_bind, (at_upd _ _ _ _ _ _ Hc1); [done | done |].
  intros s2 Hc2 Hd2 Hw2. apply runs_bind, (at_node _ _ _ _ _ Hc2). simpl. rewrite Hrc. simpl.
  eapply runs_mono; [apply (move_to_front_rep s2 (with_held (delete i (a_held a)) a) i) |].
  - eapply (rep_change s s2 a _ i b); [exact H | exact Hc2 | exact Hb | done | done | done | done | | | | | | |].
    + rewrite Hd2, Hd1. apply H.
    + rewrite Hw2, Hw1. apply H.
    + right. simpl. rewrite Hbn, Hrc. split; [done |]. split; [done |]. split; [done |].
      split; [done |]. right. rewrite lookup_delete_eq. done.
    + intros j Hj. simpl. by rewrite lookup_delete_ne.
    + done.
    + apply (r_size _ _ H).
    + apply (r_size _ _ H).
  - done.
  - done.
Qed.

Lemma passes_is_block s i bn :
  (i < NBUF)%nat -> passes s (is_block 1 bn) i <-> caches s i bn.
Proof.
  intros Hi. unfold passes, is_block, caches. destruct (bc_buf s !! i) as [b|]; simpl.
  - rewrite andb_true_iff, !Z.eqb_eq. split; [intros []; eauto |]. by intros (_ & c & [= <-] & ?).
  - split; [done |]. by intros (_ & b & ? & _).
Qed.

Lemma bget_hit s a i bn :
  bio_rep s a -> caches s i bn -> ~ block_held a bn ->
  runs (bget 1 bn) s (fun r s' => r = i /\ bio_rep s' (with_held (<[i := bn]> (a_held a)) a) /\
    a_held a !! i = None).
Proof.
  intros H Hca Hnh. pose proof Hca as (Hi & b & Hb & Hd & Hbn).
  assert (Hok := r_buf _ _ H _ _ Hi Hb).
  destruct Hok as [(? & _) | (_ & Hr & Hdt & Hf & [(He & _) | (He & Hrc & Hl & _)])];
    [done | subst bn; by destruct Hnh; exists i |].
  unfold bget. destruct (rep_head _ _ H) as (h & Hh & Hn & Hp).
  apply runs_bind, (runs_node _ _ _ _ Hh). apply runs_bind. rewrite <- Hn.
  assert (head (filter (passes s (is_block 1 bn)) (a_mru a)) = Some i) as Hhd.
  { pose proof (r_links _ _ H) as (_ & _ & Hin).
    destruct (head _) as [j|] eqn:Hj.
    - apply head_Some_elem_of, list_elem_of_filter in Hj as [Hj Hjm]. f_equal.
      apply (r_key _ _ H j i bn); [| done]. apply passes_is_block; [by apply Hin | done].
    - apply head_None in Hj. exfalso. apply (elem_of_nil i). rewrite <- Hj.
      apply list_elem_of_filter. split; [by apply passes_is_block | by apply Hin]. }
  eexists _, _. split; [apply scan_next_spec; exact H |]. rewrite Hhd.
  pose proof (changed_refl _ _ _ Hi Hb) as Hch.
  apply runs_bind, (at_node _ _ _ _ _ Hch), runs_bind, (at_upd _ _ _ _ _ _ Hch); [done | done |].
  intros s1 Hc1 Hd1 Hw1. apply runs_bind. eapply at_acquiresleep; [exact Hc1 | done |].
  intros s2 Hc2 Hd2 Hw2. apply runs_ret. split; [done |]. split; [| done].
  eapply (rep_change s s2 a _ i b); [exact H | exact Hc2 | exact Hb | done | done | done | done | | | | | | |].
  - rewrite Hd2, Hd1. apply H.
  - rewrite Hw2, Hw1. apply H.
  - right. simpl. rewrite Hbn, Hrc in *. split; [done |]. split; [done |]. split; [done |].
    split; [done |]. left. by rewrite lookup_insert_eq.
  - intros j Hj. simpl. by rewrite lookup_insert_ne.
  - done.
  - apply (r_size _ _ H).
  - apply (r_size _ _ H).
Qed.

Lemma bread_hit s a i bn :
  bio_rep s a -> caches s i bn -> ~ block_held a bn ->
  runs (bread disksize 1 bn) s (fun r s' => r = i /\ bio_rep s' (with_held (<[i := bn]> (a_held a)) a) /\
    a_held a !! i = None).
Proof.
  intros H Hca Hnh. unfold bread. apply runs_bind.
  eapply runs_mono; [by apply bget_hit |]. intros r s1 (-> & H1 & Hn).
  destruct (rep_held s1 _ i bn H1) as (b & Hb & _ & _ & _ & _ & _ & Hf & _);
    [simpl; apply lookup_insert_eq |].
  apply runs_bind, (runs_node _ _ _ _ Hb), runs_bind. rewrite Hf.
  case_decide; simpl; apply runs_ret, runs_ret; done.
Qed.

(** A buffer that is neither in use nor dirty. *)
Lemma passes_is_free s a i :
  bio_rep s a -> (i < NBUF)%nat ->
  passes s is_free i <-> a_held a !! i = None /\ forall bn, caches s i bn -> bn ∉ a_pinned a.
Proof.
  intros H Hi. destruct (rep_node _ _ _ H Hi) as (b & Hb & Hok). unfold passes, is_free. rewrite Hb. simpl.
  rewrite andb_true_iff, !Z.eqb_eq.
  destruct Hok as [(Hd & -> & -> & _ & ->) | (Hd & _ & _ & -> & [(-> & -> & _) | (-> & -> & _ & _)])].
  - split; [| done]. intros _. split; [done |]. intros bn (_ & c & Hc & Hcd & _). congruence.
  - split; [by intros [] | by intros []].
  - split.
    + intros [_ Hz]. split; [done |]. intros bn (_ & c & Hc & Hcd & <-) Hin.
      assert (c = b) as -> by congruence. by rewrite decide_True in Hz.
    + intros [_ Hno]. split; [done |]. rewrite decide_False; [done |]. apply Hno.
      split; [done |]. eauto.
Qed.

(** When some block is neither cached nor busy and there is room for one more
    busy block, some buffer is free. *)
Lemma free_buffer s a bn :
  bio_rep s a -> (forall i, ~ caches s i bn) -> (size ({[bn]} ∪ busy_blocks a) <= NBUF)%nat ->
  exists i, (i < NBUF)%nat /\ passes s is_free i.
Proof.
  intros H Hno Hsize.
  destruct (decide (Exists (passes s is_free) (seq 0 NBUF))) as [He|Hne].
  { apply Exists_exists in He as (i & Hi & Hp). apply elem_of_seq in Hi. exists i. split; [lia | done]. }
  exfalso. assert (Hall : forall i, (i < NBUF)%nat -> exists b, bc_buf s !! i = Some b /\ b_dev b = 1 /\
    b_blockno b ∈ busy_blocks a).
  { intros i Hi. destruct (rep_node _ _ _ H Hi) as (b & Hb & Hok). exists b. split; [done |].
    assert (~ passes s is_free i) as Hnp.
    { intros Hp. apply Hne, Exists_exists. exists i. split; [apply elem_of_seq; lia | done]. }
    rewrite (passes_is_free _ _ _ H Hi) in Hnp. unfold busy_blocks.
    destruct Hok as [(Hd & _ & _ & _ & He) | (Hd & _ & _ & _ & [(He & _) | (He & _)])].
    - destruct Hnp. split; [done |]. intros c (_ & b' & Hb' & Hd' & _). congruence.
    - split; [done |]. apply elem_of_union_r, elem_of_map_to_set. eauto.
    - split; [done |]. destruct (decide (b_blockno b ∈ a_pinned a)); [set_solver |].
      destruct Hnp. split; [done |]. intros c (_ & b' & Hb' & _ & <-). congruence. }
  set (bns := (fun i => from_option b_blockno 0 (bc_buf s !! i)) <$> seq 0 NBUF).
  assert (NoDup bns) as Hnd.
  { apply NoDup_fmap_2_strong; [| apply NoDup_seq]. intros i j Hi Hj Heq.
    apply elem_of_seq in Hi, Hj. destruct (Hall i) as (b & Hb & Hd & _); [lia |].
    destruct (Hall j) as (c & Hc & Hdc & _); [lia |]. rewrite Hb, Hc in Heq. simpl in Heq.
    apply (r_key _ _ H i j (b_blockno b)); (split; [lia |]); eauto. }
  assert (Hsub : list_to_set bns ⊆ busy_blocks a).
  { intros x Hx. apply elem_of_list_to_set, list_elem_of_fmap in Hx as (i & -> & Hi).
    apply elem_of_seq in Hi. destruct (Hall i) as (b & Hb & _ & Hbusy); [lia |]. by rewrite Hb. }
  assert (Hbn : bn ∉ (list_to_set bns : gset Z)).
  { intros Hx. apply elem_of_list_to_set, list_elem_of_fmap in Hx as (i & -> & Hi).
    apply elem_of_seq in Hi. destruct (Hall i) as (b & Hb & Hd & _); [lia |].
    apply (Hno i). split; [lia |]. rewrite Hb. eauto. }
  assert (size ({[bn]} ∪ (list_to_set bns : gset Z)) = S NBUF) as Hs.
  { rewrite size_union by (by apply disjoint_singleton_l). rewrite size_singleton, size_list_to_set by done.
    subst bns. by rewrite length_fmap, length_seq. }
  pose proof (subseteq_size ({[bn]} ∪ (list_to_set bns : gset Z)) ({[bn]} ∪ busy_blocks a)
    (union_mono_l _ _ _ Hsub)). lia.
Qed.

(** Recycling free buffer [i] for a block that is not cached. *)
Lemma rep_recycle s s' a i bn b' :
  bio_rep s a -> changed s s' i b' -> bc_disk s' = bc_disk s -> bc_writes s' = bc_writes s ->
  (forall j, ~ caches s j bn) -> passes s is_free i -> 0 <= bn < disksize ->
  b_dev b' = 1 -> b_blockno b' = bn -> b_data b' = a_disk a bn -> b_flags b' = 2 ->
  b_refcnt b' = 1 -> b_locked b' = true ->
  bio_rep s' (with_held (<[i := bn]> (a_held a)) a).
Proof.
  intros H Hch Hdk Hw Hno Hfree Hr Hd Hbn Hdt Hf Hrc Hl. pose proof Hch as (_ & Hi & _).
  apply (passes_is_free _ _ _ H Hi) in Hfree as [Hnh Hnp].
  assert (Hcs : forall j c, caches s' j c <-> if decide (i = j) then c = bn else caches s j c).
  { intros j c. rewrite (changed_caches _ _ _ _ _ _ Hch). case_decide; naive_solver. }
  assert (Hnpin : bn ∉ a_pinned a).
  { intros Hp. destruct (r_pin _ _ H _ Hp) as [j Hj]. by apply (Hno j). }
  pose proof (r_view _ _ H _ Hno) as Hview. split; simpl.
  - eapply changed_links; [done |]. apply H.
  - rewrite Hdk. apply H.
  - rewrite Hw. apply H.
  - intros j c Hj Hc. rewrite (changed_lookup _ _ _ _ j Hch) in Hc. case_decide as Hij.
    + simplify_eq. right. simpl. rewrite Hdt, Hview, Hf, Hrc, Hl. split; [done |]. split; [done |].
      split; [done |]. split; [by rewrite decide_False |]. left. by rewrite lookup_insert_eq.
    + pose proof (r_buf _ _ H _ _ Hj Hc) as Hok. unfold buf_ok in *. simpl.
      by rewrite lookup_insert_ne.
  - intros j k c Hj Hk. apply Hcs in Hj, Hk.
    destruct (decide (i = j)) as [<-|], (decide (i = k)) as [<-|]; [done | | | by eapply (r_key _ _ H)].
    + rewrite Hj in Hk. by apply Hno in Hk.
    + rewrite Hk in Hj. by apply Hno in Hj.
  - intros j c Hj. destruct (decide (i = j)) as [<-|]; [done |].
    rewrite lookup_insert_ne in Hj by done. by eapply (r_held _ _ H).
  - intros c Hc. destruct (r_pin _ _ H _ Hc) as [j Hj]. exists j. apply Hcs.
    rewrite decide_False; [done |]. intros <-. by apply (Hnp c).
  - intros c Hc. assert (c <> bn) as Hcn.
    { intros ->. apply (Hc i). apply Hcs. by rewrite decide_True. }
    destruct (rep_node _ _ _ H Hi) as (b & Hb & Hok).
    destruct (decide (b_dev b = 1 /\ b_blockno b = c)) as [[Hbd Hbc]|Hnb].
    + destruct Hok as [(? & _) | (_ & _ & _ & _ & [(? & _) | (_ & _ & _ & Hcl)])];
        [done | congruence |]. rewrite Hbc in Hcl. apply Hcl, Hnp. split; [done |]. eauto.
    + apply (r_view _ _ H). intros j Hj. destruct (decide (i = j)) as [<-|Hij].
      * apply Hnb. destruct Hj as (_ & b0 & ? & ?). by simplify_eq.
      * apply (Hc j). apply Hcs. by rewrite decide_False.
  - apply (r_size _ _ H).
Qed.

Lemma bread_miss s a bn :
  bio_rep s a -> (forall i, ~ caches s i bn) -> 0 <= bn < disksize ->
  (size ({[bn]} ∪ busy_blocks a) <= NBUF)%nat ->
  runs (bread disksize 1 bn) s (fun i s' =>
    bio_rep s' (with_held (<[i := bn]> (a_held a)) a) /\ a_held a !! i = None /\
    head (filter (passes s is_free) (reverse (a_mru a))) = Some i).
Proof.
  intros H Hno Hr Hsz. pose proof (r_links _ _ H) as (_ & _ & Hin). unfold bread, bget.
  destruct (rep_head _ _ H) as (h & Hh & Hn & Hp).
  apply runs_bind, runs_bind, (runs_node _ _ _ _ Hh), runs_bind. rewrite <- Hn.
  eexists _, _. split; [apply scan_next_spec; exact H |].
  rewrite (filter_none (passes s (is_block 1 bn))).
  2: { intros i Hi Hpi. apply (Hno i). apply passes_is_block; [by apply Hin | done]. }
  simpl. apply runs_bind. rewrite <- Hp. eexists _, _. split; [apply scan_prev_spec; exact H |].
  destruct (head (filter (passes s is_free) (reverse (a_mru a)))) as [i|] eqn:Hhd.
  2: { apply head_None in Hhd. destruct (free_buffer _ _ _ H Hno Hsz) as (i & Hi & Hpi).
       exfalso. apply (elem_of_nil i). rewrite <- Hhd. apply list_elem_of_filter. split; [done |].
       rewrite elem_of_reverse. by apply Hin. }
  pose proof Hhd as Hfree. apply head_Some_elem_of, list_elem_of_filter in Hfree as [Hfree Him].
  rewrite elem_of_reverse in Him. apply Hin in Him.
  pose proof (proj1 (passes_is_free _ _ _ H Him) Hfree) as [Hnh Hnp].
  destruct (rep_node _ _ _ H Him) as (b & Hb & Hok).
  assert (b_locked b = false) as Hl by (unfold buf_ok in Hok; rewrite Hnh in Hok; naive_solver).
  pose proof (changed_refl _ _ _ Him Hb) as Hch.
  apply runs_bind, (at_upd _ _ _ _ _ _ Hch); [done | done |]. intros s1 Hc1 Hd1 Hw1.
  apply runs_bind. eapply at_acquiresleep; [exact Hc1 | done |]. intros s2 Hc2 Hd2 Hw2.
  apply runs_ret, runs_bind, (at_node _ _ _ _ _ Hc2), runs_bind. simpl.
  eapply at_iderw_read; [exact Hc2 | done | done | simpl; lia | done |].
  intros s3 Hc3 Hd3 Hw3. apply runs_ret. split; [| done].
  eapply rep_recycle; [exact H | exact Hc3 | congruence | congruence | done | done | done | done |
    done | | done | done | done]. simpl. by rewrite Hd2, Hd1, (r_disk _ _ H).
Qed.

(** [bread] returns the block, in a buffer of the caller's own. *)
Lemma bread_spec s a bn :
  bio_rep s a -> 0 <= bn < disksize -> ~ block_held a bn ->
  (size ({[bn]} ∪ busy_blocks a) <= NBUF)%nat ->
  runs (bread disksize 1 bn) s (fun i s' =>
    bio_rep s' (with_held (<[i := bn]> (a_held a)) a) /\ a_held a !! i = None).
Proof.
  intros H Hr Hnh Hsz.
  destruct (decide (Exists (fun i => passes s (is_block 1 bn) i) (seq 0 NBUF))) as [He|Hne].
  - apply Exists_exists in He as (i & Hi & Hp). apply elem_of_seq in Hi.
    apply passes_is_block in Hp; [| lia].
    eapply runs_mono; [by eapply bread_hit |]. by intros r s' (-> & ? & ?).
  - eapply runs_mono; [apply bread_miss; try done |].
    + intros i Hc. apply Hne, Exists_exists. exists i. pose proof Hc as (? & _).
      split; [apply elem_of_seq; lia | by apply passes_is_block].
    + by intros i s' (? & ? & _).
Qed.

Lemma rep_clean s a bn :
  bio_rep s a -> bn ∉ a_pinned a -> ~ block_held a bn -> a_view a bn = a_disk a bn.
Proof.
  intros H Hp Hh.
  destruct (decide (Exists (fun i => passes s (is_block 1 bn) i) (seq 0 NBUF))) as [He|Hne].
  - apply Exists_exists in He as (i & Hi & Hc). apply elem_of_seq in Hi.
    apply passes_is_block in Hc as (_ & b & Hb & Hd & <-); [| lia].
    destruct (r_buf _ _ H i b) as [(? & _) | (_ & _ & _ & _ & [(Hhe & _) | (_ & _ & _ & Hcl)])];
      [lia | done | done | | by apply Hcl]. destruct Hh. by exists i.
  - apply (r_view _ _ H). intros i Hc. apply Hne, Exists_exists. exists i. pose proof Hc as (? & _).
    split; [apply elem_of_seq; lia | by apply passes_is_block].
Qed.

(** ** Boot *)

Definition buf_zero : buf := mkBuf 0 0 0 false 0 0 0 (replicate BSIZE 0).

(** Memory is zero when the kernel starts. *)
Definition bio_zero (d : Z -> block) : bio := mkBio (replicate (S NBUF) buf_zero) d [].

Definition bio_boot (d : Z -> block) : bio :=
  match binit (bio_zero d) with Ok (_, s) => s | _ => bio_zero d end.

Lemma bio_boot_rep d : (forall bn, length (d bn) = BSIZE) -> bio_rep (bio_boot d) (fresh d).
Proof.
  intros Hd. assert (Hz : forall i b, bc_buf (bio_zero d) !! i = Some b -> b = buf_zero).
  { intros i b Hb. by apply lookup_replicate in Hb as [-> _]. }
  destruct (binit_spec (bio_zero d)) as (u & s & He & Hc & Hl).
  { apply length_replicate. } { by intros i b ->%Hz. }
  unfold bio_boot. rewrite He. clear He. pose proof Hc as (Hdk & Hw & _).
  assert (Hno : forall i bn, ~ caches s i bn).
  { intros i bn Hi. rewrite (same_core_caches _ _ _ _ Hc) in Hi.
    destruct Hi as (_ & b & Hb & Hbd & _). apply Hz in Hb as ->. done. }
  split; [exact Hl | exact Hdk | exact Hw | | | | | |].
  - intros i b Hi Hb. left. destruct Hc as (_ & _ & Hc). specialize (Hc i). rewrite Hb in Hc.
    destruct (bc_buf (bio_zero d) !! i) as [b0|] eqn:Hb0; [| done]. apply Hz in Hb0 as ->.
    assert (core b = core buf_zero) as E by (simpl in Hc; congruence).
    pose proof (f_equal b_dev E) as E1. pose proof (f_equal b_flags E) as E2.
    pose proof (f_equal b_refcnt E) as E3. pose proof (f_equal b_locked E) as E4.
    cbn [core b_dev b_flags b_refcnt b_locked buf_zero fresh a_held] in *.
    by rewrite E1, E2, E3, E4, lookup_empty.
  - intros i j bn Hi. by apply Hno in Hi.
  - intros i bn. cbn [a_held fresh]. by rewrite lookup_empty.
  - intros bn. cbn [a_pinned fresh]. by intros ?%elem_of_empty.
  - done.
  - intros bn. split; apply Hd.
Qed.
End rep.

#[export] Instance bio_ops (disksize : Z) : CacheOps bio := {|
  c_boot := bio_boot;
  c_bread := bread disksize;
  c_bwrite := bwrite disksize;
  c_brelse := brelse;
  c_blockno := bblockno;
  c_bdata := bdata;
  c_bdata_set := bdata_set;
  c_set_dirty := set_dirty
|}.

(** bio.c implements the interface. *)
#[export] Instance bio_spec (disksize : Z) : @CacheSpec bio disksize (bio_ops disksize).
Proof.
  refine {| c_rep := bio_rep disksize : _ |}.
  - intros s a bn H. apply (r_size _ _ _ H).
  - intros s a bn H. eapply rep_clean; exact H.
  - apply bio_boot_rep.
  - apply bread_spec.
  - apply bwrite_spec.
  - apply brelse_spec.
  - intros s a i bn H Hh. eapply bblockno_spec; eauto.
  - intros s a i bn H Hh. eapply bdata_spec; eauto.
  - apply bdata_set_spec.
  - apply set_dirty_spec.
Defined.

(** ** What the clients rely on *)

(** Reading a block through the cache. On a cache in a consistent state,
    [bread] of a block that nobody holds returns, if fewer than NBUF other
    blocks are pinned or held. The caller gets a locked buffer of its own with
    the block's current contents. If the block was not cached, the buffer is
    the least recently used one among those that are neither held nor pinned. *)
Theorem bread_correct disksize s a bn
  (Hrep : bio_rep disksize s a) (Hbn : 0 <= bn < disksize) (Hheld : ~ block_held a bn)
  (Hroom : (size ({[bn]} ∪ busy_blocks a) <= NBUF)%nat) :
  runs (let* i := bread disksize 1 bn in let* d := bdata i in ret (i, d)) s (fun r s' =>
    let '(i, d) := r in
    d = a_view a bn /\ a_held a !! i = None /\
    bio_rep disksize s' (with_held (<[i := bn]> (a_held a)) a) /\
    ((forall j, ~ caches s j bn) -> head (filter (passes s is_free) (reverse (a_mru a))) = Some i)).
Proof.
  assert (Hdec : (exists j, caches s j bn) \/ forall j, ~ caches s j bn).
  { destruct (decide (Exists (fun i => passes s (is_block 1 bn) i) (seq 0 NBUF))) as [He|Hne].
    - apply Exists_exists in He as (i & Hi & Hp). apply elem_of_seq in Hi. left. exists i.
      by apply passes_is_block in Hp; [| lia].
    - right. intros i Hc. apply Hne, Exists_exists. exists i. pose proof Hc as (? & _).
      split; [apply elem_of_seq; lia | by apply passes_is_block]. }
  assert (Hend : forall i s', bio_rep disksize s' (with_held (<[i := bn]> (a_held a)) a) -> a_held a !! i = None ->
    ((forall j, ~ caches s j bn) -> head (filter (passes s is_free) (reverse (a_mru a))) = Some i) ->
    runs (let* d := bdata i in ret (i, d)) s' (fun r s' => let '(i, d) := r in
      d = a_view a bn /\ a_held a !! i = None /\
      bio_rep disksize s' (with_held (<[i := bn]> (a_held a)) a) /\
      ((forall j, ~ caches s j bn) -> head (filter (passes s is_free) (reverse (a_mru a))) = Some i))).
  { intros i s' Hr Hn Hlru. apply runs_bind. eapply (bdata_spec _ _ _ i bn _ Hr); [apply lookup_insert_eq |].
    apply runs_ret. done. }
  apply runs_bind. destruct Hdec as [[j Hj]|Hno].
  - eapply runs_mono; [by eapply bread_hit |]. intros i s' (-> & Hr & Hn). apply Hend; [done | done |].
    intros Hx. by destruct (Hx j).
  - eapply runs_mono; [by eapply bread_miss |]. intros i s' (Hr & Hn & Hlru). by apply Hend.
Qed.

(** Writing a block through the cache: after
    [bread]; change the data; [bwrite]; [brelse], the disk has the new contents
    of that block and all other blocks as before, the block is no longer pinned,
    and its buffer is the last one to be recycled. *)
Theorem bwrite_correct disksize s a bn x
  (Hrep : bio_rep disksize s a) (Hbn : 0 <= bn < disksize) (Hheld : ~ block_held a bn)
  (Hroom : (size ({[bn]} ∪ busy_blocks a) <= NBUF)%nat) (Hx : length x = BSIZE) :
  runs (let* i := bread disksize 1 bn in bdata_set i x ;;; bwrite disksize i ;;; brelse i ;;; ret i) s
    (fun i s' => exists a', bio_rep disksize s' a' /\ a_disk a' = <[bn := x]> (a_disk a) /\
       a_view a' = <[bn := x]> (a_view a) /\ a_pinned a' = a_pinned a ∖ {[bn]} /\
       a_held a' = a_held a /\ head (a_mru a') = Some i).
Proof.
  apply runs_bind. eapply runs_mono; [by apply bread_spec |]. intros i s1 [H1 Hn].
  apply runs_bind. eapply runs_mono; [apply (bdata_set_spec disksize _ _ i bn x H1); [apply lookup_insert_eq | done] |].
  intros [] s2 H2. apply runs_bind.
  eapply runs_mono; [apply (bwrite_spec disksize _ _ i bn H2), lookup_insert_eq |].
  intros [] s3 H3. apply runs_bind.
  eapply runs_mono; [apply (brelse_spec disksize _ _ i bn H3); [apply lookup_insert_eq |] |].
  { intros _. simpl. by rewrite !fn_lookup_insert. }
  intros [] s4 H4. apply runs_ret. eexists. split; [exact H4 |]. simpl.
  rewrite fn_lookup_insert, delete_insert_id by done. done.
Qed.

(** A disk of zeroes after boot. *)
Definition ex_bio : bio := bio_boot (fun _ => replicate BSIZE 0).

#[local] Opaque bio_boot.

Lemma ex_bio_rep : bio_rep 100 ex_bio (fresh (fun _ => replicate BSIZE 0)).
Proof. apply bio_boot_rep. intros bn. apply length_replicate. Qed.

Lemma fresh_room d bn : (size ({[bn]} ∪ busy_blocks (fresh d)) <= NBUF)%nat.
Proof.
  assert (busy_blocks (fresh d) = ∅) as ->.
  { apply set_eq. intros x. split; [| by intros ?%elem_of_empty].
    intros [H|H]%elem_of_union; [by apply elem_of_empty in H |].
    apply elem_of_map_to_set in H as (i & c & Hi & _). cbn [a_held fresh] in Hi. by rewrite lookup_empty in Hi. }
  rewrite union_empty_r_L, size_singleton. unfold NBUF, MAXOPBLOCKS. lia.
Qed.

Lemma fresh_not_held d bn : ~ block_held (fresh d) bn.
Proof. intros [i Hi]. simpl in Hi. by rewrite lookup_empty in Hi. Qed.

Lemma bread_correct_witness :
  runs (let* i := bread 100 1 7 in let* d := bdata i in ret (i, d)) ex_bio (fun r s' =>
    snd r = replicate BSIZE 0).
Proof.
  eapply runs_mono.
  - apply (bread_correct 100 ex_bio _ 7 ex_bio_rep); [lia | apply fresh_not_held | apply fresh_room].
  - intros [i d] s' (-> & _). reflexivity.
Defined.

Lemma bwrite_correct_witness :
  runs (let* i := bread 100 1 7 in bdata_set i (replicate BSIZE 5) ;;; bwrite 100 i ;;; brelse i ;;; ret i)
    ex_bio (fun i s' => bc_disk s' 7 = replicate BSIZE 5).
Proof.
  eapply runs_mono.
  - apply (bwrite_correct 100 ex_bio _ 7 (replicate BSIZE 5) ex_bio_rep);
      [lia | apply fresh_not_held | apply fresh_room | apply length_replicate].
  - intros i s' (a' & Hr & Hd & _). rewrite (r_disk _ _ _ Hr), Hd. apply fn_lookup_insert.
Defined.
