(* ===== verification/Ide.v ===== *)
(** * The disk driver (ide.c)

    The queue of requests, the routine that puts a buffer on it and waits, and
    the interrupt handler, on top of a disk controller with two drives. Each
    part of the driver that runs with [idelock] held is atomic; a request is
    cut at its calls of [sleep]. Disk requests of any number of processes, the
    controller and its interrupts interleave. The result is that every request
    has the effect of the memory disk of memide.c, which the buffer cache is
    verified against (Bio.v), in the order of the requests. *)

From stdpp Require Import functions.
From S2P Require Import Prelude Params Cache Bio.

(** ** The controller

    The ports of a controller in programmed input and output: the sector's
    address goes into the ports 0x1f3 to 0x1f6, a command into 0x1f7, data
    through 0x1f0. It is busy after a command, and raises its interrupt when it
    has finished or failed. *)

Definition SECTOR_SIZE : nat := 512.
Definition IDE_BSY : Z := 0x80.
Definition IDE_DRDY : Z := 0x40.
Definition IDE_DF : Z := 0x20.
Definition IDE_ERR : Z := 0x01.
Definition IDE_CMD_READ : Z := 0x20.
Definition IDE_CMD_WRITE : Z := 0x30.
Definition IDE_CMD_RDMUL : Z := 0xc4.
Definition IDE_CMD_WRMUL : Z := 0xc5.

Inductive phase :=
| Ready                                          (** nothing to do *)
| Reading (drive sector : Z)                     (** busy *)
| Filling (drive sector : Z)                     (** waits for the data of a write *)
| Writing (drive sector : Z) (data : block)      (** busy *)
| HasData (data : block)                         (** a sector can be read from the data port *)
| Failed.

Record controller := mkController {
  ct_port : Z -> Z;
  ct_phase : phase;
  ct_irq : bool;
  ct_disk : Z -> Z -> block
}.

Definition set_phase (p : phase) (c : controller) : controller := mkController (ct_port c) p (ct_irq c) (ct_disk c).
Definition set_irq (b : bool) (c : controller) : controller := mkController (ct_port c) (ct_phase c) b (ct_disk c).

(** The addressed drive and sector. *)
Definition drive_of (port : Z -> Z) : Z := Z.land (Z.shiftr (port 0x1f6) 4) 1.
Definition sector_of (port : Z -> Z) : Z :=
  port 0x1f3 + Z.shiftl (port 0x1f4) 8 + Z.shiftl (port 0x1f5) 16 + Z.shiftl (Z.land (port 0x1f6) 0x0f) 24.

(** A byte to a port; the commands for more than one sector are not used. *)
Definition out_byte (port v : Z) (c : controller) : controller :=
  let c := mkController (<[port := uchar v]> (ct_port c)) (ct_phase c) (ct_irq c) (ct_disk c) in
  if port =? 0x1f7 then
    if uchar v =? IDE_CMD_READ then set_phase (Reading (drive_of (ct_port c)) (sector_of (ct_port c))) c
    else if uchar v =? IDE_CMD_WRITE then set_phase (Filling (drive_of (ct_port c)) (sector_of (ct_port c))) c
    else set_phase Failed c
  else c.

Definition out_data (data : block) (c : controller) : controller :=
  match ct_phase c with
  | Filling d n => set_phase (Writing d n data) c
  | _ => c
  end.

Definition in_data (c : controller) : option (block * controller) :=
  match ct_phase c with HasData data => Some (data, set_phase Ready c) | _ => None end.

Definition status (c : controller) : Z :=
  match ct_phase c with
  | Ready | Filling _ _ | HasData _ => IDE_DRDY
  | Reading _ _ | Writing _ _ _ => Z.lor IDE_BSY IDE_DRDY
  | Failed => Z.lor IDE_DRDY IDE_ERR
  end.

(** The controller finishes what it was told to do. *)
Definition finish (c : controller) : controller :=
  match ct_phase c with
  | Reading d n => set_irq true (set_phase (HasData (ct_disk c d n)) c)
  | Writing d n data => mkController (ct_port c) Ready true (<[d := <[n := data]> (ct_disk c d)]> (ct_disk c))
  | _ => c
  end.

(** ** The driver *)

(** A process in [iderw] sleeps or has been woken and will look again. *)
Inductive waiter := Asleep | Woken.

Record ide := mkIde {
  id_buf : list buf;
  id_qnext : nat -> option nat;
  id_queue : option nat;
  id_havedisk1 : bool;
  id_ct : controller;
  id_wait : nat -> option waiter
}.

Definition set_bufs l s := mkIde l (id_qnext s) (id_queue s) (id_havedisk1 s) (id_ct s) (id_wait s).
Definition set_qnext i x s := mkIde (id_buf s) (<[i := x]> (id_qnext s)) (id_queue s) (id_havedisk1 s) (id_ct s) (id_wait s).
Definition set_queue x s := mkIde (id_buf s) (id_qnext s) x (id_havedisk1 s) (id_ct s) (id_wait s).
Definition set_ct c s := mkIde (id_buf s) (id_qnext s) (id_queue s) (id_havedisk1 s) c (id_wait s).
Definition set_wait i x s := mkIde (id_buf s) (id_qnext s) (id_queue s) (id_havedisk1 s) (id_ct s) (<[i := x]> (id_wait s)).

Definition bnode (i : nat) : ST ide buf := fun s => match id_buf s !! i with Some b => Ok (b, s) | None => Undef end.
Definition bupd (i : nat) (f : buf -> buf) : ST ide unit := fun s =>
  match id_buf s !! i with Some _ => Ok (tt, set_bufs (alter f i (id_buf s)) s) | None => Undef end.

Definition outb (port v : Z) : ST ide unit := modify (fun s => set_ct (out_byte port v (id_ct s)) s).

(** The loop ends at once when the controller is not busy. *)
Definition idewait (checkerr : bool) : ST ide Z :=
  let* r := get (fun s => status (id_ct s)) in
  if negb (Z.land r (Z.lor IDE_BSY IDE_DRDY) =? IDE_DRDY) then fun _ => Hang
  else ret (if checkerr && negb (Z.land r (Z.lor IDE_DF IDE_ERR) =? 0) then -1 else 0).

Definition insl (i : nat) : ST ide unit := fun s =>
  match in_data (id_ct s) with
  | Some (data, c) => bupd i (bset_data data) (set_ct c s)
  | None => Undef
  end.

Definition idestart (b : option nat) : ST ide unit :=
  match b with
  | None => panic "idestart"
  | Some i =>
      let* b := bnode i in
      if FSSIZE <=? b_blockno b then panic "incorrect blockno"
      else
        let sector_per_block := Z.of_nat (BSIZE / SECTOR_SIZE) in
        let sector := b_blockno b * sector_per_block in
        let read_cmd := if sector_per_block =? 1 then IDE_CMD_READ else IDE_CMD_RDMUL in
        let write_cmd := if sector_per_block =? 1 then IDE_CMD_WRITE else IDE_CMD_WRMUL in
        if 7 <? sector_per_block then panic "idestart"
        else
          idewait false ;;;
          outb 0x3f6 0 ;;;
          outb 0x1f2 sector_per_block ;;;
          outb 0x1f3 (Z.land sector 0xff) ;;;
          outb 0x1f4 (Z.land (Z.shiftr sector 8) 0xff) ;;;
          outb 0x1f5 (Z.land (Z.shiftr sector 16) 0xff) ;;;
          outb 0x1f6 (Z.lor (Z.lor 0xe0 (Z.shiftl (Z.land (b_dev b) 1) 4)) (Z.land (Z.shiftr sector 24) 0x0f)) ;;;
          if negb (Z.land (b_flags b) B_DIRTY =? 0) then
            outb 0x1f7 write_cmd ;;;
            modify (fun s => set_ct (out_data (b_data b) (id_ct s)) s)
          else outb 0x1f7 read_cmd
  end.

Definition wakeup_buf (i : nat) : ST ide unit := modify (fun s =>
  match id_wait s i with Some _ => set_wait i (Some Woken) s | None => s end).

Definition ideintr : ST ide unit :=
  modify (fun s => set_ct (set_irq false (id_ct s)) s) ;;;
  let* q := get id_queue in
  match q with
  | None => ret tt
  | Some i =>
      (let* next := get (fun s => id_qnext s i) in modify (set_queue next)) ;;;
      let* b := bnode i in
      (if Z.land (b_flags b) B_DIRTY =? 0 then
         let* r := idewait true in
         if 0 <=? r then insl i else ret tt
       else ret tt) ;;;
      bupd i (fun b => bset_flags (Z.lor (b_flags b) B_VALID) b) ;;;
      bupd i (fun b => bset_flags (Z.land (b_flags b) (Z.lnot B_DIRTY)) b) ;;;
      wakeup_buf i ;;;
      let* q := get id_queue in
      match q with Some _ => idestart q | None => ret tt end
  end.

(** [pp] is [&idequeue] or the address of a [qnext]. *)
Definition deref (pp : option nat) (s : ide) : option nat :=
  match pp with None => id_queue s | Some j => id_qnext s j end.

Fixpoint last_link (fuel : nat) (pp : option nat) : ST ide (option nat) :=
  match fuel with
  | O => fun _ => Hang
  | S fuel' =>
      let* x := get (deref pp) in
      match x with None => ret pp | Some j => last_link fuel' (Some j) end
  end.

Definition store_link (pp x : option nat) : ST ide unit :=
  modify (match pp with None => set_queue x | Some j => set_qnext j x end).

(** The loop on the flags: the call returns or sleeps. *)
Definition wait_loop (i : nat) : ST ide unit :=
  let* b := bnode i in
  modify (set_wait i (if Z.land (b_flags b) (Z.lor B_VALID B_DIRTY) =? B_VALID then None else Some Asleep)).

(** [iderw] up to its first [sleep]. *)
Definition ide_rw (i : nat) : ST ide unit :=
  let* b := bnode i in
  let* have := get id_havedisk1 in
  if negb (b_locked b) then panic "iderw: buf not locked"
  else if Z.land (b_flags b) (Z.lor B_VALID B_DIRTY) =? B_VALID then panic "iderw: nothing to do"
  else if negb (b_dev b =? 0) && negb have then panic "iderw: ide disk 1 not present"
  else
    modify (set_qnext i None) ;;;
    let* n := get (fun s => length (id_buf s)) in
    let* pp := last_link (S n) None in
    store_link pp (Some i) ;;;
    let* q := get id_queue in
    (if bool_decide (q = Some i) then idestart (Some i) else ret tt) ;;;
    wait_loop i.

(** Drive 1 answers the probe when it is present. *)
Definition ideinit (present : bool) : ST ide unit :=
  idewait false ;;;
  outb 0x1f6 (Z.lor 0xe0 (Z.shiftl 1 4)) ;;;
  let* st := get (fun s => status (id_ct s)) in
  modify (fun s => mkIde (id_buf s) (id_qnext s) (id_queue s)
    (id_havedisk1 s || negb ((if present then st else 0) =? 0)) (id_ct s) (id_wait s)) ;;;
  outb 0x1f6 (Z.lor 0xe0 (Z.shiftl 0 4)).

(** ** What happens *)

(** A process that has a buffer uses it; a process in a call does not, but
    the cache may move its buffer on the ring and count references. *)
Inductive event :=
| Client (i : nat) (b : buf)
| Request (i : nat)
| Finish
| Interrupt
| Resume (i : nat).

Definition same_request (b b' : buf) : Prop :=
  b_flags b' = b_flags b /\ b_dev b' = b_dev b /\ b_blockno b' = b_blockno b /\ b_locked b' = b_locked b /\ b_data b' = b_data b.

(** A buffer that [iderw] takes. *)
Definition request_ok (b : buf) : Prop :=
  b_locked b = true /\ Z.land (b_flags b) (Z.lor B_VALID B_DIRTY) <> B_VALID /\ b_dev b = 1 /\ 0 <= b_blockno b < FSSIZE.

Definition busy (p : phase) : Prop := match p with Reading _ _ | Writing _ _ _ => True | _ => False end.

Definition enabled (e : event) (s : ide) : Prop :=
  match e with
  | Client i b => exists b0, id_buf s !! i = Some b0 /\ (id_wait s i = None \/ same_request b0 b)
  | Request i => id_wait s i = None /\ exists b, id_buf s !! i = Some b /\ request_ok b
  | Finish => busy (ct_phase (id_ct s))
  | Interrupt => ct_irq (id_ct s) = true
  | Resume i => id_wait s i = Some Woken
  end.

Definition exec (e : event) : ST ide unit :=
  match e with
  | Client i b => modify (fun s => set_bufs (<[i := b]> (id_buf s)) s)
  | Request i => ide_rw i
  | Finish => modify (fun s => set_ct (finish (id_ct s)) s)
  | Interrupt => ideintr
  | Resume i => wait_loop i
  end.

(** ** The memory disk with a queue

    A request waits in the queue; an interrupt serves the first one, with the
    routine of memide.c. *)

Record served := mkServed { a_bio : bio; a_queue : list nat }.

Inductive spec_step : event -> served -> served -> Prop :=
| ss_client i b a : spec_step (Client i b) a
    (mkServed (mkBio (<[i := b]> (bc_buf (a_bio a))) (bc_disk (a_bio a)) (bc_writes (a_bio a))) (a_queue a))
| ss_request i a : spec_step (Request i) a (mkServed (a_bio a) (a_queue a ++ [i]))
| ss_finish a : spec_step Finish a a
| ss_interrupt i q m m' : iderw FSSIZE i m = Ok (tt, m') -> spec_step Interrupt (mkServed m (i :: q)) (mkServed m' q)
| ss_resume i a : spec_step (Resume i) a a.

(** ** The relation *)

Fixpoint links (head : option nat) (nx : nat -> option nat) (q : list nat) : Prop :=
  match q with
  | [] => head = None
  | i :: q' => head = Some i /\ links (nx i) nx q'
  end.

Definition dirty (b : buf) : bool := negb (Z.land (b_flags b) B_DIRTY =? 0).

(** The controller works on the first request, or has finished with it. *)
Definition working (b : buf) (disk : Z -> block) (c : controller) : Prop :=
  if dirty b then
    (ct_phase c = Writing 1 (b_blockno b) (b_data b) /\ ct_irq c = false /\ ct_disk c 1 = disk) \/
    (ct_phase c = Ready /\ ct_irq c = true /\ ct_disk c 1 = <[b_blockno b := b_data b]> disk)
  else
    (ct_phase c = Reading 1 (b_blockno b) /\ ct_irq c = false /\ ct_disk c 1 = disk) \/
    (ct_phase c = HasData (disk (b_blockno b)) /\ ct_irq c = true /\ ct_disk c 1 = disk).

Definition device_ok (s : ide) (q : list nat) (disk : Z -> block) : Prop :=
  match q with
  | [] => ct_phase (id_ct s) = Ready /\ ct_irq (id_ct s) = false /\ ct_disk (id_ct s) 1 = disk
  | i :: _ => exists b, id_buf s !! i = Some b /\ working b disk (id_ct s)
  end.

Record rep (s : ide) (a : served) : Prop := {
  r_bufs : bc_buf (a_bio a) = id_buf s;
  r_links : links (id_queue s) (id_qnext s) (a_queue a);
  r_nodup : NoDup (a_queue a);
  r_queued i : i ∈ a_queue a <-> id_wait s i = Some Asleep;
  r_request i : i ∈ a_queue a -> exists b, id_buf s !! i = Some b /\ request_ok b;
  r_woken i : id_wait s i = Some Woken -> exists b, id_buf s !! i = Some b /\ Z.land (b_flags b) (Z.lor B_VALID B_DIRTY) = B_VALID;
  r_device : device_ok s (a_queue a) (bc_disk (a_bio a));
  r_have : id_havedisk1 s = true
}.

(** ** Flags *)

Lemma served_flags f : Z.land (Z.land (Z.lor f B_VALID) (Z.lnot B_DIRTY)) (Z.lor B_VALID B_DIRTY) = B_VALID.
Proof.
  rewrite <- Z.land_assoc. change (Z.land (Z.lnot B_DIRTY) (Z.lor B_VALID B_DIRTY)) with B_VALID.
  apply Z.bits_inj'. intros n Hn. rewrite Z.land_spec, Z.lor_spec. by destruct (Z.testbit f n), (Z.testbit B_VALID n).
Qed.

Lemma flags_order f : Z.land (Z.lor f B_VALID) (Z.lnot B_DIRTY) = Z.lor (Z.land f (Z.lnot B_DIRTY)) B_VALID.
Proof.
  rewrite Z.land_lor_distr_l. f_equal.
Qed.

Lemma flags_clean f : Z.land f B_DIRTY = 0 -> Z.land f (Z.lnot B_DIRTY) = f.
Proof.
  intros H. apply Z.bits_inj'. intros n Hn. assert (Hb := f_equal (fun z => Z.testbit z n) H). cbn beta in Hb.
  rewrite Z.land_spec, Z.bits_0 in Hb. rewrite Z.land_spec, Z.lnot_spec by lia.
  by destruct (Z.testbit f n), (Z.testbit B_DIRTY n).
Qed.

(** ** The queue *)

Lemma links_ext head nx nx' q : (forall i, i ∈ q -> nx' i = nx i) -> links head nx q -> links head nx' q.
Proof.
  revert head. induction q as [|i q IH]; intros head He; [done |]. intros [-> Hl]. split; [done |].
  rewrite He by set_solver. apply IH; [set_solver | exact Hl].
Qed.

Definition last_cell (pp : option nat) (q : list nat) : option nat := match last q with Some j => Some j | None => pp end.

Lemma last_cell_cons pp j q : last_cell (Some j) q = last_cell pp (j :: q).
Proof. unfold last_cell. rewrite last_cons. by destruct (last q). Qed.

Lemma last_link_spec s : forall q pp fuel, links (deref pp s) (id_qnext s) q -> (length q < fuel)%nat ->
  last_link fuel pp s = Ok (last_cell pp q, s).
Proof.
  induction q as [|j q IH]; intros pp [|f] Hl Hf; try (simpl in Hf; lia).
  - cbn [last_link]. unfold bind, get. cbn. cbn in Hl. by rewrite Hl.
  - destruct Hl as [Hj Hl]. cbn [last_link]. unfold bind, get. cbn [rbind fst snd]. rewrite Hj.
    rewrite (IH (Some j)) by (done || simpl in Hf; lia). by rewrite (last_cell_cons pp).
Qed.

Lemma links_push nx i j : nx i = None -> forall q head, links head nx (q ++ [j]) -> NoDup (q ++ [j]) -> i ∉ q ++ [j] ->
  links head (<[j := Some i]> nx) ((q ++ [j]) ++ [i]).
Proof.
  intros Hi. induction q as [|k q IH]; intros head Hl Hn Hnin.
  - cbn in Hl |- *. destruct Hl as [-> _]. split; [done |]. rewrite fn_lookup_insert. split; [done |].
    rewrite fn_lookup_insert_ne by set_solver. exact Hi.
  - cbn in Hl |- *. destruct Hl as [-> Hl]. apply NoDup_cons in Hn as [Hk Hn]. split; [done |].
    rewrite fn_lookup_insert_ne by set_solver. apply IH; [exact Hl | exact Hn | set_solver].
Qed.

(** The request goes to the end of the queue. *)
Lemma store_link_spec s q i :
  links (id_queue s) (id_qnext s) q -> NoDup q -> i ∉ q -> id_qnext s i = None ->
  exists s', store_link (last_cell None q) (Some i) s = Ok (tt, s') /\ links (id_queue s') (id_qnext s') (q ++ [i]) /\
    (id_queue s' = Some i <-> q = []) /\
    id_buf s' = id_buf s /\ id_ct s' = id_ct s /\ id_wait s' = id_wait s /\ id_havedisk1 s' = id_havedisk1 s.
Proof.
  intros Hl Hn Hi Hnone. destruct q as [|j q _] using rev_ind.
  - eexists. split; [reflexivity |]. cbn. by rewrite Hnone.
  - unfold last_cell. rewrite last_snoc. eexists. split; [reflexivity |]. cbn [set_qnext id_queue id_qnext id_buf id_ct id_wait id_havedisk1].
    split_and!; try reflexivity; [by apply links_push |]. split; [| by destruct q].
    intros Hq. rewrite Hq in Hl. destruct q as [|k q]; cbn in Hl; destruct Hl as [[= ->] _]; set_solver.
Qed.

(** ** The controller is started *)

Definition started (b : buf) : phase := if dirty b then Writing 1 (b_blockno b) (b_data b) else Reading 1 (b_blockno b).

Lemma sector_ports n (port : Z -> Z) :
  0 <= n < FSSIZE -> port 0x1f3 = uchar (Z.land n 0xff) -> port 0x1f4 = uchar (Z.land (Z.shiftr n 8) 0xff) ->
  port 0x1f5 = uchar (Z.land (Z.shiftr n 16) 0xff) -> port 0x1f6 = uchar (Z.lor (Z.lor 0xe0 (Z.shiftl 1 4)) (Z.land (Z.shiftr n 24) 0x0f)) ->
  sector_of port = n /\ drive_of port = 1.
Proof.
  unfold FSSIZE. intros Hn H3 H4 H5 H6. unfold sector_of, drive_of. rewrite H3, H4, H5, H6.
  rewrite !Z.shiftr_div_pow2 by lia. change 0xff with (Z.ones 8). rewrite !Z.land_ones by lia.
  rewrite (Z.div_small n (2 ^ 16)), (Z.div_small n (2 ^ 24)) by lia.
  rewrite !uchar_small by (apply Z.mod_pos_bound; lia). rewrite !Z.shiftl_mul_pow2 by lia.
  split; [| reflexivity]. change (Z.land (uchar _) _) with 0. change (2 ^ 8) with 256.
  pose proof (Z.div_mod n 256 ltac:(lia)). assert (0 <= n / 256 < 256) by (split; [apply Z.div_pos | apply Z.div_lt_upper_bound]; lia).
  rewrite (Z.mod_small (n / 256)) by lia. change (0 mod 256) with 0. lia.
Qed.

Lemma idestart_spec s i b :
  id_buf s !! i = Some b -> b_dev b = 1 -> 0 <= b_blockno b < FSSIZE -> status (id_ct s) = IDE_DRDY ->
  exists c, idestart (Some i) s = Ok (tt, set_ct c s) /\ ct_phase c = started b /\ ct_irq c = ct_irq (id_ct s) /\ ct_disk c = ct_disk (id_ct s).
Proof.
  intros Hb Hd Hn Hst. unfold idestart, bind at 1, bnode. rewrite Hb. cbn [rbind fst snd].
  rewrite (proj2 (Z.leb_gt _ _)) by lia. cbv zeta. change (Z.of_nat (BSIZE / SECTOR_SIZE)) with 1. rewrite Z.mul_1_r.
  change (7 <? 1) with false. cbv iota. unfold bind at 1, idewait, bind at 1, get. cbn [rbind fst snd]. rewrite Hst.
  change (negb (Z.land IDE_DRDY (Z.lor IDE_BSY IDE_DRDY) =? IDE_DRDY)) with false. cbv iota.
  rewrite Hd. change (Z.land 1 1) with 1. unfold started, dirty.
  set (c := out_byte 0x1f6 (Z.lor (Z.lor 0xe0 (Z.shiftl 1 4)) (Z.land (Z.shiftr (b_blockno b) 24) 0x0f))
    (out_byte 0x1f5 (Z.land (Z.shiftr (b_blockno b) 16) 0xff)
    (out_byte 0x1f4 (Z.land (Z.shiftr (b_blockno b) 8) 0xff) (out_byte 0x1f3 (Z.land (b_blockno b) 0xff)
    (out_byte 0x1f2 1 (out_byte 0x3f6 0 (id_ct s))))))).
  assert (Hport : forall v, sector_of (<[0x1f7 := v]> (ct_port c)) = b_blockno b /\ drive_of (<[0x1f7 := v]> (ct_port c)) = 1)
    by (intros v; by apply sector_ports).
  destruct (Z.land (b_flags b) B_DIRTY =? 0); cbn [negb].
  - exists (out_byte 0x1f7 IDE_CMD_READ c). destruct (Hport (uchar IDE_CMD_READ)) as [H1 H2]. split; [reflexivity |].
    split_and!; [| reflexivity ..].
    change (Reading (drive_of (<[0x1f7 := uchar IDE_CMD_READ]> (ct_port c))) (sector_of (<[0x1f7 := uchar IDE_CMD_READ]> (ct_port c))) = Reading 1 (b_blockno b)).
    by rewrite H1, H2.
  - exists (out_data (b_data b) (out_byte 0x1f7 IDE_CMD_WRITE c)). destruct (Hport (uchar IDE_CMD_WRITE)) as [H1 H2].
    split; [reflexivity |]. split_and!; [| reflexivity ..].
    change (Writing (drive_of (<[0x1f7 := uchar IDE_CMD_WRITE]> (ct_port c))) (sector_of (<[0x1f7 := uchar IDE_CMD_WRITE]> (ct_port c))) (b_data b)
      = Writing 1 (b_blockno b) (b_data b)).
    by rewrite H1, H2.
Qed.

(** ** Every event *)

Lemma working_start b disk c : ct_phase c = started b -> ct_irq c = false -> ct_disk c 1 = disk -> working b disk c.
Proof. unfold working, started. destruct (dirty b); auto. Qed.

Lemma queue_short s a : rep s a -> (length (a_queue a) <= length (id_buf s))%nat.
Proof.
  intros H. rewrite <- (length_seq (length (id_buf s)) 0). apply submseteq_length, NoDup_submseteq; [apply (r_nodup _ _ H) |].
  intros i Hi. destruct (r_request _ _ H i Hi) as (b & Hb & _). apply lookup_lt_Some in Hb. apply elem_of_seq. lia.
Qed.

(** The caller falls asleep; [s'] differs in the queue and the controller. *)
Lemma asleep_rep s a s' i b :
  rep s a -> id_wait s i = None -> id_buf s !! i = Some b -> request_ok b ->
  id_buf s' = id_buf s -> id_wait s' = id_wait s -> id_havedisk1 s' = id_havedisk1 s ->
  links (id_queue s') (id_qnext s') (a_queue a ++ [i]) -> device_ok s' (a_queue a ++ [i]) (bc_disk (a_bio a)) ->
  exists s2, wait_loop i s' = Ok (tt, s2) /\ rep s2 (mkServed (a_bio a) (a_queue a ++ [i])).
Proof.
  intros [Hbufs Hlinks Hnd Hq Hreq Hwok Hdev Hhave] Hw Hb Hok Eb Ew Eh Hl Hd. pose proof Hok as (_ & Hfl & _).
  assert (Hi : i ∉ a_queue a) by (rewrite Hq; congruence).
  unfold wait_loop, bind, bnode. rewrite Eb, Hb. cbn [rbind fst snd]. rewrite (proj2 (Z.eqb_neq _ _) Hfl).
  eexists. split; [reflexivity |]. split; cbn; rewrite ?Eb, ?Eh; try assumption.
  - apply NoDup_app. split_and!; [exact Hnd | set_solver | apply NoDup_singleton].
  - intros j. rewrite Ew, elem_of_app, list_elem_of_singleton. destruct (decide (j = i)) as [->|Hne].
    + rewrite fn_lookup_insert. naive_solver.
    + rewrite fn_lookup_insert_ne, Hq by congruence. naive_solver.
  - intros j. rewrite elem_of_app, list_elem_of_singleton. intros [Hj| ->]; [by apply Hreq | by exists b].
  - intros j. rewrite Ew. destruct (decide (j = i)) as [->|Hne]; [by rewrite fn_lookup_insert |].
    rewrite fn_lookup_insert_ne by congruence. apply Hwok.
Qed.

Lemma request_rep s a i : rep s a -> enabled (Request i) s ->
  exists s', exec (Request i) s = Ok (tt, s') /\ rep s' (mkServed (a_bio a) (a_queue a ++ [i])).
Proof.
  intros Hrep (Hw & b & Hb & Hok). pose proof Hrep as [Hbufs Hlinks Hnd Hq Hreq Hwok Hdev Hhave]. pose proof Hok as (Hlk & Hfl & Hd & Hn).
  assert (Hi : i ∉ a_queue a) by (rewrite Hq; congruence).
  cbn [exec]. unfold ide_rw, bind at 1, bnode. rewrite Hb. cbn [rbind fst snd]. unfold bind at 1, get. cbn [rbind fst snd].
  rewrite Hlk, Hd, Hhave. cbn [negb]. rewrite (proj2 (Z.eqb_neq _ _) Hfl). change (negb (1 =? 0) && false) with false. cbv iota.
  unfold bind at 1, modify. cbn [rbind fst snd]. unfold bind at 1, get. cbn [rbind fst snd].
  set (s1 := set_qnext i None s).
  assert (Hl1 : links (id_queue s1) (id_qnext s1) (a_queue a)).
  { apply (links_ext _ (id_qnext s)); [| exact Hlinks]. intros j Hj. cbn. rewrite fn_lookup_insert_ne; [done |]. congruence. }
  unfold bind at 1. rewrite (last_link_spec s1 (a_queue a) None); [cbn [rbind fst snd] | exact Hl1 | apply queue_short in Hrep; cbn; lia].
  destruct (store_link_spec s1 (a_queue a) i) as (s2 & E2 & Hl2 & Hempty & Eb & Ec & Ew & Eh); [done .. | apply fn_lookup_insert |].
  unfold bind at 1. rewrite E2. cbn [rbind fst snd]. unfold bind at 1, get. cbn [rbind fst snd].
  destruct (bool_decide_reflect (id_queue s2 = Some i)) as [He|He]; rewrite Hempty in He.
  - rewrite He in Hdev. destruct Hdev as (Hph & Hirq & Hdisk).
    destruct (idestart_spec s2 i b) as (c & E3 & Hc1 & Hc2 & Hc3);
      [by rewrite Eb | done | done | rewrite Ec; unfold status; cbn; by rewrite Hph |].
    unfold bind. rewrite E3. cbn [rbind fst snd]. eapply (asleep_rep s a); try eassumption; try done.
    rewrite He. exists b. split; [by cbn; rewrite Eb |]. rewrite Ec in Hc2, Hc3. apply working_start; cbn; [done | by rewrite Hc2 | by rewrite Hc3].
  - unfold bind. cbn [rbind fst snd ret]. eapply (asleep_rep s a); try eassumption; try done.
    destruct (a_queue a) as [|j q]; [done |]. destruct Hdev as (b1 & Hb1 & Hwk). exists b1. split; [by rewrite Eb | by rewrite Ec].
Qed.

Lemma finish_rep s a : rep s a -> enabled Finish s -> exists s', exec Finish s = Ok (tt, s') /\ rep s' a.
Proof.
  intros [Hbufs Hlinks Hnd Hq Hreq Hwok Hdev Hhave] Hbusy. cbn in Hbusy. eexists. split; [reflexivity |].
  split; cbn; try assumption. destruct (a_queue a) as [|i q]; cbn in Hdev |- *.
  - destruct Hdev as (Hp & _). by rewrite Hp in Hbusy.
  - destruct Hdev as (b & Hb & Hw). exists b. split; [exact Hb |]. unfold working in *. unfold finish.
    destruct (dirty b); destruct Hw as [(Hp & Hi & Hd)|(Hp & Hi & Hd)]; rewrite Hp in *; try done; right; cbn.
    + rewrite fn_lookup_insert, Hd. done.
    + by rewrite Hd.
Qed.

Lemma same_working b b' disk c : same_request b b' -> working b disk c -> working b' disk c.
Proof. intros (Hf & _ & Hn & _ & Hd). unfold working, dirty. by rewrite Hf, Hn, Hd. Qed.

Lemma same_request_ok b b' : same_request b b' -> request_ok b -> request_ok b'.
Proof. intros (Hf & Hd & Hn & Hl & _). unfold request_ok. by rewrite Hf, Hd, Hn, Hl. Qed.

Lemma client_rep s a i b : rep s a -> enabled (Client i b) s -> exists s', exec (Client i b) s = Ok (tt, s') /\
  rep s' (mkServed (mkBio (<[i := b]> (bc_buf (a_bio a))) (bc_disk (a_bio a)) (bc_writes (a_bio a))) (a_queue a)).
Proof.
  intros [Hbufs Hlinks Hnd Hq Hreq Hwok Hdev Hhave] (b0 & Hb0 & Hen). eexists. split; [reflexivity |].
  assert (Hlt := lookup_lt_Some _ _ _ Hb0).
  assert (Hlook : forall P : buf -> Prop, (forall x y, same_request x y -> P x -> P y) -> forall j, id_wait s j <> None ->
    (exists x, id_buf s !! j = Some x /\ P x) -> exists x, <[i := b]> (id_buf s) !! j = Some x /\ P x).
  { intros P HP j Hj (x & Hx & Hp). destruct (decide (j = i)) as [->|Hne].
    - exists b. split; [by apply list_lookup_insert_eq |]. destruct Hen as [?|Hs]; [done |].
      assert (x = b0) as -> by congruence. by eapply HP.
    - exists x. by rewrite list_lookup_insert_ne. }
  split; cbn; rewrite ?Hbufs; try assumption; try reflexivity.
  - intros j Hj. apply (Hlook request_ok); [apply same_request_ok | by rewrite (proj1 (Hq j) Hj) | by apply Hreq].
  - intros j Hj. apply (Hlook (fun x => Z.land (b_flags x) (Z.lor B_VALID B_DIRTY) = B_VALID)); [by intros x y (-> & _) | congruence | by apply Hwok].
  - destruct (a_queue a) as [|j q]; [exact Hdev |]. apply (Hlook (fun x => working x _ _)); [intros x y; apply same_working | | exact Hdev].
    by rewrite (proj1 (Hq j)) by set_solver.
Qed.

Lemma resume_rep s a i : rep s a -> enabled (Resume i) s -> exists s', exec (Resume i) s = Ok (tt, s') /\ rep s' a /\ id_wait s' i = None.
Proof.
  intros [Hbufs Hlinks Hnd Hq Hreq Hwok Hdev Hhave] Hw. cbn in Hw. destruct (Hwok i Hw) as (b & Hb & Hf).
  cbn [exec]. unfold wait_loop, bind, bnode. rewrite Hb. cbn [rbind fst snd]. rewrite Hf, Z.eqb_refl.
  eexists. split; [reflexivity |]. split; [| apply fn_lookup_insert].
  split; cbn; try assumption.
  - intros j. destruct (decide (j = i)) as [->|Hne]; [| by rewrite fn_lookup_insert_ne].
    rewrite fn_lookup_insert, Hq, Hw. naive_solver.
  - intros j. destruct (decide (j = i)) as [->|Hne]; [by rewrite fn_lookup_insert |]. rewrite fn_lookup_insert_ne by done. apply Hwok.
Qed.

(** What serving a request makes of its buffer. *)
Definition done_buf (disk : Z -> block) (b : buf) : buf :=
  bset_flags (Z.land (Z.lor (b_flags b) B_VALID) (Z.lnot B_DIRTY)) (if dirty b then b else bset_data (disk (b_blockno b)) b).

Definition done_disk (disk : Z -> block) (b : buf) : Z -> block :=
  if dirty b then <[b_blockno b := b_data b]> disk else disk.

Lemma node_at m i b : bc_buf m !! i = Some b -> node i m = Ok (b, m).
Proof. unfold node. by intros ->. Qed.

Lemma upd_at m i b f : bc_buf m !! i = Some b -> upd i f m = Ok (tt, mkBio (<[i := f b]> (bc_buf m)) (bc_disk m) (bc_writes m)).
Proof. intros Hb. unfold upd. by rewrite Hb, (list_alter_lookup_insert _ _ _ _ Hb). Qed.

Lemma memide_spec m i b : bc_buf m !! i = Some b -> request_ok b ->
  exists m', iderw FSSIZE i m = Ok (tt, m') /\ bc_buf m' = <[i := done_buf (bc_disk m) b]> (bc_buf m) /\ bc_disk m' = done_disk (bc_disk m) b.
Proof.
  intros Hb (Hl & Hf & Hd & Hn). assert (Hlt := lookup_lt_Some _ _ _ Hb).
  unfold iderw, holdingsleep, bind. rewrite !(node_at _ _ _ Hb). cbn [rbind fst snd ret]. rewrite Hl. cbn [negb]. rewrite (node_at _ _ _ Hb). cbn [rbind fst snd].
  rewrite (proj2 (Z.eqb_neq _ _) Hf), Hd, (proj2 (Z.leb_gt _ _)) by lia. change (negb (1 =? 1)) with false. cbv iota.
  unfold done_buf, done_disk, dirty. destruct (Z.eqb_spec (Z.land (b_flags b) B_DIRTY) 0) as [H0|H0]; cbn [negb].
  - cbn [get rbind fst snd]. rewrite (upd_at _ _ _ _ Hb). cbn [rbind fst snd].
    rewrite (node_at _ _ (bset_data (bc_disk m (b_blockno b)) b)) by (cbn; by apply list_lookup_insert_eq). cbn [rbind fst snd].
    rewrite (upd_at _ _ (bset_data (bc_disk m (b_blockno b)) b)) by (cbn; by apply list_lookup_insert_eq).
    eexists. split; [reflexivity |]. cbn [bc_buf bc_disk]. split; [| reflexivity]. rewrite list_insert_insert_eq.
    f_equal. by rewrite flags_order, flags_clean.
  - rewrite (upd_at _ _ _ _ Hb). cbn [rbind fst snd bc_buf bc_disk bc_writes].
    rewrite (node_at _ _ (bset_flags (Z.land (b_flags b) (Z.lnot B_DIRTY)) b)) by (cbn; by apply list_lookup_insert_eq). cbn [rbind fst snd].
    rewrite (upd_at _ _ (bset_flags (Z.land (b_flags b) (Z.lnot B_DIRTY)) b)) by (cbn; by apply list_lookup_insert_eq).
    eexists. split; [reflexivity |]. cbn [bc_buf bc_disk]. split; [| reflexivity]. rewrite list_insert_insert_eq.
    f_equal. by rewrite flags_order.
Qed.

(** ** The interrupt *)

Lemma bupd_at s i b f : id_buf s !! i = Some b -> bupd i f s = Ok (tt, set_bufs (<[i := f b]> (id_buf s)) s).
Proof. intros Hb. unfold bupd. by rewrite Hb, (list_alter_lookup_insert _ _ _ _ Hb). Qed.

Lemma bnode_at s i b : id_buf s !! i = Some b -> bnode i s = Ok (b, s).
Proof. unfold bnode. by intros ->. Qed.

Lemma bind_step {S A B} (c : ST S A) (k : A -> ST S B) s a s' : c s = Ok (a, s') -> bind c k s = k a s'.
Proof. unfold bind. by intros ->. Qed.

Lemma idewait_ready s checkerr : status (id_ct s) = IDE_DRDY -> idewait checkerr s = Ok (0, s).
Proof. intros H. unfold idewait, bind, get. cbn [rbind fst snd]. rewrite H. by destruct checkerr. Qed.

(** The state after the first request has been taken off the queue and
    finished, before the next one is started. *)
Definition taken (s : ide) (i : nat) (b : buf) (disk : Z -> block) : ide :=
  set_wait i (Some Woken) (set_bufs (<[i := done_buf disk b]> (id_buf s))
    (set_queue (id_qnext s i) (set_ct (mkController (ct_port (id_ct s)) Ready false (ct_disk (id_ct s))) s))).

Lemma complete_spec s i b :
  id_buf s !! i = Some b -> id_wait s i = Some Asleep ->
  (bupd i (fun b => bset_flags (Z.lor (b_flags b) B_VALID) b) ;;;
   bupd i (fun b => bset_flags (Z.land (b_flags b) (Z.lnot B_DIRTY)) b) ;;;
   wakeup_buf i ;;;
   let* q := get id_queue in
   match q with Some _ => idestart q | None => ret tt end) s =
  (match id_queue s with Some j => idestart (Some j) | None => ret tt end)
    (set_wait i (Some Woken) (set_bufs (<[i := bset_flags (Z.land (Z.lor (b_flags b) B_VALID) (Z.lnot B_DIRTY)) b]> (id_buf s)) s)).
Proof.
  intros Hb Hw. assert (Hlt := lookup_lt_Some _ _ _ Hb). unfold bind at 1. rewrite (bupd_at _ _ _ _ Hb). cbn [rbind fst snd].
  unfold bind at 1. erewrite bupd_at by (cbn; by apply list_lookup_insert_eq). cbn [rbind fst snd].
  unfold bind at 1, wakeup_buf, modify. cbn [rbind fst snd set_bufs id_wait id_buf]. rewrite Hw. unfold bind at 1, get. cbn [rbind fst snd].
  unfold set_wait, set_bufs. cbn [id_buf id_qnext id_queue id_havedisk1 id_ct id_wait]. rewrite list_insert_insert_eq.
  by destruct (id_queue s).
Qed.

Lemma ideintr_spec s i b disk :
  id_queue s = Some i -> id_buf s !! i = Some b -> id_wait s i = Some Asleep -> working b disk (id_ct s) -> ct_irq (id_ct s) = true ->
  ideintr s = (match id_qnext s i with Some j => idestart (Some j) | None => ret tt end) (taken s i b disk) /\
  ct_disk (id_ct s) 1 = done_disk disk b.
Proof.
  intros Hq Hb Hw Hwork Hirq. assert (Hlt := lookup_lt_Some _ _ _ Hb). unfold ideintr, bind at 1, modify. cbn [rbind fst snd].
  unfold bind at 1, get. cbn [rbind fst snd id_queue set_ct]. rewrite Hq. unfold bind at 1 2. cbn [rbind fst snd].
  unfold bind at 1. rewrite (bnode_at _ _ b) by exact Hb. cbn [rbind fst snd]. unfold working, done_disk, dirty in *.
  destruct (Z.land (b_flags b) B_DIRTY =? 0) eqn:Hd; cbn [negb] in *;
    (destruct Hwork as [(Hp & Hi & Hdisk)|(Hp & Hi & Hdisk)]; [congruence |]); (split; [| exact Hdisk]).
  - set (s1 := set_queue _ _). set (s2 := set_bufs (<[i := bset_data (disk (b_blockno b)) b]> (id_buf s)) (set_ct (set_phase Ready (id_ct s1)) s1)).
    rewrite (bind_step _ _ s1 tt s2).
    + rewrite (complete_spec _ i (bset_data (disk (b_blockno b)) b)); [| cbn; by apply list_lookup_insert_eq | exact Hw].
      unfold taken, done_buf, dirty. rewrite Hd. cbn [negb].
      unfold s2, s1, set_wait, set_bufs, set_queue, set_ct, set_phase, set_irq. cbn. by rewrite list_insert_insert_eq.
    + rewrite (bind_step _ _ s1 0 s1) by (apply idewait_ready; unfold status; cbn; by rewrite Hp).
      change (0 <=? 0) with true. cbv iota. unfold insl, in_data. cbn [s1 set_queue set_ct set_irq id_ct ct_phase]. rewrite Hp.
      by rewrite (bupd_at _ _ b) by exact Hb.
  - unfold bind at 1. cbn [ret rbind fst snd]. rewrite (complete_spec _ i b); [| exact Hb | exact Hw].
    unfold taken, done_buf, dirty. rewrite Hd. cbn [negb]. unfold set_wait, set_bufs, set_queue, set_ct, set_phase, set_irq. cbn. by rewrite Hp.
Qed.

(** The rest of the queue, before its first request is started. *)
Lemma taken_rep s a i q b m' c :
  rep s a -> a_queue a = i :: q -> id_buf s !! i = Some b -> request_ok b ->
  bc_buf m' = <[i := done_buf (bc_disk (a_bio a)) b]> (bc_buf (a_bio a)) ->
  device_ok (set_ct c (taken s i b (bc_disk (a_bio a)))) q (bc_disk m') -> rep (set_ct c (taken s i b (bc_disk (a_bio a)))) (mkServed m' q).
Proof.
  intros [Hbufs Hlinks Hnd Hq Hreq Hwok Hdev Hhave] He Hb Hok Hm Hdev'. rewrite He in *. assert (Hlt := lookup_lt_Some _ _ _ Hb).
  apply NoDup_cons in Hnd as [Hi Hnd]. destruct Hlinks as [Hhead Hlinks]. split; cbn; try assumption.
  - by rewrite Hm, Hbufs.
  - intros j. destruct (decide (j = i)) as [->|Hne]; [rewrite fn_lookup_insert; naive_solver |].
    rewrite fn_lookup_insert_ne, <- Hq by done. set_solver.
  - intros j Hj. rewrite list_lookup_insert_ne by congruence. apply Hreq. by right.
  - intros j. destruct (decide (j = i)) as [->|Hne].
    + intros _. eexists. split; [by apply list_lookup_insert_eq |]. apply served_flags.
    + rewrite fn_lookup_insert_ne by done. intros Hj. destruct (Hwok j Hj) as (x & Hx & Hf). exists x. by rewrite list_lookup_insert_ne.
Qed.

Lemma interrupt_rep s a : rep s a -> enabled Interrupt s -> exists s' i q m',
  exec Interrupt s = Ok (tt, s') /\ a_queue a = i :: q /\ iderw FSSIZE i (a_bio a) = Ok (tt, m') /\ rep s' (mkServed m' q) /\ id_wait s' i = Some Woken.
Proof.
  intros Hrep Hirq. cbn in Hirq. pose proof Hrep as [Hbufs Hlinks Hnd Hq Hreq Hwok Hdev Hhave].
  destruct (a_queue a) as [|i q] eqn:He; [destruct Hdev as (_ & Hno & _); congruence |]. destruct Hdev as (b & Hb & Hwork).
  destruct (Hreq i ltac:(by left)) as (b' & Hb' & Hok). assert (b' = b) as -> by congruence. destruct Hlinks as [Hhead Hlinks].
  destruct (ideintr_spec s i b _ Hhead Hb (proj1 (Hq i) ltac:(by left)) Hwork Hirq) as [Hrun Hdisk].
  destruct (memide_spec (a_bio a) i b) as (m' & Hm & Hmb & Hmd); [by rewrite Hbufs | exact Hok |].
  set (t := taken s i b (bc_disk (a_bio a))). destruct q as [|j q].
  - cbn in Hlinks. rewrite Hlinks in Hrun. exists t, i, [], m'. split_and!; [exact Hrun | done | exact Hm | | apply fn_lookup_insert].
    change t with (set_ct (id_ct t) t). eapply taken_rep; try eassumption. split_and!; [done | done |]. cbn. by rewrite Hmd.
  - destruct Hlinks as [Hj Hlinks]. rewrite Hj in Hrun. destruct (Hreq j ltac:(set_solver)) as (bj & Hbj & Hokj).
    apply NoDup_cons in Hnd as [Hij _]. pose proof Hokj as (_ & _ & Hdj & Hnj).
    assert (Hbj' : id_buf t !! j = Some bj) by (cbn; rewrite list_lookup_insert_ne; [done | set_solver]).
    destruct (idestart_spec t j bj Hbj' Hdj Hnj eq_refl) as (c & Hs & Hc1 & Hc2 & Hc3).
    exists (set_ct c t), i, (j :: q), m'. split_and!; [by rewrite <- Hs | done | exact Hm | | apply fn_lookup_insert].
    eapply taken_rep; try eassumption. exists bj. split; [exact Hbj' |].
    apply working_start; cbn; [done | by rewrite Hc2 | rewrite Hc3; cbn; by rewrite Hmd].
Qed.

(** ** The theorem *)

Inductive reached (s0 : ide) : list event -> ide -> Prop :=
| rd_start : reached s0 [] s0
| rd_step evs e s s' : reached s0 evs s -> enabled e s -> exec e s = Ok (tt, s') -> reached s0 (evs ++ [e]) s'.

Inductive spec_run (a0 : served) : list event -> served -> Prop :=
| sr_start : spec_run a0 [] a0
| sr_step evs e a a' : spec_run a0 evs a -> spec_step e a a' -> spec_run a0 (evs ++ [e]) a'.

(** The driver after its initialisation, with drive 1 present. *)
Definition quiet_driver (bufs : list buf) (port : Z -> Z) (disk : Z -> Z -> block) : ide :=
  mkIde bufs (fun _ => None) None true (mkController port Ready false disk) (fun _ => None).

Lemma quiet_rep bufs port disk : rep (quiet_driver bufs port disk) (mkServed (mkBio bufs (disk 1) []) []).
Proof. split; cbn; try done. - apply NoDup_nil_2. - intros i. split; [set_solver | done]. - set_solver. Qed.

(** Whatever is enabled runs, and the memory disk follows. *)
Lemma step_rep e s a : rep s a -> enabled e s -> exists s' a', exec e s = Ok (tt, s') /\ spec_step e a a' /\ rep s' a'.
Proof.
  intros Hr He. destruct e as [i b|i| | |i].
  - destruct (client_rep s a i b Hr He) as (s' & Hx & Hr'). eexists s', _. split_and!; [exact Hx | constructor | exact Hr'].
  - destruct (request_rep s a i Hr He) as (s' & Hx & Hr'). eexists s', _. split_and!; [exact Hx | constructor | exact Hr'].
  - destruct (finish_rep s a Hr He) as (s' & Hx & Hr'). eexists s', _. split_and!; [exact Hx | constructor | exact Hr'].
  - destruct (interrupt_rep s a Hr He) as (s' & i & q & m' & Hx & Hq & Hm & Hr' & _). eexists s', (mkServed m' q).
    split_and!; [exact Hx | | exact Hr']. destruct a as [m q0]. cbn in Hq, Hm. rewrite Hq. by constructor.
  - destruct (resume_rep s a i Hr He) as (s' & Hx & Hr' & _). eexists s', _. split_and!; [exact Hx | constructor | exact Hr'].
Qed.

Lemma reached_rep s0 a0 evs s : rep s0 a0 -> reached s0 evs s -> exists a, spec_run a0 evs a /\ rep s a.
Proof.
  intros H0. induction 1 as [|evs e s s' _ (a & Ha & Hr) He Hx]; [exists a0; split; [constructor | exact H0] |].
  destruct (step_rep e s a Hr He) as (s2 & a' & Hx2 & Hst & Hr'). assert (s2 = s') as -> by congruence.
  exists a'. split; [by econstructor | exact Hr'].
Qed.

Lemma reached_trans s0 e1 s1 e2 s2 : reached s0 e1 s1 -> reached s1 e2 s2 -> reached s0 (e1 ++ e2) s2.
Proof.
  intros H1. induction 1 as [|evs e s s' _ IH He Hx]; [by rewrite app_nil_r |]. rewrite app_assoc. by econstructor.
Qed.

(** The controller and the driver: one request is served. *)
Lemma turn s a i q : rep s a -> a_queue a = i :: q ->
  exists evs s' m', (length evs <= 2)%nat /\ Forall (fun e => e = Finish \/ e = Interrupt) evs /\ reached s evs s' /\
    rep s' (mkServed m' q) /\ id_wait s' i = Some Woken.
Proof.
  intros Hr Hq. assert (Hint : forall t, rep t a -> ct_irq (id_ct t) = true -> exists t' m', exec Interrupt t = Ok (tt, t') /\
    rep t' (mkServed m' q) /\ id_wait t' i = Some Woken).
  { intros t Ht Hirq. destruct (interrupt_rep t a Ht Hirq) as (t' & i' & q' & m' & Hx & Hq' & _ & Hr' & Hw).
    rewrite Hq in Hq'. injection Hq' as <- <-. by exists t', m'. }
  pose proof (r_device _ _ Hr) as Hdev. rewrite Hq in Hdev. destruct Hdev as (b & Hb & Hwork).
  assert (ct_irq (id_ct s) = true \/ busy (ct_phase (id_ct s)) /\ ct_irq (finish (id_ct s)) = true) as [Hirq|[Hbusy Hirq]].
  { unfold working in Hwork. destruct (dirty b); destruct Hwork as [(Hp & Hi & _)|(Hp & Hi & _)]; auto; right; unfold finish; by rewrite Hp. }
  - destruct (Hint s Hr Hirq) as (t & m' & Hx & Hr' & Hw). exists [Interrupt], t, m'. split_and!; try done; [simpl; lia | by repeat constructor; right |].
    apply (rd_step s [] Interrupt s t); [constructor | exact Hirq | exact Hx].
  - destruct (finish_rep s a Hr Hbusy) as (t & Hx & Hr'). assert (Ht : t = set_ct (finish (id_ct s)) s) by (injection Hx as <-; reflexivity).
    destruct (Hint t Hr') as (t' & m' & Hx' & Hr2 & Hw); [by rewrite Ht |]. exists [Finish; Interrupt], t', m'.
    split_and!; [simpl; lia | constructor; [by left | constructor; [by right | constructor]] | | done | done].
    apply (rd_step s [Finish] Interrupt t t'); [apply (rd_step s [] Finish s t); [constructor | exact Hbusy | exact Hx] | by rewrite Ht | exact Hx'].
Qed.

(** Every request is finished after at most two steps of the controller and
    the driver for each request before it and itself. *)
Lemma served_soon : forall n s a i, rep s a -> a_queue a !! n = Some i ->
  exists evs s', (length evs <= 2 * S n)%nat /\ Forall (fun e => e = Finish \/ e = Interrupt) evs /\ reached s evs s' /\ id_wait s' i = Some Woken.
Proof.
  induction n as [|n IH]; intros s a i Hr Hi; destruct (a_queue a) as [|k q] eqn:Hq; try done; cbn in Hi.
  - injection Hi as ->. destruct (turn s a i q Hr Hq) as (evs & s' & m' & Hl & Hf & Hre & _ & Hw). exists evs, s'. by split_and!; [lia | ..].
  - destruct (turn s a k q Hr Hq) as (evs & s' & m' & Hl & Hf & Hre & Hr' & _).
    destruct (IH s' (mkServed m' q) i Hr' Hi) as (evs2 & s2 & Hl2 & Hf2 & Hre2 & Hw).
    exists (evs ++ evs2), s2. split_and!; [rewrite length_app; lia | by apply Forall_app | by eapply reached_trans | exact Hw].
Qed.

(** C13: the driver with its queue and interrupts implements the memory disk
    of memide.c. For any number of processes and any order of requests,
    completions and interrupts: no enabled event panics, spins or leaves an
    array; the buffers are those of a machine that serves one request after
    the other, in the order in which they were made, with the routine of
    memide.c, and so is the disk when no request is left; a process sleeps in
    [iderw] only while its request is in the queue, and when it has been woken
    it returns; and a request that is the [n]th of the queue is finished
    after at most [2n] steps of the controller and the driver. *)
Theorem ide_refines_memide bufs port disk evs s :
  reached (quiet_driver bufs port disk) evs s ->
  exists a, spec_run (mkServed (mkBio bufs (disk 1) []) []) evs a /\
    id_buf s = bc_buf (a_bio a) /\ (a_queue a = [] -> ct_disk (id_ct s) 1 = bc_disk (a_bio a)) /\
    (forall e, enabled e s -> exists s', exec e s = Ok (tt, s')) /\
    (forall i, id_wait s i = Some Woken -> exists s', exec (Resume i) s = Ok (tt, s') /\ id_wait s' i = None) /\
    (forall i, id_wait s i = Some Asleep -> exists n evs' s', a_queue a !! n = Some i /\ (length evs' <= 2 * S n)%nat /\
      Forall (fun e => e = Finish \/ e = Interrupt) evs' /\ reached s evs' s' /\ id_wait s' i = Some Woken).
Proof.
  intros Hre. destruct (reached_rep _ _ evs s (quiet_rep bufs port disk) Hre) as (a & Hrun & Hr). exists a. split_and!.
  - exact Hrun.
  - by rewrite (r_bufs _ _ Hr).
  - intros Hq. pose proof (r_device _ _ Hr) as Hd. rewrite Hq in Hd. apply Hd.
  - intros e He. destruct (step_rep e s a Hr He) as (s' & _ & Hx & _). by exists s'.
  - intros i Hi. destruct (resume_rep s a i Hr Hi) as (s' & Hx & _ & Hw). by exists s'.
  - intros i Hi. apply (r_queued _ _ Hr) in Hi. apply list_elem_of_lookup in Hi as [n Hn].
    destruct (served_soon n s a i Hr Hn) as (evs' & s' & Hl & Hf & Hre' & Hw). by exists n, evs', s'.
Qed.

(** ** Two processes *)

(** One reads block 5, the other writes it. *)
Definition demo_bufs : list buf := [mkBuf 0 1 5 true 1 0 0 [1]; mkBuf (Z.lor B_VALID B_DIRTY) 1 5 true 1 0 0 [2]].
Definition demo_driver : ide := quiet_driver demo_bufs (fun _ => 0) (fun _ _ => [3]).

(** Runs that can be evaluated. *)
Definition request_okb (b : buf) : bool :=
  b_locked b && negb (Z.land (b_flags b) (Z.lor B_VALID B_DIRTY) =? B_VALID) && (b_dev b =? 1) && (0 <=? b_blockno b) && (b_blockno b <? FSSIZE).

Definition enabledb (e : event) (s : ide) : bool :=
  match e with
  | Client _ _ => false
  | Request i => match id_wait s i, id_buf s !! i with None, Some b => request_okb b | _, _ => false end
  | Finish => match ct_phase (id_ct s) with Reading _ _ | Writing _ _ _ => true | _ => false end
  | Interrupt => ct_irq (id_ct s)
  | Resume i => match id_wait s i with Some Woken => true | _ => false end
  end.

Fixpoint drive (evs : list event) (s : ide) : option ide :=
  match evs with
  | [] => Some s
  | e :: evs' => if enabledb e s then match exec e s with Ok (_, s') => drive evs' s' | _ => None end else None
  end.

Lemma enabledb_enabled e s : enabledb e s = true -> enabled e s.
Proof.
  destruct e as [i b|i| | |i]; cbn; [done | | | done |].
  - destruct (id_wait s i), (id_buf s !! i) as [b|]; try done. unfold request_okb. intros H. split; [done |]. exists b.
    repeat (apply andb_prop in H as [H ?]). split; [done |]. repeat split; lia || (destruct (Z.eqb_spec (Z.land (b_flags b) (Z.lor B_VALID B_DIRTY)) B_VALID); done) || done.
  - by destruct (ct_phase (id_ct s)).
  - by destruct (id_wait s i) as [[]|].
Qed.

Lemma drive_reached : forall evs s s', drive evs s = Some s' -> reached s evs s'.
Proof.
  induction evs as [|e evs IH]; intros s s' H; [injection H as ->; constructor |]. cbn [drive] in H.
  destruct (enabledb e s) eqn:He; [| done]. destruct (exec e s) as [[[] s1]| | |] eqn:Hx; try done.
  apply (reached_trans _ [e] s1 evs); [| by apply IH]. apply (rd_step s [] e s s1); [constructor | by apply enabledb_enabled | exact Hx].
Qed.

Lemma ide_refines_memide_witness :
  exists s a, reached demo_driver [Request 0; Request 1; Finish; Interrupt] s /\
    spec_run (mkServed (mkBio demo_bufs (fun _ => [3]) []) []) [Request 0; Request 1; Finish; Interrupt] a /\
    id_buf s = bc_buf (a_bio a) /\ (b_data <$> id_buf s) = [[3]; [2]] /\ id_wait s 0%nat = Some Woken /\ id_wait s 1%nat = Some Asleep.
Proof.
  assert (Hv : (fun s => (b_data <$> id_buf s, id_wait s 0%nat, id_wait s 1%nat)) <$> drive [Request 0; Request 1; Finish; Interrupt] demo_driver
    = Some ([[3]; [2]], Some Woken, Some Asleep)) by (vm_compute; reflexivity).
  destruct (drive [Request 0; Request 1; Finish; Interrupt] demo_driver) as [s|] eqn:Hs; [| discriminate Hv].
  apply drive_reached in Hs. destruct (ide_refines_memide demo_bufs (fun _ => 0) (fun _ _ => [3]) _ s Hs) as (a & Hrun & Hb & _).
  injection Hv as Hd H0 H1. by exists s, a.
Defined.

(** A read that fails: the error is seen, and the buffer is declared valid
    with the data it had before. *)
Example failed_read_is_valid :
  exists s, exec Interrupt (mkIde [mkBuf 0 1 5 true 1 0 0 [1]] (fun _ => None) (Some 0%nat) true
      (mkController (fun _ => 0) Failed true (fun _ _ => [3])) (fun _ => Some Asleep)) = Ok (tt, s) /\
    id_buf s = [mkBuf B_VALID 1 5 true 1 0 0 [1]].
Proof. eexists. split; reflexivity. Qed.
