(* ===== verification/Log.v ===== *)
(** * The write-ahead log (log.c)

    System calls that change the file system run between [begin_op] and
    [end_op]; the blocks they change stay in the cache, pinned by
    [log_write], until the last of them ends and [commit] copies the blocks to
    the log, writes the header (the commit point), installs the blocks at home
    and erases the header. [recover_from_log] runs at boot. The model is
    written against the cache interface of Cache.v. A disk block write is
    atomic; a crash keeps the disk as some prefix of the writes left it. *)

From stdpp Require Import gmap functions.
From S2P Require Import Prelude Params Bytes Cache Bio.

Record logheader := mkHeader { lh_n : Z; lh_block : list Z }.

Record log (S : Type) := mkLog {
  l_cache : S;
  l_start : Z;
  l_size : Z;
  l_outstanding : Z;
  l_committing : Z;
  l_dev : Z;
  l_lh : logheader
}.
Arguments mkLog {S}.
Arguments l_cache {S}.
Arguments l_start {S}.
Arguments l_size {S}.
Arguments l_outstanding {S}.
Arguments l_committing {S}.
Arguments l_dev {S}.
Arguments l_lh {S}.

Section log.
Context {S : Type} `{CacheOps S}.

Definition set_cache (c : S) (l : log S) : log S :=
  mkLog c (l_start l) (l_size l) (l_outstanding l) (l_committing l) (l_dev l) (l_lh l).
Definition set_outstanding (v : Z) (l : log S) : log S :=
  mkLog (l_cache l) (l_start l) (l_size l) v (l_committing l) (l_dev l) (l_lh l).
Definition set_committing (v : Z) (l : log S) : log S :=
  mkLog (l_cache l) (l_start l) (l_size l) (l_outstanding l) v (l_dev l) (l_lh l).
Definition set_lh (v : logheader) (l : log S) : log S :=
  mkLog (l_cache l) (l_start l) (l_size l) (l_outstanding l) (l_committing l) (l_dev l) v.

(** Calling the cache. *)
Definition io {A} (c : ST S A) : ST (log S) A := lift_st l_cache set_cache c.

(** [log.lh.block[i]] *)
Definition lh_at (i : nat) : ST (log S) Z := fun l =>
  let! b := arr_get (lh_block (l_lh l)) (Z.of_nat i) in Ok (b, l).

Fixpoint install_loop (tail count : nat) : ST (log S) unit :=
  match count with
  | O => ret tt
  | Datatypes.S count' =>
      let* dev := get l_dev in
      let* start := get l_start in
      let* lbuf := io (c_bread dev (u32 (start + Z.of_nat tail + 1))) in
      let* home := lh_at tail in
      let* dbuf := io (c_bread dev (u32 home)) in
      let* d := io (c_bdata lbuf) in
      io (c_bdata_set dbuf d) ;;;
      io (c_bwrite dbuf) ;;;
      io (c_brelse lbuf) ;;;
      io (c_brelse dbuf) ;;;
      install_loop (Datatypes.S tail) count'
  end.

Definition install_trans : ST (log S) unit :=
  let* n := get (fun l => lh_n (l_lh l)) in
  install_loop 0 (Z.to_nat n).

(** Offset of [block[i]] in the header block. *)
Definition lh_off (i : nat) : nat := (4 + 4 * i)%nat.

Fixpoint copy_in (d : block) (i count : nat) (blocks : list Z) : res (list Z) :=
  match count with
  | O => Ok blocks
  | Datatypes.S count' =>
      let! blocks := arr_set blocks (Z.of_nat i) (i32 (get32 d (lh_off i))) in
      copy_in d (Datatypes.S i) count' blocks
  end.

Definition read_head : ST (log S) unit :=
  let* dev := get l_dev in
  let* start := get l_start in
  let* b := io (c_bread dev (u32 start)) in
  let* d := io (c_bdata b) in
  let n := i32 (get32 d 0) in
  (fun l =>
     let! blocks := copy_in d 0 (Z.to_nat n) (lh_block (l_lh l)) in
     Ok (tt, set_lh (mkHeader n blocks) l)) ;;;
  io (c_brelse b).

Fixpoint copy_out (blocks : list Z) (i count : nat) (d : block) : res block :=
  match count with
  | O => Ok d
  | Datatypes.S count' =>
      let! b := arr_get blocks (Z.of_nat i) in
      copy_out blocks (Datatypes.S i) count' (put32 d (lh_off i) b)
  end.

Definition write_head : ST (log S) unit :=
  let* dev := get l_dev in
  let* start := get l_start in
  let* b := io (c_bread dev (u32 start)) in
  let* d := io (c_bdata b) in
  let* lh := get l_lh in
  let* d := lift (copy_out (lh_block lh) 0 (Z.to_nat (lh_n lh)) (put32 d 0 (lh_n lh))) in
  io (c_bdata_set b d) ;;;
  io (c_bwrite b) ;;;
  io (c_brelse b).

Definition clear_lh : ST (log S) unit :=
  modify (fun l => set_lh (mkHeader 0 (lh_block (l_lh l))) l).

Definition recover_from_log : ST (log S) unit :=
  read_head ;;;
  install_trans ;;;
  clear_lh ;;;
  write_head.

(** [initlog]: the header fits into a block, [sb] is what [readsb] reads. *)
Definition initlog (dev sb_logstart sb_nlog : Z) : ST (log S) unit :=
  modify (fun l => mkLog (l_cache l) sb_logstart sb_nlog (l_outstanding l) (l_committing l) dev (l_lh l)) ;;;
  recover_from_log.

(** One round of the loop of [begin_op]: [false] when the caller goes to sleep. *)
Definition begin_op_try : ST (log S) bool :=
  let* l := get id in
  if negb (l_committing l =? 0) then ret false
  else if LOGSIZE <? lh_n (l_lh l) + (l_outstanding l + 1) * MAXOPBLOCKS then ret false
  else modify (set_outstanding (l_outstanding l + 1)) ;;; ret true.

(** The loop as a single kernel thread runs it: nothing wakes it up. *)
Definition begin_op : ST (log S) unit :=
  let* ok := begin_op_try in if ok then ret tt else fun _ => Hang.

Fixpoint write_log_loop (tail count : nat) : ST (log S) unit :=
  match count with
  | O => ret tt
  | Datatypes.S count' =>
      let* dev := get l_dev in
      let* start := get l_start in
      let* to := io (c_bread dev (u32 (start + Z.of_nat tail + 1))) in
      let* home := lh_at tail in
      let* from := io (c_bread dev (u32 home)) in
      let* d := io (c_bdata from) in
      io (c_bdata_set to d) ;;;
      io (c_bwrite to) ;;;
      io (c_brelse from) ;;;
      io (c_brelse to) ;;;
      write_log_loop (Datatypes.S tail) count'
  end.

Definition write_log : ST (log S) unit :=
  let* n := get (fun l => lh_n (l_lh l)) in
  write_log_loop 0 (Z.to_nat n).

Definition commit : ST (log S) unit :=
  let* n := get (fun l => lh_n (l_lh l)) in
  if 0 <? n then
    write_log ;;;
    write_head ;;;
    install_trans ;;;
    clear_lh ;;;
    write_head
  else ret tt.

Definition end_op : ST (log S) unit :=
  let* l := get id in
  modify (set_outstanding (l_outstanding l - 1)) ;;;
  if negb (l_committing l =? 0) then panic "log.committing"
  else if l_outstanding l - 1 =? 0 then
    modify (set_committing 1) ;;;
    commit ;;;
    modify (set_committing 0)
  else ret tt.

Fixpoint absorb (bn : Z) (blocks : list Z) (i count : nat) : res nat :=
  match count with
  | O => Ok i
  | Datatypes.S count' =>
      let! b := arr_get blocks (Z.of_nat i) in
      if u32 b =? bn then Ok i else absorb bn blocks (Datatypes.S i) count'
  end.

(** The part of [log_write] after its checks. *)
Definition log_record (b : nat) : ST (log S) unit :=
  let* l := get id in
  let n := lh_n (l_lh l) in
  let* bn := io (c_blockno b) in
  let* i := lift (absorb bn (lh_block (l_lh l)) 0 (Z.to_nat n)) in
  let* blocks := lift (arr_set (lh_block (l_lh l)) (Z.of_nat i) (i32 bn)) in
  modify (set_lh (mkHeader (if Z.of_nat i =? n then n + 1 else n) blocks)) ;;;
  io (c_set_dirty b).

Definition log_write (b : nat) : ST (log S) unit :=
  let* l := get id in
  let n := lh_n (l_lh l) in
  if (LOGSIZE <=? n) || (l_size l - 1 <=? n) then panic "too big a transaction"
  else if l_outstanding l <? 1 then panic "log_write outside of trans"
  else log_record b.

(** The use of the log that the comment on [log_write] describes. *)
Definition update_block (bn : Z) (f : block -> block) : ST (log S) unit :=
  let* bp := io (c_bread 1 bn) in
  let* d := io (c_bdata bp) in
  io (c_bdata_set bp (f d)) ;;;
  log_write bp ;;;
  io (c_brelse bp).

Fixpoint update_blocks (us : list (Z * (block -> block))) : ST (log S) unit :=
  match us with
  | [] => ret tt
  | (bn, f) :: us' => update_block bn f ;;; update_blocks us'
  end.

Definition transaction (us : list (Z * (block -> block))) : ST (log S) unit :=
  begin_op ;;; update_blocks us ;;; end_op.
End log.

(** ** Disks and headers *)

(** The effect of a sequence of block writes. *)
Definition apply_writes (ws : list (Z * block)) (d : Z -> block) : Z -> block :=
  foldl (fun d x => <[fst x := snd x]> d) d ws.

(** What the header block of the disk says. *)
Definition hdr_n (start : Z) (d : Z -> block) : Z := i32 (get32 (d start) 0).
Definition hdr_blocks (start : Z) (d : Z -> block) : list Z :=
  (fun i => i32 (get32 (d start) (lh_off i))) <$> seq 0 (Z.to_nat (hdr_n start d)).

(** The file system on the disk: a committed block counts as its log copy. *)
Definition logical (start : Z) (d : Z -> block) (bn : Z) : block :=
  match list_find (fun b => b = bn) (hdr_blocks start d) with
  | Some (i, _) => d (start + Z.of_nat i + 1)
  | None => d bn
  end.

(** Blocks outside the log area. *)
Definition home (disksize start size bn : Z) : Prop :=
  on_disk disksize bn /\ ~ (start <= bn < start + size).

Definition header_ok (disksize start size : Z) (d : Z -> block) : Prop :=
  0 <= hdr_n start d <= LOGSIZE /\ hdr_n start d < size /\
  NoDup (hdr_blocks start d) /\ Forall (home disksize start size) (hdr_blocks start d).

Lemma apply_writes_app ws ws' d : apply_writes (ws ++ ws') d = apply_writes ws' (apply_writes ws d).
Proof. unfold apply_writes. by rewrite foldl_app. Qed.

Lemma apply_writes_other ws d bn : bn ∉ ws.*1 -> apply_writes ws d bn = d bn.
Proof.
  revert d. induction ws as [|[b x] ws IH]; intros d Hn; [done |].
  rewrite fmap_cons in Hn. apply not_elem_of_cons in Hn as [Hb Hn]. simpl in Hb |- *.
  rewrite IH by done. by rewrite fn_lookup_insert_ne.
Qed.

Lemma apply_writes_lookup ws d bn i x :
  NoDup ws.*1 -> ws !! i = Some (bn, x) -> apply_writes ws d bn = x.
Proof.
  revert d i. induction ws as [|[b y] ws IH]; intros d i Hnd Hi; [done |].
  rewrite fmap_cons in Hnd. apply NoDup_cons in Hnd as [Hb Hnd]. destruct i as [|i]; simpl in Hi |- *.
  - simplify_eq. rewrite apply_writes_other by done. apply fn_lookup_insert.
  - eauto.
Qed.

(** The header only depends on the header block. *)
Lemma hdr_ext start d d' : d start = d' start ->
  hdr_n start d = hdr_n start d' /\ hdr_blocks start d = hdr_blocks start d'.
Proof. intros He. unfold hdr_blocks, hdr_n. by rewrite He. Qed.

Lemma header_ok_ext disksize start size d d' :
  d start = d' start -> header_ok disksize start size d -> header_ok disksize start size d'.
Proof. intros He. unfold header_ok. by destruct (hdr_ext _ _ _ He) as [-> ->]. Qed.

Lemma logical_clean start d bn : hdr_n start d = 0 -> logical start d bn = d bn.
Proof. intros Hn. unfold logical, hdr_blocks. by rewrite Hn. Qed.

Lemma logical_in start d i bn :
  NoDup (hdr_blocks start d) -> hdr_blocks start d !! i = Some bn ->
  logical start d bn = d (start + Z.of_nat i + 1).
Proof.
  intros Hnd Hi. unfold logical. rewrite (proj2 (list_find_Some _ _ i bn)); [done |].
  split; [done |]. split; [done |]. intros j y Hj Hlt ->.
  pose proof (NoDup_lookup _ _ _ _ Hnd Hi Hj). lia.
Qed.

Lemma logical_out start d bn : bn ∉ hdr_blocks start d -> logical start d bn = d bn.
Proof.
  intros Hn. unfold logical. rewrite (proj2 (list_find_None _ _)); [done |].
  apply Forall_forall. intros x Hx ->. done.
Qed.

Lemma hdr_blocks_lookup start d i bn :
  hdr_blocks start d !! i = Some bn -> (Z.of_nat i < hdr_n start d).
Proof.
  intros Hi. apply lookup_lt_Some in Hi. unfold hdr_blocks in Hi.
  rewrite length_fmap, length_seq in Hi. lia.
Qed.

(** Writing committed blocks home does not change the file system. *)
Lemma logical_install disksize start size d ws bn :
  header_ok disksize start size d -> home disksize start size bn -> 0 < size ->
  (forall b, b ∈ ws.*1 -> b ∈ hdr_blocks start d) ->
  logical start (apply_writes ws d) bn = logical start d bn /\
  header_ok disksize start size (apply_writes ws d).
Proof.
  intros Hok Hbn Hsize Hws. pose proof Hok as (Hn & Hsz & Hnd & Hhome).
  rewrite Forall_forall in Hhome.
  assert (Hlog : forall b, start <= b < start + size -> apply_writes ws d b = d b).
  { intros b Hb. apply apply_writes_other. intros Hin. apply Hws, Hhome in Hin as [_ Hin]. done. }
  assert (Hhd : d start = apply_writes ws d start) by (rewrite Hlog; [done | lia]).
  split; [| by eapply header_ok_ext]. destruct (hdr_ext _ _ _ Hhd) as [_ He].
  destruct (decide (bn ∈ hdr_blocks start d)) as [Hin|Hout].
  - apply list_elem_of_lookup in Hin as [i Hi]. pose proof (hdr_blocks_lookup _ _ _ _ Hi).
    rewrite (logical_in start d i), (logical_in start _ i); [| by rewrite <- He | by rewrite <- He | done | done].
    apply Hlog. lia.
  - rewrite !logical_out; [| done | by rewrite <- He]. apply apply_writes_other. intros Hin.
    by apply Hws in Hin.
Qed.

(** Writing inside the log area behind a clean header does not, either. *)
Lemma logical_uncommitted disksize start size d ws bn :
  hdr_n start d = 0 -> home disksize start size bn ->
  (forall b, b ∈ ws.*1 -> start < b < start + size) ->
  logical start (apply_writes ws d) bn = d bn /\ hdr_n start (apply_writes ws d) = 0.
Proof.
  intros Hn [_ Hbn] Hws.
  assert (Hhd : d start = apply_writes ws d start).
  { symmetry. apply apply_writes_other. intros Hin. apply Hws in Hin. lia. }
  destruct (hdr_ext _ _ _ Hhd) as [He _]. rewrite <- He. split; [| done].
  rewrite logical_clean by (by rewrite <- He). apply apply_writes_other. intros Hin. apply Hws in Hin. lia.
Qed.

(** ** Header blocks *)

Lemma copy_out_spec blocks i count d :
  (i + count <= length blocks)%nat -> (lh_off (i + count) <= length d)%nat ->
  exists d', copy_out blocks i count d = Ok d' /\ length d' = length d /\
    get32 d' 0 = get32 d 0 /\
    (forall j, (j < i)%nat -> get32 d' (lh_off j) = get32 d (lh_off j)) /\
    (forall j b, (i <= j < i + count)%nat -> blocks !! j = Some b -> get32 d' (lh_off j) = u32 b).
Proof.
  revert i d. induction count as [|count IH]; intros i d Hi Hd.
  - exists d. simpl. do 4 (split; [done |]). lia.
  - simpl. destruct (lookup_lt_is_Some_2 blocks i) as [b Hb]; [lia |].
    rewrite (proj2 (arr_get_Ok _ _ b)) by (rewrite Nat2Z.id; split; [lia | done]). simpl.
    destruct (IH (S i) (put32 d (lh_off i) b)) as (d' & -> & Hl & H0 & Hlo & Hhi);
      [lia | rewrite length_put32; unfold lh_off in *; lia |].
    exists d'. rewrite length_put32 in Hl. split; [done |]. split; [done |].
    split; [rewrite H0; apply get32_put32_ne; unfold lh_off; lia |]. split.
    + intros j Hj. rewrite Hlo by lia. apply get32_put32_ne. unfold lh_off. lia.
    + intros j c Hj Hc. destruct (decide (j = i)) as [->|].
      * rewrite Hlo by lia. simplify_eq. apply get32_put32_eq. unfold lh_off in *. lia.
      * apply Hhi; [lia | done].
Qed.

Lemma copy_in_spec d i count blocks :
  (i + count <= length blocks)%nat ->
  exists blocks', copy_in d i count blocks = Ok blocks' /\ length blocks' = length blocks /\
    (forall j, (j < i)%nat -> blocks' !! j = blocks !! j) /\
    (forall j, (i <= j < i + count)%nat -> blocks' !! j = Some (i32 (get32 d (lh_off j)))).
Proof.
  revert i blocks. induction count as [|count IH]; intros i blocks Hi.
  - exists blocks. simpl. do 3 (split; [done |]). lia.
  - simpl. rewrite arr_set_in by lia. simpl. rewrite Nat2Z.id.
    destruct (IH (S i) (<[i := i32 (get32 d (lh_off i))]> blocks)) as (bs & -> & Hl & Hlo & Hhi);
      [rewrite length_insert; lia |].
    exists bs. rewrite length_insert in Hl. split; [done |]. split; [done |]. split.
    + intros j Hj. rewrite Hlo by lia. apply list_lookup_insert_ne. lia.
    + intros j Hj. destruct (decide (j = i)) as [->|]; [| apply Hhi; lia].
      rewrite Hlo by lia. apply list_lookup_insert_eq. lia.
Qed.

(** The header block [write_head] makes for a header with blocks [bs]. *)
Lemma header_encode start (d : Z -> block) blocks n :
  length (d start) = BSIZE -> 0 <= n <= LOGSIZE -> (Z.to_nat n <= length blocks)%nat ->
  (forall b, b ∈ take (Z.to_nat n) blocks -> 0 <= b < 2147483648) ->
  exists hb, copy_out blocks 0 (Z.to_nat n) (put32 (d start) 0 n) = Ok hb /\ length hb = BSIZE /\
    forall d', d' start = hb -> hdr_n start d' = n /\ hdr_blocks start d' = take (Z.to_nat n) blocks.
Proof.
  intros Hl Hn Hlb Hb. unfold LOGSIZE, MAXOPBLOCKS in Hn.
  destruct (copy_out_spec blocks 0 (Z.to_nat n) (put32 (d start) 0 n)) as (hb & He & Hlen & H0 & _ & Hbs);
    [lia | rewrite length_put32, Hl; unfold lh_off, BSIZE; lia |].
  rewrite length_put32 in Hlen. exists hb. split; [done |]. split; [congruence |]. intros d' Hd'.
  assert (hdr_n start d' = n) as Hhn.
  { unfold hdr_n. rewrite Hd', H0, get32_put32_eq by (rewrite Hl; unfold BSIZE; lia).
    rewrite u32_small, i32_small by lia. done. }
  split; [done |]. unfold hdr_blocks. rewrite Hhn, Hd'. apply list_eq. intros i.
  rewrite list_lookup_fmap. destruct (decide (i < Z.to_nat n)%nat) as [Hi|Hi].
  - rewrite lookup_seq_lt by done. rewrite lookup_take_lt by done. simpl.
    destruct (lookup_lt_is_Some_2 blocks i) as [b Hbi]; [lia |]. rewrite Hbi.
    rewrite (Hbs i b) by (done || lia). f_equal. assert (0 <= b < 2147483648).
    { apply Hb. apply list_elem_of_lookup. exists i. by rewrite lookup_take_lt. }
    rewrite u32_small, i32_small by lia. done.
  - rewrite lookup_seq_ge by lia. rewrite lookup_take_ge by lia. done.
Qed.

(** ** The log on the disk *)

Section proofs.
Context {S : Type} {disksize : Z} `{CacheSpec S disksize}.

Lemma l_cache_set_cache (c : S) (l : log S) : l_cache (set_cache c l) = c.
Proof. done. Qed.

Lemma set_cache_set_cache (c c' : S) (l : log S) : set_cache c (set_cache c' l) = set_cache c l.
Proof. done. Qed.

Lemma set_cache_id (l : log S) : set_cache (l_cache l) l = l.
Proof. by destruct l. Qed.

(** The log, with everything but the cache as in [l0], as a cache. *)
Local Instance log_ops (l0 : log S) : CacheOps (log S) := lift_ops l_cache set_cache l0.
Local Instance log_spec (l0 : log S) : @CacheSpec (log S) disksize (log_ops l0) :=
  lift_spec l_cache set_cache l_cache_set_cache set_cache_set_cache l0.

Lemma lquiet (l0 l : log S) d v p w :
  quiet (H0 := log_spec l0) l d v p w <->
  quiet (l_cache l) d v p w /\ l = set_cache (l_cache l) l0.
Proof.
  unfold quiet. simpl. split.
  - intros (a & [Hr Hl] & Ha). split; [by exists a | done].
  - intros [(a & Hr & Ha) Hl]. by exists a.
Qed.

Lemma install_step (l : log S) tail count home d v p w (Q : unit -> log S -> Prop) :
  quiet (l_cache l) d v p w -> l_dev l = 1 ->
  lh_block (l_lh l) !! tail = Some home ->
  let src := l_start l + Z.of_nat tail + 1 in
  on_disk disksize src -> on_disk disksize home -> disksize <= 2147483648 -> src <> home ->
  (size ({[src; home]} ∪ p) <= NBUF)%nat -> (src ∉ p -> v src = d src) ->
  (forall c', quiet c' (<[home := v src]> d) (<[home := v src]> v) (p ∖ {[home]}) (w ++ [(home, v src)]) ->
     runs (install_loop (Datatypes.S tail) count) (set_cache c' l) Q) ->
  runs (install_loop tail (Datatypes.S count)) l Q.
Proof.
  intros Hq Hdev Hh src Hs1 Hs2 Hds Hne Hsz Hcl HQ. cbn [install_loop].
  apply runs_bind, runs_get, runs_bind, runs_get. rewrite Hdev.
  fold src. rewrite (u32_small src) by (unfold on_disk in *; lia).
  assert (Hql : quiet (H0 := log_spec l) l d v p w).
  { apply lquiet. split; [done |]. by rewrite set_cache_id. }
  apply runs_bind. apply (open_first (H0 := log_spec l) _ _ _ _ _ _ _ Hql); [done | |].
  { etrans; [| exact Hsz]. apply subseteq_size. set_solver. }
  intros i l1 a Hr1 Hh1 Hd1 Hv1 Hp1 Hw1. apply runs_bind.
  exists home, l1. split.
  { unfold lh_at. destruct Hr1 as [_ ->]. simpl. rewrite (proj2 (arr_get_Ok _ _ home)); [done |].
    rewrite Nat2Z.id. split; [lia | done]. }
  rewrite (u32_small home) by (unfold on_disk in *; lia). apply runs_bind.
  apply (open_second (H0 := log_spec l) _ _ _ _ _ _ Hr1 Hh1 Hne Hs2); [by rewrite Hp1 |].
  intros j l2 Hij Hr2. clear Hr1.
  eapply (transfer (H0 := log_spec l) l2 _ i j src home _ _ Hr2); [| | done |].
  { simpl. by rewrite lookup_insert_ne, lookup_singleton_eq by done. }
  { simpl. apply lookup_insert_eq. }
  intros l3 Hr3. eapply (copied_close (H0 := log_spec l) _ (with_held _ a) i j src home d v p w src home);
    simpl; try done.
  { simpl in Hr3. by rewrite Hv1 in Hr3. }
  { by rewrite lookup_insert_ne, lookup_singleton_eq by done. }
  { apply lookup_insert_eq. }
  { rewrite delete_insert_ne by done. rewrite delete_singleton_eq. apply delete_insert_id, lookup_empty. }
  { left. } { right. left. }
  intros l4 [Hq4 ->]%lquiet. by apply HQ.
Qed.

Lemma write_log_step (l : log S) tail count home d v p w (Q : unit -> log S -> Prop) :
  quiet (l_cache l) d v p w -> l_dev l = 1 ->
  lh_block (l_lh l) !! tail = Some home ->
  let dst := l_start l + Z.of_nat tail + 1 in
  on_disk disksize dst -> on_disk disksize home -> disksize <= 2147483648 -> home <> dst ->
  (size ({[dst; home]} ∪ p) <= NBUF)%nat -> (home ∉ p -> v home = d home) ->
  (forall c', quiet c' (<[dst := v home]> d) (<[dst := v home]> v) (p ∖ {[dst]}) (w ++ [(dst, v home)]) ->
     runs (write_log_loop (Datatypes.S tail) count) (set_cache c' l) Q) ->
  runs (write_log_loop tail (Datatypes.S count)) l Q.
Proof.
  intros Hq Hdev Hh dst Hs1 Hs2 Hds Hne Hsz Hcl HQ. cbn [write_log_loop].
  apply runs_bind, runs_get, runs_bind, runs_get. rewrite Hdev.
  fold dst. rewrite (u32_small dst) by (unfold on_disk in *; lia).
  assert (Hql : quiet (H0 := log_spec l) l d v p w).
  { apply lquiet. split; [done |]. by rewrite set_cache_id. }
  apply runs_bind. apply (open_first (H0 := log_spec l) _ _ _ _ _ _ _ Hql); [done | |].
  { etrans; [| exact Hsz]. apply subseteq_size. set_solver. }
  intros j l1 a Hr1 Hh1 Hd1 Hv1 Hp1 Hw1. apply runs_bind.
  exists home, l1. split.
  { unfold lh_at. destruct Hr1 as [_ ->]. simpl. rewrite (proj2 (arr_get_Ok _ _ home)); [done |].
    rewrite Nat2Z.id. split; [lia | done]. }
  rewrite (u32_small home) by (unfold on_disk in *; lia). apply runs_bind.
  apply (open_second (H0 := log_spec l) _ _ _ _ _ _ Hr1 Hh1 (not_eq_sym Hne) Hs2); [by rewrite Hp1 |].
  intros i l2 Hij Hr2. clear Hr1.
  eapply (transfer (H0 := log_spec l) l2 _ i j home dst _ _ Hr2); [| | done |].
  { simpl. apply lookup_insert_eq. }
  { simpl. by rewrite lookup_insert_ne, lookup_singleton_eq by done. }
  intros l3 Hr3. eapply (copied_close (H0 := log_spec l) _ (with_held _ a) i j home dst d v p w home dst);
    simpl; try done.
  { simpl in Hr3. by rewrite Hv1 in Hr3. }
  { apply lookup_insert_eq. }
  { by rewrite lookup_insert_ne, lookup_singleton_eq by done. }
  { rewrite delete_insert_id by (by apply lookup_singleton_ne). apply delete_singleton_eq. }
  { left. } { right. left. }
  intros l4 [Hq4 ->]%lquiet. by apply HQ.
Qed.

Lemma write_head_spec (l : log S) d v p w hb :
  quiet (l_cache l) d v p w -> l_dev l = 1 -> on_disk disksize (l_start l) -> disksize <= 2147483648 ->
  (size ({[l_start l]} ∪ p) <= NBUF)%nat ->
  copy_out (lh_block (l_lh l)) 0 (Z.to_nat (lh_n (l_lh l))) (put32 (v (l_start l)) 0 (lh_n (l_lh l))) = Ok hb ->
  length hb = BSIZE ->
  runs write_head l (fun _ l' => exists c', l' = set_cache c' l /\
    quiet c' (<[l_start l := hb]> d) (<[l_start l := hb]> v) (p ∖ {[l_start l]}) (w ++ [(l_start l, hb)])).
Proof.
  intros Hq Hdev Hs Hds Hsz Hco Hlen. unfold write_head.
  apply runs_bind, runs_get, runs_bind, runs_get. rewrite Hdev.
  rewrite (u32_small (l_start l)) by (unfold on_disk in *; lia).
  assert (Hql : quiet (H0 := log_spec l) l d v p w).
  { apply lquiet. split; [done |]. by rewrite set_cache_id. }
  apply runs_bind, (open_first (H0 := log_spec l) _ _ _ _ _ _ _ Hql); [done | done |].
  intros i l1 a Hr1 Hh1 Hd1 Hv1 Hp1 Hw1. apply runs_bind.
  eapply runs_mono; [apply (c_bdata_law (CacheSpec := log_spec l) l1 a i (l_start l) Hr1); by rewrite Hh1, lookup_singleton_eq |].
  intros x l2 [-> Hr2]. apply runs_bind, runs_get, runs_bind.
  assert (l_lh l2 = l_lh l) as -> by (by destruct Hr2 as [_ ->]).
  eapply runs_lift; [rewrite Hv1; exact Hco |].
  eapply (rewrite_close (H0 := log_spec l) l2 a i (l_start l) hb d v p w); try done.
  intros l3 [Hq3 Hl3]%lquiet. by exists (l_cache l3).
Qed.

Lemma read_head_spec (l : log S) d v p w blocks :
  quiet (l_cache l) d v p w -> l_dev l = 1 -> on_disk disksize (l_start l) -> disksize <= 2147483648 ->
  (size ({[l_start l]} ∪ p) <= NBUF)%nat -> v (l_start l) = d (l_start l) ->
  let n := i32 (get32 (d (l_start l)) 0) in
  copy_in (d (l_start l)) 0 (Z.to_nat n) (lh_block (l_lh l)) = Ok blocks ->
  runs read_head l (fun _ l' => exists c', l' = set_cache c' (set_lh (mkHeader n blocks) l) /\
    quiet c' d v p w).
Proof.
  intros Hq Hdev Hs Hds Hsz Hvd n Hci. unfold read_head.
  apply runs_bind, runs_get, runs_bind, runs_get. rewrite Hdev.
  rewrite (u32_small (l_start l)) by (unfold on_disk in *; lia).
  assert (Hql : quiet (H0 := log_spec l) l d v p w).
  { apply lquiet. split; [done |]. by rewrite set_cache_id. }
  apply runs_bind, (open_first (H0 := log_spec l) _ _ _ _ _ _ _ Hql); [done | done |].
  intros i l1 a Hr1 Hh1 Hd1 Hv1 Hp1 Hw1. apply runs_bind.
  eapply runs_mono; [apply (c_bdata_law (CacheSpec := log_spec l) l1 a i (l_start l) Hr1); by rewrite Hh1, lookup_singleton_eq |].
  intros x l2 [-> [Hr2 Hl2]]. rewrite Hv1, Hvd. cbv zeta. fold n. apply runs_bind.
  set (l0 := set_lh (mkHeader n blocks) l).
  exists tt, (set_cache (l_cache l2) l0). split; [rewrite Hl2; simpl; by rewrite Hci |].
  eapply (close_one (H0 := log_spec l0) _ a i (l_start l)); [by split | done | |].
  { intros _. by rewrite Hv1, Hd1. }
  intros l3 [Hq3 Hl3]%lquiet. exists (l_cache l3). split; [done |]. by rewrite Hd1, Hv1, Hp1, Hw1 in Hq3.
Qed.

(** The writes of [write_log] and of [install_trans] for blocks [bs], the first
    of them in log slot [tail]. *)
Fixpoint copies (start : Z) (tail : nat) (bs : list Z) (v : Z -> block) : list (Z * block) :=
  match bs with
  | [] => []
  | b :: bs' => (start + Z.of_nat tail + 1, v b) :: copies start (Datatypes.S tail) bs' v
  end.

Fixpoint installs (start : Z) (tail : nat) (bs : list Z) (v : Z -> block) : list (Z * block) :=
  match bs with
  | [] => []
  | b :: bs' => (b, v (start + Z.of_nat tail + 1)) :: installs start (Datatypes.S tail) bs' v
  end.

Lemma copies_ext start tail bs v v' :
  (forall b, b ∈ bs -> v b = v' b) -> copies start tail bs v = copies start tail bs v'.
Proof.
  revert tail. induction bs as [|b bs IH]; intros tail He; [done |]. simpl.
  rewrite (He b) by (by left). f_equal. apply IH. intros c Hc. apply He. by right.
Qed.

Lemma installs_ext start tail bs v v' :
  (forall i, (i < length bs)%nat -> v (start + Z.of_nat (tail + i) + 1) = v' (start + Z.of_nat (tail + i) + 1)) ->
  installs start tail bs v = installs start tail bs v'.
Proof.
  revert tail. induction bs as [|b bs IH]; intros tail He; [done |]. simpl.
  pose proof (He 0%nat) as H1. rewrite Nat.add_0_r in H1. rewrite H1 by (simpl; lia). f_equal.
  apply IH. intros i Hi. pose proof (He (Datatypes.S i)) as H2.
  replace (Datatypes.S tail + i)%nat with (tail + Datatypes.S i)%nat by lia. apply H2. simpl. lia.
Qed.

Lemma installs_fst start tail bs v : (installs start tail bs v).*1 = bs.
Proof. revert tail. induction bs as [|b bs IH]; intros tail; [done |]. simpl. by rewrite IH. Qed.

Lemma copies_lookup start tail bs v i b :
  bs !! i = Some b -> copies start tail bs v !! i = Some (start + Z.of_nat (tail + i) + 1, v b).
Proof.
  revert tail i. induction bs as [|c bs IH]; intros tail [|i] Hi; simpl in *; try done.
  - simplify_eq. by rewrite Nat.add_0_r.
  - rewrite (IH (Datatypes.S tail) i Hi). do 2 f_equal. lia.
Qed.

Lemma installs_lookup start tail bs v i b :
  bs !! i = Some b -> installs start tail bs v !! i = Some (b, v (start + Z.of_nat (tail + i) + 1)).
Proof.
  revert tail i. induction bs as [|c bs IH]; intros tail [|i] Hi; simpl in *; try done.
  - simplify_eq. by rewrite Nat.add_0_r.
  - rewrite (IH (Datatypes.S tail) i Hi). do 3 f_equal. lia.
Qed.

Lemma copies_fst start tail bs v b :
  b ∈ (copies start tail bs v).*1 -> start + Z.of_nat tail < b <= start + Z.of_nat (tail + length bs).
Proof.
  revert tail. induction bs as [|c bs IH]; intros tail Hb; simpl in *; [by apply elem_of_nil in Hb |].
  apply elem_of_cons in Hb as [->|Hb]; [lia |]. apply IH in Hb. lia.
Qed.

Lemma copies_NoDup start tail bs v : NoDup (copies start tail bs v).*1.
Proof.
  revert tail. induction bs as [|c bs IH]; intros tail; simpl; [constructor |].
  apply NoDup_cons. split; [| done]. intros Hb%copies_fst. lia.
Qed.

Definition sized (ws : list (Z * block)) : Prop := Forall (fun x => length (snd x) = BSIZE) ws.

Lemma copies_sized start tail bs v : (forall b, length (v b) = BSIZE) -> sized (copies start tail bs v).
Proof. intros Hv. revert tail. induction bs as [|b bs IH]; intros tail; constructor; [apply Hv | apply IH]. Qed.

Lemma installs_sized start tail bs v : (forall b, length (v b) = BSIZE) -> sized (installs start tail bs v).
Proof. intros Hv. revert tail. induction bs as [|b bs IH]; intros tail; constructor; [apply Hv | apply IH]. Qed.

Lemma apply_writes_sized ws d :
  sized ws -> (forall b, length (d b) = BSIZE) -> forall b, length (apply_writes ws d b) = BSIZE.
Proof.
  intros Hws. revert d. induction Hws as [|[bn x] ws Hx Hws IH]; intros d Hd; [done |].
  simpl. apply IH. intros b. destruct (decide (bn = b)) as [->|]; [by rewrite fn_lookup_insert |].
  by rewrite fn_lookup_insert_ne.
Qed.

Lemma write_log_loop_spec bs : forall tail (l : log S) d v p w,
  quiet (l_cache l) d v p w -> l_dev l = 1 -> disksize <= 2147483648 ->
  (forall k b, bs !! k = Some b -> lh_block (l_lh l) !! (tail + k)%nat = Some b) ->
  Forall (fun b => b ∈ p) bs -> (forall b, b ∈ p -> home disksize (l_start l) (l_size l) b) ->
  (size p < NBUF)%nat -> 0 <= l_start l -> l_start l + l_size l <= disksize ->
  Z.of_nat (tail + length bs) < l_size l ->
  runs (write_log_loop tail (length bs)) l (fun _ l' => exists c', l' = set_cache c' l /\
    let ws := copies (l_start l) tail bs v in
    quiet c' (apply_writes ws d) (apply_writes ws v) p (w ++ ws)).
Proof.
  induction bs as [|b bs IH]; intros tail l d v p w Hq Hdev Hds Hbs Hp Hhome Hsz Hst Hen Hlen.
  - apply runs_ret. exists (l_cache l). rewrite set_cache_id. simpl. by rewrite app_nil_r.
  - apply Forall_cons in Hp as [Hb Hp]. pose proof (Hhome _ Hb) as [Hbd Hbl]. simpl in Hlen.
    cbn [length]. eapply (write_log_step l tail (length bs) b d v p w _ Hq Hdev).
    { rewrite <- (Nat.add_0_r tail). by apply Hbs. }
    { unfold on_disk. lia. } { done. } { done. } { lia. }
    { etrans; [| exact Hsz]. etrans; [apply (subseteq_size _ ({[l_start l + Z.of_nat tail + 1]} ∪ p)); set_solver |].
      rewrite size_union_alt, size_singleton. apply le_n_S, subseteq_size. set_solver. }
    { done. }
    intros c' Hq'. rewrite difference_disjoint_L in Hq' by (apply disjoint_singleton_r; intros [_ Hx]%Hhome; lia).
    eapply runs_mono; [apply (IH (Datatypes.S tail) (set_cache c' l) _ _ _ _ Hq'); simpl; try done |].
    + intros k x Hk. replace (Datatypes.S (tail + k))%nat with (tail + Datatypes.S k)%nat by lia. by apply Hbs.
    + lia.
    + intros [] l' (c2 & -> & Hq2). exists c2. split; [done |]. simpl in Hq2 |- *.
      rewrite (copies_ext _ _ bs _ v) in Hq2; [by rewrite <- app_assoc in Hq2 |].
      intros x Hx. apply fn_lookup_insert_ne. rewrite Forall_forall in Hp.
      apply Hp, Hhome in Hx as [_ Hx]. lia.
Qed.

Lemma install_loop_spec bs : forall tail (l : log S) d v p w,
  quiet (l_cache l) d v p w -> l_dev l = 1 -> disksize <= 2147483648 ->
  (forall k b, bs !! k = Some b -> lh_block (l_lh l) !! (tail + k)%nat = Some b) ->
  Forall (home disksize (l_start l) (l_size l)) bs ->
  (forall b, b ∈ p -> home disksize (l_start l) (l_size l) b) ->
  (forall b, b ∈ bs -> (size ({[b]} ∪ p) < NBUF)%nat) ->
  0 <= l_start l -> l_start l + l_size l <= disksize -> Z.of_nat (tail + length bs) < l_size l ->
  (forall b, l_start l <= b < l_start l + l_size l -> v b = d b) ->
  runs (install_loop tail (length bs)) l (fun _ l' => exists c', l' = set_cache c' l /\
    let ws := installs (l_start l) tail bs v in
    quiet c' (apply_writes ws d) (apply_writes ws v) (p ∖ list_to_set bs) (w ++ ws)).
Proof.
  induction bs as [|b bs IH]; intros tail l d v p w Hq Hdev Hds Hbs Hh Hhome Hsz Hst Hen Hlen Hvd.
  - apply runs_ret. exists (l_cache l). rewrite set_cache_id. simpl.
    by rewrite app_nil_r, difference_empty_L.
  - apply Forall_cons in Hh as [[Hbd Hbl] Hh]. simpl in Hlen.
    cbn [length]. eapply (install_step l tail (length bs) b d v p w _ Hq Hdev).
    { rewrite <- (Nat.add_0_r tail). by apply Hbs. }
    { unfold on_disk. lia. } { done. } { done. } { lia. }
    { pose proof (Hsz b ltac:(by left)) as Hs. rewrite <- (assoc_L (∪)).
      rewrite size_union_alt, size_singleton. etrans; [| exact Hs]. apply le_n_S, subseteq_size. set_solver. }
    { intros _. apply Hvd. lia. }
    intros c' Hq'. eapply runs_mono; [apply (IH (Datatypes.S tail) (set_cache c' l) _ _ _ _ Hq'); simpl; try done |].
    + intros k x Hk. replace (Datatypes.S (tail + k))%nat with (tail + Datatypes.S k)%nat by lia. by apply Hbs.
    + intros x Hx. apply Hhome. set_solver.
    + intros x Hx. eapply Nat.le_lt_trans; [| apply (Hsz x); by right]. apply subseteq_size. set_solver.
    + lia.
    + intros x Hx. rewrite !fn_lookup_insert_ne by lia. by apply Hvd.
    + intros [] l' (c2 & -> & Hq2). exists c2. split; [done |]. simpl in Hq2 |- *.
      rewrite (installs_ext _ _ bs _ v) in Hq2.
      * rewrite <- app_assoc in Hq2. by rewrite difference_difference_l_L in Hq2.
      * intros i Hi. apply fn_lookup_insert_ne. lia.
Qed.

Lemma empty_difference (X : gset Z) : ∅ ∖ X = ∅.
Proof. set_solver. Qed.

Lemma one_room (bn : Z) : (size ({[bn]} ∪ (∅ : gset Z)) <= NBUF)%nat.
Proof. rewrite union_empty_r_L, size_singleton. unfold NBUF, MAXOPBLOCKS. lia. Qed.

(** The log lies on the disk, and block numbers fit into an [int]. *)
Definition log_geometry (l : log S) : Prop :=
  l_dev l = 1 /\ 0 <= l_start l /\ 0 < l_size l /\ l_start l + l_size l <= disksize /\
  disksize <= 2147483648 /\ length (lh_block (l_lh l)) = Z.to_nat LOGSIZE.

Lemma header_ok_zero start size d : hdr_n start d = 0 -> 0 < size -> header_ok disksize start size d.
Proof.
  intros Hn Hs. unfold header_ok, hdr_blocks. rewrite Hn. unfold LOGSIZE, MAXOPBLOCKS.
  split; [lia |]. split; [done |]. split; constructor.
Qed.

(** All installs together leave every block as the log has it. *)
Lemma install_complete start size d bn :
  header_ok disksize start size d ->
  apply_writes (installs start 0 (hdr_blocks start d) d) d bn = logical start d bn.
Proof.
  intros (_ & _ & Hnd & _). destruct (decide (bn ∈ hdr_blocks start d)) as [Hin|Hout].
  - apply list_elem_of_lookup in Hin as [i Hi]. rewrite (logical_in _ _ _ _ Hnd Hi).
    eapply apply_writes_lookup; [by rewrite installs_fst |]. by rewrite (installs_lookup _ _ _ _ _ _ Hi).
  - rewrite logical_out by done. apply apply_writes_other. by rewrite installs_fst.
Qed.

Lemma take_app_cases {A} k (l1 l2 : list A) :
  take k (l1 ++ l2) = take k l1 \/ exists k', take k (l1 ++ l2) = l1 ++ take k' l2.
Proof.
  destruct (decide (k <= length l1)%nat).
  - left. by rewrite take_app_le.
  - right. exists (k - length l1)%nat. by rewrite take_app_ge by lia.
Qed.

(** [ws], written to [d] up to any point, does not change the file system. *)
Definition preserves (start size : Z) (ws : list (Z * block)) (d : Z -> block) (f : Z -> block) : Prop :=
  forall k, header_ok disksize start size (apply_writes (take k ws) d) /\
    forall bn, home disksize start size bn -> logical start (apply_writes (take k ws) d) bn = f bn.

(** Installing a committed log and clearing the header, in terms of the disk. *)
Lemma installs_preserve start size d ws hb :
  header_ok disksize start size d -> 0 < size -> ws = installs start 0 (hdr_blocks start d) d ->
  (forall d', d' start = hb -> hdr_n start d' = 0) ->
  preserves start size (ws ++ [(start, hb)]) d (logical start d) /\
  hdr_n start (apply_writes (ws ++ [(start, hb)]) d) = 0 /\
  forall bn, home disksize start size bn -> apply_writes (ws ++ [(start, hb)]) d bn = logical start d bn.
Proof.
  intros Hok Hs -> Hhb. set (ws := installs _ _ _ _).
  assert (Hpre : forall k b, b ∈ (take k ws).*1 -> b ∈ hdr_blocks start d).
  { intros k b Hb. rewrite fmap_take in Hb. subst ws. rewrite installs_fst in Hb.
    by eapply elem_of_take in Hb as (i & Hb & _); eapply list_elem_of_lookup_2. }
  assert (Hend : hdr_n start (apply_writes (ws ++ [(start, hb)]) d) = 0).
  { apply Hhb. rewrite apply_writes_app. simpl. apply fn_lookup_insert. }
  assert (Hall : forall bn, home disksize start size bn ->
    apply_writes (ws ++ [(start, hb)]) d bn = logical start d bn).
  { intros bn [_ Hbn]. rewrite apply_writes_app. simpl. rewrite fn_lookup_insert_ne by lia.
    by eapply install_complete. }
  assert (Hgen : forall ws', (forall b, b ∈ ws'.*1 -> b ∈ hdr_blocks start d) ->
    header_ok disksize start size (apply_writes ws' d) /\
    forall bn, home disksize start size bn -> logical start (apply_writes ws' d) bn = logical start d bn).
  { intros ws' Hws. split; [| intros bn Hbn; by apply (logical_install disksize start size)].
    eapply header_ok_ext; [| exact Hok]. symmetry. apply apply_writes_other. intros Hin%Hws.
    destruct Hok as (_ & _ & _ & Hf). rewrite Forall_forall in Hf. apply Hf in Hin as [_ Hin]. lia. }
  split; [| done]. intros k. destruct (take_app_cases k ws [(start, hb)]) as [->|(k' & ->)].
  - apply Hgen, Hpre.
  - destruct k' as [|k']; simpl.
    + rewrite app_nil_r. apply Hgen. intros b. rewrite <- (firstn_all ws). apply Hpre.
    + rewrite take_nil. split; [by apply header_ok_zero |]. intros bn Hbn.
      rewrite logical_clean by done. by apply Hall.
Qed.

(** Recovery from a disk with a well-formed header. *)
Lemma recover_spec (l : log S) d w :
  log_geometry l -> quiet (l_cache l) d d ∅ w -> header_ok disksize (l_start l) (l_size l) d ->
  runs recover_from_log l (fun _ l' => exists c' blocks ws,
    l' = set_cache c' (set_lh (mkHeader 0 blocks) l) /\ length blocks = Z.to_nat LOGSIZE /\
    quiet c' (apply_writes ws d) (apply_writes ws d) ∅ (w ++ ws) /\
    preserves (l_start l) (l_size l) ws d (logical (l_start l) d) /\
    hdr_n (l_start l) (apply_writes ws d) = 0 /\
    (forall bn, home disksize (l_start l) (l_size l) bn -> apply_writes ws d bn = logical (l_start l) d bn) /\
    sized ws).
Proof.
  intros (Hdev & Hst & Hsz & Hen & Hds & Hlb) Hq Hok. pose proof Hok as (Hn & Hns & Hnd & Hhome).
  unfold LOGSIZE, MAXOPBLOCKS in *.
  destruct (copy_in_spec (d (l_start l)) 0 (Z.to_nat (hdr_n (l_start l) d)) (lh_block (l_lh l)))
    as (blocks & Hci & Hlen & _ & Hbs); [lia |].
  pose proof (one_room (l_start l)) as Hroom.
  unfold recover_from_log. apply runs_bind.
  eapply runs_mono; [apply (read_head_spec l d d ∅ w blocks Hq Hdev); try done; unfold on_disk; lia |].
  intros [] l1 (c1 & -> & Hq1). apply runs_bind, runs_bind, runs_get. simpl.
  set (l1 := set_cache c1 (set_lh (mkHeader (i32 (get32 (d (l_start l)) 0)) blocks) l)).
  assert (Hlb2 : length (hdr_blocks (l_start l) d) = Z.to_nat (hdr_n (l_start l) d)).
  { unfold hdr_blocks. by rewrite length_fmap, length_seq. }
  change (i32 (get32 (d (l_start l)) 0)) with (hdr_n (l_start l) d). rewrite <- Hlb2.
  eapply runs_mono; [apply (install_loop_spec (hdr_blocks (l_start l) d) 0 l1 d d ∅ w Hq1); try done |].
  { intros k b Hk. pose proof (hdr_blocks_lookup _ _ _ _ Hk). unfold hdr_blocks in Hk.
    rewrite list_lookup_fmap, lookup_seq_lt in Hk by lia. simpl in Hk |- *. rewrite Hbs by lia. done. }
  { intros b _. rewrite union_empty_r_L, size_singleton. unfold NBUF, MAXOPBLOCKS. lia. }
  { simpl. lia. }
  intros [] l2 (c2 & -> & Hq2). apply runs_bind, runs_modify.
  set (w1 := installs (l_start l1) 0 (hdr_blocks (l_start l) d) d) in *. cbv zeta in Hq2.
  rewrite empty_difference in Hq2.
  destruct (header_encode (l_start l) (apply_writes w1 d) blocks 0) as (hb & Hco & Hlh & Hhb);
    [by eapply quiet_size | done | lia | intros b; by rewrite take_0, elem_of_nil |].
  eapply runs_mono; [apply (write_head_spec (set_lh (mkHeader 0 blocks) (set_cache c2 l1)) _ _ _ _ hb Hq2);
    try done; unfold on_disk; simpl; lia |].
  intros [] l3 (c3 & -> & Hq3). simpl in Hq3.
  rewrite empty_difference, <- app_assoc in Hq3.
  destruct (installs_preserve (l_start l) (l_size l) d w1 hb Hok Hsz eq_refl) as (Hp & Hz & Hf);
    [intros d' Hd'; apply (Hhb d' Hd') |].
  exists c3, blocks, (w1 ++ [(l_start l, hb)]). rewrite apply_writes_app at 1 2.
  split; [done |]. split; [lia |]. split; [exact Hq3 |]. do 3 (split; [done |]).
  apply Forall_app. split; [| by apply Forall_singleton]. apply installs_sized. intros b.
  apply (quiet_size _ _ _ _ _ b Hq).
Qed.

(** The state at the end of the last outstanding operation: the file system
    is [v] in the cache and [d] on the disk, they differ at most in the blocks
    [bs] of the log header, and the log on the disk is clean. *)
Record logged (l : log S) (d v : Z -> block) (bs : list Z) (w : list (Z * block)) : Prop := {
  lg_geometry : log_geometry l;
  lg_quiet : quiet (l_cache l) d v (list_to_set bs) w;
  lg_n : lh_n (l_lh l) = Z.of_nat (length bs);
  lg_blocks : take (length bs) (lh_block (l_lh l)) = bs;
  lg_NoDup : NoDup bs;
  lg_home : Forall (home disksize (l_start l) (l_size l)) bs;
  lg_fits : Z.of_nat (length bs) < l_size l /\ (length bs < NBUF)%nat;
  lg_clean : hdr_n (l_start l) d = 0
}.

(** Up to any point the writes leave the file system as it was before, or as
    it is to be. *)
Definition atomic (start size : Z) (ws : list (Z * block)) (d v : Z -> block) : Prop :=
  forall k, header_ok disksize start size (apply_writes (take k ws) d) /\
    ((forall bn, home disksize start size bn -> logical start (apply_writes (take k ws) d) bn = d bn) \/
     (forall bn, home disksize start size bn -> logical start (apply_writes (take k ws) d) bn = v bn)).

(** The disk once the header has been written. *)
Lemma committed_disk start size d v bs hb :
  0 <= start -> Z.of_nat (length bs) < size -> NoDup bs -> Forall (home disksize start size) bs ->
  (length bs < NBUF)%nat -> (forall b, b ∉ bs -> v b = d b) ->
  (forall d', d' start = hb -> hdr_n start d' = Z.of_nat (length bs) /\ hdr_blocks start d' = bs) ->
  let D := <[start := hb]> (apply_writes (copies start 0 bs v) d) in
  header_ok disksize start size D /\ hdr_blocks start D = bs /\
  forall bn, home disksize start size bn -> logical start D bn = v bn.
Proof.
  intros Hst Hsz Hnd Hhome Hlt Hvd Hhb D. destruct (Hhb D) as [Hn Hb]; [apply fn_lookup_insert |].
  assert (Hok : header_ok disksize start size D).
  { unfold header_ok. rewrite Hn, Hb. unfold NBUF, LOGSIZE, MAXOPBLOCKS in *. repeat split; try done; lia. }
  split; [done |]. split; [done |]. intros bn [Hbd Hbl].
  destruct (decide (bn ∈ bs)) as [Hin|Hout].
  - apply list_elem_of_lookup in Hin as [i Hi]. rewrite (logical_in start D i) by (by rewrite Hb).
    subst D. rewrite fn_lookup_insert_ne by lia.
    eapply apply_writes_lookup; [apply copies_NoDup |]. by rewrite (copies_lookup _ _ _ _ _ _ Hi).
  - rewrite logical_out by (by rewrite Hb). subst D. rewrite fn_lookup_insert_ne by lia.
    rewrite apply_writes_other; [by rewrite Hvd |]. intros Hx%copies_fst. simpl in Hx.
    apply Hbl. lia.
Qed.

Lemma commit_atomic start size d v bs hb ws hb0 D :
  0 <= start -> Z.of_nat (length bs) < size -> NoDup bs -> Forall (home disksize start size) bs ->
  (length bs < NBUF)%nat -> (forall b, b ∉ bs -> v b = d b) -> hdr_n start d = 0 ->
  (forall d', d' start = hb -> hdr_n start d' = Z.of_nat (length bs) /\ hdr_blocks start d' = bs) ->
  (forall d', d' start = hb0 -> hdr_n start d' = 0) ->
  D = <[start := hb]> (apply_writes (copies start 0 bs v) d) ->
  ws = copies start 0 bs v ++ (start, hb) :: installs start 0 bs D ++ [(start, hb0)] ->
  atomic start size ws d v /\ hdr_n start (apply_writes ws d) = 0 /\
  forall bn, home disksize start size bn -> apply_writes ws d bn = v bn.
Proof.
  intros Hst Hsz Hnd Hhome Hlt Hvd Hn Hhb Hhb0 -> ->.
  destruct (committed_disk start size d v bs hb) as (Hok & Hb & HD); try done.
  set (D := <[start := hb]> _) in *. set (W1 := copies start 0 bs v) in *.
  destruct (installs_preserve start size D (installs start 0 bs D) hb0 Hok) as (Hp & Hz & Hf);
    [lia | by rewrite Hb | done |].
  assert (Hlast : apply_writes (W1 ++ (start, hb) :: installs start 0 bs D ++ [(start, hb0)]) d =
    apply_writes (installs start 0 bs D ++ [(start, hb0)]) D) by (by rewrite apply_writes_app).
  rewrite Hlast. split; [| split; [done |]; intros bn Hbn; by rewrite Hf, HD].
  assert (Hold : forall ws, (forall b, b ∈ ws.*1 -> b ∈ W1.*1) ->
    header_ok disksize start size (apply_writes ws d) /\
    forall bn, home disksize start size bn -> logical start (apply_writes ws d) bn = d bn).
  { intros ws Hws. assert (Hlog : forall b, b ∈ ws.*1 -> start < b < start + size).
    { intros b Hx%Hws%copies_fst. simpl in Hx. lia. }
    split; [| intros bn Hbn; by apply (logical_uncommitted disksize start size)].
    apply header_ok_zero; [| lia]. rewrite <- Hn. apply hdr_ext, apply_writes_other.
    intros Hx%Hlog. lia. }
  intros k. destruct (take_app_cases k W1 ((start, hb) :: installs start 0 bs D ++ [(start, hb0)]))
    as [->|([|k'] & ->)].
  - destruct (Hold (take k W1)) as [H1 H2]; [| by auto]. intros b Hx. rewrite fmap_take in Hx.
    by eapply elem_of_take in Hx as (i & Hx & _); eapply list_elem_of_lookup_2.
  - rewrite app_nil_r. destruct (Hold W1) as [H1 H2]; auto.
  - rewrite firstn_cons, apply_writes_app. destruct (Hp k') as [H1 H2]. split; [exact H1 |]. right.
    intros bn Hbn. change (logical start (apply_writes (take k' (installs start 0 bs D ++ [(start, hb0)])) D) bn = v bn).
    by rewrite H2, HD.
Qed.

Lemma logged_lookup l d v bs w k b :
  logged l d v bs w -> bs !! k = Some b -> lh_block (l_lh l) !! (0 + k)%nat = Some b.
Proof.
  intros Hl Hk. pose proof (lookup_lt_Some _ _ _ Hk).
  by rewrite <- (lg_blocks _ _ _ _ _ Hl), lookup_take_lt in Hk.
Qed.

Lemma logged_pinned l d v bs w b :
  logged l d v bs w -> b ∈ (list_to_set bs : gset Z) -> home disksize (l_start l) (l_size l) b.
Proof.
  intros Hl Hb. apply elem_of_list_to_set in Hb. eapply Forall_forall; [apply Hl | done].
Qed.

Lemma logged_room l d v bs w (X : gset Z) :
  logged l d v bs w -> (size X <= 1)%nat -> (size (X ∪ list_to_set bs) <= NBUF)%nat.
Proof.
  intros Hl HX. pose proof (lg_fits _ _ _ _ _ Hl) as [_ Hroom].
  rewrite size_union_alt. pose proof (subseteq_size (list_to_set bs ∖ X) (list_to_set bs : gset Z) ltac:(set_solver)).
  rewrite size_list_to_set in * by (by eapply lg_NoDup). lia.
Qed.

(** The header block for the blocks of the log. *)
Lemma logged_header l d v bs w (d1 : Z -> block) :
  logged l d v bs w -> length (d1 (l_start l)) = BSIZE ->
  exists hb, copy_out (lh_block (l_lh l)) 0 (Z.to_nat (Z.of_nat (length bs)))
      (put32 (d1 (l_start l)) 0 (Z.of_nat (length bs))) = Ok hb /\ length hb = BSIZE /\
    forall d', d' (l_start l) = hb -> hdr_n (l_start l) d' = Z.of_nat (length bs) /\
      hdr_blocks (l_start l) d' = bs.
Proof.
  intros Hl Hlen. pose proof (lg_geometry _ _ _ _ _ Hl) as (_ & _ & _ & _ & Hds & Hlb).
  pose proof (lg_fits _ _ _ _ _ Hl) as [_ Hroom]. unfold NBUF, LOGSIZE, MAXOPBLOCKS in *.
  destruct (header_encode (l_start l) d1 (lh_block (l_lh l)) (Z.of_nat (length bs)))
    as (hb & Hco & Hlh & Hhb); [done | unfold LOGSIZE, MAXOPBLOCKS; lia | lia | |].
  - rewrite Nat2Z.id, (lg_blocks _ _ _ _ _ Hl). intros b Hb.
    apply (proj1 (Forall_forall _ _) (lg_home _ _ _ _ _ Hl)) in Hb as [Hb _]. unfold on_disk in Hb. lia.
  - exists hb. split; [done |]. split; [done |]. intros d' Hd'.
    by rewrite Nat2Z.id, (lg_blocks _ _ _ _ _ Hl) in Hhb; apply Hhb.
Qed.

(** What [commit] writes when there is something to commit. *)
Lemma commit_run (l : log S) d v bs w :
  logged l d v bs w -> bs <> [] ->
  runs commit l (fun _ l' => exists c' v' hb hb0,
    l' = set_cache c' (set_lh (mkHeader 0 (lh_block (l_lh l))) l) /\
    (forall d', d' (l_start l) = hb -> hdr_n (l_start l) d' = Z.of_nat (length bs) /\
       hdr_blocks (l_start l) d' = bs) /\
    (forall d', d' (l_start l) = hb0 -> hdr_n (l_start l) d' = 0) /\
    let D := <[l_start l := hb]> (apply_writes (copies (l_start l) 0 bs v) d) in
    let ws := copies (l_start l) 0 bs v ++ (l_start l, hb) :: installs (l_start l) 0 bs D ++ [(l_start l, hb0)] in
    quiet c' (apply_writes ws d) v' ∅ (w ++ ws) /\ sized ws).
Proof.
  intros Hl Hne. pose proof (lg_geometry _ _ _ _ _ Hl) as (Hdev & Hst & Hsz & Hen & Hds & Hlb).
  pose proof (lg_fits _ _ _ _ _ Hl) as [Hfit Hroom]. pose proof (lg_quiet _ _ _ _ _ Hl) as Hq.
  assert (Hstart : l_start l ∉ (list_to_set bs : gset Z)) by (intros [_ Hx]%(logged_pinned _ _ _ _ _ _ Hl); lia).
  unfold commit. apply runs_bind, runs_get. rewrite (lg_n _ _ _ _ _ Hl).
  rewrite (proj2 (Z.ltb_lt _ _)) by (destruct bs; simpl; [done | lia]).
  apply runs_bind, runs_bind, runs_get. rewrite (lg_n _ _ _ _ _ Hl), Nat2Z.id.
  eapply runs_mono; [apply (write_log_loop_spec bs 0 l d v _ w Hq); try done |].
  { intros k b. by apply (logged_lookup l d v bs w). }
  { apply Forall_forall. intros b Hb. by apply elem_of_list_to_set. }
  { intros b. by apply (logged_pinned l d v bs w). }
  { rewrite size_list_to_set; [done | by eapply lg_NoDup]. }
  intros [] l1 (c1 & -> & Hq1). cbv zeta in Hq1. set (W1 := copies (l_start l) 0 bs v) in *.
  destruct (logged_header l d v bs w (apply_writes W1 v) Hl) as (hb & Hco & Hlh & Hhb); [by eapply quiet_size |].
  apply runs_bind. eapply runs_mono; [apply (write_head_spec (set_cache c1 l) _ _ _ _ hb Hq1); simpl; try done |].
  { unfold on_disk. lia. }
  { eapply logged_room; [exact Hl |]. by rewrite size_singleton. }
  { by rewrite (lg_n _ _ _ _ _ Hl). }
  intros [] l2 (c2 & -> & Hq2). simpl in Hq2. rewrite difference_disjoint_L in Hq2 by (by apply disjoint_singleton_r).
  apply runs_bind, runs_bind, runs_get. simpl. rewrite (lg_n _ _ _ _ _ Hl), Nat2Z.id.
  set (D := <[l_start l := hb]> (apply_writes W1 d)) in *.
  eapply runs_mono; [apply (install_loop_spec bs 0 (set_cache c2 l) _ _ _ _ Hq2); simpl; try done |].
  { intros k b. by apply (logged_lookup l d v bs w). }
  { apply Hl. }
  { intros b. by apply (logged_pinned l d v bs w). }
  { intros b Hb. rewrite (subseteq_union_1_L {[b]}) by (by apply singleton_subseteq_l, elem_of_list_to_set).
    rewrite size_list_to_set; [done | by eapply lg_NoDup]. }
  { intros b Hb. apply (quiet_clean _ _ _ _ _ _ Hq2). intros [_ Hx]%(logged_pinned _ _ _ _ _ _ Hl). lia. }
  intros [] l3 (c3 & -> & Hq3). cbv zeta in Hq3. simpl in Hq3. rewrite difference_diag_L in Hq3.
  rewrite (installs_ext _ _ bs _ D) in Hq3.
  2: { intros i Hi. apply (quiet_clean _ _ _ _ _ _ Hq2). intros [_ Hx]%(logged_pinned _ _ _ _ _ _ Hl). lia. }
  set (W2 := installs (l_start l) 0 bs D) in *. apply runs_bind, runs_modify. simpl.
  set (V3 := apply_writes W2 _) in Hq3 at 2.
  destruct (header_encode (l_start l) V3 (lh_block (l_lh l)) 0)
    as (hb0 & Hco0 & Hlh0 & Hhb0); [by eapply quiet_size | done | lia | intros b; by rewrite take_0, elem_of_nil |].
  eapply runs_mono; [apply (write_head_spec (set_lh (mkHeader 0 (lh_block (l_lh l))) (set_cache c3 l)) _ _ _ _ hb0 Hq3); simpl; try done |].
  { unfold on_disk. lia. }
  { apply one_room. }
  intros [] l4 (c4 & -> & Hq4). simpl in Hq4. rewrite empty_difference in Hq4.
  eexists c4, _, hb, hb0. split; [done |]. split; [done |]. split; [intros d' Hd'; by apply Hhb0 |].
  cbv zeta. split.
  - rewrite !apply_writes_app, <- !app_assoc in *. simpl. rewrite apply_writes_app. exact Hq4.
  - apply Forall_app. split; [apply copies_sized; intros b; apply (quiet_size _ _ _ _ _ b Hq) |].
    apply Forall_cons. split; [done |]. apply Forall_app. split; [| by apply Forall_singleton].
    apply installs_sized. intros b. apply (quiet_size _ _ _ _ _ b Hq2).
Qed.

Lemma commit_spec (l : log S) d v bs w :
  logged l d v bs w ->
  runs commit l (fun _ l' => exists c' v' ws,
    l' = set_cache c' (set_lh (mkHeader 0 (lh_block (l_lh l))) l) /\
    quiet c' (apply_writes ws d) v' ∅ (w ++ ws) /\ hdr_n (l_start l) (apply_writes ws d) = 0 /\
    (forall bn, home disksize (l_start l) (l_size l) bn -> apply_writes ws d bn = v bn) /\
    atomic (l_start l) (l_size l) ws d v /\ sized ws).
Proof.
  intros Hl. pose proof (lg_quiet _ _ _ _ _ Hl) as Hq.
  assert (Hvd : forall b, b ∉ bs -> v b = d b).
  { intros b Hb. apply (quiet_clean _ _ _ _ _ _ Hq). by rewrite elem_of_list_to_set. }
  pose proof (lg_geometry _ _ _ _ _ Hl) as (_ & Hst & Hsz & _).
  destruct (decide (bs = [])) as [->|Hne].
  - unfold commit. apply runs_bind, runs_get. rewrite (lg_n _ _ _ _ _ Hl). simpl.
    apply runs_ret. exists (l_cache l), v, []. rewrite app_nil_r. split; [| split; [exact Hq |]].
    + pose proof (lg_n _ _ _ _ _ Hl) as Hn. destruct l as [c st sz o cm dv [n blk]]. simpl in *. by subst.
    + split; [apply Hl |]. split; [intros bn _; symmetry; apply Hvd, not_elem_of_nil |].
      split; [| constructor].
      intros k. rewrite take_nil. split; [apply header_ok_zero; [apply Hl | done] |]. left.
      intros bn _. apply logical_clean, Hl.
  - eapply runs_mono; [by apply commit_run |].
    intros [] l' (c' & v' & hb & hb0 & -> & Hhb & Hhb0 & Hq' & Hws). cbv zeta in Hq'.
    destruct (lg_fits _ _ _ _ _ Hl) as [Hfit Hroom].
    destruct (commit_atomic (l_start l) (l_size l) d v bs hb _ hb0 _ Hst Hfit (lg_NoDup _ _ _ _ _ Hl)
      (lg_home _ _ _ _ _ Hl) Hroom Hvd (lg_clean _ _ _ _ _ Hl) Hhb Hhb0 eq_refl eq_refl) as (Hat & Hz & Hf).
    eexists c', v', _. split; [done |]. split; [exact Hq' |].
    split; [exact Hz |]. done.
Qed.

(** ** Recording a block *)

(** The blocks of the log after one more [log_write]. *)
Definition absorbed (bn : Z) (bs : list Z) : list Z := if decide (bn ∈ bs) then bs else bs ++ [bn].

Lemma absorb_spec bn blocks count : forall i,
  (forall b, b ∈ take count (drop i blocks) -> 0 <= b < 4294967296) ->
  (i + count <= length blocks)%nat ->
  exists j, absorb bn blocks i count = Ok j /\ (i <= j <= i + count)%nat /\
    (forall k b, (i <= k < j)%nat -> blocks !! k = Some b -> b <> bn) /\
    ((j < i + count)%nat -> blocks !! j = Some bn).
Proof.
  induction count as [|count IH]; intros i Hb Hl; simpl.
  - exists i. split; [done |]. split; [lia |]. split; intros; lia.
  - destruct (lookup_lt_is_Some_2 blocks i) as [b Hi]; [lia |].
    rewrite (proj2 (arr_get_Ok _ _ b)) by (rewrite Nat2Z.id; split; [lia | done]). simpl.
    rewrite (drop_S _ _ _ Hi) in Hb. simpl in Hb. rewrite u32_small by (apply Hb; by left).
    destruct (Z.eqb_spec b bn) as [->|Hne].
    + exists i. split; [done |]. split; [lia |]. split; [intros; lia | done].
    + destruct (IH (Datatypes.S i)) as (j & -> & Hj & Hlo & Hhi); [intros c Hc; apply Hb; by right | lia |].
      exists j. split; [done |]. split; [lia |]. split; [| intros; apply Hhi; lia].
      intros k c Hk Hc. destruct (decide (k = i)) as [->|]; [congruence | apply (Hlo k); [lia | done]].
Qed.

(** The header after [log_write] of block [bn]. *)
Lemma absorbed_header bn bs blocks j :
  take (length bs) blocks = bs -> (length bs < length blocks)%nat -> (j <= length bs)%nat ->
  (forall k b, (k < j)%nat -> blocks !! k = Some b -> b <> bn) ->
  ((j < length bs)%nat -> blocks !! j = Some bn) ->
  (if Z.of_nat j =? Z.of_nat (length bs) then Z.of_nat (length bs) + 1 else Z.of_nat (length bs)) =
    Z.of_nat (length (absorbed bn bs)) /\
  take (length (absorbed bn bs)) (<[j := bn]> blocks) = absorbed bn bs.
Proof.
  intros Hbs Hlen Hj Hlo Hhi. unfold absorbed.
  assert (Hpre : forall k, (k < length bs)%nat -> bs !! k = blocks !! k).
  { intros k Hk. rewrite <- Hbs at 1. by rewrite lookup_take_lt. }
  destruct (Z.eqb_spec (Z.of_nat j) (Z.of_nat (length bs))) as [He|Hne].
  - assert (j = length bs) as -> by lia. rewrite decide_False.
    + rewrite length_app. simpl. split; [lia |].
      rewrite Nat.add_1_r, (take_S_r _ _ bn) by (by apply list_lookup_insert_eq).
      by rewrite take_insert_ge, Hbs by lia.
    + intros [k Hk]%list_elem_of_lookup. pose proof (lookup_lt_Some _ _ _ Hk) as Hlt.
      rewrite Hpre in Hk by done. by eapply (Hlo k).
  - assert (blocks !! j = Some bn) as Hjb by (apply Hhi; lia). rewrite decide_True.
    + split; [done |]. by rewrite list_insert_id.
    + apply list_elem_of_lookup. exists j. by rewrite Hpre by lia.
Qed.

Lemma log_record_spec (l : log S) a bs i bn :
  log_geometry l -> c_rep (l_cache l) a -> a_held a !! i = Some bn -> on_disk disksize bn ->
  lh_n (l_lh l) = Z.of_nat (length bs) -> take (length bs) (lh_block (l_lh l)) = bs ->
  Forall (home disksize (l_start l) (l_size l)) bs -> Z.of_nat (length bs) < LOGSIZE ->
  runs (log_record i) l (fun _ l' => exists c' blocks,
    l' = set_cache c' (set_lh (mkHeader (Z.of_nat (length (absorbed bn bs))) blocks) l) /\
    length blocks = Z.to_nat LOGSIZE /\ take (length (absorbed bn bs)) blocks = absorbed bn bs /\
    c_rep c' (with_pinned ({[bn]} ∪ a_pinned a) a)).
Proof.
  intros (_ & _ & _ & _ & Hds & Hlb) Hr Hi Hbn Hn Hbs Hhome Hfit.
  unfold log_record. apply runs_bind, runs_get, runs_bind. cbv zeta. unfold id.
  eapply (runs_lift_st l_cache set_cache). eapply runs_mono; [by eapply c_blockno_law |].
  intros r c1 [-> Hr1]. rewrite Hn, Nat2Z.id. apply runs_bind.
  destruct (absorb_spec bn (lh_block (l_lh l)) (length bs) 0) as (j & Hab & Hj & Hlo & Hhi).
  { rewrite drop_0, Hbs. intros b Hb. rewrite Forall_forall in Hhome. apply Hhome in Hb as [Hb _].
    unfold on_disk in Hb. lia. }
  { lia. }
  eapply runs_lift; [exact Hab |]. apply runs_bind.
  unfold on_disk in Hbn. rewrite i32_small by lia.
  eapply runs_lift; [apply arr_set_in; lia |]. rewrite Nat2Z.id. apply runs_bind, runs_modify.
  destruct (absorbed_header bn bs (lh_block (l_lh l)) j) as [Hnew Htake]; [done | lia | lia | | |].
  { intros k b Hk. apply Hlo. lia. } { intros Hk. apply Hhi. lia. }
  rewrite Hnew. eapply (runs_lift_st l_cache set_cache).
  eapply runs_mono; [eapply c_set_dirty_law; [exact Hr1 | exact Hi] |]. intros [] c2 Hr2.
  eexists c2, _. split; [done |]. split; [by rewrite length_insert |]. done.
Qed.

(** The file system after the updates of a transaction. *)
Definition updated (us : list (Z * (block -> block))) (v : Z -> block) : Z -> block :=
  foldl (fun v u => <[fst u := snd u (v (fst u))]> v) v us.

Definition same_log (l l' : log S) : Prop :=
  l_outstanding l' = l_outstanding l /\ l_committing l' = l_committing l /\
  l_start l' = l_start l /\ l_size l' = l_size l.

Lemma absorbed_length bn bs : (length (absorbed bn bs) <= 1 + length bs)%nat.
Proof. unfold absorbed. case_decide; [lia |]. rewrite length_app. simpl. lia. Qed.

Lemma absorbed_NoDup bn bs : NoDup bs -> NoDup (absorbed bn bs).
Proof.
  intros Hnd. unfold absorbed. case_decide; [done |]. apply NoDup_app. split; [done |].
  split; [set_solver | apply NoDup_singleton].
Qed.

Lemma absorbed_Forall (P : Z -> Prop) bn bs : P bn -> Forall P bs -> Forall P (absorbed bn bs).
Proof.
  intros Hb Hbs. unfold absorbed. case_decide; [done |]. apply Forall_app. split; [done |].
  by apply Forall_singleton.
Qed.

Lemma absorbed_set bn bs : {[bn]} ∪ list_to_set bs = (list_to_set (absorbed bn bs) : gset Z).
Proof.
  unfold absorbed. case_decide; [| rewrite list_to_set_app_L; set_solver].
  apply subseteq_union_1_L. by apply singleton_subseteq_l, elem_of_list_to_set.
Qed.

Lemma update_block_spec (l : log S) d v bs w bn f :
  logged l d v bs w -> 1 <= l_outstanding l -> home disksize (l_start l) (l_size l) bn ->
  (forall x, length x = BSIZE -> length (f x) = BSIZE) ->
  Z.of_nat (length bs) < l_size l - 1 -> (1 + length bs < NBUF)%nat ->
  runs (update_block bn f) l (fun _ l' =>
    logged l' d (<[bn := f (v bn)]> v) (absorbed bn bs) w /\ same_log l l').
Proof.
  intros Hl Ho Hbn Hf Hfit Hroom. pose proof Hl as [Hg Hq Hn Hbs Hnd Hhome _ Hcl].
  pose proof (absorbed_length bn bs) as Hal. pose proof Hbn as [Hbd Hbl].
  assert (Hql : quiet (H0 := log_spec l) l d v (list_to_set bs) w).
  { apply lquiet. split; [done |]. by rewrite set_cache_id. }
  unfold update_block. apply runs_bind, (open_first (H0 := log_spec l) _ _ _ _ _ _ _ Hql); [done | |].
  { eapply logged_room; [exact Hl |]. by rewrite size_singleton. }
  intros i l1 a Hr1 Hh1 Hd1 Hv1 Hp1 Hw1. assert (a_held a !! i = Some bn) as Hi by (by rewrite Hh1, lookup_singleton_eq).
  apply runs_bind. eapply runs_mono; [apply (c_bdata_law (CacheSpec := log_spec l) l1 a i bn Hr1 Hi) |].
  intros x l2 [-> Hr2]. apply runs_bind.
  eapply runs_mono; [apply (c_bdata_set_law (CacheSpec := log_spec l) l2 a i bn _ Hr2 Hi), Hf, (c_rep_size _ _ _ Hr1) |].
  intros [] l3 [Hr3 Hl3]. apply runs_bind. rewrite Hl3. set (l3' := set_cache (l_cache l3) l).
  destruct (log_record_spec l3' _ bs i bn Hg Hr3 Hi Hbd Hn Hbs Hhome)
    as (u & l4 & He & c4 & blocks & -> & Hlb & Htk & Hr4).
  { unfold NBUF, LOGSIZE, MAXOPBLOCKS in *. lia. }
  eexists u, _. split.
  { unfold log_write, bind at 1, get. cbn [rbind fst snd id]. simpl. rewrite Hn.
    unfold NBUF, LOGSIZE, MAXOPBLOCKS in *.
    rewrite (proj2 (Z.leb_gt _ _)), (proj2 (Z.leb_gt _ _)), (proj2 (Z.ltb_ge _ _)) by lia. exact He. }
  eapply (runs_lift_st l_cache set_cache).
  eapply runs_mono; [eapply (c_brelse_law _ _ i bn Hr4); [done |] |].
  { simpl. intros Hnp. exfalso. apply Hnp. set_solver. }
  intros [] c5 Hr5. split; [| done].
  destruct Hg as (Hg1 & Hg2 & Hg3 & Hg4 & Hg5 & _).
  split; simpl; try done.
  - eexists. split; [exact Hr5 |]. simpl. rewrite Hh1, delete_singleton_eq, Hv1, Hp1, absorbed_set. done.
  - by apply absorbed_NoDup.
  - by apply absorbed_Forall.
  - lia.
Qed.

Lemma update_blocks_spec us : forall (l : log S) d v bs w,
  logged l d v bs w -> 1 <= l_outstanding l ->
  Forall (fun u => home disksize (l_start l) (l_size l) (fst u) /\
    forall x, length x = BSIZE -> length (snd u x) = BSIZE) us ->
  Z.of_nat (length bs + length us) < l_size l -> (length bs + length us < NBUF)%nat ->
  runs (update_blocks us) l (fun _ l' => exists bs',
    logged l' d (updated us v) bs' w /\ same_log l l').
Proof.
  induction us as [|[bn f] us IH]; intros l d v bs w Hl Ho Hus Hfit Hroom.
  - apply runs_ret. exists bs. done.
  - apply Forall_cons in Hus as [[Hbn Hf] Hus]. simpl in Hbn, Hf, Hfit, Hroom. apply runs_bind.
    eapply runs_mono; [apply (update_block_spec l d v bs w); try done; lia |].
    intros [] l1 (Hl1 & Hs1). destruct Hs1 as (E1 & E2 & E3 & E4).
    pose proof (absorbed_length bn bs) as Hal.
    eapply runs_mono; [apply (IH l1 d _ _ w Hl1); rewrite ?E1, ?E3, ?E4; try done; lia |].
    intros [] l2 (bs2 & Hl2 & (F1 & F2 & F3 & F4)). exists bs2. split; [done |].
    unfold same_log. by rewrite F1, F2, F3, F4.
Qed.

Lemma logged_ext (l l' : log S) d v bs w :
  logged l d v bs w -> l_cache l' = l_cache l -> l_start l' = l_start l -> l_size l' = l_size l ->
  l_dev l' = l_dev l -> l_lh l' = l_lh l -> logged l' d v bs w.
Proof.
  intros [(Hg1 & Hg2 & Hg3 & Hg4 & Hg5 & Hg6) Hq Hn Hbs Hnd Hh Hf Hc] E1 E2 E3 E4 E5.
  split; unfold log_geometry; rewrite ?E1, ?E2, ?E3, ?E4, ?E5; done.
Qed.

(** Whatever prefix of the writes reached the disk, recovery makes it the old
    or the new file system. *)
Lemma atomic_recovers start size d v ws :
  atomic start size ws d v -> sized ws -> (forall bn, length (d bn) = BSIZE) ->
  forall k (l1 : log S), log_geometry l1 -> l_start l1 = start -> l_size l1 = size ->
    l_cache l1 = c_boot (apply_writes (take k ws) d) ->
    runs recover_from_log l1 (fun _ l2 => exists d2 w2,
      quiet (l_cache l2) d2 d2 ∅ w2 /\ hdr_n start d2 = 0 /\
      ((forall bn, home disksize start size bn -> d2 bn = d bn) \/
       (forall bn, home disksize start size bn -> d2 bn = v bn))).
Proof.
  intros Hat Hws Hd k l1 Hg <- <- Hc. destruct (Hat k) as [Hok Hcase].
  assert (Hlen : forall bn, length (apply_writes (take k ws) d bn) = BSIZE).
  { apply apply_writes_sized; [by apply Forall_take | done]. }
  eapply runs_mono; [apply (recover_spec l1 (apply_writes (take k ws) d) [] Hg); [| done] |].
  { rewrite Hc. by apply quiet_boot. }
  intros [] l2 (c2 & blocks & ws2 & -> & _ & Hq2 & _ & Hz2 & Hf2 & _). eexists _, _.
  split; [exact Hq2 |]. split; [done |].
  destruct Hcase as [Hcase|Hcase]; [left | right]; intros bn Hbn; by rewrite Hf2, Hcase.
Qed.

Lemma logged_empty (l l' : log S) d v bs w d' v' w' :
  logged l d v bs w -> quiet (l_cache l') d' v' ∅ w' -> hdr_n (l_start l) d' = 0 ->
  l_start l' = l_start l -> l_size l' = l_size l -> l_dev l' = l_dev l ->
  l_lh l' = mkHeader 0 (lh_block (l_lh l)) -> logged l' d' v' [] w'.
Proof.
  intros [(Hg1 & Hg2 & Hg3 & Hg4 & Hg5 & Hg6) Hq Hn Hbs Hnd Hh Hf Hc] Hq' Hz E2 E3 E4 E5.
  split; unfold log_geometry; rewrite ?E2, ?E3, ?E4, ?E5; try done; [constructor |]. simpl. unfold NBUF, MAXOPBLOCKS. lia.
Qed.

(** What the end of an operation leaves: [ws] has been written to [d], the
    log is empty in memory and on the disk, no operation is running, the disk
    holds [v]; and a crash after any number
    [k] of the writes leads to [d] or to [v]. *)
Definition durable (start size : Z) (d v : Z -> block) (w : list (Z * block)) (l' : log S) : Prop :=
  exists ws,
    (exists v', logged l' (apply_writes ws d) v' [] (w ++ ws)) /\ l_start l' = start /\ l_size l' = size /\
    l_outstanding l' = 0 /\ l_committing l' = 0 /\ hdr_n start (apply_writes ws d) = 0 /\
    (forall bn, home disksize start size bn -> apply_writes ws d bn = v bn) /\
    forall k l1, log_geometry l1 -> l_start l1 = start -> l_size l1 = size ->
      l_cache l1 = c_boot (apply_writes (take k ws) d) ->
      runs recover_from_log l1 (fun _ l2 => exists d2 w2,
        quiet (l_cache l2) d2 d2 ∅ w2 /\ hdr_n start d2 = 0 /\
        ((forall bn, home disksize start size bn -> d2 bn = d bn) \/
         (forall bn, home disksize start size bn -> d2 bn = v bn))).

Lemma end_op_durable (l : log S) d v bs w :
  logged l d v bs w -> l_outstanding l = 1 -> l_committing l = 0 ->
  runs end_op l (fun _ l' => durable (l_start l) (l_size l) d v w l').
Proof.
  intros Hl Ho Hcm. unfold end_op. apply runs_bind, runs_get. unfold id. rewrite Ho, Hcm. simpl.
  apply runs_bind, runs_modify, runs_bind, runs_modify, runs_bind.
  eapply runs_mono; [apply (commit_spec (set_committing 1 (set_outstanding 0 l)) d v bs w); by eapply logged_ext |].
  intros [] l2 (c2 & v' & ws & -> & Hq & Hz & Hf & Hat & Hws). apply runs_modify. simpl in *.
  exists ws. split; [exists v'; by apply (logged_empty l _ d v bs w) |]. do 6 (split; [done |]).
  apply atomic_recovers; [done | done |]. intros bn. apply (quiet_size _ _ _ _ _ bn (lg_quiet _ _ _ _ _ Hl)).
Qed.

Lemma begin_op_starts (l : log S) d v w (Q : unit -> log S -> Prop) :
  logged l d v [] w -> l_outstanding l = 0 -> l_committing l = 0 -> Q tt (set_outstanding 1 l) -> runs begin_op l Q.
Proof.
  intros Hl Ho Hcm HQ. exists tt, (set_outstanding 1 l). split; [| done].
  unfold begin_op, begin_op_try, bind, get. simpl. rewrite Hcm, (lg_n _ _ _ _ _ Hl), Ho. done.
Qed.

(** C1: A transaction is atomic and durable with respect to crashes. Starting
    with an empty log and no other operation running, a transaction that
    updates blocks [us] returns; then the disk holds the updated contents of
    every file system block and the log on the disk is empty. If the machine
    crashes after any number [k] of the block writes of the transaction and
    boots again, [recover_from_log] returns, leaves an empty log, and the disk
    holds either the old contents of every block or all the updates
    ([durable]). *)
Theorem transaction_atomic (l : log S) d w us
  (Hl : logged l d d [] w) (Ho : l_outstanding l = 0) (Hcm : l_committing l = 0)
  (Hus : Forall (fun u => home disksize (l_start l) (l_size l) (fst u) /\
    forall x, length x = BSIZE -> length (snd u x) = BSIZE) us)
  (Hfit : Z.of_nat (length us) < l_size l) (Hroom : (length us < NBUF)%nat) :
  runs (transaction us) l (fun _ l' => durable (l_start l) (l_size l) d (updated us d) w l').
Proof.
  unfold transaction. apply runs_bind, (begin_op_starts l d d w); [done | done | done |].
  apply runs_bind. eapply runs_mono; [apply (update_blocks_spec us (set_outstanding 1 l) d d [] w); try done |].
  { by eapply logged_ext. }
  intros [] l1 (bs & Hl1 & (E1 & E2 & E3 & E4)). simpl in E1, E2, E3, E4. rewrite <- E3, <- E4.
  eapply end_op_durable; [exact Hl1 | done |]. by rewrite E2.
Qed.

(** C20: A crash during recovery does no harm. Recovery from any disk with a
    well-formed log header returns with an empty log and every block as the
    log has it; and if the machine crashes after any number [k] of the block
    writes of the recovery, the next recovery gives the same file system. *)
Theorem recover_crash_safe (l : log S) d
  (Hg : log_geometry l) (Hd : forall bn, length (d bn) = BSIZE)
  (Hc : l_cache l = c_boot d) (Hok : header_ok disksize (l_start l) (l_size l) d) :
  runs recover_from_log l (fun _ l' => exists ws,
    quiet (l_cache l') (apply_writes ws d) (apply_writes ws d) ∅ ws /\
    hdr_n (l_start l) (apply_writes ws d) = 0 /\
    (forall bn, home disksize (l_start l) (l_size l) bn -> apply_writes ws d bn = logical (l_start l) d bn) /\
    forall k l1, log_geometry l1 -> l_start l1 = l_start l -> l_size l1 = l_size l ->
      l_cache l1 = c_boot (apply_writes (take k ws) d) ->
      runs recover_from_log l1 (fun _ l2 => exists d2 w2,
        quiet (l_cache l2) d2 d2 ∅ w2 /\ hdr_n (l_start l) d2 = 0 /\
        forall bn, home disksize (l_start l) (l_size l) bn -> d2 bn = logical (l_start l) d bn)).
Proof.
  eapply runs_mono; [apply (recover_spec l d [] Hg); [rewrite Hc; by apply quiet_boot | done] |].
  intros [] l' (c' & blocks & ws & -> & _ & Hq & Hp & Hz & Hf & Hws). exists ws.
  split; [done |]. split; [done |]. split; [done |]. intros k l1 Hg1 Hs Hsz Hc1.
  destruct (Hp k) as [Hok1 Hlog]. rewrite <- Hs, <- Hsz in *.
  eapply runs_mono; [apply (recover_spec l1 (apply_writes (take k ws) d) [] Hg1); [| done] |].
  { rewrite Hc1. apply quiet_boot, apply_writes_sized; [by apply Forall_take | done]. }
  intros [] l2 (c2 & blocks2 & ws2 & -> & _ & Hq2 & _ & Hz2 & Hf2 & _). eexists _, _.
  split; [exact Hq2 |]. split; [done |]. intros bn Hbn. by rewrite Hf2, Hlog.
Qed.
End proofs.

(** ** Reservations *)

(** Concurrent operations: each entry of the list is the number of blocks an
    operation has added to the log since its [begin_op]. An operation adds at
    most MAXOPBLOCKS blocks; the calls of different operations interleave. *)
Section reservation.
Context {S : Type} `{CacheOps S}.

Inductive txn_step : log S * list Z -> log S * list Z -> Prop :=
| txn_begin l us l' :
    begin_op_try l = Ok (true, l') -> txn_step (l, us) (l', us ++ [0])
| txn_wait l us l' :
    begin_op_try l = Ok (false, l') -> txn_step (l, us) (l', us)
| txn_write l us j u b l' :
    us !! j = Some u -> log_write b l = Ok (tt, l') ->
    u + (lh_n (l_lh l') - lh_n (l_lh l)) <= MAXOPBLOCKS ->
    txn_step (l, us) (l', <[j := u + (lh_n (l_lh l') - lh_n (l_lh l))]> us)
| txn_end l us j u l' :
    us !! j = Some u -> end_op l = Ok (tt, l') -> txn_step (l, us) (l', delete j us).

Fixpoint unused (us : list Z) : Z :=
  match us with [] => 0 | u :: us' => (MAXOPBLOCKS - u) + unused us' end.

(** The space of the log minus what is still reserved. *)
Definition reserved (x : log S * list Z) : Prop :=
  let '(l, us) := x in
  l_committing l = 0 /\ l_outstanding l = Z.of_nat (length us) /\ 0 <= lh_n (l_lh l) /\
  Forall (fun u => 0 <= u <= MAXOPBLOCKS) us /\ lh_n (l_lh l) + unused us <= LOGSIZE.

(** Code that changes nothing but the cache. *)
Definition cache_only {A} (c : ST (log S) A) : Prop :=
  forall l a l', c l = Ok (a, l') -> l' = set_cache (l_cache l') l.

Lemma cache_only_io {A} (c : ST S A) : cache_only (io c).
Proof.
  intros l a l' He. unfold io, lift_st in He. apply rbind_Ok in He as ([b s] & _ & He).
  simpl in He. by injection He as _ <-.
Qed.

Lemma cache_only_bind {A B} (c : ST (log S) A) (k : A -> ST (log S) B) :
  cache_only c -> (forall a, cache_only (k a)) -> cache_only (bind c k).
Proof.
  intros Hc Hk l b l' He. apply bind_Ok in He as (a & l1 & H1 & H2).
  apply Hc in H1. apply Hk in H2. rewrite H2, H1. done.
Qed.

Lemma cache_only_ret {A} (a : A) : cache_only (ret a).
Proof. intros [] b l' [= _ <-]. done. Qed.

Lemma cache_only_get {A} (f : log S -> A) : cache_only (get f).
Proof. intros [] b l' [= _ <-]. done. Qed.

Lemma cache_only_lift {A} (c : res A) : cache_only (lift c).
Proof. intros [] b l' He. unfold lift in He. by destruct c; simplify_eq/=. Qed.

Lemma cache_only_lh_at i : cache_only (lh_at i).
Proof. intros [] b l' He. unfold lh_at in He. by destruct (arr_get _ _); simplify_eq/=. Qed.

Create HintDb frame.
#[local] Hint Resolve cache_only_io cache_only_bind cache_only_ret cache_only_get cache_only_lift
  cache_only_lh_at : frame.

Lemma install_loop_frame tail count : cache_only (install_loop tail count).
Proof. revert tail. induction count; intros tail; simpl; auto 20 with frame. Qed.

Lemma write_log_loop_frame tail count : cache_only (write_log_loop tail count).
Proof. revert tail. induction count; intros tail; simpl; auto 20 with frame. Qed.

#[local] Hint Resolve install_loop_frame write_log_loop_frame : frame.

Lemma write_head_frame : cache_only write_head.
Proof. unfold write_head. auto 20 with frame. Qed.

#[local] Hint Resolve write_head_frame : frame.

Lemma commit_frame l l' :
  commit l = Ok (tt, l') ->
  exists c h, l' = set_cache c (set_lh h l) /\ lh_n h = (if 0 <? lh_n (l_lh l) then 0 else lh_n (l_lh l)).
Proof.
  unfold commit. intros He. apply bind_Ok in He as (n & l0 & [= <- <-] & He).
  destruct (0 <? lh_n (l_lh l)).
  - apply bind_Ok in He as (u1 & l1 & H1 & He). apply bind_Ok in He as (u2 & l2 & H2 & He).
    apply bind_Ok in He as (u3 & l3 & H3 & He). apply bind_Ok in He as (u4 & l4 & [= _ <-] & He).
    assert (cache_only write_log) as F1 by (unfold write_log; auto with frame).
    assert (cache_only install_trans) as F3 by (unfold install_trans; auto with frame).
    apply F1 in H1. apply write_head_frame in H2. apply F3 in H3. apply write_head_frame in He.
    rewrite He, H3, H2, H1. eexists _, _. split; [done |]. done.
  - injection He as <-. exists (l_cache l), (l_lh l). split; [by destruct l | done].
Qed.

Lemma log_write_frame b l l' :
  log_write b l = Ok (tt, l') ->
  exists c h, l' = set_cache c (set_lh h l) /\ (lh_n h = lh_n (l_lh l) \/ lh_n h = lh_n (l_lh l) + 1).
Proof.
  unfold log_write. intros He. apply bind_Ok in He as (l0 & l1 & [= <- <-] & He).
  destruct (_ || _); [done |]. destruct (_ <? _); [done |]. unfold log_record in He.
  apply bind_Ok in He as (l0 & l1 & [= <- <-] & He).
  apply bind_Ok in He as (bn & l1 & H1 & He). apply cache_only_io in H1.
  apply bind_Ok in He as (i & l2 & H2 & He). apply cache_only_lift in H2.
  apply bind_Ok in He as (bs & l3 & H3 & He). apply cache_only_lift in H3.
  apply bind_Ok in He as (u & l4 & [= _ <-] & He). apply cache_only_io in He.
  rewrite He, H3, H2, H1. eexists _, _. split; [done |]. simpl. destruct (_ =? _); auto.
Qed.

Lemma end_op_frame l l' :
  end_op l = Ok (tt, l') -> l_committing l = 0 ->
  l_committing l' = 0 /\ l_outstanding l' = l_outstanding l - 1 /\ l_size l' = l_size l /\
  lh_n (l_lh l') = (if (l_outstanding l =? 1) && (0 <? lh_n (l_lh l)) then 0 else lh_n (l_lh l)).
Proof.
  unfold end_op. intros He Hcm. apply bind_Ok in He as (l0 & l1 & [= <- <-] & He).
  apply bind_Ok in He as (u & l1 & [= _ <-] & He). rewrite Hcm in He. simpl in He.
  destruct (Z.eqb_spec (l_outstanding l - 1) 0), (Z.eqb_spec (l_outstanding l) 1); try lia.
  - apply bind_Ok in He as (u1 & l2 & [= _ <-] & He). apply bind_Ok in He as ([] & l3 & H3 & [= <-]).
    apply commit_frame in H3 as (c & h & -> & Hh). done.
  - injection He as <-. done.
Qed.

Lemma unused_app us vs : unused (us ++ vs) = unused us + unused vs.
Proof. induction us; cbn [app unused] in *; lia. Qed.

Lemma unused_middle us j u : us !! j = Some u ->
  unused us = unused (take j us) + (MAXOPBLOCKS - u) + unused (drop (Datatypes.S j) us).
Proof.
  intros Hj. rewrite <- (take_drop_middle us j u Hj) at 1. rewrite unused_app. cbn [unused]. lia.
Qed.

Lemma unused_bound us : Forall (fun u => 0 <= u <= MAXOPBLOCKS) us -> 
  0 <= unused us <= MAXOPBLOCKS * Z.of_nat (length us).
Proof. induction 1; cbn [unused length] in *; lia. Qed.

Lemma reserved_step x y : reserved x -> txn_step x y -> reserved y.
Proof.
  intros Hx Hs. destruct Hs as [l us l' He | l us l' He | l us j u b l' Hj He Hu | l us j u l' Hj He];
    destruct Hx as (Hcm & Ho & Hn & Hus & Hsum).
  - unfold begin_op_try in He. apply bind_Ok in He as (l0 & l1 & [= <- <-] & He). rewrite Hcm in He. simpl in He.
    destruct (Z.ltb_spec LOGSIZE (lh_n (l_lh l) + (l_outstanding l + 1) * MAXOPBLOCKS)) as [|Hle]; [done |].
    injection He as <-. simpl. split; [done |]. split; [rewrite length_app; simpl; lia |]. split; [done |].
    pose proof (unused_bound us Hus). split.
    + apply Forall_app. split; [done |]. apply Forall_singleton. unfold MAXOPBLOCKS. lia.
    + rewrite unused_app. cbn [unused]. lia.
  - unfold begin_op_try in He. apply bind_Ok in He as (l0 & l1 & [= <- <-] & He).
    destruct (negb _); [by injection He as <- |]. destruct (_ <? _); [by injection He as <- | done].
  - apply log_write_frame in He as (c & h & -> & Hh). simpl in *.
    assert (0 <= u <= MAXOPBLOCKS) by (by eapply (Forall_lookup_1 _ _ _ _ Hus)).
    split; [done |]. split; [by rewrite length_insert |]. split; [lia |]. split.
    + apply Forall_insert; [done | lia].
    + pose proof (unused_middle _ _ _ Hj) as Hm. apply lookup_lt_Some in Hj.
      pose proof (unused_middle (<[j := u + (lh_n h - lh_n (l_lh l))]> us) j _
        (list_lookup_insert_eq _ _ _ Hj)) as Hm'.
      rewrite take_insert_ge, drop_insert_lt in Hm' by lia. lia.
  - apply end_op_frame in He as (Hcm' & Ho' & _ & Hn'); [| done].
    assert (0 <= u <= MAXOPBLOCKS) by (by eapply (Forall_lookup_1 _ _ _ _ Hus)).
    pose proof (unused_middle _ _ _ Hj) as Hm. pose proof (lookup_lt_Some _ _ _ Hj) as Hlt.
    assert (unused (delete j us) = unused (take j us) + unused (drop (Datatypes.S j) us)) as Hd.
    { by rewrite delete_take_drop, unused_app. }
    assert (0 <= lh_n (l_lh l') <= lh_n (l_lh l)) as Hn2 by (rewrite Hn'; destruct (_ && _); lia).
    split; [done |]. split; [rewrite length_delete by eauto; lia |]. split; [lia |].
    split; [by apply Forall_delete | lia].
Qed.

(** Space in the log is never overcommitted. However the calls of
    concurrent operations interleave, as long as each operation adds at most
    MAXOPBLOCKS blocks, an operation that has not used up its share passes
    both checks of [log_write], if the log area has room for LOGSIZE blocks
    besides the header. *)
Theorem log_write_never_too_big (l0 l : log S) us j u b
  (Hinit : l_committing l0 = 0 /\ l_outstanding l0 = 0 /\ lh_n (l_lh l0) = 0)
  (Hreach : rtc txn_step (l0, []) (l, us))
  (Hj : us !! j = Some u) (Hu : u < MAXOPBLOCKS) (Hsize : LOGSIZE < l_size l) :
  log_write b l = log_record b l.
Proof.
  assert (reserved (l, us)) as (_ & Ho & Hn & Hus & Hsum).
  { eapply (rtc_invariant txn_step reserved); [apply reserved_step | | exact Hreach].
    destruct Hinit as (H1 & H2 & H3). simpl. rewrite H1, H2, H3. unfold LOGSIZE, MAXOPBLOCKS.
    split; [done |]. split; [done |]. split; [lia |]. split; [constructor | lia]. }
  pose proof (unused_middle _ _ _ Hj) as Hm. pose proof (lookup_lt_Some _ _ _ Hj) as Hlt.
  pose proof (unused_bound _ (Forall_take _ j _ Hus)) as Hb1.
  pose proof (unused_bound _ (Forall_drop _ (Datatypes.S j) _ Hus)) as Hb2.
  unfold log_write, bind at 1, get. cbn [rbind fst snd id].
  rewrite (proj2 (Z.leb_gt _ _)), (proj2 (Z.leb_gt _ _)), (proj2 (Z.ltb_ge _ _)) by lia. done.
Qed.
End reservation.

(** ** The log on the buffer cache of bio.c *)

(** After boot from disk [d] with a log area of [size] blocks from block 2 on. *)
Definition boot_on (d : Z -> block) (size : Z) : log bio :=
  mkLog (bio_boot d) 2 size 0 0 1 (mkHeader 0 (replicate (Z.to_nat LOGSIZE) 0)).

(** A disk of zeroes. *)
Definition zero_disk (bn : Z) : block := replicate BSIZE 0.

Definition boot_log (size : Z) : log bio := boot_on zero_disk size.

#[local] Opaque bio_boot.

Lemma zero_disk_size bn : length (zero_disk bn) = BSIZE.
Proof. apply length_replicate. Qed.

Lemma boot_on_geometry d size : 0 < size <= 98 -> log_geometry (disksize := 200) (boot_on d size).
Proof.
  intros Hs. unfold log_geometry. simpl l_dev. simpl l_start. simpl l_size.
  repeat split; lia.
Qed.

Lemma boot_on_logged (d : Z -> block) size :
  0 < size <= 98 -> (forall bn, length (d bn) = BSIZE) -> hdr_n 2 d = 0 ->
  logged (H0 := bio_spec 200) (boot_on d size) d d [] [].
Proof.
  intros Hs Hd Hz. split; try done.
  - by apply boot_on_geometry.
  - by apply (quiet_boot (H0 := bio_spec 200)).
  - constructor.
  - split; [simpl; lia | unfold NBUF, MAXOPBLOCKS; simpl; lia].
Qed.

Lemma boot_log_geometry size : 0 < size <= 98 -> log_geometry (disksize := 200) (boot_log size).
Proof. apply boot_on_geometry. Qed.

Lemma boot_log_logged size :
  0 < size <= 98 -> logged (H0 := bio_spec 200) (boot_log size) zero_disk zero_disk [] [].
Proof. intros Hs. by apply boot_on_logged; [| apply zero_disk_size |]. Qed.

Lemma transaction_atomic_witness :
  runs (transaction (H := bio_ops 200) [(150, fun _ => replicate BSIZE 7)]) (boot_log 30)
    (fun _ l' => exists ws v', quiet (H0 := bio_spec 200) (l_cache l') (apply_writes ws zero_disk) v' ∅ ws /\
       apply_writes ws zero_disk 150 = replicate BSIZE 7).
Proof.
  eapply runs_mono.
  - apply (transaction_atomic (H0 := bio_spec 200) (boot_log 30) zero_disk []
      [(150, fun _ => replicate BSIZE 7)] (boot_log_logged 30 ltac:(lia))); try reflexivity.
    + apply Forall_singleton. split; [| intros x _; apply length_replicate].
      unfold home, on_disk. simpl. lia.
    + unfold NBUF, MAXOPBLOCKS. simpl. lia.
  - intros [] l' (ws & (v' & Hq) & _ & _ & _ & _ & _ & Hf & _). exists ws, v'. split; [apply Hq |].
    rewrite Hf; [reflexivity |]. unfold home, on_disk. simpl. lia.
Defined.

Lemma recover_crash_safe_witness :
  runs (recover_from_log (H := bio_ops 200)) (boot_log 30) (fun _ l' => exists ws,
    quiet (H0 := bio_spec 200) (l_cache l') (apply_writes ws zero_disk) (apply_writes ws zero_disk) ∅ ws).
Proof.
  eapply runs_mono.
  - apply (recover_crash_safe (H0 := bio_spec 200) (boot_log 30) zero_disk).
    + apply boot_log_geometry. lia.
    + apply zero_disk_size.
    + reflexivity.
    + apply header_ok_zero; [reflexivity | simpl; lia].
  - intros [] l' (ws & Hq & _). by exists ws.
Defined.

Lemma log_write_never_too_big_witness :
  log_write (H := bio_ops 200) 0 (set_outstanding 1 (boot_log 40)) =
  log_record (H := bio_ops 200) 0 (set_outstanding 1 (boot_log 40)).
Proof.
  apply (log_write_never_too_big (H := bio_ops 200) (boot_log 40) _ [0] 0 0 0).
  - repeat split.
  - apply rtc_once. apply (txn_begin (boot_log 40) []). reflexivity.
  - reflexivity.
  - unfold MAXOPBLOCKS. lia.
  - unfold LOGSIZE, MAXOPBLOCKS. simpl. lia.
Defined.

#[local] Transparent bio_boot.

