(* ===== verification/Tx.v ===== *)
(** * What the log promises to the file system

    The file system code of fs.c runs inside a transaction: it reads blocks
    through the buffer cache and reports the ones it changed with
    [log_write]. [TxOps] are the calls it makes, [TxSpec] what they do to the
    abstract state of the transaction. The log of Log.v, on any buffer cache,
    satisfies the interface; ending the transaction makes the view of the file
    system durable, all or nothing. *)

From stdpp Require Import gmap functions.
From S2P Require Import Prelude Params Bytes Cache Log.

(** ** Sizes of sets *)

Lemma size_difference_le (X Y : gset Z) : (size (X ∖ Y) <= size X)%nat.
Proof. apply subseteq_size. intros y Hy%elem_of_difference. tauto. Qed.

Lemma size_union_le (X Y : gset Z) : (size (X ∪ Y) <= size X + size Y)%nat.
Proof. rewrite size_union_alt. pose proof (size_difference_le Y X). lia. Qed.

Lemma size_list_to_set_le (l : list Z) : (size (list_to_set l : gset Z) <= length l)%nat.
Proof.
  induction l as [|x l IH]; [done |]. cbn [list_to_set length].
  pose proof (size_union_le {[x]} (list_to_set l)). rewrite size_singleton in *. lia.
Qed.

(** ** The interface *)

(** [x_view]: the blocks as the transaction sees them. [x_held]: the buffers
    in use and the block in each. [x_logged]: the blocks the transaction has
    logged. [x_dirty]: blocks in use that have changed since. *)
Record tx := mkTx {
  x_view : Z -> block;
  x_held : gmap nat Z;
  x_logged : gset Z;
  x_dirty : gset Z
}.

Class TxOps (T : Type) := {
  t_bread : Z -> Z -> ST T nat;
  t_brelse : nat -> ST T unit;
  t_bdata : nat -> ST T block;
  t_bdata_set : nat -> block -> ST T unit;
  t_log_write : nat -> ST T unit
}.

(** [area]: the blocks of the file system. [cap]: how many blocks the
    transaction may log. Up to three buffers may be in use at a time. *)
Class TxSpec (T : Type) (area : Z -> Prop) (cap : nat) `{TxOps T} := {
  t_rep : T -> tx -> Prop;
  t_rep_size s x bn : t_rep s x -> length (x_view x bn) = BSIZE;
  t_bread_law s x bn :
    t_rep s x -> area bn -> (forall i, x_held x !! i <> Some bn) -> (size (x_held x) <= 2)%nat ->
    runs (t_bread 1 bn) s (fun i s' =>
      t_rep s' (mkTx (x_view x) (<[i := bn]> (x_held x)) (x_logged x) (x_dirty x)) /\ x_held x !! i = None);
  t_brelse_law s x i bn :
    t_rep s x -> x_held x !! i = Some bn -> bn ∉ x_dirty x ->
    runs (t_brelse i) s (fun _ s' =>
      t_rep s' (mkTx (x_view x) (delete i (x_held x)) (x_logged x) (x_dirty x)));
  t_bdata_law s x i bn :
    t_rep s x -> x_held x !! i = Some bn ->
    runs (t_bdata i) s (fun d s' => d = x_view x bn /\ t_rep s' x);
  t_bdata_set_law s x i bn d :
    t_rep s x -> x_held x !! i = Some bn -> length d = BSIZE ->
    runs (t_bdata_set i d) s (fun _ s' =>
      t_rep s' (mkTx (<[bn := d]> (x_view x)) (x_held x) (x_logged x) ({[bn]} ∪ x_dirty x)));
  t_log_write_law s x i bn :
    t_rep s x -> x_held x !! i = Some bn -> area bn -> (size ({[bn]} ∪ x_logged x) <= cap)%nat ->
    runs (t_log_write i) s (fun _ s' =>
      t_rep s' (mkTx (x_view x) (x_held x) ({[bn]} ∪ x_logged x) (x_dirty x ∖ {[bn]})))
}.

(** ** Reading and updating one block *)

Section patterns.
Context {T : Type} {area : Z -> Prop} {cap : nat} `{TxSpec T area cap}.

(** Between the calls of fs.c: no block in use is dirty. *)
Definition settled (s : T) (v : Z -> block) (h : gmap nat Z) (L : gset Z) : Prop :=
  t_rep s (mkTx v h L ∅).

Definition unheld (h : gmap nat Z) (bn : Z) : Prop := forall i, h !! i <> Some bn.

Lemma unheld_empty bn : unheld ∅ bn.
Proof. intros i. by rewrite lookup_empty. Qed.

Lemma held_none : (size (∅ : gmap nat Z) <= 2)%nat.
Proof. rewrite map_size_empty. lia. Qed.

Lemma settled_size s v h L bn : settled s v h L -> length (v bn) = BSIZE.
Proof. intros Hs. apply (t_rep_size _ _ bn Hs). Qed.

(** [bp = bread(...)] and a look at [bp->data]. *)
Lemma tx_open {B} s v h L bn (k : nat -> block -> ST T B) (Q : B -> T -> Prop) :
  settled s v h L -> area bn -> unheld h bn -> (size h <= 2)%nat ->
  (forall i s', settled s' v (<[i := bn]> h) L -> h !! i = None -> runs (k i (v bn)) s' Q) ->
  runs (let* i := t_bread 1 bn in let* d := t_bdata i in k i d) s Q.
Proof.
  intros Hs Ha Hu Hh HQ. apply runs_bind. eapply runs_mono; [apply (t_bread_law _ _ bn Hs); done |].
  intros i s1 [Hs1 Hi]. apply runs_bind.
  eapply runs_mono; [apply (t_bdata_law _ _ i bn Hs1), lookup_insert_eq |].
  intros d s2 [-> Hs2]. by apply (HQ i s2).
Qed.

Lemma tx_close s v h L i bn (Q : unit -> T -> Prop) :
  settled s v (<[i := bn]> h) L -> h !! i = None -> (forall s', settled s' v h L -> Q tt s') ->
  runs (t_brelse i) s Q.
Proof.
  intros Hs Hi HQ. eapply runs_mono; [apply (t_brelse_law _ _ i bn Hs); [apply lookup_insert_eq | set_solver] |].
  intros [] s1 Hs1. apply HQ. cbn [x_view x_held x_logged x_dirty] in Hs1.
  by rewrite delete_insert_id in Hs1.
Qed.

(** [bp->data] changes and the block is logged. *)
Lemma tx_log s v h L i bn d (Q : unit -> T -> Prop) :
  settled s v (<[i := bn]> h) L -> area bn -> (size ({[bn]} ∪ L) <= cap)%nat -> length d = BSIZE ->
  (forall s', settled s' (<[bn := d]> v) (<[i := bn]> h) ({[bn]} ∪ L) -> Q tt s') ->
  runs (t_bdata_set i d ;;; t_log_write i) s Q.
Proof.
  intros Hs Ha Hc Hd HQ. apply runs_bind.
  eapply runs_mono; [apply (t_bdata_set_law _ _ i bn d Hs); [apply lookup_insert_eq | done] |].
  intros [] s1 Hs1. eapply runs_mono; [apply (t_log_write_law _ _ i bn Hs1); [apply lookup_insert_eq | done | done] |].
  intros [] s2 Hs2. apply HQ. unfold settled.
  cbn [x_view x_held x_logged x_dirty] in Hs2.
  by rewrite union_empty_r_L, difference_diag_L in Hs2.
Qed.
End patterns.

(** ** The log implements the interface *)

Section log.
Context {S : Type} {disksize : Z} `{CacheSpec S disksize}.
(** The disk and the writes so far at the start, and the log area. *)
Variables (d : Z -> block) (w : list (Z * block)) (start size0 : Z).

#[export] Instance log_tx_ops : TxOps (log S) := {|
  t_bread dev bn := io (c_bread dev bn);
  t_brelse i := io (c_brelse i);
  t_bdata i := io (c_bdata i);
  t_bdata_set i x := io (c_bdata_set i x);
  t_log_write i := log_write i
|}.

Record log_rep (cap : nat) (l : log S) (x : tx) : Prop := {
  lr_geometry : log_geometry (disksize := disksize) l;
  lr_start : l_start l = start;
  lr_lsize : l_size l = size0;
  lr_outstanding : l_outstanding l = 1;
  lr_committing : l_committing l = 0;
  lr_clean : hdr_n start d = 0;
  lr_cap : Z.of_nat cap < size0 - 1 /\ (cap + 3 <= NBUF)%nat /\ (size (x_logged x) <= cap)%nat;
  lr_cache : exists a, c_rep (l_cache l) a /\ a_held a = x_held x /\ a_disk a = d /\
    a_view a = x_view x /\ a_pinned a = x_logged x /\ a_writes a = w;
  lr_header : exists bs, lh_n (l_lh l) = Z.of_nat (length bs) /\
    take (length bs) (lh_block (l_lh l)) = bs /\ NoDup bs /\
    Forall (home disksize start size0) bs /\ x_logged x = list_to_set bs;
  lr_dirty : forall bn, bn ∉ x_logged x -> bn ∉ x_dirty x -> x_view x bn = d bn
}.

Lemma log_room cap l x a bn :
  log_rep cap l x -> a_held a = x_held x -> a_pinned a = x_logged x -> (size (x_held x) <= 2)%nat ->
  (size ({[bn]} ∪ busy_blocks a) <= NBUF)%nat.
Proof.
  intros Hl Hh Hp H2. destruct (lr_cap _ _ _ Hl) as (_ & Hc & Hs). unfold busy_blocks. rewrite Hh, Hp.
  assert (size (map_to_set (fun _ bn => bn) (x_held x) : gset Z) <= 2)%nat as Hm.
  { etrans; [apply size_list_to_set_le |]. by rewrite length_fmap, length_map_to_list. }
  pose proof (size_union_le {[bn]} (x_logged x ∪ map_to_set (fun _ b => b) (x_held x))) as H3.
  pose proof (size_union_le (x_logged x) (map_to_set (fun _ b => b) (x_held x))).
  rewrite size_singleton in H3. lia.
Qed.

(** A call of the cache that leaves the disk and the pinned blocks alone. *)
Lemma log_rep_io {A} cap l x a (c : ST S A) (P : A -> cache -> Prop) (Q : A -> log S -> Prop) :
  log_rep cap l x -> c_rep (l_cache l) a ->
  runs c (l_cache l) (fun r c' => exists a', c_rep c' a' /\ P r a') ->
  (forall r c' a', c_rep c' a' -> P r a' -> exists x',
    a_held a' = x_held x' /\ a_view a' = x_view x' /\ a_pinned a' = x_logged x' /\
    a_disk a' = d /\ a_writes a' = w /\ x_logged x' = x_logged x /\
    (forall bn, bn ∉ x_logged x -> bn ∉ x_dirty x' -> x_view x' bn = d bn) /\
    (log_rep cap (set_cache c' l) x' -> Q r (set_cache c' l))) ->
  runs (io c) l Q.
Proof.
  intros Hl Hr Hc HQ. apply (runs_lift_st l_cache set_cache). eapply runs_mono; [exact Hc |].
  intros r c' (a' & Hr' & HP).
  destruct (HQ r c' a' Hr' HP) as (x' & E1 & E2 & E3 & E4 & E5 & E6 & E7 & HQ'). apply HQ'.
  destruct Hl as [G1 G2 G3 G4 G5 G6 G7 G8 G9 G10].
  split; simpl; rewrite ?E6; try done. exists a'. by rewrite <- E6.
Qed.

#[export] Instance log_tx_spec cap : TxSpec (log S) (home disksize start size0) cap.
Proof.
  refine (@Build_TxSpec _ _ _ _ (log_rep cap) _ _ _ _ _ _).
  - intros l x bn Hl. destruct (lr_cache _ _ _ Hl) as (a & Hr & _ & _ & <- & _). by eapply c_rep_size.
  - intros l x bn Hl [Hb Hlog] Hu H2. destruct (lr_cache _ _ _ Hl) as (a & Hr & Eh & Ed & Ev & Ep & Ew).
    eapply (log_rep_io cap l x a _ (fun i a' => a' = with_held (<[i := bn]> (a_held a)) a /\ a_held a !! i = None) _ Hl Hr).
    + eapply runs_mono; [apply (c_bread_law _ a bn Hr Hb) |].
      * intros [i Hi]. apply (Hu i). by rewrite <- Eh.
      * by eapply log_room.
      * intros i c' [Hr' Hi]. by exists (with_held (<[i := bn]> (a_held a)) a).
    + intros i c' a' Hr' [-> Hi]. eexists. split; [| split; [| split; [| split; [| split]]]];
        [.. | split; [| split; [| intros Hl'; split; [exact Hl' | by rewrite <- Eh]]]]; simpl; try done.
      * by rewrite Eh.
      * apply Hl.
  - intros l x i bn Hl Hi Hd. destruct (lr_cache _ _ _ Hl) as (a & Hr & Eh & Ed & Ev & Ep & Ew).
    eapply (log_rep_io cap l x a _ (fun _ a' => a' = released i a) _ Hl Hr).
    + eapply runs_mono; [apply (c_brelse_law _ a i bn Hr); [by rewrite Eh |] |].
      * rewrite Ep, Ev, Ed. intros Hn. by apply Hl.
      * intros [] c' Hr'. by exists (released i a).
    + intros [] c' a' Hr' ->. eexists. split; [| split; [| split; [| split; [| split]]]];
        [.. | split; [| split; [| intros Hl'; exact Hl']]]; simpl; try done.
      * by rewrite Eh.
      * apply Hl.
  - intros l x i bn Hl Hi. destruct (lr_cache _ _ _ Hl) as (a & Hr & Eh & Ed & Ev & Ep & Ew).
    eapply (log_rep_io cap l x a _ (fun r a' => a' = a /\ r = a_view a bn) _ Hl Hr).
    + eapply runs_mono; [apply (c_bdata_law _ a i bn Hr); by rewrite Eh |].
      intros r c' [-> Hr']. by exists a.
    + intros r c' a' Hr' [-> ->]. exists x. do 6 (split; [done |]). split; [apply Hl |].
      intros Hl'. by rewrite Ev.
  - intros l x i bn dd Hl Hi Hdd. destruct (lr_cache _ _ _ Hl) as (a & Hr & Eh & Ed & Ev & Ep & Ew).
    eapply (log_rep_io cap l x a _ (fun _ a' => a' = with_view (<[bn := dd]> (a_view a)) a) _ Hl Hr).
    + eapply runs_mono; [apply (c_bdata_set_law _ a i bn dd Hr); [by rewrite Eh | done] |].
      intros [] c' Hr'. by exists (with_view (<[bn := dd]> (a_view a)) a).
    + intros [] c' a' Hr' ->. eexists. split; [| split; [| split; [| split; [| split]]]];
        [.. | split; [| split; [| intros Hl'; exact Hl']]]; simpl; try done.
      * by rewrite Ev.
      * intros b Hb1 Hb2. rewrite fn_lookup_insert_ne by set_solver. apply Hl; set_solver.
  - intros l x i bn Hl Hi Ha Hc. destruct (lr_cache _ _ _ Hl) as (a & Hr & Eh & Ed & Ev & Ep & Ew).
    destruct (lr_header _ _ _ Hl) as (bs & Hn & Htk & Hnd & Hhome & Hlg).
    pose proof Hl as [Hg G2 G3 G4 G5 G6 (Hcap & Hcap3 & Hsz) G8 G9 G10].
    rewrite Hlg, size_list_to_set in Hsz by done.
    destruct (log_record_spec l a bs i bn Hg Hr ltac:(by rewrite Eh) (proj1 Ha) Hn Htk) as
      (u & l' & He & c' & blocks & -> & Hlb & Htk' & Hr').
    { by rewrite G2, G3. } { unfold NBUF, LOGSIZE, MAXOPBLOCKS in *. lia. }
    eexists u, _. split.
    { cbn [t_log_write log_tx_ops]. unfold log_write, bind at 1, get. cbn [rbind fst snd id].
      unfold id. rewrite Hn, G4, G3.
      unfold NBUF, LOGSIZE, MAXOPBLOCKS in *.
      rewrite (proj2 (Z.leb_gt _ _)), (proj2 (Z.leb_gt _ _)) by lia. exact He. }
    destruct Hg as (Hg1 & Hg2 & Hg3 & Hg4 & Hg5 & _).
    split; simpl; try done.
    + eexists. split; [exact Hr' |]. simpl. by rewrite Ep.
    + exists (absorbed bn bs). split; [done |]. split; [done |].
      split; [by apply absorbed_NoDup |]. split; [by apply absorbed_Forall |]. by rewrite Hlg, absorbed_set.
    + intros b Hb1 Hb2. apply Hl; set_solver.
Defined.

(** A transaction starts with nothing logged, and ends with a commit. *)
Lemma log_rep_begin cap l v :
  logged l d v [] w -> l_start l = start -> l_size l = size0 -> l_committing l = 0 ->
  Z.of_nat cap < size0 - 1 -> (cap + 3 <= NBUF)%nat ->
  log_rep cap (set_outstanding 1 l) (mkTx v ∅ ∅ ∅).
Proof.
  intros [Hg Hq Hn Htk Hnd Hh Hf Hc] Hst Hsz Hcm Hc1 Hc2. rewrite Hst in Hc. split; try done.
  - split; [done |]. split; [done |]. cbn [x_logged]. rewrite size_empty. lia.
  - exists []. done.
  - intros bn _ _. apply (quiet_clean _ _ _ _ _ _ Hq). done.
Qed.

Lemma log_rep_logged cap l v L : log_rep cap l (mkTx v ∅ L ∅) -> exists bs, logged l d v bs w.
Proof.
  intros [Hg Hst Hsz Ho Hcm Hcl (Hc1 & Hc2 & Hc3) (a & Hr & Eh & Ed & Ev & Ep & Ew) (bs & Hn & Htk & Hnd & Hh & HL) Hd].
  simpl in *. exists bs. rewrite HL, size_list_to_set in Hc3 by done.
  split; rewrite ?Hst, ?Hsz; try done.
  - exists a. by rewrite Ep, HL.
  - split; lia.
Qed.
End log.
