(* ===== verification/Fs.v ===== *)
(** * The file system (fs.c, fs.h)

    Blocks and their free map, inodes and the inode cache, file contents,
    directories and path names, written against the transaction interface of
    Tx.v. A pointer to an inode is its index in [icache.inode]. The bytes a
    routine copies to or from a caller's buffer are its result or its
    argument. One kernel thread runs at a time; an [acquiresleep] that finds
    the lock taken never returns. *)

From stdpp Require Import gmap functions.
From S2P Require Import Prelude Params Bytes Cache Tx.

(** ** Layout of the disk *)

Definition ROOTDEV : Z := 1.
Definition ROOTINO : Z := 1.
Definition NINODE : nat := 50.
Definition NDEV : Z := 10.

Record superblock := mkSb {
  sb_size : Z;
  sb_nblocks : Z;
  sb_ninodes : Z;
  sb_nlog : Z;
  sb_logstart : Z;
  sb_inodestart : Z;
  sb_bmapstart : Z
}.

Definition NDIRECT : nat := 12.
Definition NINDIRECT : nat := BSIZE / 4.
Definition MAXFILE : Z := Z.of_nat (NDIRECT + NINDIRECT) * 2.

(** [struct dinode]: four shorts, the size and the block addresses. *)
Record dinode := mkDinode {
  d_type : Z;
  d_major : Z;
  d_minor : Z;
  d_nlink : Z;
  d_size : Z;
  d_addrs : list Z
}.

Definition DINODE : nat := 64.
Definition IPB : Z := Z.of_nat BSIZE / Z.of_nat DINODE.
Definition IBLOCK (i : Z) (sb : superblock) : Z := u32 (i / IPB + sb_inodestart sb).
Definition BPB : Z := Z.of_nat BSIZE * 8.
Definition BBLOCK (b : Z) (sb : superblock) : Z := u32 (b / BPB + sb_bmapstart sb).

Definition DIRSIZ : nat := 14.
Definition DIRENT : Z := 16.
Record dirent := mkDirent { de_inum : Z; de_name : list Z }.

(** stat.h *)
Definition T_DIR : Z := 1.
Definition T_FILE : Z := 2.
Definition T_DEV : Z := 3.
Record stat := mkStat { st_type : Z; st_dev : Z; st_ino : Z; st_nlink : Z; st_size : Z }.

(** How the structures lie in a block. *)
Definition i16 (x : Z) : Z := (x + 32768) mod 65536 - 32768.

Definition sb_of (d : block) : superblock :=
  mkSb (get32 d 0) (get32 d 4) (get32 d 8) (get32 d 12) (get32 d 16) (get32 d 20) (get32 d 24).

(** Where inode [inum] lies in its block, as an array of [struct dinode]. *)
Definition dinode_off (inum : Z) : nat := DINODE * Z.to_nat (inum mod IPB).

Definition dinode_get (d : block) (off : nat) : dinode :=
  mkDinode (i16 (get16 d off)) (i16 (get16 d (off + 2))) (i16 (get16 d (off + 4)))
    (i16 (get16 d (off + 6))) (get32 d (off + 8))
    ((fun k => get32 d (off + 12 + 4 * k)) <$> seq 0 (NDIRECT + 1)).

Definition dinode_put (d : block) (off : nat) (di : dinode) : block :=
  put32s (put32 (put16 (put16 (put16 (put16 d off (d_type di)) (off + 2) (d_major di))
    (off + 4) (d_minor di)) (off + 6) (d_nlink di)) (off + 8) (d_size di)) (off + 12) (d_addrs di).

Definition dirent_of (d : list Z) : dirent := mkDirent (get16 d 0) (drop 2 d).
Definition dirent_bytes (de : dirent) : list Z := put16 [0; 0] 0 (de_inum de) ++ de_name de.

(** ** The state *)

Record inode := mkInode {
  i_dev : Z;
  i_inum : Z;
  i_ref : Z;
  i_locked : bool;
  i_valid : Z;
  i_di : dinode
}.

Definition set_iref v i := mkInode (i_dev i) (i_inum i) v (i_locked i) (i_valid i) (i_di i).
Definition set_ilocked v i := mkInode (i_dev i) (i_inum i) (i_ref i) v (i_valid i) (i_di i).
Definition set_ivalid v i := mkInode (i_dev i) (i_inum i) (i_ref i) (i_locked i) v (i_di i).
Definition set_idi v i := mkInode (i_dev i) (i_inum i) (i_ref i) (i_locked i) (i_valid i) v.

Definition set_dtype v di := mkDinode v (d_major di) (d_minor di) (d_nlink di) (d_size di) (d_addrs di).
Definition set_dsize v di := mkDinode (d_type di) (d_major di) (d_minor di) (d_nlink di) v (d_addrs di).
Definition set_dnlink v di := mkDinode (d_type di) (d_major di) (d_minor di) v (d_size di) (d_addrs di).
Definition set_daddrs v di := mkDinode (d_type di) (d_major di) (d_minor di) (d_nlink di) (d_size di) v.

Record fs (T : Type) := mkFs { fs_tx : T; fs_sb : superblock; fs_ic : list inode }.
Arguments mkFs {T}.
Arguments fs_tx {T}.
Arguments fs_sb {T}.
Arguments fs_ic {T}.

Section fs.
Context {T : Type} `{TxOps T}.

Definition set_tx (t : T) (s : fs T) : fs T := mkFs t (fs_sb s) (fs_ic s).
Definition set_sb (b : superblock) (s : fs T) : fs T := mkFs (fs_tx s) b (fs_ic s).
Definition set_ic (c : list inode) (s : fs T) : fs T := mkFs (fs_tx s) (fs_sb s) c.

(** Calling the cache and the log. *)
Definition blk {A} (c : ST T A) : ST (fs T) A := lift_st fs_tx set_tx c.

Definition inode_at (ip : nat) : ST (fs T) inode := fun s =>
  match fs_ic s !! ip with Some i => Ok (i, s) | None => Undef end.
Definition upd_inode (ip : nat) (f : inode -> inode) : ST (fs T) unit :=
  modify (fun s => set_ic (alter f ip (fs_ic s)) s).

(** ** Blocks *)

Definition readsb (dev : Z) : ST (fs T) superblock :=
  let* bp := blk (t_bread dev 1) in
  let* d := blk (t_bdata bp) in
  blk (t_brelse bp) ;;;
  ret (sb_of d).

Definition bzero (dev bno : Z) : ST (fs T) unit :=
  let* bp := blk (t_bread dev bno) in
  blk (t_bdata_set bp (replicate BSIZE 0)) ;;;
  blk (t_log_write bp) ;;;
  blk (t_brelse bp).

(** The inner loop of [balloc]: the first free bit of the map block [d]. *)
Fixpoint balloc_scan (d : block) (size b bi : Z) (count : nat) : option Z :=
  match count with
  | O => None
  | S count' =>
      if (bi <? BPB) && (u32 (b + bi) <? size) then
        if Z.land (byte_at d (Z.to_nat (bi / 8))) (Z.shiftl 1 (bi mod 8)) =? 0 then Some bi
        else balloc_scan d size b (bi + 1) count'
      else None
  end.

Fixpoint balloc_loop (dev b : Z) (fuel : nat) : ST (fs T) Z :=
  match fuel with
  | O => fun _ => Hang
  | S fuel' =>
      let* sb := get fs_sb in
      if u32 b <? sb_size sb then
        let* bp := blk (t_bread dev (BBLOCK b sb)) in
        let* d := blk (t_bdata bp) in
        match balloc_scan d (sb_size sb) b 0 (Z.to_nat BPB) with
        | Some bi =>
            let x := byte_at d (Z.to_nat (bi / 8)) in
            blk (t_bdata_set bp (<[Z.to_nat (bi / 8) := uchar (Z.lor x (Z.shiftl 1 (bi mod 8)))]> d)) ;;;
            blk (t_log_write bp) ;;;
            blk (t_brelse bp) ;;;
            bzero dev (b + bi) ;;;
            ret (b + bi)
        | None =>
            blk (t_brelse bp) ;;;
            balloc_loop dev (i32 (b + BPB)) fuel'
        end
      else panic "balloc: out of blocks"
  end.

Definition balloc (dev : Z) : ST (fs T) Z :=
  let* sb := get fs_sb in
  balloc_loop dev 0 (S (Z.to_nat ((sb_size sb + BPB - 1) / BPB))).

Definition bfree (dev b : Z) : ST (fs T) unit :=
  let* sb := readsb dev in
  modify (set_sb sb) ;;;
  let* bp := blk (t_bread dev (BBLOCK b sb)) in
  let* d := blk (t_bdata bp) in
  let bi := b mod BPB in
  let m := Z.shiftl 1 (bi mod 8) in
  let x := byte_at d (Z.to_nat (bi / 8)) in
  if Z.land x m =? 0 then panic "freeing free block"
  else
    blk (t_bdata_set bp (<[Z.to_nat (bi / 8) := uchar (Z.land x (Z.lnot m))]> d)) ;;;
    blk (t_log_write bp) ;;;
    blk (t_brelse bp).

(** ** Inodes *)

(** [iinit]: the locks of the cache and the super block. *)
Definition iinit (dev : Z) : ST (fs T) unit :=
  modify (fun s => set_ic (set_ilocked false <$> fs_ic s) s) ;;;
  let* sb := readsb dev in
  modify (set_sb sb).

(** [iget]: the entry that caches the inode, and else the first free one. *)
Fixpoint iget_scan (dev inum : Z) (ic : list inode) (i : nat) (empty : option nat) : option nat * option nat :=
  match ic with
  | [] => (None, empty)
  | ip :: ic' =>
      if (0 <? i_ref ip) && (i_dev ip =? dev) && (i_inum ip =? inum) then (Some i, empty)
      else iget_scan dev inum ic' (S i)
        (match empty with
         | None => if i_ref ip =? 0 then Some i else None
         | Some e => Some e
         end)
  end.

Definition iget (dev inum : Z) : ST (fs T) nat :=
  let* ic := get fs_ic in
  match iget_scan dev inum ic 0 None with
  | (Some ip, _) => upd_inode ip (fun i => set_iref (i32 (i_ref i + 1)) i) ;;; ret ip
  | (None, Some e) =>
      upd_inode e (fun i => mkInode dev inum 1 (i_locked i) 0 (i_di i)) ;;; ret e
  | (None, None) => panic "iget: no inodes"
  end.

Fixpoint ialloc_loop (dev type inum : Z) (fuel : nat) : ST (fs T) nat :=
  match fuel with
  | O => fun _ => Hang
  | S fuel' =>
      let* sb := get fs_sb in
      if u32 inum <? sb_ninodes sb then
        let* bp := blk (t_bread dev (IBLOCK inum sb)) in
        let* d := blk (t_bdata bp) in
        if d_type (dinode_get d (dinode_off inum)) =? 0 then
          blk (t_bdata_set bp (dinode_put d (dinode_off inum)
            (mkDinode type 0 0 0 0 (replicate (NDIRECT + 1) 0)))) ;;;
          blk (t_log_write bp) ;;;
          blk (t_brelse bp) ;;;
          iget dev inum
        else
          blk (t_brelse bp) ;;;
          ialloc_loop dev type (i32 (inum + 1)) fuel'
      else panic "ialloc: no inodes"
  end.

Definition ialloc (dev type : Z) : ST (fs T) nat :=
  let* sb := get fs_sb in
  ialloc_loop dev (i16 type) 1 (S (Z.to_nat (sb_ninodes sb))).

Definition iupdate (ip : nat) : ST (fs T) unit :=
  let* i := inode_at ip in
  let* sb := get fs_sb in
  let* bp := blk (t_bread (i_dev i) (IBLOCK (i_inum i) sb)) in
  let* d := blk (t_bdata bp) in
  blk (t_bdata_set bp (dinode_put d (dinode_off (i_inum i)) (i_di i))) ;;;
  blk (t_log_write bp) ;;;
  blk (t_brelse bp).

Definition idup (ip : nat) : ST (fs T) nat :=
  inode_at ip ;;;
  upd_inode ip (fun i => set_iref (i32 (i_ref i + 1)) i) ;;;
  ret ip.

(** The sleep lock of an inode. *)
Definition iacquire (ip : nat) : ST (fs T) unit :=
  let* i := inode_at ip in
  if i_locked i then fun _ => Hang else upd_inode ip (set_ilocked true).

Definition irelease (ip : nat) : ST (fs T) unit :=
  inode_at ip ;;; upd_inode ip (set_ilocked false).

(** [None] is a null pointer. *)
Definition ilock (ip : option nat) : ST (fs T) unit :=
  match ip with
  | None => panic "ilock"
  | Some ip =>
      let* i := inode_at ip in
      if i_ref i <? 1 then panic "ilock"
      else
        iacquire ip ;;;
        if i_valid i =? 0 then
          let* sb := get fs_sb in
          let* bp := blk (t_bread (i_dev i) (IBLOCK (i_inum i) sb)) in
          let* d := blk (t_bdata bp) in
          let di := dinode_get d (dinode_off (i_inum i)) in
          upd_inode ip (set_idi di) ;;;
          blk (t_brelse bp) ;;;
          upd_inode ip (set_ivalid 1) ;;;
          if d_type di =? 0 then panic "ilock: no type" else ret tt
        else ret tt
  end.

Definition iunlock (ip : option nat) : ST (fs T) unit :=
  match ip with
  | None => panic "iunlock"
  | Some ip =>
      let* i := inode_at ip in
      if negb (i_locked i) || (i_ref i <? 1) then panic "iunlock" else irelease ip
  end.

(** ** Inode content *)

Definition set_addr (k : nat) (b : Z) (i : inode) : inode :=
  set_idi (set_daddrs (<[k := b]> (d_addrs (i_di i))) (i_di i)) i.

Definition bmap (ip : nat) (bn : Z) : ST (fs T) Z :=
  let* i := inode_at ip in
  if bn <? Z.of_nat NDIRECT then
    let* addr := lift (arr_get (d_addrs (i_di i)) bn) in
    if addr =? 0 then
      let* addr := balloc (i_dev i) in
      upd_inode ip (set_addr (Z.to_nat bn) addr) ;;;
      ret addr
    else ret addr
  else
    let bn := bn - Z.of_nat NDIRECT in
    if bn <? Z.of_nat NINDIRECT then
      let* addr := lift (arr_get (d_addrs (i_di i)) (Z.of_nat NDIRECT)) in
      let* addr :=
        (if addr =? 0 then
           let* addr := balloc (i_dev i) in
           upd_inode ip (set_addr NDIRECT addr) ;;;
           ret addr
         else ret addr) in
      let* bp := blk (t_bread (i_dev i) addr) in
      let* d := blk (t_bdata bp) in
      let addr := get32 d (4 * Z.to_nat bn) in
      let* addr :=
        (if addr =? 0 then
           let* addr := balloc (i_dev i) in
           let* d := blk (t_bdata bp) in
           blk (t_bdata_set bp (put32 d (4 * Z.to_nat bn) addr)) ;;;
           blk (t_log_write bp) ;;;
           ret addr
         else ret addr) in
      blk (t_brelse bp) ;;;
      ret addr
    else panic "bmap: out of range".

Fixpoint itrunc_direct (ip : nat) (k count : nat) : ST (fs T) unit :=
  match count with
  | O => ret tt
  | S count' =>
      let* i := inode_at ip in
      let* addr := lift (arr_get (d_addrs (i_di i)) (Z.of_nat k)) in
      (if addr =? 0 then ret tt
       else bfree (i_dev i) addr ;;; upd_inode ip (set_addr k 0)) ;;;
      itrunc_direct ip (S k) count'
  end.

Fixpoint itrunc_indirect (dev : Z) (bp j count : nat) : ST (fs T) unit :=
  match count with
  | O => ret tt
  | S count' =>
      let* d := blk (t_bdata bp) in
      let aj := get32 d (4 * j) in
      (if aj =? 0 then ret tt else bfree dev aj) ;;;
      itrunc_indirect dev bp (S j) count'
  end.

Definition itrunc (ip : nat) : ST (fs T) unit :=
  itrunc_direct ip 0 NDIRECT ;;;
  let* i := inode_at ip in
  let* addr := lift (arr_get (d_addrs (i_di i)) (Z.of_nat NDIRECT)) in
  (if addr =? 0 then ret tt
   else
     let* bp := blk (t_bread (i_dev i) addr) in
     itrunc_indirect (i_dev i) bp 0 NINDIRECT ;;;
     blk (t_brelse bp) ;;;
     bfree (i_dev i) addr ;;;
     upd_inode ip (set_addr NDIRECT 0)) ;;;
  upd_inode ip (fun i => set_idi (set_dsize 0 (i_di i)) i) ;;;
  iupdate ip.

Definition iput (ip : nat) : ST (fs T) unit :=
  iacquire ip ;;;
  let* i := inode_at ip in
  (if negb (i_valid i =? 0) && (d_nlink (i_di i) =? 0) && (i_ref i =? 1) then
     itrunc ip ;;;
     upd_inode ip (fun i => set_idi (set_dtype 0 (i_di i)) i) ;;;
     iupdate ip ;;;
     upd_inode ip (set_ivalid 0)
   else ret tt) ;;;
  irelease ip ;;;
  upd_inode ip (fun i => set_iref (i32 (i_ref i - 1)) i).

Definition iunlockput (ip : nat) : ST (fs T) unit := iunlock (Some ip) ;;; iput ip.

Definition stati (ip : nat) : ST (fs T) stat :=
  let* i := inode_at ip in
  ret (mkStat (d_type (i_di i)) (i32 (i_dev i)) (i_inum i) (d_nlink (i_di i)) (d_size (i_di i))).

(** [devsw]: the read and write routines of the devices, by major number; a
    null pointer is [None]. A read returns its result and the bytes it stored. *)
Class DevSw := {
  dev_read : Z -> option (nat -> Z -> ST (fs T) (Z * list Z));
  dev_write : Z -> option (nat -> list Z -> Z -> ST (fs T) Z)
}.

Context `{DevSw}.

(** The loop of [readi]; the result is what arrives at [dst]. *)
Fixpoint readi_loop (ip : nat) (off n tot : Z) (fuel : nat) : ST (fs T) (list Z) :=
  match fuel with
  | O => fun _ => Hang
  | S fuel' =>
      if tot <? n then
        let* b := bmap ip (off / Z.of_nat BSIZE) in
        let* i := inode_at ip in
        let* bp := blk (t_bread (i_dev i) b) in
        let m := Z.min (n - tot) (Z.of_nat BSIZE - off mod Z.of_nat BSIZE) in
        let* d := blk (t_bdata bp) in
        let x := take (Z.to_nat m) (drop (Z.to_nat (off mod Z.of_nat BSIZE)) d) in
        blk (t_brelse bp) ;;;
        let* rest := readi_loop ip (u32 (off + m)) n (u32 (tot + m)) fuel' in
        ret (x ++ rest)
      else ret []
  end.

Definition readi (ip : nat) (off n : Z) : ST (fs T) (Z * list Z) :=
  let* i := inode_at ip in
  if d_type (i_di i) =? T_DEV then
    if (d_major (i_di i) <? 0) || (NDEV <=? d_major (i_di i)) then ret (-1, [])
    else match dev_read (d_major (i_di i)) with
         | None => ret (-1, [])
         | Some f => f ip (i32 n)
         end
  else if (d_size (i_di i) <? off) || (u32 (off + n) <? off) then ret (-1, [])
  else
    let n := if d_size (i_di i) <? u32 (off + n) then u32 (d_size (i_di i) - off) else n in
    let* x := readi_loop ip off n 0 (S (Z.to_nat n)) in
    ret (i32 n, x).

(** [memmove(d + off, src, len)] for a source of [len] bytes. *)
Definition blit (d : block) (off : nat) (src : list Z) : block :=
  take off d ++ src ++ drop (off + length src) d.

(** The loop of [writei]; the result is the final [off]. *)
Fixpoint writei_loop (ip : nat) (src : list Z) (off n tot : Z) (fuel : nat) : ST (fs T) Z :=
  match fuel with
  | O => fun _ => Hang
  | S fuel' =>
      if tot <? n then
        let* b := bmap ip (off / Z.of_nat BSIZE) in
        let* i := inode_at ip in
        let* bp := blk (t_bread (i_dev i) b) in
        let m := Z.min (n - tot) (Z.of_nat BSIZE - off mod Z.of_nat BSIZE) in
        let* d := blk (t_bdata bp) in
        if (length src <? Z.to_nat m)%nat then undef
        else
          blk (t_bdata_set bp (blit d (Z.to_nat (off mod Z.of_nat BSIZE)) (take (Z.to_nat m) src))) ;;;
          blk (t_log_write bp) ;;;
          blk (t_brelse bp) ;;;
          writei_loop ip (drop (Z.to_nat m) src) (u32 (off + m)) n (u32 (tot + m)) fuel'
      else ret off
  end.

Definition writei (ip : nat) (src : list Z) (off n : Z) : ST (fs T) Z :=
  let* i := inode_at ip in
  if d_type (i_di i) =? T_DEV then
    if (d_major (i_di i) <? 0) || (NDEV <=? d_major (i_di i)) then ret (-1)
    else match dev_write (d_major (i_di i)) with
         | None => ret (-1)
         | Some f => f ip src (i32 n)
         end
  else if (d_size (i_di i) <? off) || (u32 (off + n) <? off) then ret (-1)
  else if MAXFILE * Z.of_nat BSIZE <? u32 (off + n) then ret (-1)
  else
    let* off := writei_loop ip src off n 0 (S (Z.to_nat n)) in
    let* i := inode_at ip in
    (if (0 <? n) && (d_size (i_di i) <? off) then
       upd_inode ip (fun i => set_idi (set_dsize off (i_di i)) i) ;;; iupdate ip
     else ret tt) ;;;
    ret (i32 n).

(** ** Directories *)

(** [strncmp] on the bytes at two addresses; a string that is shorter than its
    list ends with its NUL, one that is as long is followed by a NUL. *)
Fixpoint strncmp_bytes (p q : list Z) (n : nat) : Z :=
  match n with
  | O => 0
  | S n' =>
      let a := byte_at p 0 in
      let b := byte_at q 0 in
      if (negb (a =? 0)) && (a =? b) then strncmp_bytes (drop 1 p) (drop 1 q) n' else a - b
  end.

(** [strncpy(buf, t, n)]: the new contents of [buf]. *)
Fixpoint strncpy_bytes (t : list Z) (n : nat) : list Z :=
  match n with
  | O => []
  | S n' => if byte_at t 0 =? 0 then replicate n 0 else byte_at t 0 :: strncpy_bytes (drop 1 t) n'
  end.

Definition namecmp (s t : list Z) : Z := strncmp_bytes s t DIRSIZ.

(** The loop of [dirlookup]: the inode number and the offset. *)
Fixpoint dirlookup_loop (dp : nat) (name : list Z) (off : Z) (fuel : nat) : ST (fs T) (option (Z * Z)) :=
  match fuel with
  | O => fun _ => Hang
  | S fuel' =>
      let* i := inode_at dp in
      if off <? d_size (i_di i) then
        let* (r, x) := readi dp off DIRENT in
        if negb (r =? DIRENT) then panic "dirlookup read"
        else
          let de := dirent_of x in
          if de_inum de =? 0 then dirlookup_loop dp name (u32 (off + DIRENT)) fuel'
          else if namecmp name (de_name de) =? 0 then ret (Some (de_inum de, off))
          else dirlookup_loop dp name (u32 (off + DIRENT)) fuel'
      else ret None
  end.

(** The entry's inode and its offset in the directory. *)
Definition dirlookup (dp : nat) (name : list Z) : ST (fs T) (option (nat * Z)) :=
  let* i := inode_at dp in
  if negb (d_type (i_di i) =? T_DIR) then panic "dirlookup not DIR"
  else
    let* e := dirlookup_loop dp name 0 (S (Z.to_nat (d_size (i_di i)))) in
    match e with
    | None => ret None
    | Some (inum, off) =>
        let* i := inode_at dp in
        let* ip := iget (i_dev i) inum in
        ret (Some (ip, off))
    end.

Fixpoint dirlink_loop (dp : nat) (off : Z) (fuel : nat) : ST (fs T) Z :=
  match fuel with
  | O => fun _ => Hang
  | S fuel' =>
      let* i := inode_at dp in
      if u32 off <? d_size (i_di i) then
        let* (r, x) := readi dp (u32 off) DIRENT in
        if negb (r =? DIRENT) then panic "dirlink read"
        else if de_inum (dirent_of x) =? 0 then ret off
        else dirlink_loop dp (i32 (off + DIRENT)) fuel'
      else ret off
  end.

Definition dirlink (dp : nat) (name : list Z) (inum : Z) : ST (fs T) Z :=
  let* e := dirlookup dp name in
  match e with
  | Some (ip, _) => iput ip ;;; ret (-1)
  | None =>
      let* i := inode_at dp in
      let* off := dirlink_loop dp 0 (S (Z.to_nat (d_size (i_di i)))) in
      let de := mkDirent (inum mod 65536) (strncpy_bytes name DIRSIZ) in
      let* r := writei dp (dirent_bytes de) (u32 off) DIRENT in
      if negb (r =? DIRENT) then panic "dirlink" else ret 0
  end.

(** ** Paths *)

(** A path is a list of bytes followed by a NUL. *)
Definition SLASH : Z := 47.

Fixpoint skip_slashes (path : list Z) : list Z :=
  match path with
  | c :: path' => if c =? SLASH then skip_slashes path' else path
  | [] => []
  end.

(** The length of the element the path starts with. *)
Fixpoint elem_len (path : list Z) : nat :=
  match path with
  | c :: path' => if (c =? SLASH) || (c =? 0) then 0 else S (elem_len path')
  | [] => 0
  end.

(** The rest of the path and the new contents of [name]. *)
Definition skipelem (path name : list Z) : option (list Z * list Z) :=
  let path := skip_slashes path in
  if byte_at path 0 =? 0 then None
  else
    let len := elem_len path in
    let name' :=
      if (DIRSIZ <=? len)%nat then take DIRSIZ path ++ drop DIRSIZ name
      else take len path ++ 0 :: drop (S len) name in
    Some (skip_slashes (drop len path), name').

Fixpoint namex_loop (nameiparent : bool) (ip : nat) (path name : list Z) (fuel : nat) :
  ST (fs T) (option nat * list Z) :=
  match fuel with
  | O => fun _ => Hang
  | S fuel' =>
      match skipelem path name with
      | None => if nameiparent then iput ip ;;; ret (None, name) else ret (Some ip, name)
      | Some (path, name) =>
          ilock (Some ip) ;;;
          let* i := inode_at ip in
          if negb (d_type (i_di i) =? T_DIR) then iunlockput ip ;;; ret (None, name)
          else if nameiparent && (byte_at path 0 =? 0) then iunlock (Some ip) ;;; ret (Some ip, name)
          else
            let* next := dirlookup ip name in
            match next with
            | None => iunlockput ip ;;; ret (None, name)
            | Some (next, _) => iunlockput ip ;;; namex_loop nameiparent next path name fuel'
            end
      end
  end.

(** [cwd] is the current directory of the calling process; the result is the
    inode and the contents of [name]. *)
Definition namex (cwd : nat) (path : list Z) (nameiparent : bool) (name : list Z) :
  ST (fs T) (option nat * list Z) :=
  let* ip := (if byte_at path 0 =? SLASH then iget ROOTDEV ROOTINO else idup cwd) in
  namex_loop nameiparent ip path name (S (length path)).

(** [name] is what the stack holds where the local array lies. *)
Definition namei (cwd : nat) (path name : list Z) : ST (fs T) (option nat) :=
  let* (ip, _) := namex cwd path false name in ret ip.

Definition nameiparent (cwd : nat) (path name : list Z) : ST (fs T) (option nat * list Z) :=
  namex cwd path true name.
End fs.
