(* ===== verification/FsAlloc.v ===== *)
(** * The free map of the file system (fs.c: balloc, bfree)

    The laws of the transaction interface as the file system code uses them,
    the bits of the free map, and the specifications of [bzero], [balloc] and
    [bfree] in terms of the blocks in use. *)

From stdpp Require Import gmap functions.
From S2P Require Import Prelude Params Bytes Cache Tx Fs.

(** ** Bits of a byte *)

Lemma land_bit x k : 0 <= k -> (Z.land x (Z.shiftl 1 k) =? 0) = negb (Z.testbit x k).
Proof.
  intros Hk. rewrite Z.shiftl_1_l. destruct (Z.eqb_spec (Z.land x (2 ^ k)) 0) as [He|Hne].
  - assert (Z.testbit (Z.land x (2 ^ k)) k = false) as Hb by (by rewrite He, Z.bits_0).
    rewrite Z.land_spec, Z.pow2_bits_true, andb_true_r in Hb by done. by rewrite Hb.
  - destruct (Z.testbit x k) eqn:Hb; [done |]. exfalso. apply Hne. apply Z.bits_inj'. intros n Hn.
    rewrite Z.land_spec, Z.bits_0, Z.pow2_bits_eqb by done.
    destruct (Z.eqb_spec k n) as [<-|]; [by rewrite Hb | by rewrite andb_false_r].
Qed.

Lemma uchar_bit x j : 0 <= j < 8 -> Z.testbit (uchar x) j = Z.testbit x j.
Proof. intros Hj. unfold uchar. change 256 with (2 ^ 8). by rewrite Z.mod_pow2_bits_low by lia. Qed.

Lemma set_bit_spec x k j :
  0 <= k -> 0 <= j < 8 ->
  Z.testbit (uchar (Z.lor x (Z.shiftl 1 k))) j = if decide (j = k) then true else Z.testbit x j.
Proof.
  intros Hk Hj. rewrite uchar_bit, Z.lor_spec, Z.shiftl_1_l, Z.pow2_bits_eqb by done.
  case_decide; destruct (Z.eqb_spec k j); subst; try done; [apply orb_true_r | apply orb_false_r].
Qed.

Lemma clear_bit_spec x k j :
  0 <= k -> 0 <= j < 8 ->
  Z.testbit (uchar (Z.land x (Z.lnot (Z.shiftl 1 k)))) j = if decide (j = k) then false else Z.testbit x j.
Proof.
  intros Hk Hj. rewrite uchar_bit, Z.land_spec, Z.lnot_spec, Z.shiftl_1_l, Z.pow2_bits_eqb by lia.
  case_decide; destruct (Z.eqb_spec k j); subst; try done; [apply andb_false_r | apply andb_true_r].
Qed.

(** ** The geometry of the disk *)

Lemma IPB_eq : IPB = 8. Proof. reflexivity. Qed.
Lemma BPB_eq : BPB = 4096. Proof. reflexivity. Qed.

(** Where the data blocks start. *)
Definition dstart (sb : superblock) : Z := sb_size sb - sb_nblocks sb.

(** Super block, log, inodes, free map and data follow each other. *)
Record geometry (area : Z -> Prop) (sb : superblock) : Prop := {
  g_size : 0 < sb_size sb <= 2147479552;
  g_inodes : 2 <= sb_inodestart sb /\ 0 <= sb_ninodes sb < 2147483648 /\
    sb_inodestart sb + (sb_ninodes sb - 1) / IPB < sb_bmapstart sb;
  g_bmap : sb_bmapstart sb + (sb_size sb - 1) / BPB < dstart sb /\ dstart sb <= sb_size sb;
  g_area : forall b, b = 1 \/ sb_inodestart sb <= b < sb_size sb -> area b
}.

Definition is_data (sb : superblock) (b : Z) : Prop := dstart sb <= b < sb_size sb.

Definition bit (sb : superblock) (v : Z -> block) (b : Z) : bool :=
  Z.testbit (byte_at (v (BBLOCK b sb)) (Z.to_nat (b mod BPB / 8))) (b mod BPB mod 8).

(** The free map has exactly the data blocks outside [O] free. *)
Record alloc_ok (sb : superblock) (v : Z -> block) (O : list Z) : Prop := {
  ao_bits : forall b, 0 <= b < sb_size sb -> bit sb v b = false <-> dstart sb <= b /\ b ∉ O;
  ao_NoDup : NoDup O;
  ao_data : Forall (is_data sb) O
}.

#[export] Instance alloc_ok_perm sb v : Proper ((≡ₚ) ==> iff) (alloc_ok sb v).
Proof.
  assert (forall O O', O ≡ₚ O' -> alloc_ok sb v O -> alloc_ok sb v O') as Hgo.
  { intros O O' HO [Hb Hn Hd]. split; [| by rewrite <- HO | by rewrite <- HO].
    intros b Hr. rewrite Hb by done. by rewrite HO. }
  intros O O' HO. split; by apply Hgo.
Qed.

(** The blocks of the free map, and the size of the log if they all get logged. *)
Definition bmaps (sb : superblock) : gset Z :=
  list_to_set ((fun k => sb_bmapstart sb + Z.of_nat k) <$> seq 0 (Z.to_nat ((sb_size sb - 1) / BPB + 1))).

Definition cost (sb : superblock) (L : gset Z) : nat := size (L ∪ bmaps sb).

Lemma cost_size sb L : (size L <= cost sb L)%nat.
Proof. apply subseteq_size. set_solver. Qed.

Lemma cost_in sb L b : b ∈ L -> cost sb ({[b]} ∪ L) = cost sb L.
Proof. intros Hb. unfold cost. by rewrite (subseteq_union_1_L ({[b]} : gset Z) L) by set_solver. Qed.

Lemma cost_bmap sb L b : b ∈ bmaps sb -> cost sb ({[b]} ∪ L) = cost sb L.
Proof. intros Hb. unfold cost. f_equal. set_solver. Qed.

Lemma cost_add sb L b : (cost sb ({[b]} ∪ L) <= 1 + cost sb L)%nat.
Proof.
  unfold cost. rewrite <- assoc_L by apply _. pose proof (size_union_le {[b]} (L ∪ bmaps sb)) as Hs.
  rewrite size_singleton in Hs. exact Hs.
Qed.

Section geometry.
Context {area : Z -> Prop} {sb : superblock} (Hg : geometry area sb).

Lemma bblock_eq b : 0 <= b < sb_size sb -> BBLOCK b sb = sb_bmapstart sb + b / BPB.
Proof.
  intros Hb. destruct Hg as [Hs (Hi1 & Hi2 & Hi3) (Hb1 & Hb2) _]. unfold BBLOCK. rewrite IPB_eq, BPB_eq in *.
  rewrite u32_small; [lia |].
  pose proof (Z.div_le_mono b (sb_size sb - 1) 4096 ltac:(lia) ltac:(lia)).
  pose proof (Z.div_pos b 4096 ltac:(lia) ltac:(lia)). unfold dstart in *.
  assert (-1 <= (sb_ninodes sb - 1) / 8) by (apply Z.div_le_lower_bound; lia). lia.
Qed.

Lemma bblock_range b : 0 <= b < sb_size sb -> sb_inodestart sb <= BBLOCK b sb < dstart sb /\ BBLOCK b sb ∈ bmaps sb.
Proof.
  intros Hb. rewrite bblock_eq by done. destruct Hg as [Hs (Hi1 & Hi2 & Hi3) (Hb1 & Hb2) _].
  rewrite IPB_eq, BPB_eq in *.
  pose proof (Z.div_le_mono b (sb_size sb - 1) 4096 ltac:(lia) ltac:(lia)).
  pose proof (Z.div_pos b 4096 ltac:(lia) ltac:(lia)).
  assert (-1 <= (sb_ninodes sb - 1) / 8) by (apply Z.div_le_lower_bound; lia).
  split; [lia |]. unfold bmaps. apply elem_of_list_to_set, list_elem_of_fmap. exists (Z.to_nat (b / 4096)).
  split; [lia |]. apply elem_of_seq. rewrite BPB_eq. lia.
Qed.

Lemma bmaps_range b : b ∈ bmaps sb -> sb_bmapstart sb <= b < dstart sb.
Proof.
  unfold bmaps. intros (k & -> & Hk%elem_of_seq)%elem_of_list_to_set%list_elem_of_fmap.
  destruct Hg as [Hs _ (Hb1 & Hb2) _].
  assert (0 <= (sb_size sb - 1) / BPB) by (rewrite BPB_eq; apply Z.div_pos; lia). lia.
Qed.

Lemma area_data b : is_data sb b -> area b.
Proof.
  intros Hb. apply (g_area _ _ Hg). right. destruct Hg as [Hs (Hi1 & Hi2 & Hi3) (Hb1 & Hb2) _].
  unfold is_data in Hb. rewrite IPB_eq, BPB_eq in *.
  assert (-1 <= (sb_ninodes sb - 1) / 8) by (apply Z.div_le_lower_bound; lia).
  assert (0 <= (sb_size sb - 1) / 4096) by (apply Z.div_pos; lia). lia.
Qed.

Lemma area_bblock b : 0 <= b < sb_size sb -> area (BBLOCK b sb).
Proof.
  intros Hb. apply (g_area _ _ Hg). right. destruct (bblock_range b Hb) as [Hr _].
  pose proof (g_bmap _ _ Hg). lia.
Qed.

Lemma bblock_not_data b c : 0 <= b < sb_size sb -> is_data sb c -> BBLOCK b sb <> c.
Proof. intros Hb Hc. destruct (bblock_range b Hb) as [Hr _]. unfold is_data in Hc. lia. Qed.

(** Changing the bit of block [b] changes no other bit. *)
Lemma bit_update (v : Z -> block) b x c :
  0 <= b < sb_size sb -> 0 <= c < sb_size sb -> length (v (BBLOCK b sb)) = BSIZE ->
  bit sb (<[BBLOCK b sb := <[Z.to_nat (b mod BPB / 8) := x]> (v (BBLOCK b sb))]> v) c =
  if decide (b / 8 = c / 8) then Z.testbit x (c mod BPB mod 8) else bit sb v c.
Proof.
  intros Hb Hc Hl. unfold bit. pose proof (bblock_eq b Hb) as Eb. pose proof (bblock_eq c Hc) as Ec.
  rewrite BPB_eq in *.
  pose proof (Z.div_mod b 4096 ltac:(lia)). pose proof (Z.div_mod c 4096 ltac:(lia)).
  pose proof (Z.mod_pos_bound b 4096 ltac:(lia)). pose proof (Z.mod_pos_bound c 4096 ltac:(lia)).
  assert (b / 8 = 512 * (b / 4096) + b mod 4096 / 8) as E1.
  { rewrite H at 1. replace (4096 * (b / 4096) + b mod 4096) with (b mod 4096 + (512 * (b / 4096)) * 8) by lia.
    rewrite Z.div_add by lia. lia. }
  assert (c / 8 = 512 * (c / 4096) + c mod 4096 / 8) as E2.
  { rewrite H0 at 1. replace (4096 * (c / 4096) + c mod 4096) with (c mod 4096 + (512 * (c / 4096)) * 8) by lia.
    rewrite Z.div_add by lia. lia. }
  assert (0 <= b mod 4096 / 8 < 512) by (split; [apply Z.div_pos | apply Z.div_lt_upper_bound]; lia).
  assert (0 <= c mod 4096 / 8 < 512) by (split; [apply Z.div_pos | apply Z.div_lt_upper_bound]; lia).
  destruct (decide (b / 4096 = c / 4096)) as [He|Hne].
  - assert (BBLOCK b sb = BBLOCK c sb) as Ebc by lia. rewrite Ebc in Hl |- *. rewrite fn_lookup_insert.
    case_decide.
    + assert (b mod 4096 / 8 = c mod 4096 / 8) as -> by lia. rewrite byte_at_insert_eq; [done |].
      rewrite Hl. unfold BSIZE. lia.
    + rewrite byte_at_insert_ne by lia. done.
  - rewrite fn_lookup_insert_ne by lia. rewrite decide_False by lia. done.
Qed.

Lemma bit_outside (v : Z -> block) b x c :
  0 <= c < sb_size sb -> b ∉ bmaps sb -> bit sb (<[b := x]> v) c = bit sb v c.
Proof.
  intros Hc Hb. unfold bit. rewrite fn_lookup_insert_ne; [done |]. intros ->.
  by apply Hb, bblock_range.
Qed.

Lemma mod_bpb_8 b : b mod BPB mod 8 = b mod 8.
Proof. rewrite BPB_eq. apply Z.mod_mod_divide. by exists 512. Qed.

(** The free map block with the bit of [b] set or cleared. *)
Definition mark (v : Z -> block) (b : Z) (f : Z -> Z -> Z) : block :=
  <[Z.to_nat (b mod BPB / 8) := uchar (f (byte_at (v (BBLOCK b sb)) (Z.to_nat (b mod BPB / 8)))
     (Z.shiftl 1 (b mod BPB mod 8)))]> (v (BBLOCK b sb)).

Lemma mark_length v b f : length (mark v b f) = length (v (BBLOCK b sb)).
Proof. apply length_insert. Qed.

Lemma bit_mark (r : bool) (v : Z -> block) b f c :
  0 <= b < sb_size sb -> 0 <= c < sb_size sb -> length (v (BBLOCK b sb)) = BSIZE ->
  (forall x k j, 0 <= k -> 0 <= j < 8 ->
     Z.testbit (uchar (f x (Z.shiftl 1 k))) j = if decide (j = k) then r else Z.testbit x j) ->
  bit sb (<[BBLOCK b sb := mark v b f]> v) c = if decide (c = b) then r else bit sb v c.
Proof.
  intros Hb Hc Hl Hf. unfold mark. rewrite (bit_update v b _ c Hb Hc Hl), !mod_bpb_8.
  pose proof (Z.div_mod b 8 ltac:(lia)). pose proof (Z.div_mod c 8 ltac:(lia)).
  pose proof (Z.mod_pos_bound b 8 ltac:(lia)). pose proof (Z.mod_pos_bound c 8 ltac:(lia)).
  destruct (decide (b / 8 = c / 8)) as [He|Hne]; [| rewrite decide_False by congruence; done].
  rewrite Hf by lia. destruct (decide (c mod 8 = b mod 8)) as [Hm|Hm].
  - by rewrite decide_True by lia.
  - rewrite decide_False by congruence. unfold bit. rewrite mod_bpb_8.
    pose proof (bblock_eq b Hb) as Eb. pose proof (bblock_eq c Hc) as Ec. rewrite BPB_eq in *.
    assert (b / 4096 = c / 4096) as Hd.
    { change 4096 with (8 * 512). rewrite <- !Z.div_div by lia. by rewrite He. }
    assert (BBLOCK b sb = BBLOCK c sb) as -> by lia. do 3 f_equal.
    pose proof (Z.div_mod b 4096 ltac:(lia)). pose proof (Z.div_mod c 4096 ltac:(lia)).
    rewrite !Z.mod_eq, Hd by lia.
    replace (b - 4096 * (c / 4096)) with (b + (- (512 * (c / 4096))) * 8) by lia.
    replace (c - 4096 * (c / 4096)) with (c + (- (512 * (c / 4096))) * 8) by lia.
    rewrite !Z.div_add by lia. by rewrite He.
Qed.

Lemma data_range b : is_data sb b -> 0 <= b < sb_size sb.
Proof.
  intros Hb. destruct Hg as [Hs (Hi1 & Hi2 & Hi3) (Hb1 & Hb2) _]. unfold is_data in Hb.
  destruct (bblock_range (sb_size sb - 1)) as [? _]; [lia |]. lia.
Qed.

Lemma alloc_take (v : Z -> block) O b :
  alloc_ok sb v O -> 0 <= b < sb_size sb -> bit sb v b = false -> length (v (BBLOCK b sb)) = BSIZE ->
  alloc_ok sb (<[BBLOCK b sb := mark v b Z.lor]> v) (b :: O).
Proof.
  intros [Hbits Hnd Hd] Hb Hf Hl. pose proof (proj1 (Hbits b Hb) Hf) as [Hb1 Hb2]. split.
  - intros c Hc. rewrite (bit_mark true v b Z.lor c Hb Hc Hl) by apply set_bit_spec.
    rewrite not_elem_of_cons. case_decide as Hcb.
    + split; [done | tauto].
    + rewrite Hbits by done. tauto.
  - by apply NoDup_cons.
  - apply Forall_cons. split; [split; [done | lia] | done].
Qed.

Lemma alloc_give (v : Z -> block) O b :
  alloc_ok sb v (b :: O) -> length (v (BBLOCK b sb)) = BSIZE ->
  alloc_ok sb (<[BBLOCK b sb := mark v b (fun x m => Z.land x (Z.lnot m))]> v) O.
Proof.
  intros [Hbits Hnd Hd] Hl. apply NoDup_cons in Hnd as [Hn Hnd]. apply Forall_cons in Hd as [Hb Hd].
  pose proof (data_range b Hb) as Hb'. split; [| done | done].
  intros c Hc. rewrite (bit_mark false v b _ c Hb' Hc Hl) by apply clear_bit_spec.
  case_decide as Hcb.
  - subst c. split; [| done]. intros _. split; [apply Hb | done].
  - rewrite Hbits, not_elem_of_cons by done. tauto.
Qed.

(** Blocks outside the free map do not matter. *)
Lemma alloc_ext v v' O :
  (forall b, b ∈ bmaps sb -> v' b = v b) -> alloc_ok sb v O -> alloc_ok sb v' O.
Proof.
  intros Hv [Hbits Hnd Hd]. split; [| done | done]. intros b Hb. rewrite <- Hbits by done.
  unfold bit. rewrite Hv; [done |]. by apply bblock_range.
Qed.

(** A block is free as long as not all data blocks are in use. *)
Lemma alloc_exists v O :
  alloc_ok sb v O -> Z.of_nat (length O) < sb_nblocks sb ->
  exists b, 0 <= b < sb_size sb /\ bit sb v b = false.
Proof.
  intros [Hbits Hnd Hd] Hlen.
  set (all := (fun k => dstart sb + Z.of_nat k) <$> seq 0 (Z.to_nat (sb_nblocks sb))).
  destruct (decide (Forall (fun b => b ∈ O) all)) as [Hall|Hno].
  - exfalso. assert (length all <= length O)%nat as Hle.
    { apply submseteq_length, NoDup_submseteq.
      - apply NoDup_fmap_2; [intros i j Hij; lia | apply NoDup_seq].
      - intros x Hx. by apply (proj1 (Forall_forall _ _) Hall). }
    unfold all in Hle. rewrite length_fmap, length_seq in Hle. lia.
  - apply not_Forall_Exists, Exists_exists in Hno as (b & Hin & Hb); [| apply _].
    apply list_elem_of_fmap in Hin as (k & -> & Hk%elem_of_seq).
    assert (is_data sb (dstart sb + Z.of_nat k)) as Hdk by (unfold is_data, dstart; lia).
    exists (dstart sb + Z.of_nat k). pose proof (data_range _ Hdk). split; [done |]. apply Hbits; [done |].
    split; [lia | done].
Qed.
End geometry.

(** ** Blocks through the transaction *)

Section blocks.
Context {T : Type} {area : Z -> Prop} {cap : nat} `{TxSpec T area cap}.

Lemma runs_blk {A} (c : ST T A) (s : fs T) (Q : A -> fs T -> Prop) :
  runs c (fs_tx s) (fun a t => Q a (set_tx t s)) -> runs (blk c) s Q.
Proof. apply runs_lift_st. Qed.

Lemma fs_bread {B} (s : fs T) v h L bn (k : nat -> ST (fs T) B) Q :
  settled (fs_tx s) v h L -> area bn -> unheld h bn -> (size h <= 2)%nat ->
  (forall i t, settled t v (<[i := bn]> h) L -> h !! i = None -> runs (k i) (set_tx t s) Q) ->
  runs (let* i := blk (t_bread 1 bn) in k i) s Q.
Proof.
  intros Hs Ha Hu Hh HQ. apply runs_bind, runs_blk.
  eapply runs_mono; [apply (t_bread_law _ _ bn Hs); done |]. intros i t [Ht Hi]. by apply HQ.
Qed.

Lemma fs_bdata {B} (s : fs T) v h L i bn (k : block -> ST (fs T) B) Q :
  settled (fs_tx s) v h L -> h !! i = Some bn ->
  (forall t, settled t v h L -> runs (k (v bn)) (set_tx t s) Q) ->
  runs (let* d := blk (t_bdata i) in k d) s Q.
Proof.
  intros Hs Hi HQ. apply runs_bind, runs_blk.
  eapply runs_mono; [apply (t_bdata_law _ _ i bn Hs Hi) |]. intros d t [-> Ht]. by apply HQ.
Qed.

Lemma fs_log {B} (s : fs T) v h L i bn d (k : ST (fs T) B) Q :
  settled (fs_tx s) v (<[i := bn]> h) L -> area bn -> (size ({[bn]} ∪ L) <= cap)%nat -> length d = BSIZE ->
  (forall t, settled t (<[bn := d]> v) (<[i := bn]> h) ({[bn]} ∪ L) -> runs k (set_tx t s) Q) ->
  runs (blk (t_bdata_set i d) ;;; blk (t_log_write i) ;;; k) s Q.
Proof.
  intros Hs Ha Hc Hd HQ. apply runs_bind, runs_blk.
  eapply runs_mono; [apply (t_bdata_set_law _ _ i bn d Hs); [apply lookup_insert_eq | done] |].
  intros [] t1 Ht1. apply runs_bind, runs_blk.
  eapply runs_mono; [apply (t_log_write_law _ _ i bn Ht1); [apply lookup_insert_eq | done | done] |].
  intros [] t2 Ht2. apply HQ. unfold settled. cbn [x_view x_held x_logged x_dirty] in Ht2.
  by rewrite union_empty_r_L, difference_diag_L in Ht2.
Qed.

Lemma fs_brelse (s : fs T) v h L i bn (Q : unit -> fs T -> Prop) :
  settled (fs_tx s) v (<[i := bn]> h) L -> h !! i = None ->
  (forall t, settled t v h L -> Q tt (set_tx t s)) ->
  runs (blk (t_brelse i)) s Q.
Proof.
  intros Hs Hi HQ. apply runs_blk.
  eapply runs_mono; [apply (t_brelse_law _ _ i bn Hs); [apply lookup_insert_eq | set_solver] |].
  intros [] t Ht. apply HQ. cbn [x_view x_held x_logged x_dirty] in Ht. by rewrite delete_insert_id in Ht.
Qed.

Context {sb : superblock} (Hg : geometry area sb).

Lemma readsb_spec (s : fs T) v h L :
  settled (fs_tx s) v h L -> unheld h 1 -> (size h <= 2)%nat ->
  runs (readsb 1) s (fun r s' => exists t, s' = set_tx t s /\ r = sb_of (v 1) /\ settled t v h L).
Proof.
  intros Hs Hu Hh. unfold readsb. eapply fs_bread; [done | apply (g_area _ _ Hg); by left | done | done |].
  intros i t1 Ht1 Hi. eapply fs_bdata; [exact Ht1 | apply lookup_insert_eq |]. intros t2 Ht2.
  apply runs_bind. eapply fs_brelse; [exact Ht2 | done |]. intros t3 Ht3. apply runs_ret. by exists t3.
Qed.

Lemma bzero_spec (s : fs T) v h L bn :
  settled (fs_tx s) v h L -> area bn -> unheld h bn -> (size h <= 2)%nat -> (size ({[bn]} ∪ L) <= cap)%nat ->
  runs (bzero 1 bn) s (fun _ s' => exists t, s' = set_tx t s /\
    settled t (<[bn := replicate BSIZE 0]> v) h ({[bn]} ∪ L)).
Proof.
  intros Hs Ha Hu Hh Hc. unfold bzero. eapply fs_bread; [done | done | done | done |].
  intros i t1 Ht1 Hi. eapply fs_log; [exact Ht1 | done | done | apply length_replicate |]. intros t2 Ht2.
  eapply fs_brelse; [exact Ht2 | done |]. intros t3 Ht3. by exists t3.
Qed.

(** ** balloc *)

Lemma balloc_scan_spec v b count : forall bi,
  0 <= b < sb_size sb -> b mod BPB = 0 -> 0 <= bi -> (Z.to_nat BPB <= Z.to_nat bi + count)%nat ->
  match balloc_scan (v (BBLOCK b sb)) (sb_size sb) b bi count with
  | Some r => bi <= r < BPB /\ b + r < sb_size sb /\ bit sb v (b + r) = false
  | None => forall c, b + bi <= c < b + BPB -> c < sb_size sb -> bit sb v c = true
  end.
Proof.
  intros bi Hb Hm. pose proof (g_size _ _ Hg) as Hsz. rewrite BPB_eq in *. revert bi.
  induction count as [|count IH]; intros bi Hbi Hcount; cbn [balloc_scan]; rewrite ?BPB_eq.
  { intros c Hc. lia. }
  destruct (Z.ltb_spec bi 4096) as [Hlt|Hge]; cbn [andb]; [| intros; lia].
  destruct (Z.ltb_spec (u32 (b + bi)) (sb_size sb)) as [Hs|Hs]; rewrite u32_small in Hs by lia; [| intros; lia].
  assert ((b + bi) / 4096 = b / 4096 /\ (b + bi) mod 4096 = bi) as [Hd Hr].
  { pose proof (Z.div_mod b 4096 ltac:(lia)). split.
    - symmetry. apply (Z.div_unique_pos _ _ _ bi); lia.
    - symmetry. apply (Z.mod_unique_pos _ _ (b / 4096)); lia. }
  assert (bit sb v (b + bi) = Z.testbit (byte_at (v (BBLOCK b sb)) (Z.to_nat (bi / 8))) (bi mod 8)) as Hbit.
  { unfold bit. rewrite BPB_eq, Hr. do 3 f_equal.
    rewrite !(bblock_eq Hg), BPB_eq by lia. by rewrite Hd. }
  rewrite land_bit by (apply Z.mod_pos_bound; lia). rewrite <- Hbit.
  destruct (bit sb v (b + bi)) eqn:Hv; simpl.
  - specialize (IH (bi + 1) ltac:(lia) ltac:(lia)). destruct (balloc_scan _ _ _ _ _) as [r|].
    + destruct IH as (? & ? & ?). split; [lia | done].
    + intros c Hc1 Hc2. destruct (decide (c = b + bi)) as [->|]; [done |]. apply IH; lia.
  - split; [lia |]. split; [lia | done].
Qed.

(** Block [r] of the data area is taken and zeroed; other blocks outside the
    free map stay. *)
Definition balloced (v : Z -> block) (r : Z) (O : list Z) (v' : Z -> block) : Prop :=
  is_data sb r /\ (r ∉ O) /\ v' r = replicate BSIZE 0 /\ alloc_ok sb v' (r :: O) /\
  forall c, c <> r -> c ∉ bmaps sb -> v' c = v c.

Lemma scan_position b bi :
  0 <= b -> b mod BPB = 0 -> 0 <= bi < BPB -> b + bi < sb_size sb ->
  BBLOCK (b + bi) sb = BBLOCK b sb /\ (b + bi) mod BPB = bi.
Proof.
  intros Hb Hm Hbi Hs. rewrite !(bblock_eq Hg) by lia. rewrite BPB_eq in *.
  pose proof (Z.div_mod b 4096 ltac:(lia)). split.
  - f_equal. symmetry. apply (Z.div_unique_pos _ _ _ bi); lia.
  - symmetry. apply (Z.mod_unique_pos _ _ (b / 4096)); lia.
Qed.

(** A buffer that is in use holds a block in use outside the free map. *)
Definition held_in (h : gmap nat Z) (O : list Z) : Prop := forall i c, h !! i = Some c -> c ∈ O.

Lemma held_unheld v h O c : alloc_ok sb v O -> held_in h O -> c ∉ O -> unheld h c.
Proof. intros _ Hh Hc i Hi. by apply Hc, (Hh i). Qed.

Lemma held_bmap v h O c : alloc_ok sb v O -> held_in h O -> ~ is_data sb c -> unheld h c.
Proof.
  intros Ho Hh Hc i Hi. apply Hc. apply (proj1 (Forall_forall _ _) (ao_data _ _ _ Ho)). by apply (Hh i).
Qed.

Lemma balloc_take (s : fs T) v h L O i r :
  settled (fs_tx s) v (<[i := BBLOCK r sb]> h) L -> h !! i = None -> alloc_ok sb v O -> held_in h O ->
  (size h <= 2)%nat -> 0 <= r < sb_size sb -> bit sb v r = false -> (cost sb L + 1 <= cap)%nat ->
  runs (blk (t_bdata_set i (mark (sb := sb) v r Z.lor)) ;;; blk (t_log_write i) ;;; blk (t_brelse i) ;;;
        bzero 1 r ;;; ret r) s (fun a s' => a = r /\ exists t v', s' = set_tx t s /\ balloced v r O v' /\
    settled t v' h ({[r]} ∪ ({[BBLOCK r sb]} ∪ L))).
Proof.
  intros Hs Hi Ho Hh H2 Hr Hb Hc. pose proof (proj1 (ao_bits _ _ _ Ho r Hr) Hb) as [Hd Hn].
  assert (is_data sb r) as Hdr by (split; lia). pose proof (bblock_range Hg r Hr) as [Hbr Hbm].
  pose proof (settled_size _ _ _ _ (BBLOCK r sb) Hs) as Hlen.
  pose proof (cost_bmap sb L _ Hbm) as Hcb. pose proof (cost_size sb ({[BBLOCK r sb]} ∪ L)) as Hcs.
  eapply fs_log; [exact Hs | by apply (area_bblock Hg) | lia | by rewrite mark_length |].
  intros t1 Ht1. apply runs_bind. eapply fs_brelse; [exact Ht1 | done |]. intros t2 Ht2. apply runs_bind.
  eapply runs_mono; [eapply (bzero_spec _ _ h _ r); [exact Ht2 | | | |] |].
  - by apply (area_data Hg).
  - by eapply held_unheld.
  - done.
  - pose proof (cost_add sb ({[BBLOCK r sb]} ∪ L) r) as Hca.
    pose proof (cost_size sb ({[r]} ∪ ({[BBLOCK r sb]} ∪ L))). lia.
  - intros [] s' (t3 & -> & Ht3). apply runs_ret. split; [done |]. eexists t3, _. split; [done |].
    split; [| exact Ht3]. assert (r ∉ bmaps sb) as Hrm.
    { intros Hin%(bmaps_range Hg). unfold is_data in Hdr. lia. }
    split; [done |]. split; [done |]. split; [apply fn_lookup_insert |]. split.
    + eapply (alloc_ext Hg); [| by apply (alloc_take Hg v O r)]. intros c Hcm. rewrite fn_lookup_insert_ne; [done |].
      by intros <-.
    + intros c Hcr Hcm. rewrite !fn_lookup_insert_ne; [done | | done]. by intros <-.
Qed.

Lemma balloc_loop_spec fuel : forall (s : fs T) b v h L O,
  settled (fs_tx s) v h L -> fs_sb s = sb -> alloc_ok sb v O -> held_in h O -> (size h <= 2)%nat ->
  (cost sb L + 1 <= cap)%nat -> 0 <= b -> b mod BPB = 0 ->
  (exists f, b <= f < sb_size sb /\ bit sb v f = false) -> sb_size sb <= b + BPB * Z.of_nat fuel ->
  runs (balloc_loop 1 b fuel) s (fun r s' => exists t v', s' = set_tx t s /\ balloced v r O v' /\
    settled t v' h ({[r]} ∪ ({[BBLOCK r sb]} ∪ L))).
Proof.
  induction fuel as [|fuel IH]; intros s b v h L O Hs Hsb Ho Hh H2 Hc Hb Hm (f & Hf & Hff) Hfuel; [lia |].
  pose proof (g_size _ _ Hg) as Hsz. pose proof BPB_eq as HB.
  cbn [balloc_loop]. apply runs_bind, runs_get. rewrite Hsb, u32_small by lia.
  rewrite (proj2 (Z.ltb_lt b (sb_size sb))) by lia.
  assert (0 <= b < sb_size sb) as Hbs by lia.
  eapply fs_bread; [done | by apply (area_bblock Hg) | | done |].
  { eapply held_bmap; [done | done |]. intros Hd. by apply (bblock_not_data Hg b _ Hbs) in Hd. }
  intros i t1 Ht1 Hi. eapply fs_bdata; [exact Ht1 | apply lookup_insert_eq |]. intros t2 Ht2.
  pose proof (balloc_scan_spec v b (Z.to_nat BPB) 0 Hbs Hm ltac:(lia) ltac:(lia)) as Hscan.
  destruct (balloc_scan _ _ _ _ _) as [bi|].
  - destruct Hscan as (Hbi & Hlt & Hfree).
    destruct (scan_position b bi Hb Hm Hbi Hlt) as [Hbb Hmod].
    pose proof (balloc_take (set_tx t2 (set_tx t1 s)) v h L O i (b + bi)) as Htake.
    unfold mark in Htake. rewrite Hbb, Hmod in Htake.
    eapply runs_mono; [apply Htake; try done; lia |]. intros a s' [-> Hx]. rewrite Hbb. exact Hx.
  - apply runs_bind. eapply fs_brelse; [exact Ht2 | done |]. intros t3 Ht3.
    rewrite i32_small by lia. rewrite Z.add_0_r in Hscan.
    assert (b + BPB <= f) as Hfb.
    { destruct (Z.lt_ge_cases f (b + BPB)); [| done]. by rewrite Hscan in Hff by lia. }
    eapply runs_mono; [apply (IH (set_tx t3 (set_tx t2 (set_tx t1 s))) (b + BPB) v h L O); try done |].
    + lia.
    + by rewrite Zplus_mod, Hm, Z_mod_same_full.
    + exists f. split; [lia | done].
    + lia.
    + intros r s' (t4 & v' & -> & Hx). exists t4, v'. done.
Qed.

Lemma balloc_spec (s : fs T) v h L O :
  settled (fs_tx s) v h L -> fs_sb s = sb -> alloc_ok sb v O -> held_in h O -> (size h <= 2)%nat ->
  (cost sb L + 1 <= cap)%nat -> Z.of_nat (length O) < sb_nblocks sb ->
  runs (balloc 1) s (fun r s' => exists t v', s' = set_tx t s /\ balloced v r O v' /\
    settled t v' h ({[r]} ∪ ({[BBLOCK r sb]} ∪ L))).
Proof.
  intros Hs Hsb Ho Hh H2 Hc Hl. unfold balloc. apply runs_bind, runs_get. rewrite Hsb.
  destruct (alloc_exists Hg v O Ho Hl) as (f & Hf & Hff). pose proof BPB_eq.
  apply (balloc_loop_spec _ s 0 v h L O); try done; [by exists f |].
  pose proof (Z.div_mod (sb_size sb + BPB - 1) BPB ltac:(lia)).
  pose proof (Z.mod_pos_bound (sb_size sb + BPB - 1) BPB ltac:(lia)). pose proof (g_size _ _ Hg). lia.
Qed.

(** ** bfree *)

Lemma bfree_spec (s : fs T) v h L b O :
  settled (fs_tx s) v h L -> fs_sb s = sb -> sb_of (v 1) = sb -> alloc_ok sb v (b :: O) ->
  held_in h (b :: O) -> (size h <= 2)%nat -> (cost sb L <= cap)%nat ->
  runs (bfree 1 b) s (fun _ s' => exists t v', s' = set_tx t s /\ alloc_ok sb v' O /\
    (forall c, c ∉ bmaps sb -> v' c = v c) /\ settled t v' h ({[BBLOCK b sb]} ∪ L)).
Proof.
  intros Hs Hsb Hv1 Ho Hh H2 Hc. pose proof (Forall_inv (ao_data _ _ _ Ho)) as Hd. simpl in Hd.
  pose proof (data_range Hg b Hd) as Hb. pose proof (bblock_range Hg b Hb) as [Hbr Hbm].
  assert (~ is_data sb 1) as H1.
  { unfold is_data. pose proof (g_inodes _ _ Hg). destruct (bblock_range Hg b Hb). lia. }
  unfold bfree. apply runs_bind. eapply runs_mono; [apply (readsb_spec s v h L Hs); [by eapply held_bmap | done] |].
  intros r s1 (t1 & -> & -> & Ht1). rewrite Hv1. apply runs_bind, runs_modify.
  eapply fs_bread; [exact Ht1 | by apply (area_bblock Hg) | | done |].
  { eapply held_bmap; [done | done |]. intros Hx. by apply (bblock_not_data Hg b _ Hb) in Hx. }
  intros i t2 Ht2 Hi. eapply fs_bdata; [exact Ht2 | apply lookup_insert_eq |]. intros t3 Ht3. cbv zeta.
  rewrite land_bit by (apply Z.mod_pos_bound; lia). fold (bit sb v b).
  assert (bit sb v b = true) as ->.
  { destruct (bit sb v b) eqn:Hbit; [done |]. apply (ao_bits _ _ _ Ho) in Hbit as [_ Hn]; [| done].
    exfalso. apply Hn. by left. }
  cbn [negb]. pose proof (settled_size _ _ _ _ (BBLOCK b sb) Hs) as Hlen.
  pose proof (cost_bmap sb L _ Hbm) as Hcb. pose proof (cost_size sb ({[BBLOCK b sb]} ∪ L)) as Hcs.
  eapply fs_log; [exact Ht3 | by apply (area_bblock Hg) | lia | by etrans; [apply length_insert |] |].
  intros t4 Ht4. eapply fs_brelse; [exact Ht4 | done |]. intros t5 Ht5. eexists t5, _.
  split; [| split; [| split; [| exact Ht5]]].
  - destruct s. simpl in *. by subst.
  - by apply (alloc_give Hg v O b).
  - intros c Hcm. rewrite fn_lookup_insert_ne; [done |]. by intros <-.
Qed.
End blocks.
