(* ===== verification/FsFile.v ===== *)
(** * File contents (fs.c: bmap, readi, writei, itrunc)

    The blocks of an inode, direct and indirect, as one table, and what
    [bmap], [readi], [writei] and [itrunc] do to it and to the bytes of the
    file, to the free map and to the blocks of all other files. *)

From stdpp Require Import gmap functions.
From S2P Require Import Prelude Params Bytes Cache Tx Fs FsAlloc.

(** ** The blocks of an inode *)

Definition NBLOCKS : nat := NDIRECT + NINDIRECT.

Definition ind (addrs : list Z) : Z := default 0 (addrs !! NDIRECT).

(** The [k]th block of the file, 0 if there is none. *)
Definition nth_block (v : Z -> block) (addrs : list Z) (k : nat) : Z :=
  if (k <? NDIRECT)%nat then default 0 (addrs !! k)
  else if ind addrs =? 0 then 0
  else get32 (v (ind addrs)) (4 * (k - NDIRECT)).

Definition present (b : Z) : list Z := if b =? 0 then [] else [b].

(** All blocks the inode refers to. *)
Definition fblocks (v : Z -> block) (addrs : list Z) : list Z :=
  present (ind addrs) ++ concat ((fun k => present (nth_block v addrs k)) <$> seq 0 NBLOCKS).

Lemma NINDIRECT_eq : NINDIRECT = 128%nat. Proof. reflexivity. Qed.
Lemma NBLOCKS_eq : NBLOCKS = 140%nat. Proof. reflexivity. Qed.

#[global] Opaque NINDIRECT.
#[global] Opaque NBLOCKS.

Lemma elem_of_present b c : c ∈ present b <-> c = b /\ b <> 0.
Proof.
  unfold present. destruct (Z.eqb_spec b 0).
  - rewrite elem_of_nil. naive_solver.
  - rewrite list_elem_of_singleton. naive_solver.
Qed.

Lemma present_in b : b <> 0 -> b ∈ present b.
Proof. intros Hb. by apply elem_of_present. Qed.

Lemma get32_zeros n off : get32 (replicate n 0) off = 0.
Proof.
  assert (forall i, byte_at (replicate n 0) i = 0) as Hb.
  { intros i. unfold byte_at. destruct (replicate n 0 !! i) as [x|] eqn:E; [| done].
    by apply lookup_replicate_1 in E as [-> _]. }
  unfold get32. by rewrite !Hb.
Qed.

Lemma in_fblocks v addrs c :
  c ∈ fblocks v addrs <->
  (c = ind addrs /\ c <> 0) \/ exists k, (k < NBLOCKS)%nat /\ c = nth_block v addrs k /\ c <> 0.
Proof.
  unfold fblocks. rewrite elem_of_app, elem_of_present, elem_of_concat_seq.
  setoid_rewrite elem_of_present. naive_solver.
Qed.

Lemma fblocks_inj v addrs j k :
  NoDup (fblocks v addrs) -> (j < NBLOCKS)%nat -> (k < NBLOCKS)%nat ->
  nth_block v addrs j = nth_block v addrs k -> nth_block v addrs j <> 0 -> j = k.
Proof.
  intros (_ & _ & Hnd)%NoDup_app Hj Hk He Hn.
  eapply (NoDup_concat_seq _ _ j k (nth_block v addrs j) Hnd Hj Hk); apply elem_of_present; [done |].
  by rewrite <- He.
Qed.

Lemma fblocks_ind v addrs k :
  NoDup (fblocks v addrs) -> (k < NBLOCKS)%nat -> nth_block v addrs k <> 0 -> nth_block v addrs k <> ind addrs.
Proof.
  intros (_ & Hd & _)%NoDup_app Hk Hn He. apply (Hd (nth_block v addrs k)).
  - apply elem_of_present. rewrite <- He. done.
  - apply elem_of_concat_seq. exists k. split; [done |]. by apply present_in.
Qed.

(** A new block at position [k]. *)
Lemma fblocks_add v addrs v' addrs' k r :
  (k < NBLOCKS)%nat -> ind addrs' = ind addrs -> nth_block v addrs k = 0 -> nth_block v' addrs' k = r -> r <> 0 ->
  (forall j, (j < NBLOCKS)%nat -> j <> k -> nth_block v' addrs' j = nth_block v addrs j) ->
  fblocks v' addrs' ≡ₚ r :: fblocks v addrs.
Proof.
  intros Hk Hi H0 Hr Hne Hj. unfold fblocks. rewrite Hi.
  rewrite (concat_seq_perm_add (fun k => present (nth_block v addrs k))
    (fun k => present (nth_block v' addrs' k)) NBLOCKS k r Hk).
  - symmetry. apply Permutation_middle.
  - intros j Hjn Hjk. by rewrite Hj.
  - by rewrite H0.
  - rewrite Hr. unfold present. by rewrite (proj2 (Z.eqb_neq _ _)).
Qed.

(** A new indirect block. *)
Lemma fblocks_add_ind v addrs v' addrs' r :
  ind addrs = 0 -> ind addrs' = r -> r <> 0 ->
  (forall j, (j < NBLOCKS)%nat -> nth_block v' addrs' j = nth_block v addrs j) ->
  fblocks v' addrs' = r :: fblocks v addrs.
Proof.
  intros Hi Hr Hne Hj. unfold fblocks. rewrite Hi, Hr.
  rewrite (concat_seq_ext (fun k => present (nth_block v addrs k))) by (intros; by rewrite Hj).
  unfold present at 1. by rewrite (proj2 (Z.eqb_neq _ _)).
Qed.

Lemma fblocks_ext v v' addrs :
  (forall c, c = ind addrs -> c <> 0 -> v' c = v c) -> fblocks v' addrs = fblocks v addrs.
Proof.
  intros Hv. unfold fblocks. f_equal. apply concat_seq_ext. intros k Hk. f_equal. unfold nth_block.
  destruct (k <? NDIRECT)%nat; [done |]. destruct (Z.eqb_spec (ind addrs) 0); [done |]. by rewrite Hv.
Qed.

(** ** Inodes on the disk *)

(** The fields fit into their places. *)
Record dinode_wf (di : dinode) : Prop := {
  dw_type : -32768 <= d_type di < 32768;
  dw_major : -32768 <= d_major di < 32768;
  dw_minor : -32768 <= d_minor di < 32768;
  dw_nlink : -32768 <= d_nlink di < 32768;
  dw_size : 0 <= d_size di < 4294967296;
  dw_len : length (d_addrs di) = S NDIRECT;
  dw_addrs : Forall (fun a => 0 <= a < 4294967296) (d_addrs di)
}.

Lemma i16_mod x : -32768 <= x < 32768 -> i16 (x mod 65536) = x.
Proof. intros Hx. unfold i16. rewrite Zplus_mod_idemp_l, Z.mod_small; lia. Qed.

Lemma dinode_put_length d off di : length (dinode_put d off di) = length d.
Proof. unfold dinode_put. by autorewrite with bytes. Qed.

Ltac dinode_field :=
  unfold dinode_put;
  repeat first
    [ rewrite get16_put32s_ne by lia | rewrite get32_put32s_ne by lia
    | rewrite get16_put32_ne by lia | rewrite get32_put32_ne by lia
    | rewrite get16_put16_ne by lia | rewrite get32_put16_ne by lia ].

Lemma dinode_get_put d off di :
  dinode_wf di -> (off + DINODE <= length d)%nat -> dinode_get (dinode_put d off di) off = di.
Proof.
  intros [H1 H2 H3 H4 H5 H6 H7] Hl. unfold DINODE, NDIRECT in *. unfold dinode_get.
  destruct di as [ty ma mi nl sz addrs]. cbn [d_type d_major d_minor d_nlink d_size d_addrs] in *. f_equal.
  1-4: dinode_field; rewrite get16_put16_eq by (autorewrite with bytes; lia); by apply i16_mod.
  - dinode_field. rewrite get32_put32_eq by (autorewrite with bytes; lia). by apply u32_small.
  - apply list_eq. intros k. rewrite list_lookup_fmap. destruct (decide (k < 13)%nat) as [Hk|Hk].
    + rewrite lookup_seq_lt by (unfold NDIRECT; lia). cbn [fmap option_fmap option_map].
      destruct (lookup_lt_is_Some_2 addrs k) as [a Ha]; [lia |]. rewrite Ha. cbn. f_equal. unfold dinode_put.
      cbn [d_addrs]. rewrite (get32_put32s_in addrs _ _ k a); [| autorewrite with bytes; lia | done].
      exact (u32_small _ (Forall_lookup_1 _ _ _ _ H7 Ha)).
    + rewrite lookup_seq_ge by (unfold NDIRECT; lia). symmetry. apply lookup_ge_None. lia.
Qed.

Lemma dinode_get_put_ne d off off' di :
  length (d_addrs di) = S NDIRECT -> (off + DINODE <= off' \/ off' + DINODE <= off)%nat ->
  dinode_get (dinode_put d off di) off' = dinode_get d off'.
Proof.
  intros Hl Hoff. unfold DINODE, NDIRECT in *. unfold dinode_get. dinode_field. f_equal.
  apply list_fmap_ext. intros i k [-> Hk]%lookup_seq. unfold NDIRECT in Hk. by dinode_field.
Qed.

(** ** bmap *)

Section file.
Context {T : Type} {area : Z -> Prop} {cap : nat} `{TxSpec T area cap}.
Context {sb : superblock} (Hg : geometry area sb).

Definition set_addrs (a : list Z) (i : inode) : inode := set_idi (set_daddrs a (i_di i)) i.
Definition put_inode (ip : nat) (i : inode) (s : fs T) : fs T := set_ic (<[ip := i]> (fs_ic s)) s.

Lemma put_inode_same ip i (s : fs T) : fs_ic s !! ip = Some i -> put_inode ip i s = s.
Proof. intros Hi. unfold put_inode, set_ic. rewrite list_insert_id by done. by destruct s. Qed.

Lemma put_inode_twice ip i i' (s : fs T) : put_inode ip i' (put_inode ip i s) = put_inode ip i' s.
Proof. unfold put_inode, set_ic. simpl. by rewrite list_insert_insert_eq. Qed.

Lemma set_addrs_same i : set_addrs (d_addrs (i_di i)) i = i.
Proof. by destruct i as [? ? ? ? ? []]. Qed.

Lemma runs_inode_at {B} ip i (s : fs T) (k : inode -> ST (fs T) B) Q :
  fs_ic s !! ip = Some i -> runs (k i) s Q -> runs (let* x := inode_at ip in k x) s Q.
Proof. intros Hi HQ. apply runs_bind. exists i, s. unfold inode_at. by rewrite Hi. Qed.

Lemma runs_upd_inode ip i f (s : fs T) (Q : unit -> fs T -> Prop) :
  fs_ic s !! ip = Some i -> Q tt (put_inode ip (f i) s) -> runs (upd_inode ip f) s Q.
Proof.
  intros Hi HQ. apply runs_modify. unfold put_inode in HQ. by rewrite (list_alter_lookup_insert _ _ _ _ Hi).
Qed.

Lemma put_inode_lookup ip i i' t (s : fs T) :
  fs_ic s !! ip = Some i -> fs_ic (set_tx t (put_inode ip i' s)) !! ip = Some i'.
Proof. intros Hi. simpl. apply list_lookup_insert_eq. by eapply lookup_lt_Some. Qed.

(** The blocks a file may still cost a transaction count the indirect block
    once: it is logged, it is to be allocated, or it may yet be logged. *)
Definition spare (addrs : list Z) : nat := if ind addrs =? 0 then 1 else 0.
Definition icost (addrs : list Z) (L : gset Z) : nat :=
  if ind addrs =? 0 then S (cost sb L) else cost sb ({[ind addrs]} ∪ L).

Lemma icost_cost addrs L : (cost sb L <= icost addrs L <= S (cost sb L))%nat.
Proof.
  unfold icost. case_match; [lia |]. split; [| apply cost_add]. unfold cost. apply subseteq_size. set_solver.
Qed.

Lemma icost_add addrs L r : (icost addrs ({[r]} ∪ L) <= S (icost addrs L))%nat.
Proof.
  unfold icost. case_match; [pose proof (cost_add sb L r); lia |]. pose proof (cost_add sb ({[ind addrs]} ∪ L) r) as Hc.
  etrans; [| exact Hc]. apply Nat.eq_le_incl. f_equal. set_solver.
Qed.

Lemma icost_ind addrs L : ind addrs <> 0 -> icost addrs ({[ind addrs]} ∪ L) = icost addrs L.
Proof. intros Hi. unfold icost. rewrite (proj2 (Z.eqb_neq _ 0) Hi). apply cost_in. set_solver. Qed.

Lemma cost_alloc L r : is_data sb r -> (cost sb ({[r]} ∪ ({[BBLOCK r sb]} ∪ L)) <= S (cost sb L))%nat.
Proof.
  intros Hd. pose proof (data_range Hg r Hd) as Hr. pose proof (bblock_range Hg r Hr) as [_ Hbm].
  pose proof (cost_bmap sb L _ Hbm). pose proof (cost_add sb ({[BBLOCK r sb]} ∪ L) r). lia.
Qed.

(** A new block costs one, beside the indirect block. *)
Lemma icost_alloc addrs addrs' L r :
  is_data sb r -> ind addrs' = ind addrs ->
  (icost addrs' ({[r]} ∪ ({[BBLOCK r sb]} ∪ L)) <= S (icost addrs L))%nat.
Proof.
  intros Hd He. unfold icost. rewrite He. case_match; [pose proof (cost_alloc L r Hd); lia |].
  pose proof (cost_alloc ({[ind addrs]} ∪ L) r Hd) as Hc. etrans; [| exact Hc]. apply Nat.eq_le_incl. f_equal. set_solver.
Qed.

(** What [bmap] does to the blocks of the file: block [k] is now [r]. *)
Record grown (R : list Z) (v : Z -> block) (addrs : list Z) (L : gset Z) (k : nat) (r : Z)
  (v' : Z -> block) (addrs' : list Z) (L' : gset Z) : Prop := {
  gw_alloc : alloc_ok sb v' (fblocks v' addrs' ++ R);
  gw_len : length addrs' = length addrs;
  gw_k : nth_block v' addrs' k = r;
  gw_nz : r <> 0;
  gw_other : forall j, (j < NBLOCKS)%nat -> j <> k -> nth_block v' addrs' j = nth_block v addrs j;
  gw_keep : forall j, (j < NBLOCKS)%nat -> nth_block v addrs j <> 0 ->
    v' (nth_block v addrs j) = v (nth_block v addrs j);
  gw_zero : nth_block v addrs k = 0 -> v' r = replicate BSIZE 0 /\ r ∈ L';
  gw_old : nth_block v addrs k <> 0 -> v' = v /\ addrs' = addrs /\ L' = L;
  gw_R : forall c, c ∈ R -> v' c = v c;
  gw_meta : forall c, ~ is_data sb c -> c ∉ bmaps sb -> v' c = v c;
  gw_count : (length (fblocks v' addrs') + spare addrs' <= 1 + length (fblocks v addrs) + spare addrs)%nat;
  gw_cost : (icost addrs' L' <= 1 + icost addrs L)%nat /\ L ⊆ L'
}.

Lemma grown_same R v addrs L k :
  alloc_ok sb v (fblocks v addrs ++ R) -> nth_block v addrs k <> 0 ->
  grown R v addrs L k (nth_block v addrs k) v addrs L.
Proof. intros Ho Hk. split; try done. lia. split; [lia | done]. Qed.

Lemma data_not_bmap c : is_data sb c -> c ∉ bmaps sb.
Proof. intros Hd Hin%(bmaps_range Hg). unfold is_data in Hd. lia. Qed.

Lemma data_nz c : is_data sb c -> c <> 0.
Proof.
  intros Hd ->. pose proof (g_inodes _ _ Hg). pose proof (g_size _ _ Hg).
  destruct (bblock_range Hg 0); [lia |]. unfold is_data in Hd. lia.
Qed.

Lemma owned_data v O c : alloc_ok sb v O -> c ∈ O -> is_data sb c.
Proof. intros Ho Hc. by apply (proj1 (Forall_forall _ _) (ao_data _ _ _ Ho)). Qed.

(** What is in use keeps its contents when a block is allocated. *)
Lemma balloced_keep v r O v' c : alloc_ok sb v O -> balloced (sb := sb) v r O v' -> c ∈ O -> v' c = v c.
Proof.
  intros Ho (Hd & Hn & _ & _ & Hk) Hc. apply Hk; [by intros -> |].
  apply data_not_bmap. by eapply owned_data.
Qed.

Lemma nth_block_direct v v' addrs k j r :
  (k < NDIRECT)%nat -> length addrs = S NDIRECT -> v' (ind addrs) = v (ind addrs) \/ ind addrs = 0 ->
  nth_block v' (<[k := r]> addrs) j = if decide (j = k) then r else nth_block v addrs j.
Proof.
  intros Hk Hl Hv. unfold nth_block, ind. rewrite (list_lookup_insert_ne _ k NDIRECT) by lia.
  fold (ind addrs). destruct (Nat.ltb_spec j NDIRECT).
  - case_decide; subst; [by rewrite list_lookup_insert_eq by lia | by rewrite list_lookup_insert_ne].
  - rewrite decide_False by lia. destruct Hv as [->| ->]; [done |]. by destruct (Z.eqb_spec 0 0).
Qed.

Lemma nth_block_elem v addrs k :
  (k < NBLOCKS)%nat -> nth_block v addrs k <> 0 -> nth_block v addrs k ∈ fblocks v addrs.
Proof. intros Hk Hn. apply in_fblocks. right. by exists k. Qed.

Lemma ind_elem v addrs : ind addrs <> 0 -> ind addrs ∈ fblocks v addrs.
Proof. intros Hn. apply in_fblocks. by left. Qed.

(** A new direct block. *)
Lemma grown_direct R v addrs L k r v' :
  alloc_ok sb v (fblocks v addrs ++ R) -> (k < NDIRECT)%nat -> length addrs = S NDIRECT ->
  nth_block v addrs k = 0 -> balloced (sb := sb) v r (fblocks v addrs ++ R) v' ->
  grown R v addrs L k r v' (<[k := r]> addrs) ({[r]} ∪ ({[BBLOCK r sb]} ∪ L)).
Proof.
  intros Ho Hk Hl Hnone Hb. pose proof Hb as (Hd & Hn & Hz & Ho' & Hkeep).
  assert (k < NBLOCKS)%nat as HkN by (rewrite NBLOCKS_eq; unfold NDIRECT in *; lia).
  assert (ind (<[k := r]> addrs) = ind addrs) as Hind by (unfold ind; by rewrite list_lookup_insert_ne by lia).
  assert (v' (ind addrs) = v (ind addrs) \/ ind addrs = 0) as Hv.
  { destruct (decide (ind addrs = 0)) as [|Hi]; [by right | left].
    eapply balloced_keep; [done | done |]. apply elem_of_app. left. by apply ind_elem. }
  assert (fblocks v' (<[k := r]> addrs) ≡ₚ r :: fblocks v addrs) as Hp.
  { apply (fblocks_add _ _ _ _ k); [done | | done | | by apply data_nz |].
    - done.
    - rewrite (nth_block_direct v) by done. by rewrite decide_True.
    - intros j _ Hj. rewrite (nth_block_direct v) by done. by rewrite decide_False. }
  split; try done.
  - by rewrite Hp.
  - apply length_insert.
  - rewrite (nth_block_direct v) by done. by rewrite decide_True.
  - by apply data_nz.
  - intros j _ Hj. rewrite (nth_block_direct v) by done. by rewrite decide_False.
  - intros j Hj Hne. eapply balloced_keep; [done | done |]. apply elem_of_app. left. by apply nth_block_elem.
  - intros _. split; [done | set_solver].
  - intros c Hc. eapply balloced_keep; [done | done |]. apply elem_of_app. by right.
  - intros c Hnd Hm. apply Hkeep; [| done]. by intros ->.
  - rewrite Hp. unfold spare. rewrite Hind. simpl. lia.
  - split; [by apply icost_alloc | set_solver].
Qed.

(** The indirect block is there. *)
Record ready (R : list Z) (v : Z -> block) (addrs : list Z) (L : gset Z)
  (v' : Z -> block) (addrs' : list Z) (L' : gset Z) : Prop := {
  rd_alloc : alloc_ok sb v' (fblocks v' addrs' ++ R);
  rd_len : length addrs' = length addrs;
  rd_ind : ind addrs' <> 0;
  rd_nth : forall j, (j < NBLOCKS)%nat -> nth_block v' addrs' j = nth_block v addrs j;
  rd_keep : forall c, c ∈ fblocks v addrs ++ R -> v' c = v c;
  rd_meta : forall c, ~ is_data sb c -> c ∉ bmaps sb -> v' c = v c;
  rd_count : (length (fblocks v' addrs') + spare addrs' <= length (fblocks v addrs) + spare addrs)%nat;
  rd_cost : (icost addrs' L' <= icost addrs L)%nat /\ L ⊆ L';
  rd_old : ind addrs <> 0 -> v' = v /\ addrs' = addrs /\ L' = L
}.

Lemma ready_same R v addrs L :
  alloc_ok sb v (fblocks v addrs ++ R) -> ind addrs <> 0 -> ready R v addrs L v addrs L.
Proof. intros Ho Hi. by split. Qed.

Lemma ready_new R v addrs L r v' :
  alloc_ok sb v (fblocks v addrs ++ R) -> length addrs = S NDIRECT -> ind addrs = 0 ->
  balloced (sb := sb) v r (fblocks v addrs ++ R) v' ->
  ready R v addrs L v' (<[NDIRECT := r]> addrs) ({[r]} ∪ ({[BBLOCK r sb]} ∪ L)).
Proof.
  intros Ho Hl Hi Hb. pose proof Hb as (Hd & Hn & Hz & Ho' & Hkeep). pose proof (data_nz r Hd) as Hrz.
  assert (ind (<[NDIRECT := r]> addrs) = r) as Hir by (unfold ind; by rewrite list_lookup_insert_eq by lia).
  assert (forall j, (j < NBLOCKS)%nat -> nth_block v' (<[NDIRECT := r]> addrs) j = nth_block v addrs j) as Hnth.
  { intros j _. unfold nth_block. rewrite Hir, Hi, Hz, get32_zeros, (proj2 (Z.eqb_neq r 0) Hrz). simpl.
    destruct (Nat.ltb_spec j NDIRECT); [| done]. by rewrite list_lookup_insert_ne by lia. }
  pose proof (fblocks_add_ind v addrs v' _ r Hi Hir Hrz Hnth) as Hp. split; try done.
  - by rewrite Hp.
  - apply length_insert.
  - by rewrite Hir.
  - intros c Hc. by eapply balloced_keep.
  - intros c Hnd Hm. apply Hkeep; [| done]. by intros ->.
  - rewrite Hp. unfold spare. rewrite Hir, Hi, (proj2 (Z.eqb_neq r 0) Hrz). simpl. lia.
  - unfold icost. rewrite Hir, Hi, (proj2 (Z.eqb_neq r 0) Hrz). simpl. rewrite cost_in by set_solver.
    split; [by apply cost_alloc | set_solver].
Qed.

(** The indirect block with a new entry. *)
Lemma nth_block_indirect v v' addrs k j r :
  (NDIRECT <= k < NBLOCKS)%nat -> (j < NBLOCKS)%nat -> ind addrs <> 0 -> length (v (ind addrs)) = BSIZE -> u32 r = r ->
  v' (ind addrs) = put32 (v (ind addrs)) (4 * (k - NDIRECT)) r ->
  nth_block v' addrs j = if decide (j = k) then r else nth_block v addrs j.
Proof.
  intros Hk Hj Hi Hlen Hr Hv. unfold nth_block. rewrite (proj2 (Z.eqb_neq _ 0) Hi), Hv.
  rewrite NBLOCKS_eq in *. unfold NDIRECT, BSIZE in *.
  destruct (Nat.ltb_spec j 12); [by rewrite decide_False by lia |].
  case_decide as He.
  - subst. rewrite get32_put32_eq; [done | lia].
  - apply get32_put32_ne. lia.
Qed.

Lemma grown_indirect R v addrs L v1 addrs1 L1 k r v2 :
  ready R v addrs L v1 addrs1 L1 -> (NDIRECT <= k < NBLOCKS)%nat -> nth_block v addrs k = 0 ->
  (forall c, length (v2 c) = BSIZE) -> balloced (sb := sb) v1 r (fblocks v1 addrs1 ++ R) v2 ->
  grown R v addrs L k r (<[ind addrs1 := put32 (v2 (ind addrs1)) (4 * (k - NDIRECT)) r]> v2) addrs1
    ({[ind addrs1]} ∪ ({[r]} ∪ ({[BBLOCK r sb]} ∪ L1))).
Proof.
  intros [Ho1 Hl1 Hi1 Hn1 Hk1 Hm1 Hc1 (Hcost1 & HL1) Hold] Hk Hnone Hsize Hb.
  pose proof Hb as (Hd & Hn & Hz & Ho2 & Hkeep). pose proof (data_nz r Hd) as Hrz.
  pose proof (data_range Hg r Hd) as Hr. pose proof (g_size _ _ Hg) as Hsz.
  set (x := ind addrs1) in *. set (v3 := <[x := _]> v2).
  assert (x ∈ fblocks v1 addrs1 ++ R) as Hxo by (apply elem_of_app; left; by apply ind_elem).
  pose proof (balloced_keep _ _ _ _ _ Ho1 Hb Hxo) as Hx2. pose proof (owned_data _ _ _ Ho1 Hxo) as Hxd.
  assert (r <> x) as Hrx by (intros ->; done).
  assert (forall j, (j < NBLOCKS)%nat -> nth_block v3 addrs1 j = if decide (j = k) then r else nth_block v addrs j) as Hnth.
  { intros j Hj. rewrite (nth_block_indirect v1 v3 addrs1 k j r Hk Hj Hi1); [by rewrite Hn1 | | apply u32_small; lia |].
    - fold x. rewrite <- Hx2. apply Hsize.
    - subst v3. fold x. rewrite fn_lookup_insert. by rewrite Hx2. }
  assert (forall c, c <> x -> v3 c = v2 c) as Hv3 by (intros c Hc; subst v3; by rewrite fn_lookup_insert_ne).
  assert (fblocks v3 addrs1 ≡ₚ r :: fblocks v1 addrs1) as Hp.
  { apply (fblocks_add v1 addrs1 v3 addrs1 k); [lia | done | by rewrite Hn1 by lia | | done |].
    - rewrite Hnth by lia. by rewrite decide_True.
    - intros j Hj Hjk. rewrite Hnth by done. by rewrite decide_False, Hn1. }
  assert (NoDup (fblocks v1 addrs1)) as Hnd by (by apply ao_NoDup, NoDup_app in Ho1 as (? & _ & _)).
  split; try done.
  - rewrite Hp. eapply (alloc_ext Hg); [| exact Ho2]. intros c Hc. apply Hv3. intros ->.
    by apply (data_not_bmap x).
  - rewrite Hnth by lia. by rewrite decide_True.
  - intros j Hj Hjk. rewrite Hnth by done. by rewrite decide_False.
  - intros j Hj Hne. rewrite <- Hn1 in Hne by done. rewrite Hv3.
    + rewrite <- Hn1 by done. rewrite (balloced_keep _ _ _ _ _ Ho1 Hb).
      * rewrite Hn1 in Hne |- * by done. apply Hk1, elem_of_app. left. by apply nth_block_elem.
      * apply elem_of_app. left. by apply nth_block_elem.
    + rewrite <- Hn1 by done. by apply fblocks_ind.
  - intros _. split; [by rewrite Hv3 | set_solver].
  - intros c Hc. assert (c ∈ fblocks v1 addrs1 ++ R) as Hin by (apply elem_of_app; by right).
    rewrite Hv3, (balloced_keep _ _ _ _ _ Ho1 Hb Hin).
    + apply Hk1, elem_of_app. by right.
    + intros ->. apply ao_NoDup, NoDup_app in Ho1 as (_ & Hdis & _). apply (Hdis x); [by apply ind_elem | done].
  - intros c Hnd' Hm. rewrite Hv3, Hkeep, Hm1; try done; by intros ->.
  - rewrite Hp. cbn [length]. lia.
  - split; [| set_solver]. subst x. rewrite icost_ind by done.
    pose proof (icost_alloc addrs1 addrs1 L1 r Hd eq_refl). lia.
Qed.

(** The state after an operation on inode [ip] that changed its addresses. *)
Definition after (s : fs T) (ip : nat) (i : inode) (t : T) (addrs : list Z) : fs T :=
  set_tx t (put_inode ip (set_addrs addrs i) s).

Lemma after_lookup s ip i t addrs :
  fs_ic s !! ip = Some i -> fs_ic (after s ip i t addrs) !! ip = Some (set_addrs addrs i).
Proof. apply put_inode_lookup. Qed.

Lemma after_same s ip i t : fs_ic s !! ip = Some i -> after s ip i t (d_addrs (i_di i)) = set_tx t s.
Proof. intros Hi. unfold after. by rewrite set_addrs_same, put_inode_same. Qed.

Lemma after_set s ip i t t' addrs k r :
  put_inode ip (set_addr k r (set_addrs addrs i)) (set_tx t' (after s ip i t addrs)) =
  after s ip i t' (<[k := r]> addrs).
Proof.
  unfold after, put_inode, set_ic, set_tx. cbn [fs_ic fs_tx fs_sb].
  by rewrite list_insert_insert_eq.
Qed.

Lemma addr_get addrs k : length addrs = S NDIRECT -> (k <= NDIRECT)%nat ->
  arr_get addrs (Z.of_nat k) = Ok (default 0 (addrs !! k)).
Proof.
  intros Hl Hk. destruct (lookup_lt_is_Some_2 addrs k) as [a Ha]; [lia |].
  apply arr_get_Ok. rewrite Nat2Z.id, Ha. split; [lia | done].
Qed.

(** There is room for [n] more blocks in the transaction and on the disk. *)
Definition room (n : nat) (addrs : list Z) (L : gset Z) (O : list Z) : Prop :=
  (icost addrs L + n <= cap)%nat /\ Z.of_nat (length O + spare addrs + n) <= sb_nblocks sb.

Context (s : fs T) (ip : nat) (i : inode) (R : list Z).
Context (Hsb : fs_sb s = sb) (Hi : fs_ic s !! ip = Some i) (Hdev : i_dev i = 1).

Lemma bmap_ready t v addrs L :
  settled t v ∅ L -> length addrs = S NDIRECT -> alloc_ok sb v (fblocks v addrs ++ R) ->
  (ind addrs = 0 -> room 0 addrs L (fblocks v addrs ++ R)) ->
  runs (if ind addrs =? 0 then
          let* a := balloc (i_dev i) in upd_inode ip (set_addr NDIRECT a) ;;; ret a
        else ret (ind addrs)) (after s ip i t addrs) (fun r s' => exists t' v' addrs' L',
    s' = after s ip i t' addrs' /\ r = ind addrs' /\ settled t' v' ∅ L' /\ ready R v addrs L v' addrs' L').
Proof.
  intros Ht Hl Ho Hroom. destruct (Z.eqb_spec (ind addrs) 0) as [Hz|Hnz].
  - destruct (Hroom Hz) as [Hc Hfree]. unfold icost, spare in Hc, Hfree. rewrite Hz in Hc, Hfree. cbn in Hc, Hfree.
    rewrite Hdev. apply runs_bind.
    eapply runs_mono; [eapply (balloc_spec Hg _ v ∅ L); [exact Ht | done | exact Ho | done | | lia | lia] |].
    { apply held_none. }
    intros r s1 (t1 & v1 & -> & Hb & Ht1). apply runs_bind.
    eapply runs_upd_inode; [simpl; apply list_lookup_insert_eq; by eapply lookup_lt_Some |]. apply runs_ret.
    exists t1, v1, (<[NDIRECT := r]> addrs), ({[r]} ∪ ({[BBLOCK r sb]} ∪ L)).
    split; [| split; [| split; [done |]]].
    + apply after_set.
    + unfold ind. by rewrite list_lookup_insert_eq by lia.
    + by apply ready_new.
  - apply runs_ret. exists t, v, addrs, L. do 3 (split; [done |]). by apply ready_same.
Qed.

Lemma bmap_entry t v addrs L t1 v1 addrs1 L1 k :
  settled t v ∅ L -> settled t1 v1 ∅ L1 -> ready R v addrs L v1 addrs1 L1 -> (NDIRECT <= k < NBLOCKS)%nat ->
  (nth_block v addrs k = 0 -> room 1 addrs L (fblocks v addrs ++ R)) ->
  runs (let* bp := blk (t_bread (i_dev i) (ind addrs1)) in
        let* d := blk (t_bdata bp) in
        let addr := get32 d (4 * (k - NDIRECT)) in
        let* addr :=
          (if addr =? 0 then
             let* addr := balloc (i_dev i) in
             let* d := blk (t_bdata bp) in
             blk (t_bdata_set bp (put32 d (4 * (k - NDIRECT)) addr)) ;;;
             blk (t_log_write bp) ;;;
             ret addr
           else ret addr) in
        blk (t_brelse bp) ;;;
        ret addr) (after s ip i t1 addrs1) (fun r s' => exists t' v' addrs' L',
    s' = after s ip i t' addrs' /\ settled t' v' ∅ L' /\ grown R v addrs L k r v' addrs' L').
Proof.
  intros Ht Ht1 Hrd Hk Hroom. pose proof Hrd as [Ho1 Hl1 Hi1 Hn1 Hk1 Hm1 Hc1 (Hcost1 & HL1) Hold].
  pose proof (icost_cost addrs1 L1).
  set (x := ind addrs1) in *. pose proof (ind_elem v1 addrs1 Hi1) as Hxin. fold x in Hxin.
  assert (is_data sb x) as Hxd by (eapply owned_data; [exact Ho1 | by apply elem_of_app; left]).
  rewrite Hdev. eapply fs_bread; [exact Ht1 | by apply (area_data Hg) | apply unheld_empty | apply held_none |].
  intros bp t2 Ht2 _. eapply fs_bdata; [exact Ht2 | apply lookup_insert_eq |]. intros t3 Ht3. cbv zeta.
  assert (nth_block v1 addrs1 k = get32 (v1 x) (4 * (k - NDIRECT))) as Hent.
  { unfold nth_block. fold x. rewrite (proj2 (Nat.ltb_ge _ _)), (proj2 (Z.eqb_neq _ 0) Hi1) by lia. done. }
  rewrite <- Hent, Hn1 by lia. destruct (Z.eqb_spec (nth_block v addrs k) 0) as [Hz|Hnz].
  - destruct (Hroom Hz) as [Hc Hfree]. rewrite length_app in Hfree. apply runs_bind, runs_bind.
    eapply runs_mono; [eapply (balloc_spec Hg _ v1 _ L1 (fblocks v1 addrs1 ++ R)); [exact Ht3 | done | done | | | lia |] |].
    { intros j c Hj. apply lookup_insert_Some in Hj as [[_ <-]|[_ Hj]]; [by apply elem_of_app; left | done]. }
    { rewrite map_size_insert_None, map_size_empty by done. lia. }
    { rewrite length_app. lia. }
    intros r s4 (t4 & v4 & -> & Hb & Ht4). pose proof Hb as (Hrd' & _).
    eapply fs_bdata; [exact Ht4 | apply lookup_insert_eq |]. intros t5 Ht5.
    pose proof (grown_indirect R v addrs L v1 addrs1 L1 k r v4 Hrd Hk Hz) as Hgrow. fold x in Hgrow.
    ospecialize* Hgrow; [intros c; by eapply settled_size | done |].
    eapply fs_log; [exact Ht5 | by apply (area_data Hg) | | rewrite length_put32; by eapply settled_size |].
    { etrans; [apply (cost_size sb) |]. pose proof (gw_cost _ _ _ _ _ _ _ _ _ Hgrow) as [Hcx _].
      pose proof (icost_cost addrs1 ({[x]} ∪ ({[r]} ∪ ({[BBLOCK r sb]} ∪ L1)))). lia. }
    intros t6 Ht6. apply runs_ret. apply runs_bind. eapply fs_brelse; [exact Ht6 | done |]. intros t7 Ht7.
    apply runs_ret. eexists t7, _, addrs1, _. split; [done |]. split; [exact Ht7 | exact Hgrow].
  - apply runs_bind, runs_ret, runs_bind. eapply fs_brelse; [exact Ht3 | done |]. intros t4 Ht4. apply runs_ret.
    assert (ind addrs <> 0) as Hi0.
    { intros Hi0. apply Hnz. unfold nth_block. rewrite (proj2 (Nat.ltb_ge _ _)), Hi0 by lia. done. }
    destruct (Hold Hi0) as (-> & -> & ->). exists t4, v, addrs, L. split; [done |]. split; [done |].
    by apply grown_same.
Qed.

Lemma bmap_spec t v addrs L k :
  settled t v ∅ L -> length addrs = S NDIRECT -> alloc_ok sb v (fblocks v addrs ++ R) -> (k < NBLOCKS)%nat ->
  (nth_block v addrs k = 0 -> room 1 addrs L (fblocks v addrs ++ R)) ->
  runs (bmap ip (Z.of_nat k)) (after s ip i t addrs) (fun r s' => exists t' v' addrs' L',
    s' = after s ip i t' addrs' /\ settled t' v' ∅ L' /\ grown R v addrs L k r v' addrs' L').
Proof.
  intros Ht Hl Ho Hk Hroom. unfold bmap. eapply runs_inode_at; [by apply after_lookup |].
  cbn [i_di set_addrs set_idi set_daddrs d_addrs i_dev].
  destruct (Z.ltb_spec (Z.of_nat k) (Z.of_nat NDIRECT)) as [Hlt|Hge].
  - apply runs_bind. eapply runs_lift; [apply addr_get; [done | lia] |].
    assert (nth_block v addrs k = default 0 (addrs !! k)) as Hnth.
    { unfold nth_block. by rewrite (proj2 (Nat.ltb_lt _ _)) by lia. }
    rewrite <- Hnth. destruct (Z.eqb_spec (nth_block v addrs k) 0) as [Hz|Hnz].
    + destruct (Hroom Hz) as [Hc Hfree]. pose proof (icost_cost addrs L). rewrite Hdev. apply runs_bind.
      eapply runs_mono; [eapply (balloc_spec Hg _ v ∅ L); [exact Ht | done | exact Ho | done | | lia | lia] |].
      { apply held_none. }
      intros r s1 (t1 & v1 & -> & Hb & Ht1). apply runs_bind.
      eapply runs_upd_inode; [simpl; apply list_lookup_insert_eq; by eapply lookup_lt_Some |]. apply runs_ret.
      eexists t1, v1, (<[k := r]> addrs), _. split; [| split; [exact Ht1 | by apply grown_direct; [| lia | | |]]].
      rewrite Nat2Z.id. apply after_set.
    + apply runs_ret. exists t, v, addrs, L. split; [done |]. split; [done |]. by apply grown_same.
  - cbv zeta. rewrite NBLOCKS_eq in Hk. rewrite (proj2 (Z.ltb_lt _ _)) by (rewrite NINDIRECT_eq; unfold NDIRECT in *; lia).
    apply runs_bind. eapply runs_lift; [by apply addr_get |]. fold (ind addrs). apply runs_bind.
    eapply runs_mono; [apply (bmap_ready t v addrs L Ht Hl Ho) |].
    { intros Hz. destruct Hroom as [Hc Hf]; [| split; lia]. unfold nth_block.
      rewrite (proj2 (Nat.ltb_ge _ _)), Hz by lia. done. }
    intros r s1 (t1 & v1 & addrs1 & L1 & -> & -> & Ht1 & Hrd).
    replace (Z.to_nat (Z.of_nat k - Z.of_nat NDIRECT)) with (k - NDIRECT)%nat by lia.
    by eapply bmap_entry; [exact Ht | exact Ht1 | | rewrite NBLOCKS_eq; lia |].
Qed.

(** ** The bytes of a file *)

Definition blk_no (o : Z) : nat := Z.to_nat (o / 512).

Definition fbyte (v : Z -> block) (addrs : list Z) (o : Z) : Z :=
  byte_at (v (nth_block v addrs (blk_no o))) (Z.to_nat (o mod 512)).

(** Every byte below [n] lies in a block. *)
Definition mapped (v : Z -> block) (addrs : list Z) (n : Z) : Prop :=
  forall o, 0 <= o < n -> nth_block v addrs (blk_no o) <> 0.

(** The largest file: all direct blocks and all of the indirect block. *)
Definition MAXBYTES : Z := 512 * 140.

Lemma blk_no_lt o : 0 <= o < MAXBYTES -> (blk_no o < NBLOCKS)%nat.
Proof.
  intros Ho. rewrite NBLOCKS_eq. unfold blk_no, MAXBYTES in *.
  pose proof (Z.div_lt_upper_bound o 512 140 ltac:(lia) ltac:(lia)). pose proof (Z.div_pos o 512). lia.
Qed.

Lemma slice_bytes (d : list Z) o m :
  (o + m <= length d)%nat -> take m (drop o d) = (fun j => byte_at d (o + j)) <$> seq 0 m.
Proof.
  intros Hl. apply list_eq. intros j. rewrite list_lookup_fmap.
  destruct (decide (j < m)%nat) as [Hj|Hj].
  - rewrite lookup_take_lt, lookup_drop, lookup_seq_lt by done. simpl. unfold byte_at.
    destruct (lookup_lt_is_Some_2 d (o + j)) as [x ->]; [lia | done].
  - rewrite lookup_take_ge, lookup_seq_ge by lia. done.
Qed.

(** The part of a block that a step of the loops copies. *)
Lemma chunk_bytes (v : Z -> block) addrs off m :
  0 <= off -> 0 <= m <= 512 - off mod 512 -> length (v (nth_block v addrs (blk_no off))) = BSIZE ->
  take (Z.to_nat m) (drop (Z.to_nat (off mod 512)) (v (nth_block v addrs (blk_no off)))) =
  fbyte v addrs <$> seqZ off m.
Proof.
  intros Ho Hm Hl. pose proof (Z.mod_pos_bound off 512 ltac:(lia)).
  rewrite slice_bytes by (rewrite Hl; unfold BSIZE; lia). unfold seqZ. rewrite <- list_fmap_compose.
  apply list_fmap_ext. intros k j [-> Hj]%lookup_seq. simpl. unfold fbyte, blk_no.
  pose proof (Z.div_mod off 512 ltac:(lia)).
  rewrite <- (Z.div_unique_pos (Z.of_nat k + off) 512 (off / 512) (off mod 512 + Z.of_nat k)) by lia.
  rewrite <- (Z.mod_unique_pos (Z.of_nat k + off) 512 (off / 512) (off mod 512 + Z.of_nat k)) by lia.
  f_equal. lia.
Qed.

Lemma readi_loop_spec v addrs L n fuel : forall t off tot,
  settled t v ∅ L -> length addrs = S NDIRECT -> alloc_ok sb v (fblocks v addrs ++ R) ->
  0 <= off -> 0 <= tot <= n -> off + (n - tot) <= MAXBYTES -> n <= MAXBYTES ->
  (forall o, off <= o < off + (n - tot) -> nth_block v addrs (blk_no o) <> 0) ->
  n - tot < Z.of_nat fuel ->
  runs (readi_loop ip off n tot fuel) (after s ip i t addrs) (fun x s' => exists t',
    s' = after s ip i t' addrs /\ settled t' v ∅ L /\ x = fbyte v addrs <$> seqZ off (n - tot)).
Proof.
  induction fuel as [|fuel IH]; intros t off tot Ht Hl Ho Hoff Htot Hmax Hn Hmap Hfuel; [lia |].
  cbn [readi_loop]. change (Z.of_nat BSIZE) with 512. destruct (Z.ltb_spec tot n) as [Hlt|Hge].
  2: { apply runs_ret. exists t. replace (n - tot) with 0 by lia. done. }
  unfold MAXBYTES in *. pose proof (Hmap off ltac:(lia)) as Hnz. fold (blk_no off).
  replace (off / 512) with (Z.of_nat (blk_no off)) by (unfold blk_no; rewrite Z2Nat.id; [done | apply Z.div_pos; lia]).
  assert (blk_no off < NBLOCKS)%nat as Hk by (apply blk_no_lt; unfold MAXBYTES; lia).
  apply runs_bind. eapply runs_mono; [apply (bmap_spec t v addrs L); try done |].
  intros r s1 (t1 & v1 & addrs1 & L1 & -> & Ht1 & Hgr).
  destruct (gw_old _ _ _ _ _ _ _ _ _ Hgr Hnz) as (-> & -> & ->). pose proof (gw_k _ _ _ _ _ _ _ _ _ Hgr) as <-.
  eapply runs_inode_at; [by apply after_lookup |]. cbn [i_dev set_addrs set_idi]. rewrite Hdev.
  assert (is_data sb (nth_block v addrs (blk_no off))) as Hd.
  { eapply owned_data; [exact Ho |]. apply elem_of_app. left. by apply nth_block_elem. }
  eapply fs_bread; [exact Ht1 | by apply (area_data Hg) | apply unheld_empty | apply held_none |].
  intros bp t2 Ht2 _. cbv zeta. set (m := Z.min _ _).
  eapply fs_bdata; [exact Ht2 | apply lookup_insert_eq |]. intros t3 Ht3.
  apply runs_bind. eapply fs_brelse; [exact Ht3 | done |]. intros t4 Ht4.
  pose proof (Z.mod_pos_bound off 512 ltac:(lia)) as Hmod.
  rewrite !u32_small by lia. apply runs_bind.
  eapply runs_mono; [eapply (IH t4 (off + m) (tot + m)); try done; try lia |].
  { intros o Hb. apply Hmap. lia. }
  intros x s5 (t5 & -> & Ht5 & ->). apply runs_ret. exists t5. split; [done |]. split; [done |].
  rewrite chunk_bytes; [| lia | lia | by eapply settled_size].
  rewrite <- fmap_app, <- seqZ_app by lia. f_equal. f_equal. lia.
Qed.

(** [readi] of a file: the bytes from [off] on, up to the end of the file. *)
Lemma readi_spec `{!DevSw (T := T)} t v addrs L off n :
  settled t v ∅ L -> length addrs = S NDIRECT -> alloc_ok sb v (fblocks v addrs ++ R) ->
  d_type (i_di i) <> T_DEV -> mapped v addrs (d_size (i_di i)) -> d_size (i_di i) <= MAXBYTES ->
  0 <= off <= d_size (i_di i) -> 0 <= n -> off + n < 4294967296 ->
  let m := Z.min n (d_size (i_di i) - off) in
  runs (readi ip off n) (after s ip i t addrs) (fun r s' => exists t',
    s' = after s ip i t' addrs /\ settled t' v ∅ L /\ r = (m, fbyte v addrs <$> seqZ off m)).
Proof.
  intros Ht Hl Ho Hty Hmap Hsz Hoff Hn Hw m. unfold readi. eapply runs_inode_at; [by apply after_lookup |].
  cbn [i_di set_addrs set_idi set_daddrs d_type d_size]. rewrite (proj2 (Z.eqb_neq _ _) Hty).
  rewrite !u32_small by lia.
  rewrite (proj2 (Z.ltb_ge _ off)), (proj2 (Z.ltb_ge (off + n) off)) by lia. cbn [orb]. cbv zeta.
  assert ((if d_size (i_di i) <? off + n then u32 (d_size (i_di i) - off) else n) = m) as ->.
  { subst m. unfold MAXBYTES in *. rewrite u32_small by lia. bool_cases; lia. }
  unfold MAXBYTES in *. apply runs_bind.
  eapply runs_mono; [apply (readi_loop_spec v addrs L m _ t off 0); unfold MAXBYTES; try done; try lia |].
  { intros o Hb. apply Hmap. lia. }
  intros x s1 (t1 & -> & Ht1 & ->). apply runs_ret. exists t1. rewrite Z.sub_0_r.
  rewrite i32_small by lia. done.
Qed.

(** ** Writing *)

Lemma blit_length (d : block) off x : (off + length x <= length d)%nat -> length (blit d off x) = length d.
Proof. intros Hl. unfold blit. rewrite !length_app, length_take, length_drop. lia. Qed.

Lemma blit_byte (d : block) off x j :
  (off + length x <= length d)%nat ->
  byte_at (blit d off x) j =
  if decide (off <= j < off + length x)%nat then byte_at x (j - off) else byte_at d j.
Proof.
  intros Hl. unfold blit, byte_at. case_decide as Hj.
  - rewrite lookup_app_r by (rewrite length_take; lia). rewrite length_take.
    rewrite lookup_app_l by lia. do 2 f_equal. lia.
  - destruct (decide (j < off)%nat).
    + rewrite lookup_app_l by (rewrite length_take; lia). by rewrite lookup_take_lt.
    + rewrite lookup_app_r by (rewrite length_take; lia). rewrite length_take.
      rewrite lookup_app_r by lia. rewrite lookup_drop. do 2 f_equal. lia.
Qed.

(** How many blocks the file lacks for the bytes from [off] up to [e]. *)
Definition lack (v : Z -> block) (addrs : list Z) (off e : Z) : nat :=
  length (filter (fun k => nth_block v addrs k = 0) (seq (blk_no off) (blk_no (e + 511) - blk_no off))).

Lemma filter_sub_length {A} (P Q : A -> Prop) `{!forall x, Decision (P x), !forall x, Decision (Q x)} l :
  (forall x, x ∈ l -> P x -> Q x) -> (length (filter P l) <= length (filter Q l))%nat.
Proof.
  induction l as [|x l IH]; intros Hl; [done |]. rewrite !filter_cons.
  assert (length (filter P l) <= length (filter Q l))%nat by (apply IH; intros y Hy; apply Hl; by right).
  case_decide as HP; case_decide as HQ; simpl; try lia. destruct HQ. apply Hl; [by left | done].
Qed.

Lemma blk_no_mono o o' : 0 <= o <= o' -> (blk_no o <= blk_no o')%nat.
Proof. intros Ho. unfold blk_no. pose proof (Z.div_le_mono o o' 512). pose proof (Z.div_pos o 512). lia. Qed.

Lemma blk_no_end off e : 0 <= off < e -> (blk_no off < blk_no (e + 511))%nat.
Proof.
  intros Ho. unfold blk_no. pose proof (Z.div_le_mono (off + 512) (e + 511) 512 ltac:(lia) ltac:(lia)) as Hle.
  replace (off + 512) with (off + 1 * 512) in Hle by lia. rewrite Z.div_add in Hle by lia. pose proof (Z.div_pos off 512). lia.
Qed.

Lemma lack_ext v v' addrs off e :
  (forall k, nth_block v' addrs k = nth_block v addrs k) -> lack v' addrs off e = lack v addrs off e.
Proof. intros Hk. unfold lack. f_equal. apply list_filter_iff. intros k. by rewrite Hk. Qed.

Lemma lack_head v addrs off e e' : 0 <= off -> 0 <= e' <= e -> (lack v addrs off e' <= lack v addrs off e)%nat.
Proof.
  intros Ho He. pose proof (blk_no_mono (e' + 511) (e + 511) ltac:(lia)). unfold lack.
  destruct (decide (blk_no (e' + 511) <= blk_no off)%nat) as [Hle|Hgt].
  - replace (blk_no (e' + 511) - blk_no off)%nat with 0%nat by lia. simpl. lia.
  - replace (blk_no (e + 511) - blk_no off)%nat with
      ((blk_no (e' + 511) - blk_no off) + (blk_no (e + 511) - blk_no (e' + 511)))%nat by lia.
    rewrite seq_app, filter_app, length_app. lia.
Qed.

Lemma lack_tail v addrs off off' e : 0 <= off <= off' -> (lack v addrs off' e <= lack v addrs off e)%nat.
Proof.
  intros Ho. pose proof (blk_no_mono off off' Ho). unfold lack.
  destruct (decide (blk_no (e + 511) <= blk_no off')%nat) as [Hle|Hgt].
  - replace (blk_no (e + 511) - blk_no off')%nat with 0%nat by lia. simpl. lia.
  - replace (blk_no (e + 511) - blk_no off)%nat with
      ((blk_no off' - blk_no off) + (blk_no (e + 511) - blk_no off'))%nat by lia.
    rewrite seq_app, filter_app, length_app. replace (blk_no off + (blk_no off' - blk_no off))%nat with (blk_no off') by lia. lia.
Qed.

(** The bytes [src] are now at [off]; what the file had elsewhere, the blocks
    [R] of other files and the rest of the disk are as before. *)
Record wrote (R : list Z) (v : Z -> block) (addrs : list Z) (L : gset Z) (off : Z) (src : list Z) (n : nat)
  (v' : Z -> block) (addrs' : list Z) (L' : gset Z) : Prop := {
  wr_alloc : alloc_ok sb v' (fblocks v' addrs' ++ R);
  wr_len : length addrs' = length addrs;
  wr_stay : forall k, (k < NBLOCKS)%nat -> nth_block v addrs k <> 0 -> nth_block v' addrs' k = nth_block v addrs k;
  wr_in : forall o, off <= o < off + Z.of_nat (length src) ->
    nth_block v' addrs' (blk_no o) <> 0 /\ fbyte v' addrs' o = byte_at src (Z.to_nat (o - off));
  wr_out : forall o, 0 <= o < MAXBYTES -> ~ (off <= o < off + Z.of_nat (length src)) ->
    nth_block v addrs (blk_no o) <> 0 -> fbyte v' addrs' o = fbyte v addrs o;
  wr_R : forall c, c ∈ R -> v' c = v c;
  wr_meta : forall c, ~ is_data sb c -> c ∉ bmaps sb -> v' c = v c;
  wr_count : forall e, off + Z.of_nat (length src) <= e <= MAXBYTES ->
    (length (fblocks v' addrs') + spare addrs' + lack v' addrs' (off + Z.of_nat (length src)) e <=
     length (fblocks v addrs) + spare addrs + lack v addrs off e)%nat;
  wr_cost : (icost addrs' L' <= n + icost addrs L)%nat /\ L ⊆ L';
  wr_old : (forall o, off <= o < off + Z.of_nat (length src) -> nth_block v addrs (blk_no o) <> 0) -> addrs' = addrs
}.

Lemma wrote_nil v addrs L off :
  alloc_ok sb v (fblocks v addrs ++ R) -> wrote R v addrs L off [] 0 v addrs L.
Proof. intros Ho. split; try done; simpl; try lia. intros e _. by rewrite Z.add_0_r. Qed.

Lemma wrote_trans v addrs L off x m v1 addrs1 L1 y n v2 addrs2 L2 :
  0 <= off -> off + Z.of_nat (length (x ++ y)) <= MAXBYTES ->
  wrote R v addrs L off x m v1 addrs1 L1 ->
  wrote R v1 addrs1 L1 (off + Z.of_nat (length x)) y n v2 addrs2 L2 ->
  wrote R v addrs L off (x ++ y) (m + n) v2 addrs2 L2.
Proof.
  clear Hg Hsb Hi Hdev.
  intros H0off Hmax [A1 A2 A3 A4 A5 A6 A7 A8 [A9 A10] A11] [B1 B2 B3 B4 B5 B6 B7 B8 [B9 B10] B11].
  rewrite length_app in Hmax. split; try done.
  - congruence.
  - intros k Hk Hn. by rewrite B3, A3 by (try done; by rewrite A3).
  - intros o Ho. rewrite length_app in Ho. destruct (decide (o < off + Z.of_nat (length x))) as [Hx|Hx].
    + destruct (A4 o ltac:(lia)) as [Hn Hb]. pose proof (blk_no_lt o ltac:(lia)).
      rewrite B3, B5, Hb by (done || lia). split; [done |]. unfold byte_at. by rewrite lookup_app_l by lia.
    + destruct (B4 o ltac:(lia)) as [Hn Hb]. split; [done |]. rewrite Hb. unfold byte_at.
      rewrite lookup_app_r by lia. do 2 f_equal. lia.
  - intros o Ho Hout Hn. rewrite length_app in Hout. pose proof (blk_no_lt o Ho).
    rewrite B5; [apply A5; [done | lia | done] | done | lia | by rewrite A3].
  - intros c Hc. by rewrite B6, A6.
  - intros c Hc1 Hc2. by rewrite B7, A7.
  - intros e He. rewrite length_app, Nat2Z.inj_add, Z.add_assoc in He |- *. specialize (A8 e ltac:(lia)).
    specialize (B8 e ltac:(lia)). lia.
  - split; [lia | set_solver].
  - intros Hold. rewrite length_app in Hold. rewrite <- A11 by (intros o Ho; apply Hold; lia). apply B11.
    intros o Ho. pose proof (blk_no_lt o ltac:(lia)). rewrite A3; [apply Hold; lia | done | apply Hold; lia].
Qed.

(** Two offsets in the same block. *)
Lemma same_blk off o m :
  0 <= off -> 0 <= o -> 0 < m <= 512 - off mod 512 -> blk_no o = blk_no off ->
  off <= o < off + m <-> (Z.to_nat (off mod 512) <= Z.to_nat (o mod 512) < Z.to_nat (off mod 512) + Z.to_nat m)%nat.
Proof.
  intros Hoff Ho Hm Hb. unfold blk_no in Hb. pose proof (Z.div_pos o 512). pose proof (Z.div_pos off 512).
  pose proof (Z.div_mod o 512 ltac:(lia)). pose proof (Z.div_mod off 512 ltac:(lia)).
  pose proof (Z.mod_pos_bound o 512 ltac:(lia)). pose proof (Z.mod_pos_bound off 512 ltac:(lia)). lia.
Qed.

Lemma chunk_blk off o m :
  0 <= off -> 0 < m <= 512 - off mod 512 -> off <= o < off + m -> blk_no o = blk_no off.
Proof.
  intros Hoff Hm Ho. unfold blk_no. f_equal. pose proof (Z.mod_pos_bound off 512 ltac:(lia)). pose proof (Z.div_mod off 512 ltac:(lia)).
  symmetry. apply (Z.div_unique_pos o 512 _ (off mod 512 + (o - off))); lia.
Qed.

(** A block that [bmap] adds is no longer lacking. *)
Lemma grown_lack v addrs L r v1 addrs1 L1 off e v2 :
  grown R v addrs L (blk_no off) r v1 addrs1 L1 -> 0 <= off < e -> e <= MAXBYTES ->
  (forall k, nth_block v2 addrs1 k = nth_block v1 addrs1 k) ->
  (length (fblocks v1 addrs1) + spare addrs1 + lack v2 addrs1 off e <=
   length (fblocks v addrs) + spare addrs + lack v addrs off e)%nat.
Proof.
  clear Hg Hsb Hi Hdev.
  intros [A1 A2 A3 A4 A5 A6 A7 A8 A9 A10 A11 A12] Hoff He Hnth. unfold lack.
  pose proof (blk_no_end off e Hoff) as Hlt. set (m := (blk_no (e + 511) - blk_no off)%nat) in *.
  assert (blk_no (e + 511) <= NBLOCKS)%nat as Hend.
  { rewrite NBLOCKS_eq. unfold blk_no, MAXBYTES in *. pose proof (Z.div_le_upper_bound (e + 511) 512 140).
    assert ((e + 511) / 512 < 141) by (apply Z.div_lt_upper_bound; lia). lia. }
  assert (forall k, k ∈ seq (S (blk_no off)) (m - 1) -> nth_block v2 addrs1 k = 0 -> nth_block v addrs k = 0) as Hsub.
  { intros k Hk%elem_of_seq Hz. rewrite Hnth, A5 in Hz; [done | lia | lia]. }
  replace m with (S (m - 1)) by lia. cbn [seq]. rewrite !filter_cons, Hnth, A3.
  rewrite (decide_False (P := r = 0)) by done.
  pose proof (filter_sub_length (fun k => nth_block v2 addrs1 k = 0) (fun k => nth_block v addrs k = 0) _ Hsub).
  case_decide as Hz; simpl; [lia |]. destruct (A8 Hz) as (-> & -> & _). lia.
Qed.

(** One round of the loop of [writei]. *)
Lemma wrote_chunk v addrs L off x r v1 addrs1 L1 :
  0 <= off < MAXBYTES -> (0 < length x)%nat -> Z.of_nat (length x) <= 512 - off mod 512 ->
  (forall c, length (v1 c) = BSIZE) -> NoDup (fblocks v1 addrs1) ->
  grown R v addrs L (blk_no off) r v1 addrs1 L1 ->
  wrote R v addrs L off x 1 (<[r := blit (v1 r) (Z.to_nat (off mod 512)) x]> v1) addrs1 ({[r]} ∪ L1).
Proof.
  clear Hsb Hi Hdev.
  intros Hoff Hx Hm Hlen Hnd Hgr. pose proof Hgr as [A1 A2 A3 A4 A5 A6 A7 A8 A9 A10 A11 [A12 A13]].
  pose proof (blk_no_lt off Hoff) as Hk. pose proof (Z.mod_pos_bound off 512 ltac:(lia)) as Hmod.
  set (v2 := <[r := _]> v1). rewrite <- A3 in A4.
  assert (r <> ind addrs1) as Hri by (rewrite <- A3; by apply fblocks_ind).
  assert (forall c, c <> r -> v2 c = v1 c) as Hv2 by (intros c Hc; subst v2; by rewrite fn_lookup_insert_ne).
  assert (forall k, nth_block v2 addrs1 k = nth_block v1 addrs1 k) as Hnth.
  { intros k. unfold nth_block. rewrite (Hv2 (ind addrs1)) by done. done. }
  assert (is_data sb r) as Hd.
  { eapply owned_data; [exact A1 |]. rewrite <- A3. apply elem_of_app. left. by apply nth_block_elem. }
  assert (fblocks v2 addrs1 = fblocks v1 addrs1) as Hfb by (apply fblocks_ext; intros c -> _; by apply Hv2).
  assert (forall o, 0 <= o < MAXBYTES -> blk_no o = blk_no off -> fbyte v2 addrs1 o =
    if decide (off <= o < off + Z.of_nat (length x)) then byte_at x (Z.to_nat (o - off))
    else fbyte v1 addrs1 o) as Hbyte.
  { intros o Ho Hb. unfold fbyte. rewrite Hnth, Hb, A3. subst v2. rewrite fn_lookup_insert, blit_byte.
    - pose proof (same_blk off o (Z.of_nat (length x)) ltac:(lia) ltac:(lia) ltac:(lia) Hb) as Hiff.
      rewrite Nat2Z.id in Hiff. case_decide as Hc; case_decide as Hc'; try tauto.
      f_equal. unfold blk_no in Hb. pose proof (Z.div_mod o 512 ltac:(lia)). pose proof (Z.div_mod off 512 ltac:(lia)).
      pose proof (Z.div_pos o 512). pose proof (Z.div_pos off 512). lia.
    - rewrite Hlen. unfold BSIZE. lia. }
  split; try done.
  - rewrite Hfb. eapply (alloc_ext Hg); [| exact A1]. intros c Hc. apply Hv2. intros ->.
    by apply (data_not_bmap r).
  - intros k HkN Hn. rewrite Hnth. destruct (decide (k = blk_no off)) as [->|]; [| by apply A5].
    rewrite A3. destruct (A8 Hn) as (-> & -> & _). done.
  - intros o Ho. pose proof (chunk_blk off o (Z.of_nat (length x)) ltac:(lia) ltac:(lia) Ho) as Hb.
    assert (0 <= o < MAXBYTES) as Hob.
    { unfold MAXBYTES in *. split; [lia |]. pose proof (Z.div_mod off 512 ltac:(lia)).
      pose proof (Z.div_lt_upper_bound off 512 140 ltac:(lia) ltac:(lia)). lia. }
    split; [by rewrite Hnth, Hb |]. rewrite Hbyte by done. by rewrite decide_True.
  - intros o Ho Hout Hn. pose proof (blk_no_lt o Ho) as HoN. destruct (decide (blk_no o = blk_no off)) as [Hb|Hb].
    + rewrite Hbyte by done. rewrite decide_False by done. rewrite Hb in Hn. by destruct (A8 Hn) as (-> & -> & _).
    + unfold fbyte. rewrite Hnth, A5 by done. rewrite Hv2; [by rewrite A6 |]. rewrite <- (A5 (blk_no o)) by done.
      rewrite <- A3. intros He. apply Hb. eapply (fblocks_inj v1 addrs1); try done. by rewrite A5.
  - intros c Hc. rewrite Hv2; [by apply A9 |]. intros ->. apply ao_NoDup, NoDup_app in A1 as (_ & Hdis & _).
    apply (Hdis r); [| done]. rewrite <- A3. by apply nth_block_elem.
  - intros c Hc1 Hc2. rewrite Hv2; [by apply A10 |]. by intros ->.
  - intros e He. rewrite Hfb.
    pose proof (lack_tail v2 addrs1 off (off + Z.of_nat (length x)) e ltac:(lia)) as Htail.
    assert (length (fblocks v1 addrs1) + spare addrs1 + lack v2 addrs1 off e <=
      length (fblocks v addrs) + spare addrs + lack v addrs off e)%nat; [| lia].
    apply (grown_lack v addrs L r v1 addrs1 L1); [done | lia | lia | done].
  - split; [| set_solver]. destruct (decide (nth_block v addrs (blk_no off) = 0)) as [Hz|Hnz].
    + replace ({[r]} ∪ L1) with L1; [lia |]. destruct (A7 Hz). set_solver.
    + destruct (A8 Hnz) as (_ & -> & ->). apply icost_add.
  - intros Hold. destruct (A8 (Hold off ltac:(lia))) as (_ & -> & _). done.
Qed.

(** The number of blocks that [len] bytes from [off] on touch. *)
Definition nblk (off len : Z) : nat :=
  if len <=? 0 then 0 else Z.to_nat ((off + len - 1) / 512 - off / 512 + 1).

Lemma nblk_step off len :
  0 <= off -> 0 < len -> let m := Z.min len (512 - off mod 512) in
  nblk off len = S (nblk (off + m) (len - m)).
Proof.
  intros Hoff Hlen m. unfold nblk. rewrite (proj2 (Z.leb_gt len 0)) by lia.
  pose proof (Z.div_mod off 512 ltac:(lia)). pose proof (Z.mod_pos_bound off 512 ltac:(lia)).
  destruct (Z.leb_spec (len - m) 0) as [Hle|Hgt].
  - rewrite <- (Z.div_unique_pos (off + len - 1) 512 (off / 512) (off mod 512 + (len - 1))) by lia. lia.
  - assert (m = 512 - off mod 512) as Hm by lia.
    replace (off + m + (len - m) - 1) with (off + len - 1) by lia.
    rewrite <- (Z.div_unique_pos (off + m) 512 (off / 512 + 1) 0) by lia.
    pose proof (Z.div_le_mono (off + m) (off + len - 1) 512 ltac:(lia) ltac:(lia)) as Hmono.
    rewrite <- (Z.div_unique_pos (off + m) 512 (off / 512 + 1) 0) in Hmono by lia. lia.
Qed.

(** The blocks to be written exist or there is space for new ones. *)
Definition space (v : Z -> block) (addrs : list Z) (off len : Z) : Prop :=
  (forall o, off <= o < off + len -> nth_block v addrs (blk_no o) <> 0) \/
  Z.of_nat (length (fblocks v addrs ++ R) + spare addrs + lack v addrs off (off + len)) <= sb_nblocks sb.

Lemma lack_here v addrs off e :
  0 <= off < e -> nth_block v addrs (blk_no off) = 0 -> (1 <= lack v addrs off e)%nat.
Proof.
  intros Ho Hz. unfold lack. pose proof (blk_no_end off e Ho).
  replace (blk_no (e + 511) - blk_no off)%nat with (S (blk_no (e + 511) - blk_no off - 1)) by lia.
  cbn [seq]. rewrite filter_cons, decide_True by done. simpl. lia.
Qed.

Lemma writei_loop_spec n fuel : forall t v addrs L src off tot,
  settled t v ∅ L -> length addrs = S NDIRECT -> alloc_ok sb v (fblocks v addrs ++ R) ->
  0 <= off -> 0 <= tot <= n -> off + (n - tot) <= MAXBYTES -> n <= MAXBYTES ->
  n - tot <= Z.of_nat (length src) -> (icost addrs L + nblk off (n - tot) <= cap)%nat ->
  space v addrs off (n - tot) -> n - tot < Z.of_nat fuel ->
  runs (writei_loop ip src off n tot fuel) (after s ip i t addrs) (fun r s' => exists t' v' addrs' L',
    s' = after s ip i t' addrs' /\ r = off + (n - tot) /\ settled t' v' ∅ L' /\
    wrote R v addrs L off (take (Z.to_nat (n - tot)) src) (nblk off (n - tot)) v' addrs' L').
Proof.
  induction fuel as [|fuel IH]; intros t v addrs L src off tot Ht Hl Ho Hoff Htot Hmax Hn Hsrc Hcost Hspace Hfuel; [lia |].
  cbn [writei_loop]. change (Z.of_nat BSIZE) with 512. destruct (Z.ltb_spec tot n) as [Hlt|Hge].
  2: { apply runs_ret. exists t, v, addrs, L. replace (n - tot) with 0 by lia.
    split; [done |]. split; [lia |]. split; [done |]. by apply wrote_nil. }
  set (m := Z.min (n - tot) (512 - off mod 512)).
  pose proof (nblk_step off (n - tot) Hoff ltac:(lia)) as Hnb. cbv zeta in Hnb. fold m in Hnb.
  pose proof (Z.mod_pos_bound off 512 ltac:(lia)) as Hmod.
  assert (0 <= off < MAXBYTES) as Hoff' by lia. pose proof (blk_no_lt off Hoff') as Hk.
  replace (off / 512) with (Z.of_nat (blk_no off)) by (unfold blk_no; rewrite Z2Nat.id; [done | apply Z.div_pos; lia]).
  apply runs_bind. eapply runs_mono; [apply (bmap_spec t v addrs L); try done |].
  { intros Hz. destruct Hspace as [Hall|Hfree]; [by destruct (Hall off ltac:(lia)) |].
    pose proof (lack_here v addrs off (off + (n - tot)) ltac:(lia) Hz). split; lia. }
  intros r s1 (t1 & v1 & addrs1 & L1 & -> & Ht1 & Hgr).
  eapply runs_inode_at; [by apply after_lookup |]. cbn [i_dev set_addrs set_idi]. rewrite Hdev.
  pose proof (gw_alloc _ _ _ _ _ _ _ _ _ Hgr) as Ho1. pose proof (gw_k _ _ _ _ _ _ _ _ _ Hgr) as Hr.
  pose proof (gw_nz _ _ _ _ _ _ _ _ _ Hgr) as Hrz.
  assert (NoDup (fblocks v1 addrs1)) as Hnd by (by apply ao_NoDup, NoDup_app in Ho1 as (? & _ & _)).
  assert (is_data sb r) as Hd.
  { eapply owned_data; [exact Ho1 |]. apply elem_of_app. left. rewrite <- Hr in Hrz |- *. by apply nth_block_elem. }
  eapply fs_bread; [exact Ht1 | by apply (area_data Hg) | apply unheld_empty | apply held_none |].
  intros bp t2 Ht2 _. cbv zeta. eapply fs_bdata; [exact Ht2 | apply lookup_insert_eq |]. intros t3 Ht3.
  set (x := take (Z.to_nat m) src).
  assert (length x = Z.to_nat m) as Hxl by (subst x; rewrite length_take; lia).
  rewrite (proj2 (Nat.ltb_ge _ _)) by lia.
  pose proof (wrote_chunk v addrs L off x r v1 addrs1 L1) as Hw.
  ospecialize* Hw; [done | lia | lia | intros c; by eapply settled_size | done | done |].
  pose proof (wr_cost _ _ _ _ _ _ _ _ _ _ Hw) as [Hcw _]. pose proof (icost_cost addrs1 ({[r]} ∪ L1)).
  eapply fs_log; [exact Ht3 | by apply (area_data Hg) | etrans; [apply (cost_size sb) |]; lia | |].
  { rewrite blit_length; [by eapply settled_size |]. rewrite (settled_size _ _ _ _ _ Ht3). unfold BSIZE. lia. }
  intros t4 Ht4. apply runs_bind. eapply fs_brelse; [exact Ht4 | done |]. intros t5 Ht5.
  unfold MAXBYTES in *. rewrite !u32_small by lia.
  pose proof (wr_len _ _ _ _ _ _ _ _ _ _ Hw) as Hl1.
  eapply runs_mono; [eapply (IH t5 _ addrs1 _ (drop (Z.to_nat m) src) (off + m) (tot + m)); [exact Ht5 | ..] |].
  all: replace (n - (tot + m)) with (n - tot - m) by lia.
  - congruence.
  - apply Hw.
  - lia.
  - lia.
  - unfold MAXBYTES. lia.
  - unfold MAXBYTES. lia.
  - rewrite length_drop. lia.
  - lia.
  - destruct Hspace as [Hall|Hfree]; [left | right].
    + intros o Hb. rewrite (wr_stay _ _ _ _ _ _ _ _ _ _ Hw); [apply Hall; lia | | apply Hall; lia].
      apply blk_no_lt. unfold MAXBYTES. lia.
    + pose proof (wr_count _ _ _ _ _ _ _ _ _ _ Hw (off + (n - tot)) ltac:(unfold MAXBYTES; lia)) as Hcount.
      rewrite Hxl, Z2Nat.id in Hcount by lia. replace (off + m + (n - tot - m)) with (off + (n - tot)) by lia.
      rewrite length_app in Hfree |- *. unfold block in *. lia.
  - lia.
  - intros a s6 (t6 & v6 & addrs6 & L6 & -> & -> & Ht6 & Hw6). exists t6, v6, addrs6, L6.
    split; [done |]. split; [lia |]. split; [done |].
    assert (take (Z.to_nat (n - tot)) src = x ++ take (Z.to_nat (n - tot - m)) (drop (Z.to_nat m) src)) as Hx.
    { subst x. rewrite take_take_drop. f_equal. lia. }
    rewrite Hx, Hnb. change (S ?a) with (1 + a)%nat. eapply (wrote_trans v addrs L off x 1 _ _ _ _ _ _ _ _ Hoff); [| exact Hw |].
    + rewrite <- Hx, length_take. unfold MAXBYTES. lia.
    + rewrite Hxl, Z2Nat.id by lia. exact Hw6.
Qed.

(** ** iupdate *)

Definition dinode_at (v : Z -> block) (inum : Z) : dinode :=
  dinode_get (v (IBLOCK inum sb)) (dinode_off inum).

Definition is_inum (inum : Z) : Prop := 0 <= inum < sb_ninodes sb.

Lemma iblock_eq inum : is_inum inum -> IBLOCK inum sb = sb_inodestart sb + inum / 8.
Proof.
  intros Hn. destruct Hg as [Hs (Hi1 & Hi2 & Hi3) (Hb1 & Hb2) _]. unfold IBLOCK, is_inum in *.
  rewrite IPB_eq, BPB_eq in *. pose proof (Z.div_le_mono inum (sb_ninodes sb - 1) 8 ltac:(lia) ltac:(lia)).
  pose proof (Z.div_pos inum 8 ltac:(lia) ltac:(lia)). pose proof (Z.div_pos (sb_size sb - 1) 4096 ltac:(lia) ltac:(lia)).
  rewrite u32_small; lia.
Qed.

Lemma iblock_range inum :
  is_inum inum -> 2 <= IBLOCK inum sb < sb_bmapstart sb /\ area (IBLOCK inum sb) /\
  ~ is_data sb (IBLOCK inum sb) /\ IBLOCK inum sb ∉ bmaps sb.
Proof.
  intros Hn. rewrite (iblock_eq inum Hn). pose proof (g_area _ _ Hg (sb_inodestart sb + inum / 8)) as Ha.
  destruct Hg as [Hs (Hi1 & Hi2 & Hi3) (Hb1 & Hb2) _]. unfold is_inum in Hn. rewrite IPB_eq, BPB_eq in *.
  pose proof (Z.div_le_mono inum (sb_ninodes sb - 1) 8 ltac:(lia) ltac:(lia)).
  pose proof (Z.div_pos inum 8 ltac:(lia) ltac:(lia)). pose proof (Z.div_pos (sb_size sb - 1) 4096 ltac:(lia) ltac:(lia)).
  split; [lia |]. split; [apply Ha; lia |]. split; [unfold is_data; lia |].
  intros Hin%(bmaps_range Hg). lia.
Qed.

Lemma dinode_off_fits inum : (dinode_off inum + DINODE <= BSIZE)%nat.
Proof.
  unfold dinode_off. rewrite IPB_eq. pose proof (Z.mod_pos_bound inum 8 ltac:(lia)). unfold DINODE, BSIZE. lia.
Qed.

(** Inode [inum] on the disk is now [di]; nothing else changed. *)
Definition iupdated (v : Z -> block) (inum : Z) (di : dinode) : Z -> block :=
  <[IBLOCK inum sb := dinode_put (v (IBLOCK inum sb)) (dinode_off inum) di]> v.

Lemma iupdated_same v inum di :
  dinode_wf di -> length (v (IBLOCK inum sb)) = BSIZE -> dinode_at (iupdated v inum di) inum = di.
Proof.
  intros Hw Hl. unfold dinode_at, iupdated. rewrite fn_lookup_insert. apply dinode_get_put; [done |].
  rewrite Hl. apply dinode_off_fits.
Qed.

Lemma iupdated_other v inum di j :
  is_inum inum -> is_inum j -> length (d_addrs di) = S NDIRECT -> j <> inum ->
  dinode_at (iupdated v inum di) j = dinode_at v j.
Proof.
  intros Hn Hj Hl Hne. unfold dinode_at, iupdated. destruct (decide (IBLOCK j sb = IBLOCK inum sb)) as [He|Hb].
  - rewrite He, fn_lookup_insert. apply dinode_get_put_ne; [done |]. rewrite !iblock_eq in He by done.
    unfold dinode_off. rewrite IPB_eq. unfold DINODE, is_inum in *.
    pose proof (Z.div_mod j 8 ltac:(lia)). pose proof (Z.div_mod inum 8 ltac:(lia)).
    pose proof (Z.mod_pos_bound j 8 ltac:(lia)). pose proof (Z.mod_pos_bound inum 8 ltac:(lia)). lia.
  - by rewrite fn_lookup_insert_ne.
Qed.

Lemma iupdate_spec (s1 : fs T) ip1 i1 v L :
  settled (fs_tx s1) v ∅ L -> fs_sb s1 = sb -> fs_ic s1 !! ip1 = Some i1 -> i_dev i1 = 1 -> is_inum (i_inum i1) ->
  (cost sb L + 1 <= cap)%nat ->
  runs (iupdate ip1) s1 (fun _ s' => exists t, s' = set_tx t s1 /\
    settled t (iupdated v (i_inum i1) (i_di i1)) ∅ ({[IBLOCK (i_inum i1) sb]} ∪ L)).
Proof.
  intros Hs Hsb1 Hi1 Hdev1 Hn Hc. destruct (iblock_range _ Hn) as (_ & Ha & _).
  unfold iupdate. eapply runs_inode_at; [done |]. apply runs_bind, runs_get. rewrite Hsb1, Hdev1.
  eapply fs_bread; [exact Hs | done | apply unheld_empty | apply held_none |]. intros bp t1 Ht1 _.
  eapply fs_bdata; [exact Ht1 | apply lookup_insert_eq |]. intros t2 Ht2.
  eapply fs_log; [exact Ht2 | done | | rewrite dinode_put_length; by eapply settled_size |].
  { etrans; [apply (cost_size sb) |]. pose proof (cost_add sb L (IBLOCK (i_inum i1) sb)). lia. }
  intros t3 Ht3. eapply fs_brelse; [exact Ht3 | done |]. intros t4 Ht4. by exists t4.
Qed.

(** ** writei *)

Lemma addrs_range v addrs :
  length addrs = S NDIRECT -> alloc_ok sb v (fblocks v addrs ++ R) ->
  Forall (fun a => 0 <= a < 4294967296) addrs.
Proof.
  intros Hl Ho. apply Forall_lookup. intros k a Hk. destruct (decide (a = 0)) as [->|Hnz]; [lia |].
  assert (is_data sb a) as Hd.
  { eapply owned_data; [exact Ho |]. apply elem_of_app. left. apply in_fblocks.
    pose proof (lookup_lt_Some _ _ _ Hk) as Hlt. destruct (decide (k = NDIRECT)) as [->|Hne].
    - left. unfold ind. by rewrite Hk.
    - right. exists k. split; [rewrite NBLOCKS_eq; unfold NDIRECT in *; lia |]. split; [| done].
      unfold nth_block. rewrite (proj2 (Nat.ltb_lt _ _)) by lia. by rewrite Hk. }
  apply (data_range Hg) in Hd. pose proof (g_size _ _ Hg). lia.
Qed.

Lemma meta_1 : ~ is_data sb 1 /\ 1 ∉ bmaps sb.
Proof.
  pose proof (g_size _ _ Hg). destruct (bblock_range Hg 0) as [Hr _]; [lia |].
  destruct Hg as [_ (Hi1 & Hi2 & Hi3) _ _]. rewrite IPB_eq in Hi3.
  assert (-1 <= (sb_ninodes sb - 1) / 8) by (apply Z.div_le_lower_bound; lia).
  split; [unfold is_data; lia |]. intros Hin%(bmaps_range Hg). lia.
Qed.

(** Writing the inode's block leaves the blocks of all files alone. *)
Lemma iupdated_data v inum di c : is_inum inum -> is_data sb c -> iupdated v inum di c = v c.
Proof.
  intros Hn Hd. destruct (iblock_range _ Hn) as (_ & _ & Hnd & _). unfold iupdated.
  rewrite fn_lookup_insert_ne; [done |]. by intros <-.
Qed.

Lemma iupdated_nth v O inum di addrs k :
  is_inum inum -> alloc_ok sb v (fblocks v addrs ++ O) -> nth_block (iupdated v inum di) addrs k = nth_block v addrs k.
Proof.
  intros Hn Ho. unfold nth_block. destruct (k <? NDIRECT)%nat; [done |].
  destruct (Z.eqb_spec (ind addrs) 0) as [|Hnz]; [done |]. rewrite iupdated_data; [done | done |].
  eapply owned_data; [exact Ho |]. apply elem_of_app. left. by apply ind_elem.
Qed.

Lemma iupdated_fblocks v O inum di addrs :
  is_inum inum -> alloc_ok sb v (fblocks v addrs ++ O) -> fblocks (iupdated v inum di) addrs = fblocks v addrs.
Proof.
  intros Hn Ho. apply fblocks_ext. intros c -> Hnz. apply iupdated_data; [done |]. eapply owned_data; [exact Ho |].
  apply elem_of_app. left. by apply ind_elem.
Qed.

Lemma iupdated_alloc v O inum di addrs :
  is_inum inum -> alloc_ok sb v (fblocks v addrs ++ O) ->
  alloc_ok sb (iupdated v inum di) (fblocks (iupdated v inum di) addrs ++ O).
Proof.
  intros Hn Ho. rewrite (iupdated_fblocks v O) by done.
  eapply (alloc_ext Hg); [| exact Ho]. intros c Hc. unfold iupdated. rewrite fn_lookup_insert_ne; [done |].
  intros <-. by apply (iblock_range _ Hn) in Hc.
Qed.

Lemma iupdated_byte v O inum di addrs o :
  is_inum inum -> alloc_ok sb v (fblocks v addrs ++ O) -> 0 <= o < MAXBYTES ->
  nth_block v addrs (blk_no o) <> 0 -> fbyte (iupdated v inum di) addrs o = fbyte v addrs o.
Proof.
  intros Hn Ho Hob Hnz. unfold fbyte. rewrite (iupdated_nth v O) by done. rewrite iupdated_data; [done | done |].
  eapply owned_data; [exact Ho |]. apply elem_of_app. left. apply nth_block_elem; [| done]. by apply blk_no_lt.
Qed.

(** The effect of a write of [src] at [off] to the inode [di]. *)
Record file_written (v : Z -> block) (inum : Z) (di : dinode) (off : Z) (src : list Z)
  (v' : Z -> block) (di' : dinode) : Prop := {
  fw_size : d_size di' = Z.max (d_size di) (off + Z.of_nat (length src));
  fw_fields : d_type di' = d_type di /\ d_major di' = d_major di /\ d_minor di' = d_minor di /\ d_nlink di' = d_nlink di;
  fw_wf : dinode_wf di';
  fw_disk : dinode_at v inum = di -> dinode_at v' inum = di';
  fw_other : forall j, is_inum j -> j <> inum -> dinode_at v' j = dinode_at v j;
  fw_alloc : alloc_ok sb v' (fblocks v' (d_addrs di') ++ R);
  fw_R : forall c, c ∈ R -> v' c = v c;
  fw_sb : v' 1 = v 1;
  fw_mapped : mapped v' (d_addrs di') (d_size di');
  fw_bytes : forall o, 0 <= o < d_size di' -> fbyte v' (d_addrs di') o =
    if decide (off <= o < off + Z.of_nat (length src)) then byte_at src (Z.to_nat (o - off))
    else fbyte v (d_addrs di) o;
  fw_count : forall e, off + Z.of_nat (length src) <= e <= MAXBYTES ->
    (length (fblocks v' (d_addrs di')) + spare (d_addrs di') + lack v' (d_addrs di') (off + Z.of_nat (length src)) e <=
     length (fblocks v (d_addrs di)) + spare (d_addrs di) + lack v (d_addrs di) off e)%nat
}.

(** Within the old size the inode does not change. *)
Lemma written_inside v di off src n L v' addrs' L' inum :
  dinode_wf di -> mapped v (d_addrs di) (d_size di) -> 0 <= off -> off + Z.of_nat (length src) <= d_size di ->
  d_size di <= MAXBYTES -> is_inum inum -> wrote R v (d_addrs di) L off src n v' addrs' L' ->
  addrs' = d_addrs di /\ file_written v inum di off src v' di.
Proof.
  intros Hw Hmap Hoff Hin Hmax Hn [A1 A2 A3 A4 A5 A6 A7 A8 A9 A10].
  assert (addrs' = d_addrs di) as ->. { apply A10. intros o Ho. apply Hmap. lia. }
  split; [done |]. destruct meta_1 as [Hm1 Hm2]. split; try done.
  - lia.
  - intros He. destruct (iblock_range _ Hn) as (_ & _ & Hd & Hb). unfold dinode_at in *. by rewrite A7.
  - intros j Hj _. destruct (iblock_range _ Hj) as (_ & _ & Hd & Hb). unfold dinode_at. by rewrite A7.
  - by apply A7.
  - intros o Ho. rewrite A3; [by apply Hmap | apply blk_no_lt; lia | by apply Hmap].
  - intros o Ho. case_decide as Hc; [by apply A4 |]. apply A5; [lia | done | by apply Hmap].
Qed.

Lemma written_beyond v di off src n L v1 addrs' L' inum :
  dinode_wf di -> mapped v (d_addrs di) (d_size di) -> 0 <= off <= d_size di ->
  d_size di < off + Z.of_nat (length src) <= MAXBYTES -> is_inum inum -> (forall c, length (v1 c) = BSIZE) ->
  wrote R v (d_addrs di) L off src n v1 addrs' L' ->
  let di' := set_dsize (off + Z.of_nat (length src)) (set_daddrs addrs' di) in
  file_written v inum di off src (iupdated v1 inum di') di'.
Proof.
  intros Hw Hmap Hoff Hout Hn Hlen [A1 A2 A3 A4 A5 A6 A7 A8 A9 A10] di'. destruct meta_1 as [Hm1 Hm2].
  destruct (iblock_range _ Hn) as (Hir & _ & Hind & _). pose proof (dw_len _ Hw) as Hl.
  assert (dinode_wf di') as Hw'.
  { destruct Hw. split; try done; subst di'; simpl; [unfold MAXBYTES in *; lia | congruence |].
    eapply addrs_range; [congruence | done]. }
  assert (forall o, 0 <= o < off + Z.of_nat (length src) -> nth_block v1 addrs' (blk_no o) <> 0) as Hmap'.
  { intros o Ho. destruct (decide (off <= o)); [apply A4; lia |].
    rewrite A3; [apply Hmap; lia | apply blk_no_lt; lia | apply Hmap; lia]. }
  split; try done; subst di'; cbn [d_size set_dsize d_addrs set_daddrs].
  - lia.
  - intros _. by apply iupdated_same.
  - intros j Hj Hne. rewrite iupdated_other by (done || simpl; congruence).
    destruct (iblock_range _ Hj) as (_ & _ & Hd & Hb). unfold dinode_at. by rewrite A7.
  - by apply iupdated_alloc.
  - intros c Hc. rewrite iupdated_data; [by apply A6 | done |]. eapply owned_data; [exact A1 |].
    apply elem_of_app. by right.
  - unfold iupdated. rewrite fn_lookup_insert_ne by lia. by apply A7.
  - intros o Ho. rewrite (iupdated_nth v1 R) by done. by apply Hmap'.
  - intros o Ho. rewrite (iupdated_byte v1 R) by (done || lia || by apply Hmap').
    case_decide as Hc; [by apply A4 |]. apply A5; [lia | done | apply Hmap; lia].
  - intros e He. rewrite (iupdated_fblocks v1 R) by done. rewrite (lack_ext v1); [by apply A8 |].
    intros k. by rewrite (iupdated_nth v1 R).
Qed.

Lemma writei_spec `{!DevSw (T := T)} v L src off n :
  settled (fs_tx s) v ∅ L -> is_inum (i_inum i) -> dinode_wf (i_di i) ->
  alloc_ok sb v (fblocks v (d_addrs (i_di i)) ++ R) -> d_type (i_di i) <> T_DEV ->
  mapped v (d_addrs (i_di i)) (d_size (i_di i)) -> d_size (i_di i) <= MAXBYTES ->
  0 <= off <= d_size (i_di i) -> 0 <= n <= Z.of_nat (length src) -> off + n <= MAXBYTES ->
  (icost (d_addrs (i_di i)) L + nblk off n + 1 <= cap)%nat -> space v (d_addrs (i_di i)) off n ->
  runs (writei ip src off n) s (fun r s' => exists t v' di' L',
    s' = set_tx t (put_inode ip (set_idi di' i) s) /\ r = n /\ settled t v' ∅ L' /\
    file_written v (i_inum i) (i_di i) off (take (Z.to_nat n) src) v' di' /\
    (cost sb L' <= icost (d_addrs (i_di i)) L + nblk off n + 1)%nat /\ L ⊆ L').
Proof.
  intros Hs Hn Hw Ho Hty Hmap Hmax Hoff Hsrc Hend Hcost Hspace. unfold writei.
  eapply runs_inode_at; [done |]. rewrite (proj2 (Z.eqb_neq _ _) Hty). unfold MAXBYTES in *.
  rewrite !u32_small by lia. rewrite (proj2 (Z.ltb_ge _ off)), (proj2 (Z.ltb_ge (off + n) off)) by lia. cbn [orb].
  assert (MAXFILE * Z.of_nat BSIZE = 143360) as -> by (unfold MAXFILE; rewrite NINDIRECT_eq; reflexivity).
  rewrite (proj2 (Z.ltb_ge 143360 _)) by lia. apply runs_bind.
  pose proof (writei_loop_spec n (S (Z.to_nat n)) (fs_tx s) v (d_addrs (i_di i)) L src off 0) as Hloop.
  rewrite after_same in Hloop by done. replace (set_tx (fs_tx s) s) with s in Hloop by (by destruct s).
  rewrite Z.sub_0_r in Hloop. unfold MAXBYTES in Hloop.
  assert (length (take (Z.to_nat n) src) = Z.to_nat n) as Hlt by (rewrite length_take; lia).
  eapply runs_mono; [apply Hloop; try done; try lia; [by apply dw_len] |].
  intros r s1 (t1 & v1 & addrs1 & L1 & -> & -> & Ht1 & Hwr).
  eapply runs_inode_at; [by apply after_lookup |]. cbn [i_di set_addrs set_idi set_daddrs d_size].
  pose proof (wr_cost _ _ _ _ _ _ _ _ _ _ Hwr) as [Hc1 HL1]. pose proof (icost_cost addrs1 L1). apply runs_bind.
  destruct (Z.ltb_spec (d_size (i_di i)) (off + n)) as [Hgrow|Hfit].
  - rewrite (proj2 (Z.ltb_lt 0 n)) by lia. cbn [andb]. apply runs_bind.
    eapply runs_upd_inode; [by apply after_lookup |].
    set (di' := set_dsize (off + n) (set_daddrs addrs1 (i_di i))).
    assert (put_inode ip (set_idi (set_dsize (off + n) (i_di (set_addrs addrs1 i))) (set_addrs addrs1 i))
      (after s ip i t1 addrs1) = set_tx t1 (put_inode ip (set_idi di' i) s)) as ->.
    { unfold after, put_inode, set_ic, set_tx. cbn [fs_ic fs_tx fs_sb]. by rewrite list_insert_insert_eq. }
    eapply runs_mono; [eapply (iupdate_spec _ ip _ v1 L1); [exact Ht1 | done | by eapply put_inode_lookup | done | done | lia] |].
    intros [] s2 (t2 & -> & Ht2). apply runs_ret. cbn [i_inum i_di set_idi] in Ht2. eexists t2, _, di', _.
    split; [done |]. split; [rewrite i32_small by lia; lia |]. split; [exact Ht2 |]. split.
    + pose proof (written_beyond v (i_di i) off (take (Z.to_nat n) src) (nblk off n) L v1 addrs1 L1 (i_inum i)) as Hb.
      rewrite Hlt in Hb. replace (Z.of_nat (Z.to_nat n)) with n in Hb by lia. unfold MAXBYTES in Hb.
      apply Hb; try done; try lia. intros c. by eapply settled_size.
    + pose proof (cost_add sb L1 (IBLOCK (i_inum i) sb)). split; [lia | set_solver].
  - rewrite andb_false_r. apply runs_ret, runs_ret.
    destruct (written_inside v (i_di i) off (take (Z.to_nat n) src) (nblk off n) L v1 addrs1 L1 (i_inum i))
      as [-> Hfw]; try done; unfold MAXBYTES; try lia.
    exists t1, v1, (i_di i), L1. rewrite after_same by done. rewrite i32_small by lia.
    split; [| split; [lia | split; [done |]; split; [done |]; split; [lia | done]]].
    rewrite put_inode_same; [done |]. rewrite Hi. by destruct i.
Qed.

(** ** itrunc *)

(** The block as an array of block numbers. *)
Definition uints (d : block) : list Z := (fun j => get32 d (4 * j)) <$> seq 0 NINDIRECT.

Definition presents (l : list Z) : list Z := concat (present <$> l).

Lemma fblocks_split v addrs :
  length addrs = S NDIRECT ->
  fblocks v addrs ≡ₚ presents (take NDIRECT addrs) ++
    (if ind addrs =? 0 then [] else presents (uints (v (ind addrs)))) ++ present (ind addrs).
Proof.
  intros Hl. unfold fblocks, presents.
  assert (seq 0 NBLOCKS = seq 0 NDIRECT ++ ((fun j => NDIRECT + j)%nat <$> seq 0 NINDIRECT)) as ->.
  { change NBLOCKS with (NDIRECT + NINDIRECT)%nat. rewrite seq_app, <- fmap_add_seq. done. }
  rewrite fmap_app, concat_app.
  assert ((fun k => present (nth_block v addrs k)) <$> seq 0 NDIRECT = present <$> take NDIRECT addrs) as ->.
  { apply list_eq. intros k. rewrite !list_lookup_fmap. destruct (decide (k < NDIRECT)%nat) as [Hk|Hk].
    - rewrite lookup_seq_lt, lookup_take_lt by done. destruct (lookup_lt_is_Some_2 addrs k) as [a Ha]; [lia |].
      rewrite Ha. simpl. unfold nth_block. rewrite (proj2 (Nat.ltb_lt _ _) Hk). by rewrite Ha.
    - rewrite lookup_seq_ge, lookup_take_ge by lia. done. }
  rewrite Permutation_app_comm, <- app_assoc. apply Permutation_app_head.
  rewrite <- list_fmap_compose. apply Permutation_app_tail.
  destruct (Z.eqb_spec (ind addrs) 0) as [Hz|Hnz].
  - rewrite (list_fmap_ext _ (fun _ => [])).
    + generalize (seq 0 NINDIRECT). intros l. induction l; [done |]. simpl. done.
    + intros j k _. unfold compose, nth_block. rewrite (proj2 (Nat.ltb_ge _ _)), Hz by lia. done.
  - unfold uints. rewrite <- list_fmap_compose. erewrite list_fmap_ext; [done |].
    intros j k [-> Hk]%lookup_seq. unfold compose, nth_block.
    rewrite (proj2 (Nat.ltb_ge _ _)), (proj2 (Z.eqb_neq _ _) Hnz) by lia. do 2 f_equal. lia.
Qed.

(** What freeing blocks leaves: the blocks [O] are in use. *)
Definition freed (v : Z -> block) (L : gset Z) (O : list Z) (v' : Z -> block) (L' : gset Z) : Prop :=
  alloc_ok sb v' O /\ (forall c, c ∉ bmaps sb -> v' c = v c) /\ cost sb L' = cost sb L /\ L ⊆ L'.

Lemma freed_trans v L O v1 L1 O' v2 L2 : freed v L O v1 L1 -> freed v1 L1 O' v2 L2 -> freed v L O' v2 L2.
Proof.
  intros (_ & H1 & H2 & H3) (H4 & H5 & H6 & H7). split; [done |]. split; [intros c Hc; by rewrite H5, H1 |].
  split; [congruence | set_solver].
Qed.

Lemma bfree_freed (s1 : fs T) v h L b O :
  settled (fs_tx s1) v h L -> fs_sb s1 = sb -> sb_of (v 1) = sb -> alloc_ok sb v (present b ++ O) ->
  held_in h (present b ++ O) -> (size h <= 2)%nat -> (cost sb L <= cap)%nat -> b <> 0 ->
  runs (bfree 1 b) s1 (fun _ s' => exists t v' L', s' = set_tx t s1 /\ freed v L O v' L' /\ settled t v' h L').
Proof.
  intros Hs Hsb1 Hv1 Ho Hh H2 Hc Hb. unfold present in *. rewrite (proj2 (Z.eqb_neq _ _) Hb) in *.
  eapply runs_mono; [by apply (bfree_spec Hg s1 v h L b O) |].
  intros [] s2 (t & v' & -> & Ho' & Hk & Ht). exists t, v', ({[BBLOCK b sb]} ∪ L). split; [done |].
  split; [| done]. split; [done |]. split; [done |]. split; [| set_solver]. apply cost_bmap.
  apply (bblock_range Hg), (data_range Hg). eapply owned_data; [exact Ho |]. by left.
Qed.

Lemma itrunc_direct_spec count : forall k t v addrs L O,
  (k + count = NDIRECT)%nat -> length addrs = S NDIRECT -> settled t v ∅ L -> sb_of (v 1) = sb ->
  alloc_ok sb v (presents (take count (drop k addrs)) ++ O) -> (cost sb L <= cap)%nat ->
  runs (itrunc_direct ip k count) (after s ip i t addrs) (fun _ s' => exists t' v' addrs' L',
    s' = after s ip i t' addrs' /\ settled t' v' ∅ L' /\ freed v L O v' L' /\ length addrs' = S NDIRECT /\
    forall j, addrs' !! j = if decide (k <= j < NDIRECT)%nat then Some 0 else addrs !! j).
Proof.
  induction count as [|count IH]; intros k t v addrs L O Hk Hl Ht Hv1 Ho Hc.
  { apply runs_ret. exists t, v, addrs, L. split; [done |]. split; [done |]. split; [done |]. split; [done |].
    intros j. by rewrite decide_False by lia. }
  cbn [itrunc_direct]. eapply runs_inode_at; [by apply after_lookup |].
  cbn [i_di set_addrs set_idi set_daddrs d_addrs i_dev]. rewrite Hdev. apply runs_bind.
  eapply runs_lift; [apply addr_get; [done | lia] |]. apply runs_bind.
  destruct (lookup_lt_is_Some_2 addrs k) as [a Ha]; [lia |]. rewrite Ha. cbn. unfold id.
  rewrite (drop_S _ _ _ Ha) in Ho. cbn [take] in Ho. unfold presents in Ho. cbn [fmap list_fmap concat] in Ho.
  rewrite <- app_assoc in Ho. fold (presents (take count (drop (S k) addrs))) in Ho.
  assert (forall t1 v1 L1, settled t1 v1 ∅ L1 -> freed v L (presents (take count (drop (S k) addrs)) ++ O) v1 L1 ->
    runs (itrunc_direct ip (S k) count) (after s ip i t1 (<[k := 0]> addrs)) (fun _ s' => exists t' v' addrs' L',
    s' = after s ip i t' addrs' /\ settled t' v' ∅ L' /\ freed v L O v' L' /\ length addrs' = S NDIRECT /\
    forall j, addrs' !! j = if decide (k <= j < NDIRECT)%nat then Some 0 else addrs !! j)) as Hrest.
  { intros t1 v1 L1 Ht1 Hf1. pose proof Hf1 as (Ho1 & Hk1 & Hc1 & _).
    eapply runs_mono; [apply (IH (S k) t1 v1 (<[k := 0]> addrs) L1 O); try done |].
    - lia.
    - by rewrite length_insert.
    - by rewrite Hk1 by apply meta_1.
    - by rewrite drop_insert_lt by lia.
    - lia.
    - intros [] s2 (t2 & v2 & addrs2 & L2 & -> & Ht2 & Hf2 & Hl2 & Hj). exists t2, v2, addrs2, L2.
      split; [done |]. split; [done |]. split; [by eapply freed_trans |]. split; [done |]. intros j. rewrite Hj.
      destruct (decide (j = k)) as [->|Hne].
      + rewrite decide_False, decide_True, list_lookup_insert_eq by lia. done.
      + rewrite list_lookup_insert_ne by done. do 2 case_decide; try done; lia. }
  destruct (Z.eqb_spec a 0) as [->|Hnz].
  - apply runs_ret. rewrite <- (list_insert_id addrs k 0 Ha) at 1. apply Hrest with v L; [done |].
    split; [done |]. done.
  - apply runs_bind. eapply runs_mono; [eapply (bfree_freed _ v ∅ L a); [exact Ht | done | done | exact Ho | done | apply held_none | done | done] |].
    intros [] s1 (t1 & v1 & L1 & -> & Hf1 & Ht1).
    eapply runs_upd_inode; [simpl; apply list_lookup_insert_eq; by eapply lookup_lt_Some |].
    rewrite after_set. by eapply Hrest.
Qed.

Lemma itrunc_indirect_spec bp x count : forall j (s1 : fs T) v h L O,
  (j + count = NINDIRECT)%nat -> settled (fs_tx s1) v h L -> h !! bp = Some x -> fs_sb s1 = sb -> sb_of (v 1) = sb ->
  alloc_ok sb v (presents (drop j (uints (v x))) ++ O) -> held_in h O -> is_data sb x -> (size h <= 2)%nat ->
  (cost sb L <= cap)%nat ->
  runs (itrunc_indirect 1 bp j count) s1 (fun _ s' => exists t' v' L',
    s' = set_tx t' s1 /\ settled t' v' h L' /\ freed v L O v' L').
Proof.
  induction count as [|count IH]; intros j s1 v h L O Hj Ht Hbp Hsb1 Hv1 Ho Hh Hx H2 Hc.
  { apply runs_ret. exists (fs_tx s1), v, L. split; [by destruct s1 |]. split; [done |].
    rewrite drop_ge in Ho by (unfold uints; rewrite length_fmap, length_seq; lia). done. }
  cbn [itrunc_indirect]. eapply fs_bdata; [exact Ht | done |]. intros t1 Ht1. cbv zeta.
  assert (uints (v x) !! j = Some (get32 (v x) (4 * j))) as Hlk.
  { unfold uints. rewrite list_lookup_fmap, lookup_seq_lt by lia. done. }
  rewrite (drop_S _ _ _ Hlk) in Ho. unfold presents in Ho. cbn [fmap list_fmap concat] in Ho.
  rewrite <- app_assoc in Ho. set (a := get32 (v x) (4 * j)) in *.
  fold (presents (drop (S j) (uints (v x)))) in Ho. apply runs_bind.
  destruct (Z.eqb_spec a 0) as [Hz|Hnz].
  - apply runs_ret. rewrite Hz in Ho.
    eapply runs_mono; [apply (IH (S j) (set_tx t1 s1) v h L O); try done; lia |].
    intros [] s2 (t2 & v2 & L2 & -> & Hr). by exists t2, v2, L2.
  - eapply runs_mono; [eapply (bfree_freed _ v h L a); [exact Ht1 | done | done | exact Ho | | done | done | done] |].
    { intros k c Hkc. apply elem_of_app. right. apply elem_of_app. right. by apply (Hh k). }
    intros [] s2 (t2 & v2 & L2 & -> & Hf2 & Ht2). pose proof Hf2 as (Ho2 & Hk2 & Hc2 & _).
    assert (v2 x = v x) as Hvx by (apply Hk2, data_not_bmap; done).
    eapply runs_mono; [apply (IH (S j) _ v2 h L2 O); try done |].
    + lia.
    + by rewrite Hk2 by apply meta_1.
    + by rewrite Hvx.
    + lia.
    + intros [] s3 (t3 & v3 & L3 & -> & Ht3 & Hf3). exists t3, v3, L3. split; [done |]. split; [done |].
      by eapply freed_trans.
Qed.

(** The tail of [itrunc]: the indirect block and what it lists. *)
Lemma itrunc_ind_spec t v addrs L :
  length addrs = S NDIRECT -> settled t v ∅ L -> sb_of (v 1) = sb ->
  alloc_ok sb v ((if ind addrs =? 0 then [] else presents (uints (v (ind addrs)))) ++ present (ind addrs) ++ R) ->
  (cost sb L <= cap)%nat ->
  runs (if ind addrs =? 0 then ret tt
        else
          let* bp := blk (t_bread 1 (ind addrs)) in
          itrunc_indirect 1 bp 0 NINDIRECT ;;;
          blk (t_brelse bp) ;;;
          bfree 1 (ind addrs) ;;;
          upd_inode ip (set_addr NDIRECT 0)) (after s ip i t addrs) (fun _ s' => exists t' v' L',
    s' = after s ip i t' (<[NDIRECT := 0]> addrs) /\ settled t' v' ∅ L' /\ freed v L R v' L').
Proof.
  intros Hl Ht Hv1 Ho Hc. destruct (lookup_lt_is_Some_2 addrs NDIRECT) as [x Hx]; [lia |].
  assert (ind addrs = x) as Hind by (unfold ind; by rewrite Hx). rewrite Hind in Ho |- *. clear Hind.
  destruct (Z.eqb_spec x 0) as [Hz|Hnz].
  { rewrite Hz in Hx, Ho. apply runs_ret. exists t, v, L. rewrite list_insert_id by done. split; [done |]. split; [done |]. done. }
  assert (is_data sb x) as Hd.
  { eapply owned_data; [exact Ho |]. apply elem_of_app. right. apply elem_of_app. left. by apply present_in. }
  eapply fs_bread; [exact Ht | by apply (area_data Hg) | apply unheld_empty | apply held_none |].
  intros bp t1 Ht1 _. apply runs_bind.
  eapply runs_mono; [eapply (itrunc_indirect_spec bp x NINDIRECT 0 _ v _ L (present x ++ R)); [done | exact Ht1 | apply lookup_insert_eq | done | done | by rewrite drop_0 | | done | | done] |].
  { intros k c Hk. apply lookup_insert_Some in Hk as [[_ <-]|[_ Hk]]; [| done]. apply elem_of_app. left. by apply present_in. }
  { rewrite map_size_insert_None, map_size_empty by done. lia. }
  intros [] s2 (t2 & v2 & L2 & -> & Ht2 & Hf2). apply runs_bind. pose proof Hf2 as (Ho2 & Hk2 & Hc2 & _).
  eapply fs_brelse; [exact Ht2 | done |]. intros t3 Ht3. apply runs_bind.
  eapply runs_mono; [eapply (bfree_freed _ v2 ∅ L2 x); [exact Ht3 | done | by rewrite Hk2 by apply meta_1 | exact Ho2 | done | apply held_none | lia | done] |].
  intros [] s4 (t4 & v4 & L4 & -> & Hf4 & Ht4).
  eapply runs_upd_inode; [simpl; apply list_lookup_insert_eq; by eapply lookup_lt_Some |].
  exists t4, v4, L4. split; [apply after_set |]. split; [done |]. by eapply freed_trans.
Qed.

(** The effect of discarding the contents of inode [di]. *)
Record truncated (v : Z -> block) (inum : Z) (di : dinode) (v' : Z -> block) (di' : dinode) : Prop := {
  tr_wf : dinode_wf di';
  tr_addrs : d_addrs di' = replicate (S NDIRECT) 0;
  tr_disk : dinode_at v' inum = di';
  tr_other : forall j, is_inum j -> j <> inum -> dinode_at v' j = dinode_at v j;
  tr_alloc : alloc_ok sb v' R;
  tr_R : forall c, c ∈ R -> v' c = v c;
  tr_sb : v' 1 = v 1
}.

Lemma dinode_wf_clear di : dinode_wf di -> dinode_wf (set_dsize 0 (set_daddrs (replicate (S NDIRECT) 0) di)).
Proof.
  intros []. split; try done; cbn [d_addrs set_dsize set_daddrs].
  apply Forall_replicate. lia.
Qed.

Lemma itrunc_spec v L :
  settled (fs_tx s) v ∅ L -> is_inum (i_inum i) -> dinode_wf (i_di i) -> sb_of (v 1) = sb ->
  alloc_ok sb v (fblocks v (d_addrs (i_di i)) ++ R) -> (cost sb L + 1 <= cap)%nat ->
  let di' := set_dsize 0 (set_daddrs (replicate (S NDIRECT) 0) (i_di i)) in
  runs (itrunc ip) s (fun _ s' => exists t v' L',
    s' = set_tx t (put_inode ip (set_idi di' i) s) /\ settled t v' ∅ L' /\
    truncated v (i_inum i) (i_di i) v' di' /\ (cost sb L' <= cost sb L + 1)%nat /\ L ⊆ L').
Proof.
  intros Hs Hn Hw Hv1 Ho Hc di'. pose proof (dw_len _ Hw) as Hl. unfold itrunc.
  rewrite (fblocks_split v _ Hl), <- app_assoc in Ho. apply runs_bind.
  pose proof (itrunc_direct_spec NDIRECT 0 (fs_tx s) v (d_addrs (i_di i)) L) as Hdir.
  rewrite after_same in Hdir by done. replace (set_tx (fs_tx s) s) with s in Hdir by (by destruct s).
  eapply runs_mono; [apply Hdir; [done | done | done | done | rewrite drop_0; exact Ho | lia] |].
  intros [] s1 (t1 & v1 & addrs1 & L1 & -> & Ht1 & Hf1 & Hl1 & Hj). pose proof Hf1 as (Ho1 & Hk1 & Hc1 & HL1).
  eapply runs_inode_at; [by apply after_lookup |]. cbn [i_di set_addrs set_idi set_daddrs d_addrs i_dev].
  rewrite Hdev. apply runs_bind. eapply runs_lift; [by apply addr_get |]. fold (ind addrs1).
  assert (ind addrs1 = ind (d_addrs (i_di i))) as Hind by (unfold ind; rewrite Hj, decide_False by lia; done).
  assert (v1 (ind addrs1) = v (ind addrs1) \/ ind addrs1 = 0) as Hvi.
  { destruct (decide (ind addrs1 = 0)) as [|Hnz]; [by right | left]. apply Hk1, data_not_bmap.
    eapply owned_data; [exact Ho1 |]. rewrite Hind in Hnz |- *. apply elem_of_app. left. apply elem_of_app. right.
    by apply present_in. }
  apply runs_bind. eapply runs_mono; [apply (itrunc_ind_spec t1 v1 addrs1 L1 Hl1 Ht1) |].
  { by rewrite Hk1 by apply meta_1. }
  { rewrite Hind in *. rewrite <- app_assoc in Ho1. destruct Hvi as [->|Hz]; [exact Ho1 |]. by rewrite Hz in *. }
  { lia. }
  intros [] s2 (t2 & v2 & L2 & -> & Ht2 & Hf2). apply runs_bind.
  eapply runs_upd_inode; [by apply after_lookup |].
  assert (<[NDIRECT := 0]> addrs1 = replicate (S NDIRECT) 0) as Hzero.
  { apply list_eq. intros j. destruct (decide (j = NDIRECT)) as [->|Hne].
    - rewrite list_lookup_insert_eq, lookup_replicate_2 by lia. done.
    - rewrite list_lookup_insert_ne, Hj by done. case_decide.
      + by rewrite lookup_replicate_2 by lia.
      + rewrite !lookup_ge_None_2; [done | rewrite length_replicate; lia | lia]. }
  rewrite Hzero.
  assert (put_inode ip (set_idi (set_dsize 0 (i_di (set_addrs (replicate (S NDIRECT) 0) i)))
      (set_addrs (replicate (S NDIRECT) 0) i)) (after s ip i t2 (replicate (S NDIRECT) 0)) =
    set_tx t2 (put_inode ip (set_idi di' i) s)) as ->.
  { unfold after, put_inode, set_ic, set_tx. cbn [fs_ic fs_tx fs_sb]. by rewrite list_insert_insert_eq. }
  pose proof (freed_trans _ _ _ _ _ _ _ _ Hf1 Hf2) as (Ho2 & Hk2 & Hc2 & HL2).
  eapply runs_mono; [eapply (iupdate_spec _ ip _ v2 L2); [exact Ht2 | done | by eapply put_inode_lookup | done | done | lia] |].
  intros [] s3 (t3 & -> & Ht3). cbn [i_inum i_di set_idi] in Ht3. eexists t3, _, _.
  split; [done |]. split; [exact Ht3 |]. pose proof (dinode_wf_clear _ Hw) as Hw'.
  pose proof (cost_add sb L2 (IBLOCK (i_inum i) sb)). split; [| split; [lia | set_solver]].
  destruct (iblock_range _ Hn) as (Hir & _ & Hib & Hibm). split; try done.
  - apply iupdated_same; [done |]. by eapply settled_size.
  - intros j Hjn Hne. rewrite iupdated_other by (done || apply Hw').
    destruct (iblock_range _ Hjn) as (_ & _ & _ & Hb). unfold dinode_at. by rewrite Hk2.
  - eapply (alloc_ext Hg); [| exact Ho2]. intros c Hcb. unfold iupdated. rewrite fn_lookup_insert_ne; [done |].
    by intros <-.
  - intros c HcR. assert (is_data sb c) as Hdc by (by eapply owned_data).
    rewrite iupdated_data by done. by apply Hk2, data_not_bmap.
  - unfold iupdated. rewrite fn_lookup_insert_ne by lia. apply Hk2, meta_1.
Qed.
End file.
