(* ===== verification/FsDisk.v ===== *)
(** * The file system on the disk

    The inode table as a whole: every allocated inode owns its blocks alone,
    the free map is exact, and every file has the blocks its size asks for.
    [writei] and [iput] keep this invariant and touch no other file, and a
    system call that writes a file is atomic with respect to crashes. *)

From stdpp Require Import gmap functions.
From S2P Require Import Prelude Params Bytes Cache Log Tx Fs FsAlloc FsFile.

Section disk.
Context {area : Z -> Prop} {sb : superblock} (Hg : geometry area sb).

Abbreviation inode_of := (dinode_at (sb := sb)).

(** The blocks of inode [j] and of all inodes. *)
Definition owned_by (v : Z -> block) (j : Z) : list Z :=
  if d_type (inode_of v j) =? 0 then [] else fblocks v (d_addrs (inode_of v j)).

Definition owned (v : Z -> block) : list Z :=
  concat ((fun j => owned_by v (Z.of_nat j)) <$> seq 0 (Z.to_nat (sb_ninodes sb))).

(** The blocks of all inodes but [inum]. *)
Definition others (v : Z -> block) (inum : Z) : list Z :=
  concat ((fun j => if decide (Z.of_nat j = inum) then [] else owned_by v (Z.of_nat j)) <$>
    seq 0 (Z.to_nat (sb_ninodes sb))).

Record inode_ok (v : Z -> block) (j : Z) : Prop := {
  io_wf : dinode_wf (inode_of v j);
  io_size : d_size (inode_of v j) <= MAXBYTES;
  io_mapped : d_type (inode_of v j) <> 0 ->
    mapped v (d_addrs (inode_of v j)) (d_size (inode_of v j))
}.

Record disk_ok (v : Z -> block) : Prop := {
  dk_alloc : alloc_ok sb v (owned v);
  dk_sb : sb_of (v 1) = sb;
  dk_inodes : forall j, is_inum (sb := sb) j -> inode_ok v j
}.

(** The contents of file [j]. *)
Definition file_bytes (v : Z -> block) (j : Z) : list Z :=
  fbyte v (d_addrs (inode_of v j)) <$> seqZ 0 (d_size (inode_of v j)).

Lemma owned_split v inum :
  is_inum (sb := sb) inum -> owned v ≡ₚ owned_by v inum ++ others v inum.
Proof.
  intros Hn. unfold is_inum in Hn.
  pose proof (concat_seq_perm (fun j => owned_by v (Z.of_nat j))
    (fun j => if decide (Z.of_nat j = inum) then [] else owned_by v (Z.of_nat j))
    (Z.to_nat (sb_ninodes sb)) (Z.to_nat inum)) as Hp. cbv beta in Hp.
  rewrite Z2Nat.id, decide_True in Hp by (done || lia). symmetry. unfold owned, others. apply Hp; [lia |].
  intros j Hj Hne. rewrite decide_False by lia. done.
Qed.

Lemma others_in v inum j c :
  is_inum (sb := sb) j -> j <> inum -> c ∈ owned_by v j -> c ∈ others v inum.
Proof.
  intros Hj Hne Hc. unfold is_inum in Hj. apply elem_of_concat_seq. exists (Z.to_nat j). split; [lia |].
  rewrite Z2Nat.id, decide_False by lia. done.
Qed.

(** A change that keeps the inode and the blocks of file [j]. *)
Lemma owned_by_ext v v' j :
  inode_of v' j = inode_of v j -> (forall c, c ∈ owned_by v j -> v' c = v c) -> owned_by v' j = owned_by v j.
Proof.
  intros He Hv. unfold owned_by in *. rewrite He. destruct (Z.eqb_spec (d_type (inode_of v j)) 0); [done |].
  apply fblocks_ext. intros c -> Hc. apply Hv. by apply ind_elem.
Qed.

Lemma nth_block_ext v v' addrs k :
  (forall c, c ∈ fblocks v addrs -> v' c = v c) -> nth_block v' addrs k = nth_block v addrs k.
Proof.
  intros Hv. unfold nth_block. destruct (k <? NDIRECT)%nat; [done |].
  destruct (Z.eqb_spec (ind addrs) 0); [done |]. rewrite Hv; [done |]. by apply ind_elem.
Qed.

Lemma inode_ok_ext v v' j :
  inode_of v' j = inode_of v j -> (forall c, c ∈ owned_by v j -> v' c = v c) -> inode_ok v j -> inode_ok v' j.
Proof.
  intros He Hv [H1 H2 H3]. split; rewrite He; [done | done |]. intros Hty o Ho. unfold owned_by in Hv.
  rewrite (proj2 (Z.eqb_neq _ _) Hty) in Hv. rewrite (nth_block_ext v v') by done. by apply H3.
Qed.

Lemma file_bytes_ext v v' j :
  inode_ok v j -> d_type (inode_of v j) <> 0 ->
  inode_of v' j = inode_of v j -> (forall c, c ∈ owned_by v j -> v' c = v c) ->
  file_bytes v' j = file_bytes v j.
Proof.
  intros [H1 H2 H3] Hty He Hv. unfold file_bytes. rewrite He. unfold owned_by in Hv.
  rewrite (proj2 (Z.eqb_neq _ _) Hty) in Hv. apply list_fmap_ext. intros k o [-> Hk]%lookup_seqZ.
  unfold fbyte. rewrite (nth_block_ext v v') by done. rewrite Hv; [done |].
  apply nth_block_elem; [apply blk_no_lt; lia |]. apply H3; [done | lia].
Qed.

(** The file system is the same when inode [inum], its blocks and the free map
    change, as long as the new inode is in order. *)
Lemma others_same v v' inum :
  (forall j, is_inum (sb := sb) j -> j <> inum -> inode_of v' j = inode_of v j) ->
  (forall c, c ∈ others v inum -> v' c = v c) -> others v' inum = others v inum.
Proof.
  intros Hdi HR. unfold others. apply concat_seq_ext. intros j Hj. case_decide as Hne; [done |].
  apply owned_by_ext; [apply Hdi; [unfold is_inum; lia | done] |].
  intros c Hc. apply HR. eapply others_in; [| exact Hne | exact Hc]. unfold is_inum; lia.
Qed.

Lemma disk_ok_change v v' inum :
  disk_ok v -> is_inum (sb := sb) inum -> inode_ok v' inum -> sb_of (v' 1) = sb ->
  (forall j, is_inum (sb := sb) j -> j <> inum -> inode_of v' j = inode_of v j) ->
  (forall c, c ∈ others v inum -> v' c = v c) ->
  alloc_ok sb v' (owned_by v' inum ++ others v inum) ->
  disk_ok v' /\ forall j, is_inum (sb := sb) j -> j <> inum -> d_type (inode_of v j) <> 0 ->
    file_bytes v' j = file_bytes v j.
Proof.
  intros Hd Hn Hi Hsb Hdi HR Ho.
  assert (forall j, is_inum (sb := sb) j -> j <> inum -> forall c, c ∈ owned_by v j -> v' c = v c) as Hkeep.
  { intros j Hj Hne c Hc. apply HR. by eapply others_in. }
  split; [split |].
  - by rewrite (owned_split v' inum Hn), (others_same v v' inum).
  - done.
  - intros j Hj. destruct (decide (j = inum)) as [->|Hne]; [done |].
    apply (inode_ok_ext v); [by apply Hdi | by apply Hkeep | by apply (dk_inodes _ Hd)].
  - intros j Hj Hne Hty. apply file_bytes_ext; [by apply (dk_inodes _ Hd) | done | by apply Hdi | by apply Hkeep].
Qed.

(** ** Bytes as lists *)

Lemma bytes_length v addrs n : length (fbyte v addrs <$> seqZ 0 n) = Z.to_nat n.
Proof. by rewrite length_fmap, length_seqZ. Qed.

Lemma bytes_lookup v addrs n k :
  (k < Z.to_nat n)%nat -> (fbyte v addrs <$> seqZ 0 n) !! k = Some (fbyte v addrs (Z.of_nat k)).
Proof. intros Hk. rewrite list_lookup_fmap, lookup_seqZ_lt by lia. simpl. do 2 f_equal. Qed.

Lemma blit_lookup (d : list Z) off x k :
  (off <= length d)%nat ->
  blit d off x !! k = if decide (off <= k < off + length x)%nat then x !! (k - off)%nat else d !! k.
Proof.
  intros Hl. unfold blit, block. case_decide as Hk.
  - rewrite lookup_app_r by (rewrite length_take; lia). rewrite length_take, lookup_app_l by lia. f_equal. lia.
  - destruct (decide (k < off)%nat).
    + rewrite lookup_app_l by (rewrite length_take; lia). by rewrite lookup_take_lt.
    + rewrite lookup_app_r by (rewrite length_take; lia). rewrite length_take.
      rewrite lookup_app_r by lia. rewrite lookup_drop. f_equal. lia.
Qed.

Lemma written_bytes R v inum di off src v' di' :
  dinode_wf di -> 0 <= off <= d_size di ->
  file_written (sb := sb) R v inum di off src v' di' ->
  fbyte v' (d_addrs di') <$> seqZ 0 (d_size di') =
  blit (fbyte v (d_addrs di) <$> seqZ 0 (d_size di)) (Z.to_nat off) src.
Proof.
  intros Hw Hoff [H1 _ _ _ _ _ _ _ _ H10]. pose proof (dw_size _ Hw). apply list_eq. intros k.
  rewrite blit_lookup by (rewrite bytes_length; lia).
  destruct (decide (k < Z.to_nat (d_size di'))%nat) as [Hk|Hk].
  - rewrite bytes_lookup, H10 by lia. case_decide as Hc.
    + rewrite decide_True by lia. replace (Z.to_nat (Z.of_nat k - off)) with (k - Z.to_nat off)%nat by lia.
      unfold byte_at. destruct (lookup_lt_is_Some_2 src (k - Z.to_nat off)) as [x Hx]; [lia |]. by rewrite Hx.
    + rewrite decide_False by lia. by rewrite bytes_lookup by lia.
  - rewrite decide_False by lia. rewrite !lookup_ge_None_2; [done | rewrite bytes_length; lia ..].
Qed.
End disk.

(** ** Operations on files *)

Section ops.
Context {T : Type} {area : Z -> Prop} {cap : nat} `{TxSpec T area cap}.
Context {sb : superblock} (Hg : geometry area sb).
Context `{!DevSw (T := T)}.

(** Entry [ip] of the inode cache holds inode [inum] as it is on the disk. *)
Record cached (s : fs T) (ip : nat) (i : inode) (v : Z -> block) (inum : Z) : Prop := {
  ca_sb : fs_sb s = sb;
  ca_at : fs_ic s !! ip = Some i;
  ca_dev : i_dev i = 1;
  ca_inum : i_inum i = inum;
  ca_range : is_inum (sb := sb) inum;
  ca_di : i_di i = dinode_at (sb := sb) v inum
}.

(** Files that an operation on [inum] leaves alone. *)
Definition untouched (v v' : Z -> block) (inum : Z) : Prop :=
  forall j, is_inum (sb := sb) j -> j <> inum ->
    dinode_at (sb := sb) v' j = dinode_at (sb := sb) v j /\
    (d_type (dinode_at (sb := sb) v j) <> 0 -> file_bytes (sb := sb) v' j = file_bytes (sb := sb) v j).

(** [n] bytes at [off] need no new blocks, or the disk has those the file
    lacks for them. *)
Definition enough (v : Z -> block) (inum off n : Z) : Prop :=
  let a := d_addrs (dinode_at (sb := sb) v inum) in
  off + n <= d_size (dinode_at (sb := sb) v inum) \/
  Z.of_nat (length (owned (sb := sb) v) + spare a + lack v a off (off + n)) <= sb_nblocks sb.

Lemma enough_less v inum off n n' :
  0 <= off -> 0 <= n' <= n -> enough v inum off n -> enough v inum off n'.
Proof.
  intros Ho Hn. unfold enough. cbv zeta. set (a := d_addrs _).
  pose proof (lack_head v a off (off + n) (off + n') Ho ltac:(lia)). intros [Hle|Hfree]; [left | right]; lia.
Qed.

Lemma owned_alloc v inum :
  disk_ok (sb := sb) v -> is_inum (sb := sb) inum -> d_type (dinode_at (sb := sb) v inum) <> 0 ->
  owned (sb := sb) v ≡ₚ fblocks v (d_addrs (dinode_at (sb := sb) v inum)) ++ others (sb := sb) v inum.
Proof.
  intros Hd Hn Hty. rewrite (owned_split v inum Hn). unfold owned_by. by rewrite (proj2 (Z.eqb_neq _ _) Hty).
Qed.

Lemma writei_disk s ip i v inum L src off n :
  settled (fs_tx s) v ∅ L -> cached s ip i v inum -> disk_ok (sb := sb) v ->
  d_type (i_di i) <> 0 -> d_type (i_di i) <> T_DEV ->
  0 <= off <= d_size (i_di i) -> 0 <= n <= Z.of_nat (length src) -> off + n <= MAXBYTES ->
  (cost sb L + nblk off n + 2 <= cap)%nat -> enough v inum off n ->
  runs (writei ip src off n) s (fun r s' => r = n /\ exists t v' L',
    let di' := dinode_at (sb := sb) v' inum in
    s' = set_tx t (put_inode ip (set_idi di' i) s) /\ settled t v' ∅ L' /\
    cached s' ip (set_idi di' i) v' inum /\ disk_ok (sb := sb) v' /\
    d_type di' = d_type (i_di i) /\ d_nlink di' = d_nlink (i_di i) /\
    file_bytes (sb := sb) v' inum = blit (file_bytes (sb := sb) v inum) (Z.to_nat off) (take (Z.to_nat n) src) /\
    untouched v v' inum /\ (cost sb L' <= cost sb L + nblk off n + 2)%nat /\
    forall m, off + n + m <= MAXBYTES -> 0 <= m -> enough v inum off (n + m) -> enough v' inum (off + n) m).
Proof.
  intros Hs [Hsb Hi Hdev Hin Hn Hdi] Hd Hty Hnd Hoff Hsrc Hend Hc Hen. subst inum. rewrite Hdi in *.
  pose proof (dk_inodes _ Hd _ Hn) as [Hw Hmx Hmap].
  pose proof (dk_alloc _ Hd) as Ho. rewrite (owned_alloc v _ Hd Hn Hty) in Ho.
  pose proof (icost_cost Hg (d_addrs (dinode_at (sb := sb) v (i_inum i))) L) as Hic.
  eapply runs_mono; [eapply (writei_spec Hg s ip i (others (sb := sb) v (i_inum i)) Hsb Hi Hdev v L src off n); rewrite ?Hdi; try done; [by apply Hmap | | ] |].
  { lia. }
  { destruct Hen as [Hle|Hfree]; [left; intros o Hb; apply Hmap; [done | lia] | right].
    by rewrite <- (owned_alloc v _ Hd Hn Hty). }
  rewrite Hdi. intros r s' (t & v' & di' & L' & -> & -> & Ht & Hfw & Hcost & _). split; [done |].
  pose proof (fw_disk _ _ _ _ _ _ _ _ Hfw eq_refl) as Hdi'. exists t, v', L'. cbv zeta. rewrite Hdi'.
  pose proof (fw_fields _ _ _ _ _ _ _ _ Hfw) as (Hty' & _ & _ & Hnl).
  destruct (disk_ok_change (sb := sb) v v' (i_inum i)) as [Hd' Hfiles]; try done.
  - split; rewrite Hdi'; [apply Hfw | | intros _; apply Hfw]. rewrite (fw_size _ _ _ _ _ _ _ _ Hfw).
    rewrite length_take. lia.
  - rewrite (fw_sb _ _ _ _ _ _ _ _ Hfw). apply Hd.
  - apply Hfw.
  - apply Hfw.
  - unfold owned_by. rewrite Hdi', Hty', (proj2 (Z.eqb_neq _ _) Hty). apply Hfw.
  - split; [done |]. split; [done |]. split.
    { split; try done. by eapply put_inode_lookup. }
    do 3 (split; [done |]). split; [| split; [| split; [lia |]]].
    + unfold file_bytes. rewrite Hdi'. by eapply written_bytes.
    + intros j Hj Hne. split; [by apply Hfw |]. by apply Hfiles.
    + intros m Hm Hm0. assert (length (take (Z.to_nat n) src) = Z.to_nat n) as Hlt by (rewrite length_take; lia).
      unfold enough. cbv zeta. rewrite Hdi', (fw_size _ _ _ _ _ _ _ _ Hfw), Hlt. intros [Hle|Hfree]; [left; lia | right].
      pose proof (fw_count _ _ _ _ _ _ _ _ Hfw (off + n + m)) as Hcount. rewrite Hlt, Z2Nat.id in Hcount by lia.
      specialize (Hcount ltac:(lia)). replace (off + (n + m)) with (off + n + m) in Hfree by lia.
      rewrite (owned_alloc v' _ Hd' Hn) by (by rewrite Hdi', Hty'). rewrite Hdi', length_app.
      rewrite (owned_alloc v _ Hd Hn Hty), length_app in Hfree.
      rewrite (others_same v v' (i_inum i)); [lia | apply Hfw | apply Hfw].
Qed.

Lemma readi_disk s ip i v inum L off n :
  settled (fs_tx s) v ∅ L -> cached s ip i v inum -> disk_ok (sb := sb) v ->
  d_type (i_di i) <> 0 -> d_type (i_di i) <> T_DEV ->
  0 <= off <= d_size (i_di i) -> 0 <= n -> off + n < 4294967296 ->
  let x := take (Z.to_nat n) (drop (Z.to_nat off) (file_bytes (sb := sb) v inum)) in
  runs (readi ip off n) s (fun r s' => r = (Z.of_nat (length x), x) /\ exists t,
    s' = set_tx t s /\ settled t v ∅ L).
Proof.
  intros Hs [Hsb Hi Hdev Hin Hn Hdi] Hd Hty Hnd Hoff Hsrc Hend x. subst inum. rewrite Hdi in *.
  pose proof (dk_inodes _ Hd _ Hn) as [Hw Hmx Hmap]. pose proof (dw_len _ Hw) as Hl.
  pose proof (dk_alloc _ Hd) as Ho. rewrite (owned_alloc v _ Hd Hn Hty) in Ho.
  pose proof (readi_spec Hg s ip i (others (sb := sb) v (i_inum i)) Hsb Hi Hdev (fs_tx s) v
    (d_addrs (i_di i)) L off n) as Hr.
  rewrite after_same, Hdi in Hr by done. replace (set_tx (fs_tx s) s) with s in Hr by (by destruct s).
  eapply runs_mono; [apply Hr; try done; by apply Hmap |].
  assert (x = fbyte v (d_addrs (dinode_at (sb := sb) v (i_inum i))) <$>
    seqZ off (n `min` (d_size (dinode_at (sb := sb) v (i_inum i)) - off))) as Hx.
  { apply list_eq. intros k. subst x. unfold file_bytes.
    destruct (decide (k < Z.to_nat (n `min` (d_size (dinode_at (sb := sb) v (i_inum i)) - off)))%nat) as [Hk|Hk].
    - rewrite lookup_take_lt, lookup_drop, bytes_lookup, list_lookup_fmap, lookup_seqZ_lt by lia.
      simpl. do 2 f_equal. lia.
    - rewrite !lookup_ge_None_2; [done | |].
      + rewrite length_fmap, length_seqZ. lia.
      + rewrite length_take, length_drop, bytes_length. lia. }
  intros r s' (t & -> & Ht & ->). split.
  - rewrite Hx at 1. rewrite length_fmap, length_seqZ. rewrite Z2Nat.id by lia. by rewrite Hx.
  - exists t. split; [| done]. by rewrite <- Hdi, after_same.
Qed.

(** ** iput *)

Lemma iacquire_spec (s : fs T) ip i (Q : unit -> fs T -> Prop) :
  fs_ic s !! ip = Some i -> i_locked i = false -> Q tt (put_inode ip (set_ilocked true i) s) -> runs (iacquire ip) s Q.
Proof.
  intros Hi Hl HQ. unfold iacquire. eapply runs_inode_at; [done |]. rewrite Hl. by eapply runs_upd_inode.
Qed.

Lemma irelease_spec (s : fs T) ip i (Q : unit -> fs T -> Prop) :
  fs_ic s !! ip = Some i -> Q tt (put_inode ip (set_ilocked false i) s) -> runs (irelease ip) s Q.
Proof. intros Hi HQ. unfold irelease. eapply runs_inode_at; [done |]. by eapply runs_upd_inode. Qed.

Lemma put_lookup ip i i' (s : fs T) : fs_ic s !! ip = Some i -> fs_ic (put_inode ip i' s) !! ip = Some i'.
Proof. intros Hi. simpl. apply list_lookup_insert_eq. by eapply lookup_lt_Some. Qed.

(** [iput] of an inode that has other references or links only drops the
    reference. *)
Lemma iput_keep s ip i (Q : unit -> fs T -> Prop) :
  fs_ic s !! ip = Some i -> i_locked i = false -> 1 <= i_ref i < 2147483648 ->
  i_valid i = 0 \/ d_nlink (i_di i) <> 0 \/ i_ref i <> 1 ->
  Q tt (put_inode ip (set_iref (i_ref i - 1) i) s) -> runs (iput ip) s Q.
Proof.
  intros Hi Hl Href Hk HQ. unfold iput. apply runs_bind, (iacquire_spec _ _ i); [done | done |].
  eapply runs_inode_at; [by eapply put_lookup |]. cbn [i_valid i_di i_ref set_ilocked].
  assert (negb (i_valid i =? 0) && (d_nlink (i_di i) =? 0) && (i_ref i =? 1) = false) as ->.
  { bool_cases; simpl; try done; lia. }
  apply runs_bind, runs_ret, runs_bind. eapply irelease_spec; [by eapply put_lookup |].
  eapply runs_upd_inode; [eapply put_lookup; by eapply put_lookup |].
  rewrite !put_inode_twice. cbn [i_ref set_ilocked]. rewrite i32_small by lia.
  replace (set_iref (i_ref i - 1) (set_ilocked false (set_ilocked true i))) with (set_iref (i_ref i - 1) i); [done |].
  destruct i. simpl in *. by subst.
Qed.

Lemma released_entry i d1 d2 :
  i_ref i = 1 -> i_dev i = 1 ->
  set_iref (i32 (i_ref i - 1)) (set_ilocked false (set_ivalid 0 (set_idi d2 (set_idi d1 (set_ilocked true i))))) =
  mkInode 1 (i_inum i) 0 false 0 d2.
Proof. destruct i. simpl. by intros -> ->. Qed.

(** The last [iput] of an inode without links frees it and its blocks. *)
Lemma iput_free s ip i v inum L :
  settled (fs_tx s) v ∅ L -> cached s ip i v inum -> disk_ok (sb := sb) v ->
  i_locked i = false -> i_ref i = 1 -> i_valid i <> 0 -> d_type (i_di i) <> 0 -> d_nlink (i_di i) = 0 ->
  (cost sb L + 2 <= cap)%nat ->
  runs (iput ip) s (fun _ s' => exists t v' L' di', s' = set_tx t (put_inode ip (mkInode 1 inum 0 false 0 di') s) /\
    settled t v' ∅ L' /\ disk_ok (sb := sb) v' /\ d_type (dinode_at (sb := sb) v' inum) = 0 /\
    owned (sb := sb) v' ≡ₚ others (sb := sb) v inum /\ untouched v v' inum).
Proof.
  intros Hs [Hsb Hi Hdev Hin Hn Hdi] Hd Hl Href Hv Hty Hnl Hc. subst inum.
  pose proof (dk_inodes _ Hd _ Hn) as [Hw Hmx Hmap].
  pose proof (dk_alloc _ Hd) as Ho. rewrite (owned_alloc v _ Hd Hn) in Ho by (by rewrite <- Hdi).
  unfold iput. apply runs_bind, (iacquire_spec _ _ i); [done | done |].
  eapply runs_inode_at; [by eapply put_lookup |]. cbn [i_valid i_di i_ref set_ilocked].
  rewrite Hnl, Href, (proj2 (Z.eqb_neq _ _) Hv). cbn [Z.eqb negb andb Pos.eqb]. apply runs_bind, runs_bind.
  set (i1 := set_ilocked true i). set (s1 := put_inode ip i1 s).
  assert (fs_ic s1 !! ip = Some i1) as Hi1 by (by eapply put_lookup).
  eapply runs_mono; [eapply (itrunc_spec Hg s1 ip i1 (others (sb := sb) v (i_inum i)) Hsb Hi1 Hdev v L Hs Hn) |].
  { by rewrite <- Hdi in Hw. } { apply Hd. } { by rewrite <- Hdi in Ho. } { lia. }
  intros [] s2 (t2 & v2 & L2 & -> & Ht2 & Htr & Hc2 & _). apply runs_bind.
  set (di := set_dsize 0 (set_daddrs (replicate (S NDIRECT) 0) (i_di i1))) in *.
  eapply runs_upd_inode; [by eapply put_inode_lookup |]. apply runs_bind.
  assert (forall t x y, put_inode ip x (set_tx t (put_inode ip y s1)) = set_tx t (put_inode ip x s)) as Hput.
  { intros t x y. unfold s1, put_inode, set_ic, set_tx. cbn [fs_ic fs_tx fs_sb]. by rewrite !list_insert_insert_eq. }
  rewrite Hput. set (i3 := set_idi (set_dtype 0 (i_di (set_idi di i1))) (set_idi di i1)).
  eapply runs_mono; [eapply (iupdate_spec Hg _ ip i3 v2 L2); [exact Ht2 | done | by eapply put_inode_lookup | done | done | lia] |].
  intros [] s3 (t3 & -> & Ht3). cbn [i_inum i_di set_idi i3] in Ht3. set (v3 := iupdated _ _ _) in Ht3.
  eapply runs_upd_inode; [by eapply put_inode_lookup |]. apply runs_bind.
  eapply irelease_spec; [eapply put_lookup; by eapply put_inode_lookup |].
  eapply runs_upd_inode; [eapply put_lookup; eapply put_lookup; by eapply put_inode_lookup |].
  pose proof (dw_len _ (tr_wf _ _ _ _ _ _ Htr)) as Hlen.
  assert (dinode_at (sb := sb) v3 (i_inum i) = set_dtype 0 di) as Hdi3.
  { apply iupdated_same; [| by eapply settled_size]. destruct (tr_wf _ _ _ _ _ _ Htr). split; done. }
  assert (alloc_ok sb v3 (others (sb := sb) v (i_inum i))) as Ho3.
  { pose proof (tr_alloc _ _ _ _ _ _ Htr) as Ho2. eapply (alloc_ext Hg); [| exact Ho2]. intros c Hcb. unfold v3, iupdated.
    rewrite fn_lookup_insert_ne; [done |]. intros <-. by apply (iblock_range Hg _ Hn) in Hcb. }
  assert (owned_by (sb := sb) v3 (i_inum i) = []) as Hown by (unfold owned_by; by rewrite Hdi3).
  destruct (disk_ok_change (sb := sb) v v3 (i_inum i)) as [Hd' Hfiles]; try done.
  - split; rewrite Hdi3; [| unfold MAXBYTES; simpl; lia | done].
    destruct (tr_wf _ _ _ _ _ _ Htr). split; done.
  - unfold v3, iupdated. destruct (iblock_range Hg _ Hn) as (Hr & _).
    rewrite fn_lookup_insert_ne by (change (IBLOCK (i_inum i) sb <> 1); lia). rewrite (tr_sb _ _ _ _ _ _ Htr). apply Hd.
  - intros j Hj Hne. unfold v3. rewrite iupdated_other by done. by apply Htr.
  - intros c Hcin. unfold v3. rewrite (iupdated_data Hg); [by apply Htr | done |].
    eapply owned_data; [exact Ho3 | done].
  - by rewrite Hown.
  - eexists t3, v3, _, _. split; [| split; [exact Ht3 |]; split; [done |]; split; [by rewrite Hdi3 |]; split].
    + unfold put_inode, set_ic, set_tx, i3, i1. cbn [fs_ic fs_tx fs_sb]. rewrite !list_insert_insert_eq.
      do 2 f_equal. by apply (released_entry i di).
    + rewrite (owned_split v3 _ Hn), Hown. simpl.
      replace (others (sb := sb) v3 (i_inum i)) with (others (sb := sb) v (i_inum i)); [done |].
      unfold others. apply concat_seq_ext. intros j Hj. case_decide; [done |]. symmetry. apply owned_by_ext.
      * unfold v3. rewrite iupdated_other by (done || unfold is_inum; lia). apply Htr; [unfold is_inum; lia | done].
      * intros c Hcin. assert (c ∈ others (sb := sb) v (i_inum i)) as Hco
          by (eapply others_in; [| | exact Hcin]; [unfold is_inum; lia | done]).
        unfold v3. rewrite (iupdated_data Hg); [by apply Htr | done |]. eapply owned_data; [exact Ho3 | done].
    + intros j Hj Hne. split; [| by apply Hfiles]. unfold v3. rewrite iupdated_other by done. by apply Htr.
Qed.
End ops.

(** ** Locking an inode *)

Section lock.
Context {T : Type} {area : Z -> Prop} {cap : nat} `{TxSpec T area cap}.
Context {sb : superblock} (Hg : geometry area sb).

(** Entry [ip] refers to inode [inum] and, once it has been read, is what the
    disk holds. *)
Record entry (s : fs T) (ip : nat) (i : inode) (v : Z -> block) (inum : Z) : Prop := {
  en_sb : fs_sb s = sb;
  en_at : fs_ic s !! ip = Some i;
  en_dev : i_dev i = 1;
  en_inum : i_inum i = inum;
  en_range : is_inum (sb := sb) inum;
  en_ref : 1 <= i_ref i < 2147483648;
  en_valid : i_valid i = 0 \/ i_di i = dinode_at (sb := sb) v inum
}.

(** The entry while [ilock] holds it. *)
Definition locked_inode (i : inode) (v : Z -> block) : inode :=
  mkInode (i_dev i) (i_inum i) (i_ref i) true (if i_valid i =? 0 then 1 else i_valid i)
    (dinode_at (sb := sb) v (i_inum i)).

Lemma ilock_spec s ip i v inum L :
  settled (fs_tx s) v ∅ L -> entry s ip i v inum -> i_locked i = false ->
  d_type (dinode_at (sb := sb) v inum) <> 0 ->
  runs (ilock (Some ip)) s (fun _ s' => exists t,
    s' = set_tx t (put_inode ip (locked_inode i v) s) /\ settled t v ∅ L).
Proof.
  intros Hs [Hsb Hi Hdev Hin Hn Href Hval] Hl Hty. subst inum. unfold ilock. eapply runs_inode_at; [done |].
  rewrite (proj2 (Z.ltb_ge _ _)) by lia. apply runs_bind, (iacquire_spec _ _ i); [done | done |].
  unfold locked_inode. destruct (Z.eqb_spec (i_valid i) 0) as [Hz|Hnz].
  - apply runs_bind, runs_get. rewrite Hdev. destruct (iblock_range Hg _ Hn) as (_ & Ha & _).
    replace (fs_sb (put_inode ip (set_ilocked true i) s)) with sb by (by rewrite <- Hsb).
    eapply fs_bread; [exact Hs | done | apply unheld_empty | apply held_none |]. intros bp t1 Ht1 _.
    eapply fs_bdata; [exact Ht1 | apply lookup_insert_eq |]. intros t2 Ht2. cbv zeta.
    fold (dinode_at (sb := sb) v (i_inum i)). apply runs_bind.
    eapply runs_upd_inode; [simpl; by eapply put_lookup |]. apply runs_bind.
    eapply fs_brelse; [exact Ht2 | done |]. intros t3 Ht3. apply runs_bind.
    eapply runs_upd_inode; [simpl; apply list_lookup_insert_eq; rewrite length_insert; by eapply lookup_lt_Some |].
    rewrite (proj2 (Z.eqb_neq _ _) Hty). apply runs_ret. exists t3. split; [| done].
    unfold put_inode, set_ic, set_tx. cbn [fs_ic fs_tx fs_sb]. rewrite !list_insert_insert_eq.
    do 2 f_equal. destruct i. simpl in *. by subst.
  - apply runs_ret. exists (fs_tx s). split; [| done]. destruct Hval as [?|Hdi]; [done |].
    rewrite <- Hdi. destruct s, i. reflexivity.
Qed.

Lemma iunlock_spec (s : fs T) ip i (Q : unit -> fs T -> Prop) :
  fs_ic s !! ip = Some i -> i_locked i = true -> 1 <= i_ref i ->
  Q tt (put_inode ip (set_ilocked false i) s) -> runs (iunlock (Some ip)) s Q.
Proof.
  intros Hi Hl Href HQ. unfold iunlock. eapply runs_inode_at; [done |]. rewrite Hl. simpl.
  rewrite (proj2 (Z.ltb_ge _ _)) by lia. by eapply irelease_spec.
Qed.

Lemma locked_cached s ip i v inum t :
  entry s ip i v inum ->
  cached (sb := sb) (set_tx t (put_inode ip (locked_inode i v) s)) ip (locked_inode i v) v inum.
Proof. intros [Hsb Hi Hdev Hin Hn Href Hval]. subst inum. split; try done. by eapply put_inode_lookup. Qed.
End lock.
