(* ===== verification/FsDemo.v ===== *)
(** * A small file system

    A disk of 200 blocks with a root directory, a file and a directory, laid
    out the way mkfs.c lays out a disk: the concrete case at which the
    theorems about the file system are applied. *)

From stdpp Require Import gmap functions.
From S2P Require Import Prelude CString Params Bytes Cache Bio Log Tx Fs FsAlloc FsFile FsDisk.

(** Boot block, super block, 30 log blocks, two inode blocks, one block of the
    free map, 165 data blocks. *)
Definition demo_sb : superblock := mkSb 200 165 16 30 2 32 34.

Definition pad (n : nat) (x : list Z) : list Z := take n (x ++ replicate n 0).

Definition demo_name (name : list Z) (inum : Z) : list Z := [inum; 0] ++ pad 14 name.

Definition demo_inode (type size addr : Z) : dinode :=
  mkDinode type 0 0 1 size (addr :: replicate 12 0).

(** An executable file with one segment: four bytes for address 0, in a
    segment of eight. *)
Definition demo_prog : list Z :=
  [0x7f; 0x45; 0x4c; 0x46] ++ replicate 12 0 ++ [2; 0; 3; 0] ++ [1; 0; 0; 0] ++ replicate 4 0 ++ [52; 0; 0; 0] ++
  replicate 8 0 ++ [52; 0; 32; 0; 1; 0; 0; 0; 0; 0; 0; 0] ++
  [1; 0; 0; 0] ++ [84; 0; 0; 0] ++ replicate 8 0 ++ [4; 0; 0; 0] ++ [8; 0; 0; 0] ++ [7; 0; 0; 0] ++ [0; 16; 0; 0] ++
  [0xb8; 1; 0x90; 0x90].

(** Inode 1 is the root with the entries ".", "..", "a" and "b"; inode 2 is
    the program "a"; inode 3 is the directory "b". *)
Definition demo_root : list Z :=
  demo_name [46] 1 ++ demo_name [46; 46] 1 ++ demo_name [97] 2 ++ demo_name [98] 3.
Definition demo_sub : list Z := demo_name [46] 3 ++ demo_name [46; 46] 1.

Definition demo_disk (bn : Z) : block :=
  if bn =? 1 then put32s (replicate BSIZE 0) 0 [200; 165; 16; 30; 2; 32; 34]
  else if bn =? 32 then
    dinode_put (dinode_put (dinode_put (replicate BSIZE 0) 64 (demo_inode T_DIR 64 35))
      128 (demo_inode T_FILE 88 36)) 192 (demo_inode T_DIR 32 37)
  else if bn =? 34 then pad BSIZE [255; 255; 255; 255; 63]
  else if bn =? 35 then pad BSIZE demo_root
  else if bn =? 36 then pad BSIZE demo_prog
  else if bn =? 37 then pad BSIZE demo_sub
  else replicate BSIZE 0.

Lemma pad_length n x : length (pad n x) = n.
Proof. unfold pad. rewrite length_take, length_app, length_replicate. lia. Qed.

Lemma demo_size bn : length (demo_disk bn) = BSIZE.
Proof.
  unfold demo_disk. repeat case_match; rewrite ?dinode_put_length, ?length_put32s, ?length_replicate, ?pad_length; done.
Qed.

Lemma demo_geometry : geometry (home 200 2 30) demo_sb.
Proof.
  split; unfold dstart; simpl; try rewrite IPB_eq; try rewrite BPB_eq.
  - lia.
  - repeat split; lia.
  - repeat split; lia.
  - intros b Hb. unfold home, on_disk. lia.
Qed.

Lemma demo_owned : owned (sb := demo_sb) demo_disk = [35; 36; 37].
Proof. vm_compute. reflexivity. Qed.

(** Whether the free map has the blocks below 38 in use. *)
Lemma demo_bits : forallb (fun b => eqb (bit demo_sb demo_disk b) (b <? 38)) (seqZ 0 200) = true.
Proof. vm_compute. reflexivity. Qed.

Lemma demo_alloc : alloc_ok demo_sb demo_disk [35; 36; 37].
Proof.
  split.
  - intros b Hb. simpl in Hb. pose proof demo_bits as Hall. rewrite forallb_forall in Hall.
    specialize (Hall b). rewrite <- list_elem_of_In, elem_of_seqZ in Hall. apply Hall, eqb_prop in Hb as ->.
    unfold dstart. simpl. rewrite Z.ltb_ge, !not_elem_of_cons. pose proof (not_elem_of_nil (A := Z) b). intuition lia.
  - apply (bool_decide_unpack _). vm_compute. exact I.
  - unfold is_data, dstart. simpl. repeat constructor; lia.
Qed.

Lemma demo_inodes :
  dinode_at (sb := demo_sb) demo_disk <$> seqZ 0 16 =
  [mkDinode 0 0 0 0 0 (replicate 13 0); demo_inode T_DIR 64 35; demo_inode T_FILE 88 36; demo_inode T_DIR 32 37] ++
  replicate 12 (mkDinode 0 0 0 0 0 (replicate 13 0)).
Proof. vm_compute. reflexivity. Qed.

Lemma demo_inode_cases j :
  is_inum (sb := demo_sb) j ->
  let di := dinode_at (sb := demo_sb) demo_disk j in
  di = mkDinode 0 0 0 0 0 (replicate 13 0) \/
  exists type size addr, di = demo_inode type size addr /\ 0 < type < 4 /\ 0 <= size <= 88 /\ 0 < addr < 200.
Proof.
  intros Hj di. unfold is_inum in Hj. simpl in Hj.
  assert (di ∈ (dinode_at (sb := demo_sb) demo_disk <$> seqZ 0 16)) as Hin.
  { apply list_elem_of_fmap. exists j. split; [done |]. apply elem_of_seqZ. lia. }
  rewrite demo_inodes, elem_of_app, !elem_of_cons, elem_of_nil in Hin.
  destruct Hin as [[->|[->|[->|[->|[]]]]]|Hin%elem_of_replicate_inv]; [by left | right | right | right | by left].
  1-3: eexists _, _, _; split; [reflexivity |]; unfold T_DIR, T_FILE; lia.
Qed.

Lemma demo_inode_ok j : is_inum (sb := demo_sb) j -> inode_ok (sb := demo_sb) demo_disk j.
Proof.
  intros Hj. destruct (demo_inode_cases j Hj) as [He|(type & size & addr & He & Ht & Hs & Ha)];
    cbv zeta in He; split; rewrite He; try done.
  - split; simpl; try lia; repeat constructor; lia.
  - split; simpl; try lia; repeat constructor; lia.
  - unfold MAXBYTES. simpl. lia.
  - intros _ o Ho. simpl in Ho. unfold blk_no. rewrite Z.div_small by lia. change (addr <> 0). lia.
Qed.

Lemma demo_disk_ok : disk_ok (sb := demo_sb) demo_disk.
Proof.
  split.
  - rewrite demo_owned. apply demo_alloc.
  - vm_compute. reflexivity.
  - apply demo_inode_ok.
Qed.

(** No device has routines. *)
Definition no_devices (T : Type) : DevSw (T := T) := {| dev_read _ := None; dev_write _ := None |}.

(** The system after boot from this disk: process, open file and inode cache
    tables, with inode [inum] in entry 0 of the inode cache. *)
Definition demo_icache (inum : Z) (valid : Z) : list inode :=
  mkInode 1 inum 1 false valid (dinode_at (sb := demo_sb) demo_disk inum) ::
  replicate 49 (mkInode 0 0 0 false 0 (mkDinode 0 0 0 0 0 (replicate 13 0))).

Definition demo_fs (inum : Z) : fs (log bio) := mkFs (boot_on demo_disk 30) demo_sb (demo_icache inum 1).

Lemma demo_logged : logged (H0 := bio_spec 200) (boot_on demo_disk 30) demo_disk demo_disk [] [].
Proof. apply boot_on_logged; [lia | apply demo_size | reflexivity]. Qed.

Lemma demo_entry inum :
  is_inum (sb := demo_sb) inum -> entry (sb := demo_sb) (demo_fs inum) 0
    (mkInode 1 inum 1 false 1 (dinode_at (sb := demo_sb) demo_disk inum)) demo_disk inum.
Proof. intros Hn. split; try done. by right. Qed.
