(* ===== verification/FsDir.v ===== *)
(** * Directories and path names (fs.c: dirlookup, dirlink, namex)

    Directories as lists of entries, path resolution as a walk over them, and
    the reference counts of the inode cache: [namei] finds the inode that the
    directories on the disk name, and holds exactly one reference to it when
    it returns. *)

From stdpp Require Import gmap functions.
From S2P Require Import Prelude CString Params Bytes Cache Log Tx Fs FsAlloc FsFile FsDisk FsDemo Bio.

(** ** Names *)

(** The string in a name field or a [char name[DIRSIZ]] buffer: up to its NUL
    and at most DIRSIZ bytes. *)
Fixpoint name_str (b : list Z) (n : nat) : list Z :=
  match n with
  | O => []
  | S n' => if byte_at b 0 =? 0 then [] else byte_at b 0 :: name_str (drop 1 b) n'
  end.

Lemma strncmp_bytes_eq n : forall p q, strncmp_bytes p q n = 0 <-> name_str p n = name_str q n.
Proof.
  induction n as [|n IH]; intros p q; [done |]. cbn [strncmp_bytes name_str].
  destruct (Z.eqb_spec (byte_at p 0) 0) as [Hp|Hp], (Z.eqb_spec (byte_at q 0) 0) as [Hq|Hq]; simpl.
  - rewrite Hp, Hq. done.
  - split; [lia | done].
  - destruct (Z.eqb_spec (byte_at p 0) (byte_at q 0)); [congruence |]. split; [lia | done].
  - destruct (Z.eqb_spec (byte_at p 0) (byte_at q 0)) as [He|Hne].
    + rewrite IH, He. split; [by intros -> | by intros [= ->]].
    + split; [lia | intros [= ? _]; done].
Qed.

Lemma namecmp_eq s t : (namecmp s t =? 0) = bool_decide (name_str s DIRSIZ = name_str t DIRSIZ).
Proof. unfold namecmp. apply eq_true_iff_eq. rewrite Z.eqb_eq, bool_decide_eq_true. apply strncmp_bytes_eq. Qed.

(** What [strncpy] puts into the name field is that string. *)
Lemma byte_at_cons x l : byte_at (x :: l) 0 = x. Proof. done. Qed.

Lemma strncpy_name n : forall t, name_str (strncpy_bytes t n) n = name_str t n /\ length (strncpy_bytes t n) = n.
Proof.
  induction n as [|n IH]; intros t; [done |]. cbn [strncpy_bytes name_str].
  destruct (Z.eqb_spec (byte_at t 0) 0) as [Hz|Hnz].
  - split; [done | apply length_replicate].
  - destruct (IH (drop 1 t)) as [H1 H2]. rewrite byte_at_cons, (proj2 (Z.eqb_neq _ _) Hnz). simpl drop at 1.
    cbn [length]. rewrite H2. split; [| done]. f_equal. exact H1.
Qed.

(** ** Path elements *)

Lemma skip_slashes_eq p : skip_slashes p = skip_delims [SLASH] p.
Proof.
  induction p as [|c p IH]; [done |]. cbn [skip_slashes skip_delims]. unfold delimb.
  destruct (Z.eqb_spec c SLASH) as [->|Hne].
  - rewrite bool_decide_eq_true_2 by (by left). done.
  - rewrite bool_decide_eq_false_2; [done |]. by rewrite list_elem_of_singleton.
Qed.

Lemma elem_len_eq p : Forall (fun c => c <> 0) p -> elem_len p = tok_len [SLASH] p.
Proof.
  induction p as [|c p IH]; intros Hp; [done |]. apply Forall_cons in Hp as [Hc Hp]. cbn [elem_len tok_len].
  unfold delimb. rewrite (proj2 (Z.eqb_neq _ _) Hc), orb_false_r. destruct (Z.eqb_spec c SLASH) as [->|Hne].
  - rewrite bool_decide_eq_true_2 by (by left). done.
  - rewrite bool_decide_eq_false_2 by (by rewrite list_elem_of_singleton). by rewrite IH.
Qed.

Lemma name_str_app n x rest :
  Forall (fun c => c <> 0) x -> name_str (x ++ 0 :: rest) n = take n x.
Proof.
  revert x. induction n as [|n IH]; intros x Hx; [by rewrite take_0 |]. destruct x as [|c x]; [done |].
  apply Forall_cons in Hx as [Hc Hx]. cbn [name_str app]. rewrite byte_at_cons, (proj2 (Z.eqb_neq _ _) Hc).
  change (drop 1 (c :: x ++ 0 :: rest)) with (x ++ 0 :: rest). by rewrite IH.
Qed.

Lemma name_str_take n x rest :
  Forall (fun c => c <> 0) x -> (n <= length x)%nat -> name_str (take n x ++ rest) n = take n x.
Proof.
  revert x. induction n as [|n IH]; intros x Hx Hl; [by rewrite take_0 |]. destruct x as [|c x]; [simpl in Hl; lia |].
  apply Forall_cons in Hx as [Hc Hx]. rewrite firstn_cons. cbn [name_str app]. rewrite byte_at_cons, (proj2 (Z.eqb_neq _ _) Hc).
  change (drop 1 (c :: take n x ++ rest)) with (take n x ++ rest). rewrite IH; [done | done | simpl in Hl; lia].
Qed.

(** [skipelem] takes the elements of the path one by one. *)
Lemma skipelem_spec path name :
  Forall (fun c => c <> 0) path ->
  match skipelem path name with
  | None => tokens [SLASH] path = []
  | Some (rest, name') => exists e, tokens [SLASH] path = e :: tokens [SLASH] rest /\
      name_str name' DIRSIZ = take DIRSIZ e /\ Forall (fun c => c <> 0) rest /\
      (length rest < length path)%nat /\ (byte_at rest 0 = 0 <-> tokens [SLASH] rest = [])
  end.
Proof.
  intros Hp. unfold skipelem. rewrite skip_slashes_eq. set (p := skip_delims [SLASH] path).
  destruct (skip_delims_suffix [SLASH] path) as [pre Hpre]. fold p in Hpre.
  assert (Forall (fun c => c <> 0) p) as Hpp by (rewrite Hpre in Hp; by apply Forall_app in Hp as [_ ?]).
  pose proof (tokens_skip [SLASH] path) as Htok. fold p in Htok.
  destruct p as [|c p'] eqn:Ep; [by rewrite <- Htok |].
  assert (delimb [SLASH] c = false) as Hc by (eapply skip_delims_head; exact Ep).
  apply Forall_cons in Hpp as [Hc0 Hpp]. rewrite byte_at_cons, (proj2 (Z.eqb_neq _ _) Hc0).
  rewrite elem_len_eq by (by apply Forall_cons). cbn [tok_len]. rewrite Hc.
  set (n := tok_len [SLASH] p'). rewrite skip_slashes_eq.
  assert (Forall (fun c => c <> 0) (drop n p')) as Hdrop by (by apply Forall_drop).
  destruct (skip_delims_suffix [SLASH] (drop n p')) as [pre2 Hpre2].
  set (rest := skip_delims [SLASH] (drop n p')) in *.
  assert (Forall (fun c => c <> 0) rest) as Hrest by (rewrite Hpre2 in Hdrop; by apply Forall_app in Hdrop as [_ ?]).
  assert (Forall (fun c => c <> 0) (c :: take n p')) as He by (apply Forall_cons; split; [done | by apply Forall_take]).
  pose proof (tok_len_le [SLASH] p') as Hn. fold n in Hn.
  change (drop (S n) (c :: p')) with (drop n p'). fold rest.
  exists (c :: take n p'). split; [| split; [| split; [done |]; split]].
  - rewrite <- Htok, (tokens_cons [SLASH] c p' Hc), <- tokens_drop_S. cbn [tok_len]. rewrite Hc. fold n.
    unfold rest. by rewrite tokens_skip.
  - destruct (Nat.leb_spec DIRSIZ (S n)) as [Hle|Hgt].
    + replace (take DIRSIZ (c :: p')) with (take DIRSIZ (c :: take n p')).
      * apply name_str_take; [done |]. simpl. rewrite length_take. unfold DIRSIZ in *. lia.
      * change (c :: take n p') with (take (S n) (c :: p')). rewrite take_take. f_equal. lia.
    + change (take (S n) (c :: p')) with (c :: take n p'). by rewrite name_str_app.
  - apply (f_equal length) in Hpre, Hpre2. rewrite length_app in Hpre, Hpre2. rewrite length_drop in Hpre2. simpl in Hpre. lia.
  - destruct rest as [|x rest'] eqn:Er; [done |]. apply Forall_cons in Hrest as [Hx _]. rewrite byte_at_cons.
    assert (delimb [SLASH] x = false) as Hxd by (eapply skip_delims_head; exact Er).
    rewrite (tokens_cons [SLASH] x rest' Hxd). done.
Qed.

(** ** Directories as lists of entries *)

Section dir.
Context {sb : superblock}.

Definition dents (v : Z -> block) (j : Z) : list dirent :=
  (fun k => dirent_of (take 16 (drop (16 * k) (file_bytes (sb := sb) v j)))) <$>
    seq 0 (Z.to_nat (d_size (dinode_at (sb := sb) v j) / 16)).

(** The first entry in use whose name is [name], and its offset. *)
Fixpoint dir_scan (name : list Z) (l : list dirent) (off : Z) : option (Z * Z) :=
  match l with
  | [] => None
  | de :: l' =>
      if negb (de_inum de =? 0) && bool_decide (name_str (de_name de) DIRSIZ = name) then Some (de_inum de, off)
      else dir_scan name l' (off + 16)
  end.

Definition dir_find (v : Z -> block) (j : Z) (name : list Z) : option (Z * Z) := dir_scan name (dents v j) 0.

(** The entries of a directory are whole and lead to inodes in use. *)
Record dir_ok (v : Z -> block) (j : Z) : Prop := {
  do_size : d_size (dinode_at (sb := sb) v j) mod 16 = 0;
  do_entries : forall de, de ∈ dents v j -> de_inum de <> 0 ->
    is_inum (sb := sb) (de_inum de) /\ d_type (dinode_at (sb := sb) v (de_inum de)) <> 0 /\
    d_nlink (dinode_at (sb := sb) v (de_inum de)) <> 0
}.

Lemma dir_scan_elem name l : forall off inum o,
  dir_scan name l off = Some (inum, o) -> exists de, de ∈ l /\ de_inum de = inum /\ inum <> 0.
Proof.
  induction l as [|de l IH]; intros off inum o; [done |]. cbn [dir_scan].
  destruct (Z.eqb_spec (de_inum de) 0) as [Hz|Hnz]; cbn [negb andb].
  - intros Hs. destruct (IH _ _ _ Hs) as (d & Hd & Hx). exists d. split; [by right | done].
  - destruct (bool_decide _).
    + intros [= <- _]. exists de. split; [by left | done].
    + intros Hs. destruct (IH _ _ _ Hs) as (d & Hd & Hx). exists d. split; [by right | done].
Qed.

Lemma dents_length v j : length (dents v j) = Z.to_nat (d_size (dinode_at (sb := sb) v j) / 16).
Proof. unfold dents. by rewrite length_fmap, length_seq. Qed.

Lemma dents_lookup v j k :
  (k < length (dents v j))%nat ->
  dents v j !! k = Some (dirent_of (take 16 (drop (16 * k) (file_bytes (sb := sb) v j)))).
Proof. intros Hk. rewrite dents_length in Hk. unfold dents. by rewrite list_lookup_fmap, lookup_seq_lt. Qed.
End dir.

Section lookup.
Context {T : Type} {area : Z -> Prop} {cap : nat} `{TxSpec T area cap}.
Context {sb : superblock} (Hg : geometry area sb).
Context `{!DevSw (T := T)}.

Lemma cached_tx (s : fs T) ip i v inum t :
  cached (sb := sb) s ip i v inum -> cached (sb := sb) (set_tx t s) ip i v inum.
Proof. intros []. by split. Qed.

(** Reading the [k]th entry. *)
Lemma read_dirent s dp i v j L k :
  settled (fs_tx s) v ∅ L -> cached (sb := sb) s dp i v j -> disk_ok (sb := sb) v ->
  d_type (i_di i) = T_DIR -> dir_ok (sb := sb) v j -> 16 * Z.of_nat k < d_size (i_di i) ->
  runs (readi dp (16 * Z.of_nat k) DIRENT) s (fun r s' => (exists x, r = (DIRENT, x) /\
    dents (sb := sb) v j !! k = Some (dirent_of x)) /\ exists t, s' = set_tx t s /\ settled t v ∅ L).
Proof.
  intros Hs Hca Hd Hty Hdir Hk. pose proof (ca_di _ _ _ _ _ Hca) as Hdi. rewrite Hdi in *.
  pose proof (dk_inodes _ Hd j (ca_range _ _ _ _ _ Hca)) as [Hw Hmx _]. pose proof (dw_size _ Hw).
  pose proof (do_size _ _ Hdir) as Hmod. unfold MAXBYTES in Hmx.
  pose proof (Z.div_mod (d_size (dinode_at (sb := sb) v j)) 16 ltac:(lia)) as Hdm.
  eapply runs_mono; [eapply (readi_disk Hg s dp i v j L); rewrite ?Hdi; try done; try lia; rewrite ?Hty; try done; unfold DIRENT; lia |].
  intros r s' [-> (t & -> & Ht)]. split; [| by exists t].
  replace (Z.to_nat (16 * Z.of_nat k)) with (16 * k)%nat by lia. change (Z.to_nat DIRENT) with 16%nat.
  eexists. split; [| apply dents_lookup; rewrite dents_length; lia].
  f_equal. rewrite length_take, length_drop. unfold file_bytes. rewrite bytes_length. unfold DIRENT. lia.
Qed.

Lemma dirlookup_loop_spec dp v j L name fuel : forall s i k,
  settled (fs_tx s) v ∅ L -> cached (sb := sb) s dp i v j -> disk_ok (sb := sb) v ->
  d_type (i_di i) = T_DIR -> dir_ok (sb := sb) v j -> (k <= length (dents (sb := sb) v j))%nat ->
  (length (dents (sb := sb) v j) < k + fuel)%nat ->
  runs (dirlookup_loop dp name (16 * Z.of_nat k) fuel) s (fun r s' =>
    r = dir_scan (name_str name DIRSIZ) (drop k (dents (sb := sb) v j)) (16 * Z.of_nat k) /\
    exists t, s' = set_tx t s /\ settled t v ∅ L).
Proof.
  induction fuel as [|fuel IH]; intros s i k Hs Hca Hd Hty Hdir Hk Hfuel; [lia |].
  cbn [dirlookup_loop]. eapply runs_inode_at; [apply Hca |].
  pose proof (ca_di _ _ _ _ _ Hca) as Hdi.
  pose proof (dk_inodes _ Hd j (ca_range _ _ _ _ _ Hca)) as [Hw Hmx _]. pose proof (dw_size _ Hw).
  pose proof (do_size _ _ Hdir) as Hmod. unfold MAXBYTES in Hmx. rewrite <- Hdi in *.
  pose proof (Z.div_mod (d_size (i_di i)) 16 ltac:(lia)) as Hdm.
  pose proof (dents_length (sb := sb) v j) as Hlen. rewrite <- Hdi in Hlen.
  destruct (Z.ltb_spec (16 * Z.of_nat k) (d_size (i_di i))) as [Hlt|Hge].
  - apply runs_bind. eapply runs_mono; [by apply (read_dirent s dp i v j L k) |].
    intros [r x] s1 [(y & [= -> ->] & Hde) (t1 & -> & Ht1)]. rewrite Z.eqb_refl. cbn [negb]. cbv zeta.
    rewrite (drop_S _ _ _ Hde). cbn [dir_scan].
    assert (runs (dirlookup_loop dp name (u32 (16 * Z.of_nat k + DIRENT)) fuel) (set_tx t1 s) (fun r s' =>
      r = dir_scan (name_str name DIRSIZ) (drop (S k) (dents (sb := sb) v j)) (16 * Z.of_nat k + 16) /\
      exists t, s' = set_tx t s /\ settled t v ∅ L)) as Hrest.
    { unfold DIRENT. rewrite u32_small by lia. replace (16 * Z.of_nat k + 16) with (16 * Z.of_nat (S k)) by lia.
      eapply runs_mono; [apply (IH (set_tx t1 s) i (S k)); try done; [by apply cached_tx | lia | lia] |].
      intros r' s' [-> (t & -> & Ht)]. split; [done |]. by exists t. }
    destruct (de_inum (dirent_of y) =? 0); cbn [negb andb]; [exact Hrest |].
    rewrite namecmp_eq. destruct (decide (name_str name DIRSIZ = name_str (de_name (dirent_of y)) DIRSIZ)) as [He|Hne].
    + rewrite !bool_decide_eq_true_2 by done. apply runs_ret. split; [done |]. by exists t1.
    + rewrite !bool_decide_eq_false_2 by congruence. exact Hrest.
  - apply runs_ret. rewrite drop_ge by lia. split; [done |]. exists (fs_tx s). split; [by destruct s | done].
Qed.

(** ** References *)

(** [refs]: how many references each inode in use has. [lk]: the entry that is
    locked. *)
Record icache_ok (s : fs T) (v : Z -> block) (refs : gmap Z Z) (lk : option nat) : Prop := {
  ic_sb : fs_sb s = sb;
  ic_entry : forall ip i, fs_ic s !! ip = Some i -> 0 <= i_ref i /\ i_locked i = bool_decide (lk = Some ip);
  ic_used : forall ip i, fs_ic s !! ip = Some i -> 0 < i_ref i ->
    i_dev i = 1 /\ is_inum (sb := sb) (i_inum i) /\ refs !! i_inum i = Some (i_ref i) /\
    (i_valid i = 0 \/ i_di i = dinode_at (sb := sb) v (i_inum i));
  ic_uniq : forall ip ip' i i', fs_ic s !! ip = Some i -> fs_ic s !! ip' = Some i' ->
    0 < i_ref i -> 0 < i_ref i' -> i_inum i = i_inum i' -> ip = ip';
  ic_refs : forall inum r, refs !! inum = Some r -> 0 < r < 2147483647 /\
    exists ip i, fs_ic s !! ip = Some i /\ i_inum i = inum /\ i_ref i = r
}.

(** Entry [ip] refers to [inum]. *)
Definition refers (s : fs T) (ip : nat) (inum : Z) : Prop :=
  exists i, fs_ic s !! ip = Some i /\ i_inum i = inum /\ 0 < i_ref i.

Lemma refers_put s ip i i' :
  fs_ic s !! ip = Some i -> i_ref i <= 0 \/ (i_inum i' = i_inum i /\ 0 < i_ref i') ->
  forall p x, refers s p x -> refers (put_inode ip i' s) p x.
Proof.
  intros Hi Hc p x (q & Hq & <- & Hp). destruct (decide (p = ip)) as [->|Hne].
  - rewrite Hi in Hq. injection Hq as <-. destruct Hc as [?|[<- ?]]; [lia |]. eexists. split; [by eapply put_lookup | done].
  - exists q. split; [simpl; by rewrite list_lookup_insert_ne | done].
Qed.

(** One more and one less reference. *)
Definition incr (inum : Z) (refs : gmap Z Z) : gmap Z Z := <[inum := default 0 (refs !! inum) + 1]> refs.
Definition decr (inum : Z) (refs : gmap Z Z) : gmap Z Z :=
  if default 0 (refs !! inum) =? 1 then delete inum refs else <[inum := default 0 (refs !! inum) - 1]> refs.

Lemma decr_incr inum refs :
  (forall r, refs !! inum = Some r -> 0 < r) -> decr inum (incr inum refs) = refs.
Proof.
  intros Hr. unfold decr, incr. rewrite lookup_insert_eq. cbn [default from_option]. unfold id.
  destruct (refs !! inum) as [r|] eqn:Er; cbn [default from_option]; unfold id.
  - pose proof (Hr r eq_refl). rewrite (proj2 (Z.eqb_neq _ _)) by lia. rewrite insert_insert_eq.
    replace (r + 1 - 1) with r by lia. by apply insert_id.
  - rewrite Z.eqb_refl. rewrite delete_insert_eq. by apply delete_id.
Qed.

Lemma icache_tx s v refs lk t : icache_ok s v refs lk -> icache_ok (set_tx t s) v refs lk.
Proof. intros []. by split. Qed.

Lemma icache_entry s v refs lk ip inum :
  icache_ok s v refs lk -> refers s ip inum -> exists i, entry (sb := sb) s ip i v inum /\
    refs !! inum = Some (i_ref i) /\ i_locked i = bool_decide (lk = Some ip).
Proof.
  intros Hic (i & Hi & <- & Hr). destruct (ic_used _ _ _ _ Hic ip i Hi Hr) as (Hd & Hn & Href & Hv).
  exists i. destruct (ic_refs _ _ _ _ Hic _ _ Href) as [Hb _]. split; [| split; [done |]].
  - split; try done; [apply Hic | lia].
  - by apply (ic_entry _ _ _ _ Hic).
Qed.

(** An entry changes without changing what it refers to. *)
Lemma icache_put s v refs lk lk' ip i i' :
  icache_ok s v refs lk -> fs_ic s !! ip = Some i -> 0 < i_ref i ->
  i_dev i' = i_dev i -> i_inum i' = i_inum i -> i_ref i' = i_ref i ->
  (i_valid i' = 0 \/ i_di i' = dinode_at (sb := sb) v (i_inum i)) ->
  i_locked i' = bool_decide (lk' = Some ip) -> (forall ip', ip' <> ip -> lk' = Some ip' <-> lk = Some ip') ->
  icache_ok (put_inode ip i' s) v refs lk'.
Proof.
  intros [H1 H2 H3 H4 H5] Hi Hr Ed En Er Ev El Hlk.
  assert (forall jp j, fs_ic (put_inode ip i' s) !! jp = Some j -> (jp = ip /\ j = i') \/ (jp <> ip /\ fs_ic s !! jp = Some j)) as Hat.
  { intros jp j Hj. simpl in Hj. apply list_lookup_insert_Some in Hj as [(-> & -> & _)|[Hne Hj]]; [by left | right].
    split; [congruence | done]. }
  split; [done | | | |].
  - intros jp j [[-> ->]|[Hne Hj]]%Hat; [split; [lia | done] |]. destruct (H2 jp j Hj) as [Ha Hb]. split; [done |].
    rewrite Hb. apply bool_decide_ext. symmetry. by apply Hlk.
  - intros jp j [[-> ->]|[Hne Hj]]%Hat Hp; [| by apply (H3 jp)].
    destruct (H3 ip i Hi Hr) as (Ha & Hb & Hc & _). rewrite Ed, En, Er. done.
  - intros jp jp' j j' Hj Hj' Hp Hp' He.
    apply Hat in Hj as [[-> ->]|[Hne Hj]]; apply Hat in Hj' as [[-> ->]|[Hne' Hj']]; try done.
    + eapply (H4 ip jp' i j'); try done. by rewrite <- En.
    + eapply (H4 jp ip j i); try done. by rewrite <- En.
    + by eapply (H4 jp jp' j j').
  - intros inum r Hr'. destruct (H5 inum r Hr') as (Hb & jp & j & Hj & Ej & Erj). split; [done |].
    destruct (decide (jp = ip)) as [->|Hne].
    + exists ip, i'. split; [by eapply put_lookup |]. rewrite Hi in Hj. injection Hj as ->. by rewrite En, Er.
    + exists jp, j. split; [| done]. simpl. by rewrite list_lookup_insert_ne.
Qed.

(** Entry [ip] changes, and with it the reference counts. *)
Lemma icache_change s v refs refs' lk ip i i' :
  icache_ok s v refs lk -> fs_ic s !! ip = Some i -> 0 <= i_ref i' -> i_locked i' = i_locked i ->
  (0 < i_ref i' -> i_dev i' = 1 /\ is_inum (sb := sb) (i_inum i') /\ refs' !! i_inum i' = Some (i_ref i') /\
    (i_valid i' = 0 \/ i_di i' = dinode_at (sb := sb) v (i_inum i'))) ->
  (forall jp j, jp <> ip -> fs_ic s !! jp = Some j -> 0 < i_ref j ->
    refs' !! i_inum j = refs !! i_inum j /\ (0 < i_ref i' -> i_inum j <> i_inum i')) ->
  (forall inum r, refs' !! inum = Some r -> 0 < r < 2147483647 /\
    ((inum = i_inum i' /\ r = i_ref i') \/
     exists jp j, jp <> ip /\ fs_ic s !! jp = Some j /\ i_inum j = inum /\ i_ref j = r)) ->
  icache_ok (put_inode ip i' s) v refs' lk.
Proof.
  intros [H1 H2 H3 H4 H5] Hi Hnn Hlk Hnew Hoth Hrefs.
  assert (forall jp j, fs_ic (put_inode ip i' s) !! jp = Some j -> (jp = ip /\ j = i') \/ (jp <> ip /\ fs_ic s !! jp = Some j)) as Hat.
  { intros jp j Hj. simpl in Hj. apply list_lookup_insert_Some in Hj as [(-> & -> & _)|[Hne Hj]]; [by left | right].
    split; [congruence | done]. }
  split; [done | | | |].
  - intros jp j [[-> ->]|[Hne Hj]]%Hat; [| by apply H2]. split; [done |]. rewrite Hlk. by apply H2.
  - intros jp j [[-> ->]|[Hne Hj]]%Hat Hp; [by apply Hnew |].
    destruct (H3 jp j Hj Hp) as (Ha & Hb & Hc & Hd). destruct (Hoth jp j Hne Hj Hp) as [He _]. by rewrite He.
  - intros jp jp' j j' Hj Hj' Hp Hp' He.
    apply Hat in Hj as [[-> ->]|[Hne Hj]]; apply Hat in Hj' as [[-> ->]|[Hne' Hj']]; try done.
    + destruct (Hoth jp' j' Hne' Hj' Hp') as [_ Hx]. by destruct (Hx Hp).
    + destruct (Hoth jp j Hne Hj Hp) as [_ Hx]. by destruct (Hx Hp').
    + by eapply (H4 jp jp' j j').
  - intros inum r Hr. destruct (Hrefs inum r Hr) as [Hb Hcase]. split; [done |].
    destruct Hcase as [[-> ->]|(jp & j & Hne & Hj & Hx)].
    + exists ip, i'. split; [by eapply put_lookup | done].
    + exists jp, j. split; [| done]. simpl. by rewrite list_lookup_insert_ne.
Qed.

Definition matches (dev inum : Z) (i : inode) : bool := (0 <? i_ref i) && (i_dev i =? dev) && (i_inum i =? inum).

Lemma iget_scan_spec dev inum l : forall k empty,
  match iget_scan dev inum l k empty with
  | (Some p, _) => exists m i, p = (k + m)%nat /\ l !! m = Some i /\ matches dev inum i = true
  | (None, e) => Forall (fun i => matches dev inum i = false) l /\
      match e with
      | Some x => empty = Some x \/ exists m i, x = (k + m)%nat /\ l !! m = Some i /\ i_ref i = 0
      | None => empty = None /\ Forall (fun i => i_ref i <> 0) l
      end
  end.
Proof.
  induction l as [|i l IH]; intros k empty; cbn [iget_scan].
  { split; [done |]. destruct empty; [by left | done]. }
  fold (matches dev inum i). destruct (matches dev inum i) eqn:Hm.
  { exists 0%nat, i. split; [lia | done]. }
  set (empty' := match empty with None => _ | Some e => Some e end).
  specialize (IH (S k) empty'). destruct (iget_scan dev inum l (S k) empty') as [[p|] e].
  - destruct IH as (m & j & -> & Hj & Hmj). exists (S m), j. split; [lia | done].
  - destruct IH as [Hall He]. split; [by apply Forall_cons |]. destruct e as [x|].
    + destruct He as [Hx|(m & j & -> & Hj & Hr)]; [| right; exists (S m), j; split; [lia | done]].
      unfold empty' in Hx. destruct empty as [y|]; [by left |]. right.
      destruct (Z.eqb_spec (i_ref i) 0); [| done]. injection Hx as <-. exists 0%nat, i. split; [lia | done].
    + destruct He as [Hx Hf]. unfold empty' in Hx. destruct empty as [y|]; [done |].
      destruct (Z.eqb_spec (i_ref i) 0); [done |]. split; [done |]. by apply Forall_cons.
Qed.

(** A full cache refers to as many inodes as it has entries. *)
Lemma icache_room s v refs lk :
  icache_ok s v refs lk -> (size refs < length (fs_ic s))%nat -> Exists (fun i => i_ref i = 0) (fs_ic s).
Proof.
  intros Hic Hsz. destruct (decide (Exists (fun i => i_ref i = 0) (fs_ic s))) as [|Hno]; [done |]. exfalso.
  apply not_Exists_Forall in Hno; [| apply _]. rewrite Forall_lookup in Hno.
  assert (forall ip i, fs_ic s !! ip = Some i -> 0 < i_ref i) as Hpos.
  { intros ip i Hi. pose proof (Hno ip i Hi) as Hx. simpl in Hx. destruct (ic_entry _ _ _ _ Hic ip i Hi). lia. }
  assert (length (i_inum <$> fs_ic s) <= size (dom refs))%nat as Hle.
  { rewrite <- (size_list_to_set (C := gset Z) (i_inum <$> fs_ic s)).
    - apply subseteq_size. intros x. rewrite elem_of_list_to_set, list_elem_of_fmap. intros (i & -> & Hin).
      apply list_elem_of_lookup in Hin as [ip Hi]. apply elem_of_dom.
      destruct (ic_used _ _ _ _ Hic ip i Hi (Hpos _ _ Hi)) as (_ & _ & -> & _). done.
    - apply NoDup_alt. intros a b x Ha Hb. rewrite list_lookup_fmap, fmap_Some in Ha, Hb.
      destruct Ha as (i & Hi & ->), Hb as (j & Hj & He). eapply (ic_uniq _ _ _ _ Hic a b i j); eauto. }
  rewrite length_fmap, size_dom in Hle. lia.
Qed.

(** The count of an entry in use changes to [r]. *)
Lemma icache_count s v refs lk ip i r :
  icache_ok s v refs lk -> fs_ic s !! ip = Some i -> 0 < i_ref i -> 0 <= r < 2147483647 ->
  icache_ok (put_inode ip (set_iref r i) s) v
    (if r =? 0 then delete (i_inum i) refs else <[i_inum i := r]> refs) lk.
Proof.
  intros Hic Hi Hp Hr. destruct (ic_used _ _ _ _ Hic ip i Hi Hp) as (Hd & Hn & Href & Hv).
  assert (forall jp j, jp <> ip -> fs_ic s !! jp = Some j -> 0 < i_ref j -> i_inum j <> i_inum i) as Hneq.
  { intros jp j Hne Hj Hjp He. by apply Hne, (ic_uniq _ _ _ _ Hic jp ip j i). }
  assert (forall x y, x <> i_inum i -> refs !! x = Some y -> 0 < y < 2147483647 /\
    exists jp j, jp <> ip /\ fs_ic s !! jp = Some j /\ i_inum j = x /\ i_ref j = y) as Hoth.
  { intros x y Hne Hx. destruct (ic_refs _ _ _ _ Hic x y Hx) as (Hy & jp & j & Hj & Hxj & Hrj). split; [done |].
    exists jp, j. split; [| done]. intros ->. rewrite Hi in Hj. by injection Hj as <-. }
  apply (icache_change s v refs _ lk ip i); cbn [i_ref i_locked i_dev i_inum i_valid i_di set_iref]; try done.
  - lia.
  - intros Hr0. rewrite (proj2 (Z.eqb_neq _ _)) by lia. do 2 (split; [done |]). split; [| done]. apply lookup_insert_eq.
  - intros jp j Hne Hj Hjp. pose proof (Hneq jp j Hne Hj Hjp). split; [| done].
    destruct (Z.eqb_spec r 0); [by rewrite lookup_delete_ne | by rewrite lookup_insert_ne].
  - intros x y Hx. destruct (Z.eqb_spec r 0).
    + apply lookup_delete_Some in Hx as [Hne Hx]. destruct (Hoth x y) as [Hy Hex]; [congruence | done |]. auto.
    + apply lookup_insert_Some in Hx as [[<- <-]|[Hne Hx]]; [split; [lia | by left] |].
      destruct (Hoth x y) as [Hy Hex]; [congruence | done |]. auto.
Qed.

Lemma icache_incr s v refs lk ip i :
  icache_ok s v refs lk -> fs_ic s !! ip = Some i -> 0 < i_ref i -> i_ref i + 1 < 2147483647 ->
  icache_ok (put_inode ip (set_iref (i32 (i_ref i + 1)) i) s) v (incr (i_inum i) refs) lk /\
  refers (put_inode ip (set_iref (i32 (i_ref i + 1)) i) s) ip (i_inum i).
Proof.
  intros Hic Hi Hp Hb. rewrite i32_small by lia. split.
  - pose proof (icache_count s v refs lk ip i (i_ref i + 1) Hic Hi Hp ltac:(lia)) as Hc.
    rewrite (proj2 (Z.eqb_neq _ _)) in Hc by lia.
    destruct (ic_used _ _ _ _ Hic ip i Hi Hp) as (_ & _ & Href & _). unfold incr. by rewrite Href.
  - eexists. split; [by eapply put_lookup |]. simpl. split; [done | lia].
Qed.

Lemma icache_decr s v refs lk ip i :
  icache_ok s v refs lk -> fs_ic s !! ip = Some i -> 0 < i_ref i ->
  icache_ok (put_inode ip (set_iref (i_ref i - 1) i) s) v (decr (i_inum i) refs) lk.
Proof.
  intros Hic Hi Hp. destruct (ic_used _ _ _ _ Hic ip i Hi Hp) as (_ & _ & Href & _).
  destruct (ic_refs _ _ _ _ Hic _ _ Href) as [Hr _].
  pose proof (icache_count s v refs lk ip i (i_ref i - 1) Hic Hi Hp ltac:(lia)) as Hc.
  unfold decr. rewrite Href. cbn [default from_option]. unfold id.
  replace (i_ref i =? 1) with (i_ref i - 1 =? 0) by (bool_cases; lia). done.
Qed.

Lemma iget_spec s v refs lk inum :
  icache_ok s v refs lk -> is_inum (sb := sb) inum -> (size refs < length (fs_ic s))%nat ->
  (forall r, refs !! inum = Some r -> r + 1 < 2147483647) ->
  runs (iget 1 inum) s (fun ip s' => exists i', s' = put_inode ip i' s /\
    icache_ok s' v (incr inum refs) lk /\ refers s' ip inum /\ forall p x, refers s p x -> refers s' p x).
Proof.
  intros Hic Hn Hsz Hb. unfold iget. apply runs_bind, runs_get.
  pose proof (iget_scan_spec 1 inum (fs_ic s) 0 None) as Hscan.
  destruct (iget_scan 1 inum (fs_ic s) 0 None) as [[p|] e].
  - destruct Hscan as (m & i & -> & Hi & Hm). cbn [Nat.add]. unfold matches in Hm.
    apply andb_true_iff in Hm as [[Hp Hd]%andb_true_iff Hin].
    apply Z.ltb_lt in Hp. apply Z.eqb_eq in Hd, Hin. subst inum.
    destruct (ic_used _ _ _ _ Hic m i Hi Hp) as (_ & _ & Href & _). pose proof (Hb _ Href).
    apply runs_bind. eapply runs_upd_inode; [exact Hi |]. apply runs_ret.
    destruct (icache_incr s v refs lk m i) as [Hic' Href']; [done.. |].
    eexists. split; [reflexivity |]. split; [done |]. split; [done |].
    apply (refers_put s m i); [done | right; simpl; rewrite i32_small by lia; split; [done | lia]].
  - destruct Hscan as [Hall He]. destruct e as [e|].
    2: { destruct He as [_ Hf]. pose proof (icache_room _ _ _ _ Hic Hsz) as Hex. exfalso.
      apply Exists_exists in Hex as (i & Hin & Hr). rewrite Forall_forall in Hf. by apply (Hf i Hin). }
    destruct He as [Hx|(m & i & -> & Hi & Hr0)]; [done |]. cbn [Nat.add].
    rewrite Forall_lookup in Hall. apply runs_bind. eapply runs_upd_inode; [exact Hi |]. apply runs_ret.
    assert (forall jp j, fs_ic s !! jp = Some j -> 0 < i_ref j -> i_inum j <> inum) as Hnone.
    { intros jp j Hj Hp He. specialize (Hall jp j Hj). destruct (ic_used _ _ _ _ Hic jp j Hj Hp) as (Hd & _).
      unfold matches in Hall. rewrite Hd, He, !Z.eqb_refl, (proj2 (Z.ltb_lt _ _) Hp) in Hall. done. }
    assert (refs !! inum = None) as Hrn.
    { destruct (refs !! inum) as [r|] eqn:Er; [| done]. exfalso.
      destruct (ic_refs _ _ _ _ Hic inum r Er) as (Hr & jp & j & Hj & Hxj & Hrj). apply (Hnone jp j Hj); [lia | done]. }
    eexists. split; [reflexivity |]. split; [| split; [eexists; split; [by eapply put_lookup |]; done |]].
    2: { apply (refers_put s m i); [done | left; lia]. }
    apply (icache_change s v refs _ lk m i); cbn [i_ref i_locked i_dev i_inum i_valid i_di]; try done.
    + intros _. do 2 (split; [done |]). split; [| by left]. unfold incr. by rewrite lookup_insert_eq, Hrn.
    + intros jp j Hne Hj Hp. pose proof (Hnone jp j Hj Hp). split; [| done]. unfold incr. by rewrite lookup_insert_ne.
    + intros x r Hx. unfold incr in Hx. apply lookup_insert_Some in Hx as [[<- <-]|[Hne Hx]].
      * rewrite Hrn. cbn. split; [lia | by left].
      * destruct (ic_refs _ _ _ _ Hic x r Hx) as (Hr & jp & j & Hj & Hxj & Hrj). split; [done |]. right. exists jp, j.
        split; [| done]. intros ->. rewrite Hi in Hj. injection Hj as ->. lia.
Qed.
End lookup.
