(* ===== verification/FsPath.v ===== *)
(** * Path resolution (fs.c: namex, namei, nameiparent)

    The walk along a path as a function of the disk, and the proof that
    [namex] follows it: it returns the inode the directories on the disk
    lead to, and when it returns the inode cache holds exactly one more
    reference than before, to that inode, or none when the walk fails. *)

From stdpp Require Import gmap functions.
From S2P Require Import Prelude CString Params Bytes Cache Log Tx Fs FsAlloc FsFile FsDisk FsDemo FsDir Bio.

(** ** The walk over the disk *)

Section walk.
Context {sb : superblock}.

Abbreviation type_at v j := (d_type (dinode_at (sb := sb) v j)).

(** Where the elements [es] lead from inode [j]; with [parent] the walk stops
    at the directory that is to hold the last one. *)
Fixpoint path_walk (parent : bool) (v : Z -> block) (j : Z) (es : list (list Z)) : option Z :=
  match es with
  | [] => if parent then None else Some j
  | e :: es' =>
      if negb (type_at v j =? T_DIR) then None
      else if parent && bool_decide (es' = []) then Some j
      else match dir_find (sb := sb) v j (take DIRSIZ e) with
           | None => None
           | Some (j', _) => path_walk parent v j' es'
           end
  end.

(** Every directory of the disk is in order. *)
Definition dirs_ok (v : Z -> block) : Prop :=
  forall j, is_inum (sb := sb) j -> type_at v j = T_DIR -> dir_ok (sb := sb) v j.

(** Inode [j] is in use, and dropping a reference beyond [refs] does not free it. *)
Definition lasting (v : Z -> block) (refs : gmap Z Z) (j : Z) : Prop :=
  is_inum (sb := sb) j /\ type_at v j <> 0 /\ (d_nlink (dinode_at (sb := sb) v j) <> 0 \/ is_Some (refs !! j)).

Lemma dir_find_lasting v refs j name j' off :
  dir_ok (sb := sb) v j -> dir_find (sb := sb) v j name = Some (j', off) -> lasting v refs j'.
Proof.
  intros Hdir Hf. apply dir_scan_elem in Hf as (de & Hin & <- & Hnz).
  destruct (do_entries _ _ Hdir de Hin Hnz) as (H1 & H2 & H3). split; [done |]. split; [done | by left].
Qed.
End walk.

(** ** Reference counts *)

(** Counts that leave room for the two references a walk holds at a time. *)
Definition roomy (refs : gmap Z Z) : Prop := forall x r, refs !! x = Some r -> 0 < r < 2147483645.

Lemma incr_lookup j refs x :
  incr j refs !! x = if decide (x = j) then Some (default 0 (refs !! j) + 1) else refs !! x.
Proof. unfold incr. case_decide; [subst; apply lookup_insert_eq | by rewrite lookup_insert_ne]. Qed.

Lemma incr_roomy j refs x r : roomy refs -> incr j refs !! x = Some r -> 0 < r < 2147483646.
Proof.
  intros Hr. rewrite incr_lookup. case_decide as Hx; [| intros Hl; specialize (Hr x r Hl); lia].
  intros [= <-]. destruct (refs !! j) as [y|] eqn:Ey; cbn; unfold id; [specialize (Hr j y Ey); lia | lia].
Qed.

Lemma incr_size j refs : (size (incr j refs) <= size refs + 1)%nat.
Proof. unfold incr. rewrite map_size_insert. case_match; unfold id; lia. Qed.

(** A step of a walk: the new reference is taken before the old one is dropped. *)
Lemma decr_incr_incr j j' refs : roomy refs -> decr j (incr j' (incr j refs)) = incr j' refs.
Proof.
  intros Hr. destruct (decide (j' = j)) as [->|Hne].
  - apply decr_incr. intros r Hl. by apply (incr_roomy j refs j r Hr) in Hl as [? _].
  - transitivity (decr j (incr j (incr j' refs))).
    + f_equal. unfold incr. rewrite !lookup_insert_ne by congruence. by rewrite insert_insert_ne.
    + apply decr_incr. intros r Hl. by apply (incr_roomy j' refs j r Hr) in Hl as [? _].
Qed.

Section namex.
Context {T : Type} {area : Z -> Prop} {cap : nat} `{TxSpec T area cap}.
Context {sb : superblock} (Hg : geometry area sb).
Context `{!DevSw (T := T)}.

Abbreviation ic_ok := (icache_ok (sb := sb)).

(** ** Operations on the cache with its counts *)

Lemma idup_counts (s : fs T) v refs lk ip j :
  ic_ok s v refs lk -> refers s ip j -> (forall r, refs !! j = Some r -> r + 1 < 2147483647) ->
  runs (idup ip) s (fun r s' => r = ip /\ fs_tx s' = fs_tx s /\ length (fs_ic s') = length (fs_ic s) /\
    ic_ok s' v (incr j refs) lk /\ refers s' ip j).
Proof.
  intros Hic Href Hb. destruct (icache_entry _ _ _ _ _ _ Hic Href) as (i & Hen & Hr & _).
  pose proof (en_ref _ _ _ _ _ Hen). pose proof (en_at _ _ _ _ _ Hen) as Hi. pose proof (en_inum _ _ _ _ _ Hen) as <-.
  unfold idup. eapply runs_inode_at; [done |]. apply runs_bind. eapply runs_upd_inode; [done |]. apply runs_ret.
  do 2 (split; [done |]). split; [apply length_insert |]. apply icache_incr; [done | done | lia |]. by apply Hb.
Qed.

Lemma ilock_counts (s : fs T) v refs ip j L :
  settled (fs_tx s) v ∅ L -> ic_ok s v refs None -> refers s ip j -> d_type (dinode_at (sb := sb) v j) <> 0 ->
  runs (ilock (Some ip)) s (fun _ s' => settled (fs_tx s') v ∅ L /\ length (fs_ic s') = length (fs_ic s) /\
    ic_ok s' v refs (Some ip) /\ exists i, cached (sb := sb) s' ip i v j /\ 0 < i_ref i).
Proof.
  intros Hs Hic Href Hty. destruct (icache_entry _ _ _ _ _ _ Hic Href) as (i & Hen & Hr & Hl).
  pose proof (en_ref _ _ _ _ _ Hen). pose proof (en_inum _ _ _ _ _ Hen) as Hin.
  eapply runs_mono; [eapply (ilock_spec Hg s ip i v j L Hs Hen Hl Hty) |]. intros [] s' (t & -> & Ht).
  split; [done |]. split; [apply length_insert |]. split.
  - apply icache_tx. eapply (icache_put s v refs None (Some ip) ip i); try done.
    + apply Hen.
    + lia.
    + right. simpl. by rewrite Hin.
    + simpl. by rewrite bool_decide_eq_true_2.
    + intros ip' Hne. split; [by intros [= ->] | done].
  - exists (locked_inode (sb := sb) i v). split; [by apply locked_cached | simpl; lia].
Qed.

Lemma iunlock_counts (s : fs T) v refs ip j :
  ic_ok s v refs (Some ip) -> refers s ip j ->
  runs (iunlock (Some ip)) s (fun _ s' => fs_tx s' = fs_tx s /\ length (fs_ic s') = length (fs_ic s) /\
    ic_ok s' v refs None /\ forall ip' j', refers s ip' j' -> refers s' ip' j').
Proof.
  intros Hic Href. destruct (icache_entry _ _ _ _ _ _ Hic Href) as (i & Hen & Hr & Hl).
  pose proof (en_ref _ _ _ _ _ Hen). pose proof (en_at _ _ _ _ _ Hen) as Hi. pose proof (en_inum _ _ _ _ _ Hen) as Hin.
  rewrite bool_decide_eq_true_2 in Hl by done.
  apply (iunlock_spec s ip i); [done | done | lia |]. split; [done |]. split; [apply length_insert |]. split.
  - eapply (icache_put s v refs (Some ip) None ip i); try done.
    + lia.
    + destruct (en_valid _ _ _ _ _ Hen) as [?|Hd]; [by left | right]. simpl. by rewrite Hin.
    + intros ip' Hne. split; [done | by intros [= ->]].
  - apply (refers_put s ip i); [done | right; simpl; split; [done | lia]].
Qed.

Lemma iput_counts (s : fs T) v refs ip j :
  ic_ok s v refs None -> refers s ip j ->
  (d_nlink (dinode_at (sb := sb) v j) <> 0 \/ (forall r, refs !! j = Some r -> r <> 1)) ->
  runs (iput ip) s (fun _ s' => fs_tx s' = fs_tx s /\ length (fs_ic s') = length (fs_ic s) /\
    ic_ok s' v (decr j refs) None /\
    forall ip' j', refers s ip' j' -> (forall r, refs !! j' = Some r -> j' = j -> 1 < r) -> refers s' ip' j').
Proof.
  intros Hic Href Hk. destruct (icache_entry _ _ _ _ _ _ Hic Href) as (i & Hen & Hr & Hl).
  pose proof (en_ref _ _ _ _ _ Hen). pose proof (en_at _ _ _ _ _ Hen) as Hi. pose proof (en_inum _ _ _ _ _ Hen) as <-.
  apply (iput_keep s ip i); [done | done | lia | |].
  { destruct Hk as [Hn|Hn]; [| right; right; by apply Hn].
    destruct (en_valid _ _ _ _ _ Hen) as [?|Hd]; [by left |]. right. left. by rewrite Hd. }
  split; [done |]. split; [apply length_insert |]. split; [by apply icache_decr; [| | lia] |].
  intros ip' j' (i' & Hi' & <- & Hp) Hmore. destruct (decide (ip' = ip)) as [->|Hne].
  - rewrite Hi in Hi'. injection Hi' as <-. specialize (Hmore _ Hr eq_refl).
    eexists. split; [by eapply put_lookup |]. simpl. split; [done | lia].
  - exists i'. split; [simpl; by rewrite list_lookup_insert_ne | done].
Qed.

Lemma dirlookup_counts (s : fs T) v refs ip i j L name :
  settled (fs_tx s) v ∅ L -> ic_ok s v refs (Some ip) -> cached (sb := sb) s ip i v j ->
  disk_ok (sb := sb) v -> dirs_ok (sb := sb) v -> d_type (dinode_at (sb := sb) v j) = T_DIR ->
  (size refs < length (fs_ic s))%nat -> (forall x r, refs !! x = Some r -> r + 1 < 2147483647) ->
  runs (dirlookup ip name) s (fun r s' => settled (fs_tx s') v ∅ L /\ length (fs_ic s') = length (fs_ic s) /\
    match dir_find (sb := sb) v j (name_str name DIRSIZ) with
    | None => r = None /\ ic_ok s' v refs (Some ip) /\ fs_ic s' = fs_ic s
    | Some (j', off) => exists ip', r = Some (ip', off) /\ ic_ok s' v (incr j' refs) (Some ip) /\ refers s' ip' j' /\
        forall p x, refers s p x -> refers s' p x
    end).
Proof.
  intros Hs Hic Hca Hd Hdirs Hty Hsz Hb. pose proof (ca_di _ _ _ _ _ Hca) as Hdi. pose proof (ca_range _ _ _ _ _ Hca) as Hn.
  pose proof (Hdirs j Hn Hty) as Hdir. assert (d_type (i_di i) = T_DIR) as Hty' by (by rewrite Hdi).
  unfold dirlookup. eapply runs_inode_at; [apply Hca |]. rewrite Hty'. change (negb (T_DIR =? T_DIR)) with false. cbv iota.
  apply runs_bind. eapply runs_mono.
  { apply (dirlookup_loop_spec Hg ip v j L name _ s i 0); try done; [lia |].
    pose proof (dk_inodes _ Hd j Hn) as [Hw _ _]. pose proof (dw_size _ Hw) as Hsize.
    rewrite dents_length, <- Hdi. rewrite <- Hdi in Hsize. pose proof (Z.div_le_upper_bound (d_size (i_di i)) 16 (d_size (i_di i))). lia. }
  intros r s1 [-> (t & -> & Ht)]. rewrite drop_0. change (16 * Z.of_nat 0) with 0. fold (dir_find (sb := sb) v j (name_str name DIRSIZ)).
  destruct (dir_find v j (name_str name DIRSIZ)) as [[j' off]|] eqn:Ef.
  2: { apply runs_ret. split; [done |]. split; [done |]. split; [done |]. split; [by apply icache_tx | done]. }
  eapply runs_inode_at; [apply Hca |]. rewrite (ca_dev _ _ _ _ _ Hca). apply runs_bind.
  destruct (dir_find_lasting v refs j _ j' off Hdir Ef) as (Hn' & _).
  eapply runs_mono; [apply (iget_spec (sb := sb) (set_tx t s) v refs (Some ip) j'); [by apply icache_tx | done | done | apply Hb] |].
  intros ip' s' (i' & -> & Hic' & Href' & Hoth). apply runs_ret. split; [done |]. split; [apply length_insert |].
  exists ip'. do 3 (split; [done |]). intros p x Hp. by apply Hoth.
Qed.
Lemma lasting_kept v refs (R : gmap Z Z) j :
  lasting (sb := sb) v refs j -> (forall r, R !! j = Some r -> default 0 (refs !! j) < r) -> roomy refs ->
  d_nlink (dinode_at (sb := sb) v j) <> 0 \/ (forall r, R !! j = Some r -> r <> 1).
Proof.
  intros (_ & _ & Hl) HR Hroom. destruct Hl as [Hl|[r0 Hr0]]; [by left | right]. intros r Hr. specialize (HR r Hr).
  rewrite Hr0 in HR. cbn in HR. unfold id in HR. specialize (Hroom j r0 Hr0). lia.
Qed.

(** [iunlockput] gives back the reference a walk took to [j], whatever
    other references [R] it holds. *)
Lemma iunlockput_counts (s : fs T) v refs R ip j :
  ic_ok s v R (Some ip) -> refers s ip j -> lasting (sb := sb) v refs j ->
  (forall r, R !! j = Some r -> default 0 (refs !! j) < r) -> roomy refs ->
  runs (iunlockput ip) s (fun _ s' => fs_tx s' = fs_tx s /\ length (fs_ic s') = length (fs_ic s) /\
    ic_ok s' v (decr j R) None /\
    forall ip' j', refers s ip' j' -> (forall r, R !! j' = Some r -> j' = j -> 1 < r) -> refers s' ip' j').
Proof.
  intros Hic Href Hl HR Hroom. unfold iunlockput. apply runs_bind.
  eapply runs_mono; [by apply (iunlock_counts s v R ip j) |]. intros [] s1 (Ht1 & Hlen1 & Hic1 & Hr1).
  eapply runs_mono; [apply (iput_counts s1 v R ip j Hic1 (Hr1 _ _ Href)) |].
  - by eapply lasting_kept.
  - intros [] s2 (Ht2 & Hlen2 & Hic2 & Hr2). split; [congruence |]. split; [congruence |]. split; [done |].
    intros ip' j' Hp Hm. apply Hr2; [by apply Hr1 | done].
Qed.

(** What a walk that started with the references [refs] ends with. *)
Definition resolved (v : Z -> block) (refs : gmap Z Z) (L : gset Z) (s s' : fs T) (dest : option Z) (r : option nat) : Prop :=
  settled (fs_tx s') v ∅ L /\ length (fs_ic s') = length (fs_ic s) /\
  match dest with
  | None => r = None /\ ic_ok s' v refs None
  | Some j => exists ip, r = Some ip /\ refers s' ip j /\ ic_ok s' v (incr j refs) None
  end.

Lemma resolved_trans v refs L s s1 s' dest r :
  length (fs_ic s1) = length (fs_ic s) -> resolved v refs L s1 s' dest r -> resolved v refs L s s' dest r.
Proof. intros He (H1 & H2 & H3). split; [done |]. split; [congruence | done]. Qed.

Lemma incr_more j refs : roomy refs -> forall r, incr j refs !! j = Some r -> default 0 (refs !! j) < r.
Proof. intros _ r. rewrite incr_lookup, decide_True by done. intros [= <-]. lia. Qed.

Lemma incr_incr_more j j' refs : roomy refs -> forall r, incr j' (incr j refs) !! j = Some r -> default 0 (refs !! j) < r.
Proof.
  intros Hroom r. rewrite incr_lookup. case_decide as He.
  - subst j'. rewrite incr_lookup, decide_True by done. intros [= <-]. cbn. unfold id. lia.
  - by apply incr_more.
Qed.

Lemma walk_fails (s : fs T) v refs ip j L name :
  settled (fs_tx s) v ∅ L -> ic_ok s v (incr j refs) (Some ip) -> refers s ip j -> lasting (sb := sb) v refs j -> roomy refs ->
  runs (iunlockput ip ;;; ret (None, name : list Z)) s (fun r s' => resolved v refs L s s' None (fst r)).
Proof.
  intros Hs Hic Href Hl Hroom. apply runs_bind.
  eapply runs_mono; [by apply (iunlockput_counts s v refs _ ip j Hic Href Hl (incr_more j refs Hroom)) |].
  intros [] s' (Ht & Hlen & Hic' & _). apply runs_ret. split; [by rewrite Ht |]. split; [done |]. split; [done |].
  rewrite decr_incr in Hic'; [done |]. intros r Hr. by apply (Hroom j).
Qed.

Lemma namex_loop_spec parent v refs L : 
  disk_ok (sb := sb) v -> dirs_ok (sb := sb) v -> roomy refs ->
  forall fuel (s : fs T) ip j path name,
  settled (fs_tx s) v ∅ L -> (size refs + 1 < length (fs_ic s))%nat ->
  ic_ok s v (incr j refs) None -> refers s ip j -> lasting (sb := sb) v refs j ->
  Forall (fun c => c <> 0) path -> (length path < fuel)%nat ->
  runs (namex_loop parent ip path name fuel) s (fun r s' =>
    resolved v refs L s s' (path_walk (sb := sb) parent v j (tokens [SLASH] path)) (fst r) /\
    (forall e, parent = true -> is_Some (fst r) -> last (tokens [SLASH] path) = Some e ->
      name_str (snd r) DIRSIZ = take DIRSIZ e)).
Proof.
  intros Hd Hdirs Hroom. induction fuel as [|fuel IH]; intros s ip j path name Hs Hsz Hic Href Hl Hp Hfuel; [lia |].
  cbn [namex_loop]. pose proof (skipelem_spec path name Hp) as Hsk.
  destruct (skipelem path name) as [[rest name']|].
  2: { rewrite Hsk. cbn [path_walk]. destruct parent.
    - apply runs_bind. eapply runs_mono; [apply (iput_counts s v _ ip j Hic Href) |].
      + apply (lasting_kept v refs); [done | by apply incr_more | done].
      + intros [] s' (Ht & Hlen & Hic' & _). apply runs_ret. split; [| by intros ? _ [? ?]].
        split; [by rewrite Ht |]. split; [done |]. split; [done |]. rewrite decr_incr in Hic'; [done |].
        intros r Hr. by apply (Hroom j).
    - apply runs_ret. split; [| done]. split; [done |]. split; [done |]. by exists ip. }
  destruct Hsk as (e & -> & Hname & Hrest & Hlen & Hend). cbn [path_walk]. apply runs_bind.
  eapply runs_mono; [apply (ilock_counts s v _ ip j L Hs Hic Href); apply Hl |].
  intros [] s1 (Hs1 & Hlen1 & Hic1 & i & Hca & Hpos). eapply runs_inode_at; [apply Hca |].
  rewrite (ca_di _ _ _ _ _ Hca). assert (refers s1 ip j) as Href1 by (exists i; split; [apply Hca | split; [apply Hca | done]]).
  destruct (Z.eqb_spec (d_type (dinode_at (sb := sb) v j)) T_DIR) as [Hty|Hty]; cbn [negb].
  2: { eapply runs_mono; [by apply (walk_fails s1 v refs ip j L name') |]. intros r s' Hr.
    split; [by eapply resolved_trans |]. destruct Hr as (_ & _ & -> & _). by intros ? _ [? ?]. }
  replace (byte_at rest 0 =? 0) with (bool_decide (tokens [SLASH] rest = [])) by
    (apply eq_true_iff_eq; rewrite Z.eqb_eq, bool_decide_eq_true; by symmetry).
  destruct (parent && bool_decide (tokens [SLASH] rest = [])) eqn:Estop.
  { apply andb_true_iff in Estop as [-> Hnil%bool_decide_eq_true]. apply runs_bind.
    eapply runs_mono; [by apply (iunlock_counts s1 v (incr j refs) ip j) |]. intros [] s2 (Ht2 & Hlen2 & Hic2 & Hr2).
    apply runs_ret. split.
    - split; [by rewrite Ht2 |]. split; [cbn; congruence |]. exists ip. split; [done |]. split; [by apply Hr2 | done].
    - intros e' _ _. rewrite Hnil. intros [= <-]. exact Hname. }
  apply runs_bind. eapply runs_mono.
  { apply (dirlookup_counts s1 v _ ip i j L name' Hs1 Hic1 Hca Hd Hdirs Hty).
    - pose proof (incr_size j refs). lia.
    - intros x r Hx. apply (incr_roomy j refs x r Hroom) in Hx. lia. }
  intros r s2 (Hs2 & Hlen2 & Hfind). rewrite Hname in Hfind.
  destruct (dir_find (sb := sb) v j (take DIRSIZ e)) as [[j' off]|] eqn:Ef.
  2: { destruct Hfind as (-> & Hic2 & Hsame). eapply runs_mono; [apply (walk_fails s2 v refs ip j L name' Hs2 Hic2); [| done..] |].
    - destruct Href1 as (q & Hq & Hx). exists q. by rewrite Hsame.
    - intros r s' Hr. split; [eapply resolved_trans; [| exact Hr]; congruence |]. destruct Hr as (_ & _ & -> & _). by intros ? _ [? ?]. }
  destruct Hfind as (ip' & -> & Hic2 & Href' & Hkeep). apply runs_bind.
  eapply runs_mono; [apply (iunlockput_counts s2 v refs _ ip j Hic2 (Hkeep _ _ Href1) Hl); [by apply incr_incr_more | done] |].
  intros [] s3 (Ht3 & Hlen3 & Hic3 & Hr3). rewrite decr_incr_incr in Hic3 by done.
  eapply runs_mono.
  { apply (IH s3 ip' j' rest name'); [by rewrite Ht3 | lia | done | | | done | lia].
    - apply Hr3; [done |]. intros r Hr ->. rewrite incr_lookup, decide_True in Hr by done.
      rewrite incr_lookup, decide_True in Hr by done. injection Hr as <-. cbn. unfold id.
      destruct (refs !! j) as [r0|] eqn:Er; cbn; unfold id; [specialize (Hroom j r0 Er) |]; lia.
    - eapply dir_find_lasting; [apply Hdirs; [apply Hl | done] | exact Ef]. }
  intros r s' [Hres Hnm]. split; [eapply resolved_trans; [| exact Hres]; congruence |].
  intros e' -> Hr He'. apply Hnm; [done | done |]. cbn [andb] in Estop. apply bool_decide_eq_false in Estop.
  destruct (tokens [SLASH] rest) as [|x l]; [done |]. exact He'.
Qed.

Lemma namex_root (s : fs T) v refs L cwd path parent name :
  settled (fs_tx s) v ∅ L -> disk_ok (sb := sb) v -> dirs_ok (sb := sb) v ->
  is_inum (sb := sb) ROOTINO -> d_type (dinode_at (sb := sb) v ROOTINO) <> 0 ->
  d_nlink (dinode_at (sb := sb) v ROOTINO) <> 0 -> ic_ok s v refs None -> roomy refs ->
  (size refs + 1 < length (fs_ic s))%nat -> Forall (fun c => c <> 0) path -> byte_at path 0 = SLASH ->
  runs (namex cwd path parent name) s (fun r s' =>
    resolved v refs L s s' (path_walk (sb := sb) parent v ROOTINO (tokens [SLASH] path)) (fst r) /\
    (forall e, parent = true -> is_Some (fst r) -> last (tokens [SLASH] path) = Some e ->
      name_str (snd r) DIRSIZ = take DIRSIZ e)).
Proof.
  intros Hs Hd Hdirs Hr1 Hr2 Hr3 Hic Hroom Hsz Hp Hb. unfold namex. apply runs_bind. rewrite Hb. cbn [Z.eqb].
  eapply runs_mono; [apply (iget_spec (sb := sb) s v refs None ROOTINO); try done; [lia |] |].
  { intros r Hr. specialize (Hroom _ r Hr). lia. }
  intros ip s1 (i' & -> & Hic1 & Href1 & _). eapply runs_mono.
  { apply (namex_loop_spec parent v refs L Hd Hdirs Hroom _ (put_inode ip i' s) ip ROOTINO); try done; [| | lia].
    + simpl. by rewrite length_insert.
    + split; [done |]. split; [done | by left]. }
  intros r s' [Hres Hnm]. split; [| done]. eapply resolved_trans; [| exact Hres]. apply length_insert.
Qed.

(** C3: Path resolution is the walk over the directories on the disk.
    [namex] (and so [namei] and [nameiparent]) splits the path at slashes,
    compares at most DIRSIZ bytes of each element and starts at the root or
    at the current directory. It returns the inode the walk ends at, or 0
    exactly when an element is missing or is looked up in something that is
    not a directory; for [nameiparent] the last element is left in [name].
    It panics and blocks in no case, changes nothing on the disk, leaves no
    inode locked, and the counts of the inode cache grow by exactly the one
    reference it returns. *)
Theorem namex_correct (s : fs T) v refs L cwd cj path parent name
  (Hs : settled (fs_tx s) v ∅ L) (Hd : disk_ok (sb := sb) v) (Hdirs : dirs_ok (sb := sb) v)
  (Hroot : is_inum (sb := sb) ROOTINO /\ d_type (dinode_at (sb := sb) v ROOTINO) <> 0 /\
    d_nlink (dinode_at (sb := sb) v ROOTINO) <> 0)
  (Hic : ic_ok s v refs None) (Hcwd : refers s cwd cj) (Hcty : d_type (dinode_at (sb := sb) v cj) <> 0)
  (Hroom : roomy refs) (Hsz : (size refs + 1 < length (fs_ic s))%nat) (Hp : Forall (fun c => c <> 0) path) :
  runs (namex cwd path parent name) s (fun r s' =>
    resolved v refs L s s'
      (path_walk (sb := sb) parent v (if byte_at path 0 =? SLASH then ROOTINO else cj) (tokens [SLASH] path)) (fst r) /\
    (forall e, parent = true -> is_Some (fst r) -> last (tokens [SLASH] path) = Some e ->
      name_str (snd r) DIRSIZ = take DIRSIZ e)).
Proof.
  assert (forall x r, refs !! x = Some r -> r + 1 < 2147483647) as Hb by (intros x r Hx; specialize (Hroom x r Hx); lia).
  destruct (Z.eqb_spec (byte_at path 0) SLASH) as [He|He].
  - by apply namex_root; try apply Hroot.
  - unfold namex. apply runs_bind. rewrite (proj2 (Z.eqb_neq _ _) He).
    destruct (icache_entry _ _ _ _ _ _ Hic Hcwd) as (i & Hen & Hr & _).
    eapply runs_mono; [by apply (idup_counts s v refs None cwd cj Hic Hcwd), Hb |].
    intros ip s1 (-> & Ht1 & Hlen1 & Hic1 & Href1). eapply runs_mono.
    { apply (namex_loop_spec parent v refs L Hd Hdirs Hroom _ s1 cwd cj); try done; [by rewrite Ht1 | by rewrite Hlen1 | | lia].
      split; [apply Hen |]. split; [done |]. right. by rewrite Hr. }
    intros r s' [Hres Hnm]. split; [| done]. by eapply resolved_trans.
Qed.
End namex.

(** ** A path on the small disk *)

(** Whether a directory is in order. *)
Definition dir_okb (sb : superblock) (v : Z -> block) (j : Z) : bool :=
  (d_size (dinode_at (sb := sb) v j) mod 16 =? 0) &&
  forallb (fun de => (de_inum de =? 0) ||
    ((0 <=? de_inum de) && (de_inum de <? sb_ninodes sb) &&
     negb (d_type (dinode_at (sb := sb) v (de_inum de)) =? 0) &&
     negb (d_nlink (dinode_at (sb := sb) v (de_inum de)) =? 0))) (dents (sb := sb) v j).

Lemma dir_okb_ok sb v j : dir_okb sb v j = true -> dir_ok (sb := sb) v j.
Proof.
  unfold dir_okb. rewrite andb_true_iff, forallb_forall, Z.eqb_eq. intros [Hm Hall]. split; [done |].
  intros de Hin Hnz. specialize (Hall de). rewrite <- list_elem_of_In in Hall. specialize (Hall Hin).
  rewrite (proj2 (Z.eqb_neq _ _) Hnz) in Hall. cbn [orb] in Hall.
  rewrite !andb_true_iff, !negb_true_iff, Z.leb_le, Z.ltb_lt, !Z.eqb_neq in Hall. unfold is_inum. tauto.
Qed.

Lemma demo_dirs_b : forallb (fun j => implb (d_type (dinode_at (sb := demo_sb) demo_disk j) =? T_DIR)
  (dir_okb demo_sb demo_disk j)) (seqZ 0 16) = true.
Proof. vm_compute. reflexivity. Qed.

Lemma demo_dirs : dirs_ok (sb := demo_sb) demo_disk.
Proof.
  intros j Hj Hty. pose proof demo_dirs_b as Hall. rewrite forallb_forall in Hall. specialize (Hall j).
  rewrite <- list_elem_of_In, elem_of_seqZ in Hall. apply dir_okb_ok.
  unfold is_inum in Hj. simpl in Hj. rewrite Hty in Hall. apply Hall. lia.
Qed.

(** The system inside an operation of a process whose current directory is [inum]. *)
Definition demo_op (inum : Z) : fs (log bio) :=
  mkFs (set_outstanding 1 (boot_on demo_disk 30)) demo_sb (demo_icache inum 1).

Lemma demo_settled inum :
  settled (H0 := log_tx_spec (H0 := bio_spec 200) demo_disk [] 2 30 27) (fs_tx (demo_op inum)) demo_disk ∅ ∅.
Proof.
  apply (log_rep_begin (H0 := bio_spec 200)); [apply demo_logged | reflexivity | reflexivity | reflexivity | lia |].
  unfold NBUF, MAXOPBLOCKS. lia.
Qed.

Lemma demo_icache_at inum k i :
  demo_icache inum 1 !! k = Some i ->
  (k = 0%nat /\ i = mkInode 1 inum 1 false 1 (dinode_at (sb := demo_sb) demo_disk inum)) \/
  (i_ref i = 0 /\ i_locked i = false).
Proof.
  unfold demo_icache. generalize 49%nat. intros n. destruct k as [|k]; cbn.
  - intros [= <-]. by left.
  - intros Hi. right. apply list_elem_of_lookup_2, elem_of_replicate_inv in Hi as ->. done.
Qed.

Lemma demo_icache_ok inum :
  is_inum (sb := demo_sb) inum -> icache_ok (sb := demo_sb) (demo_op inum) demo_disk {[inum := 1]} None.
Proof.
  intros Hn. split.
  - reflexivity.
  - intros ip i [[-> ->]|[Hr Hl]]%demo_icache_at; [done |]. rewrite Hr, Hl. done.
  - intros ip i [[-> ->]|[Hr Hl]]%demo_icache_at Hp; [| lia]. split; [done |]. split; [done |].
    split; [apply lookup_singleton_eq | by right].
  - intros ip ip' i i' [[-> ->]|[Hr Hl]]%demo_icache_at [[-> ->]|[Hr' Hl']]%demo_icache_at Hp Hp'; done || lia.
  - intros x r [<- <-]%lookup_singleton_Some. split; [lia |].
    exists 0%nat, (mkInode 1 inum 1 false 1 (dinode_at (sb := demo_sb) demo_disk inum)). done.
Qed.

#[local] Opaque boot_on demo_disk.

(** "b/../a" from the root directory. *)
Lemma namex_correct_witness :
  runs (namex (H := log_tx_ops (H := bio_ops 200)) (H0 := no_devices (log bio)) 0 [98; 47; 46; 46; 47; 97] false [])
    (demo_op 1) (fun r s' => exists ip, fst r = Some ip /\ refers s' ip 2 /\
      icache_ok (sb := demo_sb) s' demo_disk (incr 2 {[1 := 1]}) None).
Proof.
  eapply runs_mono.
  - apply (namex_correct (H0 := log_tx_spec (H0 := bio_spec 200) demo_disk [] 2 30 27)
      (DevSw0 := no_devices (log bio)) demo_geometry (demo_op 1) demo_disk {[1 := 1]} ∅ 0 1).
    + apply demo_settled.
    + apply demo_disk_ok.
    + apply demo_dirs.
    + repeat split; try (unfold is_inum; simpl; lia); vm_compute; discriminate.
    + apply demo_icache_ok. unfold is_inum. simpl. lia.
    + eexists. split; [reflexivity | done].
    + vm_compute. discriminate.
    + intros x r [<- <-]%lookup_singleton_Some. lia.
    + rewrite map_size_singleton. simpl. lia.
    + repeat constructor; lia.
  - intros r s' [(_ & _ & Hr) _]. cbv beta in Hr.
    assert (path_walk (sb := demo_sb) false demo_disk 1 (tokens [SLASH] [98; 47; 46; 46; 47; 97]) = Some 2) as Hw
      by (vm_compute; reflexivity).
    change (if byte_at [98; 47; 46; 46; 47; 97] 0 =? SLASH then ROOTINO else 1) with 1 in Hr. rewrite Hw in Hr.
    destruct Hr as (ip & He & H1 & H2). exists ip. split; [exact He |]. split; [exact H1 | exact H2].
Defined.
