(* ===== verification/Pipe.v ===== *)
(** * Pipes (pipe.c)

    A ring of 512 bytes with two counters that only grow, modulo 2^32. The
    loops of [pipewrite] and [piperead] run until they return or go to sleep;
    a sleeping call continues with another turn. The abstract pipe is the
    queue of bytes written and not yet read. *)

From S2P Require Import Prelude.

Definition PIPESIZE : Z := 512.

Record pipe := mkPipe {
  pi_data : list Z;
  pi_nread : Z;
  pi_nwrite : Z;
  pi_readopen : Z;
  pi_writeopen : Z
}.

(** What a turn of a call ends with: the call returns, or it sleeps in its loop
    at index [i]. *)
Inductive turn_end := Return (r : Z) | Sleep (i : nat).

(** [pipealloc]: the new pipe. [kalloc] leaves the data as it was. *)
Definition pipealloc_pipe (data : list Z) : pipe := mkPipe data 0 0 1 1.

(** [pipeclose]: the pipe and whether it is freed. *)
Definition pipeclose (p : pipe) (writable : Z) : pipe * bool :=
  let p := if negb (writable =? 0)
           then mkPipe (pi_data p) (pi_nread p) (pi_nwrite p) (pi_readopen p) 0
           else mkPipe (pi_data p) (pi_nread p) (pi_nwrite p) 0 (pi_writeopen p) in
  (p, (pi_readopen p =? 0) && (pi_writeopen p =? 0)).

(** The loop of [pipewrite] from byte [i] on; [rest] are the bytes
    [addr[i..n-1]]. *)
Fixpoint pipewrite_turn (p : pipe) (rest : list Z) (i : nat) (killed : bool) : pipe * turn_end :=
  match rest with
  | [] => (p, Return (Z.of_nat i))
  | b :: rest' =>
      if pi_nwrite p =? u32 (pi_nread p + PIPESIZE) then
        if (pi_readopen p =? 0) || killed then (p, Return (-1)) else (p, Sleep i)
      else
        let p' := mkPipe (<[Z.to_nat (pi_nwrite p mod PIPESIZE) := b]> (pi_data p))
                    (pi_nread p) (u32 (pi_nwrite p + 1)) (pi_readopen p) (pi_writeopen p) in
        pipewrite_turn p' rest' (S i) killed
  end.

(** The copying loop of [piperead]: the bytes read. *)
Fixpoint piperead_copy (p : pipe) (n : nat) : pipe * list Z :=
  match n with
  | O => (p, [])
  | S n' =>
      if pi_nread p =? pi_nwrite p then (p, [])
      else
        let b := default 0 (pi_data p !! Z.to_nat (pi_nread p mod PIPESIZE)) in
        let p' := mkPipe (pi_data p) (u32 (pi_nread p + 1)) (pi_nwrite p) (pi_readopen p) (pi_writeopen p) in
        let '(p'', bs) := piperead_copy p' n' in
        (p'', b :: bs)
  end.

Definition piperead_turn (p : pipe) (n : nat) (killed : bool) : pipe * turn_end * list Z :=
  if (pi_nread p =? pi_nwrite p) && negb (pi_writeopen p =? 0) then
    if killed then (p, Return (-1), []) else (p, Sleep 0, [])
  else
    let '(p', bs) := piperead_copy p n in
    (p', Return (Z.of_nat (length bs)), bs).

(** ** The queue of bytes *)

Record pipe_rep (p : pipe) (q : list Z) : Prop := {
  pr_data : length (pi_data p) = 512%nat;
  pr_nread : 0 <= pi_nread p < 4294967296;
  pr_nwrite : pi_nwrite p = u32 (pi_nread p + Z.of_nat (length q));
  pr_size : (length q <= 512)%nat;
  pr_bytes : forall k b, q !! k = Some b ->
    pi_data p !! Z.to_nat ((pi_nread p + Z.of_nat k) mod PIPESIZE) = Some b
}.

(** The ring index does not see the wrap-around of the counters. *)
Lemma u32_mod_pipe x : u32 x mod PIPESIZE = x mod PIPESIZE.
Proof.
  unfold u32, PIPESIZE. rewrite (Z.div_mod x 4294967296) at 2 by lia.
  replace (4294967296 * (x / 4294967296)) with ((8388608 * (x / 4294967296)) * 512) by lia.
  by rewrite Z.add_comm, Z.mod_add.
Qed.

Lemma pipe_index_inj x j k :
  0 <= j < 512 -> 0 <= k < 512 -> (x + j) mod PIPESIZE = (x + k) mod PIPESIZE -> j = k.
Proof.
  unfold PIPESIZE. intros Hj Hk H.
  pose proof (Z.div_mod (x + j) 512 ltac:(lia)). pose proof (Z.div_mod (x + k) 512 ltac:(lia)). lia.
Qed.

Lemma pipe_full p q :
  pipe_rep p q -> (pi_nwrite p =? u32 (pi_nread p + PIPESIZE)) = bool_decide (length q = 512%nat).
Proof.
  intros H. rewrite (pr_nwrite _ _ H). pose proof (pr_size _ _ H). pose proof (pr_nread _ _ H).
  unfold u32, PIPESIZE. case_bool_decide as Hq.
  - rewrite Hq. by rewrite Z.eqb_refl.
  - apply Z.eqb_neq. intros He.
    pose proof (Z.div_mod (pi_nread p + Z.of_nat (length q)) 4294967296 ltac:(lia)).
    pose proof (Z.div_mod (pi_nread p + 512) 4294967296 ltac:(lia)). lia.
Qed.

Lemma pipe_empty p q :
  pipe_rep p q -> (pi_nread p =? pi_nwrite p) = bool_decide (q = []).
Proof.
  intros H. rewrite (pr_nwrite _ _ H). pose proof (pr_size _ _ H). pose proof (pr_nread _ _ H).
  case_bool_decide as Hq.
  - subst q. simpl. rewrite Z.add_0_r, u32_small by done. by rewrite Z.eqb_refl.
  - apply Z.eqb_neq. intros He. destruct q as [|b q]; [done |]. simpl in *. unfold u32 in He.
    pose proof (Z.div_mod (pi_nread p + Z.of_nat (S (length q))) 4294967296 ltac:(lia)). lia.
Qed.

Lemma pipe_rep_write p q b :
  pipe_rep p q -> (length q < 512)%nat ->
  pipe_rep (mkPipe (<[Z.to_nat (pi_nwrite p mod PIPESIZE) := b]> (pi_data p)) (pi_nread p)
    (u32 (pi_nwrite p + 1)) (pi_readopen p) (pi_writeopen p)) (q ++ [b]).
Proof.
  intros H Hq. pose proof (pr_data _ _ H) as Hd.
  assert (Hm : pi_nwrite p mod PIPESIZE = (pi_nread p + Z.of_nat (length q)) mod PIPESIZE).
  { by rewrite (pr_nwrite _ _ H), u32_mod_pipe. }
  assert (Hb : forall x, 0 <= x mod PIPESIZE < 512) by (intros; apply Z.mod_pos_bound; done).
  split; simpl.
  - by rewrite length_insert.
  - apply H.
  - rewrite (pr_nwrite _ _ H), u32_add_l, length_app. simpl. f_equal. lia.
  - rewrite length_app. simpl. lia.
  - intros k c Hk. rewrite Hm. apply lookup_app_Some in Hk as [Hk|[Hge Hk]].
    + rewrite list_lookup_insert_ne; [by eapply (pr_bytes _ _ H) |].
      apply lookup_lt_Some in Hk. intros He.
      apply Z2Nat.inj in He; [| apply Hb | apply Hb]. apply pipe_index_inj in He; lia.
    + apply list_lookup_singleton_Some in Hk as [Hk ->].
      replace k with (length q) by lia. apply list_lookup_insert_eq.
      pose proof (Hb (pi_nread p + Z.of_nat (length q))). rewrite Hd. lia.
Qed.

Lemma pipe_rep_read p b q :
  pipe_rep p (b :: q) ->
  default 0 (pi_data p !! Z.to_nat (pi_nread p mod PIPESIZE)) = b /\
  pipe_rep (mkPipe (pi_data p) (u32 (pi_nread p + 1)) (pi_nwrite p) (pi_readopen p) (pi_writeopen p)) q.
Proof.
  intros H. split.
  - pose proof (pr_bytes _ _ H 0%nat b eq_refl) as Hb. rewrite Z.add_0_r in Hb. by rewrite Hb.
  - pose proof (pr_size _ _ H) as Hs. simpl in Hs. split; simpl.
    + apply H.
    + apply u32_range.
    + rewrite (pr_nwrite _ _ H), u32_add_l. simpl. f_equal. lia.
    + lia.
    + intros k c Hk. rewrite <- Zplus_mod_idemp_l, u32_mod_pipe, Zplus_mod_idemp_l.
      replace (pi_nread p + 1 + Z.of_nat k) with (pi_nread p + Z.of_nat (S k)) by lia.
      by apply (pr_bytes _ _ H (S k)).
Qed.

(** ** The calls *)

(** A turn of [pipewrite] puts bytes into the queue until it has written all of
    them or the queue is full; it gives up only when nobody will read. *)
Lemma pipewrite_turn_spec rest : forall p q i killed,
  pipe_rep p q ->
  let k := Nat.min (length rest) (512 - length q) in
  let '(p', e) := pipewrite_turn p rest i killed in
  pipe_rep p' (q ++ take k rest) /\
  pi_readopen p' = pi_readopen p /\ pi_writeopen p' = pi_writeopen p /\
  e = (if bool_decide (k = length rest) then Return (Z.of_nat (i + length rest))
       else if (pi_readopen p =? 0) || killed then Return (-1) else Sleep (i + k)).
Proof.
  induction rest as [|b rest IH]; intros p q i killed H; cbn [length Nat.min pipewrite_turn].
  - rewrite app_nil_r, Nat.add_0_r. done.
  - rewrite (pipe_full _ _ H). pose proof (pr_size _ _ H) as Hs. case_bool_decide as Hq.
    + rewrite Hq. simpl. rewrite app_nil_r, Nat.add_0_r. by destruct (_ || _).
    + specialize (IH _ _ (S i) killed (pipe_rep_write _ _ b H ltac:(lia))).
      rewrite length_app in IH. simpl in IH.
      replace (512 - length q)%nat with (S (512 - (length q + 1)))%nat by lia. cbn [Nat.min].
      destruct (pipewrite_turn _ rest (S i) killed) as [p' e]. cbv zeta in *.
      destruct IH as (Hr & Ho & Hw & ->). rewrite <- app_assoc in Hr. cbn [take app] in *.
      split; [exact Hr |]. split; [done |]. split; [done |].
      repeat case_bool_decide; try lia; [f_equal; lia |].
      destruct ((pi_readopen p =? 0) || killed); [done |]. f_equal. lia.
Qed.

Lemma piperead_copy_spec n : forall p q,
  pipe_rep p q ->
  let '(p', bs) := piperead_copy p n in
  bs = take n q /\ pipe_rep p' (drop n q) /\
  pi_readopen p' = pi_readopen p /\ pi_writeopen p' = pi_writeopen p.
Proof.
  induction n as [|n IH]; intros p q H; simpl.
  - by rewrite take_0, drop_0.
  - rewrite (pipe_empty _ _ H). case_bool_decide as Hq; [subst q; done |].
    destruct q as [|b q]; [done |]. apply pipe_rep_read in H as [-> H].
    specialize (IH _ _ H). destruct (piperead_copy _ n) as [p' bs]. destruct IH as (-> & ? & ? & ?). done.
Qed.

(** ** Several processes on one pipe

    Turns of reading and writing calls and closes interleave in any order.
    [sent] and [got] are the bytes put into and taken out of the pipe so far. *)
Definition moved (p p' : pipe) (rest : list Z) : list Z :=
  take (Z.to_nat (u32 (pi_nwrite p' - pi_nwrite p))) rest.

Inductive pipe_step : pipe * list Z * list Z -> pipe * list Z * list Z -> Prop :=
| pstep_write p sent got rest i killed p' e :
    pipewrite_turn p rest i killed = (p', e) ->
    pipe_step (p, sent, got) (p', sent ++ moved p p' rest, got)
| pstep_read p sent got n killed p' e bs :
    piperead_turn p n killed = (p', e, bs) ->
    pipe_step (p, sent, got) (p', sent, got ++ bs)
| pstep_close p sent got writable p' freed :
    pipeclose p writable = (p', freed) -> pipe_step (p, sent, got) (p', sent, got).

Definition pipe_inv (x : pipe * list Z * list Z) : Prop :=
  let '(p, sent, got) := x in exists q, pipe_rep p q /\ sent = got ++ q.

Lemma moved_spec p p' q q' rest k :
  pipe_rep p q -> pipe_rep p' q' -> pi_nread p' = pi_nread p -> q' = q ++ take k rest ->
  (k <= length rest)%nat -> moved p p' rest = take k rest.
Proof.
  intros H H' Hn -> Hk. unfold moved. f_equal.
  rewrite (pr_nwrite _ _ H), (pr_nwrite _ _ H'), Hn, u32_sub_idemp, length_app, length_take.
  pose proof (pr_size _ _ H') as Hs. rewrite length_app, length_take in Hs.
  rewrite u32_small by lia. lia.
Qed.

Lemma pipewrite_turn_nread rest : forall p i killed p' e,
  pipewrite_turn p rest i killed = (p', e) -> pi_nread p' = pi_nread p.
Proof.
  induction rest as [|b rest IH]; intros p i killed p' e; simpl; [by intros [= <- _] |].
  destruct (_ =? _); [destruct (_ || _); by intros [= <- _] |]. intros He. by apply IH in He.
Qed.

Lemma pipe_inv_step x y : pipe_inv x -> pipe_step x y -> pipe_inv y.
Proof.
  intros Hx Hs. destruct Hs as [p sent got rest i killed p' e He | p sent got n killed p' e bs He |
    p sent got writable p' freed He]; destruct Hx as (q & H & ->).
  - pose proof (pipewrite_turn_spec rest p q i killed H) as Hsp. cbv zeta in Hsp. rewrite He in Hsp.
    destruct Hsp as (H' & _). eexists. split; [exact H' |].
    erewrite (moved_spec p p' q _ rest _ H H'); [by rewrite app_assoc | | done | lia].
    by eapply pipewrite_turn_nread.
  - unfold piperead_turn in He. destruct (_ && _).
    + destruct killed; injection He as <- <- <-; rewrite app_nil_r; by exists q.
    + pose proof (piperead_copy_spec n p q H) as Hsp. destruct (piperead_copy p n) as [p1 bs1].
      injection He as <- <- <-. destruct Hsp as (-> & H' & _). exists (drop n q). split; [done |].
      by rewrite <- app_assoc, take_drop.
  - unfold pipeclose in He. exists q. split; [| done]. destruct H as [H1 H2 H3 H4 H5].
    destruct (negb _); injection He as <- _; by split.
Qed.

(** C29: A pipe is a FIFO queue. In whatever order the turns of the reading and
    writing processes and the closes interleave, and although the byte
    counters wrap around, the bytes written so far are exactly the bytes read
    so far followed by the at most 512 bytes still in the pipe, in order. *)
Theorem pipe_fifo data p sent got
  (Hdata : length data = 512%nat)
  (Hreach : rtc pipe_step (pipealloc_pipe data, [], []) (p, sent, got)) :
  exists q, pipe_rep p q /\ sent = got ++ q /\ (length q <= 512)%nat.
Proof.
  assert (pipe_inv (pipealloc_pipe data, [], [])) as H0.
  { exists []. split; [| done]. split; simpl; try done; lia. }
  destruct (rtc_invariant pipe_step pipe_inv _ _ pipe_inv_step H0 Hreach) as (q & H & He).
  exists q. split; [done |]. split; [done |]. apply H.
Qed.

Lemma pipe_fifo_witness : exists q,
  pipe_rep (fst (pipewrite_turn (pipealloc_pipe (replicate 512 0)) [65; 66] 0 false)) q /\
  [65; 66] = [] ++ q /\ (length q <= 512)%nat.
Proof.
  apply (pipe_fifo (replicate 512 0) _ [65; 66] []).
  - reflexivity.
  - apply rtc_once.
    exact (pstep_write (pipealloc_pipe (replicate 512 0)) [] [] [65; 66] 0 false
      (fst (pipewrite_turn (pipealloc_pipe (replicate 512 0)) [65; 66] 0 false))
      (snd (pipewrite_turn (pipealloc_pipe (replicate 512 0)) [65; 66] 0 false)) eq_refl).
Defined.

(** [piperead] of a pipe that holds the bytes [q]: it sleeps only when
    there is nothing to read, the write end is open and the caller was not
    killed; it fails only when killed in that situation; otherwise it returns
    the first [n] bytes of the queue (all of them if there are fewer, so 0 at
    the end of the stream) and removes them. *)
Theorem piperead_correct p q n killed (H : pipe_rep p q) :
  let '(p', e, bs) := piperead_turn p n killed in
  if bool_decide (q = []) && negb (pi_writeopen p =? 0)
  then p' = p /\ bs = [] /\ e = (if killed then Return (-1) else Sleep 0)
  else pipe_rep p' (drop n q) /\ bs = take n q /\ e = Return (Z.of_nat (Nat.min n (length q))).
Proof.
  unfold piperead_turn. rewrite (pipe_empty _ _ H). destruct (_ && _).
  - by destruct killed.
  - pose proof (piperead_copy_spec n p q H) as Hsp. destruct (piperead_copy p n) as [p' bs].
    destruct Hsp as (-> & H' & _). split; [done |]. split; [done |]. by rewrite length_take.
Qed.

Lemma piperead_correct_witness :
  let p := fst (pipewrite_turn (pipealloc_pipe (replicate 512 0)) [65; 66; 67] 0 false) in
  pipe_rep (fst (fst (piperead_turn p 2 false))) (drop 2 [65; 66; 67]) /\
  snd (piperead_turn p 2 false) = [65; 66] /\
  snd (fst (piperead_turn p 2 false)) = Return 2.
Proof.
  intros p. assert (pipe_rep p [65; 66; 67]) as Hp.
  { split; [reflexivity | simpl; lia | reflexivity | simpl; lia |].
    intros [|[|[|k]]] b Hk; simpl in Hk; simplify_eq; reflexivity. }
  exact (piperead_correct p [65; 66; 67] 2 false Hp).
Defined.

(** [pipewrite] into a pipe that holds [q]: it stores bytes until all are
    written or the pipe is full. When all of them fit it returns their number;
    when the pipe fills up it fails if the read end is closed or the caller
    was killed, and sleeps otherwise. *)
Theorem pipewrite_correct p q rest i killed (H : pipe_rep p q) :
  let k := Nat.min (length rest) (512 - length q) in
  let '(p', e) := pipewrite_turn p rest i killed in
  pipe_rep p' (q ++ take k rest) /\
  e = (if bool_decide (k = length rest) then Return (Z.of_nat (i + length rest))
       else if (pi_readopen p =? 0) || killed then Return (-1) else Sleep (i + k)).
Proof.
  pose proof (pipewrite_turn_spec rest p q i killed H) as Hsp. cbv zeta in *.
  destruct (pipewrite_turn p rest i killed) as [p' e]. tauto.
Qed.

Lemma pipewrite_correct_witness :
  let p := pipealloc_pipe (replicate 512 0) in
  pipe_rep (fst (pipewrite_turn p [65; 66] 0 false)) [65; 66] /\
  snd (pipewrite_turn p [65; 66] 0 false) = Return 2.
Proof.
  intros p. assert (pipe_rep p []) as Hp by (split; simpl; try done; lia).
  exact (pipewrite_correct p [] [65; 66] 0 false Hp).
Defined.
