(* ===== verification/File.v ===== *)
(** * Open files (file.c, pipe.c, the descriptor calls of sysfile.c)

    The table of open files with its reference counts, pipe creation, and the
    descriptor tables of the processes: [filealloc], [filedup], [fileclose],
    [pipealloc], [fdalloc], [sys_dup], [sys_close], [sys_pipe], and the loops of
    [fork2] and [exit] over the descriptors. The inode layer is used through the
    one call [fileclose] makes into it. *)

From stdpp Require Import gmap.
From S2P Require Import Prelude Mem Params Kalloc Pipe.

Inductive ftype := FD_NONE | FD_PIPE | FD_INODE.

#[export] Instance ftype_eq_dec : EqDecision ftype.
Proof. solve_decision. Defined.

Record file := mkFile {
  f_type : ftype;
  f_ref : Z;
  f_readable : Z;
  f_writable : Z;
  f_pipe : Z;
  f_ip : nat;
  f_off : Z
}.

Definition fset_ref v f := mkFile (f_type f) v (f_readable f) (f_writable f) (f_pipe f) (f_ip f) (f_off f).
Definition fset_type v f := mkFile v (f_ref f) (f_readable f) (f_writable f) (f_pipe f) (f_ip f) (f_off f).

(** [begin_op(); iput(ip); end_op();] *)
Class InodeClose (IC : Type) := { inode_close : nat -> ST IC unit }.

(** [ftable.file], the pipes by the page that holds them, the page allocator,
    the inode layer, and [ofile] of each process. *)
Record fstate (IC : Type) := mkFstate {
  fs_file : list file;
  fs_pipe : gmap Z pipe;
  fs_kmem : kmem;
  fs_inode : IC;
  fs_ofile : list (list (option nat))
}.
Arguments mkFstate {IC}.
Arguments fs_file {IC}.
Arguments fs_pipe {IC}.
Arguments fs_kmem {IC}.
Arguments fs_inode {IC}.
Arguments fs_ofile {IC}.

Section file.
Context {IC : Type} `{InodeClose IC} (kend : Z).

Definition with_file v (s : fstate IC) := mkFstate v (fs_pipe s) (fs_kmem s) (fs_inode s) (fs_ofile s).
Definition with_pipe v (s : fstate IC) := mkFstate (fs_file s) v (fs_kmem s) (fs_inode s) (fs_ofile s).
Definition with_kmem v (s : fstate IC) := mkFstate (fs_file s) (fs_pipe s) v (fs_inode s) (fs_ofile s).
Definition with_inode (v : IC) (s : fstate IC) := mkFstate (fs_file s) (fs_pipe s) (fs_kmem s) v (fs_ofile s).
Definition with_ofile v (s : fstate IC) := mkFstate (fs_file s) (fs_pipe s) (fs_kmem s) (fs_inode s) v.

Definition file_at (f : nat) : ST (fstate IC) file := fun s =>
  match fs_file s !! f with Some x => Ok (x, s) | None => Undef end.
Definition upd_file (f : nat) (g : file -> file) : ST (fstate IC) unit :=
  modify (fun s => with_file (alter g f (fs_file s)) s).

Definition filealloc : ST (fstate IC) (option nat) :=
  let* fs := get fs_file in
  match find_from (fun f => f_ref f =? 0) fs 0 with
  | Some i => upd_file i (fset_ref 1) ;;; ret (Some i)
  | None => ret None
  end.

Definition filedup (f : nat) : ST (fstate IC) nat :=
  let* x := file_at f in
  if f_ref x <? 1 then panic "filedup"
  else upd_file f (fset_ref (f_ref x + 1)) ;;; ret f.

(** [pipeclose] of the pipe in page [pg]; [kfree] when both ends are closed. *)
Definition pipeclose_page (pg writable : Z) : ST (fstate IC) unit := fun s =>
  match fs_pipe s !! pg with
  | None => Undef
  | Some p =>
      let '(p', freed) := pipeclose p writable in
      if freed then
        let! k := kfree kend pg (fs_kmem s) in
        Ok (tt, with_kmem k (with_pipe (delete pg (fs_pipe s)) s))
      else Ok (tt, with_pipe (<[pg := p']> (fs_pipe s)) s)
  end.

Definition iput_file (ip : nat) : ST (fstate IC) unit := fun s =>
  let! (_, i) := inode_close ip (fs_inode s) in Ok (tt, with_inode i s).

Definition fileclose (f : nat) : ST (fstate IC) unit :=
  let* ff := file_at f in
  if f_ref ff <? 1 then panic "fileclose"
  else
    upd_file f (fset_ref (f_ref ff - 1)) ;;;
    if 0 <? f_ref ff - 1 then ret tt
    else
      upd_file f (fun x => fset_type FD_NONE (fset_ref 0 x)) ;;;
      match f_type ff with
      | FD_PIPE => pipeclose_page (f_pipe ff) (f_writable ff)
      | FD_INODE => iput_file (f_ip ff)
      | FD_NONE => ret tt
      end.

(** ** Pipes *)

(** Offset of [data] in [struct pipe], after the spin lock. *)
Definition PIPE_DATA : Z := 52.

Definition pipealloc : ST (fstate IC) (option (nat * nat)) :=
  let* f0 := filealloc in
  match f0 with
  | None => ret None
  | Some i0 =>
      let* f1 := filealloc in
      match f1 with
      | None => fileclose i0 ;;; ret None
      | Some i1 =>
          let* k := get fs_kmem in
          let '(pg, k') := kalloc k in
          modify (with_kmem k') ;;;
          if pg =? 0 then fileclose i0 ;;; fileclose i1 ;;; ret None
          else
            let data := (fun i => kmem_mem k' (pg + PIPE_DATA + Z.of_nat i)) <$> seq 0 512 in
            modify (fun s => with_pipe (<[pg := pipealloc_pipe data]> (fs_pipe s)) s) ;;;
            upd_file i0 (fun f => mkFile FD_PIPE (f_ref f) 1 0 pg (f_ip f) (f_off f)) ;;;
            upd_file i1 (fun f => mkFile FD_PIPE (f_ref f) 0 1 pg (f_ip f) (f_off f)) ;;;
            ret (Some (i0, i1))
      end
  end.

(** ** Descriptors of process [p] *)

Definition ofile_at (p : nat) : ST (fstate IC) (list (option nat)) := fun s =>
  match fs_ofile s !! p with Some o => Ok (o, s) | None => Undef end.
Definition set_fd (p fd : nat) (f : option nat) : ST (fstate IC) unit :=
  modify (fun s => with_ofile (alter (fun o => <[fd := f]> o) p (fs_ofile s)) s).

Definition is_null (f : option nat) : bool := match f with None => true | Some _ => false end.

Definition fdalloc (p f : nat) : ST (fstate IC) Z :=
  let* o := ofile_at p in
  match find_from is_null o 0 with
  | Some fd => set_fd p fd (Some f) ;;; ret (Z.of_nat fd)
  | None => ret (-1)
  end.

(** [argfd] once the system call argument is fetched. *)
Definition argfd (p : nat) (fd : Z) : ST (fstate IC) (option nat) :=
  let* o := ofile_at p in
  if (fd <? 0) || (Z.of_nat NOFILE <=? fd) then ret None
  else match o !! Z.to_nat fd with
       | Some f => ret f
       | None => undef
       end.

Definition sys_dup (p : nat) (arg0 : Z) : ST (fstate IC) Z :=
  let* f := argfd p arg0 in
  match f with
  | None => ret (-1)
  | Some i =>
      let* fd := fdalloc p i in
      if fd <? 0 then ret (-1)
      else filedup i ;;; ret fd
  end.

Definition sys_close (p : nat) (arg0 : Z) : ST (fstate IC) Z :=
  let* f := argfd p arg0 in
  match f with
  | None => ret (-1)
  | Some i => set_fd p (Z.to_nat arg0) None ;;; fileclose i ;;; ret 0
  end.

(** [sys_pipe]: the two descriptors, or [None] for -1. *)
Definition sys_pipe (p : nat) : ST (fstate IC) (option (Z * Z)) :=
  let* r := pipealloc in
  match r with
  | None => ret None
  | Some (rf, wf) =>
      let* fd0 := fdalloc p rf in
      if fd0 <? 0 then fileclose rf ;;; fileclose wf ;;; ret None
      else
        let* fd1 := fdalloc p wf in
        if fd1 <? 0 then
          set_fd p (Z.to_nat fd0) None ;;; fileclose rf ;;; fileclose wf ;;; ret None
        else ret (Some (fd0, fd1))
  end.

(** The loop of [fork2] that hands the open files on to the child. *)
Fixpoint fork_files (parent child : nat) (fds : list nat) : ST (fstate IC) unit :=
  match fds with
  | [] => ret tt
  | fd :: fds' =>
      let* o := ofile_at parent in
      match o !! fd with
      | Some (Some f) =>
          (let* f := filedup f in set_fd child fd (Some f)) ;;; fork_files parent child fds'
      | Some None => fork_files parent child fds'
      | None => undef
      end
  end.

(** The loop of [exit] that closes all files. *)
Fixpoint exit_files (p : nat) (fds : list nat) : ST (fstate IC) unit :=
  match fds with
  | [] => ret tt
  | fd :: fds' =>
      let* o := ofile_at p in
      match o !! fd with
      | Some (Some f) => fileclose f ;;; set_fd p fd None ;;; exit_files p fds'
      | Some None => exit_files p fds'
      | None => undef
      end
  end.
End file.

(** ** The invariant

    [refs] is the list of references to open files there are, from descriptors
    or from calls in progress. *)

Definition count_refs (i : nat) (refs : list nat) : nat := length (filter (fun j => j = i) refs).

Definition pipe_end (x : file) (pg : Z) (writing : bool) : Prop :=
  f_type x = FD_PIPE /\ f_pipe x = pg /\ negb (f_writable x =? 0) = writing.

Definition end_open (p : pipe) (writing : bool) : Z := if writing then pi_writeopen p else pi_readopen p.

Section inv.
Context {IC : Type} `{InodeClose IC} (kend : Z).

(** Reference counts are exact; free entries are of no type; each open end of
    a pipe belongs to exactly one open file; every pipe has an open end; the
    pages of the pipes are allocated. *)
Record files_inv (s : fstate IC) (refs : list nat) : Prop := {
  fi_valid : forall i, i ∈ refs -> is_Some (fs_file s !! i);
  fi_ref : forall i x, fs_file s !! i = Some x -> f_ref x = Z.of_nat (count_refs i refs);
  fi_free : forall i x, fs_file s !! i = Some x -> f_ref x = 0 -> f_type x = FD_NONE;
  fi_pipe : forall i x pg w, fs_file s !! i = Some x -> pipe_end x pg w ->
    exists p, fs_pipe s !! pg = Some p /\ end_open p w <> 0;
  fi_ends : forall i j x y pg w, fs_file s !! i = Some x -> fs_file s !! j = Some y ->
    pipe_end x pg w -> pipe_end y pg w -> i = j;
  fi_open : forall pg p w, fs_pipe s !! pg = Some p -> end_open p w <> 0 ->
    exists i x, fs_file s !! i = Some x /\ pipe_end x pg w;
  fi_used : forall pg p, fs_pipe s !! pg = Some p -> pi_readopen p <> 0 \/ pi_writeopen p <> 0;
  fi_mem : exists l, kmem_free kend (fs_kmem s) l /\
    forall pg p, fs_pipe s !! pg = Some p -> page kend pg /\ pg ∉ l
}.

Lemma count_refs_cons i j refs :
  count_refs i (j :: refs) = if decide (j = i) then S (count_refs i refs) else count_refs i refs.
Proof. unfold count_refs. rewrite filter_cons. by case_decide. Qed.

Lemma count_refs_elem i refs : i ∈ refs <-> (0 < count_refs i refs)%nat.
Proof.
  induction refs as [|j refs IH]; [split; [by intros ?%not_elem_of_nil | unfold count_refs; simpl; lia] |].
  rewrite elem_of_cons, IH, count_refs_cons. case_decide; [lia | naive_solver].
Qed.

#[export] Instance files_inv_perm s : Proper ((≡ₚ) ==> impl) (files_inv s).
Proof.
  intros r1 r2 Hp [H1 H2 H3 H4 H5 H6 H7 H8]. split; try done.
  - intros i. rewrite <- Hp. apply H1.
  - intros i x Hx. unfold count_refs. rewrite <- Hp. by apply H2.
Qed.

#[export] Instance files_inv_perm_iff s : Proper ((≡ₚ) ==> iff) (files_inv s).
Proof. intros r1 r2 Hp. split; apply files_inv_perm; [done | by symmetry]. Qed.

Lemma file_at_spec s i x (Q : file -> fstate IC -> Prop) :
  fs_file s !! i = Some x -> Q x s -> runs (file_at i) s Q.
Proof. intros Hx HQ. exists x, s. unfold file_at. by rewrite Hx. Qed.

(** A change of one entry's reference count that keeps its kind. *)
Lemma files_inv_ref s refs refs' i x v :
  files_inv s refs -> fs_file s !! i = Some x ->
  (forall j, j ∈ refs' -> j = i \/ j ∈ refs) ->
  (forall j, j <> i -> count_refs j refs' = count_refs j refs) ->
  v = Z.of_nat (count_refs i refs') -> (v = 0 -> f_type x = FD_NONE) ->
  files_inv (with_file (alter (fset_ref v) i (fs_file s)) s) refs'.
Proof.
  intros [H1 H2 H3 H4 H5 H6 H7 H8] Hx Hval Hcnt Hv Hty.
  assert (Hl : forall j y, alter (fset_ref v) i (fs_file s) !! j = Some y -> exists y0,
    fs_file s !! j = Some y0 /\ (forall pg w, pipe_end y pg w <-> pipe_end y0 pg w) /\
    f_type y = f_type y0 /\ f_ref y = (if decide (i = j) then v else f_ref y0)).
  { intros j y Hy. destruct (decide (i = j)) as [<-|Hne].
    - rewrite list_lookup_alter_eq, Hx in Hy. injection Hy as <-. exists x. done.
    - rewrite list_lookup_alter_ne in Hy by done. by exists y. }
  split; simpl.
  - intros j Hj. apply lookup_lt_is_Some. rewrite length_alter. apply lookup_lt_is_Some.
    destruct (Hval j Hj) as [->|]; eauto.
  - intros j y Hy. destruct (Hl j y Hy) as (y0 & Hy0 & _ & _ & ->). case_decide as Hij; [by subst |].
    rewrite Hcnt by done. by apply H2.
  - intros j y Hy Hr. destruct (Hl j y Hy) as (y0 & Hy0 & _ & -> & He). rewrite He in Hr.
    case_decide as Hij; [subst; simplify_eq; auto | eauto].
  - intros j y pg w Hy He. destruct (Hl j y Hy) as (y0 & Hy0 & Hpe & _). apply Hpe in He. eauto.
  - intros j k y z pg w Hy Hz He1 He2. destruct (Hl j y Hy) as (y0 & Hy0 & Hpe1 & _).
    destruct (Hl k z Hz) as (z0 & Hz0 & Hpe2 & _). apply Hpe1 in He1. apply Hpe2 in He2. eauto.
  - intros pg p w Hp Ho. destruct (H6 pg p w Hp Ho) as (j & y & Hy & He). exists j.
    destruct (decide (i = j)) as [<-|Hne].
    + rewrite list_lookup_alter_eq, Hy. eexists. split; [done |]. exact He.
    + rewrite list_lookup_alter_ne by done. eauto.
  - done.
  - done.
Qed.

Lemma filealloc_spec s refs :
  files_inv s refs ->
  runs filealloc s (fun r s' => match r with
    | Some i => files_inv s' (i :: refs) /\ (i ∉ refs) /\
        fs_pipe s' = fs_pipe s /\ fs_kmem s' = fs_kmem s /\ fs_inode s' = fs_inode s /\ fs_ofile s' = fs_ofile s /\
        (forall j, j <> i -> fs_file s' !! j = fs_file s !! j) /\
        (exists x, fs_file s' !! i = Some x /\ f_type x = FD_NONE)
    | None => s' = s /\ forall i x, fs_file s !! i = Some x -> f_ref x <> 0
    end).
Proof.
  intros Hi. unfold filealloc. apply runs_bind, runs_get.
  destruct (find_from (fun f => f_ref f =? 0) (fs_file s) 0) as [i|] eqn:Hf.
  - apply find_from_Some in Hf as (j & x & -> & Hx & Hr & _). apply Z.eqb_eq in Hr. simpl in *.
    pose proof (fi_ref _ _ Hi _ _ Hx) as Hc. apply runs_bind, runs_modify, runs_ret.
    assert (Hnin : j ∉ refs) by (rewrite count_refs_elem; lia).
    split; [| split; [done |]; repeat (split; [done |]); split].
    + eapply files_inv_ref; [done | done | | | |].
      * intros k Hk. apply elem_of_cons in Hk. naive_solver.
      * intros k Hk. rewrite count_refs_cons. by rewrite decide_False.
      * rewrite count_refs_cons, decide_True by done. lia.
      * lia.
    + intros k Hk. by apply list_lookup_alter_ne.
    + eexists. simpl. rewrite list_lookup_alter_eq, Hx. split; [done |].
      simpl. by apply (fi_free _ _ Hi _ _ Hx).
  - apply runs_ret. split; [done |]. intros i x Hx Hr. apply find_from_None in Hf.
    rewrite Forall_forall in Hf. specialize (Hf x (list_elem_of_lookup_2 _ _ _ Hx)).
    by apply Z.eqb_neq in Hf.
Qed.

Lemma filedup_spec s refs i :
  files_inv s refs -> i ∈ refs ->
  runs (filedup i) s (fun r s' => r = i /\ files_inv s' (i :: refs) /\ fs_ofile s' = fs_ofile s).
Proof.
  intros Hi Hin. destruct (fi_valid _ _ Hi i Hin) as [x Hx]. pose proof (fi_ref _ _ Hi _ _ Hx) as Hr.
  apply count_refs_elem in Hin. unfold filedup. apply runs_bind, (file_at_spec _ _ _ _ Hx).
  rewrite (proj2 (Z.ltb_ge _ _)) by lia. apply runs_bind, runs_modify, runs_ret.
  split; [done |]. split; [| done]. eapply files_inv_ref; [done | done | | | |].
  - intros k Hk. apply elem_of_cons in Hk. naive_solver.
  - intros k Hk. rewrite count_refs_cons. by rewrite decide_False.
  - rewrite count_refs_cons, decide_True by done. lia.
  - lia.
Qed.

Definition is_open (m : gmap Z pipe) (pg : Z) (w : bool) : Prop :=
  exists p, m !! pg = Some p /\ end_open p w <> 0.

(** Dropping the last reference of file [x]: its pipe end, if any, is closed
    and nothing else changes. *)
Lemma files_inv_close s s' refs i x g :
  files_inv s (i :: refs) -> i ∉ refs -> fs_file s !! i = Some x ->
  f_type (g x) = FD_NONE -> f_ref (g x) = 0 -> fs_file s' = alter g i (fs_file s) ->
  (forall pg w, is_open (fs_pipe s') pg w <-> is_open (fs_pipe s) pg w /\ ~ pipe_end x pg w) ->
  (forall pg p, fs_pipe s' !! pg = Some p -> pi_readopen p <> 0 \/ pi_writeopen p <> 0) ->
  (exists l, kmem_free kend (fs_kmem s') l /\
    forall pg p, fs_pipe s' !! pg = Some p -> page kend pg /\ pg ∉ l) ->
  files_inv s' refs.
Proof.
  intros [H1 H2 H3 H4 H5 H6 H7 H8] Hnin Hx Hgt Hgr Hfile Hopen Hused Hmem.
  assert (Hl : forall j y, fs_file s' !! j = Some y ->
    (j = i /\ y = g x) \/ (j <> i /\ fs_file s !! j = Some y)).
  { intros j y Hy. rewrite Hfile in Hy. destruct (decide (i = j)) as [<-|Hne].
    - rewrite list_lookup_alter_eq, Hx in Hy. injection Hy as <-. auto.
    - rewrite list_lookup_alter_ne in Hy by done. auto. }
  assert (Hnone : forall pg w, ~ pipe_end (g x) pg w) by (intros pg w (Ht & _); congruence).
  split; try done.
  - intros j Hj. rewrite Hfile. apply lookup_lt_is_Some. rewrite length_alter.
    apply lookup_lt_is_Some, H1. by right.
  - intros j y Hy. destruct (Hl j y Hy) as [[-> ->]|[Hne Hy']].
    + rewrite Hgr. rewrite count_refs_elem in Hnin. lia.
    + specialize (H2 _ _ Hy'). rewrite count_refs_cons, decide_False in H2; done.
  - intros j y Hy Hr. destruct (Hl j y Hy) as [[-> ->]|[Hne Hy']]; [done | eauto].
  - intros j y pg w Hy He. destruct (Hl j y Hy) as [[-> ->]|[Hne Hy']]; [by apply Hnone in He |].
    apply Hopen. split; [by eapply H4 |]. intros He2. apply Hne. by eapply H5.
  - intros j k y z pg w Hy Hz He1 He2. destruct (Hl j y Hy) as [[-> ->]|[Hne Hy']]; [by apply Hnone in He1 |].
    destruct (Hl k z Hz) as [[-> ->]|[Hne2 Hz']]; [by apply Hnone in He2 |]. by eapply H5.
  - intros pg p w Hp Ho. destruct (proj1 (Hopen pg w)) as [(p0 & Hp0 & Ho0) Hnx]; [by exists p |].
    destruct (H6 pg p0 w Hp0 Ho0) as (j & y & Hy & He). exists j, y. split; [| done].
    rewrite Hfile, list_lookup_alter_ne; [done |]. intros <-. simplify_eq.
Qed.

(** Closing one end of a pipe. *)
Lemma pipeclose_ends p w :
  let '(p', freed) := pipeclose p (if w : bool then 1 else 0) in
  end_open p' w = 0 /\ end_open p' (negb w) = end_open p (negb w) /\
  (freed = true <-> end_open p (negb w) = 0).
Proof.
  unfold pipeclose. destruct w; simpl; (split; [done |]; split; [done |]).
  - rewrite andb_true_r, Z.eqb_eq. done.
  - apply Z.eqb_eq.
Qed.

Lemma pipeclose_writable p v : pipeclose p v = pipeclose p (if negb (v =? 0) then 1 else 0).
Proof. unfold pipeclose. by destruct (v =? 0). Qed.

(** The inode layer can always put an inode back. *)
Definition inode_close_total : Prop := forall ip ic, exists ic', inode_close ip ic = Ok (tt, ic').

Lemma fileclose_pipe s refs i x pg w p s1 g :
  files_inv s (i :: refs) -> i ∉ refs -> fs_file s !! i = Some x -> pipe_end x pg w ->
  fs_pipe s !! pg = Some p -> end_open p w <> 0 ->
  f_type (g x) = FD_NONE -> f_ref (g x) = 0 -> s1 = with_file (alter g i (fs_file s)) s ->
  runs (pipeclose_page kend pg (f_writable x)) s1 (fun _ s' =>
    files_inv s' refs /\ fs_ofile s' = fs_ofile s).
Proof.
  intros Hi Hnin Hx Hend Hp Ho Hgt Hgr ->. unfold pipeclose_page.
  destruct Hend as (Hty & Hpg & Hw).
  pose proof (pipeclose_ends p w) as Hpc. destruct (pipeclose p (if w then 1 else 0)) as [p' freed] eqn:Hcl.
  destruct Hpc as (Hc1 & Hc2 & Hfr). destruct (fi_mem _ _ Hi) as (l & Hk & Hmem).
  assert (Hx2 : forall pg' w', pipe_end x pg' w' <-> pg' = pg /\ w' = w).
  { intros pg' w'. unfold pipe_end. rewrite Hty, Hpg, Hw. naive_solver. }
  assert (Hcase : forall w', w' = w \/ w' = negb w) by (intros [] ; destruct w; auto).
  destruct freed.
  - destruct (Hmem _ _ Hp) as [Hpage Hpl]. destruct (kfree_spec kend pg (fs_kmem s) l Hpage Hk Hpl)
      as (k' & Hkf & Hk' & _).
    eexists tt, _. split; [cbn [fs_pipe fs_kmem with_file]; rewrite Hp, pipeclose_writable, Hw, Hcl; by rewrite Hkf |]. split; [| done].
    eapply (files_inv_close s _ refs i x g Hi Hnin Hx); simpl; try done.
    + intros pg' w'. rewrite Hx2. unfold is_open. destruct (decide (pg' = pg)) as [->|Hne].
      * rewrite lookup_delete_eq, Hp. split; [by intros (? & ? & _) |]. intros [(q & [= <-] & Hq) Hn].
        destruct (Hcase w') as [->| ->]; [naive_solver |]. destruct Hq. by apply Hfr.
      * rewrite lookup_delete_ne by done. naive_solver.
    + intros pg' q Hq. apply lookup_delete_Some in Hq as [_ Hq]. by eapply (fi_used _ _ Hi).
    + exists (pg :: l). split; [done |]. intros pg' q Hq. apply lookup_delete_Some in Hq as [Hne Hq].
      destruct (Hmem _ _ Hq). split; [done |]. apply not_elem_of_cons. done.
  - assert (Hother : end_open p (negb w) <> 0) by (intros He; by apply Hfr in He).
    eexists tt, _. split; [cbn [fs_pipe with_file]; by rewrite Hp, pipeclose_writable, Hw, Hcl |]. split; [| done].
    eapply (files_inv_close s _ refs i x g Hi Hnin Hx); simpl; try done.
    + intros pg' w'. rewrite Hx2. unfold is_open. destruct (decide (pg' = pg)) as [->|Hne].
      * rewrite lookup_insert_eq, Hp. split.
        -- intros (q & [= <-] & Hq). destruct (Hcase w') as [->| ->]; [congruence |].
           split; [exists p; split; congruence |]. intros [_ Hb]. by destruct w.
        -- intros [(q & [= <-] & Hq) Hn]. exists p'. split; [done |].
           destruct (Hcase w') as [->| ->]; [naive_solver | congruence].
      * rewrite lookup_insert_ne by done. naive_solver.
    + intros pg' q Hq. apply lookup_insert_Some in Hq as [[<- <-]|[_ Hq]]; [| by eapply (fi_used _ _ Hi)].
      destruct w; simpl in *; [left | right]; congruence.
    + exists l. split; [done |]. intros pg' q Hq. apply lookup_insert_Some in Hq as [[<- _]|[_ Hq]]; eauto.
Qed.

Lemma fileclose_spec s refs i :
  inode_close_total -> files_inv s (i :: refs) ->
  runs (fileclose kend i) s (fun _ s' => files_inv s' refs /\ fs_ofile s' = fs_ofile s).
Proof.
  intros Htot Hi. destruct (fi_valid _ _ Hi i) as [x Hx]; [by left |].
  pose proof (fi_ref _ _ Hi _ _ Hx) as Hr. rewrite count_refs_cons, decide_True in Hr by done.
  unfold fileclose. apply runs_bind, (file_at_spec _ _ _ _ Hx).
  rewrite (proj2 (Z.ltb_ge _ _)) by lia. apply runs_bind, runs_modify.
  destruct (Z.ltb_spec 0 (f_ref x - 1)) as [Hpos|Hz].
  - apply runs_ret. split; [| done]. eapply files_inv_ref; [done | done | | | |]; try lia.
    + intros j Hj. auto. right. by right.
    + intros j Hj. rewrite count_refs_cons. by rewrite decide_False.
  - assert (Hnin : i ∉ refs) by (rewrite count_refs_elem; lia).
    apply runs_bind, runs_modify. simpl. rewrite list_alter_alter.
    set (g := fun y => fset_type FD_NONE (fset_ref 0 (fset_ref (f_ref x - 1) y))).
    set (s1 := with_file (alter _ i (fs_file s)) _).
    assert (Hsame : f_type x <> FD_PIPE -> forall ic, files_inv (with_inode ic s1) refs).
    { intros Hnp ic. eapply (files_inv_close s _ refs i x g Hi Hnin Hx); try done; try apply Hi.
      intros pg w. split; [| by intros []]. intros Ho. split; [done |]. intros (Ht & _). done. }
    destruct (f_type x) eqn:Hty.
    + apply runs_ret. split; [| done]. by apply (Hsame ltac:(done) (fs_inode s)).
    + destruct (fi_pipe _ _ Hi i x (f_pipe x) (negb (f_writable x =? 0)) Hx) as (p & Hp & Ho); [done |].
      by eapply (fileclose_pipe s refs i x (f_pipe x) _ p s1 g).
    + destruct (Htot (f_ip x) (fs_inode s)) as (ic' & Hic). eexists tt, _.
      split; [unfold iput_file; simpl; by rewrite Hic |]. split; [by apply Hsame | done].
Qed.

(** Two fresh files become the ends of a fresh pipe. *)
Definition as_end (w : bool) (pg : Z) (f : file) : file :=
  if w then mkFile FD_PIPE (f_ref f) 0 1 pg (f_ip f) (f_off f)
  else mkFile FD_PIPE (f_ref f) 1 0 pg (f_ip f) (f_off f).

Lemma as_end_end w pg f pg' w' : pipe_end (as_end w pg f) pg' w' <-> pg' = pg /\ w' = w.
Proof. unfold pipe_end. destruct w; simpl; naive_solver. Qed.

Lemma lookup_two_ends (fs : list file) i0 i1 x0 x1 pg j y :
  i0 <> i1 -> fs !! i0 = Some x0 -> fs !! i1 = Some x1 ->
  alter (as_end true pg) i1 (alter (as_end false pg) i0 fs) !! j = Some y ->
  (j = i0 /\ y = as_end false pg x0) \/ (j = i1 /\ y = as_end true pg x1) \/
  (j <> i0 /\ j <> i1 /\ fs !! j = Some y).
Proof.
  intros Hne H0 H1 Hy. destruct (decide (j = i1)) as [->|Hj1].
  - rewrite list_lookup_alter_eq, list_lookup_alter_ne, H1 in Hy by done. injection Hy as <-. auto.
  - rewrite list_lookup_alter_ne in Hy by done. destruct (decide (j = i0)) as [->|Hj0].
    + rewrite list_lookup_alter_eq, H0 in Hy. injection Hy as <-. auto.
    + rewrite list_lookup_alter_ne in Hy by done. auto.
Qed.

Lemma files_inv_newpipe s s' refs i0 i1 x0 x1 pg p :
  files_inv s (i0 :: i1 :: refs) -> i0 <> i1 ->
  fs_file s !! i0 = Some x0 -> f_type x0 = FD_NONE ->
  fs_file s !! i1 = Some x1 -> f_type x1 = FD_NONE ->
  fs_pipe s !! pg = None -> pi_readopen p = 1 -> pi_writeopen p = 1 ->
  fs_file s' = alter (as_end true pg) i1 (alter (as_end false pg) i0 (fs_file s)) ->
  fs_pipe s' = <[pg := p]> (fs_pipe s) ->
  (exists l, kmem_free kend (fs_kmem s') l /\
    forall pg' p', fs_pipe s' !! pg' = Some p' -> page kend pg' /\ pg' ∉ l) ->
  files_inv s' (i0 :: i1 :: refs).
Proof.
  intros [H1 H2 H3 H4 H5 H6 H7 H8] Hne Hx0 Ht0 Hx1 Ht1 Hpg Hro Hwo Hf Hp Hmem.
  assert (Hl := fun j y => lookup_two_ends (fs_file s) i0 i1 x0 x1 pg j y Hne Hx0 Hx1).
  rewrite <- Hf in Hl.
  assert (Hold : forall j y w, fs_file s !! j = Some y -> ~ pipe_end y pg w).
  { intros j y w Hy He. destruct (H4 _ _ _ _ Hy He) as (q & Hq & _). congruence. }
  assert (Href : forall j y, fs_file s' !! j = Some y -> exists y0, fs_file s !! j = Some y0 /\ f_ref y = f_ref y0).
  { intros j y Hy. destruct (Hl j y Hy) as [[-> ->]|[[-> ->]|(_ & _ & Hy')]]; eauto. }
  assert (Hg0 : fs_file s' !! i0 = Some (as_end false pg x0))
    by (rewrite Hf, list_lookup_alter_ne, list_lookup_alter_eq, Hx0 by done; done).
  assert (Hg1 : fs_file s' !! i1 = Some (as_end true pg x1))
    by (rewrite Hf, list_lookup_alter_eq, list_lookup_alter_ne, Hx1 by done; done).
  split; try done.
  - intros j Hj. rewrite Hf. apply lookup_lt_is_Some. rewrite !length_alter. by apply lookup_lt_is_Some, H1.
  - intros j y Hy. destruct (Href j y Hy) as (y0 & Hy0 & ->). by apply H2.
  - intros j y Hy Hr. destruct (Hl j y Hy) as [[-> ->]|[[-> ->]|(_ & _ & Hy')]]; [| | by eapply H3].
    + simpl in Hr. rewrite (H2 _ _ Hx0), count_refs_cons, decide_True in Hr by done. lia.
    + simpl in Hr. rewrite (H2 _ _ Hx1), count_refs_cons, decide_False, count_refs_cons, decide_True in Hr by done. lia.
  - intros j y pg' w Hy He. rewrite Hp. destruct (Hl j y Hy) as [[-> ->]|[[-> ->]|(_ & _ & Hy')]].
    + apply as_end_end in He as [-> ->]. exists p. rewrite lookup_insert_eq. split; [done | simpl; lia].
    + apply as_end_end in He as [-> ->]. exists p. rewrite lookup_insert_eq. split; [done | simpl; lia].
    + destruct (decide (pg' = pg)) as [->|Hn]; [by apply (Hold _ _ _ Hy') in He |].
      rewrite lookup_insert_ne by done. by eapply H4.
  - intros j k y z pg' w Hy Hz He1 He2.
    destruct (Hl j y Hy) as [[-> ->]|[[-> ->]|(_ & _ & Hy')]], (Hl k z Hz) as [[-> ->]|[[-> ->]|(_ & _ & Hz')]];
      try (apply as_end_end in He1; destruct He1 as [-> ->]);
      try (apply as_end_end in He2; destruct He2 as [? ?]); subst; try done.
    + by apply (Hold _ _ _ Hz') in He2.
    + by apply (Hold _ _ _ Hz') in He2.
    + by apply (Hold _ _ _ Hy') in He1.
    + by apply (Hold _ _ _ Hy') in He1.
    + by eapply H5.
  - intros pg' q w Hq Ho. rewrite Hp in Hq. apply lookup_insert_Some in Hq as [[<- <-]|[Hn Hq]].
    + destruct w; [exists i1, (as_end true pg x1) | exists i0, (as_end false pg x0)];
        (split; [done |]; by apply as_end_end).
    + destruct (H6 pg' q w Hq Ho) as (j & y & Hy & He). exists j, y. split; [| done].
      rewrite Hf, !list_lookup_alter_ne; [done | |]; intros <-; simplify_eq; by destruct He as [? _]; congruence.
  - intros pg' q Hq. rewrite Hp in Hq. apply lookup_insert_Some in Hq as [[<- <-]|[Hn Hq]]; [left; lia | eauto].
Qed.

(** [pipealloc] returns the two ends of a fresh, empty pipe, or nothing, and
    then leaves no reference behind. *)
Lemma pipealloc_spec s refs :
  inode_close_total -> files_inv s refs ->
  runs (pipealloc kend) s (fun r s' => fs_ofile s' = fs_ofile s /\ match r with
    | None => files_inv s' refs
    | Some (i0, i1) => files_inv s' (i0 :: i1 :: refs) /\ exists pg x0 x1 data,
        fs_pipe s !! pg = None /\ fs_pipe s' !! pg = Some (pipealloc_pipe data) /\
        fs_file s' !! i0 = Some x0 /\ pipe_end x0 pg false /\
        fs_file s' !! i1 = Some x1 /\ pipe_end x1 pg true
    end).
Proof.
  intros Htot Hi. unfold pipealloc. apply runs_bind.
  eapply runs_mono; [by apply filealloc_spec |]. intros [i0|] s1; [| by intros [-> _]; apply runs_ret].
  intros (Hi1 & Hn0 & Hp1 & Hk1 & _ & Ho1 & _ & x0 & Hx0 & Ht0). apply runs_bind.
  eapply runs_mono; [by apply filealloc_spec |]. intros [i1|] s2.
  2: { intros [-> _]. apply runs_bind. eapply runs_mono; [by apply fileclose_spec |].
       intros [] s3 [Hi3 Ho3]. apply runs_ret. split; [congruence | done]. }
  intros (Hi2 & Hn1 & Hp2 & Hk2 & _ & Ho2 & Hs2 & x1 & Hx1 & Ht1).
  apply not_elem_of_cons in Hn1 as [Hne Hn1]. apply runs_bind, runs_get.
  assert (Hi2' : files_inv s2 (i0 :: i1 :: refs)) by (eapply files_inv_perm; [apply perm_swap | done]).
  destruct (fi_mem _ _ Hi2) as (l & Hk & Hmem). pose proof (kalloc_spec kend _ _ Hk) as Hka.
  destruct l as [|pg l].
  - rewrite Hka. apply runs_bind, runs_modify. simpl. apply runs_bind.
    assert (Hi3 : files_inv (with_kmem (fs_kmem s2) s2) (i0 :: i1 :: refs)) by (by destruct s2).
    eapply runs_mono; [by apply fileclose_spec |]. intros [] s3 [Hi4 Ho4]. apply runs_bind.
    eapply runs_mono; [by apply fileclose_spec |]. intros [] s4 [Hi5 Ho5]. apply runs_ret.
    split; [| done]. rewrite Ho5, Ho4. simpl. congruence.
  - destruct Hka as (k' & -> & Hk' & _ & Hpage & Hpl). apply page_range in Hpage as Hpos.
    apply runs_bind, runs_modify. rewrite (proj2 (Z.eqb_neq pg 0)) by lia.
    repeat apply runs_bind, runs_modify. apply runs_ret. simpl.
    rewrite <- Hs2 in Hx0 by done. fold (as_end false pg) (as_end true pg).
    assert (Hfresh : fs_pipe s2 !! pg = None).
    { destruct (fs_pipe s2 !! pg) eqn:Hq; [| done]. destruct (Hmem _ _ Hq) as [_ Hnq].
      destruct Hnq. by left. }
    split; [simpl; congruence |]. split.
    + eapply (files_inv_newpipe s2 _ refs i0 i1 x0 x1 pg); try done; [reflexivity.. |].
      exists l. split; [done |]. simpl. intros pg' q Hq.
      apply lookup_insert_Some in Hq as [[<- _]|[_ Hq]]; [done |].
      destruct (Hmem _ _ Hq) as [? Hnq]. split; [done |]. by apply not_elem_of_cons in Hnq as [_ ?].
    + exists pg, (as_end false pg x0), (as_end true pg x1). eexists. simpl.
      split; [congruence |]. split; [by rewrite lookup_insert_eq |].
      split; [by rewrite list_lookup_alter_ne, list_lookup_alter_eq, Hx0 by done |]. split; [done |].
      split; [by rewrite list_lookup_alter_eq, list_lookup_alter_ne, Hx1 by done | done].
Qed.

(** ** Descriptor tables *)

Definition all_refs (s : fstate IC) : list nat := omap id (concat (fs_ofile s)).

Definition fds_ok (s : fstate IC) : Prop :=
  files_inv s (all_refs s) /\ Forall (fun o => length o = NOFILE) (fs_ofile s).

Lemma files_inv_ofile s o refs : files_inv s refs -> files_inv (with_ofile o s) refs.
Proof. intros [H1 H2 H3 H4 H5 H6 H7 H8]. by split. Qed.

Lemma omap_option_list (v : option nat) (l : list (option nat)) :
  omap id (v :: l) = option_list v ++ omap id l.
Proof. by destruct v. Qed.

(** Replacing the descriptor [v] by [v']. *)
Lemma refs_set_fd (ofs : list (list (option nat))) p o fd v v' :
  ofs !! p = Some o -> o !! fd = Some v ->
  option_list v ++ omap id (concat (alter (fun o => <[fd := v']> o) p ofs)) ≡ₚ
  option_list v' ++ omap id (concat ofs).
Proof.
  intros Hp Hfd. rewrite (list_alter_lookup_insert _ _ _ _ Hp).
  rewrite (insert_take_drop ofs) by (by eapply lookup_lt_Some).
  rewrite (insert_take_drop o) by (by eapply lookup_lt_Some).
  rewrite <- (take_drop_middle ofs p o Hp) at 3. rewrite <- (take_drop_middle o fd v Hfd) at 3.
  rewrite !concat_app, !omap_app. simpl. rewrite !omap_app, !omap_option_list.
  rewrite <- !app_assoc. solve_Permutation.
Qed.

Lemma ofile_at_spec s p o (Q : list (option nat) -> fstate IC -> Prop) :
  fs_ofile s !! p = Some o -> Q o s -> runs (ofile_at p) s Q.
Proof. intros Ho HQ. exists o, s. unfold ofile_at. by rewrite Ho. Qed.

Lemma Forall_set_fd (ofs : list (list (option nat))) p fd v :
  Forall (fun o => length o = NOFILE) ofs ->
  Forall (fun o => length o = NOFILE) (alter (fun o => <[fd := v]> o) p ofs).
Proof.
  intros HF. apply Forall_alter; [done |]. intros o Ho Hl. by rewrite length_insert.
Qed.

Definition tables_ok (s : fstate IC) : Prop := Forall (fun o => length o = NOFILE) (fs_ofile s).

(** [fdalloc] takes over a reference of the caller. *)
Lemma fdalloc_spec s refs p f :
  files_inv s (f :: refs) -> tables_ok s -> is_Some (fs_ofile s !! p) ->
  runs (fdalloc p f) s (fun r s' =>
    (r = -1 /\ s' = s) \/
    (0 <= r /\ files_inv s' (f :: refs) /\ tables_ok s' /\ all_refs s' ≡ₚ f :: all_refs s /\
     (exists o, fs_ofile s !! p = Some o /\ o !! Z.to_nat r = Some None /\
        fs_ofile s' !! p = Some (<[Z.to_nat r := Some f]> o)) /\
     length (fs_ofile s') = length (fs_ofile s) /\ fs_file s' = fs_file s)).
Proof.
  intros Hi Ht [o Ho]. unfold fdalloc. apply runs_bind, (ofile_at_spec _ _ _ _ Ho).
  destruct (find_from is_null o 0) as [fd|] eqn:Hf; [| apply runs_ret; by left].
  apply find_from_Some in Hf as (j & v & -> & Hv & Hn & _). destruct v; [done |].
  apply runs_bind, runs_modify, runs_ret. right. rewrite Nat2Z.id. simpl.
  split; [lia |]. split; [by apply files_inv_ofile |]. split; [by apply Forall_set_fd |].
  split; [exact (refs_set_fd (fs_ofile s) p o j None (Some f) Ho Hv) |].
  split; [| by rewrite length_alter]. exists o. by rewrite list_lookup_alter_eq, Ho.
Qed.

Lemma argfd_spec s p arg :
  tables_ok s -> is_Some (fs_ofile s !! p) ->
  runs (argfd p arg) s (fun r s' => s' = s /\ forall f, r = Some f ->
    exists o, fs_ofile s !! p = Some o /\ o !! Z.to_nat arg = Some (Some f)).
Proof.
  intros Ht [o Ho]. unfold argfd. apply runs_bind, (ofile_at_spec _ _ _ _ Ho).
  pose proof (Forall_lookup_1 _ _ _ _ Ht Ho) as Hl. simpl in Hl.
  destruct (Z.ltb_spec arg 0), (Z.leb_spec (Z.of_nat NOFILE) arg); simpl; try (by apply runs_ret).
  destruct (lookup_lt_is_Some_2 o (Z.to_nat arg)) as [v Hv]; [lia |]. rewrite Hv. apply runs_ret.
  split; [done |]. intros f ->. eauto.
Qed.

Lemma fd_in_refs s p o fd f :
  fs_ofile s !! p = Some o -> o !! fd = Some (Some f) -> f ∈ all_refs s.
Proof.
  intros Ho Hfd. unfold all_refs. apply list_elem_of_omap. exists (Some f). split; [| done].
  apply list_elem_of_In, in_concat. exists o. split; apply list_elem_of_In; by eapply list_elem_of_lookup_2.
Qed.

Section calls.
Hypothesis Htot : inode_close_total.

Lemma sys_dup_spec s p arg :
  fds_ok s -> is_Some (fs_ofile s !! p) ->
  runs (sys_dup p arg) s (fun r s' => fds_ok s' /\ length (fs_ofile s') = length (fs_ofile s)).
Proof.
  intros [Hi Ht] Hp. unfold sys_dup. apply runs_bind.
  eapply runs_mono; [by apply argfd_spec |]. intros r s1 [-> Hr]. destruct r as [f|]; [| by apply runs_ret].
  destruct (Hr f eq_refl) as (o & Ho & Hfd). pose proof (fd_in_refs _ _ _ _ _ Ho Hfd) as Hin.
  apply runs_bind. apply list_elem_of_split in Hin as (r1 & r2 & He).
  assert (Hi' : files_inv s (f :: r1 ++ r2)) by (rewrite Permutation_middle, <- He; done).
  eapply runs_mono; [by apply (fdalloc_spec s (r1 ++ r2) p f) |].
  intros fd s1 [[-> ->]|(Hfd0 & Hi1 & Ht1 & Hp1 & _ & Hl1 & _)]; [by apply runs_ret |].
  rewrite (proj2 (Z.ltb_ge _ _)) by lia. apply runs_bind.
  eapply runs_mono; [apply (filedup_spec s1 _ f Hi1); by left |].
  intros f' s2 (-> & Hi2 & Ho2). apply runs_ret. unfold fds_ok, all_refs. rewrite Ho2. split; [| done].
  split; [| done]. fold (all_refs s1). rewrite Hp1, He. 
  eapply files_inv_perm; [| exact Hi2]. by rewrite <- Permutation_middle.
Qed.

Lemma sys_close_spec s p arg :
  fds_ok s -> is_Some (fs_ofile s !! p) ->
  runs (sys_close kend p arg) s (fun r s' => fds_ok s' /\ length (fs_ofile s') = length (fs_ofile s)).
Proof.
  intros [Hi Ht] Hp. unfold sys_close. apply runs_bind.
  eapply runs_mono; [by apply argfd_spec |]. intros r s1 [-> Hr]. destruct r as [f|]; [| by apply runs_ret].
  destruct (Hr f eq_refl) as (o & Ho & Hfd). apply runs_bind, runs_modify, runs_bind.
  pose proof (refs_set_fd _ _ _ _ _ None Ho Hfd) as Hperm. simpl in Hperm.
  eapply runs_mono; [apply (fileclose_spec _ (omap id (concat (alter (fun o => <[Z.to_nat arg := None]> o) p (fs_ofile s)))) f Htot) |].
  { apply files_inv_ofile. by rewrite Hperm. }
  intros [] s2 [Hi2 Ho2]. apply runs_ret. unfold fds_ok, all_refs. rewrite Ho2. simpl.
  split; [| by rewrite length_alter]. split; [done |]. by apply Forall_set_fd.
Qed.
(** [set_fd] of an entry whose reference the caller accounts for. *)
Lemma set_fd_spec s p o fd v v' (Q : unit -> fstate IC -> Prop) :
  tables_ok s -> fs_ofile s !! p = Some o -> o !! fd = Some v ->
  (forall s', fs_file s' = fs_file s -> s' = with_ofile (fs_ofile s') s -> tables_ok s' ->
     option_list v ++ all_refs s' ≡ₚ option_list v' ++ all_refs s ->
     fs_ofile s' !! p = Some (<[fd := v']> o) ->
     (forall q, q <> p -> fs_ofile s' !! q = fs_ofile s !! q) -> 
     length (fs_ofile s') = length (fs_ofile s) -> Q tt s') ->
  runs (set_fd p fd v') s Q.
Proof.
  intros Ht Ho Hfd HQ. apply runs_modify. apply HQ; simpl; try done.
  - by apply Forall_set_fd.
  - by apply refs_set_fd with (o := o).
  - by rewrite list_lookup_alter_eq, Ho.
  - intros q Hq. by apply list_lookup_alter_ne.
  - by rewrite length_alter.
Qed.

(** [sys_pipe] returns two descriptors of the ends of a fresh pipe; when it
    fails no descriptor and no reference is left over. *)
Lemma sys_pipe_spec s p :
  fds_ok s -> is_Some (fs_ofile s !! p) ->
  runs (sys_pipe kend p) s (fun r s' => fds_ok s' /\ length (fs_ofile s') = length (fs_ofile s) /\
    match r with
    | None => all_refs s' ≡ₚ all_refs s
    | Some (fd0, fd1) => exists o i0 i1 pg x0 x1,
        fs_ofile s' !! p = Some o /\
        o !! Z.to_nat fd0 = Some (Some i0) /\ fs_file s' !! i0 = Some x0 /\ pipe_end x0 pg false /\
        o !! Z.to_nat fd1 = Some (Some i1) /\ fs_file s' !! i1 = Some x1 /\ pipe_end x1 pg true
    end).
Proof.
  intros [Hi Ht] Hp. unfold sys_pipe. apply runs_bind.
  eapply runs_mono; [by apply pipealloc_spec |]. intros [[rf wf]|] s1 [Ho1 H1].
  2: { apply runs_ret. unfold fds_ok, all_refs. by rewrite Ho1. }
  destruct H1 as (Hi1 & pg & x0 & x1 & data & _ & _ & Hx0 & He0 & Hx1 & He1).
  assert (Ht1 : tables_ok s1) by (unfold tables_ok; by rewrite Ho1).
  assert (Hr1 : all_refs s1 = all_refs s) by (unfold all_refs; by rewrite Ho1).
  rewrite <- Ho1 in Hp. apply runs_bind.
  eapply runs_mono; [by apply (fdalloc_spec s1 (wf :: all_refs s)) |].
  intros fd0 s2 [[-> ->]|(Hfd0 & Hi2 & Ht2 & Hr2 & (o2 & Ho1p & Hn2 & Ho2) & Hlen2 & Hf2)].
  - simpl. apply runs_bind. eapply runs_mono; [by apply fileclose_spec |]. intros [] s3 [Hi3 Ho3].
    apply runs_bind. eapply runs_mono; [by apply fileclose_spec |]. intros [] s4 [Hi4 Ho4].
    apply runs_ret. unfold fds_ok, all_refs. rewrite Ho4, Ho3, Ho1. done.
  - rewrite (proj2 (Z.ltb_ge _ _)) by lia. apply runs_bind.
    assert (Hl2 : <[Z.to_nat fd0 := Some rf]> o2 !! Z.to_nat fd0 = Some (Some rf))
      by (apply list_lookup_insert_eq; by eapply lookup_lt_Some).
    assert (Hi2' : files_inv s2 (wf :: rf :: all_refs s)) by (eapply files_inv_perm; [apply perm_swap | done]).
    eapply runs_mono; [by apply (fdalloc_spec s2 (rf :: all_refs s) p wf); eauto |].
    intros fd1 s3 [[-> ->]|(Hfd1 & Hi3 & Ht3 & Hr3 & (o3 & Ho3p & Hn3 & Ho3) & Hlen3 & Hf3)].
    + simpl. apply runs_bind. eapply (set_fd_spec s2 p _ _ (Some rf)); [done | done | done |].
      intros s3 Hf3 Hs3 Ht3 Hr3 _ _ Hlen3. apply runs_bind.
      assert (Hi3 : files_inv s3 (rf :: wf :: all_refs s)) by (rewrite Hs3; by apply files_inv_ofile).
      eapply runs_mono; [by apply fileclose_spec |]. intros [] s4 [Hi4 Ho4].
      apply runs_bind. eapply runs_mono; [by apply fileclose_spec |]. intros [] s5 [Hi5 Ho5].
      assert (Hr5 : all_refs s5 ≡ₚ all_refs s).
      { unfold all_refs at 1. rewrite Ho5, Ho4. apply (Permutation_cons_inv (a := rf)).
        simpl in Hr3. by rewrite <- Hr1, <- Hr2, <- Hr3. }
      apply runs_ret. split; [split; [by rewrite Hr5 | by rewrite Ho5, Ho4] |].
      split; [by rewrite Ho5, Ho4, Hlen3, Hlen2, Ho1 | done].
    + rewrite (proj2 (Z.ltb_ge _ _)) by lia. apply runs_ret. split; [| split; [congruence |]].
      * split; [| done]. rewrite Hr3, Hr2, Hr1. done.
      * rewrite Ho2 in Ho3p. injection Ho3p as <-. exists (<[Z.to_nat fd1 := Some wf]> (<[Z.to_nat fd0 := Some rf]> o2)).
        exists rf, wf, pg, x0, x1. rewrite Hf3, Hf2. split; [done |].
        split; [rewrite list_lookup_insert_ne; [done | congruence] |]. split; [done |]. split; [done |].
        split; [| done]. apply list_lookup_insert_eq. by eapply lookup_lt_Some.
Qed.

Lemma decide_cons {A} (fd fd' : nat) fds (x y : A) :
  (if decide (fd' ∈ fd :: fds) then x else y) =
  if decide (fd' = fd) then x else if decide (fd' ∈ fds) then x else y.
Proof.
  destruct (decide (fd' = fd)) as [->|Hne]; [by rewrite decide_True by (by left) |].
  apply decide_ext. rewrite elem_of_cons. naive_solver.
Qed.

(** [fork2] gives the child the parent's descriptors. *)
Lemma fork_files_spec fds s parent child po co :
  parent <> child -> NoDup fds -> fds_ok s ->
  fs_ofile s !! parent = Some po -> fs_ofile s !! child = Some co ->
  (forall fd, fd ∈ fds -> (fd < NOFILE)%nat /\ co !! fd = Some None) ->
  runs (fork_files parent child fds) s (fun _ s' =>
    fds_ok s' /\ length (fs_ofile s') = length (fs_ofile s) /\
    (forall q, q <> child -> fs_ofile s' !! q = fs_ofile s !! q) /\
    exists co', fs_ofile s' !! child = Some co' /\
      forall fd, co' !! fd = if decide (fd ∈ fds) then po !! fd else co !! fd).
Proof.
  intros Hpc. revert s co. induction fds as [|fd fds IH]; intros s co Hnd Hok Hpo Hco Hfds.
  { apply runs_ret. split; [done |]. split; [done |]. split; [done |]. exists co. split; [done |].
    intros fd. rewrite decide_False; [done | apply not_elem_of_nil]. }
  apply NoDup_cons in Hnd as [Hnin Hnd]. cbn [fork_files]. apply runs_bind, (ofile_at_spec _ _ _ _ Hpo).
  destruct (Hfds fd) as [Hlt Hnone]; [by left |]. destruct Hok as [Hi Ht].
  pose proof (Forall_lookup_1 _ _ _ _ Ht Hpo) as Hlen. simpl in Hlen.
  destruct (lookup_lt_is_Some_2 po fd) as [[f|] Hf]; [lia | |]; rewrite Hf.
  - pose proof (fd_in_refs _ _ _ _ _ Hpo Hf) as Hin. apply runs_bind, runs_bind.
    eapply runs_mono; [by apply filedup_spec |]. intros f' s1 (-> & Hi1 & Ho1).
    eapply (set_fd_spec s1 child co fd None (Some f)).
    { unfold tables_ok. by rewrite Ho1. } { by rewrite Ho1. } { done. }
    intros s2 _ Hs2 Ht2 Hr2 Hc2 Hq2 Hl2. simpl in Hr2.
    assert (Hok2 : fds_ok s2).
    { split; [| done]. rewrite Hr2. rewrite Hs2. apply files_inv_ofile. unfold all_refs. by rewrite Ho1. }
    eapply runs_mono; [apply (IH s2 (<[fd := Some f]> co)); try done |].
    { by rewrite Hq2, Ho1. }
    { intros fd' Hin'. rewrite list_lookup_insert_ne by congruence. apply Hfds. by right. }
    intros [] s3 (Hok3 & Hl3 & Hq3 & co' & Hco' & Hfd'). split; [done |].
    split; [congruence |]. split; [intros q Hq; by rewrite Hq3, Hq2, Ho1 |].
    exists co'. split; [done |]. intros fd'. rewrite Hfd', decide_cons. destruct (decide (fd' = fd)) as [->|Hne].
    + rewrite decide_False, Hf by done. apply list_lookup_insert_eq. by eapply lookup_lt_Some.
    + by rewrite list_lookup_insert_ne.
  - eapply runs_mono; [apply (IH s co); try done |].
    { intros fd' Hin'. apply Hfds. by right. }
    intros [] s3 (Hok3 & Hl3 & Hq3 & co' & Hco' & Hfd'). split; [done |]. split; [done |]. split; [done |].
    exists co'. split; [done |]. intros fd'. rewrite Hfd', decide_cons. destruct (decide (fd' = fd)) as [->|Hne]; [| done].
    by rewrite decide_False, Hf, Hnone.
Qed.

(** [exit] drops every descriptor. *)
Lemma exit_files_spec fds s p o :
  NoDup fds -> fds_ok s -> fs_ofile s !! p = Some o -> (forall fd, fd ∈ fds -> (fd < NOFILE)%nat) ->
  runs (exit_files kend p fds) s (fun _ s' =>
    fds_ok s' /\ length (fs_ofile s') = length (fs_ofile s) /\
    (forall q, q <> p -> fs_ofile s' !! q = fs_ofile s !! q) /\
    exists o', fs_ofile s' !! p = Some o' /\
      forall fd, o' !! fd = if decide (fd ∈ fds) then Some None else o !! fd).
Proof.
  revert s o. induction fds as [|fd fds IH]; intros s o Hnd Hok Ho Hfds.
  { apply runs_ret. split; [done |]. split; [done |]. split; [done |]. exists o. split; [done |].
    intros fd. rewrite decide_False; [done | apply not_elem_of_nil]. }
  apply NoDup_cons in Hnd as [Hnin Hnd]. cbn [exit_files]. apply runs_bind, (ofile_at_spec _ _ _ _ Ho).
  pose proof (Hfds fd ltac:(by left)) as Hlt. destruct Hok as [Hi Ht].
  pose proof (Forall_lookup_1 _ _ _ _ Ht Ho) as Hlen. simpl in Hlen.
  destruct (lookup_lt_is_Some_2 o fd) as [[f|] Hf]; [lia | |]; rewrite Hf.
  - pose proof (refs_set_fd _ _ _ _ _ None Ho Hf) as Hperm. simpl in Hperm. apply runs_bind.
    eapply runs_mono; [eapply (fileclose_spec s _ f Htot); by rewrite Hperm |].
    intros [] s1 [Hi1 Ho1]. apply runs_bind. eapply (set_fd_spec s1 p o fd (Some f)).
    { unfold tables_ok. by rewrite Ho1. } { by rewrite Ho1. } { done. }
    intros s2 _ Hs2 Ht2 Hr2 Hc2 Hq2 Hl2. simpl in Hr2.
    assert (Hok2 : fds_ok s2).
    { split; [| done]. rewrite Hs2 at 1. apply files_inv_ofile. eapply files_inv_perm; [| exact Hi1].
      apply (Permutation_cons_inv (a := f)). rewrite Hr2, Hperm. unfold all_refs. by rewrite Ho1. }
    eapply runs_mono; [apply (IH s2 (<[fd := None]> o)); try done |].
    { intros fd' Hin'. apply Hfds. by right. }
    intros [] s3 (Hok3 & Hl3 & Hq3 & o' & Ho' & Hfd'). split; [done |].
    split; [congruence |]. split; [intros q Hq; by rewrite Hq3, Hq2, Ho1 |].
    exists o'. split; [done |]. intros fd'. rewrite Hfd', decide_cons. destruct (decide (fd' = fd)) as [->|Hne].
    + rewrite decide_False by done. apply list_lookup_insert_eq. by eapply lookup_lt_Some.
    + by rewrite list_lookup_insert_ne.
  - eapply runs_mono; [apply (IH s o); try done |].
    { intros fd' Hin'. apply Hfds. by right. }
    intros [] s3 (Hok3 & Hl3 & Hq3 & o' & Ho' & Hfd'). split; [done |]. split; [done |]. split; [done |].
    exists o'. split; [done |]. intros fd'. rewrite Hfd', decide_cons. destruct (decide (fd' = fd)) as [->|Hne]; [| done].
    by rewrite decide_False, Hf.
Qed.

(** ** Sequences of calls *)

Inductive fd_call :=
| CDup (p : nat) (fd : Z)
| CClose (p : nat) (fd : Z)
| CPipe (p : nat)
| CFork (parent child : nat)
| CExit (p : nat).

Definition run_call (c : fd_call) : ST (fstate IC) unit :=
  match c with
  | CDup p fd => sys_dup p fd ;;; ret tt
  | CClose p fd => sys_close kend p fd ;;; ret tt
  | CPipe p => sys_pipe kend p ;;; ret tt
  | CFork parent child => fork_files parent child (seq 0 NOFILE)
  | CExit p => exit_files kend p (seq 0 NOFILE)
  end.

(** The calling process exists; the child of a fork is another one and has no
    open files. *)
Definition call_enabled (c : fd_call) (s : fstate IC) : Prop :=
  match c with
  | CDup p _ | CClose p _ | CPipe p | CExit p => is_Some (fs_ofile s !! p)
  | CFork parent child => parent <> child /\ is_Some (fs_ofile s !! parent) /\
      fs_ofile s !! child = Some (replicate NOFILE None)
  end.

Inductive fd_step : fstate IC -> fstate IC -> Prop :=
| fd_step_call c s s' : call_enabled c s -> run_call c s = Ok (tt, s') -> fd_step s s'.

Lemma run_call_spec c s :
  fds_ok s -> call_enabled c s -> runs (run_call c) s (fun _ s' => fds_ok s').
Proof.
  intros Hok Hen. pose proof (NoDup_seq 0 NOFILE) as Hnd.
  destruct c; cbn [run_call call_enabled] in *.
  - apply runs_bind. eapply runs_mono; [by apply sys_dup_spec |]. intros r s' [? _]. by apply runs_ret.
  - apply runs_bind. eapply runs_mono; [by apply sys_close_spec |]. intros r s' [? _]. by apply runs_ret.
  - apply runs_bind. eapply runs_mono; [by apply sys_pipe_spec |]. intros r s' [? _]. by apply runs_ret.
  - destruct Hen as (Hne & [po Hpo] & Hco).
    eapply runs_mono; [eapply fork_files_spec; try eassumption | by intros _ s' [? _]].
    intros fd Hfd%elem_of_seq. split; [lia |]. apply lookup_replicate_2. lia.
  - destruct Hen as [o Ho].
    eapply runs_mono; [eapply exit_files_spec; try eassumption | by intros _ s' [? _]].
    intros fd Hfd%elem_of_seq. lia.
Qed.

Lemma fd_steps_ok s s' : fds_ok s -> rtc fd_step s s' -> fds_ok s'.
Proof.
  intros H0. apply (rtc_invariant fd_step fds_ok); [| done]. intros y z Hy Hst. revert Hy. destruct Hst as [c t t' Hen Hrun].
  intros Hy. destruct (run_call_spec c t Hy Hen) as ([] & t2 & Hrun2 & Hok). congruence.
Qed.

End calls.
End inv.

(** The state after [fileinit]: no file is open. *)
Definition file0 : file := mkFile FD_NONE 0 0 0 0 0 0.
Definition files_boot {IC} (k : kmem) (ic : IC) : fstate IC :=
  mkFstate (replicate NFILE file0) ∅ k ic (replicate NPROC (replicate NOFILE None)).

Lemma all_refs_boot {IC} k (ic : IC) : all_refs (files_boot k ic) = [].
Proof.
  unfold all_refs. cbn [fs_ofile files_boot]. generalize NPROC. intros n.
  induction n as [|n IH]; [done |]. cbn [replicate concat]. rewrite omap_app, IH, app_nil_r.
  generalize NOFILE. intros m. by induction m.
Qed.

Lemma fds_ok_boot {IC} kend k l (ic : IC) : kmem_free kend k l -> fds_ok kend (files_boot k ic).
Proof.
  intros Hk. assert (Hf : forall i x, fs_file (files_boot k ic) !! i = Some x -> x = file0).
  { cbn [fs_file files_boot]. intros i x Hx. by apply lookup_replicate in Hx as [-> _]. }
  assert (Hp : forall pg p, fs_pipe (files_boot k ic) !! pg = Some p -> False)
    by (intros pg p; exact (lookup_empty_Some pg p)).
  split; [| by apply Forall_replicate, length_replicate]. rewrite all_refs_boot. split.
  - by intros i ?%not_elem_of_nil.
  - by intros i x ->%Hf.
  - by intros i x ->%Hf.
  - by intros i x pg w ->%Hf [? _].
  - by intros i j x y pg w ->%Hf _ [? _].
  - by intros pg p w ?%Hp.
  - by intros pg p ?%Hp.
  - exists l. split; [done |]. by intros pg p ?%Hp.
Qed.

(** * Properties of the open files *)


#[export] Instance no_inodes : InodeClose unit := {| inode_close _ := ret tt |}.


(** [pipe] returns descriptors of the read and of the write end of one
    fresh pipe; when it fails (no free file, no memory, no free descriptor) the
    open files and descriptors are those from before the call. *)
Theorem sys_pipe_correct {IC} `{InodeClose IC} kend (s : fstate IC) p
  (Hinode : inode_close_total (IC := IC))
  (Hinv : files_inv kend s (all_refs s)) (Htab : tables_ok s) (Hp : is_Some (fs_ofile s !! p)) :
  exists r s', sys_pipe kend p s = Ok (r, s') /\ files_inv kend s' (all_refs s') /\
    match r with
    | None => all_refs s' ≡ₚ all_refs s
    | Some (fd0, fd1) => exists o i0 i1 pg x0 x1,
        fs_ofile s' !! p = Some o /\
        o !! Z.to_nat fd0 = Some (Some i0) /\ fs_file s' !! i0 = Some x0 /\ pipe_end x0 pg false /\
        o !! Z.to_nat fd1 = Some (Some i1) /\ fs_file s' !! i1 = Some x1 /\ pipe_end x1 pg true
    end.
Proof.
  destruct (sys_pipe_spec kend Hinode s p (conj Hinv Htab) Hp) as (r & s' & Hrun & [Hi _] & _ & Hr).
  by exists r, s'.
Qed.

Lemma sys_pipe_correct_witness :
  let k := mkKmem 0 0x80400000 (store32 (fun _ => 0) 0x80400000 0) in
  exists r s', sys_pipe 0x80100000 3 (files_boot k tt) = Ok (r, s') /\
    files_inv 0x80100000 s' (all_refs s').
Proof.
  intros k. assert (Hk : kmem_free 0x80100000 k [0x80400000]).
  { split; [| apply NoDup_singleton]. simpl. split; [done |]. 
    split; [vm_compute; intuition congruence | reflexivity]. }
  destruct (fds_ok_boot 0x80100000 k _ tt Hk) as [Hi Ht].
  destruct (sys_pipe_correct 0x80100000 (files_boot k tt) 3) as (r & s' & Hrun & Hi' & _).
  - intros ip []. by exists tt.
  - exact Hi.
  - exact Ht.
  - eexists. reflexivity.
  - by exists r, s'.
Defined.
