(* ===== verification/Spinlock.v ===== *)
(** * Spin locks (spinlock.c, mycpu of proc.c)

    [pushcli]/[popcli] and the spin locks on a machine with several CPUs. The
    CPUs interleave at the accesses [acquire] and [release] make to the lock
    word and to [lk->cpu]; what a CPU does between its calls is free. *)

From stdpp Require Import functions.
From S2P Require Import Prelude.

Record spinlock := mkSpinlock { lk_locked : Z; lk_cpu : option nat }.

Definition initlock (lk : spinlock) : spinlock := mkSpinlock 0 None.

(** Where a CPU is in a call of [acquire] or [release]. *)
Inductive pc :=
| Idle
| AcqLocked (l : nat)   (* holding(): read lk->locked *)
| AcqCpu (l : nat)      (* holding(): read lk->cpu *)
| AcqXchg (l : nat)     (* xchg(&lk->locked, 1) *)
| AcqRecord (l : nat)   (* lk->cpu = mycpu() *)
| RelLocked (l : nat)   (* holding(): read lk->locked *)
| RelCpu (l : nat)      (* holding(): read lk->cpu *)
| RelClear (l : nat)    (* lk->cpu = 0 *)
| RelStore (l : nat)    (* movl $0, lk->locked *)
| RelPop.               (* popcli() *)

(** [cpu_if] is the interrupt flag of [eflags]. [cpu_held] records the locks
    whose [acquire] returned and whose word [release] has not cleared yet. *)
Record cpu := mkCpu {
  cpu_apicid : Z;
  cpu_if : bool;
  cpu_ncli : Z;
  cpu_intena : bool;
  cpu_pc : pc;
  cpu_held : list nat
}.

Definition cset_if v c := mkCpu (cpu_apicid c) v (cpu_ncli c) (cpu_intena c) (cpu_pc c) (cpu_held c).
Definition cset_ncli v c := mkCpu (cpu_apicid c) (cpu_if c) v (cpu_intena c) (cpu_pc c) (cpu_held c).
Definition cset_intena v c := mkCpu (cpu_apicid c) (cpu_if c) (cpu_ncli c) v (cpu_pc c) (cpu_held c).
Definition cset_pc v c := mkCpu (cpu_apicid c) (cpu_if c) (cpu_ncli c) (cpu_intena c) v (cpu_held c).
Definition cset_held v c := mkCpu (cpu_apicid c) (cpu_if c) (cpu_ncli c) (cpu_intena c) (cpu_pc c) v.

(** [mycpu]: the entry of [cpus] with this CPU's APIC id. *)
Definition mycpu (interrupts : bool) (apicid : Z) (cpus : list cpu) : res nat :=
  if interrupts then Panic "mycpu called with interrupts enabled"
  else match find_from (fun c => cpu_apicid c =? apicid) cpus 0 with
       | Some i => Ok i
       | None => Panic "unknown apicid"
       end.

Definition pushcli (c : cpu) : cpu :=
  let eflags := cpu_if c in
  let c := cset_if false c in
  let c := if cpu_ncli c =? 0 then cset_intena eflags c else c in
  cset_ncli (cpu_ncli c + 1) c.

Definition popcli (c : cpu) : res cpu :=
  if cpu_if c then Panic "popcli - interruptible"
  else
    let c := cset_ncli (cpu_ncli c - 1) c in
    if cpu_ncli c <? 0 then Panic "popcli"
    else if (cpu_ncli c =? 0) && cpu_intena c then Ok (cset_if true c)
    else Ok c.

(** ** The machine *)

Record machine := mkMachine { m_cpu : nat -> cpu; m_lock : nat -> spinlock }.

Definition set_cpu (c : nat) (x : cpu) (m : machine) : machine :=
  mkMachine (<[c := x]> (m_cpu m)) (m_lock m).
Definition set_lock (l : nat) (x : spinlock) (m : machine) : machine :=
  mkMachine (m_cpu m) (<[l := x]> (m_lock m)).
Definition goto (c : nat) (p : pc) (m : machine) : machine :=
  set_cpu c (cset_pc p (m_cpu m c)) m.

(** The next access of CPU [c] in the call it is in. *)
Definition micro (c : nat) (m : machine) : res machine :=
  let x := m_cpu m c in
  match cpu_pc x with
  | Idle => Ok m
  | AcqLocked l =>
      Ok (goto c (if lk_locked (m_lock m l) =? 0 then AcqXchg l else AcqCpu l) m)
  | AcqCpu l =>
      if decide (lk_cpu (m_lock m l) = Some c) then Panic "acquire"
      else Ok (goto c (AcqXchg l) m)
  | AcqXchg l =>
      let old := lk_locked (m_lock m l) in
      let m := set_lock l (mkSpinlock 1 (lk_cpu (m_lock m l))) m in
      Ok (if old =? 0 then goto c (AcqRecord l) m else m)
  | AcqRecord l =>
      let m := set_lock l (mkSpinlock (lk_locked (m_lock m l)) (Some c)) m in
      Ok (set_cpu c (cset_pc Idle (cset_held (l :: cpu_held x) x)) m)
  | RelLocked l =>
      if lk_locked (m_lock m l) =? 0 then Panic "release" else Ok (goto c (RelCpu l) m)
  | RelCpu l =>
      if decide (lk_cpu (m_lock m l) = Some c) then Ok (goto c (RelClear l) m)
      else Panic "release"
  | RelClear l =>
      Ok (goto c (RelStore l) (set_lock l (mkSpinlock (lk_locked (m_lock m l)) None) m))
  | RelStore l =>
      let m := set_lock l (mkSpinlock 0 (lk_cpu (m_lock m l))) m in
      Ok (set_cpu c (cset_pc RelPop (cset_held (filter (fun k => k <> l) (cpu_held x)) x)) m)
  | RelPop => let! x := popcli x in Ok (set_cpu c (cset_pc Idle x) m)
  end.

(** Entering the two routines: [acquire] starts with [pushcli]. *)
Definition acquire (c l : nat) (m : machine) : machine :=
  set_cpu c (cset_pc (AcqLocked l) (pushcli (m_cpu m c))) m.
Definition release (c l : nat) (m : machine) : machine := goto c (RelLocked l) m.

(** Between calls a CPU may switch its interrupts only while it is in no
    [pushcli] section, as [sti] in the scheduler and [iret] do. *)
Inductive cpu_step : machine -> machine -> Prop :=
| step_acquire c l m : cpu_pc (m_cpu m c) = Idle -> cpu_step m (acquire c l m)
| step_release c l m : cpu_pc (m_cpu m c) = Idle -> cpu_step m (release c l m)
| step_micro c m m' : micro c m = Ok m' -> cpu_step m m'
| step_sti c b m : cpu_pc (m_cpu m c) = Idle -> cpu_ncli (m_cpu m c) = 0 ->
    cpu_step m (set_cpu c (cset_if b (m_cpu m c)) m).

Definition machine0 : machine :=
  mkMachine (fun c => mkCpu (Z.of_nat c) false 0 false Idle []) (fun _ => initlock (mkSpinlock 1 None)).

(** ** The invariant *)

(** CPU [x] has taken the lock word of [l]. *)
Definition owns (x : cpu) (l : nat) : Prop := l ∈ cpu_held x \/ cpu_pc x = AcqRecord l.

(** One [pushcli] per lock held, and one for the call in progress. *)
Definition pc_depth (p : pc) : nat :=
  match p with AcqLocked _ | AcqCpu _ | AcqXchg _ | AcqRecord _ | RelPop => 1 | _ => 0 end.
Definition cli_depth (x : cpu) : nat := length (cpu_held x) + pc_depth (cpu_pc x).

Record lock_inv (m : machine) : Prop := {
  li_nodup : forall c, NoDup (cpu_held (m_cpu m c));
  li_free : forall c l, owns (m_cpu m c) l -> lk_locked (m_lock m l) <> 0;
  li_excl : forall c1 c2 l, owns (m_cpu m c1) l -> owns (m_cpu m c2) l -> c1 = c2;
  li_once : forall c l, cpu_pc (m_cpu m c) = AcqRecord l -> l ∉ cpu_held (m_cpu m c);
  li_taken : forall l, lk_locked (m_lock m l) <> 0 -> exists c, owns (m_cpu m c) l;
  li_cpu : forall c l, lk_cpu (m_lock m l) = Some c <->
    l ∈ cpu_held (m_cpu m c) /\ cpu_pc (m_cpu m c) <> RelStore l;
  li_rel : forall c l, cpu_pc (m_cpu m c) = RelClear l \/ cpu_pc (m_cpu m c) = RelStore l ->
    l ∈ cpu_held (m_cpu m c);
  li_cli : forall c, cpu_ncli (m_cpu m c) = Z.of_nat (cli_depth (m_cpu m c));
  li_if : forall c, 0 < cpu_ncli (m_cpu m c) -> cpu_if (m_cpu m c) = false
}.

Lemma set_cpu_at c x m d : m_cpu (set_cpu c x m) d = if decide (c = d) then x else m_cpu m d.
Proof.
  simpl. case_decide as Hd; [subst; by rewrite fn_lookup_insert | by rewrite fn_lookup_insert_ne].
Qed.

Lemma set_lock_at l k m j : m_lock (set_lock l k m) j = if decide (l = j) then k else m_lock m j.
Proof.
  simpl. case_decide as Hd; [subst; by rewrite fn_lookup_insert | by rewrite fn_lookup_insert_ne].
Qed.

Lemma set_cpu_lock c x m : m_lock (set_cpu c x m) = m_lock m.
Proof. done. Qed.

Lemma set_lock_cpu l k m : m_cpu (set_lock l k m) = m_cpu m.
Proof. done. Qed.

(** A step that neither takes nor gives up a lock. *)
Lemma lock_inv_same c x m :
  lock_inv m ->
  (forall l, owns x l <-> owns (m_cpu m c) l) -> cpu_held x = cpu_held (m_cpu m c) ->
  (forall l, cpu_pc x <> RelStore l) -> (forall l, cpu_pc (m_cpu m c) <> RelStore l) ->
  (forall l, cpu_pc x = RelClear l -> l ∈ cpu_held x) ->
  (forall l, cpu_pc x = AcqRecord l -> l ∉ cpu_held x) ->
  cpu_ncli x = Z.of_nat (cli_depth x) -> (0 < cpu_ncli x -> cpu_if x = false) ->
  lock_inv (set_cpu c x m).
Proof.
  intros [H1 H2 H3 H4 H5 H6 H7 H8 H9] Ho Hh Hp1 Hp2 Hcl Hrec Hn Hif.
  assert (Hown : forall d l, owns (m_cpu (set_cpu c x m) d) l <-> owns (m_cpu m d) l).
  { intros d l. rewrite set_cpu_at. case_decide; [subst; apply Ho | done]. }
  split; rewrite ?set_cpu_lock.
  - intros d. rewrite set_cpu_at. case_decide; [by rewrite Hh | done].
  - intros d l Hd. apply Hown in Hd. eauto.
  - intros d1 d2 l Hd1 Hd2. apply Hown in Hd1, Hd2. eauto.
  - intros d l. rewrite set_cpu_at. case_decide; eauto.
  - intros l Hl. destruct (H5 l Hl) as [d Hd]. exists d. by apply Hown.
  - intros d l. rewrite H6, set_cpu_at. case_decide; [subst | done]. rewrite Hh. naive_solver.
  - intros d l. rewrite set_cpu_at. case_decide; [| eauto]. intros [Hd|Hd]; [eauto | by apply Hp1 in Hd].
  - intros d. rewrite set_cpu_at. by case_decide.
  - intros d. rewrite set_cpu_at. case_decide; eauto.
Qed.

(** The lock word is taken. *)
Lemma lock_inv_take c l m :
  lock_inv m -> cpu_pc (m_cpu m c) = AcqXchg l -> lk_locked (m_lock m l) = 0 ->
  lock_inv (goto c (AcqRecord l) (set_lock l (mkSpinlock 1 (lk_cpu (m_lock m l))) m)).
Proof.
  intros [H1 H2 H3 H4 H5 H6 H7 H8 H9] Hpc Hfree.
  assert (Hnone : forall d, ~ owns (m_cpu m d) l) by (intros d Hd; by apply H2 in Hd).
  set (m' := goto c _ _).
  assert (Hat : forall d, m_cpu m' d = if decide (c = d) then cset_pc (AcqRecord l) (m_cpu m c) else m_cpu m d)
    by (intros d; unfold m', goto; by rewrite set_cpu_at).
  assert (Hl : forall j, m_lock m' j = if decide (l = j) then mkSpinlock 1 (lk_cpu (m_lock m l)) else m_lock m j)
    by (intros j; unfold m', goto; by rewrite set_cpu_lock, set_lock_at).
  assert (Hown : forall d j, owns (m_cpu m' d) j <-> owns (m_cpu m d) j \/ d = c /\ j = l).
  { intros d j. rewrite Hat. unfold owns. case_decide; [subst d; simpl; rewrite Hpc |]; naive_solver. }
  assert (Hheld : forall d, cpu_held (m_cpu m' d) = cpu_held (m_cpu m d))
    by (intros d; rewrite Hat; case_decide; by subst).
  assert (Hholder : forall j, lk_cpu (m_lock m' j) = lk_cpu (m_lock m j))
    by (intros j; rewrite Hl; case_decide; by subst).
  split.
  - intros d. by rewrite Hheld.
  - intros d j. rewrite Hown, Hl. intros [Hd|[? Hjl]]; [| by rewrite decide_True]. case_decide; [done | eauto].
  - intros d1 d2 j. rewrite !Hown. 
    intros [Hd1|[? Hj1]] [Hd2|[? Hj2]]; [eauto | rewrite Hj2 in Hd1 | rewrite Hj1 in Hd2 | congruence];
      exfalso; by eapply Hnone.
  - intros d j. rewrite Hheld, Hat. case_decide; [subst; simpl | eauto]. intros [= <-] Hd. apply (Hnone d). by left.
  - intros j. rewrite Hl. case_decide; [subst; exists c; apply Hown; auto |].
    intros Hj. destruct (H5 j Hj) as [d Hd]. exists d. apply Hown. auto.
  - intros d j. rewrite Hheld, Hat, Hholder, H6. case_decide; [subst; simpl; rewrite Hpc; naive_solver | done].
  - intros d j. rewrite Hheld, Hat. case_decide; [simpl; naive_solver | eauto].
  - intros d. rewrite Hat. case_decide; [subst; simpl; rewrite H8; unfold cli_depth; simpl; by rewrite Hpc | done].
  - intros d. rewrite Hat. case_decide; [subst; simpl |]; eauto.
Qed.

(** Spinning on a lock that is taken changes nothing. *)
Lemma lock_inv_spin l m :
  lock_inv m -> lk_locked (m_lock m l) <> 0 ->
  lock_inv (set_lock l (mkSpinlock 1 (lk_cpu (m_lock m l))) m).
Proof.
  intros [H1 H2 H3 H4 H5 H6 H7 H8 H9] Hw. split; rewrite ?set_lock_cpu; try done.
  - intros d j Hd. rewrite set_lock_at. case_decide; [done | eauto].
  - intros j. rewrite set_lock_at. case_decide; [subst; eauto | eauto].
  - intros d j. rewrite set_lock_at. case_decide; [subst; apply H6 | apply H6].
Qed.

(** [acquire] records the holder. *)
Lemma lock_inv_record c l m :
  lock_inv m -> cpu_pc (m_cpu m c) = AcqRecord l ->
  lock_inv (set_cpu c (cset_pc Idle (cset_held (l :: cpu_held (m_cpu m c)) (m_cpu m c)))
    (set_lock l (mkSpinlock (lk_locked (m_lock m l)) (Some c)) m)).
Proof.
  intros [H1 H2 H3 H4 H5 H6 H7 H8 H9] Hpc. set (m' := set_cpu c _ _).
  assert (Hme : owns (m_cpu m c) l) by (by right).
  assert (Hat : forall d, m_cpu m' d = if decide (c = d) then cset_pc Idle (cset_held (l :: cpu_held (m_cpu m c)) (m_cpu m c)) else m_cpu m d)
    by (intros d; unfold m', goto; by rewrite set_cpu_at).
  assert (Hl : forall j, m_lock m' j = if decide (l = j) then mkSpinlock (lk_locked (m_lock m l)) (Some c) else m_lock m j)
    by (intros j; unfold m', goto; by rewrite set_cpu_lock, set_lock_at).
  assert (Hword : forall j, lk_locked (m_lock m' j) = lk_locked (m_lock m j))
    by (intros j; rewrite Hl; case_decide; by subst).
  assert (Hown : forall d j, owns (m_cpu m' d) j <-> owns (m_cpu m d) j).
  { intros d j. rewrite Hat. unfold owns. case_decide; [subst d; simpl; rewrite Hpc, elem_of_cons; naive_solver | done]. }
  split.
  - intros d. rewrite Hat. case_decide; [| done]. simpl. constructor; [by apply H4 | done].
  - intros d j. rewrite Hown, Hword. eauto.
  - intros d1 d2 j. rewrite !Hown. eauto.
  - intros d j. rewrite Hat. case_decide; [done | eauto].
  - intros j. rewrite Hword. intros Hj. destruct (H5 j Hj) as [d Hd]. exists d. by apply Hown.
  - intros d j. rewrite Hl, Hat. destruct (decide (l = j)) as [<-|Hne]; destruct (decide (c = d)) as [<-|Hcd]; simpl.
    + rewrite elem_of_cons. naive_solver.
    + split; [congruence |]. intros [Hd _]. destruct Hcd. apply (H3 _ _ l Hme). by left.
    + rewrite H6, elem_of_cons, Hpc. naive_solver.
    + apply H6.
  - intros d j. rewrite Hat. case_decide; [simpl; naive_solver | eauto].
  - intros d. rewrite Hat. case_decide; [subst; simpl; rewrite H8; unfold cli_depth; simpl; rewrite Hpc; simpl; lia | done].
  - intros d. rewrite Hat. case_decide; [subst; simpl |]; eauto.
Qed.

(** [release] clears the holder, then the word. *)
Lemma lock_inv_clear c l m :
  lock_inv m -> cpu_pc (m_cpu m c) = RelClear l ->
  lock_inv (goto c (RelStore l) (set_lock l (mkSpinlock (lk_locked (m_lock m l)) None) m)).
Proof.
  intros [H1 H2 H3 H4 H5 H6 H7 H8 H9] Hpc. set (m' := goto c _ _).
  assert (Hin : l ∈ cpu_held (m_cpu m c)) by (apply H7; auto).
  assert (Hat : forall d, m_cpu m' d = if decide (c = d) then cset_pc (RelStore l) (m_cpu m c) else m_cpu m d)
    by (intros d; unfold m', goto; by rewrite set_cpu_at).
  assert (Hl : forall j, m_lock m' j = if decide (l = j) then mkSpinlock (lk_locked (m_lock m l)) None else m_lock m j)
    by (intros j; unfold m', goto; by rewrite set_cpu_lock, set_lock_at).
  assert (Hword : forall j, lk_locked (m_lock m' j) = lk_locked (m_lock m j))
    by (intros j; rewrite Hl; case_decide; by subst).
  assert (Hown : forall d j, owns (m_cpu m' d) j <-> owns (m_cpu m d) j).
  { intros d j. rewrite Hat. unfold owns. case_decide; [subst d; simpl; rewrite Hpc; naive_solver | done]. }
  split.
  - intros d. rewrite Hat. case_decide; [subst |]; apply H1.
  - intros d j. rewrite Hown, Hword. eauto.
  - intros d1 d2 j. rewrite !Hown. eauto.
  - intros d j. rewrite Hat. case_decide; [done | eauto].
  - intros j. rewrite Hword. intros Hj. destruct (H5 j Hj) as [d Hd]. exists d. by apply Hown.
  - intros d j. rewrite Hl, Hat. destruct (decide (l = j)) as [<-|Hne]; destruct (decide (c = d)) as [<-|Hcd]; simpl.
    + naive_solver.
    + split; [done |]. intros [Hd _]. destruct Hcd. apply (H3 _ _ l); by left.
    + rewrite H6, Hpc. naive_solver.
    + apply H6.
  - intros d j. rewrite Hat. case_decide; [subst; simpl; naive_solver | eauto].
  - intros d. rewrite Hat. case_decide; [subst; simpl; rewrite H8; unfold cli_depth; simpl; by rewrite Hpc | done].
  - intros d. rewrite Hat. case_decide; [subst; simpl |]; eauto.
Qed.

Lemma length_filter_ne (l : nat) (L : list nat) :
  NoDup L -> l ∈ L -> S (length (filter (fun k => k <> l) L)) = length L.
Proof.
  intros Hnd Hin. apply list_elem_of_split in Hin as (l1 & l2 & ->).
  rewrite filter_ne_mid by done. rewrite !length_app. simpl. lia.
Qed.

Lemma lock_inv_store c l m :
  lock_inv m -> cpu_pc (m_cpu m c) = RelStore l ->
  lock_inv (set_cpu c (cset_pc RelPop (cset_held (filter (fun k => k <> l) (cpu_held (m_cpu m c))) (m_cpu m c)))
    (set_lock l (mkSpinlock 0 (lk_cpu (m_lock m l))) m)).
Proof.
  intros [H1 H2 H3 H4 H5 H6 H7 H8 H9] Hpc. set (m' := set_cpu c _ _).
  assert (Hin : l ∈ cpu_held (m_cpu m c)) by (apply H7; auto).
  assert (Hat : forall d, m_cpu m' d = if decide (c = d) then cset_pc RelPop (cset_held (filter (fun k => k <> l) (cpu_held (m_cpu m c))) (m_cpu m c)) else m_cpu m d)
    by (intros d; unfold m'; by rewrite set_cpu_at).
  assert (Hl : forall j, m_lock m' j = if decide (l = j) then mkSpinlock 0 (lk_cpu (m_lock m l)) else m_lock m j)
    by (intros j; unfold m'; by rewrite set_cpu_lock, set_lock_at).
  assert (Hholder : forall j, lk_cpu (m_lock m' j) = lk_cpu (m_lock m j))
    by (intros j; rewrite Hl; case_decide; by subst).
  assert (Hown : forall d j, owns (m_cpu m' d) j <-> owns (m_cpu m d) j /\ j <> l).
  { intros d j. rewrite Hat. unfold owns. case_decide as Hcd; [subst d; simpl; rewrite Hpc, list_elem_of_filter; naive_solver |].
    split; [| naive_solver]. intros Hd. split; [done |]. intros ->. apply Hcd. eapply (H3 _ _ l); [by left | done]. }
  split.
  - intros d. rewrite Hat. case_decide; [by apply NoDup_filter | done].
  - intros d j. rewrite Hown, Hl. intros [Hd Hj]. rewrite decide_False by done. eauto.
  - intros d1 d2 j. rewrite !Hown. naive_solver.
  - intros d j. rewrite Hat. case_decide; [done | eauto].
  - intros j. rewrite Hl. case_decide as Hj; [done |]. intros Hw. destruct (H5 j Hw) as [d Hd]. exists d.
    by apply Hown.
  - intros d j. rewrite Hholder, H6, Hat. case_decide as Hcd; [subst d; simpl | done].
    rewrite list_elem_of_filter, Hpc. split; [| naive_solver]. intros [Hj Hn]. repeat split; congruence.
  - intros d j. rewrite Hat. case_decide; [simpl; naive_solver | eauto].
  - intros d. rewrite Hat. case_decide; [| done]. subst. simpl. rewrite H8. unfold cli_depth. simpl. rewrite Hpc.
    pose proof (length_filter_ne l _ (H1 d) Hin). simpl. lia.
  - intros d. rewrite Hat. case_decide; [subst; simpl |]; eauto.
Qed.

Lemma pushcli_fields c :
  cpu_held (pushcli c) = cpu_held c /\ cpu_ncli (pushcli c) = cpu_ncli c + 1 /\ cpu_if (pushcli c) = false.
Proof. unfold pushcli. simpl. by destruct (cpu_ncli c =? 0). Qed.

Lemma popcli_fields c :
  0 < cpu_ncli c -> cpu_if c = false ->
  exists c', popcli c = Ok c' /\ cpu_held c' = cpu_held c /\ cpu_ncli c' = cpu_ncli c - 1 /\
    cpu_intena c' = cpu_intena c /\ cpu_pc c' = cpu_pc c /\
    cpu_if c' = (cpu_ncli c =? 1) && cpu_intena c.
Proof.
  intros Hn Hif. unfold popcli. rewrite Hif. cbn [cpu_ncli cset_ncli cpu_intena].
  rewrite (proj2 (Z.ltb_ge _ _)) by lia. replace (cpu_ncli c - 1 =? 0) with (cpu_ncli c =? 1) by (bool_cases; lia).
  destruct (_ && _) eqn:Hb; eexists; (split; [done |]); simpl; repeat split; done.
Qed.

(** The accesses that only read. *)
Definition reading (p : pc) : Prop :=
  match p with AcqRecord _ | RelStore _ => False | _ => True end.

Lemma lock_inv_goto c p m :
  lock_inv m -> reading p -> reading (cpu_pc (m_cpu m c)) -> pc_depth p = pc_depth (cpu_pc (m_cpu m c)) ->
  (forall l, p = RelClear l -> l ∈ cpu_held (m_cpu m c)) -> lock_inv (goto c p m).
Proof.
  intros Hm Hp Hq Hd Hcl. apply lock_inv_same; try done.
  - intros l. unfold owns. simpl. destruct p, (cpu_pc (m_cpu m c)); naive_solver.
  - by destruct p.
  - by destruct (cpu_pc (m_cpu m c)).
  - by destruct p.
  - simpl. rewrite (li_cli _ Hm). unfold cli_depth. simpl. by rewrite Hd.
  - apply Hm.
Qed.

Lemma lock_inv_micro c m m' : lock_inv m -> micro c m = Ok m' -> lock_inv m'.
Proof.
  intros Hm. pose proof (fun p => lock_inv_goto c p m Hm) as Hgo. unfold micro.
  destruct (cpu_pc (m_cpu m c)) as [|l|l|l|l|l|l|l|l|] eqn:Hpc; intros Hs.
  - congruence.
  - injection Hs as <-. destruct (lk_locked (m_lock m l) =? 0); by apply Hgo.
  - destruct (decide _); [done |]. injection Hs as <-. by apply Hgo.
  - injection Hs as <-. destruct (Z.eqb_spec (lk_locked (m_lock m l)) 0); [by apply lock_inv_take | by apply lock_inv_spin].
  - injection Hs as <-. by apply lock_inv_record.
  - destruct (_ =? _); [done |]. injection Hs as <-. by apply Hgo.
  - destruct (decide _) as [Hd|]; [| done]. injection Hs as <-. apply (li_cpu _ Hm) in Hd as [Hd _].
    apply Hgo; [done.. |]. by intros j [= <-].
  - injection Hs as <-. by apply lock_inv_clear.
  - injection Hs as <-. by apply lock_inv_store.
  - assert (Hdep : 0 < cpu_ncli (m_cpu m c)) by (rewrite (li_cli _ Hm); unfold cli_depth; rewrite Hpc; simpl; lia).
    destruct (popcli_fields (m_cpu m c) Hdep (li_if _ Hm c Hdep)) as (x & Hpop & Hh & Hn & _ & _ & Hif).
    rewrite Hpop in Hs. injection Hs as <-. apply lock_inv_same; try done; simpl; rewrite ?Hpc; try done.
    + intros j. unfold owns. simpl. rewrite Hh, Hpc. naive_solver.
    + rewrite Hn, (li_cli _ Hm). unfold cli_depth. simpl. rewrite Hh, Hpc. simpl. lia.
    + rewrite Hn, Hif. intros Hpos. rewrite (proj2 (Z.eqb_neq _ _)) by lia. done.
Qed.

Lemma lock_inv_step m m' : lock_inv m -> cpu_step m m' -> lock_inv m'.
Proof.
  intros Hm Hstep. revert Hm. destruct Hstep as [c l m Hpc | c l m Hpc | c m m' Hs | c b m Hpc Hn]; intros Hm.
  - destruct (pushcli_fields (m_cpu m c)) as (Hh & Hn & Hif). unfold acquire.
    revert Hh Hn Hif. generalize (pushcli (m_cpu m c)). intros x Hh Hn Hif.
    apply lock_inv_same; try done; simpl; rewrite ?Hpc; try done.
    + intros j. unfold owns. simpl. rewrite Hh, Hpc. naive_solver.
    + rewrite Hn, (li_cli _ Hm). unfold cli_depth. simpl. rewrite Hh, Hpc. simpl. lia.
  - apply lock_inv_goto; rewrite ?Hpc; done.
  - by eapply lock_inv_micro.
  - apply lock_inv_same; try done; simpl; rewrite ?Hpc; try done.
    + apply Hm.
    + lia.
Qed.

Lemma lock_inv0 : lock_inv machine0.
Proof.
  assert (Hno : forall c l, ~ owns (m_cpu machine0 c) l) by (intros c l [H|H]; [by apply not_elem_of_nil in H | done]).
  split; try done.
  - intros c. constructor.
  - intros c l Hc. by apply Hno in Hc.
  - intros c1 c2 l Hc. by apply Hno in Hc.
  - intros c l. split; [done |]. intros [H _]. by apply not_elem_of_nil in H.
  - by intros c l [H|H].
Qed.

Lemma lock_inv_reachable m : rtc cpu_step machine0 m -> lock_inv m.
Proof. apply (rtc_invariant cpu_step lock_inv); [apply lock_inv_step | apply lock_inv0]. Qed.

(** * Properties of the spin locks *)

(** C8: mutual exclusion on any number of CPUs. Whatever calls of [acquire]
    and [release] they interleave, no two CPUs hold a lock at once, a CPU that
    holds a lock has its interrupts off, and a CPU gets stuck in a panic only
    by acquiring a lock it already holds or releasing one it does not hold;
    in particular [popcli] never panics. *)
Theorem spinlock_mutual_exclusion m (Hreach : rtc cpu_step machine0 m) :
  (forall c1 c2 l, l ∈ cpu_held (m_cpu m c1) -> l ∈ cpu_held (m_cpu m c2) -> c1 = c2) /\
  (forall c l, l ∈ cpu_held (m_cpu m c) -> cpu_if (m_cpu m c) = false) /\
  (forall c, match micro c m with
   | Ok _ => True
   | Panic _ => exists l, (cpu_pc (m_cpu m c) = AcqCpu l /\ l ∈ cpu_held (m_cpu m c)) \/
       ((cpu_pc (m_cpu m c) = RelLocked l \/ cpu_pc (m_cpu m c) = RelCpu l) /\ l ∉ cpu_held (m_cpu m c))
   | _ => False
   end).
Proof.
  pose proof (lock_inv_reachable m Hreach) as Hm. split; [| split].
  - intros c1 c2 l H1 H2. apply (li_excl _ Hm c1 c2 l); by left.
  - intros c l Hl. apply (li_if _ Hm). rewrite (li_cli _ Hm). unfold cli_depth.
    destruct (cpu_held (m_cpu m c)); [by apply not_elem_of_nil in Hl | simpl; lia].
  - intros c. unfold micro. destruct (cpu_pc (m_cpu m c)) as [|l|l|l|l|l|l|l|l|] eqn:Hpc; try done.
    + destruct (decide _) as [Hd|]; [| done]. exists l. left. split; [done |]. by apply (li_cpu _ Hm) in Hd as [Hd _].
    + destruct (Z.eqb_spec (lk_locked (m_lock m l)) 0) as [Hz|]; [| done]. exists l. right. split; [by left |].
      intros Hl. apply (li_free _ Hm c l); [by left | done].
    + destruct (decide _) as [|Hd]; [done |]. exists l. right. split; [by right |]. intros Hl. destruct Hd.
      apply (li_cpu _ Hm). by rewrite Hpc.
    + assert (Hdep : 0 < cpu_ncli (m_cpu m c)) by (rewrite (li_cli _ Hm); unfold cli_depth; rewrite Hpc; simpl; lia).
      destruct (popcli_fields (m_cpu m c) Hdep (li_if _ Hm c Hdep)) as (x & -> & _). done.
Qed.

Lemma spinlock_mutual_exclusion_witness :
  let m := acquire 1 5 (acquire 0 5 machine0) in
  (forall c1 c2 l, l ∈ cpu_held (m_cpu m c1) -> l ∈ cpu_held (m_cpu m c2) -> c1 = c2) /\
  (forall c l, l ∈ cpu_held (m_cpu m c) -> cpu_if (m_cpu m c) = false).
Proof.
  destruct (spinlock_mutual_exclusion (acquire 1 5 (acquire 0 5 machine0))) as (H1 & H2 & _); [| split; assumption].
  eapply rtc_l; [apply (step_acquire 0 5 machine0); reflexivity |].
  eapply rtc_l; [apply (step_acquire 1 5); reflexivity |]. apply rtc_refl.
Defined.

(** The calls [pushcli] ([true]) and [popcli] ([false]). *)
Fixpoint cli_calls (ops : list bool) (c : cpu) : res cpu :=
  match ops with
  | [] => Ok c
  | true :: ops => cli_calls ops (pushcli c)
  | false :: ops => let! c := popcli c in cli_calls ops c
  end.

Fixpoint nesting (ops : list bool) (d : nat) : option nat :=
  match ops, d with
  | [], _ => Some d
  | true :: ops, _ => nesting ops (S d)
  | false :: ops, S d => nesting ops d
  | false :: _, O => None
  end.

Lemma cli_calls_nested ops d d' c flag :
  nesting ops d = Some d' -> cpu_ncli c = Z.of_nat d ->
  cpu_if c = (if d is O then flag else false) -> (d <> 0%nat -> cpu_intena c = flag) ->
  exists c', cli_calls ops c = Ok c' /\ cpu_ncli c' = Z.of_nat d' /\
    cpu_if c' = (if d' is O then flag else false).
Proof.
  revert d c. induction ops as [|[] ops IH]; intros d c; cbn [nesting cli_calls].
  - intros [= <-] Hn Hif _. eauto.
  - intros Hd Hn Hif Hen. destruct (pushcli_fields c) as (_ & Hn' & Hif').
    apply (IH (S d)); [done | rewrite Hn'; lia | done |]. intros _. unfold pushcli. simpl.
    destruct (Z.eqb_spec (cpu_ncli c) 0) as [Hz|Hz].
    + assert (d = 0%nat) as -> by lia. simpl. done.
    + simpl. apply Hen. lia.
  - destruct d as [|d]; [done |]. intros Hd Hn Hif Hen.
    destruct (popcli_fields c) as (x & -> & _ & Hn' & Hen' & _ & Hif'); [lia | done |]. cbn [rbind].
    apply (IH d); [done | rewrite Hn'; lia | | by intros; rewrite Hen', Hen].
    rewrite Hif', Hen by done. destruct d; [by rewrite (proj2 (Z.eqb_eq _ _)) by lia |].
    by rewrite (proj2 (Z.eqb_neq _ _)) by lia.
Qed.

(** [pushcli] and [popcli] nest: as long as no [popcli] is without its
    [pushcli], none panics, interrupts are off inside, and after the last
    [popcli] they are on exactly if they were on before the first [pushcli]. *)
Theorem pushcli_popcli_nest ops d c
  (Hnest : nesting ops 0 = Some d) (Hn : cpu_ncli c = 0) :
  exists c', cli_calls ops c = Ok c' /\ cpu_ncli c' = Z.of_nat d /\
    cpu_if c' = (if d is O then cpu_if c else false).
Proof. by apply (cli_calls_nested ops 0 d c (cpu_if c)). Qed.

Lemma pushcli_popcli_nest_witness :
  let c := mkCpu 0 true 0 false Idle [] in
  exists c', cli_calls [true; true; false; false] c = Ok c' /\ cpu_ncli c' = 0 /\ cpu_if c' = true.
Proof. intros c. by apply (pushcli_popcli_nest [true; true; false; false] 0 c). Defined.
