(* ===== verification/Container.v ===== *)
(** * Containers (container.c)

    The container table and the path confinement of the processes in a
    container. A fixed-size [char] buffer is represented by the string it
    holds; copying a string that does not fit into one is undefined. *)

From S2P Require Import Prelude Mem CString Params ProcDef.

Definition MAX_NUM_CONTAINERS : nat := 10.

Record container := mkContainer {
  c_alive : Z;
  c_name : cstring;
  c_vc : cstring;
  c_path : cstring;
  c_max_proc : Z;
  c_next_proc : Z;
  c_root_path : cstring;
  c_active_processes : Z;
  c_shm : Z;
  c_shm_index : Z;
  c_pipein : Z;
  c_pipeout : Z
}.

Definition manager := list container.

Definition cn_alive v c := mkContainer v (c_name c) (c_vc c) (c_path c) (c_max_proc c)
  (c_next_proc c) (c_root_path c) (c_active_processes c) (c_shm c) (c_shm_index c) (c_pipein c) (c_pipeout c).
Definition cn_name v c := mkContainer (c_alive c) v (c_vc c) (c_path c) (c_max_proc c)
  (c_next_proc c) (c_root_path c) (c_active_processes c) (c_shm c) (c_shm_index c) (c_pipein c) (c_pipeout c).
Definition cn_max_proc v c := mkContainer (c_alive c) (c_name c) (c_vc c) (c_path c) v
  (c_next_proc c) (c_root_path c) (c_active_processes c) (c_shm c) (c_shm_index c) (c_pipein c) (c_pipeout c).
Definition cn_proc next active c := mkContainer (c_alive c) (c_name c) (c_vc c) (c_path c) (c_max_proc c)
  next (c_root_path c) active (c_shm c) (c_shm_index c) (c_pipein c) (c_pipeout c).
Definition cn_root v c := mkContainer (c_alive c) (c_name c) (c_vc c) v (c_max_proc c)
  (c_next_proc c) v (c_active_processes c) (c_shm c) (c_shm_index c) (c_pipein c) (c_pipeout c).
Definition cn_vc shm pin pout c := mkContainer (c_alive c) (c_name c) (c_vc c) (c_path c) (c_max_proc c)
  (c_next_proc c) (c_root_path c) (c_active_processes c) shm (c_shm_index c) pin pout.

Definition upd_container (cs : manager) (i : Z) (f : container -> container) : res manager :=
  let! c := arr_get cs i in arr_set cs i (f c).

(** ** Strings *)

Definition slash : Z := 47.
Definition dot : cstring := [46].
Definition dotdot : cstring := [46; 46].

(** A string copied into [char b[n]]. *)
Definition fits (n : nat) (s : cstring) : res cstring :=
  if (length s <? n)%nat then Ok s else Undef.

Fixpoint strcmp (p q : cstring) : Z :=
  match p, q with
  | a :: p', b :: q' => if a =? b then strcmp p' q' else schar a - schar b
  | a :: _, [] => schar a
  | [], b :: _ => - schar b
  | [], [] => 0
  end.

(** 0 as soon as [p] ends. *)
Fixpoint rootcmp (p q : cstring) : Z :=
  match p, q with
  | a :: p', b :: q' => if a =? b then rootcmp p' q' else schar a - schar b
  | a :: _, [] => schar a
  | [], _ => 0
  end.

(** ** Fields *)

Definition getname (index : Z) (cs : manager) : res cstring :=
  let! c := arr_get cs index in Ok (c_name c).

Definition setname (index : Z) (name : cstring) (cs : manager) : res (Z * manager) :=
  let! name := fits 32 name in
  let! cs := upd_container cs index (cn_name name) in Ok (0, cs).

Definition getmaxproc (index : Z) (cs : manager) : res Z :=
  let! c := arr_get cs index in Ok (c_max_proc c).

Definition setmaxproc (index max_proc : Z) (cs : manager) : res (Z * manager) :=
  let! cs := upd_container cs index (cn_max_proc max_proc) in Ok (0, cs).

Definition setalive (index val : Z) (cs : manager) : res (Z * manager) :=
  let! cs := upd_container cs index (cn_alive val) in Ok (0, cs).

Definition getalive (index : Z) (cs : manager) : res Z :=
  let! c := arr_get cs index in Ok (c_alive c).

Definition getpath (p : proc) : cstring := p_path p.

(** [name] is an array, so the test [name != 0] the loop makes for each [i] is
    always true. *)
Fixpoint getnumcontainers_loop (l : list nat) (count : Z) : Z :=
  match l with [] => count | _ :: l' => getnumcontainers_loop l' (count + 1) end.
Definition getnumcontainers (cs : manager) : Z :=
  getnumcontainers_loop (seq 1 MAX_NUM_CONTAINERS) 0.

Definition setroot (cid : Z) (root_path : cstring) (cs : manager) (p : proc) : res (Z * manager * proc) :=
  let! root_path := fits 128 root_path in
  let! cs := upd_container cs cid (cn_root root_path) in
  Ok (0, cs, set_path root_path p).

(** [shm] is what [shm_get(vc)] returned. *)
Definition setvc (index shm : Z) (fds : Z * Z) (cs : manager) (p : proc) : res (Z * manager * proc) :=
  let! cs := upd_container cs index (cn_vc shm fds.1 fds.2) in
  Ok (0, cs, set_pipeout fds.2 (set_pipein fds.1 p)).

Definition get_new_cid (cs : manager) : Z :=
  match find_from (fun c => c_alive c =? 0) cs 0 with Some i => Z.of_nat i | None => -1 end.

(** The messages for an invalid or dead container do not stop the copy. *)
Definition get_con_shm (fuel : nat) (cid : Z) (str : Z) (m : mem) (cs : manager) : res (Z * mem) :=
  let! c := arr_get cs cid in
  let! m := strcpy fuel m str (c_shm c) in Ok (0, m).

Definition setnextproc (index val : Z) (cs : manager) : res (Z * manager) :=
  if -1 <? index then
    let! c := arr_get cs index in
    if (c_alive c =? 1) && (c_max_proc c + 1 <? c_active_processes c) then Ok (-1, cs)
    else
      let! cs := arr_set cs index (cn_proc val (c_active_processes c + 1) c) in Ok (1, cs)
  else Ok (0, cs).

(** ** [setpath] *)

(** [path_arr[i] = strtok(..)] until it returns NULL. *)
Fixpoint fill (arr : list (option cstring)) (i : Z) (ts : list cstring) :
  res (list (option cstring) * Z) :=
  match ts with
  | [] => let! arr := arr_set arr i None in Ok (arr, i)
  | t :: ts' => let! arr := arr_set arr i (Some t) in fill arr (i + 1) ts'
  end.

(** One component of the new path. *)
Definition walk_one (t : cstring) (arr : list (option cstring)) (i : Z) :
  res (list (option cstring) * Z) :=
  if strcmp t dotdot =? 0 then
    if 1 <? i then let! arr := arr_set arr (i - 1) None in Ok (arr, i - 1) else Ok (arr, i)
  else let! arr := arr_set arr i (Some t) in Ok (arr, i + 1).

Fixpoint walk (ts : list cstring) (arr : list (option cstring)) (i : Z) :
  res (list (option cstring) * Z) :=
  match ts with
  | [] => Ok (arr, i)
  | t :: ts' => let! (arr, i) := walk_one t arr i in walk ts' arr i
  end.

(** The branch for a path of one component. *)
Definition walk_single (path : cstring) (arr : list (option cstring)) (i : Z) :
  res (list (option cstring) * Z) :=
  if strcmp path dotdot =? 0 then
    if 1 <? i then let! arr := arr_set arr (i - 1) None in Ok (arr, i - 1) else Ok (arr, i)
  else let! arr := arr_set arr i (Some path) in Ok (arr, i).

(** Writing the components back into [myproc()->path]. *)
Fixpoint join (arr : list (option cstring)) (js : list nat) (acc : cstring) : res cstring :=
  match js with
  | [] => Ok acc
  | j :: js' =>
      let! t := arr_get arr (Z.of_nat j) in
      match t with
      | Some ((_ :: _) as t) =>
          let! acc := fits 128 (acc ++ t) in
          let! acc := fits 128 (acc ++ [slash]) in join arr js' acc
      | _ => join arr js' acc
      end
  end.

Definition setpath (index : Z) (path_addr : cstring) (update : Z) (cs : manager) (p : proc) :
  res (Z * cstring * proc) :=
  let! path := fits 128 path_addr in
  let index := if index <? 0 then p_cid p else index in
  let single := negb (existsb (fun c => c =? slash) path) in
  let! path :=
    match path with
    | c0 :: rest =>
        if c0 =? slash then
          let! c := arr_get cs index in
          let! temp := fits 128 (c_root_path c) in fits 128 (temp ++ rest)
        else Ok path
    | [] => Ok path
    end in
  let! path :=
    match last path with
    | None => Undef
    | Some z => Ok (if (z =? slash) && (1 <? length path)%nat then removelast path else path)
    end in
  if strcmp path dot =? 0 then Ok (0, path_addr, p)
  else
    let original_pwd_path := p_path p in
    let! newpath :=
      if 1 <=? update then
        let arr := <[0%nat := Some [slash]]> (replicate 128 None) in
        let! (arr, i) := fill arr 1 (tokens [slash] (p_path p)) in
        let! (arr, i) := if single then walk_single path arr i
                         else walk (tokens [slash] path_addr) arr i in
        join arr (seq 1 (Z.to_nat i)) [slash]
      else Ok path in
    let! c := arr_get cs index in
    if negb (rootcmp (c_root_path c) newpath =? 0) then
      Ok (-1, path_addr, set_path (if update =? 2 then original_pwd_path else c_root_path c) p)
    else
      Ok (0, newpath, set_path (if update =? 2 then original_pwd_path else newpath) p).

(** ** Paths as lists of components *)

Definition comp_ok (t : cstring) : Prop := t <> [] /\ (slash ∉ t) /\ Forall (fun z => 0 < z < 256) t.

#[export] Instance comp_ok_dec t : Decision (comp_ok t).
Proof. unfold comp_ok. apply _. Defined.

Definition render (comps : list cstring) : cstring := slash :: concat ((fun t => t ++ [slash]) <$> comps).

(** The components [ts] of a path seen from directory [cur]. *)
Definition resolve (cur ts : list cstring) : list cstring :=
  foldl (fun c t => if decide (t = dotdot) then removelast c else c ++ [t]) cur ts.

Lemma strcmp_0 p q :
  Forall (fun z => 0 < z < 256) p -> Forall (fun z => 0 < z < 256) q -> strcmp p q = 0 <-> p = q.
Proof.
  revert q. induction p as [|a p IH]; intros [|b q] Hp Hq; simpl; inv Hp; inv Hq; try done.
  - split; [| done]. intros H. assert (Hb : schar b = 0) by lia. rewrite schar_0 in Hb by lia. lia.
  - split; [| done]. intros H. rewrite schar_0 in H by lia. lia.
  - destruct (Z.eqb_spec a b) as [->|Hne]; [rewrite IH by done; naive_solver |].
    rewrite schar_sub_0 by lia. naive_solver.
Qed.

Lemma rootcmp_0 p q :
  Forall (fun z => 0 < z < 256) p -> Forall (fun z => 0 < z < 256) q -> rootcmp p q = 0 <-> p `prefix_of` q.
Proof.
  revert q. induction p as [|a p IH]; intros [|b q] Hp Hq; simpl; inv Hp; inv Hq;
    try (by split; [intros _; apply prefix_nil |]).
  - split; [| by intros ?%prefix_nil_not]. intros H. rewrite schar_0 in H by lia. lia.
  - destruct (Z.eqb_spec a b) as [->|Hne].
    + rewrite IH by done. split; [apply prefix_cons | apply prefix_cons_inv_2].
    + rewrite schar_sub_0 by lia. split; [done |]. by intros ?%prefix_cons_inv_1.
Qed.

(** ** Tokens of a path *)

Lemma delimb_slash c : delimb [slash] c = true <-> c = slash.
Proof. unfold delimb. rewrite bool_decide_eq_true, list_elem_of_singleton. done. Qed.

Lemma toks_app_slash t s : slash ∉ t -> toks [slash] (t ++ slash :: s) = (t, tokens [slash] s).
Proof.
  induction t as [|c t IH]; intros Ht; cbn [app toks].
  - unfold tokens. destruct (toks [slash] s) as [w ws]. by rewrite (proj2 (delimb_slash slash)).
  - apply not_elem_of_cons in Ht as [Hc Ht]. rewrite IH by done.
    destruct (delimb [slash] c) eqn:Hd; [| done]. apply delimb_slash in Hd. congruence.
Qed.

Lemma toks_no_slash t : slash ∉ t -> toks [slash] t = (t, []).
Proof.
  induction t as [|c t IH]; intros Ht; [done |]. cbn [toks].
  apply not_elem_of_cons in Ht as [Hc Ht]. rewrite IH by done.
  destruct (delimb [slash] c) eqn:Hd; [| done]. apply delimb_slash in Hd. congruence.
Qed.

Lemma tokens_single t : slash ∉ t -> t <> [] -> tokens [slash] t = [t].
Proof. intros Ht Hne. unfold tokens. rewrite toks_no_slash by done. by destruct t. Qed.

Lemma tokens_render comps : Forall comp_ok comps -> tokens [slash] (render comps) = comps.
Proof.
  intros Hc. unfold render. rewrite tokens_delim by (by apply delimb_slash).
  induction Hc as [|t comps (Hne & Hs & _) _ IH]; [done |]. cbn [fmap list_fmap concat].
  rewrite <- app_assoc. unfold tokens. cbn [app]. rewrite toks_app_slash by done.
  rewrite IH. by destruct t.
Qed.

Abbreviation bytes s := (Forall (fun z => 0 < z < 256) s).

Lemma toks_props s :
  bytes s ->
  let '(w, ws) := toks [slash] s in
  (slash ∉ w) /\ bytes w /\ Forall comp_ok ws /\
  (length w + length (concat ((fun t => t ++ [slash]) <$> ws)) <= length s)%nat.
Proof.
  induction s as [|c s IH]; intros Hs; cbn [toks].
  { split; [apply not_elem_of_nil |]. done. }
  inv Hs. specialize (IH ltac:(done)). destruct (toks [slash] s) as [w ws]. destruct IH as (Hw & Hb & Hws & Hl).
  destruct (delimb [slash] c) eqn:Hd.
  - split; [apply not_elem_of_nil |]. split; [done |]. destruct w as [|a w]; [split; [done | simpl in *; lia] |].
    split; [by constructor |]. cbn [fmap list_fmap concat]. rewrite length_app, length_app. simpl in *. lia.
  - split; [| split; [by constructor |]; split; [done | simpl; lia]].
    apply not_elem_of_cons. split; [| done]. intros <-. by rewrite (proj2 (delimb_slash slash)) in Hd.
Qed.

Lemma tokens_ok s : bytes s -> Forall comp_ok (tokens [slash] s).
Proof.
  intros Hs%toks_props. unfold tokens. destruct (toks [slash] s) as [[|a w] ws]; destruct Hs as (? & ? & ? & _); [done |].
  by constructor.
Qed.

Lemma tokens_length s :
  bytes s -> (length (concat ((fun t => t ++ [slash]) <$> tokens [slash] s)) <= length s + 1)%nat.
Proof.
  intros Hs%toks_props. unfold tokens. destruct (toks [slash] s) as [[|a w] ws]; destruct Hs as (? & ? & ? & Hl).
  - simpl in *. lia.
  - cbn [fmap list_fmap concat]. rewrite !length_app. simpl in *. lia.
Qed.

Lemma render_app c1 c2 : render (c1 ++ c2) = render c1 ++ concat ((fun t => t ++ [slash]) <$> c2).
Proof. unfold render. rewrite fmap_app, concat_app. done. Qed.

Lemma render_bytes comps : Forall comp_ok comps -> bytes (render comps).
Proof.
  intros Hc. constructor; [done |]. induction Hc as [|t comps (_ & _ & Ht) _ IH]; [constructor |].
  cbn [fmap list_fmap concat]. rewrite !Forall_app. split; [split; [done | by repeat constructor] | done].
Qed.

(** A root directory is a prefix of a path, as strings, only if its components are. *)
Lemma render_prefix r c :
  Forall comp_ok r -> Forall comp_ok c -> render r `prefix_of` render c -> r `prefix_of` c.
Proof.
  intros Hr. revert c. induction Hr as [|t r (Hne & Hs & _) Hr IH]; intros c Hc Hp; [apply prefix_nil |].
  apply prefix_cons_inv_2 in Hp. cbn [fmap list_fmap concat] in Hp. destruct Hc as [|u c (Hne' & Hs' & _) Hc].
  { apply prefix_nil_inv in Hp. by destruct t. }
  cbn [fmap list_fmap concat] in Hp. rewrite <- !app_assoc in Hp. cbn [app] in Hp.
  assert (t = u) as ->.
  { destruct Hp as [k Hk]. rewrite <- app_assoc in Hk. cbn [app] in Hk.
    pose proof (toks_app_slash t) as H1. pose proof (toks_app_slash u) as H2.
    apply (f_equal (fun l => fst (toks [slash] l))) in Hk. rewrite H1, H2 in Hk by done. by simpl in Hk. }
  apply prefix_cons. apply IH; [done |]. by apply prefix_app_inv in Hp.
Qed.

(** ** The component array *)

Record arr_rep (arr : list (option cstring)) (i : Z) (comps : list cstring) : Prop := {
  ar_len : length arr = 128%nat;
  ar_i : i = 1 + Z.of_nat (length comps);
  ar_get : forall k t, comps !! k = Some t -> arr !! S k = Some (Some t);
  ar_rest : forall k, (length comps < k < 128)%nat -> arr !! k = Some None
}.

Lemma arr_rep_push arr i comps t :
  arr_rep arr i comps -> i < 128 ->
  exists arr', arr_set arr i (Some t) = Ok arr' /\ arr_rep arr' (i + 1) (comps ++ [t]).
Proof.
  intros [Hl Hi Hg Hr] Hlt. eexists. split; [apply arr_set_in; lia |]. subst i.
  replace (Z.to_nat (1 + Z.of_nat (length comps))) with (S (length comps)) by lia. split.
  - by rewrite length_insert.
  - rewrite length_app. simpl. lia.
  - intros k u Hk. apply lookup_snoc_Some in Hk as [[Hk Hu]|[-> <-]].
    + rewrite list_lookup_insert_ne by lia. by apply Hg.
    + apply list_lookup_insert_eq. lia.
  - intros k. rewrite length_app. simpl. intros Hk. rewrite list_lookup_insert_ne by lia. apply Hr. lia.
Qed.

Lemma arr_rep_pop arr i comps :
  arr_rep arr i comps -> 1 < i <= 128 ->
  exists arr', arr_set arr (i - 1) None = Ok arr' /\ arr_rep arr' (i - 1) (removelast comps).
Proof.
  intros [Hl Hi Hg Hr] Hlt. eexists. split; [apply arr_set_in; lia |].
  destruct (exists_last (l := comps)) as (cs & t & ->); [intros ->; simpl in Hi; lia |].
  rewrite removelast_last. rewrite length_app in *. simpl in *.
  replace (Z.to_nat (i - 1)) with (S (length cs)) by lia. split.
  - by rewrite length_insert.
  - lia.
  - intros k u Hk. pose proof (lookup_lt_Some _ _ _ Hk). rewrite list_lookup_insert_ne by lia.
    apply Hg. by apply lookup_app_l_Some.
  - intros k Hk. destruct (decide (k = S (length cs))) as [->|Hne].
    + apply list_lookup_insert_eq. lia.
    + rewrite list_lookup_insert_ne by lia. apply Hr. lia.
Qed.

Lemma fill_spec ts arr i comps :
  arr_rep arr i comps -> i + Z.of_nat (length ts) < 128 ->
  exists arr' i', fill arr i ts = Ok (arr', i') /\ arr_rep arr' i' (comps ++ ts).
Proof.
  revert arr i comps. induction ts as [|t ts IH]; intros arr i comps Ha Hi; simpl in *.
  - destruct Ha as [Hl Hc Hg Hr]. rewrite arr_set_in by lia. simpl. eexists _, _. split; [done |].
    rewrite app_nil_r, list_insert_id; [by split |]. apply Hr. lia.
  - destruct (arr_rep_push arr i comps t Ha) as (arr1 & -> & H1); [lia |]. cbn [rbind].
    destruct (IH arr1 (i + 1) (comps ++ [t]) H1) as (arr' & i' & He & Hr); [lia |].
    rewrite <- app_assoc in Hr. eauto.
Qed.

Lemma resolve_cons cur t ts :
  resolve cur (t :: ts) = resolve (if decide (t = dotdot) then removelast cur else cur ++ [t]) ts.
Proof. done. Qed.

Lemma walk_one_spec t arr i comps :
  comp_ok t -> arr_rep arr i comps -> i < 128 ->
  exists arr' i', walk_one t arr i = Ok (arr', i') /\ i' <= i + 1 /\
    arr_rep arr' i' (resolve comps [t]).
Proof.
  intros (_ & _ & Hb) Ha Hi. unfold walk_one, resolve. simpl.
  assert (Hdd : (strcmp t dotdot =? 0) = bool_decide (t = dotdot)).
  { apply eq_true_iff_eq. rewrite Z.eqb_eq, bool_decide_eq_true. apply strcmp_0; [done |]. by repeat constructor. }
  rewrite Hdd. case_bool_decide as He.
  - rewrite decide_True by done. destruct (Z.ltb_spec 1 i) as [H1|H1].
    + destruct (arr_rep_pop arr i comps Ha) as (arr' & -> & H'); [lia |]. eexists _, _. split; [done |]. by split; [lia |].
    + eexists _, _. split; [done |]. split; [lia |]. destruct comps as [|c cs]; [done |].
      pose proof (ar_i _ _ _ Ha). simpl in *. lia.
  - rewrite decide_False by done. destruct (arr_rep_push arr i comps t Ha Hi) as (arr' & -> & H').
    eexists _, _. split; [done |]. by split; [lia |].
Qed.

Lemma walk_spec ts arr i comps :
  Forall comp_ok ts -> arr_rep arr i comps -> i + Z.of_nat (length ts) <= 128 ->
  exists arr' i', walk ts arr i = Ok (arr', i') /\ i' <= i + Z.of_nat (length ts) /\
    arr_rep arr' i' (resolve comps ts).
Proof.
  intros Hts. revert arr i comps. induction Hts as [|t ts Ht Hts IH]; intros arr i comps Ha Hi; simpl in *.
  - eexists _, _. split; [done |]. by split; [lia |].
  - destruct (walk_one_spec t arr i comps Ht Ha) as (arr1 & i1 & -> & Hle & H1); [lia |]. cbn [rbind].
    destruct (IH arr1 i1 _ H1) as (arr' & i' & He & Hle' & Hr); [lia |]. exists arr', i'.
    split; [done |]. split; [lia | done].
Qed.

Lemma join_spec arr i comps rest n :
  arr_rep arr i (comps ++ rest) -> Forall comp_ok rest -> (length (render (comps ++ rest)) < 128)%nat ->
  (length rest <= n <= S (length rest))%nat -> (length comps + n < 128)%nat ->
  join arr (seq (S (length comps)) n) (render comps) = Ok (render (comps ++ rest)).
Proof.
  intros Ha Hok Hlen. revert comps n Ha Hlen. induction Hok as [|t rest (Hne & _) _ IH]; intros comps n Ha Hlen Hn Hb.
  - rewrite app_nil_r in *. destruct n as [|n]; [done |]. destruct n; [| simpl in Hn; lia]. cbn [seq join].
    unfold arr_get. rewrite (proj2 (Z.ltb_ge _ _)), Nat2Z.id by lia.
    by rewrite (ar_rest _ _ _ Ha) by lia.
  - destruct n as [|n]; [simpl in Hn; lia |]. cbn [seq join].
    assert (Hat : arr !! S (length comps) = Some (Some t)).
    { apply (ar_get _ _ _ Ha). rewrite lookup_app_r, Nat.sub_diag by lia. done. }
    unfold arr_get. rewrite (proj2 (Z.ltb_ge _ _)), Nat2Z.id, Hat by lia. cbn [rbind].
    assert (Hr : render (comps ++ t :: rest) = render ((comps ++ [t]) ++ rest)) by (by rewrite <- app_assoc).
    assert (Hacc : render comps ++ t ++ [slash] = render (comps ++ [t])).
    { rewrite render_app. simpl. by rewrite app_nil_r. }
    rewrite Hr in *. assert (Hlt : (length (render comps ++ t ++ [slash]) < 128)%nat).
    { rewrite render_app, length_app in Hlen. rewrite Hacc. lia. }
    destruct t as [|a t]; [done |]. cbv iota. unfold fits.
    rewrite (proj2 (Nat.ltb_lt (length (render comps ++ a :: t)) 128)) by (rewrite !length_app in *; simpl in *; lia).
    cbn [rbind]. rewrite <- app_assoc, (proj2 (Nat.ltb_lt _ 128) Hlt). cbn [rbind]. rewrite Hacc.
    specialize (IH (comps ++ [a :: t]) n). rewrite length_app, Nat.add_1_r in IH. apply IH; try (simpl in *; lia).
    by rewrite <- app_assoc.
Qed.

(** The length a component adds to a path. *)
Definition plen (comps : list cstring) : nat := length (concat ((fun t => t ++ [slash]) <$> comps)).

Lemma plen_app c1 c2 : plen (c1 ++ c2) = (plen c1 + plen c2)%nat.
Proof. unfold plen. by rewrite fmap_app, concat_app, length_app. Qed.

Lemma plen_removelast c : (plen (removelast c) <= plen c)%nat.
Proof.
  destruct c as [|x c _] using rev_ind; [done |]. rewrite removelast_last, plen_app. lia.
Qed.

Lemma plen_resolve ts cur : (plen (resolve cur ts) <= plen cur + plen ts)%nat.
Proof.
  revert cur. induction ts as [|t ts IH]; intros cur; [simpl; lia |]. rewrite resolve_cons.
  etrans; [apply IH |]. change (t :: ts) with ([t] ++ ts). rewrite plen_app. case_decide.
  - pose proof (plen_removelast cur). lia.
  - rewrite plen_app. lia.
Qed.

Lemma resolve_ok ts cur : Forall comp_ok cur -> Forall comp_ok ts -> Forall comp_ok (resolve cur ts).
Proof.
  intros Hc Hts. revert cur Hc. induction Hts as [|t ts Ht Hts IH]; intros cur Hc; [done |].
  rewrite resolve_cons. apply IH. case_decide.
  - destruct cur as [|x cur _] using rev_ind; [done |]. rewrite removelast_last. by apply Forall_app in Hc as [? _].
  - apply Forall_app. by split; [| constructor].
Qed.

Lemma resolve_no_dotdot ts cur : dotdot ∉ cur -> dotdot ∉ resolve cur ts.
Proof.
  revert cur. induction ts as [|t ts IH]; intros cur Hc; [done |]. rewrite resolve_cons. apply IH.
  case_decide as Ht.
  - destruct cur as [|x cur _] using rev_ind; [done |]. rewrite removelast_last.
    intros Hin. apply Hc, elem_of_app. by left.
  - intros [Hin|Hin%list_elem_of_singleton]%elem_of_app; congruence.
Qed.

Lemma length_plen comps : Forall comp_ok comps -> (2 * length comps <= plen comps)%nat.
Proof.
  induction 1 as [|t comps (Hne & _) _ IH]; [simpl; lia |]. change (t :: comps) with ([t] ++ comps).
  rewrite plen_app, length_app. unfold plen at 1. simpl. rewrite app_nil_r, length_app.
  destruct t; [done | simpl; lia].
Qed.

(** ** [setpath] *)

Lemma existsb_slash s : existsb (fun c => c =? slash) s = true <-> slash ∈ s.
Proof.
  rewrite existsb_exists. setoid_rewrite Z.eqb_eq. setoid_rewrite <- list_elem_of_In. naive_solver.
Qed.

Lemma render_length comps : length (render comps) = S (plen comps).
Proof. done. Qed.

Lemma arr_rep_init : arr_rep (<[0%nat := Some [slash]]> (replicate 128 None)) 1 [].
Proof.
  split; [done | done | done |]. intros k Hk. simpl in Hk. rewrite list_lookup_insert_ne by lia.
  apply lookup_replicate_2. lia.
Qed.

Lemma join_all arr i comps n :
  arr_rep arr i comps -> Forall comp_ok comps -> (length (render comps) < 128)%nat ->
  (length comps <= n <= S (length comps))%nat -> (n < 128)%nat ->
  join arr (seq 1 n) [slash] = Ok (render comps).
Proof. intros Ha Hok Hlen Hn Hlt. by apply (join_spec arr i [] comps n). Qed.

(** A path of one component. *)
Lemma walk_single_spec path arr i comps :
  comp_ok path -> arr_rep arr i comps -> i < 127 -> Forall comp_ok (resolve comps [path]) ->
  (length (render (resolve comps [path])) < 128)%nat ->
  (let! (arr, i) := walk_single path arr i in join arr (seq 1 (Z.to_nat i)) [slash]) =
  Ok (render (resolve comps [path])).
Proof.
  intros Hp Ha Hi Hok Hlen.
  destruct (walk_one_spec path arr i comps Hp Ha) as (arr' & i' & Hw & Hle & Hr); [lia |].
  pose proof (ar_i _ _ _ Hr) as Hi'. unfold walk_one, walk_single in *.
  destruct (strcmp path dotdot =? 0).
  - rewrite Hw. cbn [rbind]. apply (join_all _ _ _ _ Hr); [done | done | lia | lia].
  - destruct (arr_set arr i (Some path)) as [arr1| | |]; try done. cbn [rbind] in *. injection Hw as -> <-.
    apply (join_all _ _ _ _ Hr); [done | done | lia | lia].
Qed.

(** The update branch computes the components of the new directory. *)
Lemma setpath_components p path path_addr :
  bytes path_addr -> bytes (p_path p) ->
  (length (p_path p) + length path_addr <= 124)%nat ->
  path_addr <> [] -> (slash ∉ path_addr -> path = path_addr) ->
  (let! (arr, i) := fill (<[0%nat := Some [slash]]> (replicate 128 None)) 1 (tokens [slash] (p_path p)) in
   let! (arr, i) := if negb (existsb (fun c => c =? slash) path_addr) then walk_single path arr i
                    else walk (tokens [slash] path_addr) arr i in
   join arr (seq 1 (Z.to_nat i)) [slash]) =
  Ok (render (resolve (tokens [slash] (p_path p)) (tokens [slash] path_addr))).
Proof.
  intros Hb1 Hb2 Hlen Hne Hpath.
  pose proof (tokens_ok _ Hb1) as Hts. pose proof (tokens_ok _ Hb2) as Hcur.
  pose proof (tokens_length _ Hb1 : (plen _ <= _)%nat) as Ll1.
  pose proof (tokens_length _ Hb2 : (plen _ <= _)%nat) as Ll2.
  pose proof (length_plen _ Hts) as Lt. pose proof (length_plen _ Hcur) as Lc.
  pose proof (plen_resolve (tokens [slash] path_addr) (tokens [slash] (p_path p))) as Lr.
  pose proof (resolve_ok _ _ Hcur Hts) as Hok.
  destruct (fill_spec (tokens [slash] (p_path p)) _ _ _ arr_rep_init) as (arr & i & -> & Ha); [lia |].
  cbn [rbind app] in *. pose proof (ar_i _ _ _ Ha) as Hi.
  destruct (existsb _ path_addr) eqn:Hs; simpl negb.
  - destruct (walk_spec (tokens [slash] path_addr) arr i _ Hts Ha) as (arr' & i' & -> & Hle & Hr); [lia |].
    cbn [rbind]. pose proof (ar_i _ _ _ Hr) as Hi'. pose proof (length_plen _ Hok) as Lo.
    apply (join_all _ _ _ _ Hr); [done | rewrite render_length; lia | lia | lia].
  - assert (Hns : slash ∉ path_addr) by (rewrite <- existsb_slash; congruence).
    rewrite (Hpath Hns). pose proof (tokens_single _ Hns Hne) as Ht.
    rewrite Ht in Hts, Hok, Lr, Ll1 |- *. rewrite Forall_singleton in Hts.
    apply (walk_single_spec _ _ _ _ Hts Ha); [lia | done | rewrite render_length; lia].
Qed.

Lemma rootcmp_render r c :
  Forall comp_ok r -> Forall comp_ok c -> (rootcmp (render r) (render c) =? 0) = bool_decide (r `prefix_of` c).
Proof.
  intros Hr Hc. apply eq_true_iff_eq. rewrite Z.eqb_eq, bool_decide_eq_true.
  rewrite rootcmp_0 by (by apply render_bytes). split; [by apply render_prefix |].
  intros [k ->]. rewrite render_app. by apply prefix_app_r.
Qed.

Lemma fits_ok n s : (length s < n)%nat -> fits n s = Ok s.
Proof. intros H. unfold fits. by rewrite (proj2 (Nat.ltb_lt _ _) H). Qed.

Definition is_dot (path : cstring) : bool := bool_decide (path = dot \/ path = dot ++ [slash]).

(** The local copy of the path: absolute paths are put under the root, a
    trailing slash is dropped. *)
Lemma setpath_local c r path_addr :
  c_root_path c = render r -> bytes path_addr -> Forall comp_ok r -> path_addr <> [] ->
  (length (render r) + length path_addr <= 127)%nat ->
  exists path1 z path,
    (match path_addr with
     | c0 :: rest => if c0 =? slash then (let! temp := fits 128 (c_root_path c) in fits 128 (temp ++ rest))
                     else Ok path_addr
     | [] => Ok path_addr end) = Ok path1 /\
    last path1 = Some z /\
    path = (if (z =? slash) && (1 <? length path1)%nat then removelast path1 else path1) /\
    (strcmp path dot =? 0) = is_dot path_addr /\ (slash ∉ path_addr -> path = path_addr).
Proof.
  intros Hroot Hb Hr Hne Hlen. destruct path_addr as [|c0 rest]; [done |]. cbn [length] in Hlen.
  destruct (Z.eqb_spec c0 slash) as [->|Hc0].
  - rewrite Hroot, fits_ok by lia. cbn [rbind]. rewrite fits_ok by (rewrite length_app; lia).
    destruct (last (render r ++ rest)) as [z|] eqn:Hlast; [| by apply last_None in Hlast].
    eexists _, z, _. split; [done |]. split; [done |]. split; [done |].
    split; [| by intros []%not_elem_of_cons].
    assert (Hd : is_dot (slash :: rest) = false) by (apply bool_decide_eq_false; intros [?|?]; done).
    rewrite Hd. destruct (_ && _) eqn:Hcond; [| done]. unfold render. cbn [app].
    apply andb_true_iff in Hcond as [_ Hl]. apply Nat.ltb_lt in Hl. unfold render in Hl. cbn [app length] in Hl.
    by destruct (concat _ ++ rest).
  - destruct (last (c0 :: rest)) as [z|] eqn:Hlast; [| by apply last_None in Hlast].
    eexists _, z, _. split; [done |]. split; [done |]. split; [done |].
    apply last_Some in Hlast as [l Hl]. rewrite Hl in *. rewrite length_app. cbn [length].
    assert (Hbl : bytes l) by (by apply Forall_app in Hb as [? _]).
    assert (Hbd : bytes dot) by (by repeat constructor).
    destruct (Z.eqb_spec z slash) as [->|Hz].
    + assert (l <> []) by (intros ->; cbn in Hl; congruence).
      rewrite (proj2 (Nat.ltb_lt 1 _)) by (destruct l; [done | simpl; lia]). cbn [andb].
      rewrite removelast_last. split.
      * unfold is_dot. apply eq_true_iff_eq. rewrite Z.eqb_eq, bool_decide_eq_true, strcmp_0 by done. split.
        -- intros ->. auto.
        -- intros [Hd|Hd]; [apply (f_equal last) in Hd; rewrite last_snoc in Hd; done |].
           by apply app_inj_tail in Hd as [? _].
      * intros Hs. destruct Hs. apply elem_of_app. right. by left.
    + cbn [andb]. split; [| done]. unfold is_dot. apply eq_true_iff_eq.
      rewrite Z.eqb_eq, bool_decide_eq_true, strcmp_0 by done. split; [by left |].
      intros [Hd|Hd]; [done |]. apply app_inj_tail in Hd as [_ ?]. congruence.
Qed.

(** The container [setpath] works in. *)
Definition container_of (index : Z) (p : proc) (cs : manager) (c : container) : Prop :=
  arr_get cs (if index <? 0 then p_cid p else index) = Ok c.

Record setpath_pre (index : Z) (path_addr : cstring) (update : Z) (cs : manager) (p : proc)
  (c : container) (r cur : list cstring) : Prop := {
  sp_con : container_of index p cs c;
  sp_root : c_root_path c = render r;
  sp_rok : Forall comp_ok r;
  sp_path : p_path p = render cur;
  sp_cok : Forall comp_ok cur;
  sp_bytes : bytes path_addr;
  sp_ne : path_addr <> [];
  sp_upd : 1 <= update;
  sp_fit1 : (length (p_path p) + length path_addr <= 124)%nat;
  sp_fit2 : (length (c_root_path c) + length path_addr <= 127)%nat
}.

Lemma setpath_eq index path_addr update cs p c r cur :
  setpath_pre index path_addr update cs p c r cur ->
  let new := resolve cur (tokens [slash] path_addr) in
  setpath index path_addr update cs p =
    Ok (if is_dot path_addr then (0, path_addr, p)
        else if bool_decide (r `prefix_of` new)
        then (0, render new, set_path (if update =? 2 then render cur else render new) p)
        else (-1, path_addr, set_path (if update =? 2 then render cur else render r) p)).
Proof.
  intros [Hc Hroot Hr Hpath Hcur Hb Hne Hupd Hf1 Hf2] new. unfold setpath.
  rewrite fits_ok by lia. cbn [rbind].
  destruct (setpath_local c r path_addr Hroot Hb Hr Hne) as (path1 & z & path & H1 & Hlast & Hpe & Hdot & Hsame).
  { by rewrite <- Hroot. }
  assert (H1' : (match path_addr with
     | c0 :: rest => if c0 =? slash then (let! c := arr_get cs (if index <? 0 then p_cid p else index) in
         let! temp := fits 128 (c_root_path c) in fits 128 (temp ++ rest)) else Ok path_addr
     | [] => Ok path_addr end) = Ok path1).
  { rewrite <- H1. destruct path_addr; [done |]. destruct (_ =? slash); [| done]. by rewrite Hc. }
  rewrite H1'. cbn [rbind]. rewrite Hlast. cbn [rbind]. rewrite <- Hpe, Hdot.
  destruct (is_dot path_addr); [done |]. rewrite (proj2 (Z.leb_le _ _)) by done.
  rewrite (setpath_components p path path_addr); try done.
  2: { rewrite Hpath. by apply render_bytes. }
  cbn [rbind]. rewrite Hpath, tokens_render, Hc by done. cbn [rbind]. fold new.
  assert (Hnew : Forall comp_ok new) by (apply resolve_ok; [done | by apply tokens_ok]).
  rewrite Hroot, rootcmp_render by done. by case_bool_decide.
Qed.

(** The process's directory lies in its container, as a list of components
    without "..". *)
Definition confined (c : container) (p : proc) : Prop :=
  exists r cur, c_root_path c = render r /\ p_path p = render cur /\ Forall comp_ok r /\
    Forall comp_ok cur /\ (dotdot ∉ r) /\ (dotdot ∉ cur) /\ r `prefix_of` cur.

Lemma set_path_path v p : p_path (set_path v p) = v.
Proof. done. Qed.

(** * Properties of the containers *)

(** What [setpath] does with [update >= 1]: it resolves the path given
    (component by component, ".." going up) against the process's directory;
    if the result lies under the container's root it is returned and, unless
    [update = 2], becomes the process's directory; if not, the call fails and
    the directory becomes the root (with [update = 2] it stays). *)
Theorem setpath_resolves index path_addr update cs p c r cur
  (Hpre : setpath_pre index path_addr update cs p c r cur) :
  let new := resolve cur (tokens [slash] path_addr) in
  setpath index path_addr update cs p =
    Ok (if is_dot path_addr then (0, path_addr, p)
        else if bool_decide (r `prefix_of` new)
        then (0, render new, set_path (if update =? 2 then render cur else render new) p)
        else (-1, path_addr, set_path (if update =? 2 then render cur else render r) p)).
Proof. by eapply setpath_eq. Qed.

Definition ex_container : container := mkContainer 1 [] [] [] 8 0 (render [[99; 48]]) 1 0 0 0 0.
Definition ex_proc : proc := set_path (render [[99; 48]; [97]]) proc_zero.

Lemma setpath_resolves_witness :
  setpath 0 [46; 46; 47; 98] 1 [ex_container] ex_proc =
    Ok (0, [47; 99; 48; 47; 98; 47], set_path [47; 99; 48; 47; 98; 47] ex_proc).
Proof.
  rewrite (setpath_resolves 0 [46; 46; 47; 98] 1 [ex_container] ex_proc ex_container [[99; 48]] [[99; 48]; [97]]).
  - vm_compute. reflexivity.
  - split; try reflexivity; try lia; try (apply (bool_decide_unpack _); vm_compute; exact I); vm_compute; lia.
Defined.




(** [n] calls of [setnextproc], counting those that succeed. *)
Fixpoint nextprocs (n : nat) (index val : Z) (cs : manager) : res (Z * manager) :=
  match n with
  | O => Ok (0, cs)
  | S n' =>
      let! (k, cs) := nextprocs n' index val cs in
      let! (r, cs) := setnextproc index val cs in
      Ok (if r =? 1 then k + 1 else k, cs)
  end.

Lemma arr_get_set {A} (l l' : list A) i a : arr_set l i a = Ok l' -> arr_get l' i = Ok a.
Proof.
  unfold arr_set. destruct (Z.leb_spec 0 i), (Z.ltb_spec i (Z.of_nat (length l))); simpl; try done.
  intros [= <-]. apply arr_get_Ok. split; [done |]. apply list_lookup_insert_eq. lia.
Qed.

Lemma arr_get_range {A} (l : list A) i a : arr_get l i = Ok a -> 0 <= i < Z.of_nat (length l).
Proof. intros [Hi Hl]%arr_get_Ok. apply lookup_lt_Some in Hl. lia. Qed.

(** The process limit: of [n] admissions to a live container with no process
    yet, the first [max_proc + 2] succeed and all others fail. *)
Lemma nextprocs_count n index val cs c :
  arr_get cs index = Ok c -> c_alive c = 1 -> c_active_processes c = 0 -> -2 <= c_max_proc c ->
  exists cs' c', nextprocs n index val cs = Ok (Z.min (Z.of_nat n) (c_max_proc c + 2), cs') /\
    arr_get cs' index = Ok c' /\ c_alive c' = 1 /\ c_max_proc c' = c_max_proc c /\
    c_active_processes c' = Z.min (Z.of_nat n) (c_max_proc c + 2) /\ length cs' = length cs.
Proof.
  intros Hc Hal Hact Hmax. induction n as [|n IH]; cbn [nextprocs].
  { exists cs, c. rewrite Z.min_l by lia. done. }
  destruct IH as (cs1 & c1 & -> & Hc1 & Hal1 & Hm1 & Ha1 & Hlen). cbn [rbind]. unfold setnextproc.
  pose proof (arr_get_range _ _ _ Hc1) as Hr. rewrite (proj2 (Z.ltb_lt _ _)), Hc1 by lia. cbn [rbind].
  rewrite Hal1, Hm1, Ha1. simpl andb. destruct (Z.ltb_spec (c_max_proc c + 1) (Z.min (Z.of_nat n) (c_max_proc c + 2))).
  - cbn [rbind]. exists cs1, c1.
    replace (Z.min (Z.of_nat (S n)) (c_max_proc c + 2)) with (Z.min (Z.of_nat n) (c_max_proc c + 2)) by lia. done.
  - rewrite arr_set_in by lia. cbn [rbind]. eexists _, _. rewrite !Z.min_l by lia. simpl.
    split; [do 2 f_equal; lia |]. split; [eapply arr_get_set; by apply arr_set_in |]. simpl.
    split; [done |]. split; [done |]. split; [lia | by rewrite length_insert].
Qed.


