(* ===== verification/Sysfile.v ===== *)
(** * System calls on files and directories (file.c, sysfile.c)

    Reading and writing open files, and the calls that look up, make and
    remove names: whole handlers from [begin_op] to [end_op], on the file
    system of Fs.v over the log. The state of an open file is that of File.v,
    whose inode layer is this file system. A system call receives its
    arguments as [argstr] and [argint] fetch them: [None] is a bad pointer. *)

From stdpp Require Import gmap functions.
From S2P Require Import Prelude CString Params Bytes Cache Log Tx Fs Kalloc Pipe File ProcDef Container.

(** fcntl.h *)
Definition O_RDONLY : Z := 0.
Definition O_WRONLY : Z := 1.
Definition O_RDWR : Z := 2.
Definition O_CREATE : Z := 0x200.

Definition fset_off v f := mkFile (f_type f) (f_ref f) (f_readable f) (f_writable f) (f_pipe f) (f_ip f) v.

Section sysfile.
Context {S : Type} `{CacheOps S} `{!DevSw (T := log S)} (kend : Z).
(** What uninitialised local [char name[DIRSIZ]] arrays hold. *)
Variable stack : list Z.

Abbreviation FS := (fs (log S)).
Abbreviation OF := (fstate (fs (log S))).

(** [begin_op] and [end_op] *)
Definition op_begin : ST FS unit := blk begin_op.
Definition op_end : ST FS unit := blk end_op.

(** What [fileclose] does with the inode of a file. *)
#[export] Instance fs_inode_close : InodeClose FS := {|
  inode_close ip := op_begin ;;; iput ip ;;; op_end
|}.

Definition on_ino {A} (c : ST FS A) : ST OF A := lift_st fs_inode with_inode c.

Definition upd_di (ip : nat) (f : dinode -> dinode) : ST FS unit :=
  upd_inode ip (fun i => set_idi (f (i_di i)) i).

(** ** file.c *)

Definition filestat (f : nat) : ST OF (option stat) :=
  let* ff := file_at f in
  match f_type ff with
  | FD_INODE =>
      on_ino (ilock (Some (f_ip ff))) ;;;
      let* st := on_ino (stati (f_ip ff)) in
      on_ino (iunlock (Some (f_ip ff))) ;;;
      ret (Some st)
  | _ => ret None
  end.

(** A pipe operation that has to wait for another process. *)
Definition pipe_at (pg : Z) : ST OF pipe := fun s =>
  match fs_pipe s !! pg with Some p => Ok (p, s) | None => Undef end.
Definition set_pipe (pg : Z) (p : pipe) : ST OF unit :=
  modify (fun s => with_pipe (<[pg := p]> (fs_pipe s)) s).
Definition returned (e : turn_end) : ST OF Z :=
  match e with Return r => ret r | Sleep _ => fun _ => Hang end.

(** The result and the bytes stored at [addr]. *)
Definition fileread (f : nat) (n : Z) (killed : bool) : ST OF (Z * list Z) :=
  let* ff := file_at f in
  if f_readable ff =? 0 then ret (-1, [])
  else
    match f_type ff with
    | FD_PIPE =>
        let* p := pipe_at (f_pipe ff) in
        let '(p', e, bs) := piperead_turn p (Z.to_nat n) killed in
        set_pipe (f_pipe ff) p' ;;;
        let* r := returned e in
        ret (r, bs)
    | FD_INODE =>
        on_ino (ilock (Some (f_ip ff))) ;;;
        let* (r, x) := on_ino (readi (f_ip ff) (f_off ff) (u32 n)) in
        (if 0 <? r then upd_file f (fset_off (u32 (f_off ff + r))) else ret tt) ;;;
        on_ino (iunlock (Some (f_ip ff))) ;;;
        ret (r, x)
    | FD_NONE => panic "fileread"
    end.

Definition filewrite_max : Z := Z.quot (LOGSIZE - 1 - 1 - 2) 2 * 512.

(** One round of the loop of [filewrite]: a transaction of its own. *)
Definition filewrite_chunk (f : nat) (src : list Z) (n1 : Z) : ST OF Z :=
  let* ff := file_at f in
  on_ino op_begin ;;;
  on_ino (ilock (Some (f_ip ff))) ;;;
  let* r := on_ino (writei (f_ip ff) src (f_off ff) (u32 n1)) in
  (if 0 <? r then upd_file f (fset_off (u32 (f_off ff + r))) else ret tt) ;;;
  on_ino (iunlock (Some (f_ip ff))) ;;;
  on_ino op_end ;;;
  ret r.

Fixpoint filewrite_loop (f : nat) (src : list Z) (n i : Z) (fuel : nat) : ST OF Z :=
  match fuel with
  | O => fun _ => Hang
  | Datatypes.S fuel' =>
      if i <? n then
        let n1 := if filewrite_max <? n - i then filewrite_max else n - i in
        let* r := filewrite_chunk f (drop (Z.to_nat i) src) n1 in
        if r <? 0 then ret i
        else if negb (r =? n1) then panic "short filewrite"
        else filewrite_loop f src n (i + r) fuel'
      else ret i
  end.

Definition filewrite (f : nat) (src : list Z) (n : Z) (killed : bool) : ST OF Z :=
  let* ff := file_at f in
  if f_writable ff =? 0 then ret (-1)
  else
    match f_type ff with
    | FD_PIPE =>
        let* p := pipe_at (f_pipe ff) in
        let '(p', e) := pipewrite_turn p (take (Z.to_nat n) src) 0 killed in
        set_pipe (f_pipe ff) p' ;;;
        returned e
    | FD_INODE =>
        let* i := filewrite_loop f src n 0 (Datatypes.S (Z.to_nat n)) in
        ret (if i =? n then n else -1)
    | FD_NONE => panic "filewrite"
    end.

(** ** Descriptors *)

(** [dst]: [argint] and [argptr] succeed. *)
Definition sys_read (p : nat) (fd n : Z) (dst killed : bool) : ST OF (Z * list Z) :=
  let* f := argfd p fd in
  match f with
  | None => ret (-1, [])
  | Some f => if dst then fileread f n killed else ret (-1, [])
  end.

(** [src]: the user memory at the pointer argument, [None] outside the process. *)
Definition sys_write (p : nat) (fd : Z) (src : option (list Z)) (n : Z) (killed : bool) : ST OF Z :=
  let* f := argfd p fd in
  match f, src with
  | Some f, Some src => filewrite f src n killed
  | _, _ => ret (-1)
  end.

Definition sys_fstat (p : nat) (fd : Z) (dst : bool) : ST OF (option stat) :=
  let* f := argfd p fd in
  match f with
  | None => ret None
  | Some f => if dst then filestat f else ret None
  end.

(** ** Names *)

Definition sys_link_bad (ip : nat) : ST FS Z :=
  ilock (Some ip) ;;;
  upd_di ip (fun di => set_dnlink (i16 (d_nlink di - 1)) di) ;;;
  iupdate ip ;;;
  iunlockput ip ;;;
  op_end ;;;
  ret (-1).

Definition sys_link (cwd : nat) (old new : option (list Z)) : ST FS Z :=
  match old, new with
  | Some old, Some new =>
      op_begin ;;;
      let* ip := namei cwd old stack in
      match ip with
      | None => op_end ;;; ret (-1)
      | Some ip =>
          ilock (Some ip) ;;;
          let* i := inode_at ip in
          if d_type (i_di i) =? T_DIR then iunlockput ip ;;; op_end ;;; ret (-1)
          else
            upd_di ip (fun di => set_dnlink (i16 (d_nlink di + 1)) di) ;;;
            iupdate ip ;;;
            iunlock (Some ip) ;;;
            let* (dp, name) := nameiparent cwd new stack in
            match dp with
            | None => sys_link_bad ip
            | Some dp =>
                ilock (Some dp) ;;;
                let* d := inode_at dp in
                let* i := inode_at ip in
                if negb (i_dev d =? i_dev i) then iunlockput dp ;;; sys_link_bad ip
                else
                  let* r := dirlink dp name (i_inum i) in
                  if r <? 0 then iunlockput dp ;;; sys_link_bad ip
                  else
                    iunlockput dp ;;;
                    iput ip ;;;
                    op_end ;;;
                    ret 0
            end
      end
  | _, _ => ret (-1)
  end.

Fixpoint isdirempty_loop (dp : nat) (off : Z) (fuel : nat) : ST FS bool :=
  match fuel with
  | O => fun _ => Hang
  | Datatypes.S fuel' =>
      let* i := inode_at dp in
      if u32 off <? d_size (i_di i) then
        let* (r, x) := readi dp (u32 off) DIRENT in
        if negb (r =? DIRENT) then panic "isdirempty: readi"
        else if negb (de_inum (dirent_of x) =? 0) then ret false
        else isdirempty_loop dp (i32 (off + DIRENT)) fuel'
      else ret true
  end.

Definition isdirempty (dp : nat) : ST FS bool :=
  let* i := inode_at dp in
  isdirempty_loop dp (2 * DIRENT) (Datatypes.S (Z.to_nat (d_size (i_di i)))).

Definition sys_unlink_bad (dp : nat) : ST FS Z := iunlockput dp ;;; op_end ;;; ret (-1).

Definition sys_unlink (cwd : nat) (path : option (list Z)) : ST FS Z :=
  match path with
  | None => ret (-1)
  | Some path =>
      op_begin ;;;
      let* (dp, name) := nameiparent cwd path stack in
      match dp with
      | None => op_end ;;; ret (-1)
      | Some dp =>
          ilock (Some dp) ;;;
          if (namecmp name dot =? 0) || (namecmp name dotdot =? 0) then sys_unlink_bad dp
          else
            let* e := dirlookup dp name in
            match e with
            | None => sys_unlink_bad dp
            | Some (ip, off) =>
                ilock (Some ip) ;;;
                let* i := inode_at ip in
                if d_nlink (i_di i) <? 1 then panic "unlink: nlink < 1"
                else
                  let* full := (if d_type (i_di i) =? T_DIR
                                then (let* b := isdirempty ip in ret (negb b)) else ret false) in
                  if full then iunlockput ip ;;; sys_unlink_bad dp
                  else
                    let* r := writei dp (replicate (Z.to_nat DIRENT) 0) off DIRENT in
                    if negb (r =? DIRENT) then panic "unlink: writei"
                    else
                      (if d_type (i_di i) =? T_DIR then
                         upd_di dp (fun di => set_dnlink (i16 (d_nlink di - 1)) di) ;;; iupdate dp
                       else ret tt) ;;;
                      iunlockput dp ;;;
                      upd_di ip (fun di => set_dnlink (i16 (d_nlink di - 1)) di) ;;;
                      iupdate ip ;;;
                      iunlockput ip ;;;
                      op_end ;;;
                      ret 0
            end
      end
  end.

(** The inode, locked; [None] is 0. *)
Definition create (cwd : nat) (path : list Z) (type major minor : Z) : ST FS (option nat) :=
  let* (dp, name) := nameiparent cwd path stack in
  match dp with
  | None => ret None
  | Some dp =>
      ilock (Some dp) ;;;
      let* e := dirlookup dp name in
      match e with
      | Some (ip, _) =>
          iunlockput dp ;;;
          ilock (Some ip) ;;;
          let* i := inode_at ip in
          if (type =? T_FILE) && (d_type (i_di i) =? T_FILE) then ret (Some ip)
          else iunlockput ip ;;; ret None
      | None =>
          let* d := inode_at dp in
          let* ip := ialloc (i_dev d) type in
          ilock (Some ip) ;;;
          upd_di ip (fun di => mkDinode (d_type di) (i16 major) (i16 minor) 1 (d_size di) (d_addrs di)) ;;;
          iupdate ip ;;;
          (if type =? T_DIR then
             upd_di dp (fun di => set_dnlink (i16 (d_nlink di + 1)) di) ;;;
             iupdate dp ;;;
             let* i := inode_at ip in
             let* r := dirlink ip dot (i_inum i) in
             if r <? 0 then panic "create dots"
             else
               let* d := inode_at dp in
               let* r := dirlink ip dotdot (i_inum d) in
               if r <? 0 then panic "create dots" else ret tt
           else ret tt) ;;;
          let* i := inode_at ip in
          let* r := dirlink dp name (i_inum i) in
          if r <? 0 then panic "create: dirlink"
          else
            iunlockput dp ;;;
            ret (Some ip)
      end
  end.

Definition sys_mkdir (cwd : nat) (path : option (list Z)) : ST FS Z :=
  op_begin ;;;
  let* ip := (match path with None => ret None | Some path => create cwd path T_DIR 0 0 end) in
  match ip with
  | None => op_end ;;; ret (-1)
  | Some ip => iunlockput ip ;;; op_end ;;; ret 0
  end.

Definition sys_mknod (cwd : nat) (path : option (list Z)) (major minor : option Z) : ST FS Z :=
  op_begin ;;;
  let* ip := (match path, major, minor with
              | Some path, Some major, Some minor => create cwd path T_DEV (i16 major) (i16 minor)
              | _, _, _ => ret None
              end) in
  match ip with
  | None => op_end ;;; ret (-1)
  | Some ip => iunlockput ip ;;; op_end ;;; ret 0
  end.

(** The part of [sys_open] that finds or makes the inode; it ends the
    operation when it fails. *)
Definition open_inode (cwd : nat) (path : list Z) (omode : Z) : ST FS (option nat) :=
  if negb (Z.land omode O_CREATE =? 0) then
    let* ip := create cwd path T_FILE 0 0 in
    match ip with None => op_end ;;; ret None | Some ip => ret (Some ip) end
  else
    let* ip := namei cwd path stack in
    match ip with
    | None => op_end ;;; ret None
    | Some ip =>
        ilock (Some ip) ;;;
        let* i := inode_at ip in
        if (d_type (i_di i) =? T_DIR) && negb (omode =? O_RDONLY) then
          iunlockput ip ;;; op_end ;;; ret None
        else ret (Some ip)
    end.

Definition sys_open (p cwd : nat) (path : option (list Z)) (omode : option Z) : ST OF Z :=
  match path, omode with
  | Some path, Some omode =>
      on_ino op_begin ;;;
      let* ip := on_ino (open_inode cwd path omode) in
      match ip with
      | None => ret (-1)
      | Some ip =>
          let* f := filealloc in
          match f with
          | None => on_ino (iunlockput ip) ;;; on_ino op_end ;;; ret (-1)
          | Some f =>
              let* fd := fdalloc p f in
              if fd <? 0 then
                fileclose kend f ;;; on_ino (iunlockput ip) ;;; on_ino op_end ;;; ret (-1)
              else
                on_ino (iunlock (Some ip)) ;;;
                on_ino op_end ;;;
                upd_file f (fun x => mkFile FD_INODE (f_ref x)
                  (if Z.land omode O_WRONLY =? 0 then 1 else 0)
                  (if negb (Z.land omode O_WRONLY =? 0) || negb (Z.land omode O_RDWR =? 0) then 1 else 0)
                  (f_pipe x) ip 0) ;;;
                ret fd
          end
      end
  | _, _ => ret (-1)
  end.

(** ** The current directory *)

(** The result is the return value, the process and its current directory. *)
Definition sys_chdir (cs : manager) (p : proc) (cwd : nat) (path : option (list Z)) : ST FS (Z * proc * nat) :=
  op_begin ;;;
  match path with
  | None => op_end ;;; ret (-1, p, cwd)
  | Some path =>
      let* (r, path, p) := lift (setpath (p_cid p) path 1 cs p) in
      if r <? 0 then op_end ;;; ret (-1, p, cwd)
      else
        let* ip := namei cwd path stack in
        match ip with
        | None => op_end ;;; ret (-1, p, cwd)
        | Some ip =>
            ilock (Some ip) ;;;
            let* i := inode_at ip in
            if negb (d_type (i_di i) =? T_DIR) then iunlockput ip ;;; op_end ;;; ret (-1, p, cwd)
            else
              iunlock (Some ip) ;;;
              iput cwd ;;;
              op_end ;;;
              ret (0, p, ip)
        end
  end.

(** A string in a buffer ends at its NUL. *)
Fixpoint until_nul (b : list Z) : list Z :=
  match b with
  | [] => []
  | c :: b' => if c =? 0 then [] else c :: until_nul b'
  end.

Fixpoint name_of_inode_loop (inum : Z) (parent : nat) (off : Z) (fuel : nat) : ST FS (option (list Z)) :=
  match fuel with
  | O => fun _ => Hang
  | Datatypes.S fuel' =>
      let* i := inode_at parent in
      if off <? d_size (i_di i) then
        let* (r, x) := readi parent off DIRENT in
        if negb (r =? DIRENT) then panic "couldn't read dir entry"
        else if de_inum (dirent_of x) =? inum then
          ret (Some (take (DIRSIZ - 1) (until_nul (de_name (dirent_of x)))))
        else name_of_inode_loop inum parent (u32 (off + DIRENT)) fuel'
      else ret None
  end.

(** The name in [buf]; [None] is -1. *)
Definition name_of_inode (ip parent : nat) : ST FS (option (list Z)) :=
  let* i := inode_at ip in
  let* d := inode_at parent in
  name_of_inode_loop (i_inum i) parent 0 (Datatypes.S (Z.to_nat (d_size (i_di d)))).

(** [safestrcpy(buf + off, s, n)] *)
Definition safestrcpy_at (buf : list Z) (off : Z) (s : list Z) (n : Z) : res (list Z) :=
  if n <=? 0 then Ok buf
  else
    let x := take (Z.to_nat (n - 1)) s ++ [0] in
    if (off <? 0) || (Z.of_nat (length buf) <? off + Z.of_nat (length x)) then Undef
    else Ok (blit buf (Z.to_nat off) x).

Fixpoint name_for_inode (cwd : nat) (buf : list Z) (n : Z) (ip : nat) (fuel : nat) : ST FS (Z * list Z) :=
  match fuel with
  | O => fun _ => Hang
  | Datatypes.S fuel' =>
      let* i := inode_at ip in
      let* root := namei cwd [SLASH] stack in
      match root with
      | None => undef
      | Some root =>
          let* ri := inode_at root in
          if i_inum i =? i_inum ri then
            let* buf := lift (arr_set buf 0 SLASH) in ret (1, buf)
          else if d_type (i_di i) =? T_DIR then
            let* parent := dirlookup ip dotdot in
            ilock (fst <$> parent) ;;;
            match parent with
            | None => undef
            | Some (parent, _) =>
                let* node := name_of_inode ip parent in
                match node with
                | None => panic "could not find name of inode in parent!"
                | Some node =>
                    let* (off, buf) := name_for_inode cwd buf n parent fuel' in
                    let* buf := lift (safestrcpy_at buf off node (n - off)) in
                    let off := off + Z.of_nat (length node) in
                    if off =? n - 1 then
                      let* buf := lift (arr_set buf off 0) in ret (n, buf)
                    else
                      let* buf := lift (arr_set buf off SLASH) in
                      iput parent ;;;
                      ret (off + 1, buf)
                end
            end
          else if (d_type (i_di i) =? T_DEV) || (d_type (i_di i) =? T_FILE) then
            panic "process cwd is a device node / file, not a directory!"
          else panic "unknown inode type"
      end
  end.

Definition sys_getcwd (cwd : nat) (buf : option (list Z)) (n : Z) (fuel : nat) : ST FS (Z * list Z) :=
  match buf with
  | None => ret (-1, [])
  | Some buf => name_for_inode cwd buf n cwd fuel
  end.
End sysfile.
