(* ===== verification/FsIo.v ===== *)
(** * Writing an open file (file.c on fs.c and log.c)

    [filewrite] from the file table down to the disk: the call is atomic with
    respect to crashes, and it touches no other file. *)

From stdpp Require Import gmap functions.
From S2P Require Import Prelude CString Params Bytes Cache Bio Log Tx Fs FsAlloc FsFile FsDisk FsDemo Kalloc Pipe File Sysfile.

(** Two disks with the same file system blocks hold the same files. *)
Section agree.
Context {area : Z -> Prop} {sb : superblock} (Hg : geometry area sb).

Lemma area_iblock j : is_inum (sb := sb) j -> area (IBLOCK j sb).
Proof. intros Hj. by apply (iblock_range Hg j Hj). Qed.

Lemma area_1 : area 1.
Proof. apply (g_area _ _ Hg). by left. Qed.

Lemma area_bmap c : c ∈ bmaps sb -> area c.
Proof.
  intros Hc. apply (g_area _ _ Hg). right. pose proof (bmaps_range Hg c Hc).
  destruct Hg as [_ (Hi1 & Hi2 & Hi3) (_ & Hd) _]. rewrite IPB_eq in Hi3.
  assert (-1 <= (sb_ninodes sb - 1) / 8) by (apply Z.div_le_lower_bound; lia). lia.
Qed.

Lemma owned_by_data v j c : disk_ok (sb := sb) v -> is_inum (sb := sb) j -> c ∈ owned_by (sb := sb) v j -> is_data sb c.
Proof.
  intros Hd Hj Hc. eapply owned_data; [apply Hd |]. rewrite (owned_split v j Hj). apply elem_of_app. by left.
Qed.

Section two.
Context (v v' : Z -> block) (Hv : forall b, area b -> v' b = v b) (Hd : disk_ok (sb := sb) v).

Lemma dinode_agree j : is_inum (sb := sb) j -> dinode_at (sb := sb) v' j = dinode_at (sb := sb) v j.
Proof. intros Hj. unfold dinode_at. rewrite Hv; [done | by apply area_iblock]. Qed.

Lemma owned_by_agree j c : is_inum (sb := sb) j -> c ∈ owned_by (sb := sb) v j -> v' c = v c.
Proof. intros Hj Hc. apply Hv, (area_data Hg). by eapply owned_by_data. Qed.

Lemma owned_agree : owned (sb := sb) v' = owned (sb := sb) v.
Proof.
  unfold owned. apply concat_seq_ext. intros j Hj.
  apply owned_by_ext; [apply dinode_agree | intros c; apply owned_by_agree]; unfold is_inum; lia.
Qed.

Lemma disk_agree : disk_ok (sb := sb) v'.
Proof.
  split.
  - rewrite owned_agree. eapply (alloc_ext Hg); [| apply Hd]. intros b Hb. by apply Hv, area_bmap.
  - rewrite Hv by apply area_1. apply Hd.
  - intros j Hj. apply (inode_ok_ext v); [by apply dinode_agree | intros c; by apply owned_by_agree | by apply Hd].
Qed.

Lemma file_agree j :
  is_inum (sb := sb) j -> d_type (dinode_at (sb := sb) v j) <> 0 -> file_bytes (sb := sb) v' j = file_bytes (sb := sb) v j.
Proof.
  intros Hj Hty. apply file_bytes_ext; [by apply Hd | done | by apply dinode_agree | intros c; by apply owned_by_agree].
Qed.

Lemma enough_agree j off n :
  is_inum (sb := sb) j -> d_type (dinode_at (sb := sb) v j) <> 0 ->
  enough (sb := sb) v j off n -> enough (sb := sb) v' j off n.
Proof.
  intros Hj Hty. unfold enough. cbv zeta. rewrite dinode_agree, owned_agree by done.
  rewrite (lack_ext v v'); [done |]. intros k. unfold nth_block. destruct (k <? NDIRECT)%nat; [done |].
  destruct (Z.eqb_spec (ind (d_addrs (dinode_at (sb := sb) v j))) 0) as [|Hnz]; [done |].
  rewrite (owned_by_agree j); [done | done |]. unfold owned_by. rewrite (proj2 (Z.eqb_neq _ _) Hty). by apply ind_elem.
Qed.
End two.
End agree.

(** Writing at the end of what has just been written. *)
Lemma blit_blit (d : list Z) off x y :
  (off <= length d)%nat -> blit (blit d off x) (off + length x) y = blit d off (x ++ y).
Proof.
  intros Hl. unfold blit, block.
  assert (length (take off d ++ x) = (off + length x)%nat) as Hlen by (rewrite length_app, length_take; lia).
  rewrite (app_assoc (take off d) x (drop _ d)), take_app_length' by (by rewrite Hlen).
  rewrite drop_app_ge by lia. rewrite Hlen, drop_drop, length_app, <- !app_assoc. do 3 f_equal. f_equal. lia.
Qed.

Lemma blit_nil (d : list Z) off : blit d off [] = d.
Proof. unfold blit. simpl. rewrite Nat.add_0_r. apply take_drop. Qed.

Section io.
Context {S : Type} {disksize : Z} `{CacheSpec S disksize} `{!DevSw (T := log S)}.
Context {start lsize : Z} {sb : superblock} (Hg : geometry (home disksize start lsize) sb).

(** Disk [D] is a file system in which file [inum] has the contents [bytes]
    and every other file is as in [d]. *)
Definition holds (d D : Z -> block) (inum : Z) (bytes : list Z) : Prop :=
  disk_ok (sb := sb) D /\ file_bytes (sb := sb) D inum = bytes /\ untouched (sb := sb) d D inum /\
  d_type (dinode_at (sb := sb) D inum) = d_type (dinode_at (sb := sb) d inum).

(** The first [m] bytes of [src] have been written at [off]. *)
Definition saved (d : Z -> block) (inum off : Z) (src : list Z) (m : Z) (D : Z -> block) : Prop :=
  holds d D inum (blit (file_bytes (sb := sb) d inum) (Z.to_nat off) (take (Z.to_nat m) src)).

(** Starting from [l1], recovery leads to a disk that satisfies [P]. *)
Definition recovers (l1 : log S) (P : (Z -> block) -> Prop) : Prop :=
  runs recover_from_log l1 (fun _ l2 => exists d2 w2, quiet (l_cache l2) d2 d2 ∅ w2 /\ hdr_n start d2 = 0 /\ P d2).

(** After a crash that left the first [k] of the disk writes [ws], and a
    reboot, recovery leads to a disk that satisfies [P]. *)
Definition crash_ok (d : Z -> block) (ws : list (Z * block)) (P : (Z -> block) -> Prop) : Prop :=
  forall k l1, log_geometry (disksize := disksize) l1 -> l_start l1 = start -> l_size l1 = lsize ->
    l_cache l1 = c_boot (apply_writes (take k ws) d) -> recovers l1 P.

Lemma crash_ok_mono d ws (P Q : (Z -> block) -> Prop) : (forall x, P x -> Q x) -> crash_ok d ws P -> crash_ok d ws Q.
Proof.
  intros HPQ Hc k l1 G1 G2 G3 G4. eapply runs_mono; [by apply (Hc k l1) |].
  intros [] l2 (d2 & w2 & Hq & Hz & HP). exists d2, w2. auto.
Qed.

Lemma crash_ok_app d ws ws' P : crash_ok d ws P -> crash_ok (apply_writes ws d) ws' P -> crash_ok d (ws ++ ws') P.
Proof.
  intros H1 H2 k l1 G1 G2 G3 G4. destruct (decide (k <= length ws)%nat) as [Hk|Hk].
  - apply (H1 k); try done. by rewrite take_app_le in G4.
  - apply (H2 (k - length ws)%nat); try done. rewrite G4, take_app, apply_writes_app.
    by rewrite (take_ge ws) by lia.
Qed.

(** A crash before the first write. *)
Lemma crash_ok_nil l d v w (P : (Z -> block) -> Prop) :
  logged l d v [] w -> l_start l = start -> l_size l = lsize ->
  (forall d2, (forall b, home disksize start lsize b -> d2 b = d b) -> P d2) -> crash_ok d [] P.
Proof.
  intros Hl Hst Hsz HP k l1 G1 G2 G3 G4. pose proof (lg_clean _ _ _ _ _ Hl) as Hcl.
  pose proof (lg_geometry _ _ _ _ _ Hl) as (_ & _ & Hpos & _). rewrite Hst in Hcl. rewrite Hsz in Hpos.
  eapply runs_mono; [apply (atomic_recovers start lsize d d []) with (k := k); try done |].
  - intros j. rewrite take_nil. split; [by apply header_ok_zero |]. left. intros b _. by apply logical_clean.
  - constructor.
  - intros b. apply (quiet_size _ _ _ _ _ b (lg_quiet _ _ _ _ _ Hl)).
  - intros [] l2 (d2 & w2 & Hq & Hz & Hcase). exists d2, w2. split; [done |]. split; [done |]. apply HP. by destruct Hcase.
Qed.

Lemma holds_agree d d' v D inum bytes :
  holds d v inum bytes -> disk_ok (sb := sb) d -> is_inum (sb := sb) inum ->
  d_type (dinode_at (sb := sb) v inum) <> 0 ->
  (forall b, home disksize start lsize b -> d' b = d b) ->
  (forall b, home disksize start lsize b -> D b = v b) -> holds d' D inum bytes.
Proof.
  intros (Hv & Hb & Hu & Hy) Hd Hn Hty Hd' HD.
  split; [by apply (disk_agree Hg v) |]. split; [by rewrite (file_agree Hg v D HD Hv) |]. split.
  - intros j Hj Hne. destruct (Hu j Hj Hne) as [H1 H2]. rewrite (dinode_agree Hg v D), (dinode_agree Hg d d') by done.
    split; [done |]. intros Ht. rewrite (file_agree Hg v D), (file_agree Hg d d') by (done || by rewrite H1). by apply H2.
  - by rewrite (dinode_agree Hg v D), (dinode_agree Hg d d').
Qed.

Lemma holds_refl d inum : disk_ok (sb := sb) d -> holds d d inum (file_bytes (sb := sb) d inum).
Proof. intros Hd. by split; [| split; [| split]]. Qed.

Lemma saved_trans d d1 d2 inum off src i m :
  saved d inum off src i d1 -> saved d1 inum (off + i) (drop (Z.to_nat i) src) m d2 ->
  0 <= off <= Z.of_nat (length (file_bytes (sb := sb) d inum)) -> 0 <= i -> 0 <= m -> i + m <= Z.of_nat (length src) ->
  saved d inum off src (i + m) d2.
Proof.
  intros (H1 & H2 & H3 & H4) (K1 & K2 & K3 & K4) Hoff Hi Hm Hl. split; [done |]. split; [| split].
  - rewrite K2, H2. replace (Z.to_nat (off + i)) with (Z.to_nat off + length (take (Z.to_nat i) src))%nat
      by (rewrite length_take; lia).
    rewrite blit_blit by lia. rewrite take_take_drop. do 2 f_equal. lia.
  - intros j Hj Hne. destruct (H3 j Hj Hne) as [A1 A2], (K3 j Hj Hne) as [B1 B2]. split; [congruence |].
    intros Ht. rewrite B2 by (by rewrite A1). by apply A2.
  - congruence.
Qed.

(** How many blocks an operation may log: see [TxSpec]. *)
Definition CAP : nat := 27.

Lemma runs_on_ino {A} (c : ST (fs (log S)) A) (s : fstate (fs (log S))) (Q : A -> fstate (fs (log S)) -> Prop) :
  runs c (fs_inode s) (fun a x => Q a (with_inode x s)) -> runs (on_ino c) s Q.
Proof. apply runs_lift_st. Qed.

Lemma runs_file_at {B} f ff (s : fstate (fs (log S))) (k : file -> ST (fstate (fs (log S))) B) Q :
  fs_file s !! f = Some ff -> runs (k ff) s Q -> runs (let* x := file_at f in k x) s Q.
Proof. intros Hf HQ. apply runs_bind. exists ff, s. unfold file_at. by rewrite Hf. Qed.

Lemma op_begin_spec (s : fs (log S)) d v w :
  logged (fs_tx s) d v [] w -> l_start (fs_tx s) = start -> l_size (fs_tx s) = lsize ->
  l_outstanding (fs_tx s) = 0 -> l_committing (fs_tx s) = 0 -> 28 < lsize ->
  runs op_begin s (fun _ s' => exists t, s' = set_tx t s /\
    settled (H0 := log_tx_spec d w start lsize CAP) t v ∅ ∅).
Proof.
  intros Hl Hst Hsz Ho Hc Hlsz. apply runs_blk. eapply (begin_op_starts (fs_tx s) d v w); [done | done | done |].
  exists (set_outstanding 1 (fs_tx s)). split; [done |].
  by apply log_rep_begin; [| | | | unfold CAP; lia | unfold CAP, NBUF, MAXOPBLOCKS; lia].
Qed.

Lemma op_end_spec (s : fs (log S)) d w v L :
  settled (H0 := log_tx_spec d w start lsize CAP) (fs_tx s) v ∅ L ->
  runs op_end s (fun _ s' => exists l', s' = set_tx l' s /\ durable (disksize := disksize) start lsize d v w l').
Proof.
  intros Hs. destruct (log_rep_logged d w start lsize CAP (fs_tx s) v L Hs) as [bs Hlog].
  pose proof Hs as [_ Hst Hsz Ho Hc _ _ _ _ _]. apply runs_blk.
  eapply runs_mono; [by apply (end_op_durable (fs_tx s) d v bs w) |].
  intros [] l' Hl'. rewrite Hst, Hsz in Hl'. by exists l'.
Qed.

(** The file table entry [f] is open for writing on inode [inum], and nothing
    else is going on; the cache shows [v], the disk holds [d]. *)
Record writable_file (s : fstate (fs (log S))) (f : nat) (ff : file) (inum : Z)
  (d v : Z -> block) (w : list (Z * block)) : Prop := {
  wf_at : fs_file s !! f = Some ff;
  wf_type : f_type ff = FD_INODE;
  wf_writable : f_writable ff <> 0;
  wf_log : logged (fs_tx (fs_inode s)) d v [] w;
  wf_start : l_start (fs_tx (fs_inode s)) = start /\ l_size (fs_tx (fs_inode s)) = lsize;
  wf_quiet : l_outstanding (fs_tx (fs_inode s)) = 0 /\ l_committing (fs_tx (fs_inode s)) = 0;
  wf_disk : disk_ok (sb := sb) v;
  wf_entry : exists i, entry (sb := sb) (fs_inode s) (f_ip ff) i v inum /\ i_locked i = false;
  wf_inode : d_type (dinode_at (sb := sb) v inum) <> 0 /\ d_type (dinode_at (sb := sb) v inum) <> T_DEV;
  wf_off : 0 <= f_off ff <= d_size (dinode_at (sb := sb) v inum)
}.

Lemma wf_view s f ff inum d v w : writable_file s f ff inum d v w -> forall b, v b = d b.
Proof. intros Hf b. apply (quiet_clean _ _ _ _ _ _ (lg_quiet _ _ _ _ _ (wf_log _ _ _ _ _ _ _ Hf))). done. Qed.

Lemma filewrite_max_eq : filewrite_max = 6656.
Proof. reflexivity. Qed.

Lemma nblk_chunk off n : 0 <= off -> n <= filewrite_max -> (nblk off n <= 14)%nat.
Proof.
  rewrite filewrite_max_eq. intros Hoff Hn. unfold nblk. case_match; [lia |].
  pose proof (Z.div_mod off 512 ltac:(lia)). pose proof (Z.mod_pos_bound off 512 ltac:(lia)).
  pose proof (Z.div_lt_upper_bound (off + n - 1) 512 (off / 512 + 14)). lia.
Qed.

(** One transaction of a write: the file is open as before, with the offset
    advanced, and a crash leaves the old or the new contents. *)
Lemma filewrite_chunk_spec s f ff inum d v w src n1 :
  writable_file s f ff inum d v w -> 0 < n1 <= Z.of_nat (length src) -> n1 <= filewrite_max ->
  f_off ff + n1 <= MAXBYTES -> (size (bmaps sb) <= 11)%nat -> 28 < lsize ->
  enough (sb := sb) v inum (f_off ff) n1 ->
  runs (filewrite_chunk f src n1) s (fun r s' => r = n1 /\
    fs_file s' = <[f := fset_off (f_off ff + n1) ff]> (fs_file s) /\ exists ws v',
    writable_file s' f (fset_off (f_off ff + n1) ff) inum (apply_writes ws d) v' (w ++ ws) /\
    saved d inum (f_off ff) src n1 (apply_writes ws d) /\
    crash_ok d ws (fun d2 => saved d inum (f_off ff) src 0 d2 \/ saved d inum (f_off ff) src n1 d2) /\
    forall m, f_off ff + n1 + m <= MAXBYTES -> 0 <= m ->
      enough (sb := sb) v inum (f_off ff) (n1 + m) -> enough (sb := sb) v' inum (f_off ff + n1) m).
Proof.
  intros Hwf Hn Hch Hmax Hbm H28 Hroom. pose proof (wf_view _ _ _ _ _ _ _ Hwf) as Hvd.
  destruct Hwf as [Hf Hft Hfw Hlog (Hst & Hsz) (Ho & Hcm) Hd (i & Hen & Hul) (Hty & Hnd) Hoff].
  pose proof (en_range _ _ _ _ _ Hen) as Hr. pose proof (en_at _ _ _ _ _ Hen) as Hat.
  pose proof (nblk_chunk (f_off ff) n1 ltac:(lia) Hch) as Hnb.
  unfold MAXBYTES in *. unfold filewrite_chunk. eapply runs_file_at; [done |]. apply runs_bind, runs_on_ino.
  eapply runs_mono; [by apply (op_begin_spec _ d v w) |]. intros [] x1 (t1 & -> & Ht1). apply runs_bind, runs_on_ino.
  eapply runs_mono; [eapply (ilock_spec Hg _ _ i v inum ∅); [exact Ht1 | | done | done] |].
  { destruct Hen. by split. }
  intros [] x2 (t2 & -> & Ht2). set (i2 := locked_inode (sb := sb) i v) in *.
  assert (cached (sb := sb) (set_tx t2 (put_inode (f_ip ff) i2 (set_tx t1 (fs_inode s)))) (f_ip ff) i2 v inum) as Hca.
  { apply locked_cached. destruct Hen. by split. }
  pose proof (ca_di _ _ _ _ _ Hca) as Hdi2. rewrite u32_small by lia. apply runs_bind, runs_on_ino.
  eapply runs_mono; [eapply (writei_disk Hg _ _ _ v inum ∅ src (f_off ff) n1); [exact Ht2 | exact Hca | done | ..] |];
    rewrite ?Hdi2; try done; try lia.
  { unfold cost, CAP. rewrite union_empty_l_L. lia. }
  intros r x3 [-> (t3 & v3 & L3 & -> & Ht3 & Hca3 & Hd3 & Hty3 & _ & Hfb & Hun & _ & Hmore)]. apply runs_bind.
  rewrite (proj2 (Z.ltb_lt 0 n1)), u32_small by lia. apply runs_modify. cbn [fs_file with_inode].
  apply runs_bind, runs_on_ino. eapply iunlock_spec; [apply Hca3 | done | apply Hen |].
  apply runs_bind, runs_on_ino. eapply runs_mono; [eapply (op_end_spec _ d w v3 L3); exact Ht3 |].
  intros [] x4 (l4 & -> & Hdur). apply runs_ret. split; [done |]. split.
  { cbn [fs_file with_inode with_file]. by rewrite (list_alter_lookup_insert _ _ _ _ Hf). }
  destruct Hdur as (ws & (v4 & Hl4) & Hs4 & Hz4 & Ho4 & Hc4 & _ & HD & Hcr). exists ws, v4.
  assert (forall b, v4 b = apply_writes ws d b) as Hv4
    by (intros b; apply (quiet_clean _ _ _ _ _ _ (lg_quiet _ _ _ _ _ Hl4)); done).
  assert (forall b, home disksize start lsize b -> v4 b = v3 b) as Hv43 by (intros b Hb; rewrite Hv4; by apply HD).
  assert (file_bytes (sb := sb) d inum = file_bytes (sb := sb) v inum) as Hfd.
  { symmetry. assert (forall b, home disksize start lsize b -> d b = v b) as Hb by (intros b _; by rewrite Hvd).
    by rewrite (file_agree Hg v d Hb Hd). }
  assert (d_type (dinode_at (sb := sb) v3 inum) <> 0) as Hty3' by (by rewrite Hty3).
  assert (holds v v3 inum (blit (file_bytes (sb := sb) v inum) (Z.to_nat (f_off ff)) (take (Z.to_nat n1) src))) as Hh
    by (by split; [| split; [| split]]).
  split; [split |].
  - cbn [fs_file with_inode with_file]. rewrite (list_alter_lookup_insert _ _ _ _ Hf).
    apply list_lookup_insert_eq. by eapply lookup_lt_Some.
  - done.
  - done.
  - exact Hl4.
  - done.
  - done.
  - by apply (disk_agree Hg v3).
  - exists (set_ilocked false (set_idi (dinode_at (sb := sb) v3 inum) i2)). split; [| done].
    destruct Hca3 as [C1 C2 C3 C4 C5 C6]. destruct Hen. split; try done.
    + cbn. apply list_lookup_insert_eq. eapply lookup_lt_Some. exact C2.
    + right. simpl. symmetry. by apply (dinode_agree Hg v3).
  - rewrite (dinode_agree Hg v3) by done. rewrite Hty3. done.
  - rewrite (dinode_agree Hg v3) by done. cbn [f_off fset_off].
    assert (Z.of_nat (length (file_bytes (sb := sb) v3 inum)) = d_size (dinode_at (sb := sb) v3 inum)) as Hlen.
    { unfold file_bytes. rewrite bytes_length, Z2Nat.id; [done |]. by apply (dk_inodes _ Hd3). }
    rewrite <- Hlen, Hfb. unfold blit, block. rewrite !length_app, !length_take.
    unfold file_bytes at 1. rewrite bytes_length. lia.
  - split; [| split].
    + unfold saved. rewrite Hfd. by apply (holds_agree v d v3).
    + intros k l1 G1 G2 G3 G4. eapply runs_mono; [by apply (Hcr k l1) |].
      intros [] l2 (d2 & w2 & Hq2 & Hz2 & Hcase). exists d2, w2. split; [done |]. split; [done |].
      unfold saved. rewrite Hfd. destruct Hcase as [Hold|Hnew]; [left | right].
      * change (Z.to_nat 0) with 0%nat. rewrite take_0, blit_nil.
        apply (holds_agree v d v); try done. intros b Hb. by rewrite Hold, Hvd.
      * by apply (holds_agree v d v3).
    + intros m Hm1 Hm2 He. apply (enough_agree Hg v3); [done | done | done | done |]. by apply Hmore.
Qed.

(** How a crash may leave a write of [n] bytes: with the bytes of the first
    transactions. *)
Definition some_chunks (d : Z -> block) (inum off : Z) (src : list Z) (n : Z) (D : Z -> block) : Prop :=
  exists m, 0 <= m <= n /\ (m = n \/ (filewrite_max | m)) /\ saved d inum off src m D.

Lemma saved_0 d inum off src : disk_ok (sb := sb) d -> saved d inum off src 0 d.
Proof.
  intros Hd. unfold saved. change (Z.to_nat 0) with 0%nat. rewrite take_0, blit_nil. by apply holds_refl.
Qed.

Lemma filewrite_loop_spec f inum d off src n :
  0 <= off <= Z.of_nat (length (file_bytes (sb := sb) d inum)) -> n <= Z.of_nat (length src) -> off + n <= MAXBYTES ->
  (size (bmaps sb) <= 11)%nat -> 28 < lsize ->
  forall fuel s ff i ws v w, 0 <= i <= n -> (filewrite_max | i) \/ i = n -> n - i < Z.of_nat fuel -> f_off ff = off + i ->
  writable_file s f ff inum (apply_writes ws d) v (w ++ ws) -> saved d inum off src i (apply_writes ws d) ->
  crash_ok d ws (some_chunks d inum off src n) -> enough (sb := sb) v inum (off + i) (n - i) ->
  runs (filewrite_loop f src n i fuel) s (fun r s' => r = n /\
    fs_file s' = <[f := fset_off (off + n) ff]> (fs_file s) /\ exists ws' v',
    writable_file s' f (fset_off (off + n) ff) inum (apply_writes ws' d) v' (w ++ ws') /\
    saved d inum off src n (apply_writes ws' d) /\ crash_ok d ws' (some_chunks d inum off src n)).
Proof.
  intros Hoff Hn Hmax Hbm H28. induction fuel as [|fuel IH]; intros s ff i ws v w Hi Hdiv Hfuel Hff Hwf Hsv Hcr Hen; [lia |].
  cbn [filewrite_loop]. destruct (Z.ltb_spec i n) as [Hlt|Hge].
  2: { apply runs_ret. assert (i = n) as -> by lia. split; [done |].
    assert (fset_off (off + n) ff = ff) as -> by (destruct ff; simpl in *; by subst).
    split; [symmetry; apply list_insert_id, Hwf |]. by exists ws, v. }
  destruct Hdiv as [Hdiv|]; [| lia]. set (n1 := if filewrite_max <? n - i then filewrite_max else n - i).
  assert (0 < n1 <= n - i /\ n1 <= filewrite_max /\ ((filewrite_max | i + n1) \/ i + n1 = n)) as (Hn1 & Hn1m & Hdiv1).
  { subst n1. rewrite filewrite_max_eq in *. destruct (Z.ltb_spec 6656 (n - i)).
    - split; [lia |]. split; [lia |]. left. apply Z.divide_add_r; [done | apply Z.divide_refl].
    - split; [lia |]. split; [lia |]. right. lia. }
  cbv zeta. fold n1. apply runs_bind. eapply runs_mono.
  { apply (filewrite_chunk_spec s f ff inum (apply_writes ws d) v (w ++ ws) (drop (Z.to_nat i) src) n1 Hwf); try done.
    - rewrite length_drop. lia.
    - lia.
    - rewrite Hff. eapply enough_less; [| | exact Hen]; lia. }
  intros r s1 (-> & Hfs & ws1 & v1 & Hwf1 & Hsv1 & Hcr1 & Hmore).
  rewrite (proj2 (Z.ltb_ge n1 0)), Z.eqb_refl by lia. cbn [negb].
  rewrite <- apply_writes_app, <- app_assoc in Hwf1.
  eapply runs_mono.
  { apply (IH s1 (fset_off (f_off ff + n1) ff) (i + n1) (ws ++ ws1) v1 w); try done.
    - lia.
    - lia.
    - simpl. lia.
    - rewrite apply_writes_app. rewrite Hff in Hsv1. eapply saved_trans; [exact Hsv | exact Hsv1 | lia..].
    - apply crash_ok_app; [done |]. eapply crash_ok_mono; [| exact Hcr1]. intros d2. rewrite Hff. intros [Hd2|Hd2].
      + exists i. split; [lia |]. split; [by right |]. rewrite <- (Z.add_0_r i). eapply saved_trans; [exact Hsv | exact Hd2 | lia..].
      + exists (i + n1). split; [lia |]. split; [tauto |]. eapply saved_trans; [exact Hsv | exact Hd2 | lia..].
    - rewrite Hff in Hmore. replace (off + (i + n1)) with (off + i + n1) by lia. apply Hmore; [lia | lia |].
      replace (n1 + (n - (i + n1))) with (n - i) by lia. done. }
  intros r s2 (-> & Hfs2 & Hex). split; [done |]. split; [| exact Hex].
  rewrite Hfs2, Hfs. by rewrite list_insert_insert_eq.
Qed.

(** C2: Writing an open file is correct and safe against crashes, for any
    length. [filewrite] of [n] bytes at the offset of the file returns [n]
    and advances the offset by [n]; the disk then holds a well-formed file
    system in which the file has exactly these bytes written over its old
    contents and no other file has changed. If the machine crashes after any
    number of the disk writes of the call, recovery leads to a well-formed
    file system in which the file has its old contents with the bytes of the
    first transactions written over them, all or none of each, and all other
    files as before. The disk needs to have the blocks the file lacks, the
    file may not grow beyond its 140 blocks, and no other operation runs. *)
Theorem filewrite_crash_safe (s : fstate (fs (log S))) f ff inum d v w src n killed
  (Hf : writable_file s f ff inum d v w)
  (Hn : 0 <= n <= Z.of_nat (length src)) (Hmax : f_off ff + n <= MAXBYTES)
  (Hbm : (size (bmaps sb) <= 11)%nat) (Hlog : 28 < lsize)
  (Hroom : enough (sb := sb) v inum (f_off ff) n) :
  runs (filewrite f src n killed) s (fun r s' => r = n /\
    fs_file s' = <[f := fset_off (f_off ff + n) ff]> (fs_file s) /\ exists ws v',
    writable_file s' f (fset_off (f_off ff + n) ff) inum (apply_writes ws d) v' (w ++ ws) /\
    saved d inum (f_off ff) src n (apply_writes ws d) /\
    crash_ok d ws (some_chunks d inum (f_off ff) src n)).
Proof.
  pose proof (wf_view _ _ _ _ _ _ _ Hf) as Hvd.
  assert (disk_ok (sb := sb) d) as Hd by (apply (disk_agree Hg v); [intros b _; by rewrite Hvd | apply Hf]).
  destruct (wf_entry _ _ _ _ _ _ _ Hf) as (i0 & Hen & _). pose proof (en_range _ _ _ _ _ Hen) as Hr.
  unfold filewrite. eapply runs_file_at; [apply Hf |].
  rewrite (proj2 (Z.eqb_neq _ _) (wf_writable _ _ _ _ _ _ _ Hf)), (wf_type _ _ _ _ _ _ _ Hf).
  apply runs_bind. eapply runs_mono.
  { apply (filewrite_loop_spec f inum d (f_off ff) src n) with (ff := ff) (ws := []) (v := v) (w := w); try done.
    - assert (forall b, home disksize start lsize b -> v b = d b) as Hb by (intros b _; apply Hvd).
      pose proof (wf_off _ _ _ _ _ _ _ Hf) as Ho. rewrite (dinode_agree Hg d v Hb inum Hr) in Ho.
      unfold file_bytes. rewrite bytes_length. lia.
    - lia.
    - lia.
    - left. apply Z.divide_0_r.
    - lia.
    - lia.
    - by rewrite app_nil_r.
    - by apply saved_0.
    - eapply crash_ok_nil; [apply Hf | apply Hf | apply Hf |]. intros d2 Hd2. exists 0. split; [lia |].
      split; [right; apply Z.divide_0_r |]. eapply (holds_agree d d d); try done; [by apply saved_0 |].
      assert (forall b, home disksize start lsize b -> v b = d b) as Hb by (intros b _; apply Hvd).
      rewrite <- (dinode_agree Hg d v Hb inum Hr). apply Hf.
    - by rewrite Z.add_0_r, Z.sub_0_r. }
  intros r s' (-> & Hfs & ws & v' & H1 & H2 & H3). apply runs_ret. rewrite Z.eqb_refl. split; [done |].
  split; [done |]. by exists ws, v'.
Qed.

(** ** The largest file *)

Lemma panic_after {T A B} (c : ST T A) (k : A -> ST T B) s msg :
  runs c s (fun a s' => k a s' = Panic msg) -> (let* a := c in k a) s = Panic msg.
Proof. intros (a & s' & Hc & Hk). unfold bind. by rewrite Hc. Qed.

(** [writei] lets a write pass that ends within MAXFILE blocks, but [bmap] has
    addresses for half as many. *)
Lemma writei_beyond (s : fs (log S)) ip i src off n :
  fs_ic s !! ip = Some i -> d_type (i_di i) <> T_DEV -> MAXBYTES <= off <= d_size (i_di i) -> 0 < n ->
  off + n <= MAXFILE * Z.of_nat BSIZE -> writei ip src off n s = Panic "bmap: out of range".
Proof.
  intros Hi Hty Hoff Hn Hend. assert (MAXFILE * Z.of_nat BSIZE = 143360) as Hmf by (unfold MAXFILE; rewrite NINDIRECT_eq; reflexivity).
  unfold MAXBYTES in Hoff. unfold writei. apply panic_after. exists i, s. split; [unfold inode_at; by rewrite Hi |].
  rewrite (proj2 (Z.eqb_neq _ _) Hty), Hmf, !u32_small by lia. rewrite (proj2 (Z.ltb_ge _ off)), (proj2 (Z.ltb_ge (off + n) off)) by lia.
  cbn [orb]. rewrite (proj2 (Z.ltb_ge 143360 _)) by lia.
  assert (140 <= off / 512) as Hb by (apply Z.div_le_lower_bound; lia).
  unfold bind at 1. cbn [writei_loop]. rewrite (proj2 (Z.ltb_lt 0 n)) by lia. unfold bind at 1, bmap, bind at 1, inode_at at 1. rewrite Hi.
  change (Z.of_nat BSIZE) with 512. change (Z.of_nat NDIRECT) with 12. rewrite (proj2 (Z.ltb_ge (off / 512) 12)) by lia.
  rewrite NINDIRECT_eq. cbv zeta. rewrite (proj2 (Z.ltb_ge (off / 512 - 12) (Z.of_nat 128))) by lia. done.
Qed.

(** C34: A process that appends to a file of the largest size panics the
    kernel. At the end of a file of 140 blocks [filewrite] of any positive
    number of bytes does not return -1: the checks of [writei] pass, because
    MAXFILE is twice the number of blocks an inode can address, and [bmap]
    panics. *)
Theorem filewrite_full_panics (s : fstate (fs (log S))) f ff inum d v w src n killed
  (Hf : writable_file s f ff inum d v w) (Hlog : 28 < lsize) (Hoff : f_off ff = MAXBYTES) (Hn : 0 < n) :
  filewrite f src n killed s = Panic "bmap: out of range".
Proof.
  destruct Hf as [Hf Hft Hfw Hl (Hst & Hsz) (Ho & Hcm) Hd (i & Hen & Hul) (Hty & Hnd) Hb].
  assert (forall {B} (k : file -> ST (fstate (fs (log S))) B), k ff s = Panic "bmap: out of range" ->
    (let* x := file_at f in k x) s = Panic "bmap: out of range") as Hat.
  { intros B k Hk. apply panic_after. exists ff, s. split; [unfold file_at; by rewrite Hf | done]. }
  unfold filewrite. apply Hat. rewrite (proj2 (Z.eqb_neq _ _) Hfw), Hft.
  unfold bind at 1. destruct (Z.to_nat n) as [|m] eqn:Hm; [lia |]. cbn [filewrite_loop].
  rewrite (proj2 (Z.ltb_lt 0 n) Hn), Z.sub_0_r, drop_0. cbv zeta.
  set (n1 := if filewrite_max <? n then filewrite_max else n).
  assert (0 < n1 <= 6656) as Hn1 by (subst n1; rewrite filewrite_max_eq; destruct (Z.ltb_spec 6656 n); lia).
  unfold bind at 1. enough (filewrite_chunk f src n1 s = Panic "bmap: out of range") as -> by done.
  unfold filewrite_chunk. apply Hat. apply panic_after, runs_on_ino.
  eapply runs_mono; [by apply (op_begin_spec _ d v w) |]. intros [] x1 (t1 & -> & Ht1). apply panic_after, runs_on_ino.
  eapply runs_mono; [eapply (ilock_spec Hg _ _ i v inum ∅); [exact Ht1 | | done | done] |].
  { destruct Hen. by split. }
  intros [] x2 (t2 & -> & Ht2). unfold bind at 1, on_ino, lift_st. cbn [fs_inode with_inode].
  destruct Hen.
  rewrite (writei_beyond _ (f_ip ff) (locked_inode (sb := sb) i v)); [done | | | | |].
  - by eapply put_inode_lookup.
  - cbn [locked_inode i_di]. by rewrite en_inum.
  - cbn [locked_inode i_di]. rewrite en_inum, Hoff in *. lia.
  - rewrite u32_small; lia.
  - rewrite u32_small, Hoff by lia. unfold MAXFILE, MAXBYTES. rewrite NINDIRECT_eq. unfold NDIRECT, BSIZE. lia.
Qed.
End io.

(** ** The example disk *)

#[local] Opaque bio_boot demo_disk.

(** File 0 is open on the file "a". *)
Definition demo_open : fstate (fs (log bio)) :=
  mkFstate [mkFile FD_INODE 1 1 1 0 0 0] ∅ (mkKmem 0 0 (fun _ => 0)) (demo_fs 2) [].

Lemma demo_writable :
  writable_file (H0 := bio_spec 200) (sb := demo_sb) (start := 2) (lsize := 30) demo_open 0
    (mkFile FD_INODE 1 1 1 0 0 0) 2 demo_disk demo_disk [].
Proof.
  split.
  - reflexivity.
  - reflexivity.
  - discriminate.
  - apply demo_logged.
  - split; reflexivity.
  - split; reflexivity.
  - apply demo_disk_ok.
  - eexists. split; [apply demo_entry; unfold is_inum; simpl; lia | reflexivity].
  - split; vm_compute; discriminate.
  - simpl f_off. vm_compute. split; discriminate.
Qed.

Lemma demo_bmaps : (size (bmaps demo_sb) <= 11)%nat.
Proof. vm_compute. lia. Qed.

(** More than one transaction holds. *)
Definition demo_src : list Z := replicate (Z.to_nat 7000) 65.

Lemma filewrite_crash_safe_witness :
  runs (filewrite (H := bio_ops 200) (DevSw0 := no_devices (log bio)) 0 demo_src 7000 false) demo_open
    (fun r s' => r = 7000 /\ exists ws,
      saved (sb := demo_sb) demo_disk 2 0 demo_src 7000 (apply_writes ws demo_disk) /\
      crash_ok (H0 := bio_spec 200) (start := 2) (lsize := 30) demo_disk ws
        (some_chunks (sb := demo_sb) demo_disk 2 0 demo_src 7000)).
Proof.
  eapply runs_mono; [apply (filewrite_crash_safe (H0 := bio_spec 200) (DevSw0 := no_devices (log bio)) demo_geometry
    demo_open 0 (mkFile FD_INODE 1 1 1 0 0 0) 2 demo_disk demo_disk [] demo_src 7000 false demo_writable) |].
  - unfold demo_src. rewrite length_replicate. lia.
  - unfold MAXBYTES. simpl. lia.
  - apply demo_bmaps.
  - lia.
  - right. simpl f_off. rewrite demo_owned. vm_compute. discriminate.
  - intros r s' (-> & _ & ws & v' & _ & H1 & H2). split; [reflexivity |]. exists ws. split; [exact H1 | exact H2].
Defined.

(** The file "a" written up to its largest size, and one byte more. *)
Lemma filewrite_full_panics_witness :
  runs (filewrite_loop (H := bio_ops 200) (DevSw0 := no_devices (log bio)) 0
      (replicate (Z.to_nat MAXBYTES) 65) MAXBYTES 0 (Z.to_nat 71681)) demo_open
    (fun _ s' => filewrite (H := bio_ops 200) (DevSw0 := no_devices (log bio)) 0 [66] 1 false s' =
      Panic "bmap: out of range").
Proof.
  pose proof (filewrite_loop_spec (H0 := bio_spec 200) (DevSw0 := no_devices (log bio)) demo_geometry 0 2 demo_disk 0
    (replicate (Z.to_nat MAXBYTES) 65) MAXBYTES) as Hloop.
  eapply runs_mono; [apply Hloop with (ff := mkFile FD_INODE 1 1 1 0 0 0) (ws := []) (v := demo_disk) (w := []) |].
  - split; [lia |]. apply Nat2Z.is_nonneg.
  - rewrite length_replicate. unfold MAXBYTES. lia.
  - lia.
  - apply demo_bmaps.
  - lia.
  - unfold MAXBYTES. lia.
  - left. apply Z.divide_0_r.
  - unfold MAXBYTES. lia.
  - reflexivity.
  - apply demo_writable.
  - apply saved_0, demo_disk_ok.
  - eapply (crash_ok_nil (H0 := bio_spec 200) (boot_on demo_disk 30) demo_disk demo_disk []).
    + apply demo_logged.
    + reflexivity.
    + reflexivity.
    + intros d2 Hd2. exists 0. split; [unfold MAXBYTES; lia |]. split; [right; apply Z.divide_0_r |].
      eapply (holds_agree demo_geometry demo_disk demo_disk demo_disk d2).
      * apply saved_0, demo_disk_ok.
      * apply demo_disk_ok.
      * unfold is_inum. simpl. lia.
      * vm_compute. discriminate.
      * reflexivity.
      * exact Hd2.
  - right. rewrite demo_owned. vm_compute. discriminate.
  - intros r s' (_ & _ & ws & v' & Hw & _).
    eapply (filewrite_full_panics (H0 := bio_spec 200) (DevSw0 := no_devices (log bio)) demo_geometry s' 0 _ 2 _ v' _ [66] 1 false Hw).
    + lia.
    + reflexivity.
    + lia.
Defined.
