(* ===== verification/Grep.v ===== *)
(** * grep (grep.c)

    The pattern matcher of Kernighan and Pike on strings, which are lists of
    non-zero bytes, and the loop that reads a file through a buffer of 1024
    bytes and writes the lines that match. A call of [read] is an element of a
    list, the bytes it stores; the end of the list is the end of the file. *)

From S2P Require Import Prelude.

Definition STAR : Z := 42.
Definition DOLLAR : Z := 36.
Definition DOT : Z := 46.
Definition CARET : Z := 94.
Definition NL : Z := 10.

(** ** The matcher *)

(** [matchstar(c, re, text)], where [mh] is [matchhere] of [re]. *)
Fixpoint matchstar (mh : list Z -> bool) (c : Z) (text : list Z) : bool :=
  if mh text then true
  else match text with
       | [] => false
       | t :: text' => if (t =? c) || (c =? DOT) then matchstar mh c text' else false
       end.

Fixpoint matchhere (re : list Z) (text : list Z) {struct re} : bool :=
  match re with
  | [] => true
  | c :: re1 =>
      match re1 with
      | s :: re2 => if s =? STAR then matchstar (matchhere re2) c text
                    else match text with
                         | t :: text' => if (c =? DOT) || (c =? t) then matchhere re1 text' else false
                         | [] => false
                         end
      | [] => if c =? DOLLAR then bool_decide (text = [])
              else match text with
                   | t :: text' => if (c =? DOT) || (c =? t) then matchhere re1 text' else false
                   | [] => false
                   end
      end
  end.

(** The loop of [match], which also looks at the empty string at the end. *)
Fixpoint match_anywhere (re text : list Z) : bool :=
  if matchhere re text then true
  else match text with
       | [] => false
       | _ :: text' => match_anywhere re text'
       end.

Definition match_re (re text : list Z) : bool :=
  match re with
  | c :: re' => if c =? CARET then matchhere re' text else match_anywhere re text
  | [] => match_anywhere re text
  end.

(** ** The language of a pattern *)

Inductive regex :=
| Eps
| Chr (c : Z)
| Any
| Seq (r1 r2 : regex)
| Star (r : regex).

Inductive matches : regex -> list Z -> Prop :=
| m_eps : matches Eps []
| m_chr c : matches (Chr c) [c]
| m_any c : matches Any [c]
| m_seq r1 r2 u w : matches r1 u -> matches r2 w -> matches (Seq r1 r2) (u ++ w)
| m_star0 r : matches (Star r) []
| m_star r u w : matches r u -> matches (Star r) w -> matches (Star r) (u ++ w).

#[local] Hint Constructors matches : core.

Definition atom (c : Z) : regex := if c =? DOT then Any else Chr c.

(** The expression a pattern without its caret stands for, and whether it is
    anchored at the end of the line. *)
Fixpoint meaning (re : list Z) : regex * bool :=
  match re with
  | [] => (Eps, false)
  | c :: re1 =>
      match re1 with
      | s :: re2 => if s =? STAR then let '(r, b) := meaning re2 in (Seq (Star (atom c)) r, b)
                    else let '(r, b) := meaning re1 in (Seq (atom c) r, b)
      | [] => if c =? DOLLAR then (Eps, true) else (Seq (atom c) Eps, false)
      end
  end.

(** A prefix of [text] matches, all of it when [anchored]. *)
Definition starts (r : regex) (anchored : bool) (text : list Z) : Prop :=
  exists u w, text = u ++ w /\ matches r u /\ (anchored = true -> w = []).

Lemma matches_atom c x : matches (atom c) x <-> exists t, x = [t] /\ (c = DOT \/ c = t).
Proof.
  unfold atom. destruct (Z.eqb_spec c DOT) as [->|Hne]; split.
  - intros Hm. inversion Hm; subst. eauto.
  - intros (t & -> & _). auto.
  - intros Hm. inversion Hm; subst. eauto.
  - intros (t & -> & [?|<-]); [done | auto].
Qed.

Lemma starts_atom c r b text :
  starts (Seq (atom c) r) b text <-> exists t text', text = t :: text' /\ (c = DOT \/ c = t) /\ starts r b text'.
Proof.
  split.
  - intros (u & w & -> & Hm & Hb). inversion Hm as [| | | ? ? u1 u2 H1 H2 | |]; subst.
    apply matches_atom in H1 as (t & -> & Hc). exists t, (u2 ++ w). split; [done |]. split; [done |]. by exists u2, w.
  - intros (t & text' & -> & Hc & u & w & -> & Hm & Hb). exists (t :: u), w. split; [done |]. split; [| done].
    change (t :: u) with ([t] ++ u). constructor; [| done]. apply matches_atom. eauto.
Qed.

Lemma matches_star_atom c u : matches (Star (atom c)) u <-> Forall (fun t => c = DOT \/ c = t) u.
Proof.
  split.
  - remember (Star (atom c)) as r eqn:Er. induction 1 as [| | | | |r u w H1 _ H2 IH2]; try done.
    injection Er as ->. apply matches_atom in H1 as (t & -> & Hc). constructor; [done | by apply IH2].
  - induction 1 as [|t u Hc _ IH]; [auto |]. change (t :: u) with ([t] ++ u). constructor; [| done].
    apply matches_atom. eauto.
Qed.

(** A starred atom matches nothing more, or one character and again. *)
Lemma starts_star c r b text :
  starts (Seq (Star (atom c)) r) b text <->
  starts r b text \/ exists t text', text = t :: text' /\ (c = DOT \/ c = t) /\ starts (Seq (Star (atom c)) r) b text'.
Proof.
  split.
  - intros (u & w & -> & Hm & Hb). inversion Hm as [| | | ? ? u1 u2 H1 H2 | |]; subst.
    apply matches_star_atom in H1. destruct H1 as [|t u1 Hc Hall].
    + left. by exists u2, w.
    + right. exists t, (u1 ++ u2 ++ w). split; [by rewrite <- app_assoc |]. split; [done |].
      exists (u1 ++ u2), w. split; [by rewrite app_assoc |]. split; [| done]. constructor; [by apply matches_star_atom | done].
  - intros [(u & w & -> & Hm & Hb)|(t & text' & -> & Hc & u & w & -> & Hm & Hb)].
    + exists u, w. split; [done |]. split; [| done]. change u with ([] ++ u). auto.
    + inversion Hm as [| | | ? ? u1 u2 H1 H2 | |]; subst. exists ((t :: u1) ++ u2), w.
      split; [done |]. split; [| done]. constructor; [| done]. rewrite matches_star_atom in H1 |- *. by constructor.
Qed.

Lemma matchstar_correct mh c r b text :
  (forall text, mh text = true <-> starts r b text) ->
  matchstar mh c text = true <-> starts (Seq (Star (atom c)) r) b text.
Proof.
  intros Hmh. induction text as [|t text IH]; rewrite starts_star, <- Hmh; simpl.
  - destruct (mh []); [naive_solver |]. split; [done |]. intros [?|(t & x & ? & _)]; done.
  - destruct (mh (t :: text)); [naive_solver |].
    destruct (Z.eqb_spec t c) as [->|Hne], (Z.eqb_spec c DOT) as [->|Hd]; simpl; rewrite ?IH; naive_solver.
Qed.

Lemma matchhere_correct re : forall text,
  matchhere re text = true <-> starts (meaning re).1 (meaning re).2 text.
Proof.
  enough (forall n re, (length re <= n)%nat -> forall text,
    matchhere re text = true <-> starts (meaning re).1 (meaning re).2 text) as H by (by apply (H (length re))).
  clear re. intros n. induction n as [|n IH]; intros [|c re] Hl text; simpl in Hl; try lia.
  1,2: simpl; split; [intros _; by exists [], text | done].
  destruct re as [|s re].
  - cbn [matchhere meaning]. destruct (Z.eqb_spec c DOLLAR) as [->|Hne]; cbn [fst snd].
    + rewrite bool_decide_eq_true. split; [intros ->; by exists [], [] |].
      intros (u & w & -> & Hm & Hb). inversion Hm; subst. by apply Hb.
    + rewrite starts_atom. destruct text as [|t text]; [naive_solver |].
      assert (starts Eps false text) by (by exists [], text).
      destruct (Z.eqb_spec c DOT), (Z.eqb_spec c t); cbn [orb]; naive_solver.
  - cbn [matchhere]. change (meaning (c :: s :: re)) with
      (if s =? STAR then let '(r, b) := meaning re in (Seq (Star (atom c)) r, b)
       else let '(r, b) := meaning (s :: re) in (Seq (atom c) r, b)).
    destruct (s =? STAR).
    + pose proof (IH re ltac:(simpl in Hl; lia)) as IHre. destruct (meaning re) as [r b]. cbn [fst snd] in *.
      by apply matchstar_correct.
    + pose proof (IH (s :: re) ltac:(simpl in *; lia)) as IHre. destruct (meaning (s :: re)) as [r b]. cbn [fst snd] in *.
      rewrite starts_atom. destruct text as [|t text]; [naive_solver |]. specialize (IHre text).
      destruct (Z.eqb_spec c DOT), (Z.eqb_spec c t); cbn [orb]; naive_solver.
Qed.

Lemma match_anywhere_correct re text :
  match_anywhere re text = true <->
  exists pre rest, text = pre ++ rest /\ starts (meaning re).1 (meaning re).2 rest.
Proof.
  induction text as [|t text IH]; cbn [match_anywhere]; destruct (matchhere re _) eqn:Hm.
  1,3: split; [intros _; exists []; eexists; split; [done |]; by apply matchhere_correct | done].
  - split; [done |]. intros (pre & rest & He & Hs). symmetry in He. apply app_nil in He as [-> ->].
    apply matchhere_correct in Hs. congruence.
  - rewrite IH. split.
    + intros (pre & rest & -> & Hs). by exists (t :: pre), rest.
    + intros (pre & rest & He & Hs). destruct pre as [|x pre]; simpl in He.
      * subst rest. apply matchhere_correct in Hs. congruence.
      * injection He as <- ->. by exists pre, rest.
Qed.

(** A pattern is found in a line: some substring matches it, at the start of
    the line under a caret and up to its end under a dollar. *)
Definition found (re text : list Z) : Prop :=
  let '(caret, re) := match re with
                      | c :: re' => if c =? CARET then (true, re') else (false, re)
                      | [] => (false, re)
                      end in
  exists pre rest, text = pre ++ rest /\ (caret = true -> pre = []) /\ starts (meaning re).1 (meaning re).2 rest.

Lemma match_found re text : match_re re text = true <-> found re text.
Proof.
  unfold match_re, found. destruct re as [|c re]; [| destruct (c =? CARET)]; rewrite ?match_anywhere_correct.
  1,3: naive_solver.
  rewrite matchhere_correct. split; [intros Hs; by exists [], text |].
  intros (pre & rest & -> & Hp & Hs). by rewrite Hp.
Qed.

#[export] Instance found_dec re text : Decision (found re text).
Proof. refine (cast_if (decide (match_re re text = true))); by rewrite <- match_found. Defined.

(** ** Lines *)

(** [strchr(p, '\n')] in a buffer that ends with a NUL: the line before the
    newline and what follows it. *)
Fixpoint find_nl (p : list Z) : option (list Z * list Z) :=
  match p with
  | [] => None
  | c :: p' =>
      if c =? 0 then None
      else if c =? NL then Some ([], p')
      else match find_nl p' with
           | Some (line, rest) => Some (c :: line, rest)
           | None => None
           end
  end.

(** The inner loop: what it writes and where [p] ends up. *)
Fixpoint grep_lines (pattern p : list Z) (fuel : nat) : res (list Z * list Z) :=
  match fuel with
  | O => Hang
  | S fuel' =>
      match find_nl p with
      | None => Ok ([], p)
      | Some (line, rest) =>
          let! (out, p') := grep_lines pattern rest fuel' in
          Ok ((if match_re pattern line then line ++ [NL] else []) ++ out, p')
      end
  end.

(** The outer loop, with the first [m] bytes of [buf] kept from before. A read
    that stores more than it is asked for is not possible. *)
Fixpoint grep_loop (pattern : list Z) (reads : list (list Z)) (kept : list Z) : res (list Z) :=
  match reads with
  | [] => Ok []
  | x :: reads' =>
      if (length x =? 0)%nat then Ok []
      else if (1024 - length kept - 1 <? length x)%nat then Undef
      else
        let buf := kept ++ x in
        let! (out, p) := grep_lines pattern buf (S (length buf)) in
        let kept := if (length p =? length buf)%nat then [] else p in
        let! out' := grep_loop pattern reads' kept in
        Ok (out ++ out')
  end.

Definition grep (pattern : list Z) (reads : list (list Z)) : res (list Z) := grep_loop pattern reads [].

Definition unlines (ls : list (list Z)) : list Z := concat ((fun l : list Z => l ++ [NL]) <$> ls).

Definition line_ok (l : list Z) : Prop := NL ∉ l /\ 0 ∉ l.

Lemma find_nl_line l rest : line_ok l -> find_nl (l ++ NL :: rest) = Some (l, rest).
Proof.
  induction l as [|c l IH]; intros [Hn Hz]; [done |]. rewrite not_elem_of_cons in Hn, Hz. simpl.
  rewrite (proj2 (Z.eqb_neq c 0)), (proj2 (Z.eqb_neq c NL)) by naive_solver. rewrite IH; [done |]. split; naive_solver.
Qed.

Lemma find_nl_none l : NL ∉ l -> find_nl l = None.
Proof.
  induction l as [|c l IH]; intros Hn; [done |]. rewrite not_elem_of_cons in Hn. simpl. destruct (c =? 0); [done |].
  rewrite (proj2 (Z.eqb_neq c NL)) by naive_solver. by rewrite IH by naive_solver.
Qed.

Lemma grep_lines_spec pattern ls rest : forall fuel,
  Forall line_ok ls -> NL ∉ rest -> (length (unlines ls) < fuel)%nat ->
  grep_lines pattern (unlines ls ++ rest) fuel = Ok (unlines (filter (found pattern) ls), rest).
Proof.
  induction ls as [|l ls IH]; intros fuel Hls Hrest Hf; (destruct fuel as [|fuel]; [lia |]); cbn [grep_lines].
  - simpl. by rewrite find_nl_none.
  - apply Forall_cons in Hls as [Hl Hls]. change (unlines (l :: ls)) with ((l ++ [NL]) ++ unlines ls) in *.
    rewrite <- !app_assoc. simpl. rewrite find_nl_line by done. rewrite !length_app in Hf. simpl in Hf.
    rewrite IH by (done || lia). simpl. rewrite filter_cons. case_decide as Hm.
    + by rewrite (proj2 (match_found _ _) Hm).
    + rewrite <- match_found in Hm. by destruct (match_re pattern l).
Qed.

(** Every string is a number of lines and an incomplete one. *)
Lemma split_lines s : 0 ∉ s -> exists ls rest, s = unlines ls ++ rest /\ Forall line_ok ls /\ NL ∉ rest.
Proof.
  induction s as [|c s IH]; intros Hz; [exists [], []; split_and!; [done | done | apply not_elem_of_nil] |].
  rewrite not_elem_of_cons in Hz. destruct Hz as [Hc Hz].
  destruct (IH Hz) as (ls & rest & -> & Hls & Hrest). destruct (decide (c = NL)) as [->|Hne].
  - exists ([] :: ls), rest. split; [done |]. split; [| done]. constructor; [| done]. split; apply not_elem_of_nil.
  - destruct ls as [|l ls].
    + exists [], (c :: rest). split; [done |]. split; [done |]. rewrite not_elem_of_cons. naive_solver.
    + apply Forall_cons in Hls as [[Hl1 Hl2] Hls]. exists ((c :: l) :: ls), rest. split; [done |]. split; [| done].
      constructor; [| done]. split; rewrite not_elem_of_cons; naive_solver.
Qed.

Lemma unlines_app ls ls' : unlines (ls ++ ls') = unlines ls ++ unlines ls'.
Proof. unfold unlines. by rewrite fmap_app, concat_app. Qed.

Lemma nl_split l l' x x' : NL ∉ l -> NL ∉ l' -> l ++ NL :: x = l' ++ NL :: x' -> l = l' /\ x = x'.
Proof.
  revert l'. induction l as [|c l IH]; intros [|c' l'] Hl Hl' He; simpl in He; rewrite ?not_elem_of_cons in *.
  - by injection He as ->.
  - injection He as ? _. naive_solver.
  - injection He as ? _. naive_solver.
  - injection He as -> He. destruct (IH l') as [-> ->]; naive_solver.
Qed.

Lemma nl_split_last l l' x x' : NL ∉ x -> NL ∉ x' -> l ++ NL :: x = l' ++ NL :: x' -> x = x'.
Proof.
  intros Hx Hx' He. apply (f_equal reverse) in He. rewrite !reverse_app, !reverse_cons, <- !app_assoc in He. simpl in He.
  apply nl_split in He as [He _]; [by apply (inj reverse) | by rewrite elem_of_reverse ..].
Qed.

Lemma last_line ls r l r' :
  NL ∉ r -> NL ∉ r' -> unlines ls ++ r = l ++ NL :: r' -> r = r' /\ (0 < length (unlines ls))%nat.
Proof.
  intros Hr Hr' He. destruct ls as [|l0 ls _] using rev_ind.
  - exfalso. simpl in He. apply Hr. rewrite He. apply elem_of_app. right. by left.
  - rewrite unlines_app in *. unfold unlines at 2 in He. simpl in He. rewrite app_nil_r, <- !app_assoc in He. simpl in He.
    rewrite app_assoc in He. split; [by eapply nl_split_last |]. rewrite length_app. unfold unlines at 2. simpl.
    rewrite !length_app. simpl. lia.
Qed.

(** The lines of a string begin with those of a part of it. *)
Lemma unlines_prefix ls1 x : forall ls rest,
  Forall line_ok ls1 -> Forall line_ok ls -> NL ∉ rest -> unlines ls1 ++ x = unlines ls ++ rest ->
  exists ls2, ls = ls1 ++ ls2 /\ x = unlines ls2 ++ rest.
Proof.
  induction ls1 as [|l ls1 IH]; intros ls rest H1 H2 Hr He; [by exists ls |].
  apply Forall_cons in H1 as [[Hl Hz] H1]. change (unlines (l :: ls1)) with ((l ++ [NL]) ++ unlines ls1) in He.
  rewrite <- !app_assoc in He. simpl in He. destruct ls as [|l' ls].
  - exfalso. simpl in He. apply Hr. rewrite <- He. apply elem_of_app. right. by left.
  - apply Forall_cons in H2 as [[Hl' Hz'] H2]. change (unlines (l' :: ls)) with ((l' ++ [NL]) ++ unlines ls) in He.
    rewrite <- !app_assoc in He. simpl in He. apply nl_split in He as [-> He]; [| done | done].
    destruct (IH ls rest) as (ls2 & -> & ->); try done. by exists ls2.
Qed.

(** The reads of a file: not empty, not more than fits, and each with a
    newline. *)
Fixpoint reads_ok (reads : list (list Z)) (kept : nat) : Prop :=
  match reads with
  | [] => True
  | x :: reads' => (0 < length x <= 1023 - kept)%nat /\ NL ∈ x /\ 0 ∉ x /\
      exists l rest, x = l ++ NL :: rest /\ NL ∉ rest /\ reads_ok reads' (length rest)
  end.

Lemma grep_loop_spec pattern reads : forall kept ls rest,
  reads_ok reads (length kept) -> line_ok kept -> Forall line_ok ls -> NL ∉ rest ->
  kept ++ concat reads = unlines ls ++ rest ->
  grep_loop pattern reads kept = Ok (unlines (filter (found pattern) ls)).
Proof.
  induction reads as [|x reads IH]; intros kept ls rest Hr [Hk1 Hk2] Hls Hrest He; cbn [grep_loop].
  - simpl in He. rewrite app_nil_r in He. destruct (unlines_prefix [] kept ls rest) as (ls2 & -> & He2); try done.
    destruct ls2 as [|l ls2]; [done |]. exfalso. apply Hk1. rewrite He2.
    change (unlines (l :: ls2)) with ((l ++ [NL]) ++ unlines ls2). rewrite !elem_of_app. left. left. right. by left.
  - destruct Hr as ([Hx0 Hxl] & Hnl & Hz & l & r & Hx & Hrn & Hrd). rewrite (proj2 (Nat.eqb_neq _ _)) by lia.
    rewrite (proj2 (Nat.ltb_ge _ _)) by lia. cbv zeta.
    destruct (split_lines (kept ++ x)) as (ls1 & r1 & He1 & Hls1 & Hr1); [by rewrite not_elem_of_app |].
    rewrite He1, grep_lines_spec; [| done | done | rewrite length_app; lia]. simpl rbind at 1.
    destruct (last_line ls1 r1 (kept ++ l) r) as [-> Hlen]; [done | done | by rewrite <- He1, Hx, app_assoc |].
    rewrite length_app, (proj2 (Nat.eqb_neq _ _)) by lia.
    destruct (unlines_prefix ls1 (r ++ concat reads) ls rest) as (ls2 & -> & He2); try done.
    { by rewrite app_assoc, <- He1, <- app_assoc. }
    rewrite (IH r ls2 rest); try done.
    + simpl. by rewrite filter_app, unlines_app.
    + split; [done |]. intros Hin. apply Hz. rewrite Hx. apply elem_of_app. right. by right.
    + by apply Forall_app in Hls as [_ ?].
Qed.

(** C25: grep of a file whose lines [ls] are followed by an incomplete line
    terminates and writes the lines in which a substring is in the language of
    the pattern, in their order and whole, however the file is cut into reads,
    provided that every read ends a line and leaves room in the buffer. *)
Theorem grep_correct pattern reads ls rest :
  reads_ok reads 0 -> Forall line_ok ls -> NL ∉ rest -> concat reads = unlines ls ++ rest ->
  grep pattern reads = Ok (unlines (filter (found pattern) ls)).
Proof. intros Hr Hls Hrest He. apply (grep_loop_spec pattern reads [] ls rest); try done. split; apply not_elem_of_nil. Qed.

(** The pattern [^a.*c$] on the lines "abc", "xac", "ac" and the piece "a",
    with the second line cut by the end of a read. *)
Lemma grep_correct_witness :
  grep [CARET; 97; DOT; STAR; 99; DOLLAR] [[97; 98; 99; NL; 120]; [97; 99; NL; 97; 99; NL; 97]] = Ok [97; 98; 99; NL; 97; 99; NL].
Proof.
  refine (grep_correct [CARET; 97; DOT; STAR; 99; DOLLAR] [[97; 98; 99; NL; 120]; [97; 99; NL; 97; 99; NL; 97]]
            [[97; 98; 99]; [120; 97; 99]; [97; 99]] [97] _ _ _ _).
  - repeat (split; [simpl; lia || by apply (bool_decide_unpack _) |]).
    exists [97; 98; 99], [120]. split; [done |]. split; [by apply (bool_decide_unpack _) |].
    repeat (split; [simpl; lia || by apply (bool_decide_unpack _) |]).
    exists [97; 99; NL; 97; 99], [97]. split; [done |]. split; [by apply (bool_decide_unpack _) | done].
  - repeat constructor; by apply (bool_decide_unpack _).
  - by apply (bool_decide_unpack _).
  - reflexivity.
Defined.

(** A read without a newline is forgotten: the line "ab" that comes in two
    reads is not found, and its second half is taken for a line. *)
Example grep_forgets : grep [CARET; 97] [[97]; [98; NL]] = Ok [] /\ grep [CARET; 98] [[97]; [98; NL]] = Ok [98; NL].
Proof. split; reflexivity. Qed.
