(* ===== verification/Sleep.v ===== *)
(** * Sleeping and waking up (sleep, wakeup and kill of proc.c)

    First the effect on the process table. Then [sleep] and [wakeup] on a
    machine with any number of threads that wait for a condition or establish
    it, interleaving at their lock operations, and the absence of lost wakeups. *)

From stdpp Require Import functions.
From S2P Require Import Prelude Mem Params ProcDef.

(** ** The process table *)

Definition sleeps_on (c : chan) (p : proc) : bool :=
  bool_decide (p_state p = SLEEPING) && bool_decide (p_chan p = c).

Definition wakeup1 (c : chan) (pt : list proc) : list proc :=
  (fun p => if sleeps_on c p then set_state RUNNABLE p else p) <$> pt.

(** [wakeup] takes the table's lock around it. *)
Definition wakeup (c : chan) (pt : list proc) : list proc := wakeup1 c pt.

(** [sleep] up to [sched()], and what it does when it is scheduled again. *)
Definition sleep (i : nat) (c : chan) (pt : list proc) : list proc :=
  upd_proc pt i (fun p => set_state SLEEPING (set_chan c p)).
Definition sleep_done (i : nat) (pt : list proc) : list proc := upd_proc pt i (set_chan ChNone).

Definition kill (pid : Z) (pt : list proc) : Z * list proc :=
  match find_from (fun p => p_pid p =? pid) pt 0 with
  | Some i =>
      (0, upd_proc pt i (fun p =>
            let p := set_killed 1 p in
            if bool_decide (p_state p = SLEEPING) then set_state RUNNABLE p else p))
  | None => (-1, pt)
  end.

Lemma wakeup_awake c pt i p :
  pt !! i = Some p -> p_state p <> SLEEPING -> wakeup c pt !! i = Some p.
Proof.
  intros Hp Hs. unfold wakeup, wakeup1, sleeps_on. rewrite list_lookup_fmap, Hp. simpl.
  by rewrite bool_decide_false.
Qed.

Lemma wakeup_chan c pt i : p_chan <$> wakeup c pt !! i = p_chan <$> pt !! i.
Proof.
  unfold wakeup, wakeup1. rewrite list_lookup_fmap. destruct (pt !! i) as [p|]; simpl; [| done].
  by destruct (sleeps_on c p).
Qed.

(** ** Threads

    The waiters run
      acquire(lk); while(!cond) sleep(chan, lk); cond = 0; release(lk);
    and the wakers
      acquire(lk); cond = 1; wakeup(chan); release(lk);
    over and over. Each constructor is a point between two steps of the code. *)
Inductive thread :=
| WIdle                 (* about to acquire lk *)
| WTest                 (* holds lk; about to test the condition *)
| WSleep                (* in sleep(): holds lk; about to acquire ptable.lock *)
| WRelease              (* in sleep(): holds both; about to release lk *)
| WMark                 (* in sleep(): holds ptable.lock; about to set chan and SLEEPING *)
| WSched                (* in sleep(): SLEEPING, holds ptable.lock; about to enter sched() *)
| WAsleep               (* SLEEPING, switched away *)
| WReady                (* RUNNABLE again, waiting to be run *)
| WBack                 (* back from sched(), holds ptable.lock; about to release it *)
| WAgain                (* about to reacquire lk *)
| KIdle                 (* about to acquire lk *)
| KSet                  (* holds lk; about to set the condition *)
| KWake                 (* holds lk, condition set; about to acquire ptable.lock *)
| KScan                 (* holds both; about to run wakeup1 *)
| KUnlock               (* holds both; about to release ptable.lock *)
| KRelease.             (* holds lk; about to release it *)

#[export] Instance thread_eq_dec : EqDecision thread.
Proof. solve_decision. Defined.

Record world := mkWorld {
  w_lk : option nat;
  w_ptable : option nat;
  w_cond : bool;
  w_thr : nat -> thread
}.

Definition at_pc (w : world) (t : nat) (x : thread) : nat -> thread := <[t := x]> (w_thr w).

(** [wakeup1] over the threads: those that are marked SLEEPING on the channel. *)
Definition wake_thread (x : thread) : thread :=
  match x with WAsleep => WReady | _ => x end.

(** One step of thread [t]; [None] when it has to wait for a lock. A thread
    in [WAsleep] does not step by itself. *)
Definition thread_step (t : nat) (w : world) : option world :=
  let go x := at_pc w t x in
  match w_thr w t with
  | WIdle => if w_lk w is Some _ then None else Some (mkWorld (Some t) (w_ptable w) (w_cond w) (go WTest))
  | WTest => if w_cond w then Some (mkWorld None (w_ptable w) false (go WIdle))
             else Some (mkWorld (w_lk w) (w_ptable w) false (go WSleep))
  | WSleep => if w_ptable w is Some _ then None else Some (mkWorld (w_lk w) (Some t) (w_cond w) (go WRelease))
  | WRelease => Some (mkWorld None (w_ptable w) (w_cond w) (go WMark))
  | WMark => Some (mkWorld (w_lk w) (w_ptable w) (w_cond w) (go WSched))
  | WSched => Some (mkWorld (w_lk w) None (w_cond w) (go WAsleep))
  | WAsleep => None
  | WReady => if w_ptable w is Some _ then None else Some (mkWorld (w_lk w) (Some t) (w_cond w) (go WBack))
  | WBack => Some (mkWorld (w_lk w) None (w_cond w) (go WAgain))
  | WAgain => if w_lk w is Some _ then None else Some (mkWorld (Some t) (w_ptable w) (w_cond w) (go WTest))
  | KIdle => if w_lk w is Some _ then None else Some (mkWorld (Some t) (w_ptable w) (w_cond w) (go KSet))
  | KSet => Some (mkWorld (w_lk w) (w_ptable w) true (go KWake))
  | KWake => if w_ptable w is Some _ then None else Some (mkWorld (w_lk w) (Some t) (w_cond w) (go KScan))
  | KScan => Some (mkWorld (w_lk w) (w_ptable w) (w_cond w) (<[t := KUnlock]> (fun u => wake_thread (w_thr w u))))
  | KUnlock => Some (mkWorld (w_lk w) None (w_cond w) (go KRelease))
  | KRelease => Some (mkWorld None (w_ptable w) (w_cond w) (go KIdle))
  end.

Definition world_step (w w' : world) : Prop := exists t, thread_step t w = Some w'.

(** Threads that start out idle. *)
Definition world_init (w : world) : Prop :=
  w_lk w = None /\ w_ptable w = None /\ w_cond w = false /\
  forall t, w_thr w t = WIdle \/ w_thr w t = KIdle.

Definition holds_lk (x : thread) : bool :=
  match x with WTest | WSleep | WRelease | KSet | KWake | KScan | KUnlock | KRelease => true | _ => false end.
Definition holds_ptable (x : thread) : bool :=
  match x with WRelease | WMark | WSched | WBack | KScan | KUnlock => true | _ => false end.

(** On the way to sleep, with the condition found false. *)
Definition going (x : thread) : bool :=
  match x with WSleep | WRelease | WMark | WSched | WAsleep => true | _ => false end.
(** The condition is set but the sleepers are not woken up yet. *)
Definition about_to_wake (x : thread) : bool :=
  match x with KWake | KScan => true | _ => false end.

Record sleep_inv (w : world) : Prop := {
  si_lk : forall t, holds_lk (w_thr w t) = true <-> w_lk w = Some t;
  si_pt : forall t, holds_ptable (w_thr w t) = true <-> w_ptable w = Some t;
  si_wake : forall t, w_cond w = true -> going (w_thr w t) = true ->
    exists u, about_to_wake (w_thr w u) = true
}.

Lemma insert_at (f : nat -> thread) t x u : (<[t := x]> f) u = if decide (t = u) then x else f u.
Proof. case_decide as H; [subst; by rewrite fn_lookup_insert | by rewrite fn_lookup_insert_ne]. Qed.

(** A lock word after a step that makes [h] into [h']. *)
Definition lock_after (h h' : bool) (t : nat) (lk : option nat) : option nat :=
  if h' then Some t else if h then None else lk.

Lemma lock_after_inv (holds : thread -> bool) (f : nat -> thread) lk t x :
  (forall u, holds (f u) = true <-> lk = Some u) ->
  (holds x = true -> holds (f t) = true \/ lk = None) ->
  forall u, holds ((<[t := x]> f) u) = true <-> lock_after (holds (f t)) (holds x) t lk = Some u.
Proof.
  intros Hinv Hx u. rewrite insert_at. unfold lock_after.
  pose proof (Hinv t) as Ht. pose proof (Hinv u) as Hu. case_decide as Htu; [subst u |].
  - destruct (holds x); [done |]. destruct (holds (f t)); naive_solver.
  - destruct (holds x); [| destruct (holds (f t)); naive_solver].
    split; [| congruence]. intros Hh. apply Hu in Hh. destruct (Hx eq_refl) as [Hm|Hm]; naive_solver.
Qed.

Lemma sleep_inv_step w t x c :
  sleep_inv w ->
  (holds_lk x = true -> holds_lk (w_thr w t) = true \/ w_lk w = None) ->
  (holds_ptable x = true -> holds_ptable (w_thr w t) = true \/ w_ptable w = None) ->
  (c = true -> w_cond w = true \/ about_to_wake x = true) ->
  (c = true -> going x = true -> going (w_thr w t) = true) ->
  (c = true -> about_to_wake (w_thr w t) = true -> about_to_wake x = true) ->
  sleep_inv (mkWorld (lock_after (holds_lk (w_thr w t)) (holds_lk x) t (w_lk w))
    (lock_after (holds_ptable (w_thr w t)) (holds_ptable x) t (w_ptable w)) c (at_pc w t x)).
Proof.
  intros [H1 H2 H3] Hlk Hpt Hc Hgo Hab. unfold at_pc. split; cbn [w_lk w_ptable w_cond w_thr].
  - by apply lock_after_inv.
  - by apply lock_after_inv.
  - intros u -> Hu. destruct (Hc eq_refl) as [Hcond|Hx].
    2: { exists t. by rewrite fn_lookup_insert. }
    assert (Hgu : exists v, going (w_thr w v) = true).
    { rewrite insert_at in Hu. case_decide; [exists t; auto | by exists u]. }
    destruct Hgu as [v Hv]. destruct (H3 v Hcond Hv) as [k Hk]. exists k. rewrite insert_at.
    case_decide; [subst; auto | done].
Qed.

(** The scan: every thread that is on its way to sleep is asleep already. *)
Lemma sleep_inv_scan w t :
  sleep_inv w -> w_thr w t = KScan ->
  sleep_inv (mkWorld (w_lk w) (w_ptable w) (w_cond w) (<[t := KUnlock]> (fun u => wake_thread (w_thr w u)))).
Proof.
  intros [H1 H2 H3] Ht.
  assert (Hlk : w_lk w = Some t) by (apply H1; by rewrite Ht).
  assert (Hpt : w_ptable w = Some t) by (apply H2; by rewrite Ht).
  split; cbn [w_lk w_ptable w_cond w_thr].
  - intros u. rewrite insert_at. case_decide; [by subst |]. rewrite <- H1. by destruct (w_thr w u).
  - intros u. rewrite insert_at. case_decide; [by subst |]. rewrite <- H2. by destruct (w_thr w u).
  - intros u _. rewrite insert_at. case_decide as Htu; [done |]. intros Hu.
    pose proof (H1 u) as Hl. pose proof (H2 u) as Hp. destruct (w_thr w u); naive_solver.
Qed.

Lemma sleep_inv_preserved w w' : sleep_inv w -> world_step w w' -> sleep_inv w'.
Proof.
  intros Hw [t Hs]. unfold thread_step in Hs.
  pose proof (fun x c => sleep_inv_step w t x c Hw) as Hstep.
  pose proof (proj1 (si_lk w Hw t)) as Hlk. pose proof (proj1 (si_pt w Hw t)) as Hpt.
  destruct (w_thr w t) eqn:Ht; cbn in Hlk, Hpt; try done;
    try (by injection Hs as <-; apply sleep_inv_scan);
    repeat match type of Hs with
    | context [if w_lk w is Some _ then _ else _] => destruct (w_lk w) eqn:El; [done |]
    | context [if w_ptable w is Some _ then _ else _] => destruct (w_ptable w) eqn:Ep; [done |]
    | context [if w_cond w then _ else _] => destruct (w_cond w) eqn:Ec
    end;
    first [specialize (Hlk eq_refl) | clear Hlk]; first [specialize (Hpt eq_refl) | clear Hpt];
    injection Hs as <-;
    match goal with |- sleep_inv (mkWorld _ _ ?c (at_pc w t ?x)) => specialize (Hstep x c) end;
    cbn in Hstep; try rewrite Hlk in Hstep |- *; try rewrite Hpt in Hstep |- *; apply Hstep; naive_solver.
Qed.

Lemma sleep_inv_init w : world_init w -> sleep_inv w.
Proof.
  intros (H1 & H2 & H3 & H4). split.
  - intros t. rewrite H1. destruct (H4 t) as [-> | ->]; done.
  - intros t. rewrite H2. destruct (H4 t) as [-> | ->]; done.
  - congruence.
Qed.

(** * Properties of sleeping *)

(** C9: no wakeup is lost: with any number of waiters and wakers on any number
    of CPUs, whenever a thread sleeps although its condition holds, some waker
    that has set the condition is still to run its [wakeup]; and that wakeup,
    when it runs, leaves no thread asleep. *)
Theorem no_lost_wakeup w0 w
  (Hinit : world_init w0) (Hreach : rtc world_step w0 w) :
  (forall t, w_thr w t = WAsleep -> w_cond w = true ->
     exists u, w_thr w u = KWake \/ w_thr w u = KScan) /\
  (forall u w', w_thr w u = KScan -> thread_step u w = Some w' -> forall t, w_thr w' t <> WAsleep).
Proof.
  pose proof (rtc_invariant world_step sleep_inv w0 w sleep_inv_preserved (sleep_inv_init _ Hinit) Hreach) as Hw.
  split.
  - intros t Ht Hc. destruct (si_wake w Hw t Hc) as [u Hu]; [by rewrite Ht |].
    exists u. destruct (w_thr w u); auto; done.
  - intros u w' Hu Hs t. unfold thread_step in Hs. rewrite Hu in Hs. injection Hs as <-. cbn [w_thr].
    rewrite insert_at. case_decide; [done |]. by destruct (w_thr w t).
Qed.

Definition ex_world : world := mkWorld None None false (fun t => if (t =? 0)%nat then KIdle else WIdle).

Lemma no_lost_wakeup_witness :
  (forall t, w_thr ex_world t = WAsleep -> w_cond ex_world = true ->
     exists u, w_thr ex_world u = KWake \/ w_thr ex_world u = KScan) /\
  (forall u w', w_thr ex_world u = KScan -> thread_step u ex_world = Some w' -> forall t, w_thr w' t <> WAsleep).
Proof.
  apply (no_lost_wakeup ex_world ex_world).
  - repeat split. intros t. simpl. destruct (t =? 0)%nat; auto.
  - apply rtc_refl.
Defined.
