(* ===== verification/Mutex.v ===== *)
(** * Named mutexes and condition variables (proc.c)

    The table of mutexes, the [locks] array through which each process refers
    to them, and the system calls on them. A call that has to wait sleeps: the
    operation is then split into the turn before the sleep and the turn after
    it ([acquiresleep], [cv_wait_turn]). The parts of [allocproc] and [exit]
    that hand on and give up the references of a process are here too. *)

From S2P Require Import Prelude Mem Params ProcDef Sleep.

(** [name] is the whole buffer [char name[128]]; the sleep lock [slp] is its
    fields [locked] and [pid]. *)
Record mutex := mkMutex {
  mx_name : list Z;
  mx_count : Z;
  mx_waiting : list Z;
  mx_cv_count : Z;
  mx_locked : Z;
  mx_pid : Z
}.

Definition mset_name v m := mkMutex v (mx_count m) (mx_waiting m) (mx_cv_count m) (mx_locked m) (mx_pid m).
Definition mset_count v m := mkMutex (mx_name m) v (mx_waiting m) (mx_cv_count m) (mx_locked m) (mx_pid m).
Definition mset_waiting v m := mkMutex (mx_name m) (mx_count m) v (mx_cv_count m) (mx_locked m) (mx_pid m).
Definition mset_cv v m := mkMutex (mx_name m) (mx_count m) (mx_waiting m) v (mx_locked m) (mx_pid m).
Definition mset_slp l p m := mkMutex (mx_name m) (mx_count m) (mx_waiting m) (mx_cv_count m) l p.

Record mstate := mkMstate { ms_mux : list mutex; ms_procs : list proc }.

Definition with_mux v s := mkMstate v (ms_procs s).
Definition with_procs v s := mkMstate (ms_mux s) v.

Definition mux_at (g : Z) : ST mstate mutex := fun s => let! m := arr_get (ms_mux s) g in Ok (m, s).
Definition upd_mux (g : Z) (f : mutex -> mutex) : ST mstate unit := fun s =>
  let! m := arr_get (ms_mux s) g in
  let! l := arr_set (ms_mux s) g (f m) in Ok (tt, with_mux l s).
Definition cur_proc (i : nat) : ST mstate proc := fun s =>
  let! p := proc_at (ms_procs s) i in Ok (p, s).
Definition upd_cur (i : nat) (f : proc -> proc) : ST mstate unit :=
  modify (fun s => with_procs (upd_proc (ms_procs s) i f) s).
Definition lock_at (p : proc) (muxid : Z) : ST mstate Z := lift (arr_get (p_locks p) muxid).

(** [strncpy(name, src, strlen(src))] into the 128-byte buffer: no NUL is
    written after the bytes. *)
Definition copy_name (src : cstring) (b : list Z) : res (list Z) :=
  if (length src <=? 128)%nat then Ok (src ++ drop (length src) b) else Undef.

(** [strncmp(name, buffer, strlen(name)) == 0] *)
Definition name_matches (name : cstring) (m : mutex) : bool :=
  bool_decide (take (length name) (mx_name m) = name).

Definition bad_muxid (muxid : Z) : bool := (muxid <? 0) || (Z.of_nat MUX_MAXNUM <=? muxid).

(** ** Sleep locks of the mutexes *)

Definition releasesleep (g : Z) : ST mstate unit :=
  upd_mux g (mset_slp 0 0) ;;;
  modify (fun s => with_procs (wakeup (ChMutexLock (Z.to_nat g)) (ms_procs s)) s).

(** One test of the loop of [acquiresleep]: the lock is taken ([true]) or the
    process goes to sleep ([false]). *)
Definition acquiresleep (cur : nat) (g : Z) : ST mstate bool :=
  let* p := cur_proc cur in
  let* m := mux_at g in
  if negb (mx_locked m =? 0) then
    modify (fun s => with_procs (sleep cur (ChMutexLock (Z.to_nat g)) (ms_procs s)) s) ;;; ret false
  else upd_mux g (mset_slp 1 (p_pid p)) ;;; ret true.

(** ** System calls *)

Definition mutex_create (cur : nat) (name : cstring) : ST mstate Z :=
  let* mux := get ms_mux in
  match find_from (fun m => mx_count m =? 0) mux 0 with
  | None => ret (-1)
  | Some gi =>
      let g := Z.of_nat gi in
      let* m := mux_at g in
      let* b := lift (copy_name name (mx_name m)) in
      upd_mux g (fun m => mset_name b (mset_count (mx_count m + 1) m)) ;;;
      let* p := cur_proc cur in
      let* muxid :=
        match find_from (fun l => l =? -1) (p_locks p) 0 with
        | Some i => upd_cur cur (fun p => set_locks (<[i := g]> (p_locks p)) p) ;;; ret (Z.of_nat i)
        | None => ret (-1)
        end in
      upd_mux g (mset_slp 0 0) ;;; ret muxid
  end.

(** The loop of [mutex_get] over the caller's slots. *)
Fixpoint get_slot (g : Z) (ls : list Z) (i : nat) : Z * option nat :=
  match ls with
  | [] => (-1, None)
  | l :: ls' => if l =? g then (-2, None)
                else if l =? -1 then (Z.of_nat i, Some i) else get_slot g ls' (S i)
  end.

Definition mutex_get (cur : nat) (name : cstring) : ST mstate Z :=
  let* mux := get ms_mux in
  match find_from (name_matches name) mux 0 with
  | None => ret (-1)
  | Some gi =>
      let* p := cur_proc cur in
      match get_slot (Z.of_nat gi) (p_locks p) 0 with
      | (r, Some i) => upd_cur cur (fun p => set_locks (<[i := Z.of_nat gi]> (p_locks p)) p) ;;; ret r
      | (r, None) => ret r
      end
  end.

Definition mutex_unlock (cur : nat) (muxid : Z) : ST mstate Z :=
  if bad_muxid muxid then ret (-1)
  else
    let* p := cur_proc cur in
    let* g := lock_at p muxid in
    if g =? -1 then ret (-1)
    else
      let* m := mux_at g in
      if negb (mx_pid m =? p_pid p) then ret (-1) else releasesleep g ;;; ret 0.

Definition mutex_delete (cur : nat) (muxid : Z) : ST mstate Z :=
  if bad_muxid muxid then ret (-1)
  else
    let* p := cur_proc cur in
    let* g := lock_at p muxid in
    if g =? -1 then ret (-1)
    else
      let* m := mux_at g in
      (if mx_pid m =? p_pid p then mutex_unlock cur muxid ;;; ret tt else ret tt) ;;;
      upd_mux g (fun m => mset_count (mx_count m - 1) m) ;;;
      upd_cur cur (fun p => set_locks (<[Z.to_nat muxid := -1]> (p_locks p)) p) ;;;
      ret 0.

(** [mutex_lock] up to its return, or to the first sleep ([None]). *)
Definition mutex_lock (cur : nat) (muxid : Z) : ST mstate (option Z) :=
  if bad_muxid muxid then ret (Some (-1))
  else
    let* p := cur_proc cur in
    let* g := lock_at p muxid in
    if g =? -1 then ret (Some (-1))
    else
      let* m := mux_at g in
      if mx_pid m =? p_pid p then ret (Some (-1))
      else let* got := acquiresleep cur g in ret (if got then Some 0 else None).

(** The end of [mutex_lock] when the process is scheduled again. *)
Definition mutex_lock_resume (cur : nat) (g : Z) : ST mstate (option Z) :=
  modify (fun s => with_procs (sleep_done cur (ms_procs s)) s) ;;;
  let* got := acquiresleep cur g in ret (if got then Some 0 else None).

(** One test of the loop of [cv_wait]. *)
Definition cv_wait_turn (cur : nat) (muxid g : Z) : ST mstate (option Z) :=
  let* m := mux_at g in
  if mx_cv_count m =? 0 then
    mutex_unlock cur muxid ;;;
    modify (fun s => with_procs (sleep cur (ChMutex (Z.to_nat g)) (ms_procs s)) s) ;;; ret None
  else upd_mux g (fun m => mset_cv (mx_cv_count m - 1) m) ;;; ret (Some 0).

Definition cv_wait (cur : nat) (muxid : Z) : ST mstate (option Z) :=
  if bad_muxid muxid then ret (Some (-1))
  else
    let* p := cur_proc cur in
    let* g := lock_at p muxid in
    if g =? -1 then ret (Some (-1))
    else
      let* m := mux_at g in
      if negb (mx_pid m =? p_pid p) then ret (Some (-1))
      else
        let* w := lift (arr_set (mx_waiting m) (p_pid p) 1) in
        upd_mux g (mset_waiting w) ;;; cv_wait_turn cur muxid g.

Definition cv_wait_resume (cur : nat) (muxid g : Z) : ST mstate (option Z) :=
  modify (fun s => with_procs (sleep_done cur (ms_procs s)) s) ;;; cv_wait_turn cur muxid g.

Definition cv_signal (cur : nat) (muxid : Z) : ST mstate Z :=
  if bad_muxid muxid then ret (-1)
  else
    let* p := cur_proc cur in
    let* g := lock_at p muxid in
    if g =? -1 then ret (-1)
    else
      let* m := mux_at g in
      if negb (mx_pid m =? p_pid p) then ret (-1)
      else
        upd_mux g (fun m => mset_waiting (replicate NPROC 0) (mset_cv (mx_cv_count m + 1) m)) ;;;
        modify (fun s => with_procs (wakeup (ChMutex (Z.to_nat g)) (ms_procs s)) s) ;;;
        ret 0.

(** ** Processes that come and go *)

(** The loop of [allocproc] over the slots of the new process. *)
Fixpoint count_locks (ls : list Z) : ST mstate unit :=
  match ls with
  | [] => ret tt
  | l :: ls' =>
      (if negb (l =? -1) then upd_mux l (fun m => mset_count (mx_count m + 1) m) else ret tt) ;;;
      count_locks ls'
  end.

Definition alloc_locks (child : nat) (parent : nat) : ST mstate unit :=
  let* p := cur_proc child in
  if p_pid p =? 1 then upd_cur child (set_locks (replicate MUX_MAXNUM (-1)))
  else
    let* pp := cur_proc parent in
    upd_cur child (set_locks (p_locks pp)) ;;; count_locks (p_locks pp).

(** The loop of [exit]. *)
Fixpoint exit_locks (cur : nat) (ls : list Z) : ST mstate unit :=
  match ls with
  | [] => ret tt
  | g :: ls' =>
      (if negb (g =? -1) then
         upd_mux g (fun m => mset_count (mx_count m - 1) m) ;;;
         let* p := cur_proc cur in
         let* m := mux_at g in
         if mx_pid m =? p_pid p then releasesleep g else ret tt
       else ret tt) ;;;
      exit_locks cur ls'
  end.

(** ** The invariant

    [refs] are the references to mutexes that must be counted, [gh] the
    processes that believe to hold a mutex: those whose last [mutex_lock] on it
    returned 0 and who did not give it up since. *)

Definition live (p : proc) : bool :=
  negb (bool_decide (p_state p = UNUSED)) && negb (bool_decide (p_state p = ZOMBIE)).

Definition occ (g : nat) (refs : list Z) : nat := length (filter (fun x => x = Z.of_nat g) refs).

Definition live_locks (p : proc) : list Z := if live p then p_locks p else [].
Definition all_locks (s : mstate) : list Z := concat (live_locks <$> ms_procs s).

(** What the invariant needs to know of a process besides what it sleeps on. *)
Definition pview (p : proc) : bool * list Z * Z := (live p, p_locks p, p_pid p).

Definition lock_ok (p : proc) : Prop :=
  length (p_locks p) = MUX_MAXNUM /\ Forall (fun l => l = -1 \/ 0 <= l < Z.of_nat MUX_MAXNUM) (p_locks p).

Record mux_inv (s : mstate) (refs : list Z) (gh : list (nat * nat)) : Prop := {
  mi_len : length (ms_mux s) = MUX_MAXNUM;
  mi_locks : forall i p, ms_procs s !! i = Some p -> live p = true -> lock_ok p;
  mi_count : forall g m, ms_mux s !! g = Some m -> Z.of_nat (occ g refs) <= mx_count m;
  mi_pids : forall i j p q, ms_procs s !! i = Some p -> ms_procs s !! j = Some q ->
    live p = true -> live q = true -> p_pid p = p_pid q -> i = j;
  mi_pos : forall i p, ms_procs s !! i = Some p -> live p = true -> 0 < p_pid p;
  mi_held : forall i g, (i, g) ∈ gh -> exists p m, ms_procs s !! i = Some p /\ live p = true /\
    Z.of_nat g ∈ p_locks p /\ ms_mux s !! g = Some m /\ mx_locked m <> 0 /\ mx_pid m = p_pid p;
  mi_free : forall g m, ms_mux s !! g = Some m -> mx_locked m = 0 -> mx_pid m = 0;
  mi_sleep : forall i p g, ms_procs s !! i = Some p -> p_chan p = ChMutexLock g ->
    live p = true /\ Z.of_nat g ∈ p_locks p
}.

Lemma occ_cons g x refs :
  occ g (x :: refs) = if decide (x = Z.of_nat g) then S (occ g refs) else occ g refs.
Proof. unfold occ. rewrite filter_cons. by case_decide. Qed.

Lemma occ_perm g r1 r2 : r1 ≡ₚ r2 -> occ g r1 = occ g r2.
Proof. intros H. unfold occ. by rewrite H. Qed.

Lemma occ_elem g refs : Z.of_nat g ∈ refs <-> (0 < occ g refs)%nat.
Proof.
  induction refs as [|x refs IH]; [split; [by intros ?%not_elem_of_nil | unfold occ; simpl; lia] |].
  rewrite elem_of_cons, IH, occ_cons. case_decide; [split; intros; [lia | auto] | naive_solver].
Qed.

#[export] Instance mux_inv_perm s : Proper ((≡ₚ) ==> (=) ==> iff) (mux_inv s).
Proof.
  assert (Himpl : forall r1 r2 gh, r1 ≡ₚ r2 -> mux_inv s r1 gh -> mux_inv s r2 gh).
  { intros r1 r2 gh Hp [H1 H2 H3 H4 H5 H6 H7 H8]. split; try done.
    intros g m Hm. rewrite <- (occ_perm g r1 r2 Hp). by apply H3. }
  intros r1 r2 Hp gh _ <-. split; apply Himpl; [done | by symmetry].
Qed.

(** Changes of the process table that keep every process's references. *)
Lemma mux_inv_procs s refs gh pt :
  mux_inv s refs gh ->
  (forall i, pview <$> pt !! i = pview <$> ms_procs s !! i) ->
  (forall i p g, pt !! i = Some p -> p_chan p = ChMutexLock g -> live p = true /\ Z.of_nat g ∈ p_locks p) ->
  mux_inv (with_procs pt s) refs gh.
Proof.
  intros [H1 H2 H3 H4 H5 H6 H7 H8] Hv Hch.
  assert (Hback : forall i p, pt !! i = Some p -> exists q, ms_procs s !! i = Some q /\ pview p = pview q).
  { intros i p Hp. specialize (Hv i). rewrite Hp in Hv. destruct (ms_procs s !! i) as [q|]; [| done].
    exists q. split; [done |]. simpl in Hv. congruence. }
  split; cbn [with_procs ms_mux ms_procs]; try done.
  - intros i p Hp Hl. destruct (Hback i p Hp) as (q & Hq & [= Hlq Hlo _]). unfold lock_ok. rewrite Hlo.
    apply (H2 i q Hq). congruence.
  - intros i j p q Hp Hq Hl1 Hl2 He. destruct (Hback i p Hp) as (p0 & Hp0 & [= Ha _ Hb]).
    destruct (Hback j q Hq) as (q0 & Hq0 & [= Hc _ Hd]). apply (H4 i j p0 q0 Hp0 Hq0); congruence.
  - intros i p Hp Hl. destruct (Hback i p Hp) as (p0 & Hp0 & [= Ha _ ->]). apply (H5 i p0 Hp0). congruence.
  - intros i g Hi. destruct (H6 i g Hi) as (p & m & Hp & Hl & Hr & Hm & Hk & Hpid).
    specialize (Hv i). rewrite Hp in Hv. destruct (pt !! i) as [q|] eqn:Hq; [| done].
    injection Hv as Ha Hb Hc. exists q, m. rewrite Ha, Hb, Hc. done.
Qed.

Lemma pview_fmap (f : proc -> proc) (pt : list proc) :
  (forall p, pview (f p) = pview p) -> forall i : nat, pview <$> (f <$> pt) !! i = pview <$> pt !! i.
Proof. intros Hf i. rewrite list_lookup_fmap. destruct (pt !! i); simpl; [by rewrite Hf | done]. Qed.

Lemma pview_upd (f : proc -> proc) pt j :
  (forall p, pt !! j = Some p -> pview (f p) = pview p) ->
  forall i, pview <$> upd_proc pt j f !! i = pview <$> pt !! i.
Proof.
  intros Hf i. rewrite upd_proc_lookup. case_decide; [subst | done].
  destruct (pt !! i) eqn:Hp; simpl; [by rewrite Hf | done].
Qed.

Lemma wakeup_inv s refs gh c :
  mux_inv s refs gh -> mux_inv (with_procs (wakeup c (ms_procs s)) s) refs gh.
Proof.
  intros Hi. unfold wakeup, wakeup1.
  set (f := fun p => if sleeps_on c p then set_state RUNNABLE p else p).
  assert (Hf : forall p, pview (f p) = pview p /\ p_chan (f p) = p_chan p).
  { intros p. unfold f, sleeps_on. case_bool_decide as Hs; simpl; [| done].
    case_bool_decide; simpl; [| done]. unfold pview, live. simpl. by rewrite Hs. }
  apply mux_inv_procs; [done | apply pview_fmap; apply Hf |].
  intros i p g Hp Hc. rewrite list_lookup_fmap in Hp. destruct (ms_procs s !! i) as [q|] eqn:Hq; [| done].
  injection Hp as <-. destruct (Hf q) as [[= Ha Hb _] Hc']. rewrite Ha, Hb. apply (mi_sleep _ _ _ Hi i q g Hq). congruence.
Qed.

(** A change of one mutex. *)
Lemma mux_inv_upd s refs refs' gh gh' g m m' :
  mux_inv s refs gh -> ms_mux s !! g = Some m ->
  (forall h, h <> g -> occ h refs' = occ h refs) ->
  Z.of_nat (occ g refs') <= mx_count m' ->
  (mx_locked m' = 0 -> mx_pid m' = 0) ->
  (forall i h, (i, h) ∈ gh' -> h <> g -> (i, h) ∈ gh) ->
  (forall i, (i, g) ∈ gh' -> exists p, ms_procs s !! i = Some p /\ live p = true /\
     Z.of_nat g ∈ p_locks p /\ mx_locked m' <> 0 /\ mx_pid m' = p_pid p) ->
  mux_inv (with_mux (<[g := m']> (ms_mux s)) s) refs' gh'.
Proof.
  intros [H1 H2 H3 H4 H5 H6 H7 H8] Hm Hocc Hcnt Hfree Hgh Hown.
  pose proof (lookup_lt_Some _ _ _ Hm) as Hlt.
  split; cbn [with_mux ms_mux ms_procs]; try done.
  - by rewrite length_insert.
  - intros h k Hk. apply list_lookup_insert_Some in Hk as [(<- & <- & _)|[Hne Hk]]; [done |].
    rewrite Hocc by done. by apply H3.
  - intros i h Hi. destruct (decide (h = g)) as [->|Hne].
    + destruct (Hown i Hi) as (p & Hp & Hl & Hr & Hk & Hpid). exists p, m'.
      rewrite list_lookup_insert_eq by done. done.
    + destruct (H6 i h (Hgh i h Hi Hne)) as (p & k & Hp & Hl & Hr & Hk & Hkl & Hpid). exists p, k.
      rewrite list_lookup_insert_ne by done. done.
  - intros h k Hk. apply list_lookup_insert_Some in Hk as [(<- & <- & _)|[_ Hk]]; [done | eauto].
Qed.

Lemma mux_at_spec s g m (Q : mutex -> mstate -> Prop) :
  ms_mux s !! g = Some m -> Q m s -> runs (mux_at (Z.of_nat g)) s Q.
Proof. intros Hm HQ. exists m, s. unfold mux_at. by rewrite (arr_get_nat _ _ _ Hm). Qed.

Lemma upd_mux_spec s g m f (Q : unit -> mstate -> Prop) :
  ms_mux s !! g = Some m -> Q tt (with_mux (<[g := f m]> (ms_mux s)) s) -> runs (upd_mux (Z.of_nat g) f) s Q.
Proof.
  intros Hm HQ. eexists tt, _. unfold upd_mux. rewrite (arr_get_nat _ _ _ Hm). cbn [rbind].
  pose proof (lookup_lt_Some _ _ _ Hm). rewrite arr_set_in by lia. cbn [rbind]. by rewrite Nat2Z.id.
Qed.

Lemma cur_proc_spec s i p (Q : proc -> mstate -> Prop) :
  ms_procs s !! i = Some p -> Q p s -> runs (cur_proc i) s Q.
Proof. intros Hp HQ. exists p, s. unfold cur_proc, proc_at. by rewrite Hp. Qed.

Lemma lock_at_spec s p muxid l (Q : Z -> mstate -> Prop) :
  bad_muxid muxid = false -> p_locks p !! Z.to_nat muxid = Some l -> Q l s -> runs (lock_at p muxid) s Q.
Proof.
  intros Hb Hl HQ. apply runs_lift with l; [| done]. apply arr_get_Ok. unfold bad_muxid in Hb.
  apply orb_false_iff in Hb as [Hb _]. apply Z.ltb_ge in Hb. done.
Qed.

(** The slot a valid [muxid] names, and the mutex it refers to. *)
Lemma slot_spec s refs gh i p muxid :
  mux_inv s refs gh -> ms_procs s !! i = Some p -> live p = true -> bad_muxid muxid = false ->
  exists l, p_locks p !! Z.to_nat muxid = Some l /\
    (l <> -1 -> exists g m, l = Z.of_nat g /\ ms_mux s !! g = Some m).
Proof.
  intros Hi Hp Hlive Hb. destruct (mi_locks _ _ _ Hi _ _ Hp Hlive) as [Hlen Hall].
  unfold bad_muxid in Hb. apply orb_false_iff in Hb as [Hb1 Hb2]. apply Z.ltb_ge in Hb1. apply Z.leb_gt in Hb2.
  destruct (lookup_lt_is_Some_2 (p_locks p) (Z.to_nat muxid)) as [l Hl]; [lia |]. exists l. split; [done |].
  intros Hne. pose proof (Forall_lookup_1 _ _ _ _ Hall Hl) as [|Hr]; [done |]. exists (Z.to_nat l).
  destruct (lookup_lt_is_Some_2 (ms_mux s) (Z.to_nat l)) as [m Hm]; [rewrite (mi_len _ _ _ Hi); lia |].
  exists m. split; [lia | done].
Qed.

(** No one believes to hold a mutex that is free, or whose holder is another. *)
Lemma held_locked s refs gh i g m :
  mux_inv s refs gh -> ms_mux s !! g = Some m -> (i, g) ∈ gh -> mx_locked m <> 0.
Proof. intros Hi Hm Hin. destruct (mi_held _ _ _ Hi _ _ Hin) as (p & k & _ & _ & _ & Hk & Hl & _). congruence. Qed.

Lemma held_owner s refs gh i j g m p :
  mux_inv s refs gh -> ms_mux s !! g = Some m -> (i, g) ∈ gh ->
  ms_procs s !! j = Some p -> live p = true -> mx_pid m = p_pid p -> i = j.
Proof.
  intros Hi Hm Hin Hp Hl He. destruct (mi_held _ _ _ Hi _ _ Hin) as (q & k & Hq & Hlq & _ & Hk & _ & Hpid).
  apply (mi_pids _ _ _ Hi i j q p); try done. congruence.
Qed.

Definition drop_holder (i g : nat) (gh : list (nat * nat)) : list (nat * nat) :=
  filter (fun x => x <> (i, g)) gh.

Lemma elem_drop_holder i g j h gh : (j, h) ∈ drop_holder i g gh <-> (j, h) ∈ gh /\ (j, h) <> (i, g).
Proof. unfold drop_holder. rewrite list_elem_of_filter. tauto. Qed.

(** ** Specifications *)

(** The fields of the processes that the mutex calls never change. *)
Definition same_view (s s' : mstate) : Prop :=
  forall i, pview <$> ms_procs s' !! i = pview <$> ms_procs s !! i.

Lemma releasesleep_spec s refs gh i p g m :
  mux_inv s refs gh -> ms_procs s !! i = Some p -> live p = true ->
  ms_mux s !! g = Some m -> mx_pid m = p_pid p ->
  runs (releasesleep (Z.of_nat g)) s (fun _ s' =>
    mux_inv s' refs (drop_holder i g gh) /\ ms_mux s' = <[g := mset_slp 0 0 m]> (ms_mux s) /\
    ms_procs s' = wakeup (ChMutexLock g) (ms_procs s)).
Proof.
  intros Hi Hp Hl Hm Hpid. unfold releasesleep. apply runs_bind.
  eapply upd_mux_spec; [done |]. apply runs_modify. rewrite Nat2Z.id. split; [| done].
  apply wakeup_inv. eapply mux_inv_upd; try done.
  - exact (mi_count _ _ _ Hi g m Hm).
  - intros j h Hin _. by apply elem_drop_holder in Hin as [? _].
  - intros j [Hin Hne]%elem_drop_holder. destruct Hne. f_equal. by eapply held_owner.
Qed.

Lemma acquiresleep_spec s refs gh i p g m :
  mux_inv s refs gh -> ms_procs s !! i = Some p -> live p = true ->
  ms_mux s !! g = Some m -> Z.of_nat g ∈ p_locks p ->
  runs (acquiresleep i (Z.of_nat g)) s (fun r s' =>
    same_view s s' /\
    (if r then mux_inv s' refs ((i, g) :: gh) /\ mx_locked m = 0
     else mux_inv s' refs gh /\ mx_locked m <> 0)).
Proof.
  intros Hi Hp Hl Hm Hin. unfold acquiresleep. apply runs_bind, (cur_proc_spec _ _ _ _ Hp).
  apply runs_bind, (mux_at_spec _ _ _ _ Hm). destruct (Z.eqb_spec (mx_locked m) 0) as [Hz|Hz]; cbn [negb].
  - apply runs_bind. eapply upd_mux_spec; [done |]. apply runs_ret. split; [done |]. split; [| done].
    eapply mux_inv_upd; try done.
    + exact (mi_count _ _ _ Hi g m Hm).
    + intros j h [Hjh|Hjh]%elem_of_cons Hne; [| done]. congruence.
    + intros j [Hj|Hj]%elem_of_cons; [injection Hj as -> | by pose proof (held_locked _ _ _ _ _ _ Hi Hm Hj)].
      exists p. done.
  - apply runs_bind, runs_modify, runs_ret. rewrite Nat2Z.id.
    set (f := fun p => set_state SLEEPING (set_chan (ChMutexLock g) p)).
    assert (Hv : forall q, ms_procs s !! i = Some q -> pview (f q) = pview q).
    { intros q Hq. assert (q = p) as -> by congruence. unfold pview, live in *. simpl. rewrite Hl. done. }
    pose proof (pview_upd f (ms_procs s) i Hv) as Hpv.
    split; [exact Hpv |]. split; [| done]. apply mux_inv_procs; [done | exact Hpv |].
    intros j q h Hq Hc. unfold sleep in Hq. rewrite upd_proc_lookup in Hq. case_decide.
    + subst j. rewrite Hp in Hq. injection Hq as <-. simpl in Hc. injection Hc as <-. split; [done | done].
    + by eapply (mi_sleep _ _ _ Hi).
Qed.

Definition mux_ok (s : mstate) (gh : list (nat * nat)) : Prop := mux_inv s (all_locks s) gh.

Lemma same_view_locks s s' : same_view s s' -> all_locks s' = all_locks s.
Proof.
  intros Hv. unfold all_locks. f_equal. apply list_eq. intros i. rewrite !list_lookup_fmap.
  specialize (Hv i). destruct (ms_procs s' !! i) as [p|], (ms_procs s !! i) as [q|]; try done.
  injection Hv as Hl Hk _. simpl. unfold live_locks. by rewrite Hl, Hk.
Qed.

Lemma wakeup_view s c : same_view s (with_procs (wakeup c (ms_procs s)) s).
Proof.
  intros i. unfold wakeup, wakeup1. cbn [ms_procs with_procs].
  apply pview_fmap. intros p. unfold sleeps_on. case_bool_decide as Hs; simpl; [| done].
  case_bool_decide; simpl; [| done]. unfold pview, live. simpl. by rewrite Hs.
Qed.

Lemma lock_in_all s i p l : ms_procs s !! i = Some p -> live p = true -> l ∈ p_locks p -> l ∈ all_locks s.
Proof.
  intros Hp Hl Hin. unfold all_locks. apply list_elem_of_In, in_concat. exists (p_locks p).
  split; [| by apply list_elem_of_In]. apply list_elem_of_In, list_elem_of_lookup. exists i.
  rewrite list_lookup_fmap, Hp. unfold live_locks. simpl. by rewrite Hl.
Qed.

(** The global id in slot [muxid] of process [i]. *)
Definition gslot (s : mstate) (i : nat) (muxid : Z) : nat :=
  Z.to_nat (default 0 (ms_procs s !! i ≫= fun p => p_locks p !! Z.to_nat muxid)).

Lemma gslot_eq s i p muxid g :
  ms_procs s !! i = Some p -> p_locks p !! Z.to_nat muxid = Some (Z.of_nat g) -> gslot s i muxid = g.
Proof. intros Hp Hl. unfold gslot. rewrite Hp. simpl. rewrite Hl. simpl. lia. Qed.

(** The common beginning of the calls on a slot: either they fail at once or
    the slot refers to a mutex. *)
Lemma with_slot {A} s gh i p muxid (fail : A) (k : proc -> Z -> ST mstate A) Q :
  mux_ok s gh -> ms_procs s !! i = Some p -> live p = true -> Q fail s ->
  (forall g m, p_locks p !! Z.to_nat muxid = Some (Z.of_nat g) -> ms_mux s !! g = Some m ->
     runs (k p (Z.of_nat g)) s Q) ->
  runs (if bad_muxid muxid then ret fail
        else let* p := cur_proc i in let* g := lock_at p muxid in
             if g =? -1 then ret fail else k p g) s Q.
Proof.
  intros Hi Hp Hl HQ Hk. destruct (bad_muxid muxid) eqn:Hb; [by apply runs_ret |].
  apply runs_bind, (cur_proc_spec _ _ _ _ Hp).
  destruct (slot_spec _ _ _ _ _ muxid Hi Hp Hl Hb) as (l & Hlk & Hg).
  apply runs_bind, (lock_at_spec _ _ _ _ _ Hb Hlk). destruct (Z.eqb_spec l (-1)); [by apply runs_ret |].
  destruct Hg as (g & m & -> & Hm); [done |]. by eapply Hk.
Qed.

Lemma same_view_at s s' i p :
  same_view s s' -> ms_procs s !! i = Some p ->
  exists p', ms_procs s' !! i = Some p' /\ live p' = live p /\ p_locks p' = p_locks p /\ p_pid p' = p_pid p.
Proof.
  intros Hv Hp. specialize (Hv i). rewrite Hp in Hv. destruct (ms_procs s' !! i) as [p'|]; [| done].
  injection Hv as H1 H2 H3. by exists p'.
Qed.

Lemma mutex_unlock_spec s gh i p muxid :
  mux_ok s gh -> ms_procs s !! i = Some p -> live p = true ->
  runs (mutex_unlock i muxid) s (fun r s' =>
    (r = -1 /\ s' = s) \/
    (r = 0 /\ same_view s s' /\ mux_ok s' (drop_holder i (gslot s i muxid) gh) /\
     ms_procs s' = wakeup (ChMutexLock (gslot s i muxid)) (ms_procs s) /\
     exists m, ms_mux s !! gslot s i muxid = Some m /\ mx_pid m = p_pid p /\
       ms_mux s' = <[gslot s i muxid := mset_slp 0 0 m]> (ms_mux s))).
Proof.
  intros Hi Hp Hl. unfold mutex_unlock.
  eapply (with_slot s gh i p muxid (-1) (fun p g => let* m := mux_at g in
    if negb (mx_pid m =? p_pid p) then ret (-1) else releasesleep g ;;; ret 0)); try done; [by left |].
  intros g m Hs Hm. rewrite (gslot_eq _ _ _ _ _ Hp Hs). apply runs_bind, (mux_at_spec _ _ _ _ Hm).
  destruct (Z.eqb_spec (mx_pid m) (p_pid p)) as [He|He]; cbn [negb]; [| apply runs_ret; by left].
  apply runs_bind. eapply runs_mono; [by eapply releasesleep_spec |]. intros [] s' (Hi' & Hmux & Hpt).
  assert (Hv : same_view s s') by (intros j; rewrite Hpt; apply (wakeup_view s)).
  apply runs_ret. right. split; [done |]. split; [done |]. split; [| by split; [| exists m]].
  unfold mux_ok. by rewrite (same_view_locks _ _ Hv).
Qed.

Lemma mutex_lock_spec s gh i p muxid :
  mux_ok s gh -> ms_procs s !! i = Some p -> live p = true ->
  runs (mutex_lock i muxid) s (fun r s' => same_view s s' /\
    match r with
    | Some r => (r = -1 /\ s' = s) \/ (r = 0 /\ mux_ok s' ((i, gslot s i muxid) :: gh))
    | None => mux_ok s' gh /\ exists m, ms_mux s !! gslot s i muxid = Some m /\ mx_locked m <> 0
    end).
Proof.
  intros Hi Hp Hl. unfold mutex_lock.
  eapply (with_slot s gh i p muxid (Some (-1)) (fun p g => let* m := mux_at g in
    if mx_pid m =? p_pid p then ret (Some (-1))
    else let* got := acquiresleep i g in ret (if got then Some 0 else None))); try done; [by split; [| left] |].
  intros g m Hs Hm. rewrite (gslot_eq _ _ _ _ _ Hp Hs). apply runs_bind, (mux_at_spec _ _ _ _ Hm).
  destruct (Z.eqb_spec (mx_pid m) (p_pid p)) as [He|He]; [apply runs_ret; by split; [| left] |].
  assert (Hin : Z.of_nat g ∈ p_locks p) by (by eapply list_elem_of_lookup_2).
  apply runs_bind. eapply runs_mono; [by eapply acquiresleep_spec |].
  intros got s' [Hv Hr]. apply runs_ret. split; [done |]. destruct got, Hr as [Hr Hk].
  - right. split; [done |]. unfold mux_ok. by rewrite (same_view_locks _ _ Hv).
  - split; [| by exists m]. unfold mux_ok. by rewrite (same_view_locks _ _ Hv).
Qed.

(** Coming out of [sleep]. *)
Lemma sleep_done_spec s gh i :
  mux_ok s gh -> let s' := with_procs (sleep_done i (ms_procs s)) s in mux_ok s' gh /\ same_view s s'.
Proof.
  intros Hi s'. assert (Hv : same_view s s') by (intros j; unfold s', sleep_done; cbn; by apply pview_upd).
  split; [| done]. unfold mux_ok. rewrite (same_view_locks _ _ Hv). apply mux_inv_procs; [done | apply Hv |].
  intros j q g Hq Hc. unfold sleep_done in Hq. rewrite upd_proc_lookup in Hq. case_decide; [| by eapply (mi_sleep _ _ _ Hi)].
  destruct (ms_procs s !! j); [| done]. injection Hq as <-. done.
Qed.

Lemma mutex_lock_resume_spec s gh i p g :
  mux_ok s gh -> ms_procs s !! i = Some p -> p_chan p = ChMutexLock g ->
  runs (mutex_lock_resume i (Z.of_nat g)) s (fun r s' => same_view s s' /\
    match r with
    | Some r => r = 0 /\ mux_ok s' ((i, g) :: gh)
    | None => mux_ok s' gh
    end).
Proof.
  intros Hi Hp Hc. destruct (mi_sleep _ _ _ Hi _ _ _ Hp Hc) as [Hl Hin].
  destruct (sleep_done_spec s gh i Hi) as [Hi1 Hv1]. set (s1 := with_procs _ s) in *.
  unfold mutex_lock_resume. apply runs_bind, runs_modify, runs_bind. fold s1.
  destruct (same_view_at _ _ _ _ Hv1 Hp) as (p1 & Hp1 & Hl1 & Hk1 & _). rewrite <- Hl1 in Hl. rewrite <- Hk1 in Hin.
  destruct (mi_locks _ _ _ Hi1 _ _ Hp1 Hl) as [_ Hall].
  assert (Hm : exists m, ms_mux s1 !! g = Some m).
  { apply lookup_lt_is_Some_2. rewrite (mi_len _ _ _ Hi1). rewrite Forall_forall in Hall.
    destruct (Hall _ Hin); lia. }
  destruct Hm as [m Hm]. eapply runs_mono; [by eapply acquiresleep_spec |].
  intros got s' [Hv Hr]. apply runs_ret. assert (Hv' : same_view s s') by (intros j; by rewrite (Hv j), (Hv1 j)).
  split; [done |]. destruct got, Hr as [Hr _]; [split; [done |] |]; unfold mux_ok; by rewrite (same_view_locks _ _ Hv).
Qed.

Lemma mux_inv_sub s refs gh gh' : (forall x, x ∈ gh' -> x ∈ gh) -> mux_inv s refs gh -> mux_inv s refs gh'.
Proof. intros Hs [H1 H2 H3 H4 H5 H6 H7 H8]. split; try done. intros i g Hi. by apply H6, Hs. Qed.

(** Replacing the reference [l] in slot [k] of process [i] by [v]. *)
Lemma all_locks_set s i p k l v :
  ms_procs s !! i = Some p -> live p = true -> p_locks p !! k = Some l ->
  l :: all_locks (with_procs (upd_proc (ms_procs s) i (fun p => set_locks (<[k := v]> (p_locks p)) p)) s) ≡ₚ
  v :: all_locks s.
Proof.
  intros Hp Hl Hk. pose proof (concat_alter_perm live_locks (fun p => set_locks (<[k := v]> (p_locks p)) p) _ _ _ Hp) as H.
  unfold live_locks in H at 1 3. change (live (set_locks _ p)) with (live p) in H. rewrite Hl in H. cbn [p_locks set_locks] in H.
  rewrite (insert_take_drop _ _ _ (lookup_lt_Some _ _ _ Hk)) in H.
  rewrite <- (take_drop_middle (p_locks p) k l Hk) in H at 1. rewrite <- !app_assoc in H. cbn [app] in H.
  apply (Permutation_app_inv_l (take k (p_locks p) ++ drop (S k) (p_locks p))).
  etrans; [| etrans; [exact H |]]; solve_Permutation.
Qed.

(** A process that is not asleep changes its own references. *)
Lemma mux_inv_locks s refs gh i p ls :
  mux_inv s refs gh -> ms_procs s !! i = Some p -> p_chan p = ChNone -> lock_ok (set_locks ls p) ->
  (forall g, (i, g) ∈ gh -> Z.of_nat g ∈ ls) ->
  mux_inv (with_procs (upd_proc (ms_procs s) i (set_locks ls)) s) refs gh.
Proof.
  intros [H1 H2 H3 H4 H5 H6 H7 H8] Hp Hc Hok Hgh.
  assert (Hat : forall j q, upd_proc (ms_procs s) i (set_locks ls) !! j = Some q ->
    (j = i /\ q = set_locks ls p) \/ (j <> i /\ ms_procs s !! j = Some q)).
  { intros j q. rewrite upd_proc_lookup. case_decide; [subst; rewrite Hp; intros [= <-]; auto | auto]. }
  assert (Hold : forall j q, upd_proc (ms_procs s) i (set_locks ls) !! j = Some q ->
    exists q0, ms_procs s !! j = Some q0 /\ live q = live q0 /\ p_pid q = p_pid q0).
  { intros j q Hq. destruct (Hat j q Hq) as [[-> ->]|[_ Hq']]; eauto. }
  split; cbn [with_procs ms_mux ms_procs]; try done.
  - intros j q Hq Hl. destruct (Hat j q Hq) as [[-> ->]|[_ Hq']]; eauto.
  - intros j1 j2 q1 q2 Hq1 Hq2 Hl1 Hl2 He. destruct (Hold _ _ Hq1) as (a & Ha & Hla & Hpa).
    destruct (Hold _ _ Hq2) as (b & Hb & Hlb & Hpb). apply (H4 j1 j2 a b); congruence.
  - intros j q Hq Hl. destruct (Hold _ _ Hq) as (a & Ha & Hla & ->). apply (H5 j a Ha). congruence.
  - intros j g Hg. destruct (H6 j g Hg) as (q & m & Hq & Hl & Hin & Hm). destruct (decide (j = i)) as [->|Hne].
    + assert (q = p) as -> by congruence. exists (set_locks ls p), m. rewrite upd_proc_lookup, decide_True, Hp by done.
      split; [done |]. split; [done |]. split; [by apply Hgh | done].
    + exists q, m. rewrite upd_proc_lookup, decide_False by done. done.
  - intros j q g Hq Hcq. destruct (Hat j q Hq) as [[-> ->]|[_ Hq']]; [simpl in Hcq; congruence | eauto].
Qed.

Lemma occ_other g x refs : x <> Z.of_nat g -> occ g (x :: refs) = occ g refs.
Proof. intros H. rewrite occ_cons. by rewrite decide_False. Qed.

Lemma upd_set_locks pt i p (f : list Z -> list Z) :
  pt !! i = Some p ->
  upd_proc pt i (fun q => set_locks (f (p_locks q)) q) = upd_proc pt i (set_locks (f (p_locks p))).
Proof. intros Hp. unfold upd_proc. by rewrite !(list_alter_lookup_insert _ _ _ _ Hp). Qed.

(** Dropping one counted reference of process [i]. *)
Lemma mux_ok_unref s gh i p k g m :
  mux_ok s gh -> ms_procs s !! i = Some p -> live p = true -> p_chan p = ChNone ->
  p_locks p !! k = Some (Z.of_nat g) -> ms_mux s !! g = Some m -> (i, g) ∉ gh ->
  mux_ok (with_procs (upd_proc (ms_procs s) i (fun p => set_locks (<[k := -1]> (p_locks p)) p))
    (with_mux (<[g := mset_count (mx_count m - 1) m]> (ms_mux s)) s)) gh.
Proof.
  intros Hi Hp Hl Hc Hk Hm Hnot. unfold mux_ok.
  pose proof (all_locks_set s i p k (Z.of_nat g) (-1) Hp Hl Hk) as Hperm.
  set (refs' := all_locks (with_procs _ s)) in Hperm.
  change (all_locks (with_procs _ (with_mux _ s))) with refs'.
  assert (Hocc : forall h, occ h (all_locks s) = if decide (h = g) then S (occ h refs') else occ h refs').
  { intros h. rewrite <- (occ_other h (-1)), <- (occ_perm _ _ _ Hperm), occ_cons by lia.
    repeat case_decide; (done || lia). }
  rewrite (upd_set_locks _ _ p (fun l => <[k := -1]> l)) by done.
  change (with_procs (upd_proc (ms_procs s) i ?f) (with_mux ?mx s)) with (with_procs (upd_proc (ms_procs (with_mux mx s)) i f) (with_mux mx s)).
  eapply mux_inv_locks; [| exact Hp | done | |].
  - eapply mux_inv_upd; try done.
    + intros h Hh. by rewrite Hocc, decide_False.
    + pose proof (mi_count _ _ _ Hi g m Hm) as Hcnt. rewrite Hocc, decide_True in Hcnt by done. simpl. lia.
    + exact (mi_free _ _ _ Hi g m Hm).
    + intros j Hj. destruct (mi_held _ _ _ Hi j g Hj) as (q & m0 & Hq & Hlq & Hin & Hm0 & Hlk & Hpid).
      exists q. simpl. assert (m0 = m) as -> by congruence. done.
  - destruct (mi_locks _ _ _ Hi _ _ Hp Hl) as [Hlen Hall]. split; cbn [p_locks set_locks].
    + by rewrite length_insert.
    + apply Forall_insert; [done | by left].
  - intros h Hh. destruct (mi_held _ _ _ Hi i h Hh) as (q & m0 & Hq & _ & Hin & _).
    assert (q = p) as -> by congruence. apply list_elem_of_lookup in Hin as [j Hj].
    apply list_elem_of_lookup. exists j. rewrite list_lookup_insert_ne; [done |]. intros ->.
    assert (h = g) as -> by (rewrite Hk in Hj; injection Hj; lia). done.
Qed.

Lemma mutex_delete_spec s gh i p muxid :
  mux_ok s gh -> ms_procs s !! i = Some p -> live p = true -> p_chan p = ChNone -> p_state p <> SLEEPING ->
  runs (mutex_delete i muxid) s (fun r s' =>
    (r = -1 /\ s' = s) \/ (r = 0 /\ mux_ok s' (drop_holder i (gslot s i muxid) gh))).
Proof.
  intros Hi Hp Hl Hc Hst. unfold mutex_delete.
  eapply (with_slot s gh i p muxid (-1) (fun p g => let* m := mux_at g in
    (if mx_pid m =? p_pid p then mutex_unlock i muxid ;;; ret tt else ret tt) ;;;
    upd_mux g (fun m => mset_count (mx_count m - 1) m) ;;;
    upd_cur i (fun p => set_locks (<[Z.to_nat muxid := -1]> (p_locks p)) p) ;;; ret 0)); try done; [by left |].
  intros g m Hs Hm. pose proof (gslot_eq _ _ _ _ _ Hp Hs) as Hg. rewrite Hg.
  apply runs_bind, (mux_at_spec _ _ _ _ Hm), runs_bind.
  assert (Hrest : forall s1, mux_ok s1 (drop_holder i g gh) -> ms_procs s1 !! i = Some p -> is_Some (ms_mux s1 !! g) ->
    runs (upd_mux (Z.of_nat g) (fun m => mset_count (mx_count m - 1) m) ;;;
      upd_cur i (fun p => set_locks (<[Z.to_nat muxid := -1]> (p_locks p)) p) ;;; ret 0) s1
      (fun r s' => (r = -1 /\ s' = s) \/ (r = 0 /\ mux_ok s' (drop_holder i g gh)))).
  { intros s1 Hi1 Hp1 [m1 Hm1]. apply runs_bind. eapply upd_mux_spec; [done |].
    apply runs_bind, runs_modify, runs_ret. right. split; [done |].
    apply (mux_ok_unref s1 (drop_holder i g gh) i p (Z.to_nat muxid) g m1); try done.
    rewrite elem_drop_holder. by intros [_ []]. }
  destruct (Z.eqb_spec (mx_pid m) (p_pid p)) as [He|He].
  - apply runs_bind. eapply runs_mono; [by eapply mutex_unlock_spec |]. intros r s1 Hr. apply runs_ret.
    rewrite Hg in Hr. destruct Hr as [[_ ->]|(_ & Hv & Hi1 & Hpt & m1 & Hm1 & _ & Hmux)].
    + apply Hrest; [| done | by exists m]. eapply mux_inv_sub; [| exact Hi]. by intros [a b] [? _]%elem_drop_holder.
    + apply Hrest; [done | rewrite Hpt; by apply wakeup_awake |]. rewrite Hmux. eexists.
      apply list_lookup_insert_eq. by eapply lookup_lt_Some.
  - apply runs_ret. apply Hrest; [| done | by exists m]. eapply mux_inv_sub; [| exact Hi].
    by intros [a b] [? _]%elem_drop_holder.
Qed.

(** A mutex nobody refers to is set up afresh, and slot [k] of process [i]
    made to refer to it. *)
Lemma mux_ok_fresh s gh i p g m m' :
  mux_ok s gh -> ms_mux s !! g = Some m -> mx_count m = 0 ->
  mx_count m' = 1 -> mx_locked m' = 0 -> mx_pid m' = 0 ->
  ms_procs s !! i = Some p -> live p = true -> p_chan p = ChNone ->
  let s1 := with_mux (<[g := m']> (ms_mux s)) s in
  mux_ok s1 gh /\
  (forall k, p_locks p !! k = Some (-1) ->
     mux_ok (with_procs (upd_proc (ms_procs s) i (fun p => set_locks (<[k := Z.of_nat g]> (p_locks p)) p)) s1) gh).
Proof.
  intros Hi Hm Hc0 Hc1 Hlk Hpid Hp Hl Hc s1.
  pose proof (mi_count _ _ _ Hi g m Hm) as Hocc.
  assert (Hno : forall j, (j, g) ∉ gh).
  { intros j Hj. destruct (mi_held _ _ _ Hi j g Hj) as (q & _ & Hq & Hlq & Hin & _).
    pose proof (lock_in_all _ _ _ _ Hq Hlq Hin) as Hall. apply occ_elem in Hall. lia. }
  split.
  - unfold mux_ok. change (all_locks s1) with (all_locks s).
    eapply mux_inv_upd; try done; [lia |]. intros j Hj. by apply Hno in Hj.
  - intros k Hk. unfold mux_ok. pose proof (all_locks_set s i p k (-1) (Z.of_nat g) Hp Hl Hk) as Hperm.
    set (refs' := all_locks (with_procs _ s)) in Hperm. change (all_locks (with_procs _ s1)) with refs'.
    assert (Hocc' : forall h, occ h refs' = if decide (h = g) then S (occ h (all_locks s)) else occ h (all_locks s)).
    { intros h. rewrite <- (occ_other h (-1)), (occ_perm _ _ _ Hperm), occ_cons by lia.
      repeat case_decide; (done || lia). }
    rewrite (upd_set_locks _ _ p (fun l => <[k := Z.of_nat g]> l)) by done.
    change (ms_procs s) with (ms_procs s1). destruct (mi_locks _ _ _ Hi _ _ Hp Hl) as [Hlen Hall].
    eapply mux_inv_locks; [| exact Hp | done | |].
    + eapply mux_inv_upd; try done.
      * intros h Hh. by rewrite Hocc', decide_False.
      * rewrite Hocc', decide_True by done. lia.
      * intros j Hj. by apply Hno in Hj.
    + split; cbn [p_locks set_locks]; [by rewrite length_insert |]. apply Forall_insert; [done |].
      right. pose proof (lookup_lt_Some _ _ _ Hm) as Hlt. rewrite (mi_len _ _ _ Hi) in Hlt. lia.
    + intros h Hh. destruct (mi_held _ _ _ Hi i h Hh) as (q & m0 & Hq & _ & Hin & _).
      assert (q = p) as -> by congruence. apply list_elem_of_lookup in Hin as [j Hj].
      apply list_elem_of_lookup. exists j. rewrite list_lookup_insert_ne; [done |]. intros ->.
      rewrite Hk in Hj. injection Hj. lia.
Qed.

Lemma mutex_create_spec s gh i p name :
  mux_ok s gh -> ms_procs s !! i = Some p -> live p = true -> p_chan p = ChNone -> (length name <= 128)%nat ->
  runs (mutex_create i name) s (fun r s' => mux_ok s' gh).
Proof.
  intros Hi Hp Hl Hc Hlen. unfold mutex_create. apply runs_bind, runs_get.
  destruct (find_from _ (ms_mux s) 0) as [g|] eqn:Hf; [| by apply runs_ret].
  apply find_from_Some in Hf as (g' & m & -> & Hm & Hz & _). apply Z.eqb_eq in Hz. simpl.
  apply runs_bind, (mux_at_spec _ _ _ _ Hm), runs_bind.
  apply runs_lift with (name ++ drop (length name) (mx_name m)).
  { unfold copy_name. by rewrite (proj2 (Nat.leb_le _ _) Hlen). }
  apply runs_bind. eapply upd_mux_spec; [done |]. set (m1 := mset_name _ _).
  set (s1 := with_mux (<[g' := m1]> (ms_mux s)) s).
  destruct (mux_ok_fresh s gh i p g' m (mset_slp 0 0 m1) Hi Hm Hz) as [H1 H2]; try done; [simpl; lia |].
  assert (Hset : forall pt, runs (upd_mux (Z.of_nat g') (mset_slp 0 0)) (with_procs pt s1)
    (fun _ s' => s' = with_procs pt (with_mux (<[g' := mset_slp 0 0 m1]> (ms_mux s)) s))).
  { intros pt. eapply upd_mux_spec; [apply list_lookup_insert_eq; by eapply lookup_lt_Some |].
    unfold s1, with_mux, with_procs. simpl. by rewrite list_insert_insert_eq. }
  apply runs_bind, (cur_proc_spec _ i p); [done |]. apply runs_bind.
  destruct (find_from _ (p_locks p) 0) as [k|] eqn:Hk.
  - apply find_from_Some in Hk as (k' & l & -> & Hlk & Hm1 & _). apply Z.eqb_eq in Hm1 as ->. simpl.
    apply runs_bind, runs_modify, runs_ret, runs_bind.
    eapply runs_mono; [apply Hset |]. intros [] s2 ->. apply runs_ret. by apply H2.
  - apply runs_ret, runs_bind. eapply runs_mono; [apply (Hset (ms_procs s)) |]. intros [] s2 ->. by apply runs_ret.
Qed.

(** Going to sleep on something else than a mutex's lock. *)
Lemma sleep_other s gh i p c :
  mux_ok s gh -> ms_procs s !! i = Some p -> live p = true -> (forall g, c <> ChMutexLock g) ->
  mux_ok (with_procs (sleep i c (ms_procs s)) s) gh.
Proof.
  intros Hi Hp Hl Hc. set (s' := with_procs _ s).
  assert (Hv : same_view s s').
  { intros j. unfold s', sleep. cbn. apply (pview_upd (fun p => set_state SLEEPING (set_chan c p))).
    intros q Hq. assert (q = p) as -> by congruence. unfold pview, live in *. simpl. by rewrite Hl. }
  unfold mux_ok. rewrite (same_view_locks _ _ Hv). apply mux_inv_procs; [done | apply Hv |].
  intros j q g Hq Hcq. unfold sleep in Hq. rewrite upd_proc_lookup in Hq. case_decide; [| by eapply (mi_sleep _ _ _ Hi)].
  subst. rewrite Hp in Hq. injection Hq as <-. by destruct (Hc g).
Qed.

(** A change of a mutex that leaves its count and lock alone. *)
Lemma mux_ok_aux s gh g m m' :
  mux_ok s gh -> ms_mux s !! g = Some m -> mx_count m' = mx_count m -> mx_locked m' = mx_locked m ->
  mx_pid m' = mx_pid m -> mux_ok (with_mux (<[g := m']> (ms_mux s)) s) gh.
Proof.
  intros Hi Hm H1 H2 H3. unfold mux_ok. change (all_locks (with_mux _ s)) with (all_locks s).
  eapply mux_inv_upd; try done.
  - rewrite H1. exact (mi_count _ _ _ Hi g m Hm).
  - rewrite H2, H3. exact (mi_free _ _ _ Hi g m Hm).
  - intros j Hj. destruct (mi_held _ _ _ Hi j g Hj) as (q & m0 & Hq & Hlq & Hin & Hm0 & Hlk & Hpid).
    assert (m0 = m) as -> by congruence. exists q. by rewrite H2, H3.
Qed.

Lemma cv_wait_turn_spec s gh i p muxid g m :
  mux_ok s gh -> ms_procs s !! i = Some p -> live p = true -> ms_mux s !! g = Some m ->
  gslot s i muxid = g ->
  runs (cv_wait_turn i muxid (Z.of_nat g)) s (fun r s' =>
    match r with Some _ => mux_ok s' gh | None => mux_ok s' (drop_holder i g gh) end).
Proof.
  intros Hi Hp Hl Hm Hg. unfold cv_wait_turn. apply runs_bind, (mux_at_spec _ _ _ _ Hm).
  destruct (mx_cv_count m =? 0).
  - apply runs_bind. eapply runs_mono; [by eapply mutex_unlock_spec |]. rewrite Hg. intros r s1 Hr.
    apply runs_bind, runs_modify, runs_ret. destruct Hr as [[_ ->]|(_ & Hv & Hi1 & _)].
    + eapply sleep_other; try done. eapply mux_inv_sub; [| exact Hi]. by intros [a b] [? _]%elem_drop_holder.
    + destruct (same_view_at _ _ _ _ Hv Hp) as (p1 & Hp1 & Hl1 & _). eapply sleep_other; try done. congruence.
  - apply runs_bind. eapply upd_mux_spec; [done |]. apply runs_ret. by eapply mux_ok_aux.
Qed.

Lemma cv_wait_spec s gh i p muxid :
  mux_ok s gh -> ms_procs s !! i = Some p -> live p = true ->
  (forall m, ms_mux s !! gslot s i muxid = Some m -> p_pid p < Z.of_nat (length (mx_waiting m))) ->
  runs (cv_wait i muxid) s (fun r s' =>
    match r with Some _ => mux_ok s' gh | None => mux_ok s' (drop_holder i (gslot s i muxid) gh) end).
Proof.
  intros Hi Hp Hl Hw. unfold cv_wait.
  eapply (with_slot s gh i p muxid (Some (-1)) (fun p g => let* m := mux_at g in
      if negb (mx_pid m =? p_pid p) then ret (Some (-1))
      else let* w := lift (arr_set (mx_waiting m) (p_pid p) 1) in
        upd_mux g (mset_waiting w) ;;; cv_wait_turn i muxid g)); try done.
  intros g m Hs Hm. pose proof (gslot_eq _ _ _ _ _ Hp Hs) as Hg. rewrite Hg in *.
  apply runs_bind, (mux_at_spec _ _ _ _ Hm). destruct (negb _); [by apply runs_ret |].
  pose proof (mi_pos _ _ _ Hi _ _ Hp Hl). specialize (Hw m Hm).
  apply runs_bind. eapply runs_lift; [apply arr_set_in; lia |]. apply runs_bind.
  eapply upd_mux_spec; [done |]. eapply cv_wait_turn_spec; [by eapply mux_ok_aux | done | done | | done].
  apply list_lookup_insert_eq. by eapply lookup_lt_Some.
Qed.

Lemma cv_wait_resume_spec s gh i p muxid g m :
  mux_ok s gh -> ms_procs s !! i = Some p -> live p = true -> ms_mux s !! g = Some m ->
  gslot s i muxid = g ->
  runs (cv_wait_resume i muxid (Z.of_nat g)) s (fun r s' =>
    match r with Some _ => mux_ok s' gh | None => mux_ok s' (drop_holder i g gh) end).
Proof.
  intros Hi Hp Hl Hm Hg. unfold cv_wait_resume. apply runs_bind, runs_modify.
  destruct (sleep_done_spec s gh i Hi) as [Hi1 Hv1].
  destruct (same_view_at _ _ _ _ Hv1 Hp) as (p1 & Hp1 & Hl1 & Hk1 & _).
  eapply cv_wait_turn_spec; try done; [congruence |]. rewrite <- Hg. unfold gslot. rewrite Hp, Hp1. simpl. by rewrite Hk1.
Qed.

Lemma cv_signal_spec s gh i p muxid :
  mux_ok s gh -> ms_procs s !! i = Some p -> live p = true ->
  runs (cv_signal i muxid) s (fun _ s' => mux_ok s' gh).
Proof.
  intros Hi Hp Hl. unfold cv_signal.
  eapply (with_slot s gh i p muxid (-1) (fun p g => let* m := mux_at g in
      if negb (mx_pid m =? p_pid p) then ret (-1)
      else upd_mux g (fun m => mset_waiting (replicate NPROC 0) (mset_cv (mx_cv_count m + 1) m)) ;;;
        modify (fun s => with_procs (wakeup (ChMutex (Z.to_nat g)) (ms_procs s)) s) ;;; ret 0)); try done.
  intros g m Hs Hm. apply runs_bind, (mux_at_spec _ _ _ _ Hm). destruct (negb _); [by apply runs_ret |].
  apply runs_bind. eapply upd_mux_spec; [done |]. apply runs_bind, runs_modify, runs_ret.
  set (s1 := with_mux _ s). unfold mux_ok. rewrite (same_view_locks _ _ (wakeup_view s1 _)).
  apply wakeup_inv. by eapply mux_ok_aux.
Qed.

(** ** [exit] *)

Definition not_holding (i : nat) (ls : list Z) (gh : list (nat * nat)) : list (nat * nat) :=
  filter (fun x => x.1 <> i \/ Z.of_nat x.2 ∉ ls) gh.

Lemma mux_inv_minus1 s refs gh : mux_inv s (-1 :: refs) gh -> mux_inv s refs gh.
Proof.
  intros [H1 H2 H3 H4 H5 H6 H7 H8]. split; try done. intros g m Hm. specialize (H3 g m Hm).
  by rewrite occ_other in H3 by lia.
Qed.

Lemma same_view_trans s1 s2 s3 : same_view s1 s2 -> same_view s2 s3 -> same_view s1 s3.
Proof. intros H1 H2 i. by rewrite (H2 i), (H1 i). Qed.

Lemma exit_locks_spec ls s rest gh i p :
  mux_inv s (ls ++ rest) gh -> ms_procs s !! i = Some p -> live p = true ->
  Forall (fun l => l = -1 \/ 0 <= l < Z.of_nat MUX_MAXNUM) ls ->
  runs (exit_locks i ls) s (fun _ s' => mux_inv s' rest (not_holding i ls gh) /\ same_view s s' /\
    forall j, p_chan <$> ms_procs s' !! j = p_chan <$> ms_procs s !! j).
Proof.
  intros Hi Hp Hl Hls. revert s p gh Hi Hp Hl. induction Hls as [|l ls Hr Hls IH]; intros s p gh Hi Hp Hl; cbn [exit_locks].
  { apply runs_ret. split; [| done]. eapply mux_inv_sub; [| exact Hi].
    intros x Hx. by apply list_elem_of_filter in Hx as [_ ?]. }
  assert (Hnext : forall s1 gh1, mux_inv s1 (ls ++ rest) gh1 -> same_view s s1 ->
    (forall j, p_chan <$> ms_procs s1 !! j = p_chan <$> ms_procs s !! j) ->
    (forall x, x ∈ gh -> x.1 <> i \/ Z.of_nat x.2 <> l -> x ∈ gh1) ->
    runs (exit_locks i ls) s1 (fun _ s' => mux_inv s' rest (not_holding i (l :: ls) gh) /\ same_view s s' /\
      forall j, p_chan <$> ms_procs s' !! j = p_chan <$> ms_procs s !! j)).
  { intros s1 gh1 Hi1 Hv1 Hch Hgh. destruct (same_view_at _ _ _ _ Hv1 Hp) as (p1 & Hp1 & Hl1 & _).
    eapply runs_mono; [eapply IH; [done | done | congruence] |]. intros [] s' (Hi' & Hv' & Hch').
    split; [| split; [by eapply same_view_trans | intros j; by rewrite Hch']].
    eapply mux_inv_sub; [| exact Hi']. intros x [Hx Hin]%list_elem_of_filter. rewrite not_elem_of_cons in Hx.
    apply list_elem_of_filter. split; [naive_solver |]. apply Hgh; [done | naive_solver]. }
  apply runs_bind. destruct (Z.eqb_spec l (-1)) as [->|Hne]; cbn [negb].
  { apply runs_ret. apply (Hnext s gh); [by apply mux_inv_minus1 | done | done | done]. }
  destruct Hr as [|Hr]; [done |]. destruct (Z_of_nat_complete l) as [g ->]; [lia |].
  destruct (lookup_lt_is_Some_2 (ms_mux s) g) as [m Hm]; [rewrite (mi_len _ _ _ Hi); lia |].
  apply runs_bind. eapply upd_mux_spec; [done |]. set (s1 := with_mux _ s).
  assert (Hi1 : mux_inv s1 (ls ++ rest) gh).
  { pose proof (mi_count _ _ _ Hi g m Hm) as Hc. cbn [app] in Hc. rewrite occ_cons, decide_True in Hc by done.
    eapply mux_inv_upd; try done.
    - intros h Hh. cbn [app]. rewrite occ_other by lia. done.
    - simpl. lia.
    - exact (mi_free _ _ _ Hi g m Hm).
    - intros j Hj. destruct (mi_held _ _ _ Hi j g Hj) as (q & m0 & Hq & Hlq & Hin & Hm0 & Hlk & Hpid).
      assert (m0 = m) as -> by congruence. by exists q. }
  assert (Hm1 : ms_mux s1 !! g = Some (mset_count (mx_count m - 1) m)).
  { apply list_lookup_insert_eq. by eapply lookup_lt_Some. }
  apply runs_bind, (cur_proc_spec _ i p); [done |]. apply runs_bind, (mux_at_spec _ _ _ _ Hm1). simpl.
  destruct (Z.eqb_spec (mx_pid m) (p_pid p)) as [He|He].
  - eapply runs_mono; [by eapply (releasesleep_spec s1) |]. intros [] s2 (Hi2 & _ & Hpt2).
    eapply Hnext; [done | | |].
    + intros j. rewrite Hpt2. apply (wakeup_view s1).
    + intros j. rewrite Hpt2. apply wakeup_chan.
    + intros [j h] Hj Hx. apply elem_drop_holder. split; [done |]. simpl in Hx. intros [= -> ->]. naive_solver.
  - apply runs_ret. by apply (Hnext s1 gh).
Qed.

(** A process that has given up its references becomes a zombie. *)
Lemma mux_ok_zombie s rest gh i p :
  mux_inv s rest gh -> ms_procs s !! i = Some p -> live p = true -> p_chan p = ChNone ->
  p_locks p ++ rest ≡ₚ all_locks s -> (forall g, (i, g) ∉ gh) ->
  mux_ok (with_procs (upd_proc (ms_procs s) i (set_state ZOMBIE)) s) gh.
Proof.
  intros Hi Hp Hl Hc Hperm Hno. unfold mux_ok. set (s' := with_procs _ s).
  assert (Hrest : all_locks s' ≡ₚ rest).
  { pose proof (concat_alter_perm live_locks (set_state ZOMBIE) _ _ _ Hp) as H.
    unfold live_locks in H at 1 3. rewrite Hl in H. cbn [live set_state p_state] in H.
    apply (Permutation_app_inv_l (p_locks p)). rewrite Hperm. etrans; [exact H |]. done. }
  rewrite Hrest. pose proof Hi as [H1 H2 H3 H4 H5 H6 H7 H8].
  assert (Hat : forall j q, upd_proc (ms_procs s) i (set_state ZOMBIE) !! j = Some q ->
    (live q = false /\ p_chan q = ChNone) \/ (j <> i /\ ms_procs s !! j = Some q)).
  { intros j q. rewrite upd_proc_lookup. case_decide; [subst; rewrite Hp; intros [= <-]; auto | auto]. }
  split; cbn [s' with_procs ms_mux ms_procs]; try done.
  - intros j q Hq Hlq. destruct (Hat j q Hq) as [[? _]|[_ Hq']]; [congruence | eauto].
  - intros j1 j2 q1 q2 Hq1 Hq2 Hl1 Hl2 He. destruct (Hat _ _ Hq1) as [[? _]|[_ ?]]; [congruence |].
    destruct (Hat _ _ Hq2) as [[? _]|[_ ?]]; [congruence | eauto].
  - intros j q Hq Hlq. destruct (Hat j q Hq) as [[? _]|[_ Hq']]; [congruence | eauto].
  - intros j g Hj. destruct (H6 j g Hj) as (q & m & Hq & ?). exists q, m. split; [| done].
    rewrite upd_proc_lookup, decide_False; [done |]. intros <-. by apply Hno in Hj.
  - intros j q g Hq Hcq. destruct (Hat j q Hq) as [[_ ?]|[_ Hq']]; [congruence | eauto].
Qed.

(** The mutex part of [exit], up to the point where the state changes. *)
Definition exit_mutexes (i : nat) : ST mstate unit :=
  let* p := cur_proc i in
  exit_locks i (p_locks p) ;;;
  upd_cur i (set_state ZOMBIE).

Lemma exit_mutexes_spec s gh i p :
  mux_ok s gh -> ms_procs s !! i = Some p -> live p = true -> p_chan p = ChNone ->
  runs (exit_mutexes i) s (fun _ s' => mux_ok s' (filter (fun x => x.1 <> i) gh)).
Proof.
  intros Hi Hp Hl Hc. unfold exit_mutexes. apply runs_bind, (cur_proc_spec _ _ _ _ Hp).
  destruct (mi_locks _ _ _ Hi _ _ Hp Hl) as [_ Hall].
  assert (Hex : exists rest, p_locks p ++ rest ≡ₚ all_locks s).
  { pose proof (concat_alter_perm live_locks (set_state ZOMBIE) _ _ _ Hp) as H.
    unfold live_locks in H at 1. rewrite Hl in H. eexists. exact H. }
  destruct Hex as [rest Hperm]. unfold mux_ok in Hi. rewrite <- Hperm in Hi. apply runs_bind.
  eapply runs_mono; [by eapply exit_locks_spec |]. intros [] s1 (Hi1 & Hv1 & Hch1). apply runs_modify.
  assert (Hsub : forall x, x ∈ filter (fun x => x.1 <> i) gh -> x ∈ not_holding i (p_locks p) gh).
  { intros x [Hx Hin]%list_elem_of_filter. apply list_elem_of_filter. auto. }
  destruct (same_view_at _ _ _ _ Hv1 Hp) as (p1 & Hp1 & Hl1 & Hk1 & _).
  eapply mux_ok_zombie; [eapply mux_inv_sub; [exact Hsub | exact Hi1] | exact Hp1 | congruence | | |].
  - specialize (Hch1 i). rewrite Hp, Hp1 in Hch1. simpl in Hch1. congruence.
  - rewrite Hk1, Hperm. by rewrite (same_view_locks _ _ Hv1).
  - intros g [Hx _]%list_elem_of_filter. done.
Qed.

(** ** [fork] *)

(** The mutex part of [allocproc] for a child with the fresh [pid]. *)
Definition fork_mutexes (parent child : nat) (pid : Z) : ST mstate unit :=
  upd_cur child (fun p => set_pid pid (set_state EMBRYO p)) ;;;
  alloc_locks child parent.

Lemma count_locks_spec ls s :
  length (ms_mux s) = MUX_MAXNUM -> Forall (fun l => l = -1 \/ 0 <= l < Z.of_nat MUX_MAXNUM) ls ->
  runs (count_locks ls) s (fun _ s' => ms_procs s' = ms_procs s /\ length (ms_mux s') = MUX_MAXNUM /\
    forall g, ms_mux s' !! g = (fun m => mset_count (mx_count m + Z.of_nat (occ g ls)) m) <$> ms_mux s !! g).
Proof.
  intros Hlen Hls. revert s Hlen. induction Hls as [|l ls Hr Hls IH]; intros s Hlen; cbn [count_locks].
  { apply runs_ret. split; [done |]. split; [done |]. intros g. destruct (ms_mux s !! g) as [m|]; [| done].
    simpl. rewrite Z.add_0_r. by destruct m. }
  apply runs_bind. destruct (Z.eqb_spec l (-1)) as [->|Hne]; cbn [negb].
  { apply runs_ret. eapply runs_mono; [by apply IH |]. intros [] s' (Hp & Hl & Hg). split; [done |]. split; [done |].
    intros g. by rewrite Hg, occ_other by lia. }
  destruct Hr as [|Hr]; [done |]. destruct (Z_of_nat_complete l) as [g ->]; [lia |].
  destruct (lookup_lt_is_Some_2 (ms_mux s) g) as [m Hm]; [lia |].
  eapply upd_mux_spec; [done |]. eapply runs_mono; [apply IH; cbn; by rewrite length_insert |].
  intros [] s' (Hp & Hl & Hg). split; [done |]. split; [done |]. intros h. rewrite Hg, occ_cons. cbn [with_mux ms_mux].
  destruct (decide (h = g)) as [->|Hhg].
  - rewrite list_lookup_insert_eq, Hm, decide_True by (done || by eapply lookup_lt_Some). simpl.
    unfold mset_count. simpl. do 2 f_equal. lia.
  - rewrite list_lookup_insert_ne, decide_False by (done || lia). done.
Qed.

(** A new process with the references [ls], all of them counted. *)
Lemma mux_ok_new s s' gh c cp f ls :
  mux_ok s gh -> ms_procs s !! c = Some cp -> live cp = false ->
  live (f cp) = true -> p_locks (f cp) = ls -> p_chan (f cp) = p_chan cp -> 0 < p_pid (f cp) ->
  lock_ok (f cp) ->
  (forall j q, ms_procs s !! j = Some q -> live q = true -> p_pid q <> p_pid (f cp)) ->
  ms_procs s' = upd_proc (ms_procs s) c f -> length (ms_mux s') = MUX_MAXNUM ->
  (forall g, ms_mux s' !! g = (fun m => mset_count (mx_count m + Z.of_nat (occ g ls)) m) <$> ms_mux s !! g) ->
  mux_ok s' gh.
Proof.
  intros Hi Hc Hnl Hl Hls Hch Hpos Hok Hfresh Hpt Hlen Hmux. unfold mux_ok.
  assert (Hrefs : all_locks s' ≡ₚ ls ++ all_locks s).
  { pose proof (concat_alter_perm live_locks f _ _ _ Hc) as H. unfold live_locks in H at 1 3.
    rewrite Hl, Hnl, Hls in H. unfold all_locks at 1. rewrite Hpt. exact H. }
  rewrite Hrefs. pose proof Hi as [H1 H2 H3 H4 H5 H6 H7 H8].
  assert (Hat : forall j q, ms_procs s' !! j = Some q ->
    (j = c /\ q = f cp) \/ (j <> c /\ ms_procs s !! j = Some q)).
  { intros j q. rewrite Hpt, upd_proc_lookup. case_decide; [subst; rewrite Hc; intros [= <-]; auto | auto]. }
  assert (Hm : forall g m', ms_mux s' !! g = Some m' -> exists m, ms_mux s !! g = Some m /\
    m' = mset_count (mx_count m + Z.of_nat (occ g ls)) m).
  { intros g m'. rewrite Hmux. destruct (ms_mux s !! g) as [m|]; [| done]. intros [= <-]. eauto. }
  split; try done.
  - intros j q Hq Hlq. destruct (Hat j q Hq) as [[-> ->]|[_ ?]]; eauto.
  - intros g m' Hm'. destruct (Hm g m' Hm') as (m & Hg & ->). specialize (H3 g m Hg). simpl.
    unfold occ in *. rewrite filter_app, length_app. lia.
  - intros i j p q Hp Hq Hlp Hlq He. destruct (Hat _ _ Hp) as [[-> ->]|[_ Hp']], (Hat _ _ Hq) as [[-> ->]|[_ Hq']];
      [done | by destruct (Hfresh _ _ Hq' Hlq) | by destruct (Hfresh _ _ Hp' Hlp) | eauto].
  - intros j q Hq Hlq. destruct (Hat j q Hq) as [[-> ->]|[_ ?]]; eauto.
  - intros j g Hj. destruct (H6 j g Hj) as (q & m & Hq & Hlq & Hin & Hg & Hk & Hpid).
    exists q, (mset_count (mx_count m + Z.of_nat (occ g ls)) m).
    rewrite Hpt, upd_proc_lookup, decide_False by congruence. by rewrite Hmux, Hg.
  - intros g m' Hm'. destruct (Hm g m' Hm') as (m & Hg & ->). exact (H7 g m Hg).
  - intros j q g Hq Hcq. destruct (Hat j q Hq) as [[-> ->]|[_ ?]]; [| eauto].
    rewrite Hch in Hcq. destruct (H8 _ _ _ Hc Hcq). congruence.
Qed.

Lemma occ_none g n : occ g (replicate n (-1)) = 0%nat.
Proof.
  unfold occ. rewrite filter_none; [done |]. intros x Hx. apply elem_of_replicate_inv in Hx as ->. lia.
Qed.

Lemma fork_mutexes_spec s gh parent pp child cp pid :
  mux_ok s gh -> ms_procs s !! parent = Some pp -> live pp = true ->
  ms_procs s !! child = Some cp -> live cp = false -> 0 < pid ->
  (forall j q, ms_procs s !! j = Some q -> live q = true -> p_pid q <> pid) ->
  runs (fork_mutexes parent child pid) s (fun _ s' => mux_ok s' gh).
Proof.
  intros Hi Hpp Hlp Hcp Hlc Hpid Hfresh. unfold fork_mutexes. apply runs_bind, runs_modify.
  set (f0 := fun p => set_pid pid (set_state EMBRYO p)). set (s1 := with_procs _ s).
  assert (Hc1 : ms_procs s1 !! child = Some (f0 cp)) by (unfold s1; cbn; by rewrite upd_proc_lookup, decide_True, Hcp).
  assert (Hne : parent <> child) by congruence. destruct (mi_locks _ _ _ Hi _ _ Hpp Hlp) as [Hlen Hall].
  unfold alloc_locks. apply runs_bind, (cur_proc_spec _ _ _ _ Hc1). cbn [f0 p_pid set_pid].
  destruct (Z.eqb_spec pid 1) as [->|H1].
  - apply runs_modify. eapply (mux_ok_new s _ gh child cp (fun p => set_locks (replicate MUX_MAXNUM (-1)) (f0 p)) (replicate MUX_MAXNUM (-1))); try done.
    + split; [done |]. by apply Forall_replicate; left.
    + unfold s1, upd_proc. cbn. by rewrite list_alter_alter.
    + apply (mi_len _ _ _ Hi).
    + intros g. rewrite occ_none. change (ms_mux s !! g = (fun m => mset_count (mx_count m + 0) m) <$> ms_mux s !! g).
      destruct (ms_mux s !! g) as [m|]; [| done]. simpl. rewrite Z.add_0_r. by destruct m.
  - apply runs_bind, (cur_proc_spec _ parent pp).
    { unfold s1. cbn. by rewrite upd_proc_lookup, decide_False. }
    apply runs_bind, runs_modify. eapply runs_mono; [apply count_locks_spec; [apply (mi_len _ _ _ Hi) | done] |].
    intros [] s' (Hpt & Hl & Hmux). eapply (mux_ok_new s s' gh child cp (fun p => set_locks (p_locks pp) (f0 p))); try done.
    rewrite Hpt. unfold s1, upd_proc. cbn. by rewrite list_alter_alter.
Qed.

(** ** Sequences of calls *)

(** A process that is running: it makes calls. *)
Definition caller (s : mstate) (i : nat) (p : proc) : Prop :=
  ms_procs s !! i = Some p /\ live p = true /\ p_chan p = ChNone /\ p_state p <> SLEEPING.

(** [mutex_get] is not among the calls: see [mutex_get_breaks_exclusion]. *)
Inductive mstep : mstate * list (nat * nat) -> mstate * list (nat * nat) -> Prop :=
| st_create i p name r s s' gh :
    caller s i p -> (length name <= 128)%nat -> mutex_create i name s = Ok (r, s') ->
    mstep (s, gh) (s', gh)
| st_delete i p muxid r s s' gh :
    caller s i p -> mutex_delete i muxid s = Ok (r, s') ->
    mstep (s, gh) (s', if r =? 0 then drop_holder i (gslot s i muxid) gh else gh)
| st_lock i p muxid r s s' gh :
    caller s i p -> mutex_lock i muxid s = Ok (r, s') ->
    mstep (s, gh) (s', if bool_decide (r = Some 0) then (i, gslot s i muxid) :: gh else gh)
| st_lock_resume i p g r s s' gh :
    ms_procs s !! i = Some p -> p_chan p = ChMutexLock g -> p_state p = RUNNABLE ->
    mutex_lock_resume i (Z.of_nat g) s = Ok (r, s') ->
    mstep (s, gh) (s', if bool_decide (r = Some 0) then (i, g) :: gh else gh)
| st_unlock i p muxid r s s' gh :
    caller s i p -> mutex_unlock i muxid s = Ok (r, s') ->
    mstep (s, gh) (s', if r =? 0 then drop_holder i (gslot s i muxid) gh else gh)
| st_wait i p muxid r s s' gh :
    caller s i p ->
    (forall m, ms_mux s !! gslot s i muxid = Some m -> p_pid p < Z.of_nat (length (mx_waiting m))) ->
    cv_wait i muxid s = Ok (r, s') ->
    mstep (s, gh) (s', if r is None then drop_holder i (gslot s i muxid) gh else gh)
| st_wait_resume i p muxid g m r s s' gh :
    ms_procs s !! i = Some p -> live p = true -> p_chan p = ChMutex g -> gslot s i muxid = g ->
    ms_mux s !! g = Some m -> cv_wait_resume i muxid (Z.of_nat g) s = Ok (r, s') ->
    mstep (s, gh) (s', if r is None then drop_holder i g gh else gh)
| st_signal i p muxid r s s' gh :
    caller s i p -> cv_signal i muxid s = Ok (r, s') -> mstep (s, gh) (s', gh)
| st_fork i p c cp pid s s' gh :
    caller s i p -> ms_procs s !! c = Some cp -> live cp = false -> 0 < pid ->
    (forall j q, ms_procs s !! j = Some q -> live q = true -> p_pid q <> pid) ->
    fork_mutexes i c pid s = Ok (tt, s') -> mstep (s, gh) (s', gh)
| st_exit i p s s' gh :
    caller s i p -> exit_mutexes i s = Ok (tt, s') -> mstep (s, gh) (s', filter (fun x => x.1 <> i) gh)
| st_schedule pt s gh :
    (forall i, (fun p => (pview p, p_chan p)) <$> pt !! i = (fun p => (pview p, p_chan p)) <$> ms_procs s !! i) ->
    mstep (s, gh) (with_procs pt s, gh).

(** The result of a routine that is known to run. *)
Lemma runs_Ok {S A} (c : ST S A) s Q a s' : runs c s Q -> c s = Ok (a, s') -> Q a s'.
Proof. intros (b & t & Hc & HQ) H. rewrite H in Hc. by injection Hc as -> ->. Qed.

Lemma mstep_ok x y : mux_ok x.1 x.2 -> mstep x y -> mux_ok y.1 y.2.
Proof.
  intros Hx Hs. revert Hx.
  destruct Hs as [i p name r s s' gh (Hp & Hl & Hc & Hst) Hn Hrun | i p muxid r s s' gh (Hp & Hl & Hc & Hst) Hrun |
    i p muxid r s s' gh (Hp & Hl & Hc & Hst) Hrun | i p g r s s' gh Hp Hc Hst Hrun |
    i p muxid r s s' gh (Hp & Hl & Hc & Hst) Hrun | i p muxid r s s' gh (Hp & Hl & Hc & Hst) Hw Hrun |
    i p muxid g m r s s' gh Hp Hl Hc Hg Hm Hrun | i p muxid r s s' gh (Hp & Hl & Hc & Hst) Hrun |
    i p c cp pid s s' gh (Hp & Hl & Hc & Hst) Hcp Hlc Hpid Hfresh Hrun | i p s s' gh (Hp & Hl & Hc & Hst) Hrun |
    pt s gh Hv]; cbn [fst snd]; intros Hi.
  - exact (runs_Ok _ _ _ _ _ (mutex_create_spec s gh i p name Hi Hp Hl Hc Hn) Hrun).
  - destruct (runs_Ok _ _ _ _ _ (mutex_delete_spec s gh i p muxid Hi Hp Hl Hc Hst) Hrun) as [[-> ->]|[-> H]]; done.
  - pose proof (runs_Ok _ _ _ _ _ (mutex_lock_spec s gh i p muxid Hi Hp Hl) Hrun) as [_ H].
    destruct r as [r|]; [destruct H as [[-> ->]|[-> H]] | destruct H as [H _]]; done.
  - pose proof (runs_Ok _ _ _ _ _ (mutex_lock_resume_spec s gh i p g Hi Hp Hc) Hrun) as [_ H].
    destruct r as [r|]; [destruct H as [-> H] |]; done.
  - destruct (runs_Ok _ _ _ _ _ (mutex_unlock_spec s gh i p muxid Hi Hp Hl) Hrun) as [[-> ->]|(-> & _ & H & _)]; done.
  - pose proof (runs_Ok _ _ _ _ _ (cv_wait_spec s gh i p muxid Hi Hp Hl Hw) Hrun) as H. by destruct r.
  - pose proof (runs_Ok _ _ _ _ _ (cv_wait_resume_spec s gh i p muxid g m Hi Hp Hl Hm Hg) Hrun) as H. by destruct r.
  - exact (runs_Ok _ _ _ _ _ (cv_signal_spec s gh i p muxid Hi Hp Hl) Hrun).
  - exact (runs_Ok _ _ _ _ _ (fork_mutexes_spec s gh i p c cp pid Hi Hp Hl Hcp Hlc Hpid Hfresh) Hrun).
  - exact (runs_Ok _ _ _ _ _ (exit_mutexes_spec s gh i p Hi Hp Hl Hc) Hrun).
  - assert (Hsv : same_view s (with_procs pt s)).
    { intros i. cbn. specialize (Hv i). destruct (pt !! i), (ms_procs s !! i); simpl in *; congruence. }
    unfold mux_ok. rewrite (same_view_locks _ _ Hsv). apply mux_inv_procs; [done | done |].
    intros i p g Hp Hc. specialize (Hv i). rewrite Hp in Hv. destruct (ms_procs s !! i) as [q|] eqn:Hq; [| done].
    injection Hv as H1 H2 _ H4. rewrite H1, H2. apply (mi_sleep _ _ _ Hi i q g Hq). congruence.
Qed.

(** After boot: no mutex in use, one process. *)
Definition mutex0 : mutex := mkMutex (replicate 128 0) 0 (replicate NPROC 0) 0 0 0.
Definition proc_live (pid : Z) : proc :=
  set_state RUNNING (set_pid pid (set_locks (replicate MUX_MAXNUM (-1)) proc_zero)).
Definition mux_boot : mstate :=
  mkMstate (replicate MUX_MAXNUM mutex0) (proc_live 1 :: replicate 63 proc_zero).

Lemma mux_boot_ok : mux_ok mux_boot [].
Proof.
  assert (Hp : forall i p, ms_procs mux_boot !! i = Some p -> live p = true -> i = 0%nat /\ p = proc_live 1).
  { intros [|i] p; cbn [mux_boot ms_procs lookup list_lookup].
    - intros [= <-]. done.
    - intros Hi. change (replicate 63 proc_zero !! i = Some p) in Hi. by apply lookup_replicate in Hi as [-> _]. }
  assert (Hm : forall g m, ms_mux mux_boot !! g = Some m -> m = mutex0).
  { intros g m Hg. by apply lookup_replicate in Hg as [-> _]. }
  assert (Hocc : forall g, occ g (all_locks mux_boot) = 0%nat) by (intros g; exact (occ_none g 16)).
  split.
  - done.
  - intros i p Hi Hl. destruct (Hp i p Hi Hl) as [_ ->]. split; [done |]. by apply Forall_replicate; left.
  - intros g m ->%Hm. by rewrite Hocc.
  - intros i j p q Hi Hj Hl1 Hl2 _. destruct (Hp i p Hi Hl1) as [-> _]. by destruct (Hp j q Hj Hl2) as [-> _].
  - intros i p Hi Hl. by destruct (Hp i p Hi Hl) as [_ ->].
  - by intros i g ?%not_elem_of_nil.
  - by intros g m ->%Hm.
  - intros [|i] p g; cbn [mux_boot ms_procs lookup list_lookup]; [by intros [= <-] |].
    intros Hi. change (replicate 63 proc_zero !! i = Some p) in Hi. by apply lookup_replicate in Hi as [-> _].
Qed.

(** * Properties of the mutexes *)


(** The state a routine leaves behind. *)
Definition after {S A} (c : ST S A) (s : S) : S := match c s with Ok (_, s') => s' | _ => s end.

Definition ex_created : mstate := after (mutex_create 0 [109]) mux_boot.
Definition ex_locked : mstate := after (mutex_lock 0 0) ex_created.


(** Three processes with pids 1, 2 and 3. *)
Definition ex_three : mstate :=
  mkMstate (replicate MUX_MAXNUM mutex0) (proc_live 1 :: proc_live 2 :: proc_live 3 :: replicate 61 proc_zero).


(** The table of waiting processes is indexed by the pid, and so too small
    once 64 processes have been created. *)
Lemma cv_wait_pid_limit s gh i p muxid m :
  mux_ok s gh -> caller s i p -> ms_mux s !! gslot s i muxid = Some m -> mx_pid m = p_pid p ->
  bad_muxid muxid = false -> p_locks p !! Z.to_nat muxid = Some (Z.of_nat (gslot s i muxid)) ->
  Z.of_nat (length (mx_waiting m)) <= p_pid p -> cv_wait i muxid s = Undef.
Proof.
  intros Hi (Hp & Hl & _ & _) Hm Hpid Hb Hs Hlen. unfold cv_wait, bind, cur_proc, lock_at, proc_at, lift. rewrite Hb, Hp.
  cbn [rbind fst snd]. unfold arr_get at 1. unfold bad_muxid in Hb. apply orb_false_iff in Hb as [-> _].
  rewrite Hs. cbn [rbind fst snd]. rewrite (proj2 (Z.eqb_neq _ _)) by lia.
  unfold mux_at. rewrite (arr_get_nat _ _ _ Hm). cbn [rbind fst snd]. rewrite Hpid, Z.eqb_refl. cbn [negb].
  unfold arr_set. rewrite (proj2 (Z.ltb_ge (p_pid p) _)) by lia. by rewrite andb_false_r.
Qed.
