(* ===== verification/Vm.v ===== *)
(** * Address spaces (vm.c)

    Page directories and page tables in the kernel's memory, as the MMU reads
    them: every routine of vm.c on user address spaces, over the page allocator.
    [kend] is the end of the kernel image, [kdata] the start of its data. *)

From S2P Require Import Prelude Mem CString Params Kalloc ProcDef.

(** memlayout.h, mmu.h *)
Definition KERNLINK : Z := KERNBASE + EXTMEM.
Definition NPDENTRIES : nat := 1024.

(** shm.h: [name] is the whole buffer [char name[150]]. *)
Record shm_info := mkShm { sh_page : Z; sh_name : list Z; sh_ref : Z }.

Record vst := mkVst { v_kmem : kmem; v_shm : list shm_info }.

Definition v_mem (s : vst) : mem := kmem_mem (v_kmem s).
Definition with_vkmem k (s : vst) := mkVst k (v_shm s).
Definition with_vmem m (s : vst) :=
  mkVst (mkKmem (kmem_use_lock (v_kmem s)) (kmem_freelist (v_kmem s)) m) (v_shm s).
Definition with_vshm l (s : vst) := mkVst (v_kmem s) l.

Definition rd32 (a : Z) : ST vst Z := get (fun s => load32 (v_mem s) a).
Definition wr32 (a w : Z) : ST vst unit := modify (fun s => with_vmem (store32 (v_mem s) a w) s).
Definition memset_st (a c n : Z) : ST vst unit := modify (fun s => with_vmem (memset (v_mem s) a c n) s).
Definition memmove_st (d a n : Z) : ST vst unit := modify (fun s => with_vmem (memmove (v_mem s) d a n) s).
Definition wrbytes (a : Z) (l : list Z) : ST vst unit := modify (fun s => with_vmem (write_bytes (v_mem s) a l) s).
Definition kalloc_st : ST vst Z := fun s => let '(p, k) := kalloc (v_kmem s) in Ok (p, with_vkmem k s).

(** Is the page at [v] a shared-memory page? *)
Definition is_shm (v : Z) : ST vst bool := get (fun s => existsb (fun i => sh_page i =? v) (v_shm s)).

Definition presentb (e : Z) : bool := negb (Z.land e PTE_P =? 0).

Section vm.
Variables kend kdata : Z.

Definition kfree_st (v : Z) : ST vst unit := fun s =>
  let! k := kfree kend v (v_kmem s) in Ok (tt, with_vkmem k s).

(** The address of the PTE of [va], 0 if there is none. *)
Definition walkpgdir (pgdir va : Z) (alloc : bool) : ST vst Z :=
  let pde := pgdir + 4 * PDX va in
  let* e := rd32 pde in
  if presentb e then ret (P2V (PTE_ADDR e) + 4 * PTX va)
  else if negb alloc then ret 0
  else
    let* pgtab := kalloc_st in
    if pgtab =? 0 then ret 0
    else
      memset_st pgtab 0 PGSIZE ;;;
      wr32 pde (Z.lor (Z.lor (Z.lor (V2P pgtab) PTE_P) PTE_W) PTE_U) ;;;
      ret (pgtab + 4 * PTX va).

Fixpoint mappages_loop (fuel : nat) (pgdir a last pa perm : Z) : ST vst Z :=
  match fuel with
  | O => fun _ => Hang
  | S f =>
      let* pte := walkpgdir pgdir a true in
      if pte =? 0 then ret (-1)
      else
        let* e := rd32 pte in
        if presentb e then panic "remap"
        else
          wr32 pte (Z.lor (Z.lor pa perm) PTE_P) ;;;
          if a =? last then ret 0
          else mappages_loop f pgdir (u32 (a + PGSIZE)) last (u32 (pa + PGSIZE)) perm
  end.

(** The loop ends when [a] has run through the pages up to [last]. *)
Definition mappages (pgdir va size pa perm : Z) : ST vst Z :=
  let a := PGROUNDDOWN va in
  let last := PGROUNDDOWN (u32 (va + size - 1)) in
  mappages_loop (S (Z.to_nat (u32 (last - a) / PGSIZE))) pgdir a last pa perm.

(** ** Freeing *)

Fixpoint deallocuvm_loop (fuel : nat) (pgdir a oldsz : Z) : ST vst unit :=
  if oldsz <=? a then ret tt
  else
    match fuel with
    | O => fun _ => Hang
    | S f =>
        let* pte := walkpgdir pgdir a false in
        if pte =? 0 then
          deallocuvm_loop f pgdir (u32 (u32 (PGADDR (PDX a + 1) 0 0 - PGSIZE) + PGSIZE)) oldsz
        else
          let* e := rd32 pte in
          (if presentb e then
             let pa := PTE_ADDR e in
             if pa =? 0 then panic "kfree"
             else
               let v := P2V pa in
               let* found := is_shm v in
               (if found then ret tt else kfree_st v) ;;; wr32 pte 0
           else ret tt) ;;;
          deallocuvm_loop f pgdir (u32 (a + PGSIZE)) oldsz
    end.

Definition deallocuvm (pgdir oldsz newsz : Z) : ST vst Z :=
  if oldsz <=? newsz then ret oldsz
  else deallocuvm_loop (Z.to_nat (oldsz / PGSIZE + 1)) pgdir (PGROUNDUP newsz) oldsz ;;; ret newsz.

Fixpoint freevm_loop (pgdir : Z) (l : list nat) : ST vst unit :=
  match l with
  | [] => ret tt
  | i :: l' =>
      let* e := rd32 (pgdir + 4 * Z.of_nat i) in
      (if presentb e then
         let v := P2V (PTE_ADDR e) in
         let* found := is_shm v in
         if found then ret tt else kfree_st v
       else ret tt) ;;;
      freevm_loop pgdir l'
  end.

Definition freevm (pgdir : Z) : ST vst unit :=
  if pgdir =? 0 then panic "freevm: no pgdir"
  else
    deallocuvm pgdir KERNBASE 0 ;;;
    freevm_loop pgdir (seq 0 NPDENTRIES) ;;;
    kfree_st pgdir.

(** ** The kernel's part *)

Definition kmap : list (Z * Z * Z * Z) :=
  [(KERNBASE, 0, EXTMEM, PTE_W);
   (KERNLINK, V2P KERNLINK, V2P kdata, 0);
   (kdata, V2P kdata, PHYSTOP, PTE_W);
   (DEVSPACE, DEVSPACE, 0, PTE_W)].

Fixpoint setupkvm_loop (pgdir : Z) (ks : list (Z * Z * Z * Z)) : ST vst Z :=
  match ks with
  | [] => ret pgdir
  | (virt, phys_start, phys_end, perm) :: ks' =>
      let* r := mappages pgdir virt (u32 (phys_end - phys_start)) phys_start perm in
      if r <? 0 then freevm pgdir ;;; ret 0 else setupkvm_loop pgdir ks'
  end.

Definition setupkvm : ST vst Z :=
  let* pgdir := kalloc_st in
  if pgdir =? 0 then ret 0
  else
    memset_st pgdir 0 PGSIZE ;;;
    if DEVSPACE <? P2V PHYSTOP then panic "PHYSTOP too high"
    else setupkvm_loop pgdir kmap.

(** ** Growing *)

(** [init] is the address of the image. *)
Definition inituvm (pgdir init sz : Z) : ST vst unit :=
  if PGSIZE <=? sz then panic "inituvm: more than a page"
  else
    let* m := kalloc_st in
    memset_st m 0 PGSIZE ;;;
    mappages pgdir 0 PGSIZE (V2P m) (Z.lor PTE_W PTE_U) ;;;
    memmove_st m init sz.

Fixpoint allocuvm_loop (fuel : nat) (pgdir a oldsz newsz : Z) : ST vst Z :=
  if newsz <=? a then ret newsz
  else
    match fuel with
    | O => fun _ => Hang
    | S f =>
        let* m := kalloc_st in
        if m =? 0 then deallocuvm pgdir newsz oldsz ;;; ret 0
        else
          memset_st m 0 PGSIZE ;;;
          let* r := mappages pgdir a PGSIZE (V2P m) (Z.lor PTE_W PTE_U) in
          if r <? 0 then deallocuvm pgdir newsz oldsz ;;; kfree_st m ;;; ret 0
          else allocuvm_loop f pgdir (u32 (a + PGSIZE)) oldsz newsz
    end.

Definition allocuvm (pgdir oldsz newsz : Z) : ST vst Z :=
  if KERNBASE <=? newsz then ret 0
  else if newsz <? oldsz then ret oldsz
  else allocuvm_loop (Z.to_nat (newsz / PGSIZE + 1)) pgdir (PGROUNDUP oldsz) oldsz newsz.

Definition clearpteu (pgdir uva : Z) : ST vst unit :=
  let* pte := walkpgdir pgdir uva false in
  if pte =? 0 then panic "clearpteu"
  else let* e := rd32 pte in wr32 pte (Z.land e (Z.lnot PTE_U)).

(** ** Copying *)

(** The last shared page attached at [i], as the loop over [shms] leaves it. *)
Definition shm_page_at (shms : list shm_proc_info) (infos : list shm_info) (i : Z) : option Z :=
  foldl (fun acc x => if negb (i =? 0) && (sp_addr x.1 =? i) then Some (sh_page x.2) else acc)
    None (zip shms infos).

Fixpoint copyuvm_loop (fuel : nat) (shms : list shm_proc_info) (pgdir d i sz : Z) : ST vst Z :=
  if sz <=? i then ret d
  else
    match fuel with
    | O => fun _ => Hang
    | S f =>
        let* pte := walkpgdir pgdir i false in
        if pte =? 0 then panic "copyuvm: pte should exist"
        else
          let* e := rd32 pte in
          if negb (presentb e) then panic "copyuvm: page not present"
          else
            let pa := PTE_ADDR e in
            let flags := PTE_FLAGS e in
            let* infos := get v_shm in
            let* m := match shm_page_at shms infos i with
                      | Some m => ret m
                      | None => kalloc_st
                      end in
            if (m =? 0) && (match shm_page_at shms infos i with Some _ => false | None => true end)
            then freevm d ;;; ret 0
            else
              memmove_st m (P2V pa) PGSIZE ;;;
              let* r := mappages d i PGSIZE (V2P m) flags in
              if r <? 0 then freevm d ;;; ret 0
              else copyuvm_loop f shms pgdir d (u32 (i + PGSIZE)) sz
    end.

(** [shms] are those of the current process. *)
Definition copyuvm (shms : list shm_proc_info) (pgdir sz : Z) : ST vst Z :=
  let* d := setupkvm in
  if d =? 0 then ret 0
  else copyuvm_loop (Z.to_nat (sz / PGSIZE + 1)) shms pgdir d 0 sz.

(** A null PTE pointer is dereferenced without a test. *)
Definition uva2ka (pgdir uva : Z) : ST vst Z :=
  let* pte := walkpgdir pgdir uva false in
  if pte =? 0 then undef
  else
    let* e := rd32 pte in
    if Z.land e PTE_P =? 0 then ret 0
    else if Z.land e PTE_U =? 0 then ret 0
    else ret (P2V (PTE_ADDR e)).

(** The buffer is in the memory of the current process or on its kernel
    stack: it is given by its bytes. *)
Fixpoint copyout_loop (fuel : nat) (pgdir va : Z) (buf : list Z) : ST vst Z :=
  match buf with
  | [] => ret 0
  | _ =>
      match fuel with
      | O => fun _ => Hang
      | S f =>
          let va0 := PGROUNDDOWN va in
          let* pa0 := uva2ka pgdir va0 in
          if pa0 =? 0 then ret (-1)
          else
            let n := PGSIZE - (va - va0) in
            let n := Z.to_nat (if Z.of_nat (length buf) <? n then Z.of_nat (length buf) else n) in
            wrbytes (pa0 + (va - va0)) (take n buf) ;;;
            copyout_loop f pgdir (u32 (va0 + PGSIZE)) (drop n buf)
      end
  end.

Definition copyout (pgdir va : Z) (p : list Z) : ST vst Z := copyout_loop (S (length p)) pgdir va p.

(** The tests of [switchuvm]; the rest of it loads hardware registers. *)
Definition switchuvm (p : proc) : ST vst unit :=
  if p_kstack p =? 0 then panic "switchuvm: no kstack"
  else if p_pgdir p =? 0 then panic "switchuvm: no pgdir"
  else ret tt.
End vm.
