(* ===== verification/VmProof.v ===== *)
(** * Address spaces: ownership of pages and the MMU's view

    What a page directory owns (itself, its page tables, the private user
    pages), the view [lookup_pte] the MMU has of it, and the specifications of
    the routines of vm.c: no page is lost or owned twice, and only the mappings
    asked for change. *)

From S2P Require Import Prelude Mem CString Params Kalloc ProcDef Vm.

(** ** Encoding of entries *)

Lemma lor_page k f : 0 <= f < 4096 -> Z.lor (k * 4096) f = k * 4096 + f.
Proof.
  intros Hf. replace (k * 4096) with (Z.shiftl k 12) at 1 by (rewrite Z.shiftl_mul_pow2; lia).
  rewrite lor_shiftl_add by (simpl; lia). lia.
Qed.

Lemma pte_addr_eq e : PTE_ADDR e = e - e mod 4096.
Proof. apply land_lnot_pages. Qed.

Lemma pte_addr_lor pa f : pa mod PGSIZE = 0 -> 0 <= f < 4096 -> PTE_ADDR (Z.lor pa f) = pa.
Proof.
  intros [k ->]%aligned_eq_mul Hf. unfold PGSIZE. rewrite lor_page, pte_addr_eq by done.
  rewrite (Z.add_comm (k * 4096)), Z_mod_plus_full, Z.mod_small by done. lia.
Qed.

Lemma pte_flags_lor pa f : pa mod PGSIZE = 0 -> 0 <= f < 4096 -> PTE_FLAGS (Z.lor pa f) = f.
Proof.
  intros [k ->]%aligned_eq_mul Hf. unfold PGSIZE, PTE_FLAGS. rewrite lor_page by done.
  change 0xFFF with (Z.ones 12). rewrite Z.land_ones by lia. change (2 ^ 12) with 4096.
  rewrite Z.add_comm, Z_mod_plus_full. by apply Z.mod_small.
Qed.

Lemma presentb_odd e : presentb e = Z.odd e.
Proof.
  unfold presentb, PTE_P. change 1 with (Z.ones 1). rewrite Z.land_ones by lia. change (2 ^ 1) with 2.
  rewrite Zmod_odd. by destruct (Z.odd e).
Qed.

Lemma presentb_lor e : presentb (Z.lor e PTE_P) = true.
Proof.
  rewrite presentb_odd, <- Z.bit0_odd, Z.lor_spec. unfold PTE_P. simpl. apply orb_true_r.
Qed.

Lemma lor_flags_range f g : 0 <= f < 4096 -> 0 <= g < 4096 -> 0 <= Z.lor f g < 4096.
Proof.
  intros Hf Hg. split; [apply Z.lor_nonneg; lia |].
  destruct (Z.eq_dec (Z.lor f g) 0) as [->|Hn]; [lia |]. assert (0 <= Z.lor f g) by (apply Z.lor_nonneg; lia).
  change 4096 with (2 ^ 12). apply Z.log2_lt_pow2; [lia |]. rewrite Z.log2_lor by lia.
  apply Z.max_lub_lt; [destruct (Z.eq_dec f 0) as [->|] | destruct (Z.eq_dec g 0) as [->|]]; simpl; try lia;
    (apply Z.log2_lt_pow2; simpl; lia).
Qed.

(** ** Addresses *)

Lemma PDX_eq va : PDX va = va / 4194304 mod 1024.
Proof. unfold PDX. rewrite land_1023, Z.shiftr_div_pow2 by lia. done. Qed.

Lemma PTX_eq va : PTX va = va / 4096 mod 1024.
Proof. unfold PTX. rewrite land_1023, Z.shiftr_div_pow2 by lia. done. Qed.

Definition pdx (va : Z) : nat := Z.to_nat (PDX va).
Definition ptx (va : Z) : nat := Z.to_nat (PTX va).

Lemma pdx_Z va : Z.of_nat (pdx va) = PDX va.
Proof. unfold pdx. rewrite PDX_eq. pose proof (Z.mod_pos_bound (va / 4194304) 1024). lia. Qed.

Lemma ptx_Z va : Z.of_nat (ptx va) = PTX va.
Proof. unfold ptx. rewrite PTX_eq. pose proof (Z.mod_pos_bound (va / 4096) 1024). lia. Qed.

Lemma pdx_lt va : (pdx va < 1024)%nat.
Proof. pose proof (pdx_Z va) as H. rewrite PDX_eq in H. pose proof (Z.mod_pos_bound (va / 4194304) 1024). lia. Qed.

Lemma ptx_lt va : (ptx va < 1024)%nat.
Proof. pose proof (ptx_Z va) as H. rewrite PTX_eq in H. pose proof (Z.mod_pos_bound (va / 4096) 1024). lia. Qed.

(** The indices determine the page. *)
Lemma pdx_ptx va : 0 <= va < 4294967296 -> va / 4096 = 1024 * Z.of_nat (pdx va) + Z.of_nat (ptx va).
Proof.
  intros Hva. rewrite pdx_Z, ptx_Z, PDX_eq, PTX_eq.
  replace (va / 4194304) with (va / 4096 / 1024) by (rewrite Z.div_div by lia; done).
  rewrite (Z.mod_small (va / 4096 / 1024)).
  - apply Z.div_mod. lia.
  - split; [apply Z.div_pos; [apply Z.div_pos |]; lia |]. rewrite Z.div_div by lia. apply Z.div_lt_upper_bound; lia.
Qed.

Lemma pdx_user va : 0 <= va < KERNBASE -> (pdx va < 512)%nat.
Proof.
  unfold KERNBASE. intros Hva. pose proof (pdx_ptx va ltac:(lia)) as H.
  assert (va / 4096 < 524288) by (apply Z.div_lt_upper_bound; lia). lia.
Qed.

Section pages.
Variable kend : Z.
Hypothesis Hkend : KERNBASE < kend.

Lemma page_V2P v : page kend v -> V2P v = v - KERNBASE.
Proof. intros (_ & _ & H). unfold V2P. apply u32_small. unfold KERNBASE, PHYSTOP in *. lia. Qed.

Lemma page_P2V v : page kend v -> P2V (V2P v) = v.
Proof.
  intros Hv. rewrite (page_V2P v Hv). destruct Hv as (_ & _ & H). unfold P2V.
  replace (v - KERNBASE + KERNBASE) with v by lia. apply u32_small. unfold KERNBASE, PHYSTOP in *. lia.
Qed.

Lemma page_V2P_aligned v : page kend v -> V2P v mod PGSIZE = 0 /\ 0 < V2P v < PHYSTOP.
Proof.
  intros Hv. rewrite (page_V2P v Hv). destruct Hv as (Ha & Hk & H). unfold KERNBASE, PHYSTOP, PGSIZE in *.
  split; [| lia]. rewrite Zminus_mod, Ha. done.
Qed.

Lemma page_ne0 v : page kend v -> v <> 0.
Proof. intros Hv. apply page_range in Hv. lia. Qed.
End pages.

(** ** Ownership *)

Definition tab (m : mem) (pd : Z) (i : nat) : option Z :=
  let e := load32 m (pd + 4 * Z.of_nat i) in
  if presentb e then Some (P2V (PTE_ADDR e)) else None.

Definition leaf (m : mem) (t : Z) (j : nat) : Z := load32 m (t + 4 * Z.of_nat j).

Definition shmp (sh : list shm_info) (v : Z) : bool := existsb (fun i => sh_page i =? v) sh.

(** The private page an entry maps. *)
Definition upage (sh : list shm_info) (e : Z) : list Z :=
  if presentb e && negb (shmp sh (P2V (PTE_ADDR e))) then [P2V (PTE_ADDR e)] else [].

Definition tpages (sh : list shm_info) (m : mem) (t : Z) : list Z :=
  concat ((fun j => upage sh (leaf m t j)) <$> seq 0 1024).

Definition tabs (m : mem) (pd : Z) : list Z :=
  concat ((fun i => option_list (tab m pd i)) <$> seq 0 1024).

Definition upages (sh : list shm_info) (m : mem) (pd : Z) : list Z :=
  concat ((fun i => match tab m pd i with Some t => tpages sh m t | None => [] end) <$> seq 0 512).

Definition own (s : vst) (pd : Z) : list Z :=
  pd :: tabs (v_mem s) pd ++ upages (v_shm s) (v_mem s) pd.

(** The MMU's view: the present entry for an address. *)
Definition lookup_pte (m : mem) (pd va : Z) : option Z :=
  match tab m pd (pdx va) with
  | Some t => let e := leaf m t (ptx va) in if presentb e then Some e else None
  | None => None
  end.

(** [x]: pages in the hands of the running code; [l]: free pages. *)
Record space (kend : Z) (s : vst) (pd : Z) (x l : list Z) : Prop := {
  sp_free : kmem_free kend (v_kmem s) l;
  sp_nodup : NoDup (own s pd ++ x ++ l);
  sp_pages : forall v, v ∈ own s pd ++ x ++ l -> page kend v;
  sp_leaf : forall i j t, (i < 512)%nat -> (j < 1024)%nat -> tab (v_mem s) pd i = Some t ->
    presentb (leaf (v_mem s) t j) = true -> page kend (P2V (PTE_ADDR (leaf (v_mem s) t j)));
  sp_shm : forall v, shmp (v_shm s) v = true -> v ∉ pd :: tabs (v_mem s) pd ++ x ++ l
}.

Lemma upage_private sh e v : v ∈ upage sh e -> shmp sh v = false.
Proof.
  unfold upage. destruct (presentb e), (shmp sh _) eqn:Hs; simpl; try (by intros ?%not_elem_of_nil).
  by intros ->%list_elem_of_singleton.
Qed.

Lemma upages_private sh m pd v : v ∈ upages sh m pd -> shmp sh v = false.
Proof.
  unfold upages. rewrite elem_of_concat_seq. intros (i & _ & Hv).
  destruct (tab m pd i) as [t|]; [| by apply not_elem_of_nil in Hv].
  unfold tpages in Hv. apply elem_of_concat_seq in Hv as (j & _ & Hv). by eapply upage_private.
Qed.

Lemma tab_elem m pd i t : (i < 1024)%nat -> tab m pd i = Some t -> t ∈ tabs m pd.
Proof. intros Hi Ht. apply elem_of_concat_seq. exists i. rewrite Ht. split; [done | by left]. Qed.

(** A step that only moves pages between the owners. *)
Lemma space_step kend s s' pd x x' l l' :
  space kend s pd x l -> kmem_free kend (v_kmem s') l' -> v_shm s' = v_shm s ->
  own s' pd ++ x' ++ l' ≡ₚ own s pd ++ x ++ l ->
  (forall i j t, (i < 512)%nat -> (j < 1024)%nat -> tab (v_mem s') pd i = Some t ->
    presentb (leaf (v_mem s') t j) = true -> page kend (P2V (PTE_ADDR (leaf (v_mem s') t j)))) ->
  space kend s' pd x' l'.
Proof.
  intros [H1 H2 H3 H4 H5] Hfree Hsh Hperm Hleaf. split; [done | | | done |].
  - by rewrite Hperm.
  - intros v. rewrite Hperm. apply H3.
  - intros v Hv Hin. rewrite Hsh in Hv. apply (H5 v Hv).
    assert (Hin' : v ∈ own s pd ++ x ++ l).
    { rewrite <- Hperm. unfold own. cbn [app]. apply elem_of_cons in Hin as [->|Hin]; [by left |]. right.
      rewrite !elem_of_app in *. tauto. }
    assert (v ∉ upages (v_shm s) (v_mem s) pd) by (intros Hu%upages_private; congruence).
    unfold own in Hin'. cbn [app] in Hin'. apply elem_of_cons in Hin' as [->|Hin']; [by left |]. right.
    rewrite !elem_of_app in *. tauto.
Qed.

(** ** Frames *)

Definition same_page (m m' : mem) (v : Z) : Prop := forall x, v <= x < v + PGSIZE -> m' x = m x.

Lemma tab_ext m m' pd i : same_page m m' pd -> (i < 1024)%nat -> tab m' pd i = tab m pd i.
Proof.
  intros Hs Hi. unfold tab. rewrite (load32_ext m' m); [done |]. intros x Hx. apply Hs. unfold PGSIZE. lia.
Qed.

Lemma leaf_ext m m' t j : same_page m m' t -> (j < 1024)%nat -> leaf m' t j = leaf m t j.
Proof. intros Hs Hj. unfold leaf. apply load32_ext. intros x Hx. apply Hs. unfold PGSIZE. lia. Qed.

Lemma tabs_ext m m' pd : same_page m m' pd -> tabs m' pd = tabs m pd.
Proof. intros Hs. apply concat_seq_ext. intros i Hi. by rewrite (tab_ext m m'). Qed.

Lemma tpages_ext sh m m' t : same_page m m' t -> tpages sh m' t = tpages sh m t.
Proof. intros Hs. apply concat_seq_ext. intros j Hj. by rewrite (leaf_ext m m'). Qed.

(** Memory that changes in none of the tables. *)
Lemma upages_ext sh m m' pd :
  same_page m m' pd -> (forall t, t ∈ tabs m pd -> same_page m m' t) -> upages sh m' pd = upages sh m pd.
Proof.
  intros Hpd Ht. apply concat_seq_ext. intros i Hi. rewrite (tab_ext m m') by (done || lia).
  destruct (tab m pd i) as [t|] eqn:He; [| done]. apply tpages_ext, Ht. eapply tab_elem; [| done]. lia.
Qed.

Lemma lookup_pte_ext m m' pd va :
  same_page m m' pd -> (forall t, t ∈ tabs m pd -> same_page m m' t) -> lookup_pte m' pd va = lookup_pte m pd va.
Proof.
  intros Hpd Ht. unfold lookup_pte. rewrite (tab_ext m m') by (done || apply pdx_lt).
  destruct (tab m pd (pdx va)) as [t|] eqn:He; [| done].
  rewrite (leaf_ext m m'); [done | | apply ptx_lt]. apply Ht. eapply tab_elem; [apply pdx_lt | done].
Qed.

(** A write inside one page leaves the others alone. *)
Lemma store32_same_page kend m v w j a :
  page kend v -> page kend w -> v <> w -> (j < 1024)%nat -> same_page m (store32 m (v + 4 * Z.of_nat j) a) w.
Proof.
  intros Hv Hw Hne Hj x Hx. destruct (page_apart kend v w Hv Hw Hne); unfold PGSIZE in *;
    rewrite store32_ne by lia; done.
Qed.

Lemma memset_same_page kend m v w c :
  page kend v -> page kend w -> v <> w -> same_page m (memset m v c PGSIZE) w.
Proof.
  intros Hv Hw Hne x Hx. rewrite memset_spec by (unfold PGSIZE; lia).
  destruct (page_apart kend v w Hv Hw Hne); unfold PGSIZE in *; bool_cases; simpl; (done || lia).
Qed.

Lemma memmove_same_page kend m v w a n :
  page kend v -> page kend w -> v <> w -> 0 <= n <= PGSIZE -> same_page m (memmove m v a n) w.
Proof.
  intros Hv Hw Hne Hn x Hx. rewrite memmove_spec by lia.
  destruct (page_apart kend v w Hv Hw Hne); unfold PGSIZE in *; bool_cases; simpl; (done || lia).
Qed.

Lemma same_page_trans m1 m2 m3 v : same_page m1 m2 v -> same_page m2 m3 v -> same_page m1 m3 v.
Proof. intros H1 H2 x Hx. by rewrite H2, H1. Qed.

(** The free list survives writes outside it. *)
Lemma kmem_free_ext kend k l m' :
  kmem_free kend k l -> (forall v, v ∈ l -> same_page (kmem_mem k) m' v) ->
  kmem_free kend (mkKmem (kmem_use_lock k) (kmem_freelist k) m') l.
Proof.
  intros [Hc Hnd] Hs. split; [| done]. cbn [kmem_mem kmem_freelist].
  eapply free_chain_ext; [| exact Hc]. intros q x Hq Hx. symmetry. apply (Hs q Hq). unfold PGSIZE. lia.
Qed.

(** ** Steps on the tables *)

(** What an operation that gives and takes free pages only leaves behind. *)
Record stable (kend : Z) (pd : Z) (s s' : vst) (l l' : list Z) : Prop := {
  st_shm : v_shm s' = v_shm s;
  st_perm : own s' pd ++ l' ≡ₚ own s pd ++ l;
  st_frame : forall w, page kend w -> w ∉ own s pd ++ l -> same_page (v_mem s) (v_mem s') w
}.

Lemma stable_refl kend pd s l : stable kend pd s s l l.
Proof. split; [done | done | by intros w _ _ x _]. Qed.

Lemma stable_trans kend pd s1 s2 s3 l1 l2 l3 :
  stable kend pd s1 s2 l1 l2 -> stable kend pd s2 s3 l2 l3 -> stable kend pd s1 s3 l1 l3.
Proof.
  intros [A1 B1 C1] [A2 B2 C2]. split; [congruence | by rewrite B2 |].
  intros w Hw Hn. eapply same_page_trans; [by apply C1 | apply C2; [done |]]. by rewrite B1.
Qed.

(** The same, when only directory and tables are written. *)
Record tstable (kend : Z) (pd : Z) (s s' : vst) (l l' : list Z) : Prop := {
  tst_shm : v_shm s' = v_shm s;
  tst_perm : tabs (v_mem s') pd ++ l' ≡ₚ tabs (v_mem s) pd ++ l;
  tst_frame : forall w, page kend w -> w ∉ pd :: tabs (v_mem s) pd ++ l -> same_page (v_mem s) (v_mem s') w
}.

Lemma tstable_refl kend pd s l : tstable kend pd s s l l.
Proof. split; [done | done | by intros w _ _ x _]. Qed.

Lemma tstable_trans kend pd s1 s2 s3 l1 l2 l3 :
  tstable kend pd s1 s2 l1 l2 -> tstable kend pd s2 s3 l2 l3 -> tstable kend pd s1 s3 l1 l3.
Proof.
  intros [A1 B1 C1] [A2 B2 C2]. split; [congruence | by rewrite B2 |].
  intros w Hw Hn. eapply same_page_trans; [by apply C1 | apply C2; [done |]]. by rewrite B1.
Qed.

Lemma tabs_own s pd l w : w ∈ pd :: tabs (v_mem s) pd ++ l -> w ∈ own s pd ++ l.
Proof. intros H. unfold own. cbn [app]. apply elem_of_cons in H as [->|H]; [by left |]. right. rewrite !elem_of_app in *. tauto. Qed.

Lemma tstable_stable kend pd s s' l l' :
  tstable kend pd s s' l l' -> own s' pd ++ l' ≡ₚ own s pd ++ l -> stable kend pd s s' l l'.
Proof. intros [A B C] Hp. split; [done | done |]. intros w Hw Hn. apply C; [done |]. by intros ?%tabs_own. Qed.

(** One entry of a table changes. *)
Record leaf_step (m m' : mem) (pd : Z) (i j : nat) (t e : Z) : Prop := {
  ls_pd : same_page m m' pd;
  ls_tab : tab m pd i = Some t;
  ls_i : (i < 1024)%nat;
  ls_j : (j < 1024)%nat;
  ls_uniq : forall i', (i' < 1024)%nat -> tab m pd i' = Some t -> i' = i;
  ls_other : forall i' t', (i' < 1024)%nat -> tab m pd i' = Some t' -> t' <> t -> same_page m m' t';
  ls_same : forall j', (j' < 1024)%nat -> j' <> j -> leaf m' t j' = leaf m t j';
  ls_new : leaf m' t j = e
}.

Lemma concat_seq_option_inj {B} (h : nat -> option B) n i i' b :
  NoDup (concat ((fun k => option_list (h k)) <$> seq 0 n)) -> (i < n)%nat -> (i' < n)%nat ->
  h i = Some b -> h i' = Some b -> i = i'.
Proof.
  intros Hnd Hi Hi' Hb Hb'. apply (NoDup_concat_seq _ _ i i' b Hnd Hi Hi'); [rewrite Hb | rewrite Hb']; by left.
Qed.

Section leaf_step.
Context {m m' : mem} {pd : Z} {i j : nat} {t e : Z} (H : leaf_step m m' pd i j t e).

Lemma ls_tabeq i' : (i' < 1024)%nat -> tab m' pd i' = tab m pd i'.
Proof. apply tab_ext, H. Qed.

Lemma ls_tabs : tabs m' pd = tabs m pd.
Proof. apply tabs_ext, H. Qed.

Lemma ls_leaf i' j' t' : (i' < 1024)%nat -> (j' < 1024)%nat -> tab m pd i' = Some t' ->
  leaf m' t' j' = if decide (i' = i /\ j' = j) then e else leaf m t' j'.
Proof.
  destruct H. intros Hi Hj Ht. destruct (decide (t' = t)) as [->|Hne].
  - assert (i' = i) as -> by auto. case_decide as Hc; [by destruct Hc as [_ ->] |].
    apply ls_same0; [done | naive_solver].
  - rewrite decide_False by (intros [-> _]; congruence). eapply leaf_ext; eauto.
Qed.

Lemma ls_upages sh :
  (i < 512)%nat -> upage sh (leaf m t j) ++ upages sh m' pd ≡ₚ upage sh e ++ upages sh m pd.
Proof.
  intros Hi. set (h := fun mm i => match tab mm pd i with Some t => tpages sh mm t | None => [] end).
  assert (Hp : h m i ++ upages sh m' pd ≡ₚ h m' i ++ upages sh m pd).
  { apply (concat_seq_perm (h m) (h m')); [done |]. intros k Hk Hne. unfold h.
    rewrite ls_tabeq by lia. destruct (tab m pd k) as [t'|] eqn:Ht; [| done]. apply tpages_ext.
    apply H in Ht as Hs; [done | lia |]. intros ->. apply H in Ht; lia. }
  assert (Hq : upage sh (leaf m t j) ++ h m' i ≡ₚ upage sh e ++ h m i).
  { unfold h. rewrite ls_tabeq by apply H. rewrite (ls_tab _ _ _ _ _ _ _ H). unfold tpages.
    rewrite <- (ls_new _ _ _ _ _ _ _ H). apply (concat_seq_perm (fun j => upage sh (leaf m t j))
      (fun j => upage sh (leaf m' t j))); [apply H |]. intros k Hk Hne. by rewrite (ls_same _ _ _ _ _ _ _ H). }
  apply (Permutation_app_inv_l (h m i)). rewrite Permutation_app_swap_app, Hp.
  rewrite app_assoc, Hq, <- app_assoc. apply Permutation_app_swap_app.
Qed.

Lemma ls_upages_kernel sh : (512 <= i)%nat -> upages sh m' pd = upages sh m pd.
Proof.
  intros Hi. apply concat_seq_ext. intros k Hk. rewrite ls_tabeq by lia.
  destruct (tab m pd k) as [t'|] eqn:Ht; [| done]. apply tpages_ext.
  apply H in Ht as Hs; [done | lia |]. intros ->. apply H in Ht; lia.
Qed.

Lemma ls_lookup va :
  lookup_pte m' pd va =
    if decide (pdx va = i /\ ptx va = j) then (if presentb e then Some e else None) else lookup_pte m pd va.
Proof.
  unfold lookup_pte. rewrite ls_tabeq by apply pdx_lt.
  destruct (tab m pd (pdx va)) as [t'|] eqn:Ht.
  - rewrite (ls_leaf _ _ _ (pdx_lt va) (ptx_lt va) Ht). by case_decide.
  - rewrite decide_False; [done |]. intros [Heq _]. rewrite Heq, (ls_tab _ _ _ _ _ _ _ H) in Ht. done.
Qed.

(** All user mappings are still of pages. *)
Lemma ls_pages kend :
  (forall i j t, (i < 512)%nat -> (j < 1024)%nat -> tab m pd i = Some t ->
    presentb (leaf m t j) = true -> page kend (P2V (PTE_ADDR (leaf m t j)))) ->
  ((i < 512)%nat -> presentb e = true -> page kend (P2V (PTE_ADDR e))) ->
  forall i j t, (i < 512)%nat -> (j < 1024)%nat -> tab m' pd i = Some t ->
    presentb (leaf m' t j) = true -> page kend (P2V (PTE_ADDR (leaf m' t j))).
Proof.
  intros Hold Hnew i' j' t' Hi Hj. rewrite ls_tabeq by lia. intros Ht.
  rewrite (ls_leaf i' j' t') by (done || lia). case_decide as Hc; [| by eauto].
  destruct Hc as [-> _]. auto.
Qed.
End leaf_step.

Section table_steps.
Variable kend : Z.

Lemma space_tab_page s pd x l i t :
  space kend s pd x l -> (i < 1024)%nat -> tab (v_mem s) pd i = Some t -> page kend t /\ t <> pd /\ t ∉ x ++ l.
Proof.
  intros [_ Hnd Hpg _ _] Hi Ht. apply tab_elem in Ht; [| done]. split.
  - apply Hpg. unfold own. cbn [app]. right. rewrite !elem_of_app. auto.
  - unfold own in Hnd. cbn [app] in Hnd. apply NoDup_cons in Hnd as [Hn Hnd]. split.
    + intros ->. apply Hn. rewrite !elem_of_app. auto.
    + apply NoDup_app in Hnd as (_ & Hd & _). apply Hd. rewrite elem_of_app. auto.
Qed.

Lemma space_tab_uniq s pd x l i i' t :
  space kend s pd x l -> (i < 1024)%nat -> (i' < 1024)%nat ->
  tab (v_mem s) pd i = Some t -> tab (v_mem s) pd i' = Some t -> i' = i.
Proof.
  intros [_ Hnd _ _ _] Hi Hi' Ht Ht'. eapply concat_seq_option_inj; [| done..].
  unfold own in Hnd. cbn [app] in Hnd. apply NoDup_cons in Hnd as [_ Hnd].
  apply NoDup_app in Hnd as (Hnd & _). by apply NoDup_app in Hnd as (Hnd & _).
Qed.

Lemma space_pd_page s pd x l : space kend s pd x l -> page kend pd.
Proof. intros H. apply (sp_pages _ _ _ _ _ H). by left. Qed.

(** A store to a table entry; other than in that page the memory may already
    have changed outside the tables. *)
Lemma leaf_step_store s pd x l i j t e m0 :
  space kend s pd x l -> (i < 1024)%nat -> (j < 1024)%nat -> tab (v_mem s) pd i = Some t ->
  0 <= e < 4294967296 ->
  same_page (v_mem s) m0 pd -> (forall t', t' ∈ tabs (v_mem s) pd -> same_page (v_mem s) m0 t') ->
  leaf_step (v_mem s) (store32 m0 (t + 4 * Z.of_nat j) e) pd i j t e.
Proof.
  intros Hs Hi Hj Ht He Hpd Htabs. destruct (space_tab_page _ _ _ _ _ _ Hs Hi Ht) as (Hpt & Hne & _).
  pose proof (space_pd_page _ _ _ _ Hs) as Hppd. split; try done.
  - eapply same_page_trans; [exact Hpd |]. by eapply store32_same_page.
  - intros i' Hi'. by apply (space_tab_uniq s pd x l).
  - intros i' t' Hi' Ht' Hne'. destruct (space_tab_page _ _ _ _ _ _ Hs Hi' Ht') as (Hpt' & _).
    eapply same_page_trans; [eapply Htabs, tab_elem; [| done]; lia |].
    eapply store32_same_page; eauto.
  - intros j' Hj' Hnj. unfold leaf. rewrite load32_store32_ne by lia. apply load32_ext.
    intros y Hy. apply (Htabs t); [by apply (tab_elem _ _ i) |]. unfold PGSIZE. lia.
  - unfold leaf. by apply load32_store32_eq.
Qed.

(** Writes that miss the tables and the free pages. *)
Lemma space_ext_tabs s pd x l m' :
  space kend s pd x l -> (forall w, w ∈ pd :: tabs (v_mem s) pd ++ l -> same_page (v_mem s) m' w) ->
  space kend (with_vmem m' s) pd x l /\ own (with_vmem m' s) pd = own s pd /\
  tabs m' pd = tabs (v_mem s) pd /\ (forall i, (i < 1024)%nat -> tab m' pd i = tab (v_mem s) pd i) /\
  (forall va, lookup_pte m' pd va = lookup_pte (v_mem s) pd va).
Proof.
  intros Hs Hother.
  assert (Hpd : same_page (v_mem s) m' pd) by (apply Hother; by left).
  assert (Ht : forall t, t ∈ tabs (v_mem s) pd -> same_page (v_mem s) m' t).
  { intros t Ht. apply Hother. right. rewrite elem_of_app. auto. }
  assert (Hown : own (with_vmem m' s) pd = own s pd).
  { unfold own. cbn [v_mem v_kmem kmem_mem with_vmem v_shm].
    rewrite (tabs_ext (v_mem s) m'), (upages_ext _ (v_mem s) m') by done. done. }
  split; [| split; [done |]; split; [by apply tabs_ext |]; split; [intros; by apply tab_ext |]; intros; by apply lookup_pte_ext].
  eapply space_step; [exact Hs | | done | by rewrite Hown |].
  - apply kmem_free_ext; [apply Hs |]. intros w Hw. apply Hother. right. rewrite elem_of_app. auto.
  - cbn [v_mem v_kmem kmem_mem with_vmem]. intros i j t Hi Hj Htab. rewrite (tab_ext (v_mem s) m') in Htab by (done || lia).
    rewrite (leaf_ext (v_mem s) m'); [| eapply Ht, tab_elem; [| done]; lia | done]. by apply (sp_leaf _ _ _ _ _ Hs i).
Qed.

(** Writes that miss the address space and the free pages. *)
Lemma space_ext s pd x l m' :
  space kend s pd x l -> (forall w, w ∈ own s pd ++ l -> same_page (v_mem s) m' w) ->
  space kend (with_vmem m' s) pd x l /\ own (with_vmem m' s) pd = own s pd /\
  tabs m' pd = tabs (v_mem s) pd /\ (forall i, (i < 1024)%nat -> tab m' pd i = tab (v_mem s) pd i) /\
  (forall va, lookup_pte m' pd va = lookup_pte (v_mem s) pd va).
Proof. intros Hs Hother. apply (space_ext_tabs s pd x l m' Hs). intros w Hw. by apply Hother, tabs_own. Qed.

(** Writes to a page in transit. *)
Lemma space_write s pd x l v m' :
  space kend s pd x l -> v ∈ x -> (forall w, page kend w -> w <> v -> same_page (v_mem s) m' w) ->
  space kend (with_vmem m' s) pd x l /\ own (with_vmem m' s) pd = own s pd /\
  tabs m' pd = tabs (v_mem s) pd /\ (forall i, (i < 1024)%nat -> tab m' pd i = tab (v_mem s) pd i) /\
  (forall va, lookup_pte m' pd va = lookup_pte (v_mem s) pd va).
Proof.
  intros Hs Hv Hm. apply (space_ext s pd x l m' Hs). intros w Hw. apply Hm.
  - apply (sp_pages _ _ _ _ _ Hs). rewrite !elem_of_app in *. tauto.
  - intros ->. pose proof (sp_nodup _ _ _ _ _ Hs) as Hnd.
    rewrite (Permutation_app_comm x), app_assoc in Hnd. apply NoDup_app in Hnd as (_ & Hd & _). by apply (Hd v).
Qed.

Lemma kalloc_st_spec s pd x l :
  space kend s pd x l ->
  match l with
  | [] => kalloc_st s = Ok (0, s)
  | v :: l' => exists s', kalloc_st s = Ok (v, s') /\ v_mem s' = v_mem s /\ v_shm s' = v_shm s /\
      own s' pd = own s pd /\ page kend v /\ space kend s' pd (v :: x) l'
  end.
Proof.
  intros Hs. pose proof (kalloc_spec kend _ _ (sp_free _ _ _ _ _ Hs)) as Hk. unfold kalloc_st.
  destruct l as [|v l]; [rewrite Hk; destruct s; done |].
  destruct Hk as (k' & -> & Hk' & Hm & Hv & _). exists (with_vkmem k' s).
  assert (Hm' : v_mem (with_vkmem k' s) = v_mem s) by done.
  assert (Ho : own (with_vkmem k' s) pd = own s pd) by (unfold own; rewrite Hm'; done).
  split; [done |]. split; [done |]. split; [done |]. split; [done |]. split; [done |].
  eapply space_step; [exact Hs | done | done | |].
  - rewrite Ho. apply Permutation_app_head. cbn [app]. apply Permutation_middle.
  - rewrite Hm'. apply Hs.
Qed.

(** A fresh page from the allocator, cleared. *)
Lemma memset_leaf0 m t j : (j < 1024)%nat -> leaf (memset m t 0 PGSIZE) t j = 0.
Proof.
  intros Hj. unfold leaf, load32. unfold PGSIZE. rewrite !memset_spec by lia. bool_cases; simpl; (done || lia).
Qed.

Lemma tpages_zero sh m t : (forall j, (j < 1024)%nat -> leaf m t j = 0) -> tpages sh m t = [].
Proof.
  intros Hz. unfold tpages. rewrite (concat_seq_ext (fun _ => [])).
  - generalize (seq 0 1024). intros l. induction l; [done |]. cbn [fmap list_fmap concat app]. done.
  - intros j Hj. by rewrite Hz.
Qed.

Hypothesis Hkend : KERNBASE < kend.

(** The entry [V2P(v) | flags] of a page. *)
Lemma entry_range v f : page kend v -> 0 <= f < 4096 -> 0 <= Z.lor (V2P v) f < 4294967296.
Proof.
  intros Hv Hf. destruct (page_V2P_aligned kend Hkend v Hv) as [[k Hk]%aligned_eq_mul Hr].
  rewrite Hk in *. unfold PGSIZE, PHYSTOP in *. rewrite lor_page by done. lia.
Qed.

Lemma entry_page v f : page kend v -> 0 <= f < 4096 -> P2V (PTE_ADDR (Z.lor (V2P v) f)) = v.
Proof.
  intros Hv Hf. rewrite pte_addr_lor by (done || by apply (page_V2P_aligned kend Hkend)). by apply (page_P2V kend).
Qed.

Lemma entry_lor3 v : Z.lor (Z.lor (Z.lor (V2P v) PTE_P) PTE_W) PTE_U = Z.lor (V2P v) 7.
Proof. rewrite <- !Z.lor_assoc. done. Qed.

Lemma presentb_7 v : presentb (Z.lor (V2P v) 7) = true.
Proof. change 7 with (Z.lor 6 PTE_P). rewrite Z.lor_assoc. apply presentb_lor. Qed.

Lemma tab_new m pd t i i' :
  page kend pd -> page kend t -> (i < 1024)%nat -> (i' < 1024)%nat ->
  tab (store32 m (pd + 4 * Z.of_nat i) (Z.lor (V2P t) 7)) pd i' = if decide (i' = i) then Some t else tab m pd i'.
Proof.
  intros Hpd Ht Hi Hi'. unfold tab. case_decide as Hc.
  - subst i'. rewrite load32_store32_eq by (apply entry_range; done || lia).
    rewrite presentb_7, entry_page by (done || lia). done.
  - rewrite load32_store32_ne by lia. done.
Qed.

Lemma newtab_ne s pd t x l : space kend s pd (t :: x) l -> page kend t /\ t <> pd /\ pd ∉ l.
Proof.
  intros [_ Hnd Hpg _ _]. split; [apply Hpg; rewrite !elem_of_app; right; left; by left |].
  unfold own in Hnd. cbn [app] in Hnd. apply NoDup_cons in Hnd as [Hn _].
  split; [intros -> | intros H]; apply Hn; rewrite !elem_of_app; right; [left | right; rewrite elem_of_app; by right].
Qed.

(** The directory gets a cleared table. *)
Section newtab.
Context (s s' : vst) (pd t : Z) (x l : list Z) (i : nat).
Hypothesis (Hs : space kend s pd (t :: x) l) (Hi : (i < 1024)%nat) (Hnone : tab (v_mem s) pd i = None).
Hypothesis Hz : forall j, (j < 1024)%nat -> leaf (v_mem s) t j = 0.
Hypothesis Hshm : v_shm s' = v_shm s.
Hypothesis Htab : forall i', (i' < 1024)%nat ->
  tab (v_mem s') pd i' = if decide (i' = i) then Some t else tab (v_mem s) pd i'.
Hypothesis Hsame : forall w, page kend w -> w <> pd -> same_page (v_mem s) (v_mem s') w.

Lemma newtab_leaf j : (j < 1024)%nat -> leaf (v_mem s') t j = 0.
Proof. intros Hj. destruct (newtab_ne _ _ _ _ _ Hs) as (? & ? & _). rewrite (leaf_ext (v_mem s)) by auto. auto. Qed.

Lemma newtab_old i' t' : (i' < 1024)%nat -> tab (v_mem s) pd i' = Some t' -> same_page (v_mem s) (v_mem s') t'.
Proof. intros Hi' Ht'. destruct (space_tab_page _ _ _ _ _ _ Hs Hi' Ht') as (? & ? & _). auto. Qed.

Lemma newtab_tabs : tabs (v_mem s') pd ≡ₚ t :: tabs (v_mem s) pd.
Proof.
  apply (concat_seq_perm_add _ _ _ i); [done | | by rewrite Hnone | by rewrite Htab, decide_True].
  intros j Hj Hjn. by rewrite Htab, decide_False.
Qed.

Lemma newtab_upages : upages (v_shm s) (v_mem s') pd = upages (v_shm s) (v_mem s) pd.
Proof.
  apply concat_seq_ext. intros k Hk. rewrite Htab by lia. case_decide as Hc.
  - subst k. rewrite Hnone. apply tpages_zero, newtab_leaf.
  - destruct (tab (v_mem s) pd k) as [t'|] eqn:Ht'; [| done]. apply tpages_ext. eapply newtab_old; [| done]. lia.
Qed.

Lemma newtab_own : own s' pd ≡ₚ t :: own s pd.
Proof. unfold own. rewrite Hshm, newtab_upages, newtab_tabs. apply Permutation_swap. Qed.

Lemma newtab_lookup va : lookup_pte (v_mem s') pd va = lookup_pte (v_mem s) pd va.
Proof.
  unfold lookup_pte. rewrite Htab by apply pdx_lt. case_decide as Hc.
  - rewrite Hc, Hnone, newtab_leaf by apply ptx_lt. done.
  - destruct (tab (v_mem s) pd (pdx va)) as [t'|] eqn:Ht'; [| done].
    rewrite (leaf_ext (v_mem s)); [done | eapply newtab_old, Ht'; apply pdx_lt | apply ptx_lt].
Qed.

Lemma newtab_space : kmem_free kend (v_kmem s') l -> space kend s' pd x l.
Proof.
  intros Hf. eapply space_step; [exact Hs | done | done | |].
  - rewrite newtab_own. cbn [app]. apply Permutation_middle.
  - intros i' j t' Hi' Hj. rewrite Htab by lia. case_decide as Hc.
    + intros [= <-]. by rewrite newtab_leaf.
    + intros Ht'. rewrite (leaf_ext (v_mem s)) by (done || (eapply newtab_old; [| done]; lia)).
      by apply (sp_leaf _ _ _ _ _ Hs i').
Qed.
End newtab.

Lemma space_newtab s pd x l t i :
  space kend s pd (t :: x) l -> (i < 1024)%nat -> tab (v_mem s) pd i = None ->
  (forall j, (j < 1024)%nat -> leaf (v_mem s) t j = 0) ->
  let s' := with_vmem (store32 (v_mem s) (pd + 4 * Z.of_nat i) (Z.lor (V2P t) 7)) s in
  space kend s' pd x l /\ tab (v_mem s') pd i = Some t /\ own s' pd ≡ₚ t :: own s pd /\
  tabs (v_mem s') pd ≡ₚ t :: tabs (v_mem s) pd /\
  (forall va, lookup_pte (v_mem s') pd va = lookup_pte (v_mem s) pd va).
Proof.
  intros Hs Hi Hnone Hz s'. pose proof (space_pd_page _ _ _ _ Hs) as Hpd.
  destruct (newtab_ne s pd t x l Hs) as (Ht & Hne & Hl).
  pose proof (fun i' => tab_new (v_mem s) pd t i i' Hpd Ht Hi) as Htab.
  change (store32 _ _ _) with (v_mem s') in Htab.
  assert (Hsame : forall w, page kend w -> w <> pd -> same_page (v_mem s) (v_mem s') w).
  { intros w Hw Hnw. by apply (store32_same_page kend). }
  assert (Hf : kmem_free kend (v_kmem s') l).
  { apply kmem_free_ext; [apply Hs |]. intros w Hw.
    apply Hsame; [apply (sp_pages _ _ _ _ _ Hs); rewrite !elem_of_app; auto | congruence]. }
  assert (Hsh : v_shm s' = v_shm s) by done. clearbody s'.
  split; [by apply (newtab_space s s' pd t x l i) |]. split; [by rewrite Htab, decide_True |].
  split; [by apply (newtab_own s s' pd t x l i) |].
  split; [by apply (newtab_tabs s s' pd t i) |]. by apply (newtab_lookup s s' pd t x l i).
Qed.

(** ** walkpgdir *)

Lemma walkpgdir_find pd va s :
  walkpgdir pd va false s =
    Ok (match tab (v_mem s) pd (pdx va) with Some t => t + 4 * Z.of_nat (ptx va) | None => 0 end, s).
Proof.
  unfold walkpgdir, tab. rewrite pdx_Z, ptx_Z. unfold bind, rd32, get. cbn [rbind fst snd].
  destruct (presentb _); done.
Qed.

Lemma walkpgdir_alloc pd va s x l :
  space kend s pd x l ->
  runs (walkpgdir pd va true) s (fun p s' =>
    (p = 0 /\ s' = s /\ l = [] /\ tab (v_mem s) pd (pdx va) = None) \/
    exists t l', p = t + 4 * Z.of_nat (ptx va) /\ p <> 0 /\ tab (v_mem s') pd (pdx va) = Some t /\
      space kend s' pd x l' /\ own s' pd ++ l' ≡ₚ own s pd ++ l /\ tstable kend pd s s' l l' /\
      forall a, lookup_pte (v_mem s') pd a = lookup_pte (v_mem s) pd a).
Proof.
  intros Hs. unfold walkpgdir. rewrite <- pdx_Z, <- ptx_Z. apply runs_bind, runs_get.
  destruct (tab (v_mem s) pd (pdx va)) as [t|] eqn:Ht; unfold tab in Ht; destruct (presentb _) eqn:Hp; try done.
  { injection Ht as Ht. rewrite Ht. apply runs_ret. right. exists t, l. split; [done |].
    assert (Htab : tab (v_mem s) pd (pdx va) = Some t) by (unfold tab; by rewrite Hp, Ht).
    destruct (space_tab_page _ _ _ _ _ _ Hs (pdx_lt va) Htab) as (Hpt%page_range & _).
    split; [lia |]. split; [done |]. split; [done |]. split; [done |]. split; [apply tstable_refl | done]. }
  cbn [negb]. apply runs_bind. pose proof (kalloc_st_spec s pd x l Hs) as Hk. destruct l as [|v l].
  { exists 0, s. split; [done |]. cbn [Z.eqb]. apply runs_ret. by left. }
  destruct Hk as (s1 & Hk & Hm & Hsh & Ho & Hv & Hs1). exists v, s1. split; [done |].
  destruct (Z.eqb_spec v 0) as [|Hv0]; [by apply (page_ne0 kend) in Hv |].
  apply runs_bind, runs_modify. apply runs_bind, runs_modify. apply runs_ret. right.
  destruct (space_write s1 pd (v :: x) l v (memset (v_mem s1) v 0 PGSIZE) Hs1) as (Hs2 & Ho2 & Htb2 & Ht2 & Hl2);
    [by left | intros w Hw Hne; by apply (memset_same_page kend) |].
  set (s2 := with_vmem (memset (v_mem s1) v 0 PGSIZE) s1) in *.
  assert (Hn2 : tab (v_mem s2) pd (pdx va) = None).
  { change (v_mem s2) with (memset (v_mem s1) v 0 PGSIZE). rewrite Ht2, Hm by apply pdx_lt. unfold tab. by rewrite Hp. }
  rewrite entry_lor3. destruct (space_newtab s2 pd x l v (pdx va) Hs2 (pdx_lt va) Hn2) as (Hs3 & Ht3 & Ho3 & Htb3 & Hl3).
  { intros j Hj. by apply memset_leaf0. }
  set (s3 := with_vmem _ s2) in *. exists v, l. split; [done |].
  split; [apply page_range in Hv; lia |]. split; [done |]. split; [done |]. split.
  - rewrite Ho3, Ho2, Ho. cbn [app]. apply Permutation_middle.
  - split; [split; [done | |] |].
    + rewrite Htb3. change (v_mem s2) with (memset (v_mem s1) v 0 PGSIZE). rewrite Htb2, Hm. cbn [app]. apply Permutation_middle.
    + intros w Hw Hn. rewrite <- Hm. apply same_page_trans with (v_mem s2).
      * apply (memset_same_page kend); [done | done |]. intros <-. apply Hn. right. rewrite elem_of_app. right. by left.
      * apply (store32_same_page kend); [by eapply space_pd_page | done | | apply pdx_lt].
        intros <-. apply Hn. by left.
    + intros a. rewrite Hl3. change (v_mem s2) with (memset (v_mem s1) v 0 PGSIZE). by rewrite Hl2, Hm.
Qed.

(** ** Mapping one page *)

(** The private pages an entry at directory index [i] takes over. *)
Definition taken (sh : list shm_info) (i : nat) (e : Z) : list Z := if (i <? 512)%nat then upage sh e else [].

Lemma same_vpage a b :
  0 <= a < 4294967296 -> 0 <= b < 4294967296 -> (pdx a = pdx b /\ ptx a = ptx b) <-> a / PGSIZE = b / PGSIZE.
Proof.
  intros Ha Hb. unfold PGSIZE. rewrite (pdx_ptx a), (pdx_ptx b) by done.
  pose proof (ptx_lt a). pose proof (ptx_lt b). lia.
Qed.

Lemma ls_own s s' pd i j t e :
  leaf_step (v_mem s) (v_mem s') pd i j t e -> v_shm s' = v_shm s ->
  taken (v_shm s) i (leaf (v_mem s) t j) ++ own s' pd ≡ₚ taken (v_shm s) i e ++ own s pd.
Proof.
  intros H Hsh. unfold own. rewrite Hsh, (ls_tabs H), <- !Permutation_middle. apply Permutation_cons; [done |].
  rewrite !(Permutation_app_swap_app _ (tabs _ _)). apply Permutation_app_head. unfold taken.
  destruct (Nat.ltb_spec i 512) as [Hi|Hi]; [by apply (ls_upages H) | by rewrite (ls_upages_kernel H)].
Qed.

Lemma space_setleaf s pd x x' l i j t e :
  space kend s pd x l -> (i < 1024)%nat -> (j < 1024)%nat -> tab (v_mem s) pd i = Some t ->
  presentb (leaf (v_mem s) t j) = false -> 0 <= e < 4294967296 ->
  x = taken (v_shm s) i e ++ x' -> ((i < 512)%nat -> presentb e = true -> page kend (P2V (PTE_ADDR e))) ->
  let s' := with_vmem (store32 (v_mem s) (t + 4 * Z.of_nat j) e) s in
  space kend s' pd x' l /\ own s' pd ≡ₚ taken (v_shm s) i e ++ own s pd /\
  leaf_step (v_mem s) (v_mem s') pd i j t e.
Proof.
  intros Hs Hi Hj Ht Hp He Hx Hpg s'.
  assert (Hls : leaf_step (v_mem s) (v_mem s') pd i j t e) by (by eapply leaf_step_store).
  pose proof (ls_own s s' pd i j t e Hls eq_refl) as Ho. unfold taken at 1, upage in Ho. rewrite Hp in Ho.
  assert (Ho' : own s' pd ≡ₚ taken (v_shm s) i e ++ own s pd) by (destruct (i <? 512)%nat; exact Ho).
  split; [| done]. eapply space_step; [exact Hs | | done | | eapply (ls_pages Hls); [apply Hs | done]].
  - destruct (space_tab_page _ _ _ _ _ _ Hs Hi Ht) as (Hpt & _ & Hn).
    apply kmem_free_ext; [apply Hs |]. intros w Hw. apply (store32_same_page kend); [done | | | done].
    + apply (sp_pages _ _ _ _ _ Hs). rewrite !elem_of_app. auto.
    + intros ->. apply Hn. rewrite elem_of_app. auto.
  - rewrite Ho', Hx, <- !app_assoc. apply Permutation_app_swap_app.
Qed.

Lemma mappages_loop_step f pd a last pa perm s x x' l Q :
  space kend s pd x l -> 0 <= a < 4294967296 -> lookup_pte (v_mem s) pd a = None ->
  let e := Z.lor (Z.lor pa perm) PTE_P in
  0 <= e < 4294967296 -> x = taken (v_shm s) (pdx a) e ++ x' ->
  ((pdx a < 512)%nat -> page kend (P2V (PTE_ADDR e))) ->
  (l = [] -> Q (-1) s) ->
  (forall s' l', space kend s' pd x' l' -> tstable kend pd s s' l l' ->
     own s' pd ++ l' ≡ₚ taken (v_shm s) (pdx a) e ++ own s pd ++ l ->
     (forall b, 0 <= b < 4294967296 -> lookup_pte (v_mem s') pd b =
        if decide (b / PGSIZE = a / PGSIZE) then Some e else lookup_pte (v_mem s) pd b) ->
     if a =? last then Q 0 s'
     else runs (mappages_loop f pd (u32 (a + PGSIZE)) last (u32 (pa + PGSIZE)) perm) s' Q) ->
  runs (mappages_loop (S f) pd a last pa perm) s Q.
Proof.
  intros Hs Ha Hl e He Hx Hpg Hfail Hok. cbn [mappages_loop]. apply runs_bind.
  eapply runs_mono; [by apply (walkpgdir_alloc pd a s x l) |].
  intros p s1 [(-> & -> & Hnil & _) | (t & l1 & -> & Hp0 & Ht & Hs1 & Hpm & [Hsh Htp Hfr] & Hlk)].
  { cbn [Z.eqb]. by apply runs_ret, Hfail. }
  apply Z.eqb_neq in Hp0. rewrite Hp0. apply runs_bind, runs_get.
  change (load32 (v_mem s1) (t + 4 * Z.of_nat (ptx a))) with (leaf (v_mem s1) t (ptx a)).
  assert (Hnp : presentb (leaf (v_mem s1) t (ptx a)) = false).
  { rewrite <- Hlk in Hl. unfold lookup_pte in Hl. rewrite Ht in Hl. by destruct (presentb _). }
  rewrite Hnp. apply runs_bind, runs_modify. fold e. rewrite <- Hsh in Hx.
  destruct (space_setleaf s1 pd x x' l1 (pdx a) (ptx a) t e Hs1 (pdx_lt a) (ptx_lt a) Ht Hnp He Hx)
    as (Hs2 & Ho2 & Hls); [auto |].
  set (s2 := with_vmem _ s1) in *. specialize (Hok s2 l1 Hs2).
  rewrite Hsh in Ho2. ospecialize* Hok.
  - split; [done | by rewrite (ls_tabs Hls) |].
    intros w Hw Hn. eapply same_page_trans; [by apply Hfr |].
    destruct (space_tab_page _ _ _ _ _ _ Hs1 (pdx_lt a) Ht) as (Hpt & _).
    apply (store32_same_page kend); [done | done | | apply ptx_lt]. intros ->. apply Hn. right. rewrite <- Htp.
    apply tab_elem in Ht; [| apply pdx_lt]. rewrite elem_of_app. auto.
  - rewrite Ho2, <- app_assoc. by apply Permutation_app_head.
  - intros b Hb. rewrite (ls_lookup Hls), Hlk. unfold e at 1. rewrite presentb_lor. fold e.
    pose proof (same_vpage b a Hb Ha) as Hiff. by repeat case_decide; try tauto.
  - destruct (a =? last); [by apply runs_ret | done].
Qed.

Lemma pgrounddown_aligned a k : a = k * PGSIZE -> forall d, 0 <= d < PGSIZE -> PGROUNDDOWN (a + d) = a.
Proof.
  intros -> d Hd. unfold PGROUNDDOWN. rewrite land_lnot_pages. unfold PGSIZE in *.
  rewrite (Z.add_comm _ d), Z_mod_plus_full, Z.mod_small by lia. lia.
Qed.

Definition pte_of (pa perm : Z) : Z := Z.lor (Z.lor pa perm) PTE_P.

Lemma pte_of_eq pa perm : pte_of pa perm = Z.lor pa (Z.lor perm PTE_P).
Proof. unfold pte_of. by rewrite Z.lor_assoc. Qed.

Lemma perm_P perm : 0 <= perm < 4096 -> 0 <= Z.lor perm PTE_P < 4096.
Proof. intros H. apply lor_flags_range; [done | unfold PTE_P; lia]. Qed.

(** A page mapped at a user address; [taken] says whether its owner changes. *)
Lemma mappages_page pd va v perm s x x' l :
  space kend s pd x l -> page kend v -> va mod PGSIZE = 0 -> 0 <= va < KERNBASE -> 0 <= perm < 4096 ->
  lookup_pte (v_mem s) pd va = None -> x = taken (v_shm s) (pdx va) (pte_of (V2P v) perm) ++ x' ->
  runs (mappages pd va PGSIZE (V2P v) perm) s (fun r s' =>
    (r = -1 /\ s' = s /\ l = []) \/
    (r = 0 /\ exists l', space kend s' pd x' l' /\ tstable kend pd s s' l l' /\
      own s' pd ++ l' ≡ₚ taken (v_shm s) (pdx va) (pte_of (V2P v) perm) ++ own s pd ++ l /\
      (forall b, 0 <= b < 4294967296 -> lookup_pte (v_mem s') pd b =
        if decide (b / PGSIZE = va / PGSIZE) then Some (pte_of (V2P v) perm) else lookup_pte (v_mem s) pd b))).
Proof.
  intros Hs Hv [k Hva]%aligned_eq_mul Hr Hperm Hl Hx. unfold mappages.
  assert (E1 : PGROUNDDOWN va = va).
  { rewrite <- (Z.add_0_r va) at 1. apply (pgrounddown_aligned va k Hva). unfold PGSIZE; lia. }
  assert (E2 : PGROUNDDOWN (u32 (va + PGSIZE - 1)) = va).
  { rewrite u32_small by (unfold KERNBASE, PGSIZE in *; lia).
    replace (va + PGSIZE - 1) with (va + (PGSIZE - 1)) by lia. apply (pgrounddown_aligned va k Hva).
    unfold PGSIZE; lia. }
  rewrite E1, E2. pose proof (perm_P perm Hperm) as Hf.
  eapply mappages_loop_step; [exact Hs | unfold KERNBASE in *; lia | done
    | rewrite <- Z.lor_assoc; by apply entry_range | exact Hx | rewrite <- Z.lor_assoc; by rewrite entry_page | |].
  - intros ->. by left.
  - intros s' l' Hs' Hst Hpm Hlk. rewrite Z.eqb_refl. right. split; [done |]. by exists l'.
Qed.

Lemma taken_user sh va v perm :
  0 <= va < KERNBASE -> page kend v -> 0 <= perm < 4096 ->
  taken sh (pdx va) (pte_of (V2P v) perm) = if shmp sh v then [] else [v].
Proof.
  intros Hr%pdx_user%Nat.ltb_lt Hv Hp. unfold taken, upage. rewrite Hr. unfold pte_of at 1. rewrite presentb_lor.
  rewrite pte_of_eq, entry_page by (done || by apply perm_P). by destruct (shmp sh v).
Qed.

Lemma mappages_user pd va v perm s x l :
  space kend s pd (v :: x) l -> va mod PGSIZE = 0 -> 0 <= va < KERNBASE -> 0 <= perm < 4096 ->
  lookup_pte (v_mem s) pd va = None ->
  runs (mappages pd va PGSIZE (V2P v) perm) s (fun r s' =>
    (r = -1 /\ s' = s /\ l = []) \/
    (r = 0 /\ exists l', space kend s' pd x l' /\ tstable kend pd s s' l l' /\
      own s' pd ++ l' ≡ₚ v :: own s pd ++ l /\
      (forall b, 0 <= b < 4294967296 -> lookup_pte (v_mem s') pd b =
        if decide (b / PGSIZE = va / PGSIZE) then Some (pte_of (V2P v) perm) else lookup_pte (v_mem s) pd b))).
Proof.
  intros Hs Hva Hr Hperm Hl. destruct (newtab_ne _ _ _ _ _ Hs) as (Hv & _ & _).
  assert (Htk : taken (v_shm s) (pdx va) (pte_of (V2P v) perm) = [v]).
  { rewrite taken_user by done. destruct (shmp (v_shm s) v) eqn:Hsh; [| done]. apply (sp_shm _ _ _ _ _ Hs) in Hsh.
    exfalso. apply Hsh. right. rewrite !elem_of_app. right. left. by left. }
  pose proof (mappages_page pd va v perm s (v :: x) x l Hs Hv Hva Hr Hperm Hl) as H. rewrite Htk in H. by apply H.
Qed.

(** A shared page. *)
Lemma mappages_shm pd va v perm s x l :
  space kend s pd x l -> page kend v -> shmp (v_shm s) v = true ->
  va mod PGSIZE = 0 -> 0 <= va < KERNBASE -> 0 <= perm < 4096 -> lookup_pte (v_mem s) pd va = None ->
  runs (mappages pd va PGSIZE (V2P v) perm) s (fun r s' =>
    (r = -1 /\ s' = s /\ l = []) \/
    (r = 0 /\ exists l', space kend s' pd x l' /\ tstable kend pd s s' l l' /\
      own s' pd ++ l' ≡ₚ own s pd ++ l /\
      (forall b, 0 <= b < 4294967296 -> lookup_pte (v_mem s') pd b =
        if decide (b / PGSIZE = va / PGSIZE) then Some (pte_of (V2P v) perm) else lookup_pte (v_mem s) pd b))).
Proof.
  intros Hs Hv Hsh Hva Hr Hperm Hl. pose proof (mappages_page pd va v perm s x x l Hs Hv Hva Hr Hperm Hl) as H.
  rewrite taken_user, Hsh in H by done. by apply H.
Qed.

Lemma pdx_kernel va : KERNBASE <= va < 4294967296 -> (512 <= pdx va)%nat.
Proof.
  unfold KERNBASE. intros Hva. pose proof (pdx_ptx va ltac:(lia)) as H. pose proof (ptx_lt va).
  assert (524288 <= va / 4096) by (apply Z.div_le_lower_bound; lia). lia.
Qed.

(** Pages mapped from a kernel address on. *)
Lemma mappages_kernel_loop n : forall f pd ka kp perm s x l,
  space kend s pd x l -> (n < f)%nat -> KERNBASE <= ka * PGSIZE -> (ka + Z.of_nat n) * PGSIZE < 4294967296 ->
  0 <= kp -> (kp + Z.of_nat n) * PGSIZE < 4294967296 -> 0 <= perm < 4096 ->
  (forall b, 0 <= b < 4294967296 -> ka <= b / PGSIZE <= ka + Z.of_nat n -> lookup_pte (v_mem s) pd b = None) ->
  runs (mappages_loop f pd (ka * PGSIZE) ((ka + Z.of_nat n) * PGSIZE) (kp * PGSIZE) perm) s (fun r s' =>
    exists l', space kend s' pd x l' /\ stable kend pd s s' l l' /\ (r = 0 \/ r = -1) /\
      (r = -1 -> l' = [] /\ forall b, 0 <= b < KERNBASE -> lookup_pte (v_mem s') pd b = lookup_pte (v_mem s) pd b) /\
      (r = 0 -> forall b, 0 <= b < 4294967296 -> lookup_pte (v_mem s') pd b =
        if decide (ka <= b / PGSIZE <= ka + Z.of_nat n)
        then Some (pte_of ((kp + (b / PGSIZE - ka)) * PGSIZE) perm) else lookup_pte (v_mem s) pd b)).
Proof.
  induction n as [|n IH]; intros [|f] pd ka kp perm s x l Hs Hf Hka Hkn Hkp Hpn Hperm Hl; try lia;
    unfold PGSIZE in Hka, Hkn, Hkp, Hpn.
  all: assert (Hi : (512 <= pdx (ka * PGSIZE))%nat) by (apply pdx_kernel; unfold PGSIZE, KERNBASE in *; lia).
  all: assert (Htk : taken (v_shm s) (pdx (ka * PGSIZE)) (Z.lor (Z.lor (kp * PGSIZE) perm) PTE_P) = [])
    by (unfold taken; destruct (Nat.ltb_spec (pdx (ka * PGSIZE)) 512); [lia | done]).
  all: assert (Hdiv : ka * PGSIZE / PGSIZE = ka) by (apply Z.div_mul; unfold PGSIZE; lia).
  all: eapply mappages_loop_step;
    [exact Hs | unfold KERNBASE, PGSIZE in *; lia | apply Hl; [unfold KERNBASE, PGSIZE in *; lia | lia]
    | rewrite <- Z.lor_assoc; unfold PGSIZE; rewrite lor_page by (by apply perm_P);
      pose proof (perm_P perm Hperm); lia
    | by rewrite Htk | lia | intros ->; exists []; split; [done |]; split; [apply stable_refl |];
      split; [by right |]; split; [done | done] |].
  all: intros s' l' Hs' Hts Hpm Hlk; rewrite Htk in Hpm; cbn [app] in Hpm; rewrite Hdiv in Hlk;
    pose proof (tstable_stable _ _ _ _ _ _ Hts Hpm) as Hst.
  - rewrite Z.add_0_r, Z.eqb_refl. exists l'. split; [done |]. split; [done |]. split; [by left |].
    split; [done |]. intros _ b Hb. rewrite (Hlk b Hb). repeat case_decide; try lia; [| done].
    replace (kp + (b / PGSIZE - ka)) with kp by lia. done.
  - destruct (Z.eqb_spec (ka * PGSIZE) ((ka + Z.of_nat (S n)) * PGSIZE)); [unfold PGSIZE in *; lia |].
    rewrite !u32_small by (unfold KERNBASE, PGSIZE in *; lia).
    replace (ka * PGSIZE + PGSIZE) with ((ka + 1) * PGSIZE) by lia.
    replace (kp * PGSIZE + PGSIZE) with ((kp + 1) * PGSIZE) by lia.
    replace (ka + Z.of_nat (S n)) with (ka + 1 + Z.of_nat n) by lia.
    eapply runs_mono; [apply (IH f pd (ka + 1) (kp + 1) perm s' x l' Hs'); unfold PGSIZE; try lia |].
    { intros b Hb Hr. rewrite Hlk, decide_False by (done || unfold PGSIZE in *; lia). apply Hl; [done | unfold PGSIZE; lia]. }
    intros r s2 (l2 & Hs2 & Hst2 & Hr & Hm1 & H0). exists l2. split; [done |].
    split; [by eapply stable_trans |]. split; [done |]. split.
    + intros Hr'. destruct (Hm1 Hr') as [Hnil Hsame]. split; [done |]. intros b Hb. rewrite (Hsame b Hb), Hlk by (unfold KERNBASE in *; lia). rewrite decide_False; [done |].
      intros Hc. assert (b / PGSIZE < 524288) by (apply Z.div_lt_upper_bound; unfold PGSIZE, KERNBASE in *; lia).
      unfold KERNBASE, PGSIZE in *; lia.
    + intros Hr' b Hb. rewrite (H0 Hr' b Hb), Hlk by done.
      repeat case_decide; try lia; try done;
        match goal with |- context [pte_of ?z _] => replace z with ((kp + (b / PGSIZE - ka)) * PGSIZE) by lia end; try done.
      replace (kp + (b / PGSIZE - ka)) with kp by lia. done.
Qed.

(** ** Unmapping *)

Lemma leaf_upage sh m pd i j t :
  (i < 512)%nat -> (j < 1024)%nat -> tab m pd i = Some t -> forall v, v ∈ upage sh (leaf m t j) -> v ∈ upages sh m pd.
Proof.
  intros Hi Hj Ht v Hv. apply elem_of_concat_seq. exists i. rewrite Ht. split; [done |].
  apply elem_of_concat_seq. by exists j.
Qed.

(** A user entry is cleared, its private page [g] free in [s1] already. *)
Lemma space_clearleaf s s1 pd x l i j t g :
  space kend s pd x l -> (i < 512)%nat -> (j < 1024)%nat -> tab (v_mem s) pd i = Some t ->
  upage (v_shm s) (leaf (v_mem s) t j) = g -> v_shm s1 = v_shm s -> kmem_free kend (v_kmem s1) (g ++ l) ->
  (forall w, page kend w -> w ∉ g -> same_page (v_mem s) (v_mem s1) w) ->
  let s' := with_vmem (store32 (v_mem s1) (t + 4 * Z.of_nat j) 0) s1 in
  space kend s' pd x (g ++ l) /\ stable kend pd s s' l (g ++ l) /\ leaf_step (v_mem s) (v_mem s') pd i j t 0.
Proof.
  intros Hs Hi Hj Ht Hg Hsh Hf Hsame s'.
  assert (Hgu : forall v, v ∈ g -> v ∈ upages (v_shm s) (v_mem s) pd).
  { intros v Hv. eapply leaf_upage; [exact Hi | exact Hj | exact Ht |]. by rewrite Hg. }
  assert (Hpl : forall v, v ∈ own s pd -> page kend v) by (intros v Hv; apply (sp_pages _ _ _ _ _ Hs); rewrite elem_of_app; auto).
  assert (Hgt : forall v, v ∈ pd :: tabs (v_mem s) pd -> v ∉ g).
  { intros v Hv Hvg%Hgu. pose proof (sp_nodup _ _ _ _ _ Hs) as Hnd. apply NoDup_app in Hnd as (Hnd & _).
    unfold own in Hnd. rewrite app_comm_cons in Hnd. apply NoDup_app in Hnd as (_ & Hd & _). by apply (Hd v). }
  assert (Ht1 : t ∈ pd :: tabs (v_mem s) pd) by (right; eapply tab_elem; [| done]; lia).
  assert (Hown : forall v, v ∈ pd :: tabs (v_mem s) pd -> page kend v).
  { intros v Hv. apply Hpl. unfold own. rewrite app_comm_cons, elem_of_app. auto. }
  assert (Hls : leaf_step (v_mem s) (v_mem s') pd i j t 0).
  { apply (leaf_step_store s pd x l); [done | lia | done | done | lia | |].
    - apply Hsame; [apply Hown | apply Hgt]; left.
    - intros t' Ht'. apply Hsame; [apply Hown | apply Hgt]; by right. }
  assert (Ho : g ++ own s' pd ≡ₚ own s pd).
  { pose proof (ls_own s s' pd i j t 0 Hls Hsh) as Ho. unfold taken in Ho. apply Nat.ltb_lt in Hi. rewrite Hi in Ho.
    by rewrite Hg in Ho. }
  assert (Hts : forall w, page kend w -> w <> t -> w ∉ g -> same_page (v_mem s) (v_mem s') w).
  { intros w Hw Hne Hwg. eapply same_page_trans; [by apply Hsame |].
    apply (store32_same_page kend); [by apply Hown | done | congruence | done]. }
  split; [| split; [| done]].
  - eapply space_step; [exact Hs | | done | | eapply (ls_pages Hls); [apply Hs |]; intros _; done].
    + apply kmem_free_ext; [done |]. intros w Hw. apply (store32_same_page kend); [by apply Hown | | | done].
      * destruct Hf as [Hc _]. by eapply free_chain_page.
      * intros ->. apply elem_of_app in Hw as [Hw|Hw]; [by apply (Hgt w) |].
        destruct (space_tab_page _ _ _ _ i w Hs ltac:(lia) Ht) as (_ & _ & Hn). apply Hn. rewrite elem_of_app. auto.
    + rewrite <- Ho, <- app_assoc, !(Permutation_app_swap_app _ g). done.
  - split; [done | by rewrite <- Ho, <- app_assoc, (Permutation_app_swap_app _ g) |].
    intros w Hw Hn. apply Hts; [done | |]; [intros -> | intros Hwg%Hgu]; apply Hn; rewrite elem_of_app; left; unfold own;
      rewrite app_comm_cons, elem_of_app; auto.
Qed.

(** The block of [deallocuvm] that releases one present page. *)
Lemma unmap_one s pd x l i j t (Q : unit -> vst -> Prop) :
  space kend s pd x l -> (i < 512)%nat -> (j < 1024)%nat -> tab (v_mem s) pd i = Some t ->
  presentb (leaf (v_mem s) t j) = true ->
  (forall s' l', space kend s' pd x l' -> stable kend pd s s' l l' ->
    leaf_step (v_mem s) (v_mem s') pd i j t 0 -> Q tt s') ->
  let e := leaf (v_mem s) t j in
  runs (if PTE_ADDR e =? 0 then panic "kfree"
        else
          let* found := is_shm (P2V (PTE_ADDR e)) in
          (if found then ret tt else kfree_st kend (P2V (PTE_ADDR e))) ;;; wr32 (t + 4 * Z.of_nat j) 0) s Q.
Proof.
  intros Hs Hi Hj Ht Hp HQ e. pose proof (sp_leaf _ _ _ _ _ Hs i j t Hi Hj Ht Hp) as Hpg. fold e in Hpg, Hp.
  destruct (Z.eqb_spec (PTE_ADDR e) 0) as [He|_].
  { rewrite He in Hpg. destruct Hpg as (_ & Hk & _). unfold P2V in Hk. rewrite u32_small in Hk by (unfold KERNBASE; lia). lia. }
  apply runs_bind, runs_get. change (existsb _ (v_shm s)) with (shmp (v_shm s) (P2V (PTE_ADDR e))).
  destruct (shmp (v_shm s) (P2V (PTE_ADDR e))) eqn:Hsh; apply runs_bind.
  - apply runs_ret, runs_modify.
    destruct (space_clearleaf s s pd x l i j t [] Hs Hi Hj Ht) as (H1 & H2 & H3); [| done | apply Hs | done |].
    + fold e. unfold upage. by rewrite Hp, Hsh.
    + by eapply HQ.
  - assert (Hu : upage (v_shm s) (leaf (v_mem s) t j) = [P2V (PTE_ADDR e)]) by (fold e; unfold upage; by rewrite Hp, Hsh).
    assert (Hnl : P2V (PTE_ADDR e) ∉ l).
    { pose proof (sp_nodup _ _ _ _ _ Hs) as Hnd. apply NoDup_app in Hnd as (_ & Hd & _). intros Hl.
      apply (Hd (P2V (PTE_ADDR e))); [| rewrite elem_of_app; auto]. unfold own. rewrite app_comm_cons, elem_of_app. right.
      eapply leaf_upage; [exact Hi | exact Hj | exact Ht |]. rewrite Hu. by left. }
    destruct (kfree_spec kend _ _ _ Hpg (sp_free _ _ _ _ _ Hs) Hnl) as (k' & Hk & Hf & Hm).
    exists tt, (with_vkmem k' s). unfold kfree_st. rewrite Hk. split; [done |]. apply runs_modify.
    destruct (space_clearleaf s (with_vkmem k' s) pd x l i j t _ Hs Hi Hj Ht Hu) as (H1 & H2 & H3);
      [done | done | | by eapply HQ].
    intros w Hw Hne y Hy. apply Hm. rewrite list_elem_of_singleton in Hne.
    destruct (page_apart kend _ w Hpg Hw ltac:(congruence)); lia.
Qed.

Lemma pgaddr_next a :
  0 <= a < KERNBASE ->
  u32 (u32 (PGADDR (PDX a + 1) 0 0 - PGSIZE) + PGSIZE) = (Z.of_nat (pdx a) + 1) * 1024 * PGSIZE.
Proof.
  intros Ha. pose proof (pdx_user a Ha) as Hi. rewrite <- pdx_Z. unfold PGADDR.
  rewrite Z.shiftl_0_l, !Z.lor_0_r, Z.shiftl_mul_pow2 by lia. change (2 ^ 22) with 4194304. unfold PGSIZE.
  set (z := (Z.of_nat (pdx a) + 1) * 4194304). assert (Hz : 4194304 <= z <= 2147483648) by lia.
  rewrite (u32_small z), (u32_small (z - 4096)) by lia.
  rewrite u32_small by lia. lia.
Qed.

Lemma lookup_none_tab m pd a b :
  tab m pd (pdx a) = None -> pdx b = pdx a -> lookup_pte m pd b = None.
Proof. intros Ht Hb. unfold lookup_pte. by rewrite Hb, Ht. Qed.

Lemma vpage_range b : 0 <= b -> b / PGSIZE * PGSIZE <= b < b / PGSIZE * PGSIZE + PGSIZE.
Proof.
  intros Hb. unfold PGSIZE. pose proof (Z.div_mod b 4096). pose proof (Z.mod_pos_bound b 4096). lia.
Qed.

Lemma pdx_div b : 0 <= b < 4294967296 -> Z.of_nat (pdx b) = b / PGSIZE / 1024.
Proof.
  intros Hb. unfold PGSIZE. rewrite pdx_ptx by done. pose proof (ptx_lt b).
  rewrite Z.mul_comm, Z.div_add_l, Z.div_small by lia. lia.
Qed.

(** What the views look like when the pages from [ka] up to [oldsz] are gone. *)
Definition unmapped (m m' : mem) (pd ka oldsz : Z) : Prop :=
  forall b, 0 <= b < 4294967296 -> lookup_pte m' pd b =
    if decide (ka <= b / PGSIZE /\ b / PGSIZE * PGSIZE < oldsz) then None else lookup_pte m pd b.

Lemma unmapped_next m m1 m2 pd ka ka' oldsz :
  ka <= ka' ->
  (forall b, 0 <= b < 4294967296 -> ka <= b / PGSIZE < ka' -> lookup_pte m1 pd b = None) ->
  (forall b, 0 <= b < 4294967296 -> ~ (ka <= b / PGSIZE < ka') -> lookup_pte m1 pd b = lookup_pte m pd b) ->
  ((ka' - 1) * PGSIZE < oldsz \/ (forall b, lookup_pte m1 pd b = lookup_pte m pd b)) ->
  unmapped m1 m2 pd ka' oldsz -> unmapped m m2 pd ka oldsz.
Proof.
  intros Hle H1 H2 H3 Hm b Hb. rewrite (Hm b Hb). case_decide as Hc; case_decide as Hd; try done; try lia.
  - apply H1; [done | lia].
  - destruct (decide (ka <= b / PGSIZE < ka')) as [Hr|Hr]; [| by apply H2].
    destruct H3 as [H3|H3]; [| by rewrite H3]. exfalso. apply Hd. split; [lia |].
    unfold PGSIZE in *. lia.
Qed.

Lemma deallocuvm_loop_spec f : forall pd ka oldsz s x l,
  space kend s pd x l -> 0 <= ka -> 0 <= oldsz <= KERNBASE -> oldsz <= (ka + Z.of_nat f) * PGSIZE ->
  runs (deallocuvm_loop kend f pd (ka * PGSIZE) oldsz) s (fun _ s' => exists l',
    space kend s' pd x l' /\ stable kend pd s s' l l' /\ unmapped (v_mem s) (v_mem s') pd ka oldsz).
Proof.
  induction f as [|f IH]; intros pd ka oldsz s x l Hs Hka Ho Hf; cbn [deallocuvm_loop];
    (destruct (Z.leb_spec oldsz (ka * PGSIZE)) as [Hle|Hgt];
     [apply runs_ret; exists l; split; [done |]; split; [apply stable_refl |];
      intros b Hb; rewrite decide_False; [done |]; unfold PGSIZE in *; lia |]).
  { unfold PGSIZE in *. lia. }
  assert (Ha : 0 <= ka * PGSIZE < KERNBASE) by (unfold PGSIZE in *; lia).
  assert (Hdiv : ka * PGSIZE / PGSIZE = ka) by (apply Z.div_mul; unfold PGSIZE; lia).
  assert (Ha' : 0 <= ka * PGSIZE < 4294967296) by (unfold KERNBASE in *; lia).
  apply runs_bind. eexists _, _. split; [apply walkpgdir_find |].
  destruct (tab (v_mem s) pd (pdx (ka * PGSIZE))) as [t|] eqn:Ht.
  - destruct (space_tab_page _ _ _ _ _ _ Hs (pdx_lt _) Ht) as (Hpt%page_range & _).
    rewrite (proj2 (Z.eqb_neq (t + _) 0)) by lia. apply runs_bind, runs_get.
    change (load32 _ _) with (leaf (v_mem s) t (ptx (ka * PGSIZE))).
    rewrite u32_small by (unfold KERNBASE, PGSIZE in *; lia).
    replace (ka * PGSIZE + PGSIZE) with ((ka + 1) * PGSIZE) by lia. apply runs_bind.
    destruct (presentb (leaf (v_mem s) t (ptx (ka * PGSIZE)))) eqn:Hp.
    + apply (unmap_one s pd x l (pdx (ka * PGSIZE))); [done | by apply pdx_user | apply ptx_lt | done | done |].
      intros s1 l1 Hs1 Hst1 Hls. eapply runs_mono; [apply (IH pd (ka + 1) oldsz s1 x l1); (done || lia) |].
      intros _ s2 (l2 & Hs2 & Hst2 & Hun). exists l2. split; [done |]. split; [by eapply stable_trans |].
      eapply unmapped_next; [| | | | exact Hun]; [lia | | | left; lia].
      * intros b Hb Hr. rewrite (ls_lookup Hls). rewrite decide_True; [done |]. apply same_vpage; [done | done | lia].
      * intros b Hb Hr. rewrite (ls_lookup Hls). rewrite decide_False; [done |]. rewrite same_vpage by done. lia.
    + apply runs_ret. eapply runs_mono; [apply (IH pd (ka + 1) oldsz s x l); (done || lia) |].
      intros _ s2 (l2 & Hs2 & Hst2 & Hun). exists l2. split; [done |]. split; [done |].
      eapply unmapped_next; [| | | | exact Hun]; [lia | | done | left; lia].
      intros b Hb Hr. unfold lookup_pte. assert (pdx b = pdx (ka * PGSIZE) /\ ptx b = ptx (ka * PGSIZE)) as [-> ->].
      { apply same_vpage; [done | done | lia]. }
      by rewrite Ht, Hp.
  - cbn [Z.eqb]. rewrite pgaddr_next by done. pose proof (pdx_div _ Ha') as Hpd. rewrite Hdiv in Hpd.
    pose proof (Z.div_mod ka 1024). pose proof (Z.mod_pos_bound ka 1024).
    eapply runs_mono; [apply (IH pd ((Z.of_nat (pdx (ka * PGSIZE)) + 1) * 1024) oldsz s x l); (done || unfold PGSIZE in *; lia) |].
    intros _ s2 (l2 & Hs2 & Hst2 & Hun). exists l2. split; [done |]. split; [done |].
    eapply unmapped_next; [| | | | exact Hun]; [lia | | done | by right].
    intros b Hb Hr. eapply lookup_none_tab; [exact Ht |].
    pose proof (pdx_div b Hb). pose proof (Z.div_mod (b / PGSIZE) 1024). pose proof (Z.mod_pos_bound (b / PGSIZE) 1024). lia.
Qed.

(** Pages a size takes. *)
Definition npages (sz : Z) : Z := (sz + 4095) / 4096.

Lemma npages_bounds sz : sz <= npages sz * PGSIZE < sz + PGSIZE.
Proof.
  unfold npages, PGSIZE. pose proof (Z.div_mod (sz + 4095) 4096). pose proof (Z.mod_pos_bound (sz + 4095) 4096). lia.
Qed.

Lemma pgroundup_npages sz : 0 <= sz <= KERNBASE -> PGROUNDUP sz = npages sz * PGSIZE.
Proof.
  intros Hs. unfold KERNBASE in Hs. destruct (pgroundup_spec sz) as [H1 [k H2]%aligned_eq_mul]; [lia |].
  pose proof (npages_bounds sz). unfold PGSIZE in *. lia.
Qed.

Lemma deallocuvm_spec pd oldsz newsz s x l :
  space kend s pd x l -> 0 <= oldsz <= KERNBASE -> 0 <= newsz ->
  runs (deallocuvm kend pd oldsz newsz) s (fun r s' => exists l', r = Z.min oldsz newsz /\
    space kend s' pd x l' /\ stable kend pd s s' l l' /\ unmapped (v_mem s) (v_mem s') pd (npages newsz) oldsz).
Proof.
  intros Hs Ho Hn. unfold deallocuvm. destruct (Z.leb_spec oldsz newsz).
  { apply runs_ret. exists l. split; [lia |]. split; [done |]. split; [apply stable_refl |].
    intros b Hb. rewrite decide_False; [done |]. pose proof (npages_bounds newsz). unfold PGSIZE in *; lia. }
  rewrite pgroundup_npages by lia. pose proof (npages_bounds newsz). unfold PGSIZE in H0.
  apply runs_bind. eapply runs_mono; [apply (deallocuvm_loop_spec _ pd _ _ s x l Hs) |].
  - lia.
  - done.
  - unfold PGSIZE. pose proof (Z.div_mod oldsz 4096). pose proof (Z.mod_pos_bound oldsz 4096).
    assert (0 <= oldsz / 4096) by (apply Z.div_pos; lia). lia.
  - intros _ s' (l' & H1 & H2 & H3). apply runs_ret. exists l'. split; [lia | done].
Qed.

(** ** Releasing an address space *)

Lemma pdx_ptx_at i j :
  (i < 1024)%nat -> (j < 1024)%nat ->
  let b := (1024 * Z.of_nat i + Z.of_nat j) * 4096 in pdx b = i /\ ptx b = j.
Proof.
  intros Hi Hj b. assert (Hb : 0 <= b < 4294967296) by lia. pose proof (pdx_ptx b Hb) as H.
  unfold b in H at 1. rewrite Z.div_mul in H by lia. pose proof (ptx_lt b). lia.
Qed.

Lemma upages_none sh m pd : (forall b, 0 <= b < KERNBASE -> lookup_pte m pd b = None) -> upages sh m pd = [].
Proof.
  intros H. destruct (upages sh m pd) as [|v u] eqn:He; [done | exfalso].
  assert (Hv : v ∈ upages sh m pd) by (rewrite He; by left). apply elem_of_concat_seq in Hv as (i & Hi & Hv).
  destruct (tab m pd i) as [t|] eqn:Ht; [| by apply not_elem_of_nil in Hv].
  apply elem_of_concat_seq in Hv as (j & Hj & Hv).
  destruct (pdx_ptx_at i j) as [Hp1 Hp2]; [lia | lia |].
  specialize (H ((1024 * Z.of_nat i + Z.of_nat j) * 4096) ltac:(unfold KERNBASE; lia)).
  unfold lookup_pte in H. rewrite Hp1, Hp2, Ht in H. unfold upage in Hv.
  destruct (presentb (leaf m t j)); [done | by apply not_elem_of_nil in Hv].
Qed.

Lemma length_tabs m pd : (length (tabs m pd) <= 1024)%nat.
Proof.
  unfold tabs. rewrite <- (length_seq 1024 0) at 2. induction (seq 0 1024) as [|i l IH]; [done |].
  cbn. rewrite length_app. destruct (tab m pd i); cbn; lia.
Qed.

(** A space without user pages has a directory and tables. *)
Lemma own_tables s pd :
  (forall b, 0 <= b < KERNBASE -> lookup_pte (v_mem s) pd b = None) -> (length (own s pd) <= 1025)%nat.
Proof.
  intros Hu. unfold own. rewrite (upages_none _ _ _ Hu), app_nil_r. rewrite length_cons. pose proof (length_tabs (v_mem s) pd). lia.
Qed.

Lemma freevm_loop_spec pd L : forall s l,
  let R := concat ((fun i => option_list (tab (v_mem s) pd i)) <$> L) in
  kmem_free kend (v_kmem s) l -> Forall (fun i => (i < 1024)%nat) L -> page kend pd -> NoDup (pd :: R ++ l) ->
  (forall v, v ∈ R -> page kend v /\ shmp (v_shm s) v = false) ->
  runs (freevm_loop kend pd L) s (fun _ s' => exists l', kmem_free kend (v_kmem s') l' /\ l' ≡ₚ R ++ l /\
    v_shm s' = v_shm s /\ (forall w, page kend w -> w ∉ R -> same_page (v_mem s) (v_mem s') w)).
Proof.
  induction L as [|i L IH]; intros s l R Hf HL Hpd Hnd HR; cbn [freevm_loop].
  { apply runs_ret. exists l. split; [done |]. split; [done |]. split; [done |]. by intros w _ _ x _. }
  apply Forall_cons in HL as [Hi HL]. apply runs_bind, runs_get.
  unfold R in *. clear R. cbn [fmap list_fmap concat] in *. destruct (tab (v_mem s) pd i) as [v|] eqn:Ht;
    unfold tab in Ht; destruct (presentb _) eqn:Hp; try done; cbn [option_list app] in *.
  2: { apply runs_bind, runs_ret. by apply IH. }
  injection Ht as ->.
  destruct (HR v) as [Hv Hvs]; [by left |].
  apply NoDup_cons in Hnd as [Hn1 Hnd]. apply NoDup_cons in Hnd as [Hn2 Hnd].
  apply runs_bind, runs_bind, runs_get. change (existsb _ (v_shm s)) with (shmp (v_shm s) v). rewrite Hvs.
  assert (Hnl : v ∉ l) by (intros H; apply Hn2; rewrite elem_of_app; auto).
  destruct (kfree_spec kend _ _ _ Hv Hf Hnl) as (k' & Hk & Hf' & Hm).
  exists tt, (with_vkmem k' s). unfold kfree_st. rewrite Hk. split; [done |].
  assert (Hsame : forall w, page kend w -> w <> v -> same_page (v_mem s) (v_mem (with_vkmem k' s)) w).
  { intros w Hw Hne y Hy. apply Hm. destruct (page_apart kend v w Hv Hw ltac:(congruence)); lia. }
  assert (HRe : concat ((fun i => option_list (tab (v_mem (with_vkmem k' s)) pd i)) <$> L) =
                concat ((fun i => option_list (tab (v_mem s) pd i)) <$> L)).
  { f_equal. apply list_fmap_ext. intros y j Hy. eapply Forall_lookup_1 in HL; [| exact Hy].
    rewrite (tab_ext (v_mem s)); [done | | done]. apply Hsame; [done |]. intros ->. apply Hn1. by left. }
  eapply runs_mono; [apply (IH (with_vkmem k' s) (v :: l)) |]; rewrite ?HRe; try done.
  - rewrite <- Permutation_middle. constructor; [done | by constructor].
  - intros w Hw. apply HR. by right.
  - intros _ s' (l' & H1 & H2 & H3 & H4). exists l'. split; [done |].
    split; [by rewrite H2, <- Permutation_middle |]. split; [done |].
    intros w Hw Hn. apply not_elem_of_cons in Hn as [Hn Hn']. eapply same_page_trans; [apply Hsame; [done | congruence] | by apply H4].
Qed.

Lemma freevm_spec pd s x l :
  space kend s pd x l ->
  runs (freevm kend pd) s (fun _ s' => exists l', kmem_free kend (v_kmem s') l' /\ l' ≡ₚ own s pd ++ l /\
    v_shm s' = v_shm s /\ (forall w, page kend w -> w ∉ own s pd ++ l -> same_page (v_mem s) (v_mem s') w)).
Proof.
  intros Hs. unfold freevm. pose proof (space_pd_page _ _ _ _ Hs) as Hpd.
  rewrite (proj2 (Z.eqb_neq pd 0)) by (by apply (page_ne0 kend)). apply runs_bind.
  eapply runs_mono; [apply (deallocuvm_spec pd KERNBASE 0 s x l Hs); unfold KERNBASE; lia |].
  intros _ s1 (l1 & _ & Hs1 & [Hsh1 Hpm1 Hfr1] & Hun).
  assert (Hup : upages (v_shm s1) (v_mem s1) pd = []).
  { apply upages_none. intros b Hb. rewrite (Hun b) by (unfold KERNBASE in *; lia). rewrite decide_True; [done |].
    pose proof (vpage_range b (proj1 Hb)). split; [apply Z.div_pos; unfold PGSIZE; lia | lia]. }
  assert (Ho1 : own s1 pd = pd :: tabs (v_mem s1) pd) by (unfold own; by rewrite Hup, app_nil_r).
  pose proof (sp_nodup _ _ _ _ _ Hs1) as Hnd. rewrite Ho1, (Permutation_app_comm x), app_assoc in Hnd.
  apply NoDup_app in Hnd as (Hnd & _). apply runs_bind.
  eapply runs_mono; [apply (freevm_loop_spec pd (seq 0 NPDENTRIES) s1 l1) |].
  - apply Hs1.
  - apply Forall_forall. intros i Hi%elem_of_seq. unfold NPDENTRIES in Hi. lia.
  - done.
  - exact Hnd.
  - intros v Hv. split.
    + apply (sp_pages _ _ _ _ _ Hs1). rewrite Ho1, elem_of_app. left. by right.
    + destruct (shmp (v_shm s1) v) eqn:Hsv; [| done]. apply (sp_shm _ _ _ _ _ Hs1) in Hsv. exfalso. apply Hsv.
      right. rewrite elem_of_app. by left.
  - intros _ s2 (l2 & Hf2 & Hp2 & Hsh2 & Hfr2). fold (tabs (v_mem s1) pd) in Hp2, Hfr2.
    cbn [app] in Hnd. apply NoDup_cons in Hnd as [Hn1 Hnd].
    destruct (kfree_spec kend pd (v_kmem s2) l2 Hpd Hf2) as (k' & Hk & Hf' & Hm); [by rewrite Hp2 |].
    exists tt, (with_vkmem k' s2). unfold kfree_st. rewrite Hk. split; [done |].
    exists (pd :: l2). split; [done |]. split; [rewrite <- Hpm1, Ho1, Hp2; done |].
    split; [by cbn [v_shm with_vkmem]; rewrite Hsh2 |].
    intros w Hw Hn. eapply same_page_trans; [by apply Hfr1 |]. rewrite <- Hpm1, Ho1 in Hn.
    eapply same_page_trans; [apply Hfr2; [done |]; intros H; apply Hn; rewrite elem_of_app; left; by right |].
    intros y Hy. apply Hm. destruct (page_apart kend pd w Hpd Hw); [| lia | lia]. intros <-. apply Hn. left.
Qed.

(** ** Growing *)

Definition zero_page (m : mem) (v : Z) : Prop := forall y, v <= y < v + PGSIZE -> m y = 0.

Lemma space_kfree s pd v x l :
  space kend s pd (v :: x) l ->
  runs (kfree_st kend v) s (fun _ s' => space kend s' pd x (v :: l) /\ own s' pd = own s pd /\ v_shm s' = v_shm s /\
    (forall w, page kend w -> w <> v -> same_page (v_mem s) (v_mem s') w) /\
    (forall b, lookup_pte (v_mem s') pd b = lookup_pte (v_mem s) pd b)).
Proof.
  intros Hs. assert (Hv : page kend v) by (by eapply newtab_ne).
  assert (Hnl : v ∉ l).
  { pose proof (sp_nodup _ _ _ _ _ Hs) as Hnd. apply NoDup_app in Hnd as (_ & _ & Hnd). cbn [app] in Hnd.
    apply NoDup_cons in Hnd as [Hn _]. intros H. apply Hn. rewrite elem_of_app. auto. }
  destruct (kfree_spec kend v _ _ Hv (sp_free _ _ _ _ _ Hs) Hnl) as (k' & Hk & Hf & Hm).
  exists tt, (with_vkmem k' s). unfold kfree_st. rewrite Hk. split; [done |].
  assert (Hsame : forall w, page kend w -> w <> v -> same_page (v_mem s) (kmem_mem k') w).
  { intros w Hw Hne y Hy. apply Hm. destruct (page_apart kend v w Hv Hw ltac:(congruence)); lia. }
  destruct (space_write s pd (v :: x) l v (kmem_mem k') Hs) as (Hs' & Ho & _ & _ & Hl); [by left | done |].
  split; [| done]. eapply space_step; [exact Hs' | exact Hf | done | |].
  - change (own (with_vkmem k' s) pd) with (own (with_vmem (kmem_mem k') s) pd). apply Permutation_app_head.
    cbn [app]. symmetry. apply Permutation_middle.
  - apply (sp_leaf _ _ _ _ _ Hs').
Qed.


(** A fresh cleared page, then mapped at a user address. *)
Lemma space_fresh s pd x v l :
  space kend s pd x (v :: l) ->
  exists s2, (kalloc_st s = Ok (v, s2.1)) /\
    s2.2 = with_vmem (memset (v_mem s2.1) v 0 PGSIZE) s2.1 /\ page kend v /\
    space kend s2.2 pd (v :: x) l /\ own s2.2 pd = own s pd /\ v_shm s2.2 = v_shm s /\ zero_page (v_mem s2.2) v /\
    tabs (v_mem s2.2) pd = tabs (v_mem s) pd /\
    (forall w, page kend w -> w <> v -> same_page (v_mem s) (v_mem s2.2) w) /\
    (forall b, lookup_pte (v_mem s2.2) pd b = lookup_pte (v_mem s) pd b).
Proof.
  intros Hs. destruct (kalloc_st_spec s pd x (v :: l) Hs) as (s1 & Hk & Hm & Hsh & Ho & Hv & Hs1).
  exists (s1, with_vmem (memset (v_mem s1) v 0 PGSIZE) s1). cbn [fst snd].
  assert (Hsame : forall w, page kend w -> w <> v -> same_page (v_mem s1) (memset (v_mem s1) v 0 PGSIZE) w).
  { intros w Hw Hne. by apply (memset_same_page kend). }
  destruct (space_write s1 pd (v :: x) l v (memset (v_mem s1) v 0 PGSIZE) Hs1) as (Hs2 & Ho2 & Ht2 & _ & Hl2);
    [by left | done |]. rewrite <- Hm.
  split; [done |]. split; [done |]. split; [done |]. split; [done |]. split; [congruence |]. split; [done |].
  split; [| done]. intros y Hy. cbn [v_mem with_vmem v_kmem kmem_mem].
  rewrite memset_spec by (unfold PGSIZE; lia). unfold PGSIZE in *. bool_cases; simpl; (done || lia).
Qed.

(** The user pages from [k] on up to [sz] are private and cleared. *)
Definition grown (sh : list shm_info) (m m' : mem) (pd k sz perm : Z) : Prop :=
  forall b, 0 <= b < 4294967296 ->
    if decide (k <= b / PGSIZE /\ b / PGSIZE * PGSIZE < sz)
    then exists v, page kend v /\ shmp sh v = false /\ lookup_pte m' pd b = Some (pte_of (V2P v) perm) /\ zero_page m' v
    else lookup_pte m' pd b = lookup_pte m pd b.

Lemma zero_page_same m m' v : same_page m m' v -> zero_page m v -> zero_page m' v.
Proof. intros Hs Hz y Hy. rewrite Hs by done. by apply Hz. Qed.

(** Outcomes of the growing loop at page [k]. *)
Definition alloc_post (s : vst) (pd k oldsz newsz : Z) (x l : list Z) (r : Z) (s' : vst) : Prop :=
  exists l', space kend s' pd x l' /\ stable kend pd s s' l l' /\
    ((r = newsz /\ (forall w, page kend w -> w ∉ pd :: tabs (v_mem s) pd ++ l -> same_page (v_mem s) (v_mem s') w) /\
      grown (v_shm s) (v_mem s) (v_mem s') pd k newsz (Z.lor PTE_W PTE_U) /\
      Z.of_nat (length (tabs (v_mem s') pd) + length l') + Z.max 0 (npages newsz - k) =
        Z.of_nat (length (tabs (v_mem s) pd) + length l)) \/
     (r = 0 /\ unmapped (v_mem s) (v_mem s') pd (npages oldsz) newsz /\
      Z.of_nat (length (tabs (v_mem s) pd) + length l) <= 1024 + (npages newsz - k))).

Lemma unmapped_eq m m1 m2 pd ka sz :
  (forall b, 0 <= b < 4294967296 -> ~ (ka <= b / PGSIZE /\ b / PGSIZE * PGSIZE < sz) ->
    lookup_pte m1 pd b = lookup_pte m pd b) ->
  unmapped m1 m2 pd ka sz -> unmapped m m2 pd ka sz.
Proof. intros H Hu b Hb. rewrite (Hu b Hb). case_decide; [done | by apply H]. Qed.

(** Giving up: no memory for the page, or none for its table. *)
Lemma alloc_fail_kalloc s pd k oldsz newsz x :
  space kend s pd x [] -> 0 <= newsz < KERNBASE -> 0 <= oldsz -> k * PGSIZE < newsz ->
  runs (deallocuvm kend pd newsz oldsz ;;; ret 0) s (alloc_post s pd k oldsz newsz x []).
Proof.
  intros Hs Hn Ho Hk. apply runs_bind. eapply runs_mono; [apply (deallocuvm_spec pd newsz oldsz s x [] Hs); lia |].
  intros _ s' (l' & _ & Hs' & Hst & Hu). apply runs_ret. exists l'. split; [done |]. split; [done |]. right.
  split; [done |]. split; [done |]. pose proof (length_tabs (v_mem s) pd). pose proof (npages_bounds newsz). unfold PGSIZE in *. cbn [length]. lia.
Qed.

Lemma alloc_fail_map s s2 pd k oldsz newsz x v :
  space kend s pd x [v] -> space kend s2 pd (v :: x) [] -> 0 <= newsz < KERNBASE -> 0 <= oldsz -> page kend v ->
  k * PGSIZE < newsz ->
  own s2 pd = own s pd -> v_shm s2 = v_shm s ->
  (forall w, page kend w -> w <> v -> same_page (v_mem s) (v_mem s2) w) ->
  (forall b, lookup_pte (v_mem s2) pd b = lookup_pte (v_mem s) pd b) ->
  runs (deallocuvm kend pd newsz oldsz ;;; kfree_st kend v ;;; ret 0) s2 (alloc_post s pd k oldsz newsz x [v]).
Proof.
  intros Hs Hs2 Hn Ho Hv Hk Ho2 Hsh2 Hsame Hlk. apply runs_bind.
  eapply runs_mono; [apply (deallocuvm_spec pd newsz oldsz s2 (v :: x) [] Hs2); lia |].
  intros _ s3 (l3 & _ & Hs3 & [Hsh3 Hpm3 Hfr3] & Hu). apply runs_bind.
  eapply runs_mono; [by apply space_kfree |]. intros _ s4 (Hs4 & Ho4 & Hsh4 & Hsame4 & Hlk4). apply runs_ret.
  exists (v :: l3). split; [done |]. split; [| right; split; [done |]].
  - split; [congruence | |].
    + rewrite Ho4, <- !Permutation_middle, Hpm3, Ho2. done.
    + intros w Hw Hnin. assert (Hwv : w <> v) by (intros ->; apply Hnin; rewrite elem_of_app; right; left).
      eapply same_page_trans; [by apply Hsame |]. eapply same_page_trans; [apply Hfr3; [done |] | by apply Hsame4].
      rewrite Ho2. intros H. apply Hnin. rewrite elem_of_app, elem_of_cons in *. tauto.
  - split; [intros b Hb; by rewrite Hlk4, (Hu b Hb), Hlk |].
    pose proof (length_tabs (v_mem s) pd). pose proof (npages_bounds newsz). unfold PGSIZE in *. cbn [length]. lia.
Qed.

Lemma alloc_post_step s s2 s3 pd k oldsz newsz x v l l3 r s' :
  space kend s pd x (v :: l) -> 0 <= k * PGSIZE < newsz -> npages oldsz <= k -> page kend v -> newsz < KERNBASE ->
  own s2 pd = own s pd -> v_shm s2 = v_shm s -> zero_page (v_mem s2) v -> tabs (v_mem s2) pd = tabs (v_mem s) pd ->
  (forall w, page kend w -> w <> v -> same_page (v_mem s) (v_mem s2) w) ->
  (forall b, lookup_pte (v_mem s2) pd b = lookup_pte (v_mem s) pd b) ->
  tstable kend pd s2 s3 l l3 -> own s3 pd ++ l3 ≡ₚ v :: own s2 pd ++ l ->
  (forall b, 0 <= b < 4294967296 -> lookup_pte (v_mem s3) pd b =
     if decide (b / PGSIZE = k) then Some (pte_of (V2P v) (Z.lor PTE_W PTE_U)) else lookup_pte (v_mem s2) pd b) ->
  alloc_post s3 pd (k + 1) oldsz newsz x l3 r s' -> alloc_post s pd k oldsz newsz x (v :: l) r s'.
Proof.
  intros Hs Hk Hok Hv Hnew Ho2 Hsh2 Hz2 Ht2 Hsame Hlk [Hsh3 Htp3 Hfr3] Hpm3 Hlk3 (l' & Hs' & [Hsh' Hpm' Hfr'] & Hout).
  assert (Hvn : v ∉ pd :: tabs (v_mem s) pd ++ l).
  { intros H%tabs_own. pose proof (sp_nodup _ _ _ _ _ Hs) as Hnd.
    rewrite (Permutation_app_comm x), app_assoc, <- Permutation_middle in Hnd.
    apply NoDup_app in Hnd as (Hnd & _). apply NoDup_cons in Hnd as [Hn _]. done. }
  assert (Hfr : forall w, page kend w -> w ∉ pd :: tabs (v_mem s) pd ++ v :: l -> same_page (v_mem s) (v_mem s3) w).
  { intros w Hw Hn. rewrite <- Permutation_middle, Permutation_swap in Hn. apply not_elem_of_cons in Hn as [Hwv Hn].
    eapply same_page_trans; [by apply Hsame |]. apply Hfr3; [done |]. by rewrite Ht2. }
  exists l'. split; [done |]. split; [| destruct Hout as [(-> & Hfr'' & Hgr & Hcount) | (-> & Hu & Hshort)]; [left | right]].
  - split; [congruence | rewrite Hpm', Hpm3, Ho2; apply Permutation_middle |].
    intros w Hw Hn. eapply same_page_trans; [apply Hfr; [done |]; by intros ?%tabs_own |]. apply Hfr'; [done |].
    rewrite Hpm3, Ho2. by rewrite <- Permutation_middle in Hn.
  - split; [done |]. split.
    + intros w Hw Hn. eapply same_page_trans; [by apply Hfr |]. apply Hfr''; [done |]. rewrite Htp3, Ht2.
      rewrite <- Permutation_middle, Permutation_swap in Hn. by apply not_elem_of_cons in Hn as [_ Hn].
    + split.
      2: { pose proof (npages_bounds newsz). unfold PGSIZE in *. apply Permutation_length in Htp3.
           rewrite Ht2, !length_app in Htp3. cbn [length]. lia. }
      intros b Hb. specialize (Hgr b Hb). rewrite Hsh3, Hsh2 in Hgr. pose proof (Hlk3 b Hb) as Hb3.
      destruct (decide (b / PGSIZE = k)) as [Heq|Hne].
      * rewrite decide_True by (subst k; lia). rewrite decide_False in Hgr by lia.
        exists v. split; [done |]. split.
        { destruct (shmp (v_shm s) v) eqn:Hsv; [| done]. exfalso. apply (sp_shm _ _ _ _ _ Hs v Hsv).
          right. rewrite !elem_of_app. right. right. left. }
        split; [by rewrite Hgr |]. eapply zero_page_same; [| exact Hz2].
        apply same_page_trans with (v_mem s3); [apply Hfr3 | apply Hfr'']; [done | by rewrite Ht2 | done | by rewrite Htp3, Ht2].
      * destruct (decide (k <= b / PGSIZE /\ b / PGSIZE * PGSIZE < newsz)).
        -- by rewrite decide_True in Hgr by lia.
        -- rewrite decide_False in Hgr by lia. by rewrite Hgr, Hb3.
  - split; [done |]. split.
    + eapply unmapped_eq; [| exact Hu]. intros b Hb Hn. rewrite (Hlk3 b Hb), decide_False; [done |].
      intros <-. apply Hn. lia.
    + apply Permutation_length in Htp3. rewrite Ht2, !length_app in Htp3. cbn [length]. lia.
Qed.

Lemma allocuvm_loop_spec f : forall pd k oldsz newsz s x l,
  space kend s pd x l -> 0 <= oldsz -> 0 <= newsz < KERNBASE -> npages oldsz <= k -> 0 <= k ->
  newsz <= (k + Z.of_nat f) * PGSIZE ->
  (forall b, 0 <= b < 4294967296 -> k <= b / PGSIZE -> b / PGSIZE * PGSIZE < newsz -> lookup_pte (v_mem s) pd b = None) ->
  runs (allocuvm_loop kend f pd (k * PGSIZE) oldsz newsz) s (alloc_post s pd k oldsz newsz x l).
Proof.
  induction f as [|f IH]; intros pd k oldsz newsz s x l Hs Ho Hn Hok Hk Hf Hnone; cbn [allocuvm_loop];
    (destruct (Z.leb_spec newsz (k * PGSIZE)) as [Hle|Hgt];
     [apply runs_ret; exists l; split; [done |]; split; [apply stable_refl |]; left; split; [done |];
      split; [by intros w _ _ y _ |]; split;
        [intros b Hb; rewrite decide_False; [done |]; unfold PGSIZE in *; lia
        | pose proof (npages_bounds newsz); unfold PGSIZE in *; lia] |]).
  { unfold PGSIZE in *. lia. }
  assert (Ha : 0 <= k * PGSIZE < KERNBASE) by (unfold PGSIZE in *; lia).
  assert (Hdiv : k * PGSIZE / PGSIZE = k) by (apply Z.div_mul; unfold PGSIZE; lia).
  apply runs_bind. destruct l as [|v l].
  { exists 0, s. split; [by apply (kalloc_st_spec s pd x []) |]. cbn [Z.eqb]. by apply alloc_fail_kalloc. }
  destruct (space_fresh s pd x v l Hs) as ([s1 s2] & Hka & Heq & Hv & Hs2 & Ho2 & Hsh2 & Hz2 & Ht2 & Hsame & Hlk).
  cbn [fst snd] in *. exists v, s1. split; [done |].
  rewrite (proj2 (Z.eqb_neq v 0)) by (by apply (page_ne0 kend)). apply runs_bind, runs_modify. rewrite <- Heq.
  apply runs_bind. eapply runs_mono.
  { apply (mappages_user pd (k * PGSIZE) v (Z.lor PTE_W PTE_U) s2 x l Hs2).
    - by apply Z.mod_mul.
    - done.
    - by vm_compute.
    - rewrite Hlk. apply Hnone; rewrite ?Hdiv; unfold KERNBASE in *; lia. }
  intros r s3 [(-> & -> & ->) | (-> & l3 & Hs3 & Hst3 & Hpm3 & Hlk3)]; cbn [Z.ltb Z.compare].
  { eapply alloc_fail_map; eassumption. }
  rewrite u32_small by (unfold KERNBASE, PGSIZE in *; lia).
  replace (k * PGSIZE + PGSIZE) with ((k + 1) * PGSIZE) by lia. rewrite Hdiv in Hlk3.
  eapply runs_mono; [apply (IH pd (k + 1) oldsz newsz s3 x l3); try (done || lia) |].
  - intros b Hb H1 H2. rewrite (Hlk3 b Hb), decide_False, Hlk by lia. apply Hnone; (done || lia).
  - intros r s'. eapply alloc_post_step; try eassumption; [lia | lia].
Qed.

Lemma allocuvm_spec pd oldsz newsz s x l :
  space kend s pd x l -> 0 <= oldsz <= newsz -> newsz < KERNBASE ->
  (forall b, 0 <= b < 4294967296 -> npages oldsz <= b / PGSIZE -> b / PGSIZE * PGSIZE < newsz ->
    lookup_pte (v_mem s) pd b = None) ->
  runs (allocuvm kend pd oldsz newsz) s (alloc_post s pd (npages oldsz) oldsz newsz x l).
Proof.
  intros Hs Ho Hn Hnone. unfold allocuvm.
  destruct (Z.leb_spec KERNBASE newsz); [lia |]. destruct (Z.ltb_spec newsz oldsz); [lia |].
  rewrite pgroundup_npages by lia. pose proof (npages_bounds oldsz) as Hb. unfold PGSIZE in Hb.
  apply allocuvm_loop_spec; try done; try lia. unfold PGSIZE.
  pose proof (Z.div_mod newsz 4096). pose proof (Z.mod_pos_bound newsz 4096).
  assert (0 <= newsz / 4096) by (apply Z.div_pos; lia). lia.
Qed.

(** ** The kernel's mappings *)

(** An entry of [kmap]: [n + 1] pages from page [ka], at frames from [kp]. *)
Definition km_ok (e : Z * Z * Z * Z) (ka kp : Z) (n : nat) : Prop :=
  let '(virt, phys_start, phys_end, perm) := e in
  virt = ka * PGSIZE /\ phys_start = kp * PGSIZE /\ u32 (phys_end - phys_start) = (Z.of_nat n + 1) * PGSIZE /\
  KERNBASE <= virt /\ (ka + Z.of_nat n) * PGSIZE < 4294967296 /\ 0 <= kp /\
  (kp + Z.of_nat n) * PGSIZE < 4294967296 /\ 0 <= perm < 4096.

(** The frame and permissions the entry gives to an address. *)
Definition km_view (e : Z * Z * Z * Z) (b : Z) : option Z :=
  let '(virt, phys_start, phys_end, perm) := e in
  if decide (virt / PGSIZE <= b / PGSIZE < virt / PGSIZE + u32 (phys_end - phys_start) / PGSIZE)
  then Some (pte_of ((phys_start / PGSIZE + (b / PGSIZE - virt / PGSIZE)) * PGSIZE) perm) else None.

Fixpoint kmap_view (ks : list (Z * Z * Z * Z)) (b : Z) : option Z :=
  match ks with
  | [] => None
  | e :: ks' => match km_view e b with Some p => Some p | None => kmap_view ks' b end
  end.

Lemma km_view_user e ka kp n b : km_ok e ka kp n -> 0 <= b < KERNBASE -> km_view e b = None.
Proof.
  destruct e as [[[virt ps] pe] perm]. intros (-> & _ & _ & Hv & _) Hb. unfold km_view. rewrite decide_False; [done |].
  rewrite Z.div_mul by (unfold PGSIZE; lia). pose proof (vpage_range b (proj1 Hb)). unfold PGSIZE, KERNBASE in *. lia.
Qed.

Lemma mappages_kernel pd virt ps pe perm s x l ka kp n :
  km_ok (virt, ps, pe, perm) ka kp n -> space kend s pd x l ->
  (forall b, 0 <= b < 4294967296 -> is_Some (km_view (virt, ps, pe, perm) b) -> lookup_pte (v_mem s) pd b = None) ->
  runs (mappages pd virt (u32 (pe - ps)) ps perm) s (fun r s' =>
    exists l', space kend s' pd x l' /\ stable kend pd s s' l l' /\ (r = 0 \/ r = -1) /\
      (r = -1 -> l' = [] /\ forall b, 0 <= b < KERNBASE -> lookup_pte (v_mem s') pd b = lookup_pte (v_mem s) pd b) /\
      (r = 0 -> forall b, 0 <= b < 4294967296 -> lookup_pte (v_mem s') pd b =
        match km_view (virt, ps, pe, perm) b with Some e => Some e | None => lookup_pte (v_mem s) pd b end)).
Proof.
  intros (-> & -> & Hsz & Hb & Hn & Hkp & Hpn & Hperm) Hs Hnone. unfold mappages, km_view in *. rewrite Hsz in *.
  unfold PGSIZE in Hb, Hn, Hkp, Hpn.
  assert (E0 : forall k, k * PGSIZE / PGSIZE = k) by (intros k; apply Z.div_mul; unfold PGSIZE; lia).
  assert (E1 : PGROUNDDOWN (ka * PGSIZE) = ka * PGSIZE).
  { rewrite <- (Z.add_0_r (ka * PGSIZE)) at 1. apply (pgrounddown_aligned _ ka eq_refl). unfold PGSIZE; lia. }
  assert (E2 : PGROUNDDOWN (u32 (ka * PGSIZE + (Z.of_nat n + 1) * PGSIZE - 1)) = (ka + Z.of_nat n) * PGSIZE).
  { rewrite u32_small by (unfold KERNBASE, PGSIZE in *; lia).
    replace (ka * PGSIZE + (Z.of_nat n + 1) * PGSIZE - 1) with ((ka + Z.of_nat n) * PGSIZE + (PGSIZE - 1)) by lia.
    apply (pgrounddown_aligned _ (ka + Z.of_nat n) eq_refl). unfold PGSIZE; lia. }
  rewrite E1, E2, !E0 in *. eapply runs_mono; [apply (mappages_kernel_loop n _ pd ka kp perm s x l Hs)|].
  - replace ((ka + Z.of_nat n) * PGSIZE - ka * PGSIZE) with (Z.of_nat n * PGSIZE) by lia.
    rewrite u32_small by (unfold KERNBASE, PGSIZE in *; lia). rewrite E0. lia.
  - unfold PGSIZE; lia.
  - unfold PGSIZE; lia.
  - done.
  - unfold PGSIZE; lia.
  - done.
  - intros b Hb' Hr. apply Hnone; [done |]. rewrite decide_True by lia. by eexists.
  - intros r s' (l' & Hs' & Hst & Hr & Hm1 & H0). exists l'. split; [done |]. split; [done |]. split; [done |]. split; [done |].
    intros Hr0 b Hb'. rewrite (H0 Hr0 b Hb'). do 2 case_decide; try lia; done.
Qed.

(** Tables with disjoint entries. *)
Inductive kmap_ok : list (Z * Z * Z * Z) -> Prop :=
| kmap_ok_nil : kmap_ok []
| kmap_ok_cons e ks ka kp n :
    km_ok e ka kp n -> (forall b, is_Some (km_view e b) -> kmap_view ks b = None) -> kmap_ok ks -> kmap_ok (e :: ks).

Lemma setupkvm_loop_spec ks : forall pd s x l,
  kmap_ok ks -> space kend s pd x l ->
  (forall b, 0 <= b < 4294967296 -> is_Some (kmap_view ks b) -> lookup_pte (v_mem s) pd b = None) ->
  runs (setupkvm_loop kend pd ks) s (fun r s' => v_shm s' = v_shm s /\
    (forall w, page kend w -> w ∉ own s pd ++ l -> same_page (v_mem s) (v_mem s') w) /\ exists l',
    (r = 0 /\ kmem_free kend (v_kmem s') l' /\ l' ≡ₚ own s pd ++ l /\
     ((forall b, 0 <= b < KERNBASE -> lookup_pte (v_mem s) pd b = None) -> (length (own s pd ++ l) <= 1025)%nat)) \/
    (r = pd /\ space kend s' pd x l' /\ own s' pd ++ l' ≡ₚ own s pd ++ l /\
     forall b, 0 <= b < 4294967296 -> lookup_pte (v_mem s') pd b =
       match kmap_view ks b with Some e => Some e | None => lookup_pte (v_mem s) pd b end)).
Proof.
  induction ks as [|[[[virt ps] pe] perm] ks IH]; intros pd s x l Hok Hs Hnone; cbn [setupkvm_loop].
  { apply runs_ret. split; [done |]. split; [by intros w _ _ y _ |]. exists l. right. done. }
  inversion Hok as [|? ? ka kp n Hkm Hdis Hok']; subst. apply runs_bind. cbn [kmap_view] in *.
  eapply runs_mono; [apply (mappages_kernel pd virt ps pe perm s x l ka kp n Hkm Hs) |].
  { intros b Hb [e He]. apply Hnone; [done |]. rewrite He. by eexists. }
  intros r s1 (l1 & Hs1 & [Hsh1 Hpm1 Hfr1] & [-> | ->] & Hm1 & H0); cbn [Z.ltb Z.compare].
  - specialize (H0 eq_refl). eapply runs_mono; [apply (IH pd s1 x l1 Hok' Hs1) |].
    { intros b Hb [e He]. rewrite (H0 b Hb). destruct (km_view (virt, ps, pe, perm) b) as [e'|] eqn:Hv.
      - rewrite (Hdis b) in He; [done | by rewrite Hv].
      - apply Hnone; [done |]. rewrite Hv, He. by eexists. }
    intros r s2 (Hsh2 & Hfr2 & l2 & Hout). split; [congruence |]. split.
    { intros w Hw Hn. eapply same_page_trans; [by apply Hfr1 | apply Hfr2; [done |]]. by rewrite Hpm1. }
    exists l2. destruct Hout as [(-> & Hf2 & Hp2 & Hshort) | (-> & Hs2 & Hp2 & Hl2)]; [left | right].
    + split; [done |]. split; [done |]. split; [by rewrite Hp2, Hpm1 |]. intros Hu. rewrite <- Hpm1. apply Hshort.
      intros b Hb. rewrite H0, (km_view_user _ _ _ _ _ Hkm Hb) by (unfold KERNBASE in *; lia). by apply Hu.
    + split; [done |]. split; [done |]. split; [by rewrite Hp2, Hpm1 |]. intros b Hb. rewrite (Hl2 b Hb), (H0 b Hb).
      destruct (km_view (virt, ps, pe, perm) b) eqn:Hv; [| done]. by rewrite (Hdis b) by (rewrite Hv; by eexists).
  - apply runs_bind. eapply runs_mono; [by apply (freevm_spec pd s1 x l1) |].
    intros _ s2 (l2 & Hf2 & Hp2 & Hsh2 & Hfr2). apply runs_ret. split; [congruence |]. split.
    { intros w Hw Hn. eapply same_page_trans; [by apply Hfr1 | apply Hfr2; [done |]]. by rewrite Hpm1. }
    exists l2. left. split; [done |]. split; [done |]. split; [by rewrite Hp2, Hpm1 |]. intros Hu.
    destruct (Hm1 eq_refl) as [-> Hsame]. rewrite <- Hpm1, app_nil_r. apply own_tables. intros b Hb.
    rewrite (Hsame b Hb). by apply Hu.
Qed.

(** The linker script aligns [data] to a page. *)
Definition kdata_ok (kdata : Z) : Prop := kdata mod PGSIZE = 0 /\ KERNLINK < kdata < KERNBASE + PHYSTOP.

Lemma kmap_kmap_ok kdata : kdata_ok kdata -> kmap_ok (kmap kdata).
Proof.
  intros ([kd Hkd]%aligned_eq_mul & Hr). unfold KERNLINK, KERNBASE, EXTMEM, PHYSTOP, PGSIZE in *.
  assert (Hkd' : 524544 < kd < 581632) by lia. unfold kmap.
  assert (Hv : V2P kdata = (kd - 524288) * 4096) by (unfold V2P, KERNBASE; rewrite u32_small; lia).
  assert (E1 : u32 (EXTMEM - 0) = 256 * PGSIZE) by done.
  assert (E2 : u32 (V2P kdata - V2P KERNLINK) = (kd - 524544) * PGSIZE).
  { change (V2P KERNLINK) with 1048576. rewrite Hv. unfold PGSIZE. rewrite u32_small; lia. }
  assert (E3 : u32 (PHYSTOP - V2P kdata) = (581632 - kd) * PGSIZE).
  { rewrite Hv. unfold PHYSTOP, PGSIZE. rewrite u32_small; lia. }
  assert (E4 : u32 (0 - DEVSPACE) = 8192 * PGSIZE) by done.
  assert (Ed : forall k, k * PGSIZE / PGSIZE = k) by (intros k; apply Z.div_mul; unfold PGSIZE; lia).
  assert (Ek : kdata / PGSIZE = kd) by (rewrite Hkd; apply Ed).
  apply (kmap_ok_cons _ _ 524288 0 255); [| | apply (kmap_ok_cons _ _ 524544 256 (Z.to_nat (kd - 524545)));
    [| | apply (kmap_ok_cons _ _ kd (kd - 524288) (Z.to_nat (581631 - kd)));
      [| | apply (kmap_ok_cons _ _ 1040384 1040384 (Z.to_nat 8191)); [| | apply kmap_ok_nil]]]].
  all: try (unfold km_ok; rewrite ?E1, ?E2, ?E3, ?E4, ?Hv; unfold PGSIZE, KERNLINK, KERNBASE, EXTMEM, DEVSPACE, PTE_W;
    repeat split; lia).
  all: intros b [e He]; cbn [kmap_view]; unfold km_view in *; rewrite ?E1, ?E2, ?E3, ?E4, ?Ed, ?Ek in *;
    change (KERNBASE / PGSIZE) with 524288 in *; change (KERNLINK / PGSIZE) with 524544 in *;
    change (DEVSPACE / PGSIZE) with 1040384 in *;
    repeat match goal with
      | H : context [decide ?P] |- _ => destruct (decide P); [| done]
      | |- context [decide ?P] => destruct (decide P); [lia |]
      end; done.
Qed.

(** A cleared directory. *)
Lemma space_init s pd x l :
  kmem_free kend (v_kmem s) l -> zero_page (v_mem s) pd -> NoDup (pd :: x ++ l) ->
  (forall v, v ∈ pd :: x ++ l -> page kend v) -> (forall v, shmp (v_shm s) v = true -> v ∉ pd :: x ++ l) ->
  space kend s pd x l /\ own s pd = [pd] /\ forall b, lookup_pte (v_mem s) pd b = None.
Proof.
  intros Hf Hz Hnd Hpg Hsh.
  assert (Ht : forall i, (i < 1024)%nat -> tab (v_mem s) pd i = None).
  { intros i Hi. unfold tab, load32. rewrite !Hz by (unfold PGSIZE; lia). done. }
  assert (Htabs : tabs (v_mem s) pd = []).
  { destruct (tabs (v_mem s) pd) as [|t ts] eqn:He; [done |].
    assert (Hin : t ∈ tabs (v_mem s) pd) by (rewrite He; by left). apply elem_of_concat_seq in Hin as (i & Hi & Hin).
    rewrite Ht in Hin by done. by apply not_elem_of_nil in Hin. }
  assert (Hl : forall b, lookup_pte (v_mem s) pd b = None) by (intros b; unfold lookup_pte; by rewrite Ht by apply pdx_lt).
  assert (Ho : own s pd = [pd]) by (unfold own; by rewrite Htabs, upages_none by (intros; apply Hl)).
  split; [| done]. split; rewrite ?Ho, ?Htabs; try done.
  intros i j t Hi Hj. rewrite Ht by lia. done.
Qed.

(** Pages outside any address space under construction. *)
Record pool (s : vst) (x l : list Z) : Prop := {
  pl_free : kmem_free kend (v_kmem s) l;
  pl_nodup : NoDup (x ++ l);
  pl_pages : forall v, v ∈ x ++ l -> page kend v;
  pl_shm : forall v, shmp (v_shm s) v = true -> v ∉ x ++ l
}.

Lemma pool_kalloc s x l :
  pool s x l ->
  match l with
  | [] => kalloc_st s = Ok (0, s)
  | v :: l' => exists s', kalloc_st s = Ok (v, s') /\ v_mem s' = v_mem s /\ v_shm s' = v_shm s /\
      page kend v /\ pool s' (v :: x) l'
  end.
Proof.
  intros [Hf Hnd Hpg Hsh]. pose proof (kalloc_spec kend _ _ Hf) as Hk. unfold kalloc_st.
  destruct l as [|v l]; [rewrite Hk; by destruct s |].
  destruct Hk as (k' & -> & Hk' & Hm & Hv & _). exists (with_vkmem k' s). split; [done |]. split; [done |].
  split; [done |]. split; [done |]. split; [done | | |]; cbn [app].
  - by rewrite Permutation_middle.
  - intros w. rewrite Permutation_middle. apply Hpg.
  - intros w Hw. rewrite Permutation_middle. by apply Hsh.
Qed.

Variable kdata : Z.
Hypothesis Hkdata : kdata_ok kdata.

Lemma setupkvm_spec s x l :
  pool s x l ->
  runs (setupkvm kend kdata) s (fun r s' => v_shm s' = v_shm s /\
    (forall w, page kend w -> w ∉ l -> same_page (v_mem s) (v_mem s') w) /\ exists l',
    (r = 0 /\ kmem_free kend (v_kmem s') l' /\ l' ≡ₚ l /\ (length l <= 1025)%nat) \/
    (r <> 0 /\ space kend s' r x l' /\ own s' r ++ l' ≡ₚ l /\
     forall b, 0 <= b < 4294967296 -> lookup_pte (v_mem s') r b = kmap_view (kmap kdata) b)).
Proof.
  intros Hs. unfold setupkvm. apply runs_bind. pose proof (pool_kalloc s x l Hs) as Hk. destruct l as [|v l].
  { exists 0, s. split; [done |]. cbn [Z.eqb]. apply runs_ret. split; [done |]. split; [by intros w _ _ y _ |].
    exists []. left. split; [done |]. split; [apply Hs |]. split; [done | simpl; lia]. }
  destruct Hk as (s1 & Hk & Hm & Hsh & Hv & [Hf1 Hnd1 Hpg1 Hsh1]). exists v, s1. split; [done |].
  rewrite (proj2 (Z.eqb_neq v 0)) by (by apply (page_ne0 kend)). apply runs_bind, runs_modify.
  destruct (Z.ltb_spec DEVSPACE (P2V PHYSTOP)) as [Hd|_]; [exfalso; vm_compute in Hd; done |].
  set (s2 := with_vmem _ s1).
  assert (Hsame : forall w, page kend w -> w <> v -> same_page (v_mem s1) (v_mem s2) w).
  { intros w Hw Hne. by apply (memset_same_page kend). }
  cbn [app] in *. destruct (space_init s2 v x l) as (Hs2 & Ho2 & Hl2); [| | done | done | done |].
  - apply kmem_free_ext; [done |]. intros w Hw. apply Hsame; [apply Hpg1; right; rewrite elem_of_app; auto |].
    intros ->. apply NoDup_cons in Hnd1 as [Hn _]. apply Hn. rewrite elem_of_app. auto.
  - intros y Hy. cbn. rewrite memset_spec by (unfold PGSIZE; lia). unfold PGSIZE in *. bool_cases; simpl; (done || lia).
  - eapply runs_mono; [apply (setupkvm_loop_spec (kmap kdata) v s2 x l); [by apply kmap_kmap_ok | done | intros; apply Hl2] |].
    intros r s3 (Hsh3 & Hfr3 & l3 & Hout). rewrite Ho2 in *. cbn [app] in *.
    split; [by rewrite Hsh3, <- Hsh |]. split.
    { intros w Hw Hn. rewrite <- Hm. eapply same_page_trans; [apply Hsame; [done |] | by apply Hfr3].
      intros ->. apply Hn. left. }
    exists l3. destruct Hout as [(-> & Hf3 & Hp3 & Hshort) | (-> & Hs3 & Hp3 & Hl3)]; [left | right].
    { split; [done |]. split; [done |]. split; [done |]. apply Hshort. intros b _. apply Hl2. }
    split; [by apply (page_ne0 kend) |]. split; [done |]. split; [done |]. intros b Hb. rewrite (Hl3 b Hb), Hl2.
    by destruct (kmap_view _ b).
Qed.
End table_steps.

(** * Properties of address spaces *)

(** C17: [allocuvm] from [oldsz] to [newsz] terminates and either returns
    [newsz] with every page of the new range mapped user-writable to a fresh
    zeroed page and every other mapping as before, or returns 0 with all
    mappings as before, which it does only when there are not enough free
    pages for the range and 1024 tables; in both cases no page is lost or gets
    a second owner. *)
Theorem allocuvm_correct kend pd oldsz newsz s x l :
  KERNBASE < kend -> space kend s pd x l -> 0 <= oldsz <= newsz -> newsz < KERNBASE ->
  (forall b, 0 <= b < 4294967296 -> npages oldsz <= b / PGSIZE -> b / PGSIZE * PGSIZE < newsz ->
    lookup_pte (v_mem s) pd b = None) ->
  exists r s' l', allocuvm kend pd oldsz newsz s = Ok (r, s') /\ space kend s' pd x l' /\
    own s' pd ++ l' ≡ₚ own s pd ++ l /\
    ((r = newsz /\ grown kend (v_shm s) (v_mem s) (v_mem s') pd (npages oldsz) newsz (Z.lor PTE_W PTE_U)) \/
     (r = 0 /\ Z.of_nat (length l) <= 1024 + (npages newsz - npages oldsz) /\
      forall b, 0 <= b < 4294967296 -> lookup_pte (v_mem s') pd b = lookup_pte (v_mem s) pd b)).
Proof.
  intros Hk Hs Ho Hn Hnone.
  destruct (allocuvm_spec kend Hk pd oldsz newsz s x l Hs Ho Hn Hnone) as (r & s' & He & l' & Hs' & [_ Hp _] & Hout).
  exists r, s', l'. split; [done |]. split; [done |]. split; [done |].
  destruct Hout as [(-> & _ & Hg & _) | (-> & Hu & Hshort)]; [by left | right]. split; [done |]. split; [lia |].
  intros b Hb. rewrite (Hu b Hb). case_decide as Hc; [| done]. destruct Hc. symmetry. by apply Hnone.
Qed.

(** Three free pages, the first of them taken as a cleared directory. *)
Definition demo_mem : mem := store32 (fun _ => 0) 0x80500000 0x80600000.
Definition demo_vst : vst := mkVst (mkKmem 1 0x80500000 demo_mem) [].

Lemma demo_space :
  space 0x80200000 demo_vst 0x80400000 [] [0x80500000; 0x80600000] /\
  own demo_vst 0x80400000 = [0x80400000] /\ forall b, lookup_pte (v_mem demo_vst) 0x80400000 b = None.
Proof.
  assert (Hp : forall v, v ∈ [0x80400000; 0x80500000; 0x80600000] -> page 0x80200000 v).
  { intros v Hv. repeat (apply elem_of_cons in Hv as [->|Hv]; [by vm_compute |]). by apply not_elem_of_nil in Hv. }
  apply space_init.
  - split; [| repeat constructor; set_solver]. split; [done |]. split; [apply Hp; set_solver |].
    split; [by vm_compute |]. split; [apply Hp; set_solver | by vm_compute].
  - intros y Hy. cbn. unfold demo_mem. rewrite store32_ne; [done |]. unfold PGSIZE in Hy. lia.
  - repeat constructor; set_solver.
  - done.
  - done.
Qed.

Lemma allocuvm_correct_witness :
  exists r s' l', allocuvm 0x80200000 0x80400000 0 100 demo_vst = Ok (r, s') /\
    space 0x80200000 s' 0x80400000 [] l' /\
    own s' 0x80400000 ++ l' ≡ₚ own demo_vst 0x80400000 ++ [0x80500000; 0x80600000] /\
    ((r = 100 /\ grown 0x80200000 [] (v_mem demo_vst) (v_mem s') 0x80400000 (npages 0) 100 (Z.lor PTE_W PTE_U)) \/
     (r = 0 /\ 2 <= 1024 + (npages 100 - npages 0) /\ forall b, 0 <= b < 4294967296 ->
       lookup_pte (v_mem s') 0x80400000 b = lookup_pte (v_mem demo_vst) 0x80400000 b)).
Proof.
  destruct demo_space as (Hs & _ & Hl).
  apply (allocuvm_correct 0x80200000 0x80400000 0 100 demo_vst [] [0x80500000; 0x80600000]);
    [by vm_compute | done | lia | by vm_compute | intros; apply Hl].
Defined.

(** [freevm] of an address space terminates without a panic and gives
    the allocator exactly what it owned: its directory, every page table and
    every private user page, each once, and no shared or foreign page; no
    byte outside those pages and the free ones changes. *)
Theorem freevm_conserves kend pd s x l :
  KERNBASE < kend -> space kend s pd x l ->
  exists s' l', freevm kend pd s = Ok (tt, s') /\ kmem_free kend (v_kmem s') l' /\ l' ≡ₚ own s pd ++ l /\
    v_shm s' = v_shm s /\ (forall w, page kend w -> w ∉ own s pd ++ l -> same_page (v_mem s) (v_mem s') w).
Proof.
  intros Hk Hs. destruct (freevm_spec kend Hk pd s x l Hs) as ([] & s' & He & l' & H). by exists s', l'.
Qed.

Lemma freevm_conserves_witness :
  exists s' l', freevm 0x80200000 0x80400000 demo_vst = Ok (tt, s') /\ kmem_free 0x80200000 (v_kmem s') l' /\
    l' ≡ₚ own demo_vst 0x80400000 ++ [0x80500000; 0x80600000] /\ v_shm s' = v_shm demo_vst /\
    (forall w, page 0x80200000 w -> w ∉ own demo_vst 0x80400000 ++ [0x80500000; 0x80600000] ->
      same_page (v_mem demo_vst) (v_mem s') w).
Proof.
  destruct demo_space as (Hs & _ & Hl).
  apply (freevm_conserves 0x80200000 0x80400000 demo_vst [] [0x80500000; 0x80600000]); [by vm_compute | done].
Defined.
