(* ===== verification/VmCopy.v ===== *)
(** * Copying address spaces (vm.c: copyuvm, uva2ka, copyout)

    [fork] copies every user page of the parent; pages of attached shared
    memory are mapped in the child instead. *)

From S2P Require Import Prelude Mem CString Params Kalloc ProcDef Vm VmProof.

Section copy.
Variables kend kdata : Z.
Hypotheses (Hkend : KERNBASE < kend) (Hkdata : kdata_ok kdata).

(** Page [v] of [m'] holds what page [w] of [m] holds. *)
Definition same_bytes (m m' : mem) (w v : Z) : Prop := forall o, 0 <= o < PGSIZE -> m' (v + o) = m (w + o).

(** The child's page for address [b]: the parent's flags and bytes, the same
    frame exactly if it is shared. *)
Definition copied (sh : Z -> option Z) (m m' : mem) (pd d b : Z) : Prop :=
  exists e e', lookup_pte m pd b = Some e /\ lookup_pte m' d b = Some e' /\ PTE_FLAGS e' = PTE_FLAGS e /\
    same_bytes m m' (P2V (PTE_ADDR e)) (P2V (PTE_ADDR e')) /\
    match sh (b / PGSIZE * PGSIZE) with
    | Some v => P2V (PTE_ADDR e) = v /\ P2V (PTE_ADDR e') = v
    | None => P2V (PTE_ADDR e') <> P2V (PTE_ADDR e)
    end.

Lemma pte_flags_present e : presentb e = true -> Z.lor (PTE_FLAGS e) PTE_P = PTE_FLAGS e.
Proof.
  intros Hp. rewrite presentb_odd, <- Z.bit0_odd in Hp. unfold PTE_FLAGS, PTE_P. apply Z.bits_inj. intros n.
  rewrite Z.lor_spec, Z.land_spec. destruct (Z.eq_dec n 0) as [->|Hn]; [rewrite Hp; done |].
  destruct n as [|n|n]; [done | | done]. rewrite (Z.bits_above_log2 1) by (simpl; lia). by rewrite orb_false_r.
Qed.

Lemma pte_flags_range e : 0 <= PTE_FLAGS e < 4096.
Proof. unfold PTE_FLAGS. change 0xFFF with (Z.ones 12). rewrite Z.land_ones by lia. change (2 ^ 12) with 4096. by apply Z.mod_pos_bound. Qed.

Lemma copied_entry v e : page kend v -> presentb e = true ->
  P2V (PTE_ADDR (pte_of (V2P v) (PTE_FLAGS e))) = v /\ PTE_FLAGS (pte_of (V2P v) (PTE_FLAGS e)) = PTE_FLAGS e.
Proof.
  intros Hv Hp. rewrite pte_of_eq, pte_flags_present by done. pose proof (pte_flags_range e).
  split; [by apply (entry_page kend) |]. apply pte_flags_lor; [by apply (page_V2P_aligned kend) | done].
Qed.


(** The parent [pd], whose pages are among [y] (the pages not at the child's
    disposal) or shared. *)
Record parent (m : mem) (sh : list shm_info) (y : list Z) (pd : Z) : Prop := {
  pa_tabs : forall t, t ∈ pd :: tabs m pd -> t ∈ y /\ page kend t;
  pa_leaf : forall b e, 0 <= b < KERNBASE -> lookup_pte m pd b = Some e ->
    page kend (P2V (PTE_ADDR e)) /\ (P2V (PTE_ADDR e) ∈ y \/ shmp sh (P2V (PTE_ADDR e)) = true)
}.

Lemma lookup_user_leaf m pd b e : lookup_pte m pd b = Some e ->
  presentb e = true /\ exists t, tab m pd (pdx b) = Some t /\ leaf m t (ptx b) = e.
Proof.
  unfold lookup_pte. destruct (tab m pd (pdx b)) as [t|]; [| done].
  destruct (presentb (leaf m t (ptx b))) eqn:Hp; [| done]. intros [= <-]. eauto.
Qed.

Lemma parent_space s pd x l : space kend s pd x l -> parent (v_mem s) (v_shm s) (own s pd ++ x) pd.
Proof.
  intros Hs. assert (Hpg : forall v, v ∈ own s pd -> page kend v).
  { intros v Hv. apply (sp_pages _ _ _ _ _ Hs). rewrite elem_of_app. auto. }
  split.
  - intros t Ht. assert (t ∈ own s pd) by (unfold own; rewrite app_comm_cons, elem_of_app; auto).
    rewrite elem_of_app. auto.
  - intros b e Hb (Hp & t & Ht & He)%lookup_user_leaf. subst e.
    split; [eapply (sp_leaf _ _ _ _ _ Hs); [by apply pdx_user | apply ptx_lt | done | done] |].
    destruct (shmp (v_shm s) _) eqn:Hsh; [by right | left]. rewrite elem_of_app. left.
    unfold own. rewrite app_comm_cons, elem_of_app. right.
    eapply leaf_upage; [by apply pdx_user | apply ptx_lt | exact Ht |]. unfold upage. rewrite Hp, Hsh. by left.
Qed.

(** The parent is intact. *)
Definition kept (m m' : mem) (sh : list shm_info) (y : list Z) : Prop :=
  forall w, page kend w -> w ∈ y \/ shmp sh w = true -> same_page m m' w.

Lemma parent_lookup m m' sh y pd b : parent m sh y pd -> kept m m' sh y -> lookup_pte m' pd b = lookup_pte m pd b.
Proof.
  intros [Ht _] Hk. apply lookup_pte_ext.
  - destruct (Ht pd); [left | by apply Hk; auto].
  - intros t Hin. destruct (Ht t); [by right | by apply Hk; auto].
Qed.

Lemma parent_kept m m' sh y pd : parent m sh y pd -> kept m m' sh y -> parent m' sh y pd.
Proof.
  intros Hp Hk. pose proof Hp as [Ht Hl]. split.
  - rewrite (tabs_ext m); [done |]. destruct (Ht pd); [left | by apply Hk; auto].
  - intros b e Hb. rewrite (parent_lookup m m' sh y) by done. by apply Hl.
Qed.

Lemma copied_base f m m1 m' sh y pd d b :
  parent m sh y pd -> kept m m1 sh y -> 0 <= b < KERNBASE -> copied f m1 m' pd d b -> copied f m m' pd d b.
Proof.
  intros Hp Hk Hb (e & e' & H1 & H2 & H3 & H4 & H5). rewrite (parent_lookup m m1 sh y) in H1 by done.
  exists e, e'. split; [done |]. split; [done |]. split; [done |]. split; [| done].
  destruct (pa_leaf _ _ _ _ Hp b e Hb H1) as [Hpg Hin]. intros o Ho. rewrite (H4 o Ho). apply (Hk _ Hpg Hin). lia.
Qed.

Definition copy_post (f : Z -> option Z) (s : vst) (pd d k sz : Z) (y l : list Z) (r : Z) (s' : vst) : Prop :=
  v_shm s' = v_shm s /\ exists l',
  (r = d /\ space kend s' d y l' /\ own s' d ++ l' ≡ₚ own s d ++ l /\
   (forall w, page kend w -> w ∉ d :: tabs (v_mem s) d ++ l -> same_page (v_mem s) (v_mem s') w) /\
   forall b, 0 <= b < 4294967296 ->
     if decide (k <= b / PGSIZE /\ b / PGSIZE * PGSIZE < sz) then copied f (v_mem s) (v_mem s') pd d b
     else lookup_pte (v_mem s') d b = lookup_pte (v_mem s) d b) \/
  (r = 0 /\ kmem_free kend (v_kmem s') l' /\
   (l' ≡ₚ own s d ++ l \/ exists v, v :: l' ≡ₚ own s d ++ l) /\
   Z.of_nat (length (tabs (v_mem s) d) + length l) <= 1024 + (npages sz - k) /\
   (forall w, page kend w -> w ∉ own s d ++ l -> same_page (v_mem s) (v_mem s') w)).

(** A page [v] prepared and mapped for address [k * PGSIZE]: [g] is [v] if it
    was taken from the free pages, nothing if it is shared. *)
Lemma copy_post_step f s s2 s3 pd d k sz y v g l2 l3 e r s' :
  0 <= k * PGSIZE < sz -> sz <= KERNBASE ->
  space kend s d y (g ++ l2) -> parent (v_mem s) (v_shm s) y pd -> page kend v ->
  lookup_pte (v_mem s) pd (k * PGSIZE) = Some e -> same_bytes (v_mem s) (v_mem s2) (P2V (PTE_ADDR e)) v ->
  match f (k * PGSIZE) with Some w => P2V (PTE_ADDR e) = v /\ w = v | None => v <> P2V (PTE_ADDR e) end ->
  v ∉ d :: tabs (v_mem s) d ++ l2 -> own s2 d = own s d -> v_shm s2 = v_shm s -> tabs (v_mem s2) d = tabs (v_mem s) d ->
  (forall w, page kend w -> w ∉ g -> same_page (v_mem s) (v_mem s2) w) ->
  (forall b, lookup_pte (v_mem s2) d b = lookup_pte (v_mem s) d b) ->
  tstable kend d s2 s3 l2 l3 -> own s3 d ++ l3 ≡ₚ g ++ own s2 d ++ l2 ->
  (forall b, 0 <= b < 4294967296 -> lookup_pte (v_mem s3) d b =
     if decide (b / PGSIZE = k) then Some (pte_of (V2P v) (PTE_FLAGS e)) else lookup_pte (v_mem s2) d b) ->
  kept (v_mem s) (v_mem s3) (v_shm s) y -> (length g <= 1)%nat ->
  copy_post f s3 pd d (k + 1) sz y l3 r s' -> copy_post f s pd d k sz y (g ++ l2) r s'.
Proof.
  intros Hk Hsz Hs Hpar Hv He Hby Hf Hvn Ho2 Hsh2 Ht2 Hsame Hlk [Hsh3 Htp3 Hfr3] Hpm3 Hlk3 Hkept Hg1 (Hsh' & l' & Hout).
  assert (Hpm : own s3 d ++ l3 ≡ₚ own s d ++ g ++ l2) by (rewrite Hpm3, Ho2; apply Permutation_app_swap_app).
  assert (Hfr : forall w, page kend w -> w ∉ d :: tabs (v_mem s) d ++ g ++ l2 -> same_page (v_mem s) (v_mem s3) w).
  { intros w Hw Hn. rewrite (Permutation_app_swap_app (tabs (v_mem s) d) g) in Hn.
    eapply same_page_trans; [apply Hsame; [done |] | apply Hfr3; [done |]].
    - intros H. apply Hn. right. rewrite elem_of_app. auto.
    - rewrite Ht2. intros H. apply Hn. apply elem_of_cons in H as [->|H]; [left | right; rewrite elem_of_app; by right]. }
  split; [congruence |]. exists l'.
  destruct Hout as [(-> & Hs' & Hpm' & Hfr' & Hcp) | (-> & Hf' & Hp' & Hshort & Hfr')]; [left | right]; (split; [done |]).
  - split; [done |]. split; [by rewrite Hpm' |]. split.
    { intros w Hw Hn. eapply same_page_trans; [by apply Hfr |]. apply Hfr'; [done |]. rewrite Htp3, Ht2.
      intros H. apply Hn. rewrite (Permutation_app_swap_app (tabs (v_mem s) d) g).
      apply elem_of_cons in H as [->|H]; [left | right; rewrite elem_of_app; by right]. }
    intros b Hb. specialize (Hcp b Hb). pose proof (Hlk3 b Hb) as Hb3.
    destruct (decide (b / PGSIZE = k)) as [Heq|Hne].
    + rewrite decide_True by (subst k; lia). rewrite decide_False in Hcp by lia. subst k.
      apply lookup_user_leaf in He as Hl. destruct Hl as [Hpres _]. destruct (copied_entry v e Hv Hpres) as [Ea Ef].
      exists e, (pte_of (V2P v) (PTE_FLAGS e)). rewrite Ea, Ef.
      assert (Hbv : lookup_pte (v_mem s) pd b = lookup_pte (v_mem s) pd (b / PGSIZE * PGSIZE)).
      { unfold lookup_pte. assert (pdx b = pdx (b / PGSIZE * PGSIZE) /\ ptx b = ptx (b / PGSIZE * PGSIZE)) as [-> ->]; [| done].
        apply same_vpage; [done | unfold KERNBASE in *; lia |]. by rewrite Z.div_mul by (unfold PGSIZE; lia). }
      split; [by rewrite Hbv |]. split; [by rewrite Hcp |]. split; [done |]. split.
      * intros o Hoo. rewrite <- (Hby o Hoo). assert (H23 : same_page (v_mem s2) (v_mem s') v).
        { apply same_page_trans with (v_mem s3); [apply Hfr3 | apply Hfr']; [done | by rewrite Ht2 | done | by rewrite Htp3, Ht2]. }
        apply H23. lia.
      * destruct (f _) as [w|]; [| done]. destruct Hf as [-> ->]. done.
    + destruct (decide (k <= b / PGSIZE /\ b / PGSIZE * PGSIZE < sz)) as [Hin|Hin].
      * rewrite decide_True in Hcp by lia. eapply copied_base; [exact Hpar | exact Hkept | | done].
        split; [lia |]. pose proof (vpage_range b ltac:(lia)). unfold KERNBASE, PGSIZE in *. lia.
      * rewrite decide_False in Hcp by lia. by rewrite Hcp, Hb3.
  - split; [done |]. split.
    + destruct Hp' as [Hp'|[u Hp']]; [left | right; exists u]; by rewrite Hp'.
    + split; [apply Permutation_length in Htp3; rewrite Ht2, !length_app in Htp3; rewrite length_app; lia |]. intros w Hw Hn. eapply same_page_trans; [apply Hfr; [done |]; by intros ?%tabs_own |]. apply Hfr'; [done |]. by rewrite Hpm.
Qed.

(** Attached shared pages: known to the system and mapped by the parent. *)
Definition attached (shms : list shm_proc_info) (m : mem) (sh : list shm_info) (pd : Z) : Prop :=
  forall i v, shm_page_at shms sh i = Some v ->
    page kend v /\ shmp sh v = true /\ forall e, lookup_pte m pd i = Some e -> P2V (PTE_ADDR e) = v.

Lemma attached_kept shms m m' sh y pd :
  parent m sh y pd -> kept m m' sh y -> attached shms m sh pd -> attached shms m' sh pd.
Proof. intros Hp Hk Ha i v Hi. destruct (Ha i v Hi) as (H1 & H2 & H3). rewrite (parent_lookup m m' sh y) by done. auto. Qed.

(** Failure: the child is torn down. *)
Lemma copy_fail f s s2 pd d k sz y g :
  space kend s d y (g ++ []) -> space kend s2 d (g ++ y) [] -> k * PGSIZE < sz -> own s2 d = own s d -> v_shm s2 = v_shm s ->
  (forall w, page kend w -> w ∉ g -> same_page (v_mem s) (v_mem s2) w) -> (g = [] \/ exists v, g = [v]) ->
  runs (freevm kend d ;;; ret 0) s2 (copy_post f s pd d k sz y (g ++ [])).
Proof.
  intros Hs Hs2 Hk Ho Hsh Hsame Hg. apply runs_bind.
  eapply runs_mono; [by apply (freevm_spec kend Hkend d s2 (g ++ y) []) |].
  intros _ s3 (l3 & Hf3 & Hp3 & Hsh3 & Hfr3). apply runs_ret. split; [congruence |]. exists l3. right.
  split; [done |]. split; [done |]. rewrite Ho in *. split.
  - destruct Hg as [->|[v ->]]; [by left | right]. exists v. rewrite Hp3. cbn [app]. apply Permutation_middle.
  - split; [pose proof (length_tabs (v_mem s) d); pose proof (npages_bounds sz); rewrite app_nil_r;
      destruct Hg as [->|[v ->]]; unfold PGSIZE in *; cbn [length]; lia |].
    intros w Hw Hn. rewrite Permutation_app_swap_app in Hn. apply not_elem_of_app in Hn as [Hn1 Hn2].
    eapply same_page_trans; [by apply Hsame | by apply Hfr3].
Qed.

Lemma space_kept s s3 pd x l :
  space kend s pd x l -> (forall w, page kend w -> w ∉ pd :: tabs (v_mem s) pd ++ l -> same_page (v_mem s) (v_mem s3) w) ->
  kept (v_mem s) (v_mem s3) (v_shm s) x.
Proof.
  intros Hs Hfr w Hw Hin. apply Hfr; [done |]. destruct Hin as [Hin|Hin].
  - intros Hn%tabs_own. pose proof (sp_nodup _ _ _ _ _ Hs) as Hnd.
    rewrite (Permutation_app_comm x), app_assoc in Hnd. apply NoDup_app in Hnd as (_ & Hd & _). by apply (Hd w).
  - apply (sp_shm _ _ _ _ _ Hs) in Hin. intros Hn. apply Hin. apply elem_of_cons in Hn as [->|Hn]; [by left | right].
    rewrite !elem_of_app in *. tauto.
Qed.

(** The bytes of the parent's page. *)
Lemma memmove_bytes m v w : (v + PGSIZE <= w \/ w + PGSIZE <= v \/ v = w) -> same_bytes m (memmove m v w PGSIZE) w v.
Proof.
  intros Hd o Ho. rewrite memmove_spec by (unfold PGSIZE; lia).
  rewrite (proj2 (andb_true_iff _ _)) by (unfold PGSIZE in *; split; lia). f_equal. lia.
Qed.

Lemma memmove_self m v : forall a, memmove m v v PGSIZE a = m a.
Proof.
  intros a. rewrite memmove_spec by (unfold PGSIZE; lia). destruct (_ && _); [f_equal; lia | done].
Qed.

(** A page for the copy at address [i]: the shared one, or a fresh one. *)
Lemma copy_page shms s pd d y l k e :
  space kend s d y l -> parent (v_mem s) (v_shm s) y pd -> attached shms (v_mem s) (v_shm s) pd ->
  0 <= k * PGSIZE < KERNBASE -> lookup_pte (v_mem s) pd (k * PGSIZE) = Some e ->
  let f := shm_page_at shms (v_shm s) in
  (l = [] /\ f (k * PGSIZE) = None) \/
  exists v g l2 s1, l = g ++ l2 /\ (g = [] \/ exists v, g = [v]) /\ page kend v /\
    (match f (k * PGSIZE) with Some m => ret m | None => kalloc_st end) s = Ok (v, s1) /\
    let s2 := with_vmem (memmove (v_mem s1) v (P2V (PTE_ADDR e)) PGSIZE) s1 in
    space kend s2 d (g ++ y) l2 /\ own s2 d = own s d /\ v_shm s2 = v_shm s /\
    tabs (v_mem s2) d = tabs (v_mem s) d /\ same_bytes (v_mem s) (v_mem s2) (P2V (PTE_ADDR e)) v /\
    (forall w, page kend w -> w ∉ g -> same_page (v_mem s) (v_mem s2) w) /\
    (forall b, lookup_pte (v_mem s2) d b = lookup_pte (v_mem s) d b) /\
    (v ∉ d :: tabs (v_mem s) d ++ l2) /\ g = (if shmp (v_shm s) v then [] else [v]) /\
    match f (k * PGSIZE) with Some w => P2V (PTE_ADDR e) = v /\ w = v | None => v <> P2V (PTE_ADDR e) end.
Proof.
  intros Hs Hpar Hatt Hk He f. destruct (pa_leaf _ _ _ _ Hpar _ e Hk He) as [Hpg Hin].
  destruct (f (k * PGSIZE)) as [v|] eqn:Hf.
  - right. destruct (Hatt _ v Hf) as (Hv & Hsh & Heq). specialize (Heq e He). exists v, [], l, s.
    rewrite Heq, Hsh. cbn [app].
    destruct (space_ext kend s d y l (memmove (v_mem s) v v PGSIZE) Hs) as (Hs2 & Ho2 & Ht2 & _ & Hl2).
    { intros w _ a _. apply memmove_self. }
    split; [done |]. split; [by left |]. split; [done |]. split; [done |]. split; [done |]. split; [done |].
    split; [done |]. split; [done |]. split; [apply memmove_bytes; auto |].
    split; [intros w _ _ a _; apply memmove_self |]. split; [done |]. split; [| done].
    intros Hn. apply (sp_shm _ _ _ _ _ Hs v Hsh). apply elem_of_cons in Hn as [->|Hn]; [left | right].
    rewrite !elem_of_app in *. tauto.
  - destruct l as [|v l]; [by left | right]. pose proof (kalloc_st_spec kend s d y (v :: l) Hs) as (s1 & Hka & Hm & Hsh & Ho & Hv & Hs1).
    assert (Hne : v <> P2V (PTE_ADDR e)).
    { intros ->. destruct Hin as [Hin|Hin].
      - pose proof (sp_nodup _ _ _ _ _ Hs) as Hnd. apply NoDup_app in Hnd as (_ & _ & Hnd).
        apply NoDup_app in Hnd as (_ & Hd & _). apply (Hd _ Hin). left.
      - apply (sp_shm _ _ _ _ _ Hs _ Hin). right. rewrite !elem_of_app. right. right. left. }
    exists v, [v], l, s1. split; [done |]. split; [by right; exists v |]. split; [done |]. split; [done |].
    assert (Hsame : forall w, page kend w -> w <> v ->
      same_page (v_mem s1) (memmove (v_mem s1) v (P2V (PTE_ADDR e)) PGSIZE) w).
    { intros w Hw Hnw. apply (memmove_same_page kend); [done | done | congruence | unfold PGSIZE; lia]. }
    destruct (space_write kend s1 d (v :: y) l v _ Hs1 ltac:(left) Hsame) as (Hs2 & Ho2 & Ht2 & _ & Hl2).
    rewrite Hm in *. split; [done |]. split; [congruence |]. split; [done |]. split; [done |].
    split; [apply memmove_bytes; destruct (page_apart kend v _ Hv Hpg Hne); auto |].
    split; [intros w Hw Hnw; apply Hsame; [done |]; intros ->; apply Hnw; left |]. split; [done |].
    pose proof (sp_nodup _ _ _ _ _ Hs) as Hnd.
    rewrite (Permutation_app_comm y), app_assoc, <- Permutation_middle in Hnd.
    apply NoDup_app in Hnd as (Hnd & _). apply NoDup_cons in Hnd as [Hnv _].
    split; [by intros H%tabs_own |]. split; [| done].
    destruct (shmp (v_shm s) v) eqn:Hshv; [| done]. exfalso. apply (sp_shm _ _ _ _ _ Hs _ Hshv).
    right. rewrite !elem_of_app. right. right. left.
Qed.

Lemma copyuvm_loop_spec shms n : forall s pd d k sz y l,
  space kend s d y l -> parent (v_mem s) (v_shm s) y pd -> attached shms (v_mem s) (v_shm s) pd ->
  0 <= k -> 0 <= sz <= KERNBASE -> sz <= (k + Z.of_nat n) * PGSIZE ->
  (forall b, 0 <= b < sz -> k <= b / PGSIZE -> is_Some (lookup_pte (v_mem s) pd b)) ->
  (forall b, 0 <= b < KERNBASE -> k <= b / PGSIZE -> lookup_pte (v_mem s) d b = None) ->
  runs (copyuvm_loop kend n shms pd d (k * PGSIZE) sz) s (copy_post (shm_page_at shms (v_shm s)) s pd d k sz y l).
Proof.
  induction n as [|n IH]; intros s pd d k sz y l Hs Hpar Hatt Hk Hsz Hn Hsome Hnone; cbn [copyuvm_loop];
    (destruct (Z.leb_spec sz (k * PGSIZE)) as [Hle|Hgt];
     [apply runs_ret; split; [done |]; exists l; left; split; [done |]; split; [done |]; split; [done |];
      split; [by intros w _ _ a _ |]; intros b Hb; rewrite decide_False; [done |]; unfold PGSIZE in *; lia |]).
  { unfold PGSIZE in *. lia. }
  assert (Ha : 0 <= k * PGSIZE < KERNBASE) by (unfold PGSIZE in *; lia).
  assert (Hdiv : k * PGSIZE / PGSIZE = k) by (apply Z.div_mul; unfold PGSIZE; lia).
  destruct (Hsome (k * PGSIZE)) as [e He]; [lia | lia |].
  destruct (lookup_user_leaf _ _ _ _ He) as (Hp & t & Ht & Hle).
  destruct (pa_tabs _ _ _ _ Hpar t) as [_ Hpt%page_range]; [right; eapply tab_elem; [apply pdx_lt | exact Ht] |].
  apply runs_bind. eexists _, _. split; [apply walkpgdir_find |]. rewrite Ht.
  rewrite (proj2 (Z.eqb_neq (t + _) 0)) by lia. apply runs_bind, runs_get.
  change (load32 _ _) with (leaf (v_mem s) t (ptx (k * PGSIZE))). rewrite Hle, Hp. cbn [negb].
  apply runs_bind, runs_get, runs_bind.
  destruct (copy_page shms s pd d y l k e Hs Hpar Hatt Ha He) as [(-> & Hf) | (v & g & l2 & s1 & -> & Hg & Hv & Hkv & Hrest)].
  { rewrite Hf. exists 0, s. split; [by apply (kalloc_st_spec kend s d y []) |]. cbn [Z.eqb andb].
    apply (copy_fail _ s s pd d k sz y []); try done. by left. }
  exists v, s1. split; [done |]. rewrite (proj2 (Z.eqb_neq v 0)) by (by apply (page_ne0 kend)). cbn [andb].
  apply runs_bind, runs_modify. cbv zeta in Hrest. set (s2 := with_vmem _ s1) in *.
  destruct Hrest as (Hs2 & Ho2 & Hsh2 & Ht2 & Hby & Hsame & Hlk & Hvn & Hgv & Hfv).
  pose proof (pte_flags_range e) as Hfl.
  apply runs_bind. eapply runs_mono.
  { apply (mappages_page kend Hkend d (k * PGSIZE) v (PTE_FLAGS e) s2 (g ++ y) y l2 Hs2 Hv); [by apply Z.mod_mul | done | done | |].
    - rewrite Hlk. apply Hnone; lia.
    - rewrite (taken_user kend Hkend), Hsh2 by done. by rewrite <- Hgv. }
  rewrite (taken_user kend Hkend), Hsh2, <- Hgv by done.
  intros r s3 [(-> & -> & ->) | (-> & l3 & Hs3 & Hst3 & Hpm3 & Hlk3)]; cbn [Z.ltb Z.compare].
  { eapply copy_fail; eassumption. }
  rewrite Hdiv in Hlk3.
  assert (Hkept : kept (v_mem s) (v_mem s3) (v_shm s) y).
  { apply (space_kept s s3 d y (g ++ l2) Hs). intros w Hw Hnw. rewrite (Permutation_app_swap_app (tabs (v_mem s) d) g) in Hnw.
    eapply same_page_trans; [apply Hsame; [done |] | apply (tst_frame _ _ _ _ _ _ Hst3); [done |]].
    - intros H. apply Hnw. right. rewrite elem_of_app. auto.
    - rewrite Ht2. intros H. apply Hnw. apply elem_of_cons in H as [->|H]; [left | right; rewrite elem_of_app; by right]. }
  rewrite u32_small by (unfold KERNBASE, PGSIZE in *; lia).
  replace (k * PGSIZE + PGSIZE) with ((k + 1) * PGSIZE) by lia.
  assert (Hsh3 : v_shm s3 = v_shm s) by (rewrite (tst_shm _ _ _ _ _ _ Hst3); done).
  eapply runs_mono; [apply (IH s3 pd d (k + 1) sz y l3 Hs3); rewrite ?Hsh3; try (done || lia) |].
  - by eapply parent_kept.
  - by eapply attached_kept.
  - intros b Hb Hkb. rewrite (parent_lookup _ _ _ _ _ _ Hpar Hkept). apply Hsome; lia.
  - intros b Hb Hkb. rewrite Hlk3, decide_False, Hlk by (unfold KERNBASE in *; lia). apply Hnone; lia.
  - intros r s' Hpost. rewrite Hsh3 in Hpost. eapply (copy_post_step _ s s2 s3); try eassumption; [lia | lia |].
    destruct Hg as [->|[? ->]]; cbn; lia.
Qed.

Lemma space_pool s pd x l : space kend s pd x l -> pool kend s (own s pd ++ x) l.
Proof.
  intros [H1 H2 H3 H4 H5]. split; [done | by rewrite <- app_assoc | intros v; rewrite <- app_assoc; apply H3 |].
  intros v Hv Hin. apply (H5 v Hv). unfold own in Hin. rewrite <- app_assoc in Hin. cbn [app] in Hin.
  apply elem_of_cons in Hin as [->|Hin]; [left | right]. rewrite !elem_of_app in *.
  destruct Hin as [[Hin|Hin%upages_private]|Hin]; [tauto | congruence | tauto].
Qed.

(** What a caller gets from [copyuvm]: the parent intact, and a child with the
    copied pages and the kernel's, or nothing. *)
Record copy_result (shms : list shm_proc_info) (s : vst) (pd sz : Z) (x l : list Z) (r : Z) (s' : vst) : Prop := {
  cr_shm : v_shm s' = v_shm s;
  cr_kept : kept (v_mem s) (v_mem s') (v_shm s) (own s pd ++ x);
  cr_parent : forall b, lookup_pte (v_mem s') pd b = lookup_pte (v_mem s) pd b;
  cr_out : exists l',
    (r = 0 /\ kmem_free kend (v_kmem s') l' /\ (l' ≡ₚ l \/ exists v, v :: l' ≡ₚ l) /\
     Z.of_nat (length l) <= 1025 + npages sz) \/
    (r <> 0 /\ space kend s' r (own s pd ++ x) l' /\ own s' r ++ l' ≡ₚ l /\
     forall b, 0 <= b < 4294967296 ->
       if decide (b / PGSIZE * PGSIZE < sz) then copied (shm_page_at shms (v_shm s)) (v_mem s) (v_mem s') pd r b
       else lookup_pte (v_mem s') r b = kmap_view (kmap kdata) b)
}.

Lemma kmap_view_user ks b : kmap_ok ks -> 0 <= b < KERNBASE -> kmap_view ks b = None.
Proof.
  intros Hok Hb. induction Hok as [|[[[virt ps] pe] perm] ks ka kp n Hkm _ _ IH]; [done |].
  cbn [kmap_view]. rewrite IH. destruct Hkm as (-> & _ & _ & Hv & _). unfold km_view. rewrite decide_False; [done |].
  rewrite Z.div_mul by (unfold PGSIZE; lia). pose proof (vpage_range b (proj1 Hb)).
  unfold PGSIZE, KERNBASE in *. lia.
Qed.

Lemma kept_trans m1 m2 m3 sh y : kept m1 m2 sh y -> kept m2 m3 sh y -> kept m1 m3 sh y.
Proof. intros H1 H2 w Hw Hin. eapply same_page_trans; [by apply H1 | by apply H2]. Qed.

Lemma copyuvm_spec shms s pd x l sz :
  space kend s pd x l -> attached shms (v_mem s) (v_shm s) pd -> 0 <= sz <= KERNBASE ->
  (forall b, 0 <= b < sz -> is_Some (lookup_pte (v_mem s) pd b)) ->
  runs (copyuvm kend kdata shms pd sz) s (copy_result shms s pd sz x l).
Proof.
  intros Hs Hatt Hsz Hsome. pose proof (parent_space s pd x l Hs) as Hpar.
  pose proof (space_pool s pd x l Hs) as Hpool. set (y := own s pd ++ x) in *.
  unfold copyuvm. apply runs_bind. eapply runs_mono; [by apply (setupkvm_spec kend Hkend kdata Hkdata s y l) |].
  intros d s1 (Hsh1 & Hfr1 & l1 & Hout).
  assert (Hk1 : kept (v_mem s) (v_mem s1) (v_shm s) y).
  { intros w Hw Hin. apply Hfr1; [done |]. destruct Hpool as [_ Hnd _ Hsh]. destruct Hin as [Hin|Hin].
    - apply NoDup_app in Hnd as (_ & Hd & _). by apply Hd.
    - intros Hl. apply (Hsh w Hin). rewrite elem_of_app. auto. }
  destruct Hout as [(-> & Hf1 & Hp1 & Hshort) | (Hd & Hs1 & Hp1 & Hl1)].
  { cbn [Z.eqb]. apply runs_ret. split; [done | done | intros b; by eapply parent_lookup |].
    exists l1. left. split; [done |]. split; [done |]. split; [by left |]. pose proof (npages_bounds sz). unfold PGSIZE in *. lia. }
  rewrite (proj2 (Z.eqb_neq d 0)) by done. change 0 with (0 * PGSIZE) at 1.
  eapply runs_mono; [apply (copyuvm_loop_spec shms _ s1 pd d 0 sz y l1 Hs1); rewrite ?Hsh1; try done |].
  - by eapply parent_kept.
  - by eapply attached_kept.
  - unfold PGSIZE. pose proof (Z.div_mod sz 4096). pose proof (Z.mod_pos_bound sz 4096).
    assert (0 <= sz / 4096) by (apply Z.div_pos; lia). lia.
  - intros b Hb _. rewrite (parent_lookup _ _ _ _ _ _ Hpar Hk1). auto.
  - intros b Hb _. rewrite Hl1 by (unfold KERNBASE in *; lia). apply kmap_view_user; [by apply kmap_kmap_ok | done].
  - rewrite Hsh1. intros r s2 (Hsh2 & l2 & Hout).
    assert (Hk2 : kept (v_mem s1) (v_mem s2) (v_shm s) y).
    { rewrite <- Hsh1. destruct Hout as [(_ & _ & _ & Hfr & _) | (_ & _ & _ & _ & Hfr)]; [by eapply space_kept |].
      intros w Hw Hin. apply Hfr; [done |]. rewrite Hp1. intros Hl. destruct Hin as [Hin|Hin].
      - destruct Hpool as [_ Hnd _ _]. apply NoDup_app in Hnd as (_ & Hnd & _). by apply (Hnd w).
      - destruct Hpool as [_ _ _ Hsh]. rewrite Hsh1 in Hin. apply (Hsh w Hin). rewrite elem_of_app. auto. }
    pose proof (kept_trans _ _ _ _ _ Hk1 Hk2) as Hk12.
    split; [congruence | done | intros b; by eapply parent_lookup |]. exists l2.
    destruct Hout as [(-> & Hs2 & Hp2 & _ & Hcp) | (-> & Hf2 & Hp2 & Hshort & _)]; [right | left].
    + split; [done |]. split; [done |]. split; [by rewrite Hp2 |]. intros b Hb. specialize (Hcp b Hb).
      destruct (decide (b / PGSIZE * PGSIZE < sz)) as [Hin|Hin].
      * rewrite decide_True in Hcp by (split; [apply Z.div_pos; unfold PGSIZE; lia | done]).
        eapply copied_base; [exact Hpar | exact Hk1 | | done].
        split; [lia |]. pose proof (vpage_range b ltac:(lia)). unfold KERNBASE, PGSIZE in *. lia.
      * rewrite decide_False in Hcp by tauto. by rewrite Hcp, Hl1.
    + split; [done |]. split; [done |]. split; [destruct Hp2 as [Hp2|[v Hp2]]; [left | right; exists v]; by rewrite Hp2 |].
      apply Permutation_length in Hp1. unfold own in Hp1. rewrite upages_none in Hp1.
      2: { intros b Hb. rewrite Hl1 by (unfold KERNBASE in *; lia). apply kmap_view_user; [by apply kmap_kmap_ok | done]. }
      rewrite app_nil_r, length_app, length_cons in Hp1. lia.
Qed.
End copy.

(** * Properties of copying *)

(** C15: [copyuvm] of an address space whose pages below [sz] are all present
    terminates without a panic, leaves the parent's mappings and every byte of
    its pages and of the shared pages unchanged, and either returns 0 or a
    child that maps every page below [sz] with the parent's flags to a page
    with the parent's bytes (a fresh one, the very same one if it is attached
    shared memory) and above it exactly the kernel's mappings. Pages: all free
    pages are accounted for, except at most one when it returns 0, which it
    does only when there are not enough of them for the pages and 1025 pages
    of tables. *)
Theorem copyuvm_correct kend kdata shms s pd x l sz :
  KERNBASE < kend -> kdata_ok kdata -> space kend s pd x l ->
  attached kend shms (v_mem s) (v_shm s) pd -> 0 <= sz <= KERNBASE ->
  (forall b, 0 <= b < sz -> is_Some (lookup_pte (v_mem s) pd b)) ->
  exists r s', copyuvm kend kdata shms pd sz s = Ok (r, s') /\ copy_result kend kdata shms s pd sz x l r s'.
Proof. intros Hk Hd Hs Ha Hsz Hsome. by apply copyuvm_spec. Qed.

(** A parent with one page: directory, table and page from [demo_vst]. *)
Definition one_tab : vst := with_vmem (store32 (v_mem demo_vst) 0x80400000 (Z.lor (V2P 0x80700000) 7)) demo_vst.
Definition one_page : vst := with_vmem (store32 (v_mem one_tab) 0x80700000 (pte_of (V2P 0x80800000) 6)) one_tab.

Lemma demo_space2 :
  space 0x80200000 demo_vst 0x80400000 [0x80700000; 0x80800000] [0x80500000; 0x80600000] /\
  forall b, lookup_pte (v_mem demo_vst) 0x80400000 b = None.
Proof.
  destruct demo_space as ([Hf _ _ _ _] & _ & Hl). split; [| done].
  assert (Hp : forall v, v ∈ [0x80400000; 0x80700000; 0x80800000; 0x80500000; 0x80600000] -> page 0x80200000 v).
  { intros v Hv. repeat (apply elem_of_cons in Hv as [->|Hv]; [by vm_compute |]). by apply not_elem_of_nil in Hv. }
  apply space_init; [done | | repeat constructor; set_solver | done | done].
  intros y Hy. cbn. unfold demo_mem. rewrite store32_ne; [done |]. unfold PGSIZE in Hy. lia.
Qed.

Lemma one_page_space :
  space 0x80200000 one_page 0x80400000 [] [0x80500000; 0x80600000] /\
  lookup_pte (v_mem one_page) 0x80400000 0 = Some (pte_of (V2P 0x80800000) 6).
Proof.
  destruct demo_space2 as (Hs & Hl).
  destruct (space_newtab 0x80200000 ltac:(by vm_compute) demo_vst 0x80400000 [0x80800000] [0x80500000; 0x80600000] 0x80700000 0 Hs)
    as (Hs1 & Ht1 & _ & _ & Hl1); [lia | by vm_compute | |].
  { intros j Hj. unfold leaf. change (v_mem demo_vst) with demo_mem. unfold demo_mem.
    rewrite load32_store32_ne by lia. done. }
  change (0x80400000 + 4 * Z.of_nat 0) with 0x80400000 in *. fold one_tab in Hs1, Ht1, Hl1.
  destruct (space_setleaf 0x80200000 one_tab 0x80400000 [0x80800000] [] [0x80500000; 0x80600000] 0 0 0x80700000
    (pte_of (V2P 0x80800000) 6) Hs1) as (Hs2 & _ & Hls); [lia | lia | done | by vm_compute | by vm_compute | by vm_compute | by vm_compute |].
  change (0x80700000 + 4 * Z.of_nat 0) with 0x80700000 in *. fold one_page in Hs2, Hls. split; [done |].
  rewrite (ls_lookup Hls). by vm_compute.
Qed.

Lemma copyuvm_correct_witness :
  exists r s', copyuvm 0x80200000 0x80180000 [] 0x80400000 4096 one_page = Ok (r, s') /\
    copy_result 0x80200000 0x80180000 [] one_page 0x80400000 4096 [] [0x80500000; 0x80600000] r s'.
Proof.
  destruct one_page_space as [Hs Hl].
  apply (copyuvm_correct 0x80200000 0x80180000 [] one_page 0x80400000 [] [0x80500000; 0x80600000] 4096).
  - unfold KERNBASE. lia.
  - split; [done |]. unfold KERNLINK, KERNBASE, EXTMEM, PHYSTOP. lia.
  - done.
  - intros i v Hi. done.
  - unfold KERNBASE. lia.
  - intros b Hb. exists (pte_of (V2P 0x80800000) 6). rewrite <- Hl. unfold lookup_pte.
    assert (pdx b = pdx 0 /\ ptx b = ptx 0) as [-> ->]; [| done].
    apply same_vpage; [lia | lia |]. unfold PGSIZE. by rewrite Z.div_small.
Defined.
