(* ===== verification/UserMem.v ===== *)
(** * The memory of a user program (vm.c: copyout, clearpteu, allocuvm)

    What the program in an address space sees: pages from address 0 on, each
    in a private frame of its own, and the kernel's mappings above. Growing,
    closing a page and copying bytes out are proved on this view. *)

From S2P Require Import Prelude Mem CString Params Kalloc ProcDef Vm VmProof VmCopy.

Lemma NoDup_concat_elem {A} (ls : list (list A)) (l : list A) : NoDup (concat ls) -> l ∈ ls -> NoDup l.
Proof.
  induction ls as [|l' ls IH]; cbn; [by intros _ ?%not_elem_of_nil |]. intros (H1 & _ & H2)%NoDup_app Hl.
  apply elem_of_cons in Hl as [->|Hl]; [done | by apply IH].
Qed.

Section user.
Variables kend kdata : Z.
Hypotheses (Hkend : KERNBASE < kend) (Hkdata : kdata_ok kdata).

Lemma pte_frame v perm : page kend v -> 0 <= perm < 4096 -> P2V (PTE_ADDR (pte_of (V2P v) perm)) = v.
Proof. intros Hv Hp. rewrite pte_of_eq. apply (entry_page kend Hkend v _ Hv). by apply perm_P. Qed.

Lemma lookup_same m pd b b' :
  0 <= b < 4294967296 -> 0 <= b' < 4294967296 -> b / PGSIZE = b' / PGSIZE -> lookup_pte m pd b = lookup_pte m pd b'.
Proof.
  intros Hb Hb' He. unfold lookup_pte.
  assert (pdx b = pdx b' /\ ptx b = ptx b') as [-> ->]; [| done]. by apply same_vpage.
Qed.

(** A private frame is mapped once. *)
Lemma private_inj s pd x l b b' e e' :
  space kend s pd x l -> 0 <= b < KERNBASE -> 0 <= b' < KERNBASE ->
  lookup_pte (v_mem s) pd b = Some e -> lookup_pte (v_mem s) pd b' = Some e' ->
  P2V (PTE_ADDR e) = P2V (PTE_ADDR e') -> shmp (v_shm s) (P2V (PTE_ADDR e)) = false -> b / PGSIZE = b' / PGSIZE.
Proof.
  intros Hs Hb Hb' (Hp & t & Ht & He)%lookup_user_leaf (Hp' & t' & Ht' & He')%lookup_user_leaf Hf Hsh.
  set (v := P2V (PTE_ADDR e)) in *. pose proof (pdx_user b Hb) as Hi. pose proof (pdx_user b' Hb') as Hi'.
  assert (Hv : v ∈ upage (v_shm s) e) by (unfold upage; fold v; rewrite Hp, Hsh; by left).
  assert (Hv' : v ∈ upage (v_shm s) e') by (unfold upage; rewrite <- Hf, Hp', Hsh; by left).
  pose proof (sp_nodup _ _ _ _ _ Hs) as Hnd. apply NoDup_app in Hnd as (Hnd & _).
  unfold own in Hnd. rewrite app_comm_cons in Hnd. apply NoDup_app in Hnd as (_ & _ & Hnd).
  assert (pdx b = pdx b') as Hpd.
  { eapply (NoDup_concat_seq _ _ _ _ v Hnd Hi Hi'); [rewrite Ht | rewrite Ht'];
      apply elem_of_concat_seq; eexists; (split; [apply ptx_lt |]); [by rewrite He | by rewrite He']. }
  rewrite <- Hpd, Ht in Ht'. injection Ht' as <-.
  assert (ptx b = ptx b') as Hpt.
  { assert (NoDup (tpages (v_shm s) (v_mem s) t)) as Hndt.
    { eapply NoDup_concat_elem; [exact Hnd |]. apply list_elem_of_fmap. exists (pdx b). rewrite Ht.
      split; [done |]. apply elem_of_seq. lia. }
    eapply (NoDup_concat_seq _ _ _ _ v Hndt (ptx_lt b) (ptx_lt b')); [by rewrite He | by rewrite He']. }
  change PGSIZE with 4096. rewrite (pdx_ptx b), (pdx_ptx b') by (unfold KERNBASE in *; lia). congruence.
Qed.

(** ** The view of the program

    [n] pages with the bytes [f], and the flags [fl k] on page [k]. *)
Record holds (s : vst) (pd n : Z) (fl f : Z -> Z) : Prop := {
  ho_pages : 0 <= n /\ n * PGSIZE <= KERNBASE;
  ho_flags : forall k, 0 <= fl k < 4096;
  ho_user : forall b, 0 <= b < n * PGSIZE -> exists v, page kend v /\ shmp (v_shm s) v = false /\
    lookup_pte (v_mem s) pd b = Some (pte_of (V2P v) (fl (b / PGSIZE))) /\ v_mem s (v + b mod PGSIZE) = f b;
  ho_rest : forall b, n * PGSIZE <= b < 4294967296 -> lookup_pte (v_mem s) pd b = kmap_view (kmap kdata) b;
  ho_zero : forall b, n * PGSIZE <= b -> f b = 0
}.

Lemma holds_ext s pd n fl f f' : holds s pd n fl f -> (forall b, f b = f' b) -> holds s pd n fl f'.
Proof.
  intros [H1 H2 H3 H4 H5] He. split; try done.
  - intros b Hb. rewrite <- He. by apply H3.
  - intros b Hb. rewrite <- He. by apply H5.
Qed.

(** A step that writes to pages of the space other than its tables. *)
Record wrote (s s' : vst) (pd : Z) (x l : list Z) : Prop := {
  wr_space : space kend s' pd x l;
  wr_own : own s' pd ≡ₚ own s pd;
  wr_tabs : tabs (v_mem s') pd = tabs (v_mem s) pd;
  wr_shm : v_shm s' = v_shm s;
  wr_frame : forall w, page kend w -> w ∉ own s pd -> same_page (v_mem s) (v_mem s') w
}.

Lemma wrote_refl s pd x l : space kend s pd x l -> wrote s s pd x l.
Proof. intros Hs. by split. Qed.

Lemma mem_wrote_trans s1 s2 s3 pd x l : wrote s1 s2 pd x l -> wrote s2 s3 pd x l -> wrote s1 s3 pd x l.
Proof.
  intros [A1 B1 C1 D1 E1] [A2 B2 C2 D2 E2]. split; [done | by rewrite B2 | congruence | congruence |].
  intros w Hw Hn. eapply same_page_trans; [by apply E1 | apply E2; [done |]]. by rewrite B1.
Qed.

Lemma wrote_stable s s' pd x l : wrote s s' pd x l -> stable kend pd s s' l l.
Proof.
  intros [A B C D E]. split; [done | by rewrite B |]. intros w Hw Hn. apply E; [done |]. intros Hw'. apply Hn.
  rewrite elem_of_app. auto.
Qed.

Lemma write_bytes_in m p y x : p <= x < p + Z.of_nat (length y) -> write_bytes m p y x = default 0 (y !! Z.to_nat (x - p)).
Proof. intros Hx. unfold write_bytes. by rewrite (proj2 (andb_true_iff _ _)) by lia. Qed.

Lemma write_bytes_out m p y x : ~ p <= x < p + Z.of_nat (length y) -> write_bytes m p y x = m x.
Proof. intros Hx. unfold write_bytes. destruct (Z.leb_spec p x), (Z.ltb_spec x (p + Z.of_nat (length y))); simpl; (done || lia). Qed.

Lemma frame_own s pd x l b v perm :
  space kend s pd x l -> 0 <= b < KERNBASE -> page kend v -> 0 <= perm < 4096 -> shmp (v_shm s) v = false ->
  lookup_pte (v_mem s) pd b = Some (pte_of (V2P v) perm) -> v ∈ own s pd /\ v ∉ pd :: tabs (v_mem s) pd ++ l.
Proof.
  intros Hs Hb Hv Hp Hsh (Hpr & t & Ht & He)%lookup_user_leaf.
  assert (Hu : v ∈ upages (v_shm s) (v_mem s) pd).
  { eapply leaf_upage; [by apply pdx_user | apply ptx_lt | exact Ht |]. rewrite He. unfold upage.
    rewrite Hpr, pte_frame, Hsh by done. by left. }
  split; [unfold own; rewrite app_comm_cons, elem_of_app; auto |].
  pose proof (sp_nodup _ _ _ _ _ Hs) as Hnd. unfold own in Hnd. rewrite app_comm_cons in Hnd.
  intros Hin. rewrite app_comm_cons, elem_of_app in Hin. destruct Hin as [Hin|Hin].
  - apply NoDup_app in Hnd as (Hnd & _). apply NoDup_app in Hnd as (_ & Hd & _). by apply (Hd v).
  - rewrite (Permutation_app_comm x), app_assoc in Hnd. apply NoDup_app in Hnd as (Hnd & _).
    apply NoDup_app in Hnd as (_ & Hd & _). apply (Hd v); [| done]. rewrite elem_of_app. auto.
Qed.

(** Bytes written inside one page. *)
Lemma holds_write s pd x l n fl f b v y :
  space kend s pd x l -> holds s pd n fl f -> 0 <= b < n * PGSIZE -> page kend v -> shmp (v_shm s) v = false ->
  lookup_pte (v_mem s) pd b = Some (pte_of (V2P v) (fl (b / PGSIZE))) -> b mod PGSIZE + Z.of_nat (length y) <= PGSIZE ->
  let s' := with_vmem (write_bytes (v_mem s) (v + b mod PGSIZE) y) s in
  wrote s s' pd x l /\ holds s' pd n fl (write_bytes f b y).
Proof.
  intros Hs Hh Hb Hv Hsh Hl Hy s'. pose proof Hh as [Hn Hfl Hu Hr Hz].
  assert (Hbk : 0 <= b < KERNBASE) by lia. pose proof (Z.mod_pos_bound b PGSIZE ltac:(done)) as Hmod.
  destruct (frame_own s pd x l b v _ Hs Hbk Hv (Hfl _) Hsh Hl) as [Hvo Hvn].
  assert (Hsame : forall w, page kend w -> w <> v -> same_page (v_mem s) (v_mem s') w).
  { intros w Hw Hne a Ha. cbn. apply write_bytes_out. destruct (page_apart kend v w Hv Hw ltac:(congruence)); lia. }
  destruct (space_ext_tabs kend s pd x l (v_mem s') Hs) as (Hs' & Ho & Ht & _ & Hlk).
  { intros w Hw. apply Hsame; [| intros ->; done]. apply (sp_pages _ _ _ _ _ Hs).
    apply tabs_own in Hw. rewrite !elem_of_app in *. tauto. }
  split.
  { split; [exact Hs' | apply reflexive_eq, Ho | exact Ht | done |]. intros w Hw Hn'. apply Hsame; [done |]. by intros ->. }
  split; [done | done | | intros c Hc; by rewrite Hlk, Hr |].
  - intros c Hc. destruct (Hu c Hc) as (vc & Hvc & Hshc & Hlc & Hfc). exists vc.
    split; [done |]. split; [done |]. split; [by rewrite Hlk |].
    pose proof (Z.mod_pos_bound c PGSIZE ltac:(done)). pose proof (Z.div_mod c PGSIZE ltac:(done)).
    pose proof (Z.div_mod b PGSIZE ltac:(done)).
    destruct (decide (vc = v)) as [->|Hne].
    + assert (c / PGSIZE = b / PGSIZE) as He.
      { eapply (private_inj s pd x l c b _ _ Hs); [lia | done | exact Hlc | exact Hl | |]; rewrite !pte_frame; done. }
      cbn. unfold write_bytes. rewrite Hfc. replace (v + c mod PGSIZE - (v + b mod PGSIZE)) with (c - b) by lia.
      destruct (Z.leb_spec (v + b mod PGSIZE) (v + c mod PGSIZE)), (Z.leb_spec b c); try lia; cbn [andb]; try done.
      destruct (Z.ltb_spec (v + c mod PGSIZE) (v + b mod PGSIZE + Z.of_nat (length y))), (Z.ltb_spec c (b + Z.of_nat (length y))); try lia; done.
    + rewrite (Hsame vc Hvc Hne) by lia. rewrite Hfc. symmetry. apply write_bytes_out. intros Hin. apply Hne.
      assert (c / PGSIZE = b / PGSIZE) as He.
      { symmetry. apply (Z.div_unique c PGSIZE (b / PGSIZE) (c - PGSIZE * (b / PGSIZE))); lia. }
      rewrite (lookup_same _ _ c b), He, Hl in Hlc by (unfold KERNBASE in *; lia). injection Hlc as Hlc.
      apply (f_equal (fun e => P2V (PTE_ADDR e))) in Hlc. by rewrite !pte_frame in Hlc.
  - intros c Hc. rewrite write_bytes_out; [by apply Hz |]. intros Hin.
    assert (b / PGSIZE < n) by (apply Z.div_lt_upper_bound; unfold PGSIZE in *; lia).
    pose proof (Z.div_mod b PGSIZE ltac:(done)). unfold PGSIZE in *. nia.
Qed.

(** ** Growing *)

Lemma holds_init s pd fl :
  (forall b, 0 <= b < 4294967296 -> lookup_pte (v_mem s) pd b = kmap_view (kmap kdata) b) ->
  (forall k, 0 <= fl k < 4096) -> holds s pd 0 fl (fun _ => 0).
Proof.
  intros Hl Hfl. split; [unfold KERNBASE; lia | done | lia | | done]. intros b Hb. apply Hl. lia.
Qed.

Lemma div_pages b n : 0 <= b -> b / PGSIZE < n <-> b < n * PGSIZE.
Proof.
  intros Hb. split; intros H.
  - pose proof (Z.div_mod b PGSIZE ltac:(done)). pose proof (Z.mod_pos_bound b PGSIZE ltac:(done)). unfold PGSIZE in *. nia.
  - apply Z.div_lt_upper_bound; [done |]. lia.
Qed.

Lemma allocuvm_holds s pd x l fl f oldsz newsz :
  space kend s pd x l -> holds s pd (npages oldsz) fl f -> 0 <= oldsz <= newsz -> newsz < KERNBASE ->
  (forall k, npages oldsz <= k -> fl k = Z.lor PTE_W PTE_U) ->
  runs (allocuvm kend pd oldsz newsz) s (fun r s' => exists l', space kend s' pd x l' /\ stable kend pd s s' l l' /\
    ((r = newsz /\ holds s' pd (npages newsz) fl f /\
      Z.of_nat (length (tabs (v_mem s') pd) + length l') + (npages newsz - npages oldsz) =
        Z.of_nat (length (tabs (v_mem s) pd) + length l)) \/
     (r = 0 /\ Z.of_nat (length (tabs (v_mem s) pd) + length l) <= 1024 + (npages newsz - npages oldsz)))).
Proof.
  intros Hs Hh Ho Hn Hnew. pose proof Hh as [Hpg Hfl Hu Hr Hz]. pose proof (npages_bounds newsz) as Hnb.
  assert (Hmono : npages oldsz <= npages newsz) by (unfold npages; apply Z.div_le_mono; lia).
  eapply runs_mono; [apply (allocuvm_spec kend Hkend pd oldsz newsz s x l Hs Ho Hn) |].
  { intros b Hb Hk Hlt. pose proof (vpage_range b (proj1 Hb)). rewrite Hr, (kmap_view_user (kmap kdata)); [done | by apply kmap_kmap_ok | |].
    - unfold PGSIZE, KERNBASE in *. lia.
    - pose proof (div_pages b (npages oldsz) (proj1 Hb)). lia. }
  intros r s' (l' & Hs' & Hst & [(-> & Hfr & Hg & Hc) | (-> & _ & Hshort)]); exists l'; (split; [done |]; split; [done |]); [left | by right].
  split; [done |]. split; [| lia]. split; [unfold PGSIZE, KERNBASE, npages in *; lia | done | | |].
  - intros b Hb. specialize (Hg b ltac:(unfold KERNBASE, PGSIZE in *; lia)). pose proof (vpage_range b ltac:(lia)).
    pose proof (div_pages b (npages newsz) ltac:(lia)). pose proof (div_pages b (npages oldsz) ltac:(lia)).
    case_decide as Hd.
    + destruct Hg as (v & Hv & Hsh & Hl & Hzp). exists v. rewrite (st_shm _ _ _ _ _ _ Hst), Hnew by lia.
      split; [done |]. split; [done |]. split; [done |]. rewrite Hz by lia. apply Hzp.
      pose proof (Z.mod_pos_bound b PGSIZE ltac:(done)). lia.
    + destruct (Hu b) as (v & Hv & Hsh & Hl & Hf); [unfold PGSIZE in *; lia |]. exists v. rewrite (st_shm _ _ _ _ _ _ Hst), Hg.
      split; [done |]. split; [done |]. split; [done |]. rewrite <- Hf. apply (Hfr v Hv); [| pose proof (Z.mod_pos_bound b PGSIZE ltac:(done)); lia].
      eapply (frame_own s pd x l b v _ Hs); [unfold KERNBASE, PGSIZE in *; lia | done | apply (Hfl (b / PGSIZE)) | done | done].
  - intros b Hb. specialize (Hg b ltac:(unfold PGSIZE, npages in *; lia)). pose proof (div_pages b (npages newsz) ltac:(unfold PGSIZE, npages in *; lia)).
    rewrite decide_False in Hg by (unfold PGSIZE in *; lia). rewrite Hg. apply Hr. unfold PGSIZE in *. lia.
  - intros b Hb. apply Hz. unfold PGSIZE in *. lia.
Qed.

(** ** Entries *)

Lemma walk_entry s pd x l b e :
  space kend s pd x l -> lookup_pte (v_mem s) pd b = Some e ->
  exists t, tab (v_mem s) pd (pdx b) = Some t /\ walkpgdir pd b false s = Ok (t + 4 * Z.of_nat (ptx b), s) /\
    t + 4 * Z.of_nat (ptx b) <> 0 /\ leaf (v_mem s) t (ptx b) = e /\ presentb e = true.
Proof.
  intros Hs (Hp & t & Ht & He)%lookup_user_leaf. exists t. split; [done |].
  split; [by rewrite walkpgdir_find, Ht |]. split; [| done].
  destruct (space_tab_page _ _ _ _ _ _ _ Hs (pdx_lt b) Ht) as (Hpt%page_range & _). lia.
Qed.

Lemma clear_u v : page kend v -> Z.land (pte_of (V2P v) (Z.lor PTE_W PTE_U)) (Z.lnot PTE_U) = pte_of (V2P v) PTE_W.
Proof.
  intros Hv. destruct (page_V2P_aligned kend Hkend v Hv) as [[k Hk]%aligned_eq_mul _].
  rewrite !pte_of_eq, Z.land_lor_distr_l, <- Z.ldiff_land. f_equal. rewrite Hk. unfold PTE_U, PGSIZE.
  change 4096 with (2 ^ 12). apply Z.bits_inj'. intros n Hn. rewrite Z.ldiff_spec. change 4 with (2 ^ 2).
  destruct (decide (n = 2)) as [->|Hne]; [by rewrite Z.mul_pow2_bits_low |].
  by rewrite (Z.pow2_bits_false 2 n), andb_true_r by lia.
Qed.

(** A page is closed to the user. *)
Lemma clearpteu_holds s pd x l n fl f k :
  space kend s pd x l -> holds s pd n fl f -> 0 <= k < n -> fl k = Z.lor PTE_W PTE_U ->
  runs (clearpteu pd (k * PGSIZE)) s (fun _ s' => wrote s s' pd x l /\
    holds s' pd n (fun j => if decide (j = k) then PTE_W else fl j) f).
Proof.
  intros Hs Hh Hk Hfk. pose proof Hh as [Hpg Hfl Hu Hr Hz].
  assert (Hkb : 0 <= k * PGSIZE < n * PGSIZE) by (unfold PGSIZE; lia).
  assert (Hdiv : k * PGSIZE / PGSIZE = k) by (by apply Z.div_mul).
  destruct (Hu _ Hkb) as (v & Hv & Hsh & Hl & _). rewrite Hdiv, Hfk in Hl.
  destruct (walk_entry s pd x l _ _ Hs Hl) as (t & Ht & Hw & Hne & He & Hp).
  assert (Hi : (pdx (k * PGSIZE) < 512)%nat) by (apply pdx_user; lia). set (b := k * PGSIZE) in *.
  unfold clearpteu. apply runs_bind. eexists _, _. split; [exact Hw |]. rewrite (proj2 (Z.eqb_neq _ 0) Hne).
  apply runs_bind, runs_get. fold (leaf (v_mem s) t (ptx b)). rewrite He, (clear_u v Hv). apply runs_modify.
  set (e' := pte_of (V2P v) PTE_W). set (s' := with_vmem _ s).
  assert (Hpw : 0 <= PTE_W < 4096) by done.
  assert (Hls : leaf_step (v_mem s) (v_mem s') pd (pdx b) (ptx b) t e').
  { eapply (leaf_step_store kend s pd x l); [exact Hs | apply pdx_lt | apply ptx_lt | exact Ht | | done | done].
    unfold e'. rewrite pte_of_eq. apply (entry_range kend Hkend v _ Hv). by apply perm_P. }
  assert (Hpe : presentb e' = true) by apply presentb_lor.
  assert (Ho : own s' pd ≡ₚ own s pd).
  { pose proof (ls_own s s' pd _ _ t e' Hls eq_refl) as Ho. rewrite He in Ho. unfold taken, upage in Ho.
    rewrite (proj2 (Nat.ltb_lt _ _) Hi), Hp, Hpe in Ho. unfold e' in Ho. rewrite !pte_frame, Hsh in Ho by done.
    cbn [andb negb app] in Ho. by apply Permutation_cons_inv in Ho. }
  destruct (space_tab_page _ _ _ _ _ _ _ Hs (pdx_lt b) Ht) as (Hpt & _ & Hnt).
  assert (Hsame : forall w, page kend w -> w <> t -> same_page (v_mem s) (v_mem s') w).
  { intros w Hw' Hn'. apply (store32_same_page kend); [done | done | congruence | apply ptx_lt]. }
  assert (Hto : t ∈ own s pd).
  { unfold own. rewrite app_comm_cons, elem_of_app. left. right. eapply tab_elem; [apply pdx_lt | exact Ht]. }
  assert (Hlk : forall c, 0 <= c < 4294967296 -> lookup_pte (v_mem s') pd c =
    if decide (c / PGSIZE = k) then Some e' else lookup_pte (v_mem s) pd c).
  { intros c Hc. rewrite (ls_lookup Hls), Hpe. pose proof (same_vpage c b Hc ltac:(unfold KERNBASE in *; lia)) as Hiff.
    rewrite Hdiv in Hiff. by repeat case_decide; try tauto. }
  split; [split |].
  - eapply space_step; [exact Hs | | done | by rewrite Ho | eapply (ls_pages Hls); [apply Hs | intros _ _; unfold e'; by rewrite pte_frame]].
    apply kmem_free_ext; [apply Hs |]. intros w Hw'. apply Hsame; [| intros ->; apply Hnt; rewrite elem_of_app; auto].
    apply (sp_pages _ _ _ _ _ Hs). rewrite !elem_of_app. auto.
  - exact Ho.
  - apply (ls_tabs Hls).
  - done.
  - intros w Hw' Hn'. apply Hsame; [done |]. by intros ->.
  - split; [done | intros j; case_decide; [done | apply Hfl] | | |].
    + intros c Hc. destruct (Hu c Hc) as (vc & Hvc & Hshc & Hlc & Hfc). exists vc. rewrite Hlk by (unfold KERNBASE in *; lia).
      split; [done |]. split; [done |]. split.
      * case_decide as Hd; [| done]. rewrite (lookup_same _ _ c b) in Hlc by (unfold KERNBASE in *; lia || congruence).
        rewrite Hl, Hd, Hfk in Hlc. injection Hlc as Hlc. apply (f_equal (fun e => P2V (PTE_ADDR e))) in Hlc.
        rewrite !pte_frame in Hlc by done. by subst vc.
      * rewrite <- Hfc. pose proof (Z.mod_pos_bound c PGSIZE ltac:(done)). apply (Hsame vc Hvc); [| lia]. intros ->.
        destruct (frame_own s pd x l c t _ Hs ltac:(unfold KERNBASE in *; lia) Hvc (Hfl _) Hshc Hlc) as [_ Hn']. apply Hn'.
        right. rewrite elem_of_app. left. eapply tab_elem; [apply pdx_lt | exact Ht].
    + intros c Hc. rewrite Hlk by (unfold PGSIZE in *; lia). rewrite decide_False; [by apply Hr |].
      intros Hd. pose proof (div_pages c n ltac:(unfold PGSIZE in *; lia)). lia.
    + done.
Qed.

(** ** Copying out *)

Definition user_page (fl : Z -> Z) (k : Z) : Prop := Z.land (fl k) PTE_U <> 0.

Lemma land_aligned k c : 0 <= c < 4096 -> Z.land (k * PGSIZE) c = 0.
Proof.
  intros Hc. unfold PGSIZE. change 4096 with (2 ^ 12) in *. apply Z.bits_inj'. intros n Hn. rewrite Z.land_spec, Z.bits_0.
  destruct (Z.lt_ge_cases n 12); [by rewrite Z.mul_pow2_bits_low |].
  rewrite <- (Z.mod_small c (2 ^ 12)) by done. by rewrite Z.mod_pow2_bits_high, andb_false_r by lia.
Qed.

Lemma pte_bits k perm c : 0 <= c < 4096 ->
  Z.land (pte_of (k * PGSIZE) perm) c = Z.lor (Z.land perm c) (Z.land PTE_P c).
Proof. intros Hc. unfold pte_of. by rewrite !Z.land_lor_distr_l, (land_aligned k c Hc). Qed.

Lemma pte_P_set k perm : (Z.land (pte_of (k * PGSIZE) perm) PTE_P =? 0) = false.
Proof.
  rewrite pte_bits by done. change (Z.land PTE_P PTE_P) with 1. apply Z.eqb_neq. intros [_ H]%Z.lor_eq_0_iff. done.
Qed.

Lemma pte_U_perm k perm : Z.land (pte_of (k * PGSIZE) perm) PTE_U = Z.land perm PTE_U.
Proof. rewrite pte_bits by done. change (Z.land PTE_P PTE_U) with 0. apply Z.lor_0_r. Qed.

(** The kernel's mappings are closed to the user; the device space is one. *)
Lemma kmap_view_closed ks b e :
  Forall (fun k => Z.land (snd k) PTE_U = 0) ks -> kmap_view ks b = Some e ->
  (Z.land e PTE_P =? 0) = false /\ Z.land e PTE_U = 0.
Proof.
  induction 1 as [|[[[virt ps] pe] perm] ks Hk _ IH]; cbn [kmap_view]; [done |].
  destruct (km_view (virt, ps, pe, perm) b) as [e'|] eqn:Hv; [| done]. intros [= <-]. unfold km_view in Hv.
  case_decide; [| done]. injection Hv as <-. split; [apply pte_P_set | by rewrite pte_U_perm].
Qed.

Lemma devspace_mapped b : DEVSPACE <= b < 4294967296 -> is_Some (kmap_view (kmap kdata) b).
Proof.
  intros Hb. unfold kmap. cbn [kmap_view]. repeat (case_match; [by eexists |]).
  assert (1040384 <= b / PGSIZE < 1040384 + 8192) as Hd.
  { unfold PGSIZE, DEVSPACE in *. split; [apply Z.div_le_lower_bound | apply Z.div_lt_upper_bound]; lia. }
  exfalso. match goal with H : km_view (DEVSPACE, _, _, _) b = None |- _ => unfold km_view in H;
    change (DEVSPACE / PGSIZE) with 1040384 in H; change (u32 (0 - DEVSPACE) / PGSIZE) with 8192 in H end.
  by case_decide.
Qed.

Lemma uva2ka_entry s pd x l b e :
  space kend s pd x l -> lookup_pte (v_mem s) pd b = Some e -> (Z.land e PTE_P =? 0) = false ->
  uva2ka pd b s = Ok (if Z.land e PTE_U =? 0 then 0 else P2V (PTE_ADDR e), s).
Proof.
  intros Hs Hl He. destruct (walk_entry s pd x l b e Hs Hl) as (t & Ht & Hw & Hne & Hlf & _).
  unfold uva2ka, bind. rewrite Hw. cbn [rbind fst snd]. rewrite (proj2 (Z.eqb_neq _ 0) Hne).
  unfold rd32, get. cbn [rbind fst snd]. fold (leaf (v_mem s) t (ptx b)). rewrite Hlf. cbn [fst snd]. rewrite He. by destruct (Z.land e PTE_U =? 0).
Qed.

Lemma write_bytes_split g va (k : nat) buf b : (k <= length buf)%nat ->
  write_bytes (write_bytes g va (take k buf)) (va + Z.of_nat k) (drop k buf) b = write_bytes g va buf b.
Proof.
  intros Hk. destruct (decide (va <= b < va + Z.of_nat (length buf))) as [Hin|Hout].
  - rewrite (write_bytes_in g va buf) by done. destruct (decide (va + Z.of_nat k <= b)).
    + rewrite write_bytes_in by (rewrite length_drop; lia). rewrite lookup_drop. do 2 f_equal. lia.
    + rewrite write_bytes_out, write_bytes_in by (rewrite ?length_take; lia). rewrite lookup_take_lt by lia. done.
  - rewrite !write_bytes_out by (rewrite ?length_take, ?length_drop; lia). done.
Qed.

Lemma pgrounddown_mul va : PGROUNDDOWN va = va / PGSIZE * PGSIZE.
Proof.
  unfold PGROUNDDOWN. rewrite land_lnot_pages. pose proof (Z.div_mod va 4096 ltac:(lia)). unfold PGSIZE. lia.
Qed.

Lemma copyout_loop_spec pd x l n fl fuel : forall s va buf g,
  space kend s pd x l -> holds s pd n fl g -> 0 <= va -> va + Z.of_nat (length buf) <= n * PGSIZE -> (length buf < fuel)%nat ->
  runs (copyout_loop fuel pd va buf) s (fun r s' => wrote s s' pd x l /\ exists g', holds s' pd n fl g' /\
    ((r = 0 /\ (forall b, g' b = write_bytes g va buf b) /\ forall b, va <= b < va + Z.of_nat (length buf) -> user_page fl (b / PGSIZE)) \/
     (r = -1 /\ exists b, va <= b < va + Z.of_nat (length buf) /\ ~ user_page fl (b / PGSIZE)))).
Proof.
  induction fuel as [|fuel IH]; intros s va buf g Hs Hh Hva Hend Hf; [lia |]. cbn [copyout_loop].
  destruct buf as [|c0 buf0]; [apply runs_ret; split; [by apply wrote_refl |]; exists g; split; [done |]; left;
    split; [done |]; split; [intros b; by rewrite write_bytes_out by (cbn; lia) | cbn; lia] |].
  set (buf := c0 :: buf0) in *. pose proof Hh as [Hpg Hfl Hu Hr Hz].
  assert (Hlen : 0 < Z.of_nat (length buf)) by (cbn; lia).
  pose proof (vpage_range va Hva) as Hvr. pose proof (Z.div_mod va PGSIZE ltac:(done)) as Hdm.
  pose proof (Z.mod_pos_bound va PGSIZE ltac:(done)) as Hmod. rewrite pgrounddown_mul. set (va0 := va / PGSIZE * PGSIZE) in *.
  assert (Hva0 : 0 <= va0) by (unfold va0; pose proof (Z.div_pos va PGSIZE Hva ltac:(done)); unfold PGSIZE in *; nia).
  assert (Hk : va0 / PGSIZE = va / PGSIZE) by (by apply Z.div_mul).
  destruct (Hu va ltac:(lia)) as (v & Hv & Hsh & Hl & _).
  assert (Hl0 : lookup_pte (v_mem s) pd va0 = Some (pte_of (V2P v) (fl (va / PGSIZE)))).
  { rewrite <- Hl. apply lookup_same; [unfold KERNBASE in *; lia | unfold KERNBASE in *; lia | done]. }
  destruct (page_V2P_aligned kend Hkend v Hv) as [[kv Hkv]%aligned_eq_mul _].
  apply runs_bind. eexists _, _. split; [eapply (uva2ka_entry s pd x l); [exact Hs | exact Hl0 | rewrite Hkv; apply pte_P_set] |].
  assert (Z.land (pte_of (V2P v) (fl (va / PGSIZE))) PTE_U = Z.land (fl (va / PGSIZE)) PTE_U) as -> by (rewrite Hkv; apply pte_U_perm).
  rewrite (pte_frame v _ Hv (Hfl _)). destruct (Z.eqb_spec (Z.land (fl (va / PGSIZE)) PTE_U) 0) as [Hno|Hyes].
  { cbn [Z.eqb]. apply runs_ret. split; [by apply wrote_refl |]. exists g. split; [done |]. right. split; [done |].
    exists va. split; [lia |]. by intros Hup. }
  rewrite (proj2 (Z.eqb_neq v 0)) by (by apply (page_ne0 kend)).
  set (m := Z.to_nat _). assert (Hm : Z.of_nat m = Z.min (Z.of_nat (length buf)) (PGSIZE - va mod PGSIZE)).
  { unfold m. destruct (Z.ltb_spec (Z.of_nat (length buf)) (PGSIZE - (va - va0))); unfold va0 in *; unfold PGSIZE in *; lia. }
  assert (Hmb : (m <= length buf)%nat) by lia. assert (0 < m)%nat as Hm0 by lia.
  replace (va - va0) with (va mod PGSIZE) by (unfold va0; lia).
  destruct (holds_write s pd x l n fl g va v (take m buf) Hs Hh ltac:(lia) Hv Hsh Hl) as [Hw Hh'].
  { rewrite length_take. lia. }
  apply runs_bind, runs_modify. set (s1 := with_vmem _ s) in *.
  destruct (decide (Z.of_nat (length buf) <= PGSIZE - va mod PGSIZE)) as [Hfit|Hlong].
  - rewrite (drop_ge buf m) by lia.
    assert (runs (copyout_loop fuel pd (u32 (va0 + PGSIZE)) []) s1 (fun r s' => r = 0 /\ s' = s1)) as Hlast
      by (destruct fuel; by apply runs_ret).
    eapply runs_mono; [exact Hlast |]. intros r s' [-> ->]. split; [done |].
    eexists. split; [exact Hh' |]. left. split; [done |]. split; [by rewrite take_ge by lia |].
    intros b Hb. assert (b / PGSIZE = va / PGSIZE) as ->; [| done].
    symmetry. apply (Z.div_unique b PGSIZE (va / PGSIZE) (b - PGSIZE * (va / PGSIZE))); lia.
  - assert (Hmeq : Z.of_nat m = PGSIZE - va mod PGSIZE) by lia.
    assert (Hnext : va0 + PGSIZE = va + Z.of_nat m) by (unfold va0; lia).
    rewrite u32_small by (unfold KERNBASE, PGSIZE in *; lia). rewrite Hnext.
    eapply runs_mono; [apply (IH s1 (va + Z.of_nat m) (drop m buf) _ (wr_space _ _ _ _ _ Hw) Hh'); rewrite ?length_drop; lia |].
    rewrite length_drop. intros r s' (Hw' & g' & Hg' & Hout). split; [by eapply mem_wrote_trans |]. exists g'. split; [done |].
    destruct Hout as [(-> & Heq & Hup) | (-> & b & Hb & Hup)]; [left | right]; (split; [done |]).
    + split; [intros b; by rewrite Heq, write_bytes_split |]. intros b Hb.
      destruct (decide (va + Z.of_nat m <= b)); [apply Hup; lia |].
      assert (b / PGSIZE = va / PGSIZE) as ->; [| done].
      symmetry. apply (Z.div_unique b PGSIZE (va / PGSIZE) (b - PGSIZE * (va / PGSIZE))); lia.
    + exists b. split; [lia | done].
Qed.

Lemma copyout_spec pd x l n fl s va buf g :
  space kend s pd x l -> holds s pd n fl g -> 0 <= va -> va + Z.of_nat (length buf) <= n * PGSIZE ->
  runs (copyout pd va buf) s (fun r s' => wrote s s' pd x l /\ exists g', holds s' pd n fl g' /\
    ((r = 0 /\ (forall b, g' b = write_bytes g va buf b) /\ forall b, va <= b < va + Z.of_nat (length buf) -> user_page fl (b / PGSIZE)) \/
     (r = -1 /\ exists b, va <= b < va + Z.of_nat (length buf) /\ ~ user_page fl (b / PGSIZE)))).
Proof. intros Hs Hh Hva Hend. apply copyout_loop_spec; [done | done | done | done | lia]. Qed.

(** An address that has wrapped around into the device space. *)
Lemma copyout_wrapped pd x l n fl s va c buf g :
  space kend s pd x l -> holds s pd n fl g -> DEVSPACE <= va < 4294967296 ->
  runs (copyout pd va (c :: buf)) s (fun r s' => r = -1 /\ s' = s).
Proof.
  intros Hs [Hpg _ _ Hr _] Hva. unfold copyout. cbn [copyout_loop length]. rewrite pgrounddown_mul.
  pose proof (vpage_range va ltac:(unfold DEVSPACE in *; lia)) as Hvr. set (va0 := va / PGSIZE * PGSIZE) in *.
  assert (Hva0 : DEVSPACE <= va0 < 4294967296).
  { split; [| lia]. assert (1040384 <= va / PGSIZE) by (apply Z.div_le_lower_bound; unfold DEVSPACE, PGSIZE in *; lia).
    unfold va0, DEVSPACE, PGSIZE in *. lia. }
  destruct (devspace_mapped va0 Hva0) as [e He]. pose proof He as Hl.
  rewrite <- Hr in Hl by (unfold KERNBASE, DEVSPACE in *; lia).
  destruct (kmap_view_closed (kmap kdata) va0 e) as [HP HU]; [by repeat constructor | done |].
  apply runs_bind. eexists _, _. split; [by eapply uva2ka_entry |]. rewrite HU. cbn [Z.eqb]. by apply runs_ret.
Qed.
End user.
