(* ===== verification/Shm.v ===== *)
(** * Shared memory and the size of a process (vm.c, proc.c, sysproc.c)

    Named shared pages: the table [shm_infos] of the system, the attachments
    of a process, and [growproc]. The state is the memory with the table and
    the current process. *)

From S2P Require Import Prelude Mem CString Params Kalloc ProcDef Vm VmProof.

Record ust := mkUst { us_vm : vst; us_cur : proc }.

Definition upd_us (f : proc -> proc) : ST ust unit := modify (fun s => mkUst (us_vm s) (f (us_cur s))).
Definition vmop {A} (c : ST vst A) : ST ust A := fun s =>
  let! r := c (us_vm s) in Ok (r.1, mkUst r.2 (us_cur s)).

(** ** Names in fixed buffers *)

(** [strlen] of a buffer; past its end without a NUL nothing is known. *)
Definition bstrlen (b : list Z) : res nat :=
  match find_from (fun c => c =? 0) b 0 with Some i => Ok i | None => Undef end.

(** [strlen(name) == strlen(b) && strncmp(name, b, strlen(name)) == 0] *)
Definition name_is (name : cstring) (b : list Z) : res bool :=
  let! n := bstrlen b in
  Ok ((length name =? n)%nat && bool_decide (take n b = name)).

(** [strncpy(b, name, strlen(name))]: no NUL is added. *)
Definition name_copy (name : cstring) (b : list Z) : res (list Z) :=
  if (length name <=? length b)%nat then Ok (name ++ drop (length name) b) else Undef.

(** The first buffer that [f] accepts. *)
Fixpoint search (f : list Z -> res bool) (bs : list (list Z)) (i : nat) : res (option nat) :=
  match bs with
  | [] => Ok None
  | b :: bs' => let! t := f b in if t then Ok (Some i) else search f bs' (S i)
  end.

Definition name_empty (b : list Z) : res bool := let! n := bstrlen b in Ok (n =? 0)%nat.

Definition set_shm (i : nat) (f : shm_info -> shm_info) : ST vst unit :=
  modify (fun s => with_vshm (alter f i (v_shm s)) s).

(** ** The system's table *)

Section shm.
Variable kend : Z.

(** [None] is a null name. *)
Definition shm_allocuvm (pgdir oldsz newsz : Z) (sh_name : option cstring) : ST vst Z :=
  match sh_name with
  | None | Some [] => ret (-1)
  | Some name =>
      if KERNBASE <=? newsz then ret 0
      else if newsz <? oldsz then ret oldsz
      else
        let a := PGROUNDUP oldsz in
        let* infos := get v_shm in
        let* known := lift (search (name_is name) (Vm.sh_name <$> infos) 0) in
        match known with
        | Some i =>
            set_shm i (fun e => mkShm (sh_page e) (Vm.sh_name e) (i32 (sh_ref e + 1))) ;;;
            match infos !! i with
            | Some e =>
                let* r := mappages pgdir a PGSIZE (V2P (sh_page e)) (Z.lor PTE_W PTE_U) in
                if r <? 0 then ret (-1) else ret (Z.of_nat i)
            | None => undef
            end
        | None =>
            let* m := kalloc_st in
            if m =? 0 then deallocuvm kend pgdir newsz oldsz ;;; ret (-1)
            else
              memset_st m 0 PGSIZE ;;;
              let* r := mappages pgdir a PGSIZE (V2P m) (Z.lor PTE_W PTE_U) in
              if r <? 0 then deallocuvm kend pgdir newsz oldsz ;;; kfree_st kend m ;;; ret (-1)
              else
                let* free := lift (search name_empty (Vm.sh_name <$> infos) 0) in
                match free with
                | None => ret (-1)
                | Some i =>
                    match infos !! i with
                    | Some e =>
                        let* b := lift (name_copy name (Vm.sh_name e)) in
                        set_shm i (fun _ => mkShm m b (i32 (sh_ref e + 1))) ;;;
                        ret (Z.of_nat i)
                    | None => undef
                    end
                end
        end
  end.

(** ** Attaching and detaching *)

Definition shm_get (name : option cstring) : ST ust Z :=
  match name with
  | None => ret 0
  | Some nm =>
      let* cur := get us_cur in
      let* att := lift (search (name_is nm) (sp_name <$> p_shms cur) 0) in
      match att with
      | Some j => match p_shms cur !! j with Some e => ret (sp_addr e) | None => undef end
      | None =>
          let sz := p_sz cur in
          let newsize := u32 (sz + PGSIZE) in
          let* r := vmop (shm_allocuvm (p_pgdir cur) sz newsize name) in
          if r =? -1 then ret 0
          else
            let* e := lift (arr_get (p_shms cur) r) in
            let* b := lift (name_copy nm (sp_name e)) in
            let* shms := lift (arr_set (p_shms cur) r (mkShmProc b sz)) in
            upd_us (fun p => set_sz newsize (set_shms shms p)) ;;;
            let* cur := get us_cur in
            vmop (switchuvm cur) ;;;
            ret sz
      end
  end.

Definition shm_rem (name : option cstring) : ST ust Z :=
  match name with
  | None => ret (-1)
  | Some nm =>
      let* cur := get us_cur in
      let* att := lift (search (name_is nm) (sp_name <$> p_shms cur) 0) in
      match att with
      | None => ret (-1)
      | Some i =>
          let* e := lift (arr_get (p_shms cur) (Z.of_nat i)) in
          upd_us (fun p => set_shms (<[i := mkShmProc (replicate 150 0) (sp_addr e)]> (p_shms p)) p) ;;;
          vmop (set_shm i (fun g => mkShm (sh_page g) (Vm.sh_name g) (i32 (sh_ref g - 1)))) ;;;
          upd_us (fun p => set_sz (u32 (p_sz p - PGSIZE)) p) ;;;
          let* infos := get (fun s => v_shm (us_vm s)) in
          let* g := lift (arr_get infos (Z.of_nat i)) in
          (if sh_ref g =? 0 then
             let* pte := vmop (walkpgdir (p_pgdir cur) (sp_addr e) false) in
             if pte =? 0 then undef
             else
               let* w := vmop (rd32 pte) in
               (if presentb w then
                  let pa := PTE_ADDR w in
                  if pa =? 0 then panic "kfree"
                  else vmop (kfree_st kend (P2V pa) ;;; wr32 pte 0)
                else ret tt) ;;;
               vmop (set_shm i (fun g => mkShm 0 (replicate 150 0) (sh_ref g)))
           else ret tt) ;;;
          upd_us (fun p => set_shms (alter (fun q => mkShmProc (sp_name q) 0) i (p_shms p)) p) ;;;
          let* cur := get us_cur in
          vmop (switchuvm cur) ;;;
          ret 0
      end
  end.

Definition growproc (n : Z) : ST ust Z :=
  let* cur := get us_cur in
  let sz := p_sz cur in
  let* sz' := if 0 <? n then vmop (allocuvm kend (p_pgdir cur) sz (u32 (sz + n)))
              else if n <? 0 then vmop (deallocuvm kend (p_pgdir cur) sz (u32 (sz + n)))
              else ret sz in
  if negb (n =? 0) && (sz' =? 0) then ret (-1)
  else
    upd_us (set_sz sz') ;;;
    let* cur := get us_cur in
    vmop (switchuvm cur) ;;;
    ret 0.

(** [argstr] gives the name, or fails. *)
Definition sys_shm_get (name : option cstring) : ST ust Z :=
  match name with
  | None => ret 0
  | Some _ =>
      let* addr := get (fun s => p_sz (us_cur s)) in
      let* r := shm_get name in
      if r =? 0 then ret 0 else ret addr
  end.

Definition sys_shm_rem (name : option cstring) : ST ust Z :=
  match name with
  | None => ret (-1)
  | Some _ => shm_rem name
  end.

Definition sys_sbrk (n : option Z) : ST ust Z :=
  match n with
  | None => ret (-1)
  | Some n =>
      let* addr := get (fun s => p_sz (us_cur s)) in
      let* r := growproc n in
      if r <? 0 then ret (-1) else ret addr
  end.

(** ** fork and exit *)

(** The loop of [fork2] over the attachments, last slot first. *)
Fixpoint fork_shms (l : list nat) (cur np : proc) (addr : Z) : ST vst proc :=
  match l with
  | [] => ret np
  | j :: l' =>
      let* e := lift (arr_get (p_shms cur) (Z.of_nat j)) in
      let* n := lift (bstrlen (sp_name e)) in
      if (n =? 0)%nat then fork_shms l' cur np addr
      else
        set_shm j (fun g => mkShm (sh_page g) (Vm.sh_name g) (i32 (sh_ref g + 1))) ;;;
        let* q := lift (arr_get (p_shms np) (Z.of_nat j)) in
        let addr := u32 (addr - PGSIZE) in
        let b := take (S n) (sp_name e) ++ drop (S n) (sp_name q) in
        fork_shms l' cur (set_shms (<[j := mkShmProc b addr]> (p_shms np)) np) addr
  end.

Fixpoint exit_shms (l : list nat) : ST ust unit :=
  match l with
  | [] => ret tt
  | j :: l' =>
      let* cur := get us_cur in
      let* e := lift (arr_get (p_shms cur) (Z.of_nat j)) in
      let* n := lift (bstrlen (sp_name e)) in
      (if (n =? 0)%nat then ret 0 else shm_rem (Some (take n (sp_name e)))) ;;;
      exit_shms l'
  end.
End shm.

(** ** Names *)

(** A buffer with a terminating NUL. *)
Definition buf_ok (b : list Z) : Prop := exists s r, b = s ++ 0 :: r /\ Forall (fun c => c <> 0) s.

Lemma bstrlen_app s r : Forall (fun c => c <> 0) s -> bstrlen (s ++ 0 :: r) = Ok (length s).
Proof.
  intros Hs. unfold bstrlen. assert (H : forall k, find_from (fun c => c =? 0) (s ++ 0 :: r) k = Some (k + length s)%nat).
  { induction Hs as [|c s Hc _ IH]; intros k; simpl; [by rewrite Nat.add_0_r |].
    destruct (Z.eqb_spec c 0); [done |]. rewrite IH. f_equal. lia. }
  by rewrite H.
Qed.

(** The string a good buffer holds. *)
Definition bstr (b : list Z) : cstring := match bstrlen b with Ok n => take n b | _ => [] end.

Lemma bstr_app s r : Forall (fun c => c <> 0) s -> bstr (s ++ 0 :: r) = s.
Proof. intros Hs. unfold bstr. rewrite bstrlen_app by done. by rewrite take_app_length. Qed.

Lemma name_is_spec name b : buf_ok b -> name_is name b = Ok (bool_decide (bstr b = name)).
Proof.
  intros (s & r & -> & Hs). unfold name_is. rewrite bstrlen_app, bstr_app by done. cbn [rbind].
  rewrite take_app_length. f_equal. case_bool_decide as H; [subst; by rewrite Nat.eqb_refl |].
  by rewrite andb_false_r.
Qed.

Lemma name_empty_spec b : buf_ok b -> name_empty b = Ok (bool_decide (bstr b = [])).
Proof.
  intros (s & r & -> & Hs). unfold name_empty. rewrite bstrlen_app, bstr_app by done. cbn [rbind]. f_equal.
  by destruct s.
Qed.

Lemma search_spec f g bs : forall k,
  (forall b, b ∈ bs -> f b = Ok (g b)) -> search f bs k = Ok (find_from g bs k).
Proof.
  induction bs as [|b bs IH]; intros k H; [done |]. cbn [search find_from].
  rewrite H by (by left). cbn [rbind]. destruct (g b); [done |]. apply IH. intros c Hc. apply H. by right.
Qed.

Lemma name_copy_ok name n :
  (length name < n)%nat -> Forall (fun c => c <> 0) name ->
  exists b, name_copy name (replicate n 0) = Ok b /\ bstr b = name /\ buf_ok b.
Proof.
  intros Hl Hn. unfold name_copy. rewrite length_replicate.
  rewrite (proj2 (Nat.leb_le _ _)) by lia. rewrite drop_replicate. eexists. split; [done |].
  destruct (n - length name)%nat as [|k] eqn:Hk; [lia |]. cbn [replicate].
  split; [by apply bstr_app |]. by exists name, (replicate k 0).
Qed.

(** ** Sharing a page *)

Lemma filter_concat {A} (P : A -> Prop) `{!forall x, Decision (P x)} (L : list (list A)) :
  filter P (concat L) = concat (filter P <$> L).
Proof. induction L as [|l L IH]; [done |]. cbn [concat fmap list_fmap]. by rewrite filter_app, IH. Qed.

(** The private pages when [v] has become shared. *)
Lemma upages_share (P : Z -> Prop) sh sh' v m pd :
  (forall w, P w -> shmp sh' w = shmp sh w || (v =? w)) ->
  (forall i j t, (i < 512)%nat -> (j < 1024)%nat -> tab m pd i = Some t ->
    presentb (leaf m t j) = true -> P (P2V (PTE_ADDR (leaf m t j)))) ->
  upages sh' m pd = filter (fun w => w <> v) (upages sh m pd).
Proof.
  intros Hsh HP.
  assert (Hu : forall e, (presentb e = true -> P (P2V (PTE_ADDR e))) -> upage sh' e = filter (fun w => w <> v) (upage sh e)).
  { intros e He. unfold upage. destruct (presentb e); [| done]. rewrite Hsh by auto.
    destruct (shmp sh (P2V (PTE_ADDR e))); [done |]. cbn [orb negb andb]. rewrite filter_cons.
    destruct (Z.eqb_spec v (P2V (PTE_ADDR e))).
    - rewrite decide_False by congruence. done.
    - by rewrite decide_True by congruence. }
  unfold upages. rewrite filter_concat, <- list_fmap_compose. f_equal. apply list_fmap_ext. intros k i [-> Hi]%lookup_seq. unfold compose.
  destruct (tab m pd _) as [t|] eqn:Ht; [| done]. unfold tpages. rewrite filter_concat, <- list_fmap_compose. f_equal.
  apply list_fmap_ext. intros k' j [-> Hj]%lookup_seq. unfold compose. apply Hu. by apply (HP (0 + k)%nat).
Qed.

Lemma filter_ne_perm (v : Z) l : NoDup l -> v ∈ l -> v :: filter (fun w => w <> v) l ≡ₚ l.
Proof.
  intros Hnd Hv. apply list_elem_of_split in Hv as (l1 & l2 & ->). rewrite filter_ne_mid by done. apply Permutation_middle.
Qed.

Lemma space_share kend s pd x l v sh' :
  space kend s pd x l -> v ∈ upages (v_shm s) (v_mem s) pd ->
  (forall w, page kend w -> shmp sh' w = shmp (v_shm s) w || (v =? w)) ->
  space kend (with_vshm sh' s) pd x l /\ v :: own (with_vshm sh' s) pd ≡ₚ own s pd.
Proof.
  intros [H1 H2 H3 H4 H5] Hv Hsh.
  assert (Hnu : NoDup (upages (v_shm s) (v_mem s) pd)).
  { apply NoDup_app in H2 as (H2 & _). unfold own in H2. apply NoDup_cons in H2 as [_ H2]. by apply NoDup_app in H2 as (_ & _ & H2). }
  assert (Ho : v :: own (with_vshm sh' s) pd ≡ₚ own s pd).
  { unfold own. cbn [v_shm with_vshm v_mem v_kmem]. change (v_mem (with_vshm sh' s)) with (v_mem s).
    rewrite (upages_share _ _ _ v _ _ Hsh H4). rewrite Permutation_swap. apply Permutation_cons; [done |].
    rewrite Permutation_middle. apply Permutation_app_head. by apply filter_ne_perm. }
  assert (H3' : forall w, w ∈ (v :: own (with_vshm sh' s) pd) ++ x ++ l -> page kend w) by (intros w; rewrite Ho; apply H3).
  rewrite <- Ho in H2. cbn [app] in H2. apply NoDup_cons in H2 as [Hn H2]. split; [| exact Ho].
  split; [exact H1 | exact H2 | | exact H4 |].
  - intros w Hw. apply H3'. by right.
  - intros w Hw Hin. change (v_mem (with_vshm sh' s)) with (v_mem s) in Hin. cbn [v_shm with_vshm] in Hw.
    rewrite Hsh in Hw.
    2: { apply H3. unfold own. cbn [app]. apply elem_of_cons in Hin as [->|Hin]; [left | right]. rewrite !elem_of_app in *. tauto. }
    apply orb_true_iff in Hw as [Hw|Hw%Z.eqb_eq]; [by apply (H5 w Hw) |]. subst w. apply Hn. unfold own.
    change (v_mem (with_vshm sh' s)) with (v_mem s). cbn [app].
    apply elem_of_cons in Hin as [->|Hin]; [left | right]. rewrite !elem_of_app in *. tauto.
Qed.

Lemma upages_shmp (P : Z -> Prop) sh sh' m pd :
  (forall w, P w -> shmp sh' w = shmp sh w) ->
  (forall i j t, (i < 512)%nat -> (j < 1024)%nat -> tab m pd i = Some t ->
    presentb (leaf m t j) = true -> P (P2V (PTE_ADDR (leaf m t j)))) ->
  upages sh' m pd = upages sh m pd.
Proof.
  intros H HP. apply concat_seq_ext. intros i Hi. destruct (tab m pd i) as [t|] eqn:Ht; [| done].
  apply concat_seq_ext. intros j Hj. unfold upage. destruct (presentb (leaf m t j)) eqn:Hp; [| done].
  by rewrite H by eauto.
Qed.

Lemma space_shm_eq kend s pd x l sh' :
  space kend s pd x l -> (forall w, page kend w -> shmp sh' w = shmp (v_shm s) w) ->
  space kend (with_vshm sh' s) pd x l /\ own (with_vshm sh' s) pd = own s pd.
Proof.
  intros [H1 H2 H3 H4 H5] Hsh. assert (Ho : own (with_vshm sh' s) pd = own s pd).
  { unfold own. cbn [v_shm with_vshm]. change (v_mem (with_vshm sh' s)) with (v_mem s). by rewrite (upages_shmp _ _ _ _ _ Hsh H4). }
  split; [| exact Ho]. split; rewrite ?Ho; [exact H1 | exact H2 | exact H3 | exact H4 |].
  intros w Hw Hin. apply (H5 w); [| exact Hin]. rewrite <- Hsh; [exact Hw |]. apply H3. unfold own. cbn [app].
  apply elem_of_cons in Hin as [->|Hin]; [left | right].
  change (v_mem (with_vshm sh' s)) with (v_mem s) in Hin. rewrite !elem_of_app in *. tauto.
Qed.

(** Entries of the table: a free one is cleared, one in use has its page. *)
Record shm_ok (kend : Z) (sh : list shm_info) : Prop := {
  so_len : length sh = SHM_MAXNUM;
  so_buf : forall i e, sh !! i = Some e -> buf_ok (Vm.sh_name e);
  so_free : forall i e, sh !! i = Some e -> bstr (Vm.sh_name e) = [] -> e = mkShm 0 (replicate 150 0) 0;
  so_used : forall i e, sh !! i = Some e -> bstr (Vm.sh_name e) <> [] -> page kend (sh_page e)
}.

Definition find_name (name : cstring) (bs : list (list Z)) : option nat :=
  find_from (fun b => bool_decide (bstr b = name)) bs 0.

Lemma search_name name bs : Forall buf_ok bs -> search (name_is name) bs 0 = Ok (find_name name bs).
Proof. intros H. apply search_spec. intros b Hb. apply name_is_spec. by eapply Forall_forall in H. Qed.

Lemma search_empty bs : Forall buf_ok bs -> search name_empty bs 0 = Ok (find_name [] bs).
Proof.
  intros H. apply search_spec. intros b Hb. rewrite name_empty_spec by (by eapply Forall_forall in H).
  f_equal. by apply bool_decide_ext.
Qed.

Lemma shm_ok_bufs kend sh : shm_ok kend sh -> Forall buf_ok (Vm.sh_name <$> sh).
Proof.
  intros H. apply Forall_fmap, Forall_lookup. intros i e Hi. by apply (so_buf _ _ H i).
Qed.

Lemma find_name_fmap {A} (f : A -> list Z) name l i :
  find_name name (f <$> l) = Some i -> exists e, l !! i = Some e /\ bstr (f e) = name.
Proof.
  intros (j & b & -> & Hb & Hf & _)%find_from_Some. rewrite list_lookup_fmap in Hb. cbn [Nat.add].
  destruct (l !! j) as [e|]; [| done]. injection Hb as <-. exists e. split; [done |]. by apply bool_decide_eq_true in Hf.
Qed.

Lemma shmp_lookup sh v : shmp sh v = true <-> exists i e, sh !! i = Some e /\ sh_page e = v.
Proof.
  unfold shmp. rewrite existsb_exists. split.
  - intros (e & He & Hv%Z.eqb_eq). apply list_elem_of_In, list_elem_of_lookup in He as [i Hi]. eauto.
  - intros (i & e & Hi & <-). exists e. split; [| apply Z.eqb_refl]. apply list_elem_of_In. by eapply list_elem_of_lookup_2.
Qed.

Lemma shmp_alter_page sh i f :
  (forall e, sh_page (f e) = sh_page e) -> forall w, shmp (alter f i sh) w = shmp sh w.
Proof.
  intros Hf w. apply eq_true_iff_eq. rewrite !shmp_lookup. split.
  - intros (j & e & Hj & He). destruct (decide (i = j)) as [<-|Hne].
    + rewrite list_lookup_alter_eq in Hj. destruct (sh !! i) as [e0|] eqn:Hi; [| done]. injection Hj as <-.
      exists i, e0. by rewrite <- Hf.
    + rewrite list_lookup_alter_ne in Hj by done. eauto.
  - intros (j & e & Hj & He). destruct (decide (i = j)) as [<-|Hne].
    + exists i, (f e). rewrite list_lookup_alter_eq, Hj, Hf. done.
    + exists j, e. by rewrite list_lookup_alter_ne.
Qed.

Section specs.
Variable kend : Z.
Hypothesis Hkend : KERNBASE < kend.

Lemma perm_WU : 0 <= Z.lor PTE_W PTE_U < 4096.
Proof. by vm_compute. Qed.

Lemma pgroundup_aligned sz : sz mod PGSIZE = 0 -> 0 <= sz <= KERNBASE -> PGROUNDUP sz = sz.
Proof.
  intros [k ->]%aligned_eq_mul Hr. rewrite pgroundup_npages by done. pose proof (npages_bounds (k * PGSIZE)).
  unfold PGSIZE in *. lia.
Qed.

(** The name is known to the system: its page is mapped once more. *)
Lemma shm_allocuvm_known pd sz name s x l i e :
  space kend s pd x l -> shm_ok kend (v_shm s) -> name <> [] ->
  find_name name (Vm.sh_name <$> v_shm s) = Some i -> v_shm s !! i = Some e ->
  sz mod PGSIZE = 0 -> 0 <= sz -> sz + PGSIZE < KERNBASE -> lookup_pte (v_mem s) pd sz = None ->
  runs (shm_allocuvm kend pd sz (sz + PGSIZE) (Some name)) s (fun r s' => r = -1 \/
    (r = Z.of_nat i /\
     v_shm s' = alter (fun e => mkShm (sh_page e) (Vm.sh_name e) (i32 (sh_ref e + 1))) i (v_shm s) /\
     exists l', space kend s' pd x l' /\ own s' pd ++ l' ≡ₚ own s pd ++ l /\
     same_page (v_mem s) (v_mem s') (sh_page e) /\
     forall b, 0 <= b < 4294967296 -> lookup_pte (v_mem s') pd b =
       if decide (b / PGSIZE = sz / PGSIZE) then Some (pte_of (V2P (sh_page e)) (Z.lor PTE_W PTE_U)) else lookup_pte (v_mem s) pd b)).
Proof.
  intros Hs Hok Hne Hfind Hi Hal Hsz Hk Hl. destruct name as [|c name]; [done |]. unfold shm_allocuvm.
  destruct (Z.leb_spec KERNBASE (sz + PGSIZE)); [lia |].
  destruct (Z.ltb_spec (sz + PGSIZE) sz); [unfold PGSIZE in *; lia |].
  rewrite pgroundup_aligned by (done || unfold PGSIZE in *; lia). apply runs_bind, runs_get.
  rewrite search_name by (by eapply shm_ok_bufs). rewrite Hfind. apply runs_bind. eapply runs_lift; [done |].
  apply runs_bind, runs_modify. rewrite Hi.
  destruct (find_name_fmap _ _ _ _ Hfind) as (e' & He' & Hnm). rewrite Hi in He'. injection He' as <-.
  assert (Hp : page kend (sh_page e)) by (eapply (so_used _ _ Hok); [exact Hi | by rewrite Hnm]).
  set (f := fun e => mkShm (sh_page e) (Vm.sh_name e) (i32 (sh_ref e + 1))).
  destruct (space_shm_eq kend s pd x l (alter f i (v_shm s)) Hs) as [Hs1 Ho1]; [intros; by apply shmp_alter_page |].
  assert (Hv : shmp (v_shm s) (sh_page e) = true) by (apply shmp_lookup; eauto).
  apply runs_bind. eapply runs_mono.
  { apply (mappages_shm kend Hkend pd sz (sh_page e) _ _ x l Hs1 Hp); [| done | unfold KERNBASE, PGSIZE in *; lia | apply perm_WU | exact Hl].
    cbn [v_shm with_vshm]. by rewrite shmp_alter_page. }
  intros r s2 [(-> & -> & _) | (-> & l2 & Hs2 & [Hsh2 _ Hfr2] & Hpm2 & Hlk2)]; cbn [Z.ltb Z.compare]; apply runs_ret; [by left | right].
  split; [done |]. split; [done |]. exists l2. split; [done |]. rewrite Ho1 in Hpm2. split; [done |]. split; [| done].
  apply Hfr2; [done |]. change (v_mem (with_vshm _ s)) with (v_mem s). intros Hin. apply (sp_shm _ _ _ _ _ Hs _ Hv).
  apply elem_of_cons in Hin as [->|Hin]; [left | right]. rewrite !elem_of_app in *. tauto.
Qed.

Lemma shmp_new sh i m b r e :
  sh !! i = Some e -> sh_page e = 0 -> m <> 0 -> forall w, w <> 0 ->
  shmp (alter (fun _ => mkShm m b r) i sh) w = shmp sh w || (m =? w).
Proof.
  intros Hi He Hm w Hw. apply eq_true_iff_eq. rewrite orb_true_iff, !shmp_lookup, Z.eqb_eq. split.
  - intros (j & g & Hj & Hg). destruct (decide (i = j)) as [<-|Hne].
    + rewrite list_lookup_alter_eq, Hi in Hj. injection Hj as <-. right. done.
    + rewrite list_lookup_alter_ne in Hj by done. left. eauto.
  - intros [(j & g & Hj & Hg) | <-].
    + exists j, g. rewrite list_lookup_alter_ne; [done |]. intros <-. congruence.
    + exists i, (mkShm m b r). by rewrite list_lookup_alter_eq, Hi.
Qed.

Lemma lookup_upage s pd va v perm :
  0 <= va < KERNBASE -> page kend v -> 0 <= perm < 4096 -> shmp (v_shm s) v = false ->
  lookup_pte (v_mem s) pd va = Some (pte_of (V2P v) perm) -> v ∈ upages (v_shm s) (v_mem s) pd.
Proof.
  intros Hva Hv Hp Hsh Hl. unfold lookup_pte in Hl. destruct (tab (v_mem s) pd (pdx va)) as [t|] eqn:Ht; [| done].
  destruct (presentb (leaf (v_mem s) t (ptx va))) eqn:Hpr; [| done]. injection Hl as Hl.
  eapply leaf_upage; [by apply pdx_user | apply ptx_lt | exact Ht |]. unfold upage. rewrite Hpr, Hl.
  rewrite pte_of_eq, (entry_page kend Hkend) by (done || by apply perm_P). rewrite Hsh. by left.
Qed.

(** The name is new and the table has room: a fresh cleared page is mapped
    and entered under the name. *)
Lemma shm_allocuvm_new pd sz name s x l i :
  space kend s pd x l -> shm_ok kend (v_shm s) -> name <> [] -> Forall (fun c => c <> 0) name -> (length name < 150)%nat ->
  find_name name (Vm.sh_name <$> v_shm s) = None -> find_name [] (Vm.sh_name <$> v_shm s) = Some i ->
  sz mod PGSIZE = 0 -> 0 <= sz -> sz + PGSIZE < KERNBASE -> lookup_pte (v_mem s) pd sz = None ->
  runs (shm_allocuvm kend pd sz (sz + PGSIZE) (Some name)) s (fun r s' => r = -1 \/
    (r = Z.of_nat i /\ exists v b l', v ∈ l /\ page kend v /\ bstr b = name /\ buf_ok b /\
     v_shm s' = alter (fun _ => mkShm v b 1) i (v_shm s) /\
     space kend s' pd x l' /\ v :: own s' pd ++ l' ≡ₚ own s pd ++ l /\ zero_page (v_mem s') v /\
     forall b, 0 <= b < 4294967296 -> lookup_pte (v_mem s') pd b =
       if decide (b / PGSIZE = sz / PGSIZE) then Some (pte_of (V2P v) (Z.lor PTE_W PTE_U)) else lookup_pte (v_mem s) pd b)).
Proof.
  intros Hs Hok Hne Hnz Hlen Hno Hfree Hal Hsz Hk Hl. destruct name as [|c name]; [done |]. unfold shm_allocuvm.
  destruct (Z.leb_spec KERNBASE (sz + PGSIZE)); [lia |].
  destruct (Z.ltb_spec (sz + PGSIZE) sz); [unfold PGSIZE in *; lia |].
  rewrite pgroundup_aligned by (done || unfold PGSIZE in *; lia). apply runs_bind, runs_get.
  rewrite search_name by (by eapply shm_ok_bufs). rewrite Hno. apply runs_bind. eapply runs_lift; [done |].
  apply runs_bind. destruct l as [|v l].
  { exists 0, s. split; [by apply (kalloc_st_spec kend s pd x []) |]. cbn [Z.eqb]. apply runs_bind.
    eapply runs_mono; [apply (deallocuvm_spec kend Hkend pd (sz + PGSIZE) sz s x [] Hs); unfold PGSIZE in *; lia |].
    intros _ s' _. apply runs_ret. by left. }
  destruct (space_fresh kend s pd x v l Hs) as ([s1 s2] & Hka & Heq & Hv & Hs2 & Ho2 & Hsh2 & Hz2 & Ht2 & Hsame & Hlk).
  cbn [fst snd] in *. exists v, s1. split; [done |].
  rewrite (proj2 (Z.eqb_neq v 0)) by (by apply (page_ne0 kend)). apply runs_bind, runs_modify. rewrite <- Heq.
  assert (Hva : 0 <= sz < KERNBASE) by (unfold PGSIZE in *; lia).
  apply runs_bind. eapply runs_mono.
  { apply (mappages_user kend Hkend pd sz v _ s2 x l Hs2 Hal Hva perm_WU). rewrite Hlk. exact Hl. }
  intros r s3 [(-> & -> & _) | (-> & l3 & Hs3 & [Hsh3 Htp3 Hfr3] & Hpm3 & Hlk3)]; cbn [Z.ltb Z.compare].
  { apply runs_bind. eapply runs_mono; [apply (deallocuvm_spec kend Hkend pd (sz + PGSIZE) sz s2 (v :: x) l Hs2); unfold PGSIZE in *; lia |].
    intros _ s4 (l4 & _ & Hs4 & _). apply runs_bind. eapply runs_mono; [by apply (space_kfree kend s4 pd v x l4) |].
    intros _ s5 _. apply runs_ret. by left. }
  rewrite search_empty by (by eapply shm_ok_bufs). rewrite Hfree. apply runs_bind. eapply runs_lift; [done |].
  destruct (find_name_fmap _ _ _ _ Hfree) as (e & Hi & He). rewrite Hi. pose proof (so_free _ _ Hok i e Hi He) as ->.
  destruct (name_copy_ok (c :: name) 150 Hlen Hnz) as (b & Hb & Hbs & Hbo). cbn [Vm.sh_name sh_ref]. apply runs_bind.
  eapply runs_lift; [exact Hb |]. apply runs_bind, runs_modify, runs_ret. right. split; [done |].
  change (i32 (0 + 1)) with 1. rewrite Hsh3, Hsh2.
  assert (Hns : shmp (v_shm s) v = false).
  { destruct (shmp (v_shm s) v) eqn:Hsh; [| done]. exfalso. apply (sp_shm _ _ _ _ _ Hs _ Hsh). right. rewrite !elem_of_app. right. right. left. }
  assert (Hv0 : v <> 0) by (by apply (page_ne0 kend)).
  destruct (space_share kend s3 pd x l3 v (alter (fun _ => mkShm v b 1) i (v_shm s)) Hs3) as [Hs4 Ho4].
  { eapply lookup_upage; [exact Hva | exact Hv | apply perm_WU | by rewrite Hsh3, Hsh2 |].
    rewrite Hlk3 by (unfold KERNBASE in *; lia). by rewrite decide_True. }
  { intros w Hw. rewrite Hsh3, Hsh2. eapply shmp_new; [exact Hi | done | done | by apply (page_ne0 kend)]. }
  exists v, b, l3. split; [left |]. split; [done |]. split; [done |]. split; [done |]. split; [done |]. split; [done |].
  split; [rewrite app_comm_cons, Ho4, Hpm3, Ho2; apply Permutation_middle |]. split.
  - change (v_mem (with_vshm _ s3)) with (v_mem s3). eapply zero_page_same; [| exact Hz2]. apply Hfr3; [done |].
    rewrite Ht2. intros Hin%tabs_own. pose proof (sp_nodup _ _ _ _ _ Hs) as Hnd.
    rewrite (Permutation_app_comm x), app_assoc, <- Permutation_middle in Hnd.
    apply NoDup_app in Hnd as (Hnd & _). by apply NoDup_cons in Hnd as [Hn _].
  - intros a Ha. change (v_mem (with_vshm _ s3)) with (v_mem s3). by rewrite Hlk3, Hlk by done.
Qed.
End specs.

Lemma runs_vmop {A} (c : ST vst A) s (Q : A -> ust -> Prop) :
  runs c (us_vm s) (fun a v => Q a (mkUst v (us_cur s))) -> runs (vmop c) s Q.
Proof.
  intros (a & v & Hc & HQ). exists a, (mkUst v (us_cur s)). unfold vmop. rewrite Hc. done.
Qed.

(** The attachments of a process: cleared slots, or the system's name. *)
Record att_ok (p : proc) (sh : list shm_info) : Prop := {
  ao_len : length (p_shms p) = SHM_MAXNUM;
  ao_buf : forall i q, p_shms p !! i = Some q -> buf_ok (sp_name q);
  ao_free : forall i q, p_shms p !! i = Some q -> bstr (sp_name q) = [] -> sp_name q = replicate 150 0;
  ao_sync : forall i q e, p_shms p !! i = Some q -> sh !! i = Some e ->
    bstr (sp_name q) = [] \/ bstr (sp_name q) = bstr (Vm.sh_name e)
}.

Lemma att_bufs p sh : att_ok p sh -> Forall buf_ok (sp_name <$> p_shms p).
Proof. intros H. apply Forall_fmap, Forall_lookup. intros i e Hi. by apply (ao_buf _ _ H i). Qed.

Lemma switchuvm_ok p s : p_kstack p <> 0 -> p_pgdir p <> 0 -> switchuvm p s = Ok (tt, s).
Proof.
  intros H1 H2. unfold switchuvm. by rewrite (proj2 (Z.eqb_neq (p_kstack p) 0)), (proj2 (Z.eqb_neq (p_pgdir p) 0)) by done.
Qed.

(** [shm_get] once the page is in place: the attachment is recorded. *)
Lemma shm_record name s p i q (Q : Z -> ust -> Prop) v :
  us_cur s = p -> p_shms p !! i = Some q -> sp_name q = replicate 150 0 -> (length name < 150)%nat ->
  Forall (fun c => c <> 0) name -> p_kstack p <> 0 -> p_pgdir p <> 0 ->
  (forall b, bstr b = name -> buf_ok b ->
    Q (p_sz p) (mkUst v (set_sz (p_sz p + PGSIZE) (set_shms (<[i := mkShmProc b (p_sz p)]> (p_shms p)) p)))) ->
  runs (let* e := lift (arr_get (p_shms p) (Z.of_nat i)) in
        let* b := lift (name_copy name (sp_name e)) in
        let* shms := lift (arr_set (p_shms p) (Z.of_nat i) (mkShmProc b (p_sz p))) in
        upd_us (fun p' => set_sz (p_sz p + PGSIZE) (set_shms shms p')) ;;;
        let* cur := get us_cur in vmop (switchuvm cur) ;;; ret (p_sz p)) (mkUst v p) Q.
Proof.
  intros Hc Hq Hz Hl Hn Hk Hp HQ. assert (Hlt : (i < length (p_shms p))%nat) by (by eapply lookup_lt_Some).
  assert (Hg : arr_get (p_shms p) (Z.of_nat i) = Ok q).
  { unfold arr_get. rewrite Nat2Z.id, Hq. by rewrite (proj2 (Z.ltb_ge (Z.of_nat i) 0)) by lia. }
  apply runs_bind. eapply runs_lift; [exact Hg |].
  destruct (name_copy_ok name 150 Hl Hn) as (b & Hb & Hbs & Hbo). rewrite <- Hz in Hb.
  apply runs_bind. eapply runs_lift; [exact Hb |]. apply runs_bind.
  eapply runs_lift; [apply arr_set_in; lia |]. rewrite Nat2Z.id.
  apply runs_bind, runs_modify. apply runs_bind, runs_get. apply runs_bind, runs_vmop.
  eexists tt, _. split; [by apply switchuvm_ok |]. apply runs_ret. by apply HQ.
Qed.

(** A successful attachment of [name] at the top of the process. *)
Record shm_attached (kend : Z) (name : cstring) (s s' : ust) (x : list Z) : Prop := {
  sa_slot : exists i q e', p_shms (us_cur s') !! i = Some q /\ bstr (sp_name q) = name /\ sp_addr q = p_sz (us_cur s) /\
    v_shm (us_vm s') !! i = Some e' /\ bstr (Vm.sh_name e') = name /\
    (forall b, 0 <= b < 4294967296 -> lookup_pte (v_mem (us_vm s')) (p_pgdir (us_cur s)) b =
       if decide (b / PGSIZE = p_sz (us_cur s) / PGSIZE) then Some (pte_of (V2P (sh_page e')) (Z.lor PTE_W PTE_U))
       else lookup_pte (v_mem (us_vm s)) (p_pgdir (us_cur s)) b) /\
    match find_name name (Vm.sh_name <$> v_shm (us_vm s)) with
    | Some k => exists e, k = i /\ v_shm (us_vm s) !! i = Some e /\ sh_page e' = sh_page e /\
        sh_ref e' = i32 (sh_ref e + 1) /\ same_page (v_mem (us_vm s)) (v_mem (us_vm s')) (sh_page e)
    | None => sh_ref e' = 1 /\ zero_page (v_mem (us_vm s')) (sh_page e')
    end;
  sa_sz : p_sz (us_cur s') = p_sz (us_cur s) + PGSIZE;
  sa_space : exists l', space kend (us_vm s') (p_pgdir (us_cur s)) x l'
}.

Lemma shm_get_spec kend name s x l :
  KERNBASE < kend -> let p := us_cur s in
  space kend (us_vm s) (p_pgdir p) x l -> shm_ok kend (v_shm (us_vm s)) -> att_ok p (v_shm (us_vm s)) ->
  name <> [] -> Forall (fun c => c <> 0) name -> (length name < 150)%nat ->
  find_name name (sp_name <$> p_shms p) = None ->
  (find_name name (Vm.sh_name <$> v_shm (us_vm s)) = None -> is_Some (find_name [] (Vm.sh_name <$> v_shm (us_vm s)))) ->
  p_sz p mod PGSIZE = 0 -> 0 <= p_sz p -> p_sz p + PGSIZE < KERNBASE ->
  lookup_pte (v_mem (us_vm s)) (p_pgdir p) (p_sz p) = None -> p_kstack p <> 0 ->
  runs (shm_get kend (Some name)) s (fun r s' =>
    (r = 0 /\ us_cur s' = us_cur s) \/ (r = p_sz p /\ shm_attached kend name s s' x)).
Proof.
  intros Hkend p Hs Hok Hatt Hne Hnz Hlen Hnot Hroom Hal Hsz Hk Hl Hks.
  assert (Hpd : p_pgdir p <> 0) by (eapply (page_ne0 kend), space_pd_page, Hs).
  unfold shm_get. apply runs_bind, runs_get. fold p. rewrite search_name by (by eapply att_bufs). rewrite Hnot.
  apply runs_bind. eapply runs_lift; [done |]. cbv zeta.
  rewrite u32_small by (unfold KERNBASE, PGSIZE in *; lia). apply runs_bind, runs_vmop.
  destruct (find_name name (Vm.sh_name <$> v_shm (us_vm s))) as [i|] eqn:Hf.
  - destruct (find_name_fmap _ _ _ _ Hf) as (e & He & Hen).
    eapply runs_mono; [by apply (shm_allocuvm_known kend Hkend (p_pgdir p) (p_sz p) name (us_vm s) x l i e) |].
    intros r v [-> | (-> & Hsh & l' & Hs' & _ & Hsm & Hlk)]; [by apply runs_ret; left |].
    rewrite (proj2 (Z.eqb_neq _ (-1))) by lia.
    destruct (lookup_lt_is_Some_2 (p_shms p) i) as [q Hq].
    { rewrite (ao_len _ _ Hatt), <- (so_len _ _ Hok). by eapply lookup_lt_Some. }
    assert (Hq0 : bstr (sp_name q) = []).
    { destruct (ao_sync _ _ Hatt i q e Hq He) as [H|H]; [done | exfalso].
      apply find_from_None in Hnot. rewrite Forall_fmap in Hnot. eapply Forall_lookup_1 in Hnot; [| exact Hq].
      cbn in Hnot. apply bool_decide_eq_false in Hnot. congruence. }
    eapply shm_record; [done | exact Hq | by apply (ao_free _ _ Hatt i q) | done | done | done | done |].
    intros b Hb Hbo. right. split; [done |]. cbn [us_cur us_vm]. split; cbn [us_cur us_vm p_sz set_sz p_shms set_shms]; [| done | eauto].
    exists i, (mkShmProc b (p_sz p)), (mkShm (sh_page e) (Vm.sh_name e) (i32 (sh_ref e + 1))).
    split; [apply list_lookup_insert_eq; by eapply lookup_lt_Some |]. split; [done |]. split; [done |].
    split; [by rewrite Hsh, list_lookup_alter_eq, He |]. split; [done |]. split; [done |]. rewrite Hf. by exists e.
  - destruct (Hroom eq_refl) as [i Hfree]. destruct (find_name_fmap _ _ _ _ Hfree) as (e & He & Hen).
    eapply runs_mono; [by apply (shm_allocuvm_new kend Hkend (p_pgdir p) (p_sz p) name (us_vm s) x l i) |].
    intros r v [-> | (-> & w & b0 & l' & _ & Hw & Hb0 & _ & Hsh & Hs' & _ & Hz & Hlk)]; [by apply runs_ret; left |].
    rewrite (proj2 (Z.eqb_neq _ (-1))) by lia.
    destruct (lookup_lt_is_Some_2 (p_shms p) i) as [q Hq].
    { rewrite (ao_len _ _ Hatt), <- (so_len _ _ Hok). by eapply lookup_lt_Some. }
    assert (Hq0 : bstr (sp_name q) = []) by (destruct (ao_sync _ _ Hatt i q e Hq He); congruence).
    eapply shm_record; [done | exact Hq | by apply (ao_free _ _ Hatt i q) | done | done | done | done |].
    intros b Hb Hbo. right. split; [done |]. split; cbn [us_cur us_vm p_sz set_sz p_shms set_shms]; [| done | eauto].
    exists i, (mkShmProc b (p_sz p)), (mkShm w b0 1).
    split; [apply list_lookup_insert_eq; by eapply lookup_lt_Some |]. split; [done |]. split; [done |].
    split; [by rewrite Hsh, list_lookup_alter_eq, He |]. split; [done |]. split; [done |]. by rewrite Hf.
Qed.

(** * Properties of shared memory *)


Definition no_shms : list shm_info := replicate SHM_MAXNUM (mkShm 0 (replicate 150 0) 0).

(** A process with an empty address space. *)
Definition fresh_proc (pd : Z) : proc := set_pgdir pd (set_kstack 0x80480000 (set_state RUNNING proc_zero)).

Lemma zero_buf n : buf_ok (replicate (S n) 0) /\ bstr (replicate (S n) 0) = [].
Proof. split; [exists [], (replicate n 0); split; [done | constructor] | apply (bstr_app [] (replicate n 0)); constructor]. Qed.

Lemma no_shms_lookup i e : no_shms !! i = Some e -> e = mkShm 0 (replicate 150 0) 0.
Proof. by intros [-> _]%lookup_replicate. Qed.

Lemma no_shms_ok kend : shm_ok kend no_shms.
Proof.
  destruct (zero_buf 149) as [Hb Hs]. split.
  - done.
  - intros i e ->%no_shms_lookup. done.
  - by intros i e ->%no_shms_lookup _.
  - intros i e ->%no_shms_lookup H. by cbn [Vm.sh_name] in H.
Qed.

Lemma fresh_att pd : att_ok (fresh_proc pd) no_shms.
Proof.
  destruct (zero_buf 149) as [Hb Hs].
  assert (Hq : forall i q, p_shms (fresh_proc pd) !! i = Some q -> q = mkShmProc (replicate 150 0) 0).
  { by intros i q [-> _]%lookup_replicate. }
  split; [done | | |].
  - by intros i q ->%Hq.
  - by intros i q ->%Hq _.
  - intros i q e ->%Hq _. by left.
Qed.


(** Two processes attach the same name. *)
Definition as_proc {A} (p : proc) (c : ST ust A) : ST vst proc := fun v =>
  let! r := c (mkUst v p) in Ok (us_cur r.2, us_vm r.2).

Definition free3 : mem :=
  fold_right (fun x m => store32 m x.1 x.2) (fun _ => 0)
    [(0x80500000, 0x80501000); (0x80501000, 0x80502000); (0x80502000, 0x80503000)].

Definition both_attached : ST vst (proc * proc) :=
  let* a := as_proc (fresh_proc 0x80400000) (shm_get 0x80200000 (Some [97])) in
  let* b := as_proc (fresh_proc 0x80401000) (shm_get 0x80200000 (Some [97])) in
  ret (a, b).

