(* ===== verification/Proc.v ===== *)
(** * Processes (proc.c)

    Creation, exit, waiting and scheduling of processes over all the
    components a process refers to: address space, priority queue, container
    table, mutexes, open files, shared memory. Each call runs to its end or to
    its next sleep in one step; a call that sleeps is a step per test of its
    condition. The inode layer enters through [idup] and the closing of the
    current directory. *)

From stdpp Require Import gmap.
From S2P Require Import Prelude Mem CString Params Kalloc ProcDef Prioqueue Pipe File Spinlock Container Sleep Mutex Vm Shm.

Record kst (IC : Type) := mkKst {
  k_vm : vst;
  k_procs : list proc;
  k_queue : list (option nat);
  k_mux : list mutex;
  k_mgr : manager;
  k_file : list file;
  k_pipe : gmap Z pipe;
  k_ic : IC;
  k_nextpid : Z;
  k_initproc : option nat
}.
Arguments mkKst {IC}.
Arguments k_vm {IC}.
Arguments k_procs {IC}.
Arguments k_queue {IC}.
Arguments k_mux {IC}.
Arguments k_mgr {IC}.
Arguments k_file {IC}.
Arguments k_pipe {IC}.
Arguments k_ic {IC}.
Arguments k_nextpid {IC}.
Arguments k_initproc {IC}.

Section proc.
Context {IC : Type} `{InodeClose IC}.
(** [kend], [data]: linker symbols; [trapret], [forkret]: code addresses;
    [initcode]: address and size of the first program; [idup] and
    [namei("/")] of the inode layer. *)
Context (kend kdata trapret forkret initcode initcode_size : Z).
Context (idup : nat -> ST IC unit) (namei_root : ST IC nat).

Abbreviation K := (ST (kst IC)).

Definition with_kprocs v (s : kst IC) :=
  mkKst (k_vm s) v (k_queue s) (k_mux s) (k_mgr s) (k_file s) (k_pipe s) (k_ic s) (k_nextpid s) (k_initproc s).

(** ** The components of the state *)

Definition on_vm {A} (c : ST vst A) : K A := fun s =>
  let! r := c (k_vm s) in
  Ok (r.1, mkKst r.2 (k_procs s) (k_queue s) (k_mux s) (k_mgr s) (k_file s) (k_pipe s) (k_ic s) (k_nextpid s) (k_initproc s)).

Definition on_pq (c : prioq -> res prioq) : K unit := fun s =>
  let! q := c (mkPrioq (k_procs s) (k_queue s)) in
  Ok (tt, mkKst (k_vm s) (pq_procs q) (pq_queue q) (k_mux s) (k_mgr s) (k_file s) (k_pipe s) (k_ic s) (k_nextpid s) (k_initproc s)).

Definition on_mux {A} (c : ST mstate A) : K A := fun s =>
  let! r := c (mkMstate (k_mux s) (k_procs s)) in
  Ok (r.1, mkKst (k_vm s) (ms_procs r.2) (k_queue s) (ms_mux r.2) (k_mgr s) (k_file s) (k_pipe s) (k_ic s) (k_nextpid s) (k_initproc s)).

Definition on_mgr {A} (c : manager -> res (A * manager)) : K A := fun s =>
  let! r := c (k_mgr s) in
  Ok (r.1, mkKst (k_vm s) (k_procs s) (k_queue s) (k_mux s) r.2 (k_file s) (k_pipe s) (k_ic s) (k_nextpid s) (k_initproc s)).

Definition on_ic {A} (c : ST IC A) : K A := fun s =>
  let! r := c (k_ic s) in
  Ok (r.1, mkKst (k_vm s) (k_procs s) (k_queue s) (k_mux s) (k_mgr s) (k_file s) (k_pipe s) r.2 (k_nextpid s) (k_initproc s)).

(** The descriptor tables live in the processes. *)
Definition put_ofile (ts : list (list (option nat))) (pt : list proc) : list proc :=
  imap (fun i p => match ts !! i with Some o => set_ofile o p | None => p end) pt.

Definition on_file {A} (c : ST (fstate IC) A) : K A := fun s =>
  let! r := c (mkFstate (k_file s) (k_pipe s) (v_kmem (k_vm s)) (k_ic s) (p_ofile <$> k_procs s)) in
  Ok (r.1, mkKst (with_vkmem (fs_kmem r.2) (k_vm s)) (put_ofile (fs_ofile r.2) (k_procs s)) (k_queue s) (k_mux s)
    (k_mgr s) (fs_file r.2) (fs_pipe r.2) (fs_inode r.2) (k_nextpid s) (k_initproc s)).

(** The calls on the current process's memory write [sz] and [shms] of it. *)
Definition on_us {A} (cur : nat) (c : ST ust A) : K A := fun s =>
  let! p := proc_at (k_procs s) cur in
  let! r := c (mkUst (k_vm s) p) in
  Ok (r.1, mkKst (us_vm r.2) (upd_proc (k_procs s) cur (fun p => set_sz (p_sz (us_cur r.2)) (set_shms (p_shms (us_cur r.2)) p)))
    (k_queue s) (k_mux s) (k_mgr s) (k_file s) (k_pipe s) (k_ic s) (k_nextpid s) (k_initproc s)).

Definition get_proc (i : nat) : K proc := fun s => let! p := proc_at (k_procs s) i in Ok (p, s).
Definition set_proc (i : nat) (f : proc -> proc) : K unit := modify (fun s => with_kprocs (upd_proc (k_procs s) i f) s).
Definition upd_procs (f : list proc -> list proc) : K unit := modify (fun s => with_kprocs (f (k_procs s)) s).

Definition new_pid : K Z := fun s =>
  Ok (k_nextpid s, mkKst (k_vm s) (k_procs s) (k_queue s) (k_mux s) (k_mgr s) (k_file s) (k_pipe s) (k_ic s)
    (i32 (k_nextpid s + 1)) (k_initproc s)).

Definition set_initproc (i : nat) : K unit := modify (fun s =>
  mkKst (k_vm s) (k_procs s) (k_queue s) (k_mux s) (k_mgr s) (k_file s) (k_pipe s) (k_ic s) (k_nextpid s) (Some i)).

(** ** Creation *)

(** sizeof(struct trapframe), sizeof(struct context) and the offset of [eip] in it *)
Definition TF_SIZE : Z := 76.
Definition CTX_SIZE : Z := 20.
Definition CTX_EIP : Z := 16.

(** The stack of a new process: return to [trapret], start at [forkret]. *)
Definition init_stack (kstack : Z) : ST vst unit :=
  let sp := kstack + KSTACKSIZE - TF_SIZE - 4 in
  wr32 sp trapret ;;;
  let ctx := sp - CTX_SIZE in
  memset_st ctx 0 CTX_SIZE ;;;
  wr32 (ctx + CTX_EIP) forkret.

(** [cur] is the calling process (none at boot). *)
Definition allocproc (cur : option nat) (cid : Z) : K (option nat) :=
  let* pt := get k_procs in
  match find_from (fun p => bool_decide (p_state p = UNUSED)) pt 0 with
  | None => ret None
  | Some i =>
      let* ok := on_mgr (setnextproc cid (Z.of_nat i)) in
      if ok <? 0 then ret None
      else
        set_proc i (set_state EMBRYO) ;;;
        let* pid := new_pid in
        set_proc i (set_pid pid) ;;;
        (if pid =? 1 then set_proc i (set_priority 0) ;;; on_pq (pq1_enqueue i 0) else ret tt) ;;;
        let* kstack := on_vm kalloc_st in
        set_proc i (set_kstack kstack) ;;;
        if kstack =? 0 then set_proc i (set_state UNUSED) ;;; ret None
        else
          on_vm (init_stack kstack) ;;;
          (if pid =? 1 then set_proc i (set_locks (replicate MUX_MAXNUM (-1)))
           else match cur with
                | Some c => on_mux (alloc_locks i c)
                | None => undef
                end) ;;;
          ret (Some i)
  end.

(** mmu.h: segment selectors and the interrupt flag *)
Definition SEG_UCODE : Z := 3.
Definition SEG_UDATA : Z := 4.
Definition DPL_USER : Z := 3.
Definition FL_IF : Z := 0x200.

Definition user_tf : trapframe :=
  let cs := Z.lor (Z.shiftl SEG_UCODE 3) DPL_USER in
  let ds := Z.lor (Z.shiftl SEG_UDATA 3) DPL_USER in
  mkTrapframe 0 0 0 0 0 0 0 0 0 0 ds ds 0 0 0 cs FL_IF PGSIZE ds.

Definition userinit : K unit :=
  let* o := allocproc None (-1) in
  match o with
  | None => undef
  | Some i =>
      set_initproc i ;;;
      let* pgdir := on_vm (setupkvm kend kdata) in
      set_proc i (set_pgdir pgdir) ;;;
      if pgdir =? 0 then panic "userinit: out of memory?"
      else
        on_vm (inituvm pgdir initcode initcode_size) ;;;
        set_proc i (fun p => set_cid (-1) (set_tf user_tf (set_sz PGSIZE p))) ;;;
        set_proc i (set_name [105; 110; 105; 116; 99; 111; 100; 101]) ;;;
        let* root := on_ic namei_root in
        set_proc i (fun p => set_path [47] (set_cwd (Some root) p)) ;;;
        set_proc i (set_state RUNNABLE)
  end.

(** [safestrcpy] into [char name[16]] *)
Definition short_name (s : cstring) : cstring := take 15 s.

Definition fork2 (cur : nat) (cid : Z) : K Z :=
  let* o := allocproc (Some cur) cid in
  match o with
  | None => ret (-1)
  | Some i =>
      let* cp := get_proc cur in
      let* pgdir := on_vm (copyuvm kend kdata (p_shms cp) (p_pgdir cp) (p_sz cp)) in
      set_proc i (set_pgdir pgdir) ;;;
      if pgdir =? 0 then
        let* np := get_proc i in
        on_vm (kfree_st kend (p_kstack np)) ;;;
        set_proc i (fun p => set_state UNUSED (set_kstack 0 p)) ;;;
        ret (-1)
      else
        let* cp := get_proc cur in
        set_proc i (fun p => set_tf (p_tf cp) (set_parent (Some cur) (set_cid cid (set_sz (p_sz cp) (set_path (p_path cp) p))))) ;;;
        let* np := get_proc i in
        let prio := if p_pid np =? 1 then 0 else if p_pid np =? 2 then 5 else p_priority cp in
        set_proc i (set_priority prio) ;;;
        on_pq (pq1_enqueue i prio) ;;;
        set_proc i (fun p => set_tf (tf_set_eax 0 (p_tf p)) p) ;;;
        on_file (fork_files cur i (seq 0 NOFILE)) ;;;
        match p_cwd cp with
        | None => undef
        | Some cwd =>
            on_ic (idup cwd) ;;;
            set_proc i (fun p => set_name (short_name (p_name cp)) (set_cwd (Some cwd) p)) ;;;
            let* np := get_proc i in
            let* np' := on_vm (fork_shms (reverse (seq 0 SHM_MAXNUM)) cp np (p_sz np)) in
            set_proc i (set_shms (p_shms np')) ;;;
            set_proc i (set_state RUNNABLE) ;;;
            ret (p_pid np)
        end
  end.

Definition fork (cur : nat) : K Z := let* p := get_proc cur in fork2 cur (p_cid p).

(** ** Exit and wait *)

(** The channel [struct proc *parent] is; a null pointer wakes nobody. *)
Definition parent_chan (o : option nat) : chan := match o with Some j => ChProc j | None => ChNone end.

(** The loop that passes the children to init. *)
Fixpoint reparent (cur : nat) (init : option nat) (l : list nat) : K unit :=
  match l with
  | [] => ret tt
  | i :: l' =>
      let* p := get_proc i in
      (if bool_decide (p_parent p = Some cur) then
         set_proc i (set_parent init) ;;;
         if bool_decide (p_state p = ZOMBIE) then upd_procs (wakeup1 (parent_chan init)) else ret tt
       else ret tt) ;;;
      reparent cur init l'
  end.

(** [exit] up to the switch to the scheduler, which never comes back. *)
Definition exit (cur : nat) : K unit :=
  let* init := get k_initproc in
  if bool_decide (init = Some cur) then panic "init exiting"
  else
    on_file (exit_files kend cur (seq 0 NOFILE)) ;;;
    on_us cur (exit_shms kend (seq 0 SHM_MAXNUM)) ;;;
    let* p := get_proc cur in
    match p_cwd p with
    | None => undef
    | Some cwd =>
        on_ic (inode_close cwd) ;;;
        set_proc cur (set_cwd None) ;;;
        upd_procs (wakeup1 (parent_chan (p_parent p))) ;;;
        reparent cur init (seq 0 NPROC) ;;;
        on_pq (remove_node cur) ;;;
        let* p := get_proc cur in
        on_mux (exit_locks cur (p_locks p)) ;;;
        set_proc cur (set_state ZOMBIE)
    end.

(** [active_processes] of the container loses one. *)
Definition leave_container (cid : Z) (cs : manager) : res (unit * manager) :=
  let! c := arr_get cs cid in
  if 0 <? c_active_processes c then
    let! cs := upd_container cs cid (fun c => cn_proc (c_next_proc c) (c_active_processes c - 1) c) in Ok (tt, cs)
  else Ok (tt, cs).

(** One scan of the table; [None] when the caller has to sleep. *)
Fixpoint wait_scan (cur : nat) (l : list nat) (havekids : bool) : K (option Z) :=
  match l with
  | [] =>
      let* cp := get_proc cur in
      if negb havekids || negb (p_killed cp =? 0) then ret (Some (-1))
      else upd_procs (Sleep.sleep cur (ChProc cur)) ;;; ret None
  | i :: l' =>
      let* p := get_proc i in
      if bool_decide (p_parent p <> Some cur) then wait_scan cur l' havekids
      else if bool_decide (p_state p = ZOMBIE) then
        on_vm (kfree_st kend (p_kstack p)) ;;;
        set_proc i (set_kstack 0) ;;;
        on_vm (freevm kend (p_pgdir p)) ;;;
        set_proc i (fun p => set_priority (-1) (set_state UNUSED (set_killed 0 (set_name [] (set_parent None (set_pid 0 p)))))) ;;;
        (if 0 <=? p_cid p then on_mgr (leave_container (p_cid p)) else ret tt) ;;;
        ret (Some (p_pid p))
      else wait_scan cur l' true
  end.

Definition wait (cur : nat) : K (option Z) := wait_scan cur (seq 0 NPROC) false.

(** After the sleep. *)
Definition wait_resume (cur : nat) : K (option Z) := upd_procs (sleep_done cur) ;;; wait cur.

(** ** Scheduling *)

(** One round of [scheduler]: the process it switches to. *)
Definition scheduler_turn : K (option nat) := fun s =>
  let! r := pq1_dequeue (mkPrioq (k_procs s) (k_queue s)) in
  let s := mkKst (k_vm s) (pq_procs r.2) (pq_queue r.2) (k_mux s) (k_mgr s) (k_file s) (k_pipe s) (k_ic s) (k_nextpid s) (k_initproc s) in
  match r.1 with
  | None => Ok (None, s)
  | Some i => (let* p := get_proc i in on_vm (switchuvm p) ;;; set_proc i (set_state RUNNING) ;;; ret (Some i)) s
  end.

(** The tests of [sched] before it switches. *)
Definition sched (holding_ptable : bool) (c : cpu) (p : proc) : res unit :=
  if negb holding_ptable then Panic "sched ptable.lock"
  else if negb (cpu_ncli c =? 1) then Panic "sched locks"
  else if bool_decide (p_state p = RUNNING) then Panic "sched running"
  else if cpu_if c then Panic "sched interruptible"
  else Ok tt.

Definition yield (cur : nat) : K unit := set_proc cur (set_state RUNNABLE).

Definition getcid (cur : nat) : K Z := let* p := get_proc cur in ret (p_cid p).

Definition set_proc_pipe (cur : nat) (pipein pipeout : Z) : K Z :=
  let* p := get_proc cur in
  let* pt := get k_procs in
  match find_from (fun q => p_pid q =? p_pid p) pt 0 with
  | Some i => set_proc i (fun q => set_pipeout pipeout (set_pipein pipein q)) ;;; ret 0
  | None => ret 0
  end.

(** The pair written to [fds]; the caller's own pipes become the parent's. *)
Definition get_proc_pipe (cur : nat) : K (option (Z * Z)) :=
  let* p := get_proc cur in
  match p_parent p with
  | None => undef
  | Some j =>
      let* pp := get_proc j in
      let* pt := get k_procs in
      match find_from (fun q => p_pid q =? p_pid pp) pt 0 with
      | Some i =>
          let* q := get_proc i in
          set_proc cur (fun p => set_pipeout (p_pipeout q) (set_pipein (p_pipein q) p)) ;;;
          ret (Some (p_pipein q, p_pipeout q))
      | None => ret None
      end
  end.
End proc.
