(* ===== verification/ProcInv.v ===== *)
(** * The process tree

    What the calls of proc.c keep true of the process table: identifiers are
    unique, every process but init has a live parent (so every zombie can be
    reaped), free slots are clean; and the full behaviour of [wait]. *)

From stdpp Require Import gmap.
From S2P Require Import Prelude Mem CString Params Kalloc ProcDef Prioqueue Pipe File Container Sleep Mutex Vm VmProof VmCopy Shm Proc.

Inductive phase := Free | New | Live | Dead.

#[export] Instance phase_eq_dec : EqDecision phase.
Proof. solve_decision. Defined.

Definition phase_of (st : procstate) : phase :=
  match st with UNUSED => Free | EMBRYO => New | ZOMBIE => Dead | _ => Live end.

(** What the tree is about: phase, identifier and parent of each slot. *)
Definition tag (p : proc) : phase * Z * option nat := (phase_of (p_state p), p_pid p, p_parent p).
Definition tags (pt : list proc) : list (phase * Z * option nat) := tag <$> pt.

Record tree_inv (ts : list (phase * Z * option nat)) (next : Z) (init : option nat) : Prop := {
  ti_pid : forall i ph pid par, ts !! i = Some (ph, pid, par) -> 0 <= pid < next /\ (ph <> Free -> 1 <= pid);
  ti_uniq : forall i j ph ph' pid par par', ts !! i = Some (ph, pid, par) -> ts !! j = Some (ph', pid, par') ->
    pid <> 0 -> i = j;
  ti_free : forall i pid par, ts !! i = Some (Free, pid, par) -> par = None;
  ti_new : forall i pid par, ts !! i <> Some (New, pid, par);
  ti_parent : forall i ph pid par, ts !! i = Some (ph, pid, par) -> ph <> Free -> init <> Some i ->
    exists j pid' par', par = Some j /\ j <> i /\ ts !! j = Some (Live, pid', par');
  ti_init : exists k pid, init = Some k /\ ts !! k = Some (Live, pid, None)
}.

(** Splits a lookup in an updated list. *)
Ltac insert_cases :=
  repeat match goal with
  | H : <[?i := _]> ?l !! ?j = Some _ |- _ =>
      destruct (decide (i = j)) as [<-|?];
      [rewrite list_lookup_insert_eq in H by (by eapply lookup_lt_Some); injection H as; subst
      | rewrite list_lookup_insert_ne in H by done]
  end.

(** A slot whose set-up failed keeps the identifier it was given. *)
Lemma tree_fail ts next init i pid :
  tree_inv ts next init -> ts !! i = Some (Free, pid, None) -> 1 <= next ->
  tree_inv (<[i := (Free, next, None)]> ts) (next + 1) init.
Proof.
  intros [H1 H2 H3 H4 H5 H6] Hi Hn. split.
  - intros j ph q par Hj. insert_cases; [split; [lia | done] |]. apply H1 in Hj. split; [lia | apply Hj].
  - intros j k ph ph' q par par' Hj Hk Hq. insert_cases; try done; [apply H1 in Hj; lia | apply H1 in Hk; lia | eauto].
  - intros j q par Hj. insert_cases; [done | eauto].
  - intros j q par Hj. insert_cases; [done | by eapply H4].
  - intros j ph q par Hj Hf Hin. insert_cases; [done |]. destruct (H5 _ _ _ _ Hj Hf Hin) as (k & q' & par' & -> & Hne & Hk).
    exists k, q', par'. split; [done |]. split; [done |]. rewrite list_lookup_insert_ne; [done |]. intros ->. congruence.
  - destruct H6 as (k & q & -> & Hk). exists k, q. split; [done |]. rewrite list_lookup_insert_ne; [done |].
    intros ->. congruence.
Qed.

(** A child of [c]. *)
Lemma tree_fork ts next init i pid c pid' par' :
  tree_inv ts next init -> ts !! i = Some (Free, pid, None) -> 1 <= next -> ts !! c = Some (Live, pid', par') ->
  tree_inv (<[i := (Live, next, Some c)]> ts) (next + 1) init.
Proof.
  intros [H1 H2 H3 H4 H5 H6] Hi Hn Hc. assert (Hci : i <> c) by (intros ->; congruence). split.
  - intros j ph q par Hj. insert_cases; [lia |]. apply H1 in Hj. split; [lia | apply Hj].
  - intros j k ph ph' q par par'' Hj Hk Hq. insert_cases; try done; [apply H1 in Hj; lia | apply H1 in Hk; lia | eauto].
  - intros j q par Hj. insert_cases; [done | eauto].
  - intros j q par Hj. insert_cases; [done | by eapply H4].
  - intros j ph q par Hj Hf Hin. insert_cases.
    + exists c, pid', par'. split; [done |]. split; [done |]. by rewrite list_lookup_insert_ne.
    + destruct (H5 _ _ _ _ Hj Hf Hin) as (k & q' & par'' & -> & Hne & Hk).
      exists k, q', par''. split; [done |]. split; [done |]. rewrite list_lookup_insert_ne; [done |]. intros ->. congruence.
  - destruct H6 as (k & q & -> & Hk). exists k, q. split; [done |]. rewrite list_lookup_insert_ne; [done |].
    intros ->. congruence.
Qed.

(** [c] is gone, its children are init's. *)
Definition orphan (c : nat) (init : option nat) (t : phase * Z * option nat) : phase * Z * option nat :=
  if bool_decide (t.2 = Some c) then (t.1, init) else t.

Lemma tree_exit ts next init c pid par :
  tree_inv ts next init -> ts !! c = Some (Live, pid, par) -> init <> Some c ->
  tree_inv (<[c := (Dead, pid, par)]> (orphan c init <$> ts)) next init.
Proof.
  intros [H1 H2 H3 H4 H5 H6] Hc Hic. destruct H6 as (k & kpid & -> & Hk).
  assert (Hlk : forall i t, (orphan c (Some k) <$> ts) !! i = Some t ->
    exists ph q pr, ts !! i = Some (ph, q, pr) /\ t = orphan c (Some k) (ph, q, pr)).
  { intros i t Ht. rewrite list_lookup_fmap in Ht. destruct (ts !! i) as [[[ph q] pr]|]; [| done]. injection Ht as <-. eauto. }
  assert (Hor : forall i ph q pr, ts !! i = Some (ph, q, pr) -> (orphan c (Some k) <$> ts) !! i =
     Some (ph, q, if bool_decide (pr = Some c) then Some k else pr)).
  { intros i ph q pr Hi. rewrite list_lookup_fmap, Hi. cbn. unfold orphan. cbn. by case_bool_decide. }
  assert (Hpc : exists j q' pr', par = Some j /\ j <> c /\ ts !! j = Some (Live, q', pr')) by (by eapply H5).
  assert (Hlen : (c < length (orphan c (Some k) <$> ts))%nat) by (rewrite length_fmap; by eapply lookup_lt_Some).
  assert (Hall : forall i ph q pr, <[c := (Dead, pid, par)]> (orphan c (Some k) <$> ts) !! i = Some (ph, q, pr) ->
    exists ph0 pr0, ts !! i = Some (ph0, q, pr0) /\
      (i = c /\ ph = Dead /\ ph0 = Live /\ pr = par /\ pr0 = par \/
       i <> c /\ ph = ph0 /\ pr = (if bool_decide (pr0 = Some c) then Some k else pr0))).
  { intros i ph q pr Hi. destruct (decide (c = i)) as [<-|Hne].
    - rewrite list_lookup_insert_eq in Hi by done. injection Hi as <- <- <-. exists Live, par. split; [done |]. by left.
    - rewrite list_lookup_insert_ne in Hi by done. destruct (ts !! i) as [[[ph0 q0] pr0]|] eqn:Hi0.
      + rewrite (Hor _ _ _ _ Hi0) in Hi. injection Hi as <- <- <-. exists ph0, pr0. split; [done |]. right. by split_and!.
      + by rewrite list_lookup_fmap, Hi0 in Hi. }
  assert (Hlive : forall j q pr, j <> c -> ts !! j = Some (Live, q, pr) ->
    exists pr', <[c := (Dead, pid, par)]> (orphan c (Some k) <$> ts) !! j = Some (Live, q, pr')).
  { intros j q pr Hne Hj. rewrite list_lookup_insert_ne by done. rewrite (Hor _ _ _ _ Hj). eauto. }
  split.
  - intros i ph q pr (ph0 & pr0 & Hi & Hd)%Hall. apply H1 in Hi as [Hr Hp]. split; [done |]. intros Hph. apply Hp.
    by destruct Hd as [(_ & _ & -> & _) | (_ & <- & _)].
  - intros i j ph ph' q pr pr' (ph0 & pr0 & Hi & _)%Hall (ph1 & pr1 & Hj & _)%Hall. by eapply H2.
  - intros i q pr (ph0 & pr0 & Hi & Hd)%Hall. destruct Hd as [(_ & ? & _) | (_ & <- & ->)]; [done |].
    by rewrite (H3 _ _ _ Hi).
  - intros i q pr (ph0 & pr0 & Hi & Hd)%Hall. destruct Hd as [(_ & ? & _) | (_ & <- & _)]; [done |]. by eapply H4.
  - intros i ph q pr (ph0 & pr0 & Hi & Hd)%Hall Hf Hin.
    destruct Hd as [(-> & _ & _ & -> & _) | (Hne & <- & ->)].
    + destruct Hpc as (j & q' & pr' & -> & Hj & Hlj). destruct (Hlive _ _ _ Hj Hlj) as [pr'' H]. by exists j, q', pr''.
    + destruct (H5 _ _ _ _ Hi Hf Hin) as (j & q' & pr' & -> & Hj & Hlj). case_bool_decide as Hjc.
      * destruct (Hlive k kpid None) as [pr'' H]; [congruence | done |]. exists k, kpid, pr''. split_and!; [done | congruence | done].
      * destruct (Hlive j q' pr') as [pr'' H]; [congruence | done |]. by exists j, q', pr''.
  - exists k, kpid. split; [done |]. rewrite list_lookup_insert_ne by congruence. rewrite (Hor _ _ _ _ Hk). done.
Qed.

(** A zombie is reaped. *)
Lemma tree_reap ts next init i pid par :
  tree_inv ts next init -> ts !! i = Some (Dead, pid, par) -> 1 <= next ->
  tree_inv (<[i := (Free, 0, None)]> ts) next init.
Proof.
  intros [H1 H2 H3 H4 H5 H6] Hi Hn. split.
  - intros j ph q pr Hj. insert_cases; [split; [lia | done] | eauto].
  - intros j k ph ph' q pr pr' Hj Hk Hq. insert_cases; done || eauto.
  - intros j q pr Hj. insert_cases; [done | eauto].
  - intros j q pr Hj. insert_cases; [done | by eapply H4].
  - intros j ph q pr Hj Hf Hin. insert_cases; [done |]. destruct (H5 _ _ _ _ Hj Hf Hin) as (k & q' & pr' & -> & Hne & Hk).
    exists k, q', pr'. split; [done |]. split; [done |]. rewrite list_lookup_insert_ne; [done |]. intros ->. congruence.
  - destruct H6 as (k & q & -> & Hk). exists k, q. split; [done |]. rewrite list_lookup_insert_ne; [done |].
    intros ->. congruence.
Qed.

(** ** What the components leave alone *)

Lemma tags_upd pt i f : (forall p, tag (f p) = tag p) -> tags (upd_proc pt i f) = tags pt.
Proof.
  intros Hf. apply list_eq. intros j. unfold tags. rewrite !list_lookup_fmap, upd_proc_lookup.
  case_decide; [| done]. destruct (pt !! j); [| done]. cbn. by rewrite Hf.
Qed.

Lemma tags_map pt f : (forall p, tag (f p) = tag p) -> tags (f <$> pt) = tags pt.
Proof. intros Hf. unfold tags. rewrite <- list_fmap_compose. apply list_fmap_ext. intros i p _. apply Hf. Qed.

Lemma tags_wakeup c pt : tags (wakeup1 c pt) = tags pt.
Proof.
  apply tags_map. intros p. unfold sleeps_on. case_bool_decide as H; [| done].
  destruct (bool_decide (p_chan p = c)); [| done]. unfold tag. cbn. by rewrite H.
Qed.

Lemma tags_set pt i f p :
  pt !! i = Some p -> tags (upd_proc pt i f) = <[i := tag (f p)]> (tags pt).
Proof.
  intros Hp. unfold tags, upd_proc. rewrite (list_alter_lookup_insert _ _ _ _ Hp). apply list_fmap_insert.
Qed.

Lemma put_ofile_tags ts pt : tags (put_ofile ts pt) = tags pt.
Proof.
  apply list_eq. intros j. unfold tags, put_ofile. rewrite !list_lookup_fmap, list_lookup_imap.
  destruct (pt !! j) as [p|]; [| done]. cbn. by destruct (ts !! j).
Qed.

(** Routines on the queue. *)
Definition pq_keeps (c : prioq -> res prioq) : Prop :=
  forall q q', c q = Ok q' -> tags (pq_procs q') = tags (pq_procs q).

Lemma pq1_enqueue_keeps i v : pq_keeps (pq1_enqueue i v).
Proof.
  intros q q' Hq. unfold pq1_enqueue in Hq. inv_ok. destruct x; inv_ok; cbn [pq_procs]; [| done]. by apply tags_upd.
Qed.

Lemma remove_loop_keeps f prio pid : forall prev cur, pq_keeps (remove_loop f prio pid prev cur).
Proof.
  induction f as [|f IH]; intros prev [c|] q q' Hq; cbn [remove_loop] in Hq; inv_ok; try done.
  destruct (_ =? _).
  - inv_ok. cbn [pq_procs]. rewrite tags_upd by done. unfold remove_unlink in H0.
    destruct prev; inv_ok; cbn [pq_procs]; [by apply tags_upd | done].
  - by eapply IH.
Qed.

Lemma remove_node_keeps i : pq_keeps (remove_node i).
Proof. intros q q' Hq. unfold remove_node in Hq. inv_ok. by eapply remove_loop_keeps. Qed.

Lemma assign_keeps l v : pq_keeps (assign l v).
Proof. intros q q' Hq. unfold assign in Hq. destruct l; inv_ok; cbn [pq_procs]; [done | by apply tags_upd]. Qed.

Lemma pq1_dequeue_keeps q r q' : pq1_dequeue q = Ok (r, q') -> tags (pq_procs q') = tags (pq_procs q).
Proof.
  unfold pq1_dequeue. intros Hq. apply rbind_Ok in Hq as ([cur|] & _ & Hq); [| by inv_ok].
  apply rbind_Ok in Hq as (p & _ & Hq). apply rbind_Ok in Hq as (h & _ & Hq). apply rbind_Ok in Hq as (q1 & H1 & Hq).
  apply rbind_Ok in Hq as (hd & _ & Hq). apply rbind_Ok in Hq as (q2 & H2 & Hq). injection Hq as <- <-. cbn [pq_procs].
  rewrite tags_upd by done. rewrite (assign_keeps _ _ _ _ H2). case_bool_decide.
  - by inv_ok.
  - apply rbind_Ok in H1 as ([j|] & _ & H1); inv_ok; [by apply tags_upd | done].
Qed.

(** Routines on the mutexes. *)
Definition mux_keeps {A} (c : ST mstate A) : Prop :=
  forall m a m', c m = Ok (a, m') -> tags (ms_procs m') = tags (ms_procs m).

Lemma mux_keeps_bind {A B} (c : ST mstate A) (k : A -> ST mstate B) :
  mux_keeps c -> (forall a, mux_keeps (k a)) -> mux_keeps (bind c k).
Proof. intros Hc Hk m b m' (a & m1 & H1 & H2)%bind_Ok. rewrite (Hk a _ _ _ H2). by eapply Hc. Qed.

Lemma mux_keeps_ret {A} (a : A) : mux_keeps (ret a).
Proof. intros m b m' Hm. by inv_ok. Qed.

Lemma mux_keeps_upd_mux g f : mux_keeps (upd_mux g f).
Proof. intros m b m' Hm. unfold upd_mux in Hm. by inv_ok. Qed.

Lemma mux_keeps_upd_cur i f : (forall p, tag (f p) = tag p) -> mux_keeps (upd_cur i f).
Proof. intros Hf m b m' Hm. unfold upd_cur in Hm. inv_ok. cbn. by apply tags_upd. Qed.

Lemma mux_keeps_cur_proc i : mux_keeps (cur_proc i).
Proof. intros m b m' Hm. unfold cur_proc in Hm. by inv_ok. Qed.

Lemma mux_keeps_mux_at i : mux_keeps (mux_at i).
Proof. intros m b m' Hm. unfold mux_at in Hm. by inv_ok. Qed.

Lemma mux_keeps_releasesleep g : mux_keeps (releasesleep g).
Proof.
  apply mux_keeps_bind; [apply mux_keeps_upd_mux | intros _ m b m' Hm]. inv_ok. apply tags_wakeup.
Qed.

Lemma count_locks_keeps ls : mux_keeps (count_locks ls).
Proof.
  induction ls as [|l ls IH]; [apply mux_keeps_ret |]. cbn [count_locks]. apply mux_keeps_bind; [| done].
  destruct (negb _); [apply mux_keeps_upd_mux | apply mux_keeps_ret].
Qed.

Lemma alloc_locks_keeps i c : mux_keeps (alloc_locks i c).
Proof.
  apply mux_keeps_bind; [apply mux_keeps_cur_proc | intros p]. destruct (_ =? _); [by apply mux_keeps_upd_cur |].
  apply mux_keeps_bind; [apply mux_keeps_cur_proc | intros pp]. apply mux_keeps_bind; [by apply mux_keeps_upd_cur |].
  intros _. apply count_locks_keeps.
Qed.

Lemma exit_locks_keeps i ls : mux_keeps (exit_locks i ls).
Proof.
  induction ls as [|l ls IH]; [apply mux_keeps_ret |]. cbn [exit_locks]. apply mux_keeps_bind; [| done].
  destruct (negb _); [| apply mux_keeps_ret]. apply mux_keeps_bind; [apply mux_keeps_upd_mux | intros _].
  apply mux_keeps_bind; [apply mux_keeps_cur_proc | intros p]. apply mux_keeps_bind; [apply mux_keeps_mux_at | intros m].
  destruct (_ =? _); [apply mux_keeps_releasesleep | apply mux_keeps_ret].
Qed.

(** ** The kernel's calls *)

Section calls.
Context {IC : Type} `{InodeClose IC}.
Context (kend kdata trapret forkret : Z) (idup : nat -> ST IC unit).

Definition frame (s s' : kst IC) : Prop :=
  tags (k_procs s') = tags (k_procs s) /\ k_nextpid s' = k_nextpid s /\ k_initproc s' = k_initproc s.

Definition keeps {A} (c : ST (kst IC) A) : Prop := forall s a s', c s = Ok (a, s') -> frame s s'.

#[export] Instance frame_preorder : PreOrder frame.
Proof. split; [by intros s | intros s1 s2 s3 (A1 & B1 & C1) (A2 & B2 & C2); unfold frame; split_and!; congruence]. Qed.

Lemma keeps_bind {A B} (c : ST (kst IC) A) (k : A -> ST (kst IC) B) :
  keeps c -> (forall a, keeps (k a)) -> keeps (bind c k).
Proof. intros Hc Hk s b s' (a & s1 & H1 & H2)%bind_Ok. etransitivity; [by eapply Hc | by eapply Hk]. Qed.

Lemma keeps_ret {A} (a : A) : keeps (ret a).
Proof. intros s b s' Hs. by inv_ok. Qed.

Lemma keeps_get {A} (f : kst IC -> A) : keeps (get f).
Proof. intros s b s' Hs. by inv_ok. Qed.

Lemma keeps_undef {A} : keeps (@undef (kst IC) A).
Proof. by intros s b s' Hs. Qed.

Lemma keeps_panic {A} m : keeps (@panic (kst IC) A m).
Proof. by intros s b s' Hs. Qed.

Lemma keeps_vm {A} (c : ST vst A) : keeps (on_vm c).
Proof. intros s b s' Hs. unfold on_vm in Hs. by inv_ok. Qed.

Lemma keeps_mgr {A} (c : manager -> res (A * manager)) : keeps (on_mgr c).
Proof. intros s b s' Hs. unfold on_mgr in Hs. by inv_ok. Qed.

Lemma keeps_ic {A} (c : ST IC A) : keeps (on_ic c).
Proof. intros s b s' Hs. unfold on_ic in Hs. by inv_ok. Qed.

Lemma keeps_file {A} (c : ST (fstate IC) A) : keeps (on_file c).
Proof. intros s b s' Hs. unfold on_file in Hs. inv_ok. split; [apply put_ofile_tags | done]. Qed.

Lemma keeps_us {A} cur (c : ST ust A) : keeps (on_us cur c).
Proof. intros s b s' Hs. unfold on_us in Hs. inv_ok. split; [by apply tags_upd | done]. Qed.

Lemma keeps_pq c : pq_keeps c -> keeps (on_pq c).
Proof. intros Hc s b s' Hs. unfold on_pq in Hs. inv_ok. split; [by eapply Hc in H0 | done]. Qed.

Lemma keeps_mux {A} (c : ST mstate A) : mux_keeps c -> keeps (on_mux c).
Proof. intros Hc s b s' Hs. unfold on_mux in Hs. inv_ok. destruct x. by apply Hc in H0. Qed.

Lemma keeps_get_proc i : keeps (get_proc i).
Proof. intros s b s' Hs. unfold get_proc in Hs. by inv_ok. Qed.

Lemma keeps_set_proc i f : (forall p, tag (f p) = tag p) -> keeps (set_proc i f).
Proof. intros Hf s b s' Hs. unfold set_proc in Hs. inv_ok. split; [by apply tags_upd | done]. Qed.

Lemma keeps_wakeup c : keeps (upd_procs (wakeup1 c)).
Proof. intros s b s' Hs. unfold upd_procs in Hs. inv_ok. split; [apply tags_wakeup | done]. Qed.

(** A routine whose parts all leave the tree alone. *)
Ltac keeps_tac :=
  repeat (first
    [ apply keeps_bind; [| intros ?]
    | apply keeps_ret | apply keeps_get | apply keeps_undef | apply keeps_panic
    | apply keeps_vm | apply keeps_mgr | apply keeps_ic | apply keeps_file | apply keeps_us
    | apply keeps_get_proc | apply keeps_wakeup
    | apply keeps_pq; first [apply pq1_enqueue_keeps | apply remove_node_keeps]
    | apply keeps_mux; first [apply alloc_locks_keeps | apply exit_locks_keeps]
    | apply keeps_set_proc; intros ?; reflexivity
    | match goal with |- keeps (if ?b then _ else _) => destruct b end
    | match goal with |- keeps (match ?o with _ => _ end) => destruct o end ]).

(** Slot [i] of the table is being worked on, the others are as in [ts]. *)
Definition slot (s : kst IC) (i : nat) (t : phase * Z * option nat) (ts : list (phase * Z * option nat)) (n : Z) (init : option nat) : Prop :=
  (i < length ts)%nat /\ tags (k_procs s) = <[i := t]> ts /\ k_nextpid s = n /\ k_initproc s = init.

Lemma slot_start s i t : tags (k_procs s) !! i = Some t -> slot s i t (tags (k_procs s)) (k_nextpid s) (k_initproc s).
Proof. intros Hi. split; [by eapply lookup_lt_Some |]. by rewrite list_insert_id. Qed.

Lemma slot_keeps {A} (c : ST (kst IC) A) s a s' i t ts n init :
  keeps c -> slot s i t ts n init -> c s = Ok (a, s') -> slot s' i t ts n init.
Proof. intros Hk (H1 & H2 & H3 & H4) Hc. apply Hk in Hc as (E1 & E2 & E3). unfold slot. by rewrite E1, E2, E3. Qed.

(** The change a setter makes to a tag. *)
Definition tag_fun (f : proc -> proc) (g : phase * Z * option nat -> phase * Z * option nat) : Prop :=
  forall p, tag (f p) = g (tag p).

Lemma slot_set s u s' i f g t ts n init :
  tag_fun f g -> slot s i t ts n init -> set_proc i f s = Ok (u, s') -> slot s' i (g t) ts n init.
Proof.
  intros Hf (H1 & H2 & H3 & H4) Hc. unfold set_proc in Hc. inv_ok. split; [done |]. split; [| done]. cbn [k_procs with_kprocs].
  destruct (k_procs s !! i) as [p|] eqn:Hp.
  - rewrite (tags_set _ _ _ _ Hp), H2, list_insert_insert_eq. f_equal.
    assert (Ht : tags (k_procs s) !! i = Some (tag p)) by (unfold tags; by rewrite list_lookup_fmap, Hp).
    rewrite H2, list_lookup_insert_eq in Ht by done. injection Ht as ->. apply Hf.
  - exfalso. apply lookup_ge_None in Hp. assert (length (tags (k_procs s)) = length ts) by (by rewrite H2, length_insert).
    unfold tags in *. rewrite length_fmap in *. lia.
Qed.

Definition t_phase (ph : phase) (t : phase * Z * option nat) := (ph, t.1.2, t.2).
Definition t_pid (pid : Z) (t : phase * Z * option nat) := (t.1.1, pid, t.2).
Definition t_parent (par : option nat) (t : phase * Z * option nat) := (t.1.1, t.1.2, par).

Lemma tag_state st : tag_fun (set_state st) (t_phase (phase_of st)).
Proof. done. Qed.

Lemma tag_pid v : tag_fun (set_pid v) (t_pid v).
Proof. done. Qed.

(** Takes the next action of [c s = Ok r]. *)
Ltac act H a s' Ha := apply bind_Ok in H as (a & s' & Ha & H).

(** The slot [allocproc] works on, and what becomes of it. *)
Lemma allocproc_post cur cid s o s' :
  allocproc trapret forkret cur cid s = Ok (o, s') ->
  (o = None /\ frame s s') \/
  exists i pid0 par, tags (k_procs s) !! i = Some (Free, pid0, par) /\
    slot s' i (if o is Some _ then New else Free, k_nextpid s, par) (tags (k_procs s)) (i32 (k_nextpid s + 1)) (k_initproc s) /\
    (o = None \/ o = Some i).
Proof.
  unfold allocproc. intros Hs. act Hs pt s1 Hg. injection Hg as <- <-.
  destruct (find_from _ (k_procs s) 0) as [i|] eqn:Hf; [| inv_ok; by left].
  apply find_from_Some in Hf as (j & p & -> & Hp & Hst & _). cbn [Nat.add] in *. apply bool_decide_eq_true in Hst.
  assert (Htag : tags (k_procs s) !! j = Some (Free, p_pid p, p_parent p)).
  { unfold tags. rewrite list_lookup_fmap, Hp. cbn. unfold tag. by rewrite Hst. }
  pose proof (slot_start _ _ _ Htag) as Hsl. act Hs ok s2 Hm. apply (slot_keeps _ _ _ _ _ _ _ _ _ (keeps_mgr _) Hsl) in Hm as Hsl2.
  destruct (ok <? 0); [inv_ok; left; split; [done |]; by apply keeps_mgr in Hm |].
  right. exists j, (p_pid p), (p_parent p). split; [done |].
  act Hs u3 s3 H3. apply (slot_set _ _ _ _ _ _ _ _ _ _ (tag_state _) Hsl2) in H3.
  act Hs pid s4 H4. unfold new_pid in H4. injection H4 as <- <-.
  assert (Hsl4 : slot (mkKst (k_vm s3) (k_procs s3) (k_queue s3) (k_mux s3) (k_mgr s3) (k_file s3) (k_pipe s3) (k_ic s3)
    (i32 (k_nextpid s3 + 1)) (k_initproc s3)) j (t_phase New (Free, p_pid p, p_parent p)) (tags (k_procs s)) (i32 (k_nextpid s + 1)) (k_initproc s)).
  { destruct H3 as (A1 & A2 & A3 & A4). split; [done |]. split; [done |]. cbn. by rewrite A3. }
  assert (Hn : k_nextpid s3 = k_nextpid s) by apply H3. rewrite Hn in *.
  act Hs u5 s5 H5. apply (slot_set _ _ _ _ _ _ _ _ _ _ (tag_pid _) Hsl4) in H5. cbn in H5.
  act Hs u6 s6 H6. eapply slot_keeps in H6; [| keeps_tac | exact H5].
  act Hs ks s7 H7. eapply slot_keeps in H7; [| apply keeps_vm | exact H6].
  act Hs u8 s8 H8. eapply slot_keeps in H8; [| by apply keeps_set_proc | exact H7].
  destruct (ks =? 0).
  - act Hs u9 s9 H9. apply (slot_set _ _ _ _ _ _ _ _ _ _ (tag_state _) H8) in H9. inv_ok. split; [exact H9 | by left].
  - act Hs u9 s9 H9. eapply slot_keeps in H9; [| apply keeps_vm | exact H8].
    act Hs u10 s10 H10. eapply slot_keeps in H10; [| keeps_tac | exact H9]. inv_ok. split; [exact H10 | by right].
Qed.

Lemma fork2_post cur cid s r s' :
  fork2 kend kdata trapret forkret idup cur cid s = Ok (r, s') ->
  frame s s' \/
  exists i pid0 par, tags (k_procs s) !! i = Some (Free, pid0, par) /\
    ((r = -1 /\ slot s' i (Free, k_nextpid s, par) (tags (k_procs s)) (i32 (k_nextpid s + 1)) (k_initproc s)) \/
     (r = k_nextpid s /\ slot s' i (Live, k_nextpid s, Some cur) (tags (k_procs s)) (i32 (k_nextpid s + 1)) (k_initproc s))).
Proof.
  unfold fork2. intros Hs. act Hs o s1 H1. apply allocproc_post in H1 as [(-> & Hf) | (i & pid0 & par & Hi & Hsl & Ho)].
  { inv_ok. by left. }
  right. exists i, pid0, par. split; [done |]. destruct Ho as [-> | ->]; [inv_ok; by left |].
  act Hs cp s2 H2. eapply slot_keeps in H2 as Hsl2; [| apply keeps_get_proc | exact Hsl].
  act Hs pg s3 H3. eapply slot_keeps in H3; [| apply keeps_vm | exact Hsl2].
  act Hs u4 s4 H4. eapply slot_keeps in H4; [| by apply keeps_set_proc | exact H3].
  destruct (pg =? 0).
  { act Hs np s5 H5. eapply slot_keeps in H5; [| apply keeps_get_proc | exact H4].
    act Hs u6 s6 H6. eapply slot_keeps in H6; [| apply keeps_vm | exact H5].
    act Hs u7 s7 H7. eapply (slot_set _ _ _ _ _ (t_phase Free)) in H7; [| done | exact H6]. inv_ok. by left. }
  right. act Hs cp' s5 H5. eapply slot_keeps in H5; [| apply keeps_get_proc | exact H4].
  act Hs u6 s6 H6. eapply (slot_set _ _ _ _ _ (t_parent (Some cur))) in H6; [| done | exact H5].
  act Hs np s7 H7. eapply slot_keeps in H7; [| apply keeps_get_proc | exact H6].
  act Hs u8 s8 H8. eapply slot_keeps in H8; [| by apply keeps_set_proc | exact H7].
  act Hs u9 s9 H9. eapply slot_keeps in H9; [| apply keeps_pq, pq1_enqueue_keeps | exact H8].
  act Hs u10 s10 H10. eapply slot_keeps in H10; [| by apply keeps_set_proc | exact H9].
  act Hs u11 s11 H11. eapply slot_keeps in H11; [| apply keeps_file | exact H10].
  destruct (p_cwd cp') as [cwd|]; [| done].
  act Hs u12 s12 H12. eapply slot_keeps in H12; [| apply keeps_ic | exact H11].
  act Hs u13 s13 H13. eapply slot_keeps in H13; [| by apply keeps_set_proc | exact H12].
  act Hs np' s14 H14. eapply slot_keeps in H14 as Hsl14; [| apply keeps_get_proc | exact H13].
  assert (Hpid : p_pid np' = k_nextpid s).
  { unfold get_proc, proc_at in H14. destruct (k_procs s13 !! i) as [q|] eqn:Hq; [| done]. injection H14 as -> _.
    destruct H13 as (Hlt & Ht & _). assert (Htq : tags (k_procs s13) !! i = Some (tag np')) by (unfold tags; by rewrite list_lookup_fmap, Hq).
    rewrite Ht, list_lookup_insert_eq in Htq by done. by injection Htq. }
  act Hs np2 s15 H15. eapply slot_keeps in H15; [| apply keeps_vm | exact Hsl14].
  act Hs u16 s16 H16. eapply slot_keeps in H16; [| by apply keeps_set_proc | exact H15].
  act Hs u17 s17 H17. eapply (slot_set _ _ _ _ _ (t_phase Live)) in H17; [| done | exact H16].
  inv_ok. done.
Qed.

(** [reparent] hands on the children of the slots it has visited. *)
Lemma reparent_post cur init l (s : kst IC) u s' :
  reparent cur init l s = Ok (u, s') -> NoDup l ->
  k_nextpid s' = k_nextpid s /\ k_initproc s' = k_initproc s /\ length (k_procs s') = length (k_procs s) /\
  (forall j, tags (k_procs s') !! j = if decide (j ∈ l) then orphan cur init <$> tags (k_procs s) !! j else tags (k_procs s) !! j).
Proof.
  revert s. induction l as [|i l IH]; intros s Hs Hnd; cbn [reparent] in Hs.
  { inv_ok. by split_and!. }
  apply NoDup_cons in Hnd as [Hni Hnd]. act Hs p s1 H1. unfold get_proc, proc_at in H1.
  destruct (k_procs s !! i) as [q|] eqn:Hq; [| done]. injection H1 as -> <-.
  act Hs u2 s2 H2. apply IH in Hs as (N & I & L & T); [| done].
  assert (H2' : k_nextpid s2 = k_nextpid s /\ k_initproc s2 = k_initproc s /\
    tags (k_procs s2) = alter (orphan cur init) i (tags (k_procs s))).
  { assert (Hti : tags (k_procs s) !! i = Some (tag p)) by (unfold tags; by rewrite list_lookup_fmap, Hq).
    rewrite (list_alter_lookup_insert _ _ _ _ Hti). unfold orphan. cbn [tag fst snd]. case_bool_decide as Hb.
    - act H2 u3 s3 H3. apply (slot_set _ _ _ _ _ (t_parent init) (tag p) (tags (k_procs s)) (k_nextpid s) (k_initproc s)) in H3;
        [| done | by apply slot_start].
      assert (Hk : slot s2 i (t_parent init (tag p)) (tags (k_procs s)) (k_nextpid s) (k_initproc s)).
      { eapply slot_keeps; [| exact H3 | exact H2]. keeps_tac. }
      destruct Hk as (_ & E1 & E2 & E3). done.
    - inv_ok. by rewrite list_insert_id. }
  destruct H2' as (N2 & I2 & T2).
  assert (L2 : length (k_procs s2) = length (k_procs s)).
  { assert (E : length (tags (k_procs s2)) = length (tags (k_procs s))) by (by rewrite T2, length_alter).
    unfold tags in E. by rewrite !length_fmap in E. }
  split_and!; [congruence | congruence | congruence |]. intros j. rewrite T, T2.
  destruct (decide (i = j)) as [<-|Hne].
  - rewrite decide_False by done. rewrite decide_True by left. apply list_lookup_alter_eq.
  - rewrite list_lookup_alter_ne by done. destruct (decide (j ∈ l)).
    + by rewrite decide_True by (by right).
    + rewrite decide_False; [done |]. rewrite elem_of_cons. naive_solver.
Qed.

Lemma exit_post cur s u s' pid par :
  length (k_procs s) = NPROC -> tags (k_procs s) !! cur = Some (Live, pid, par) ->
  exit kend cur s = Ok (u, s') -> par <> Some cur ->
  k_initproc s <> Some cur /\ k_nextpid s' = k_nextpid s /\ k_initproc s' = k_initproc s /\
  tags (k_procs s') = <[cur := (Dead, pid, par)]> (orphan cur (k_initproc s) <$> tags (k_procs s)).
Proof.
  intros Hlen Hc Hs Hpar. unfold exit in Hs. act Hs init s0 H0. injection H0 as <- <-. case_bool_decide as Hi; [done |].
  split; [done |].
  act Hs u1 s1 H1. apply keeps_file in H1 as K1. act Hs u2 s2 H2. apply keeps_us in H2 as K2.
  act Hs p s3 H3. apply keeps_get_proc in H3 as K3. destruct (p_cwd p) as [cwd|]; [| done].
  act Hs u4 s4 H4. apply keeps_ic in H4 as K4. act Hs u5 s5 H5. apply keeps_set_proc in H5 as K5; [| done].
  act Hs u6 s6 H6. apply keeps_wakeup in H6 as K6.
  assert (K : frame s s6) by (do 5 (etransitivity; [eassumption |]); done). clear K1 K2 K3 K4 K5 K6.
  destruct K as (T & N & I).
  act Hs u7 s7 H7. apply reparent_post in H7 as (N7 & I7 & L7 & T7); [| apply NoDup_seq].
  act Hs u8 s8 H8. apply keeps_pq in H8 as (T8 & N8 & I8); [| apply remove_node_keeps].
  act Hs p9 s9 H9. apply keeps_get_proc in H9 as (T9 & N9 & I9).
  act Hs u10 s10 H10. apply keeps_mux in H10 as (T10 & N10 & I10); [| apply exit_locks_keeps].
  assert (T' : tags (k_procs s10) = orphan cur (k_initproc s) <$> tags (k_procs s)).
  { rewrite T10, T9, T8. apply list_eq. intros j. rewrite T7, T, list_lookup_fmap. case_decide as Hj; [done |].
    destruct (tags (k_procs s) !! j) as [t|] eqn:Ht; [| done]. exfalso. apply Hj, elem_of_seq.
    apply lookup_lt_Some in Ht. unfold tags in Ht. rewrite length_fmap in Ht. lia. }
  assert (Hc' : tags (k_procs s10) !! cur = Some (Live, pid, par)).
  { rewrite T', list_lookup_fmap, Hc. cbn. unfold orphan. cbn. by rewrite bool_decide_false. }
  eapply (slot_set _ _ _ _ _ (t_phase Dead)) in Hs as (_ & T11 & N11 & I11); [| done | exact (slot_start _ _ _ Hc')].
  rewrite T11, T', N11, I11. split_and!; [congruence | congruence | done].
Qed.

Lemma wait_post cur l s r s' hk :
  wait_scan kend cur l hk s = Ok (r, s') ->
  (frame s s' /\ r = Some (-1)) \/ (r = None /\ k_nextpid s' = k_nextpid s /\ k_initproc s' = k_initproc s /\
     exists p, k_procs s !! cur = Some p /\ tags (k_procs s') = <[cur := t_phase Live (tag p)]> (tags (k_procs s))) \/
  exists i pid, tags (k_procs s) !! i = Some (Dead, pid, Some cur) /\ r = Some pid /\
    slot s' i (Free, 0, None) (tags (k_procs s)) (k_nextpid s) (k_initproc s).
Proof.
  revert s hk. induction l as [|i l IH]; intros s hk Hs; cbn [wait_scan] in Hs.
  { act Hs cp s1 H1. unfold get_proc, proc_at in H1. destruct (k_procs s !! cur) as [q|] eqn:Hq; [| done].
    injection H1 as -> <-. destruct (_ || _); [inv_ok; by left |].
    act Hs u2 s2 H2. unfold upd_procs in H2. inv_ok. right. left. split_and!; try done. exists cp. split; [done |].
    cbn. unfold Sleep.sleep. by rewrite (tags_set _ _ _ _ Hq). }
  act Hs p s1 H1. unfold get_proc, proc_at in H1. destruct (k_procs s !! i) as [q|] eqn:Hq; [| done].
  injection H1 as -> <-. case_bool_decide as Hpar; [by eapply IH |]. case_bool_decide as Hz; [| by eapply IH].
  right. right. exists i, (p_pid p).
  assert (Ht : tags (k_procs s) !! i = Some (Dead, p_pid p, Some cur)).
  { unfold tags. rewrite list_lookup_fmap, Hq. cbn. unfold tag. by rewrite Hz, Hpar. }
  split; [done |]. pose proof (slot_start _ _ _ Ht) as Hsl.
  act Hs u1 s1 H1. eapply slot_keeps in H1; [| apply keeps_vm | exact Hsl].
  act Hs u2 s2 H2. eapply slot_keeps in H2; [| by apply keeps_set_proc | exact H1].
  act Hs u3 s3 H3. eapply slot_keeps in H3; [| apply keeps_vm | exact H2].
  act Hs u4 s4 H4. eapply (slot_set _ _ _ _ _ (fun t => (Free, 0, None))) in H4; [| done | exact H3].
  act Hs u5 s5 H5. eapply slot_keeps in H5; [| keeps_tac | exact H4]. inv_ok. done.
Qed.

(** ** Steps of the system *)

Definition running (s : kst IC) (cur : nat) : Prop := exists p, k_procs s !! cur = Some p /\ p_state p = RUNNING.

(** A running process makes a call, or the scheduler picks the next one. *)
Inductive proc_step : kst IC -> kst IC -> Prop :=
| ps_fork s cur cid r s' : running s cur -> k_nextpid s < 2147483647 ->
    fork2 kend kdata trapret forkret idup cur cid s = Ok (r, s') -> proc_step s s'
| ps_exit s cur u s' : running s cur -> exit kend cur s = Ok (u, s') -> proc_step s s'
| ps_wait s cur r s' : running s cur -> wait kend cur s = Ok (r, s') -> proc_step s s'
| ps_wait_resume s cur r s' : running s cur -> wait_resume kend cur s = Ok (r, s') -> proc_step s s'
| ps_kill s pid : proc_step s (with_kprocs (kill pid (k_procs s)).2 s)
| ps_sleep s cur c : running s cur -> proc_step s (with_kprocs (Sleep.sleep cur c (k_procs s)) s)
| ps_wakeup s c : proc_step s (with_kprocs (wakeup c (k_procs s)) s)
| ps_yield s cur u s' : running s cur -> yield cur s = Ok (u, s') -> proc_step s s'
| ps_schedule s o s' : scheduler_turn s = Ok (o, s') -> proc_step s s'
| ps_set_pipe s cur a b r s' : running s cur -> set_proc_pipe cur a b s = Ok (r, s') -> proc_step s s'
| ps_get_pipe s cur r s' : running s cur -> get_proc_pipe cur s = Ok (r, s') -> proc_step s s'
| ps_mutex s {A} (c : ST mstate A) a s' : mux_keeps c -> on_mux c s = Ok (a, s') -> proc_step s s'
| ps_memory s cur {A} (c : ST ust A) a s' : on_us cur c s = Ok (a, s') -> proc_step s s'
| ps_files s {A} (c : ST (fstate IC) A) a s' : on_file c s = Ok (a, s') -> proc_step s s'.

Record proc_inv (s : kst IC) : Prop := {
  pv_len : length (k_procs s) = NPROC;
  pv_next : 1 <= k_nextpid s <= 2147483647;
  pv_tree : tree_inv (tags (k_procs s)) (k_nextpid s) (k_initproc s)
}.

Lemma frame_inv s s' : frame s s' -> proc_inv s -> proc_inv s'.
Proof.
  intros (T & N & I) [H1 H2 H3]. split; [| congruence | congruence].
  assert (E : length (tags (k_procs s')) = length (tags (k_procs s))) by congruence.
  unfold tags in E. rewrite !length_fmap in E. congruence.
Qed.

Lemma running_tag s cur : running s cur -> exists pid par, tags (k_procs s) !! cur = Some (Live, pid, par).
Proof.
  intros (p & Hp & Hst). exists (p_pid p), (p_parent p). unfold tags. rewrite list_lookup_fmap, Hp. cbn. unfold tag. by rewrite Hst.
Qed.

Lemma tags_length (pt : list proc) : length (tags pt) = length pt.
Proof. apply length_fmap. Qed.

(** The state changes among the live states only. *)
Lemma live_inv s cur f p :
  proc_inv s -> k_procs s !! cur = Some p -> tag (f p) = tag p -> proc_inv (with_kprocs (upd_proc (k_procs s) cur f) s).
Proof.
  intros Hi Hp Hf. eapply frame_inv; [| exact Hi]. split; [| done]. cbn. rewrite (tags_set _ _ _ _ Hp), Hf.
  apply list_insert_id. unfold tags. by rewrite list_lookup_fmap, Hp.
Qed.

Lemma slot_inv s s' i t n :
  proc_inv s -> slot s' i t (tags (k_procs s)) n (k_initproc s) -> 1 <= n <= 2147483647 ->
  tree_inv (<[i := t]> (tags (k_procs s))) n (k_initproc s) -> proc_inv s'.
Proof.
  intros [H1 H2 H3] (Hlt & T & N & I) Hn Ht. split; [| by rewrite N | by rewrite T, N, I].
  assert (E : length (tags (k_procs s')) = length (tags (k_procs s))) by (by rewrite T, length_insert).
  rewrite !tags_length in E. congruence.
Qed.

Lemma skip_runnable f pt cur i :
  skip_not_runnable f pt cur = Ok (Some i) -> exists p, pt !! i = Some p /\ p_state p = RUNNABLE.
Proof.
  revert cur. induction f as [|f IH]; intros [c|] Hs; cbn [skip_not_runnable] in Hs; try done.
  unfold proc_at in Hs. destruct (pt !! c) as [p|] eqn:Hp; [| done]. cbn [rbind] in Hs.
  case_bool_decide; [injection Hs as <-; eauto | eauto].
Qed.

Lemma first_runnable_is pt bs i :
  first_runnable pt bs = Ok (Some i) -> exists p, pt !! i = Some p /\ p_state p = RUNNABLE.
Proof.
  induction bs as [|h bs IH]; cbn [first_runnable]; [done |]. intros Hs. apply rbind_Ok in Hs as ([c|] & Hc & Hs); [| auto].
  injection Hs as ->. by eapply skip_runnable.
Qed.

Lemma dequeue_runnable q i q' :
  pq1_dequeue q = Ok (Some i, q') -> exists pid par, tags (pq_procs q) !! i = Some (Live, pid, par).
Proof.
  unfold pq1_dequeue. intros Hq. apply rbind_Ok in Hq as ([c|] & Hc & Hq); [| done].
  apply first_runnable_is in Hc as (p & Hp & Hst). assert (i = c) as ->.
  { repeat (apply rbind_Ok in Hq as (? & _ & Hq)). by injection Hq. }
  exists (p_pid p), (p_parent p). unfold tags. rewrite list_lookup_fmap, Hp. cbn. unfold tag. by rewrite Hst.
Qed.

Lemma kill_tags pid pt : tags (kill pid pt).2 = tags pt.
Proof.
  unfold kill. destruct (find_from _ pt 0) as [i|]; [| done]. cbn. apply tags_upd. intros p.
  case_bool_decide as Hs; [| done]. cbn in Hs. unfold tag. cbn. by rewrite Hs.
Qed.

Lemma i32_succ n : 1 <= n < 2147483647 -> i32 (n + 1) = n + 1.
Proof. intros Hn. apply i32_small. lia. Qed.

Lemma wait_inv cur s r s' l hk :
  proc_inv s -> wait_scan kend cur l hk s = Ok (r, s') -> (exists pid par, tags (k_procs s) !! cur = Some (Live, pid, par)) ->
  proc_inv s'.
Proof.
  intros Hi Hw (cpid & cpar & Hc). apply wait_post in Hw as [[Hf _] | [(_ & N & I & p & Hp & T) | (i & pid & Ht & _ & Hsl)]].
  - by eapply frame_inv.
  - eapply frame_inv; [| exact Hi]. split; [| done]. rewrite T. apply list_insert_id. rewrite Hc.
    unfold tags in Hc. rewrite list_lookup_fmap, Hp in Hc. cbn in Hc. unfold t_phase. injection Hc as _ <- <-. done.
  - eapply slot_inv; [exact Hi | exact Hsl | apply Hi |]. eapply tree_reap; [apply Hi | exact Ht | apply Hi].
Qed.

Lemma upd_live_inv s cur st :
  proc_inv s -> running s cur -> phase_of st = Live -> proc_inv (with_kprocs (upd_proc (k_procs s) cur (set_state st)) s).
Proof.
  intros Hi (p & Hp & Hst) Hl. eapply live_inv; [done | exact Hp |]. unfold tag. cbn. by rewrite Hst, Hl.
Qed.

Lemma fork2_inv s cur cid r s' :
  proc_inv s -> running s cur -> k_nextpid s < 2147483647 ->
  fork2 kend kdata trapret forkret idup cur cid s = Ok (r, s') -> proc_inv s'.
Proof.
  intros Hi Hr Hn Hf. destruct (running_tag _ _ Hr) as (cpid & cpar & Hc). pose proof (pv_next _ Hi) as Hnx.
  apply fork2_post in Hf as [Hf | (i & pid0 & par & Ht & Hout)]; [by eapply frame_inv |].
  pose proof (ti_free _ _ _ (pv_tree _ Hi) _ _ _ Ht) as ->. rewrite i32_succ in Hout by lia.
  destruct Hout as [(_ & Hsl) | (_ & Hsl)]; (eapply slot_inv; [exact Hi | exact Hsl | lia |]).
  - eapply tree_fail; [apply Hi | exact Ht | lia].
  - eapply tree_fork; [apply Hi | exact Ht | lia | exact Hc].
Qed.

Lemma exit_inv s cur u s' : proc_inv s -> running s cur -> exit kend cur s = Ok (u, s') -> proc_inv s'.
Proof.
  intros Hi Hr He. destruct (running_tag _ _ Hr) as (cpid & cpar & Hc).
  assert (Hpar : cpar <> Some cur).
  { intros ->. destruct (decide (k_initproc s = Some cur)) as [Hin|Hin].
    - destruct (ti_init _ _ _ (pv_tree _ Hi)) as (k & q & Hk & Hk'). rewrite Hin in Hk. injection Hk as <-. congruence.
    - destruct (ti_parent _ _ _ (pv_tree _ Hi) _ _ _ _ Hc) as (j & ? & ? & [= <-] & Hne & _); done. }
  destruct (exit_post _ _ _ _ _ _ (pv_len _ Hi) Hc He Hpar) as (Hin & N & I & T).
  split; [| rewrite N; apply Hi | rewrite T, N, I; eapply tree_exit; [apply Hi | exact Hc | done]].
  assert (E : length (tags (k_procs s')) = length (tags (k_procs s))) by (by rewrite T, length_insert, length_fmap).
  rewrite !tags_length in E. rewrite E. apply Hi.
Qed.

#[local] Strategy expand [wait_resume wait].

Lemma wait_resume_inv s cur r s' : proc_inv s -> running s cur -> wait_resume kend cur s = Ok (r, s') -> proc_inv s'.
Proof.
  intros Hi Hr Hw. unfold wait_resume, wait in Hw. act Hw u s1 H1. destruct (running_tag _ _ Hr) as (pid & par & Ht).
  assert (K : frame s s1).
  { unfold upd_procs, modify in H1. injection H1 as _ <-. split; [| done]. cbn [k_procs with_kprocs]. by apply tags_upd. }
  eapply wait_inv; [by eapply frame_inv | exact Hw |]. exists pid, par. destruct K as (-> & _). exact Ht.
Qed.

Lemma schedule_inv s o s' : proc_inv s -> scheduler_turn s = Ok (o, s') -> proc_inv s'.
Proof.
  intros Hi Ho. unfold scheduler_turn in Ho. apply rbind_Ok in Ho as ([r q] & Hq & Ho).
  apply pq1_dequeue_keeps in Hq as Hk. cbn [fst snd] in *. cbn zeta in Ho. set (s1 := mkKst _ (pq_procs q) _ _ _ _ _ _ _ _) in Ho.
  assert (K1 : frame s s1) by (by split). assert (Hi1 : proc_inv s1) by (by eapply frame_inv).
  destruct r as [i|]; [| injection Ho as _ <-; exact Hi1].
  apply dequeue_runnable in Hq as (pid & par & Ht). cbn [pq_procs] in Ht. clearbody s1. destruct K1 as (T1 & _). rewrite <- T1 in Ht.
  act Ho p s2 H2. apply keeps_get_proc in H2. act Ho u s3 H3. apply keeps_vm in H3.
  assert (K : frame s1 s3) by (etransitivity; eassumption). assert (Hi3 : proc_inv s3) by (by eapply frame_inv).
  act Ho u4 s4 H4. injection Ho as _ <-. destruct K as (T & _). rewrite <- T in Ht.
  unfold set_proc, modify in H4. injection H4 as _ <-.
  unfold tags in Ht. rewrite list_lookup_fmap in Ht. destruct (k_procs s3 !! i) as [p3|] eqn:Hp3; [| done].
  eapply live_inv; [done | exact Hp3 |]. cbn [fmap option_fmap option_map] in Ht. injection Ht as Ht1 Ht2 Ht3.
  unfold tag. cbn [p_state p_pid p_parent set_state phase_of]. by rewrite Ht1.
Qed.

Lemma keeps_inv {A} (c : ST (kst IC) A) s a s' : keeps c -> proc_inv s -> c s = Ok (a, s') -> proc_inv s'.
Proof. intros Hk Hi Hc. eapply frame_inv; [by eapply Hk | done]. Qed.

Lemma set_proc_pipe_keeps cur a b : keeps (set_proc_pipe cur a b).
Proof. unfold set_proc_pipe. keeps_tac. Qed.

Lemma get_proc_pipe_keeps cur : keeps (get_proc_pipe cur).
Proof. unfold get_proc_pipe. keeps_tac. Qed.

Lemma proc_step_inv s s' : proc_inv s -> proc_step s s' -> proc_inv s'.
Proof.
  intros Hi Hstep. revert Hi. destruct Hstep as [s cur cid r s' Hr Hn Hf | s cur u s' Hr He | s cur r s' Hr Hw | s cur r s' Hr Hw
    | s pid | s cur c Hr | s c | s cur u s' Hr Hy | s o s' Ho | s cur a b r s' Hr Hp | s cur r s' Hr Hp
    | s A c a s' Hk Hm | s cur A c a s' Hm | s A c a s' Hm]; intros Hi.
  - by eapply fork2_inv.
  - by eapply exit_inv.
  - unfold wait in Hw. eapply wait_inv; [exact Hi | exact Hw | by apply running_tag].
  - by eapply wait_resume_inv.
  - eapply frame_inv; [| exact Hi]. split; [apply kill_tags | done].
  - destruct Hr as (p & Hp & Hst). eapply live_inv; [done | exact Hp |]. unfold tag. cbn [p_state p_pid p_parent set_state set_chan]. by rewrite Hst.
  - eapply frame_inv; [| exact Hi]. split; [apply tags_wakeup | done].
  - unfold yield, set_proc, modify in Hy. injection Hy as _ <-. by apply upd_live_inv.
  - by eapply schedule_inv.
  - eapply keeps_inv; [apply set_proc_pipe_keeps | exact Hi | exact Hp].
  - eapply keeps_inv; [apply get_proc_pipe_keeps | exact Hi | exact Hp].
  - eapply keeps_inv; [by apply keeps_mux | exact Hi | exact Hm].
  - eapply keeps_inv; [apply keeps_us | exact Hi | exact Hm].
  - eapply keeps_inv; [apply keeps_file | exact Hi | exact Hm].
Qed.
(** ** The first process *)

Record boot_table (s : kst IC) : Prop := {
  bt_len : length (k_procs s) = NPROC;
  bt_next : k_nextpid s = 2;
  bt_tags : exists i, k_initproc s = Some i /\
    forall j t, tags (k_procs s) !! j = Some t -> t = if decide (j = i) then (Live, 1, None) else (Free, 0, None);
  bt_init : forall i, k_initproc s = Some i -> (i < NPROC)%nat
}.

Lemma boot_inv s : boot_table s -> proc_inv s.
Proof.
  intros [H1 H2 (i & Hi & Ht) H4]. specialize (H4 i Hi).
  assert (Hti : tags (k_procs s) !! i = Some (Live, 1, None)).
  { destruct (tags (k_procs s) !! i) as [t|] eqn:E; [rewrite (Ht _ _ E), decide_True; done |].
    apply lookup_ge_None in E. rewrite tags_length in E. lia. }
  split; [done | lia |]. rewrite H2, Hi. split.
  - intros j ph pid par Hj. apply Ht in Hj. case_decide; injection Hj as -> -> ->; [lia | by split; [lia |]].
  - intros j k ph ph' pid par par' Hj Hk Hp. apply Ht in Hj. apply Ht in Hk. repeat case_decide; congruence.
  - intros j pid par Hj. apply Ht in Hj. case_decide; congruence.
  - intros j pid par Hj. apply Ht in Hj. case_decide; congruence.
  - intros j ph pid par Hj Hf Hin. apply Ht in Hj. case_decide; congruence.
  - eauto.
Qed.

Context (initcode initcode_size : Z) (namei_root : ST IC nat).

Lemma userinit_boot s u s' :
  length (k_procs s) = NPROC -> k_nextpid s = 1 ->
  (forall j t, tags (k_procs s) !! j = Some t -> t = (Free, 0, None)) ->
  userinit kend kdata trapret forkret initcode initcode_size namei_root s = Ok (u, s') -> boot_table s'.
Proof.
  intros Hlen Hn Ht Hs. unfold userinit in Hs. act Hs o s1 H1.
  apply allocproc_post in H1 as [(-> & _) | (i & pid0 & par & Hi & Hsl & Ho)]; [done |].
  destruct Ho as [-> | ->]; [done |]. pose proof (Ht _ _ Hi) as [= -> ->]. rewrite Hn in Hsl.
  act Hs u2 s2 H2. unfold set_initproc, modify in H2. injection H2 as _ <-.
  set (s2 := mkKst _ _ _ _ _ _ _ _ _ (Some i)) in Hs.
  assert (Hsl2 : slot s2 i (New, 1, None) (tags (k_procs s)) (i32 (1 + 1)) (Some i)) by (destruct Hsl as (A & B & C & _); done).
  clearbody s2. act Hs pg s3 H3. eapply slot_keeps in H3; [| apply keeps_vm | exact Hsl2].
  act Hs u4 s4 H4. eapply slot_keeps in H4; [| by apply keeps_set_proc | exact H3]. destruct (pg =? 0); [done |].
  act Hs u5 s5 H5. eapply slot_keeps in H5; [| apply keeps_vm | exact H4].
  act Hs u6 s6 H6. eapply slot_keeps in H6; [| by apply keeps_set_proc | exact H5].
  act Hs u7 s7 H7. eapply slot_keeps in H7; [| by apply keeps_set_proc | exact H6].
  act Hs rt s8 H8. eapply slot_keeps in H8; [| apply keeps_ic | exact H7].
  act Hs u9 s9 H9. eapply slot_keeps in H9; [| by apply keeps_set_proc | exact H8].
  eapply (slot_set _ _ _ _ _ (t_phase Live)) in Hs; [| done | exact H9]. destruct Hs as (Hlt & T & N & I).
  assert (E : length (tags (k_procs s')) = length (tags (k_procs s))) by (by rewrite T, length_insert).
  rewrite !tags_length in E. rewrite tags_length in Hlt. split; [lia | by rewrite N | |].
  - exists i. split; [done |]. intros j t. rewrite T. destruct (decide (i = j)) as [<-|Hne].
    + rewrite list_lookup_insert_eq, decide_True by (rewrite ?tags_length; done). by intros [= <-].
    + rewrite list_lookup_insert_ne, decide_False by congruence. apply Ht.
  - intros k. rewrite I. intros [= <-]. lia.
Qed.
End calls.

(** ** The scan of [wait] *)

Section wait.
Context {IC : Type} (kend : Z) (cur : nat).

Definition is_child (p : proc) : bool := bool_decide (p_parent p = Some cur).
Definition is_dead_child (p : proc) : bool := is_child p && bool_decide (p_state p = ZOMBIE).

(** The slot [wait] frees. *)
Definition reaped (p : proc) : proc :=
  set_priority (-1) (set_state UNUSED (set_killed 0 (set_name [] (set_parent None (set_pid 0 (set_kstack 0 p)))))).

Lemma wait_scan_skip (s : kst IC) l1 l2 hk :
  (forall i, i ∈ l1 -> exists p, k_procs s !! i = Some p /\ is_dead_child p = false) ->
  wait_scan kend cur (l1 ++ l2) hk s =
  wait_scan kend cur l2 (hk || existsb (fun i => match k_procs s !! i with Some p => is_child p | None => false end) l1) s.
Proof.
  revert hk. induction l1 as [|i l1 IH]; intros hk Hl; [by rewrite orb_false_r |].
  destruct (Hl i) as (p & Hp & Hd); [left |]. cbn [app wait_scan existsb]. unfold bind at 1, get_proc, proc_at. rewrite Hp. cbn [rbind fst snd].
  assert (Hl' : forall j, j ∈ l1 -> exists p, k_procs s !! j = Some p /\ is_dead_child p = false) by (intros j Hj; apply Hl; by right).
  unfold is_dead_child, is_child in Hd. unfold is_child at 1. destruct (decide (p_parent p = Some cur)) as [He|Hne].
  - rewrite (bool_decide_true _ He) in *. rewrite (bool_decide_false (p_parent p <> Some cur)) by auto.
    cbn [andb] in Hd. rewrite Hd. cbn [orb]. rewrite orb_true_r. by rewrite IH.
  - rewrite (bool_decide_false _ Hne). rewrite (bool_decide_true _ Hne). cbn [orb]. by apply IH.
Qed.

Ltac kst_simpl :=
  unfold with_kprocs; cbn [rbind fst snd k_vm k_procs k_queue k_mux k_mgr k_file k_pipe k_ic k_nextpid k_initproc].

Lemma wait_reap (s : kst IC) i p l hk x fl :
  KERNBASE < kend -> k_procs s !! i = Some p -> is_dead_child p = true ->
  space kend (k_vm s) (p_pgdir p) (p_kstack p :: x) fl -> p_cid p < Z.of_nat (length (k_mgr s)) ->
  exists s', wait_scan kend cur (i :: l) hk s = Ok (Some (p_pid p), s') /\ k_procs s' = upd_proc (k_procs s) i reaped /\
    exists fl', kmem_free kend (v_kmem (k_vm s')) fl' /\ fl' ≡ₚ p_kstack p :: own (k_vm s) (p_pgdir p) ++ fl.
Proof.
  intros Hk Hp Hd Hsp Hcid. apply andb_prop in Hd as [Hd1 Hd2]. unfold is_child in Hd1. apply bool_decide_eq_true in Hd1.
  cbn [wait_scan]. unfold bind at 1, get_proc, proc_at. rewrite Hp. cbn [rbind fst snd].
  rewrite bool_decide_false by (intros H; by apply H). rewrite Hd2.
  destruct (space_kfree kend (k_vm s) (p_pgdir p) (p_kstack p) x fl Hsp) as ([] & v1 & Hf1 & Hsp1 & Ho1 & _).
  destruct (freevm_spec kend Hk (p_pgdir p) v1 x (p_kstack p :: fl) Hsp1) as ([] & v2 & Hf2 & fl2 & Hfl2 & Hpm2 & _).
  unfold bind, on_vm, set_proc, modify. kst_simpl. rewrite Hf1. kst_simpl. rewrite Hf2. kst_simpl.
  assert (Hpt : upd_proc (upd_proc (k_procs s) i (set_kstack 0)) i
    (fun p => set_priority (-1) (set_state UNUSED (set_killed 0 (set_name [] (set_parent None (set_pid 0 p)))))) = upd_proc (k_procs s) i reaped).
  { unfold upd_proc. by rewrite list_alter_alter. }
  rewrite Ho1 in Hpm2.
  assert (Hfin : exists fl', kmem_free kend (v_kmem v2) fl' /\ fl' ≡ₚ p_kstack p :: own (k_vm s) (p_pgdir p) ++ fl).
  { exists fl2. split; [done |]. by rewrite Hpm2, Permutation_middle. }
  destruct (Z.leb_spec 0 (p_cid p)).
  - unfold on_mgr, leave_container. kst_simpl.
    destruct (arr_get_in (k_mgr s) (p_cid p)) as [c Hc]; [lia |]. rewrite Hc. cbn [rbind].
    destruct (0 <? _); [unfold upd_container; rewrite Hc; cbn [rbind]; rewrite arr_set_in by lia |]; cbn [rbind fst snd ret];
      eexists; (split; [done |]); cbn [k_procs k_vm]; by rewrite Hpt.
  - unfold ret. cbn [rbind fst snd]. eexists. split; [done |]. cbn [k_procs k_vm]. by rewrite Hpt.
Qed.
End wait.

(** * Properties of the process tree *)

(** C16: from the table the boot leaves, whatever sequence of forks, exits,
    waits, kills, sleeps, wakeups, yields and scheduling decisions (and of
    mutex, file and memory calls) follows: no two processes share an
    identifier, every process but init has a parent that is alive (so every
    zombie has someone to reap it), and init is alive. *)
Theorem process_tree_safe {IC} `{InodeClose IC} kend kdata trapret forkret idup (s0 s : kst IC) :
  boot_table s0 -> rtc (proc_step kend kdata trapret forkret idup) s0 s ->
  (forall i j p q, k_procs s !! i = Some p -> k_procs s !! j = Some q -> p_state p <> UNUSED ->
     p_pid p = p_pid q -> i = j) /\
  (forall i p, k_procs s !! i = Some p -> p_state p <> UNUSED -> k_initproc s <> Some i ->
     exists j q, p_parent p = Some j /\ k_procs s !! j = Some q /\ phase_of (p_state q) = Live) /\
  (exists i p, k_initproc s = Some i /\ k_procs s !! i = Some p /\ phase_of (p_state p) = Live).
Proof.
  intros Hb Hr. assert (Hi : proc_inv s).
  { eapply (rtc_invariant _ proc_inv); [| by apply boot_inv | exact Hr]. intros x y. apply proc_step_inv. }
  destruct (pv_tree _ Hi) as [H1 H2 H3 H4 H5 H6].
  assert (Ht : forall i p, k_procs s !! i = Some p -> tags (k_procs s) !! i = Some (tag p)).
  { intros i p Hp. unfold tags. by rewrite list_lookup_fmap, Hp. }
  assert (Ht' : forall i ph pid par, tags (k_procs s) !! i = Some (ph, pid, par) ->
    exists p, k_procs s !! i = Some p /\ phase_of (p_state p) = ph).
  { intros i ph pid par Hi'. unfold tags in Hi'. rewrite list_lookup_fmap in Hi'. destruct (k_procs s !! i); [| done].
    injection Hi' as <- _ _. eauto. }
  assert (Hfree : forall p, p_state p <> UNUSED -> phase_of (p_state p) <> Free) by (intros p Hp; by destruct (p_state p)).
  split; [| split].
  - intros i j p q Hp Hq Hu He. apply Ht in Hp. apply Ht in Hq. unfold tag in Hp, Hq. rewrite <- He in Hq.
    eapply H2; [exact Hp | exact Hq |]. apply H1 in Hp as [_ Hp]. apply Hfree, Hp in Hu. lia.
  - intros i p Hp Hu Hin. apply Ht in Hp. destruct (H5 _ _ _ _ Hp (Hfree p Hu) Hin) as (j & q' & par' & Hpar & _ & Hj).
    destruct (Ht' _ _ _ _ Hj) as (q & Hq & Hl). eauto.
  - destruct H6 as (k & pid & Hk & Hl). destruct (Ht' _ _ _ _ Hl) as (q & Hq & Hlq). eauto.
Qed.

(** A table with init only. *)
Definition demo_kst : kst unit :=
  mkKst (mkVst (mkKmem 1 0 (fun _ => 0)) []) (set_pid 1 (set_state RUNNABLE proc_zero) :: replicate 63 proc_zero)
    (replicate 10 None) [] [] [] ∅ tt 2 (Some 0%nat).

Lemma process_tree_safe_witness :
  exists i p, k_initproc demo_kst = Some i /\ (kill 1 (k_procs demo_kst)).2 !! i = Some p /\ phase_of (p_state p) = Live.
Proof.
  destruct (process_tree_safe 0 0 0 0 (fun _ => ret tt) demo_kst (with_kprocs (kill 1 (k_procs demo_kst)).2 demo_kst)) as (_ & _ & H).
  - split; [done | done | | intros i [= <-]; unfold NPROC; lia]. exists 0%nat. split; [done |].
    intros j t Ht. unfold tags in Ht. rewrite list_lookup_fmap in Ht.
    destruct (k_procs demo_kst !! j) as [q|] eqn:Hq; [| done]. injection Ht as <-. destruct j as [|j]; [by injection Hq as <- |].
    rewrite decide_False by done. change (replicate 63 proc_zero !! j = Some q) in Hq.
    apply lookup_replicate in Hq as [-> _]. done.
  - apply rtc_once, ps_kill.
  - exact H.
Defined.

(** C18: [wait] returns or goes to sleep, on every branch. With an exited
    child (the first one in table order) it returns that child's identifier,
    clears the slot, and gives the allocator back exactly the child's kernel
    stack, page tables and private pages. Otherwise it returns -1 without any
    change if the caller has no children or is killed, and goes to sleep on
    itself if not. *)
Theorem wait_correct {IC} kend cur cp (s : kst IC) :
  KERNBASE < kend -> length (k_procs s) = NPROC -> k_procs s !! cur = Some cp ->
  (forall i p, find_from (is_dead_child cur) (k_procs s) 0 = Some i -> k_procs s !! i = Some p ->
     p_cid p < Z.of_nat (length (k_mgr s)) /\ exists x l, space kend (k_vm s) (p_pgdir p) (p_kstack p :: x) l) ->
  exists r s', wait kend cur s = Ok (r, s') /\
    match find_from (is_dead_child cur) (k_procs s) 0 with
    | Some i => exists p, k_procs s !! i = Some p /\ p_state p = ZOMBIE /\ p_parent p = Some cur /\
        r = Some (p_pid p) /\ k_procs s' = upd_proc (k_procs s) i reaped /\
        forall x l, space kend (k_vm s) (p_pgdir p) (p_kstack p :: x) l ->
          exists l', kmem_free kend (v_kmem (k_vm s')) l' /\ l' ≡ₚ p_kstack p :: own (k_vm s) (p_pgdir p) ++ l
    | None =>
        if existsb (is_child cur) (k_procs s) && (p_killed cp =? 0)
        then r = None /\ s' = with_kprocs (Sleep.sleep cur (ChProc cur) (k_procs s)) s
        else r = Some (-1) /\ s' = s
    end.
Proof.
  intros Hk Hlen Hcur Hsp. unfold wait. destruct (find_from (is_dead_child cur) (k_procs s) 0) as [i|] eqn:Hf.
  - pose proof Hf as Hf'. apply find_from_Some in Hf' as (j & p & Hij & Hp & Hd & Hmin). cbn [Nat.add] in Hij. subst j.
    destruct (Hsp i p eq_refl Hp) as (Hcid & x & l & Hs). pose proof (lookup_lt_Some _ _ _ Hp) as Hlt.
    replace NPROC with (i + S (NPROC - S i))%nat by lia. rewrite seq_app. cbn [seq]. rewrite wait_scan_skip.
    2: { intros k Hki%elem_of_seq. destruct (lookup_lt_is_Some_2 (k_procs s) k) as [q Hq]; [lia |]. exists q. split; [done |].
         apply (Hmin k); [lia | done]. }
    destruct (wait_reap kend cur s i p (seq (S (0 + i)) (NPROC - S i)) (false || existsb
      (fun i => match k_procs s !! i with Some p => is_child cur p | None => false end) (seq 0 i)) x l Hk Hp Hd Hs Hcid)
      as (s' & He & Hpt & Hfl). exists (Some (p_pid p)), s'. split; [exact He |].
    apply andb_prop in Hd as [Hd1 Hd2]. apply bool_decide_eq_true in Hd1. apply bool_decide_eq_true in Hd2.
    exists p. split; [done |]. split; [done |]. split; [done |]. split; [done |]. split; [done |].
    intros x' l' Hs'. destruct (wait_reap kend cur s i p (seq (S (0 + i)) (NPROC - S i)) (false || existsb
      (fun i => match k_procs s !! i with Some p => is_child cur p | None => false end) (seq 0 i)) x' l' Hk Hp
      ltac:(unfold is_dead_child, is_child; by rewrite Hd1, Hd2, !bool_decide_true) Hs' Hcid) as (s2 & He2 & _ & Hfl2).
    rewrite He in He2. by injection He2 as <-.
  - apply find_from_None in Hf. rewrite <- (app_nil_r (seq 0 NPROC)), wait_scan_skip.
    2: { intros k Hki%elem_of_seq. destruct (lookup_lt_is_Some_2 (k_procs s) k) as [q Hq]; [lia |]. exists q. split; [done |].
         by eapply Forall_lookup_1 in Hf; [| exact Hq]. }
    assert (Hex : existsb (fun i => match k_procs s !! i with Some p => is_child cur p | None => false end) (seq 0 NPROC) =
      existsb (is_child cur) (k_procs s)).
    { apply eq_true_iff_eq. rewrite !existsb_exists. split.
      - intros (k & _ & Hc). destruct (k_procs s !! k) as [q|] eqn:Hq; [| done]. exists q. split; [| done].
        apply list_elem_of_In. by eapply list_elem_of_lookup_2.
      - intros (q & Hq & Hc). apply list_elem_of_In, list_elem_of_lookup in Hq as [k Hq]. exists k. rewrite Hq. split; [| done].
        apply list_elem_of_In, elem_of_seq. apply lookup_lt_Some in Hq. lia. }
    rewrite Hex. cbn [wait_scan orb]. unfold bind at 1, get_proc, proc_at. rewrite Hcur. cbn [rbind fst snd].
    destruct (existsb (is_child cur) (k_procs s)), (p_killed cp =? 0); cbn [negb orb andb]; eexists _, _; split; done.
Qed.

(** A parent and its zombie. *)
Definition demo_zombie : kst unit :=
  mkKst demo_vst
    (set_pid 1 (set_state RUNNING proc_zero) ::
     set_cid (-1) (set_pid 2 (set_parent (Some 0%nat) (set_pgdir 0x80400000 (set_kstack 0x80700000 (set_state ZOMBIE proc_zero))))) ::
     replicate 62 proc_zero)
    (replicate 10 None) [] [] [] ∅ tt 3 (Some 0%nat).

Lemma wait_correct_witness :
  exists r s', wait 0x80200000 0 demo_zombie = Ok (r, s') /\ r = Some 2.
Proof.
  destruct (wait_correct 0x80200000 0 (set_pid 1 (set_state RUNNING proc_zero)) demo_zombie) as (r & s' & He & Hm).
  - unfold KERNBASE. lia.
  - done.
  - done.
  - intros i p Hf Hp. assert (i = 1%nat) as -> by (by injection Hf). injection Hp as <-. split; [cbn; lia |].
    destruct demo_space2 as [Hs _]. by exists [0x80800000], [0x80500000; 0x80600000].
  - exists r, s'. split; [exact He |]. change (find_from (is_dead_child 0) (k_procs demo_zombie) 0) with (Some 1%nat) in Hm.
    destruct Hm as (p & Hp & _ & _ & -> & _). by injection Hp as <-.
Defined.
