(* ===== verification/Exec.v ===== *)
(** * Loading programs (exec.c, elf.h, loaduvm of vm.c)

    [exec] replaces the memory of a process by a program from the file system:
    it reads the headers of the ELF file, loads the segments into a fresh
    address space, puts the arguments on a stack and switches over; on an
    error it takes down what it has built. The file system is used through
    the operations of the class [ProgFs]. *)

From S2P Require Import Prelude Mem CString Params Bytes Cache Kalloc ProcDef Container Vm Proc.

(** ** elf.h *)

Definition ELF_MAGIC : Z := 0x464C457F.
Definition ELF_PROG_LOAD : Z := 1.

Record elfhdr := mkElf {
  e_magic : Z;
  e_elf : list Z;
  e_type : Z;
  e_machine : Z;
  e_version : Z;
  e_entry : Z;
  e_phoff : Z;
  e_shoff : Z;
  e_flags : Z;
  e_ehsize : Z;
  e_phentsize : Z;
  e_phnum : Z;
  e_shentsize : Z;
  e_shnum : Z;
  e_shstrndx : Z
}.

Definition ELFHDR : Z := 52.

(** The structure in the bytes that were read. *)
Definition elf_of (d : list Z) : elfhdr :=
  mkElf (get32 d 0) (take 12 (drop 4 d)) (get16 d 16) (get16 d 18) (get32 d 20) (get32 d 24) (get32 d 28) (get32 d 32)
    (get32 d 36) (get16 d 40) (get16 d 42) (get16 d 44) (get16 d 46) (get16 d 48) (get16 d 50).

Record proghdr := mkPh {
  ph_type : Z;
  ph_off : Z;
  ph_vaddr : Z;
  ph_paddr : Z;
  ph_filesz : Z;
  ph_memsz : Z;
  ph_flags : Z;
  ph_align : Z
}.

Definition PROGHDR : Z := 32.

Definition ph_of (d : list Z) : proghdr :=
  mkPh (get32 d 0) (get32 d 4) (get32 d 8) (get32 d 12) (get32 d 16) (get32 d 20) (get32 d 24) (get32 d 28).

(** ** The file system *)

Class ProgFs (F : Type) := {
  pf_begin_op : ST F unit;
  pf_end_op : ST F unit;
  pf_namei : cstring -> ST F (option nat);
  pf_ilock : nat -> ST F unit;
  pf_readi : nat -> Z -> Z -> ST F (Z * list Z);
  pf_iunlockput : nat -> ST F unit
}.

Record xst (F : Type) := mkX { x_fs : F; x_vm : vst }.
Arguments mkX {F}.
Arguments x_fs {F}.
Arguments x_vm {F}.

Definition tf_set_entry (eip esp : Z) (t : trapframe) : trapframe :=
  mkTrapframe (tf_edi t) (tf_esi t) (tf_ebp t) (tf_oesp t) (tf_ebx t) (tf_edx t)
    (tf_ecx t) (tf_eax t) (tf_gs t) (tf_fs t) (tf_es t) (tf_ds t) (tf_trapno t) (tf_err t)
    eip (tf_cs t) (tf_eflags t) esp (tf_ss t).

(** The words of [ustack] as bytes. *)
Definition le32 (w : Z) : list Z := [w mod 256; w / 256 mod 256; w / 65536 mod 256; w / 16777216 mod 256].
Definition words_bytes (ws : list Z) : list Z := concat (le32 <$> ws).

(** The loop over [s]: the text after the last slash. *)
Fixpoint last_name (s last : cstring) : cstring :=
  match s with
  | [] => last
  | c :: s' => last_name s' (if c =? slash then s' else last)
  end.

Section exec.
Context {F : Type} `{ProgFs F} (kend kdata : Z).

Abbreviation X := (ST (xst F)).

Definition on_fs {A} (c : ST F A) : X A := lift_st x_fs (fun f s => mkX f (x_vm s)) c.
Definition on_mem {A} (c : ST vst A) : X A := lift_st x_vm (fun v s => mkX (x_fs s) v) c.

(** ** loaduvm *)

Fixpoint loaduvm_loop (fuel : nat) (pgdir addr : Z) (ip : nat) (offset sz i : Z) : X Z :=
  if sz <=? i then ret 0
  else
    match fuel with
    | O => fun _ => Hang
    | S f =>
        let* pte := on_mem (walkpgdir pgdir (u32 (addr + i)) false) in
        if pte =? 0 then panic "loaduvm: address should exist"
        else
          let* e := on_mem (rd32 pte) in
          let pa := PTE_ADDR e in
          let n := if sz - i <? PGSIZE then sz - i else PGSIZE in
          let* (r, x) := on_fs (pf_readi ip (u32 (offset + i)) n) in
          on_mem (wrbytes (P2V pa) x) ;;;
          if negb (u32 r =? n) then ret (-1)
          else loaduvm_loop f pgdir addr ip offset sz (u32 (i + PGSIZE))
    end.

Definition loaduvm (pgdir addr : Z) (ip : nat) (offset sz : Z) : X Z :=
  if negb (addr mod PGSIZE =? 0) then panic "loaduvm: addr must be page aligned"
  else loaduvm_loop (Z.to_nat (sz / PGSIZE + 1)) pgdir addr ip offset sz 0.

(** ** exec *)

(** The label [bad]. *)
Definition exec_bad (pgdir : Z) (ip : option nat) : X Z :=
  (if pgdir =? 0 then ret tt else on_mem (freevm kend pgdir)) ;;;
  match ip with
  | Some ip => on_fs (pf_iunlockput ip) ;;; on_fs pf_end_op ;;; ret (-1)
  | None => ret (-1)
  end.

(** The loop over the program headers, with [n] of them to go; [None] is
    [goto bad], and [off] is an [int]. *)
Fixpoint load_segments (n : nat) (ip : nat) (pgdir off sz : Z) : X (option Z) :=
  match n with
  | O => ret (Some sz)
  | S n' =>
      let next sz := if 2147483647 <? off + PROGHDR then undef else load_segments n' ip pgdir (off + PROGHDR) sz in
      let* (r, d) := on_fs (pf_readi ip (u32 off) PROGHDR) in
      if negb (u32 r =? PROGHDR) then ret None
      else
        let ph := ph_of d in
        if negb (ph_type ph =? ELF_PROG_LOAD) then next sz
        else if ph_memsz ph <? ph_filesz ph then ret None
        else if u32 (ph_vaddr ph + ph_memsz ph) <? ph_vaddr ph then ret None
        else
          let* sz := on_mem (allocuvm kend pgdir sz (u32 (ph_vaddr ph + ph_memsz ph))) in
          if sz =? 0 then ret None
          else if negb (ph_vaddr ph mod PGSIZE =? 0) then ret None
          else
            let* r := loaduvm pgdir (ph_vaddr ph) ip (ph_off ph) (ph_filesz ph) in
            if r <? 0 then ret None else next sz
  end.

(** The loop over the arguments: the stack pointer and the words for
    [ustack]. *)
Fixpoint push_args (pgdir : Z) (argv : list cstring) (argc : nat) (sp : Z) : X (option (Z * list Z)) :=
  match argv with
  | [] => ret (Some (sp, []))
  | a :: argv' =>
      if (MAXARG <=? argc)%nat then ret None
      else
        let sp := Z.land (u32 (sp - (Z.of_nat (length a) + 1))) (Z.lnot 3) in
        let* r := on_mem (copyout pgdir sp (a ++ [0])) in
        if r <? 0 then ret None
        else
          let* rest := push_args pgdir argv' (S argc) sp in
          match rest with
          | None => ret None
          | Some (sp', ws) => ret (Some (sp', sp :: ws))
          end
  end.

(** The stack of the new program: two pages, of which the first is closed to
    the user, with the arguments on the second. The result is the size and the
    stack pointer. *)
Definition exec_stack (pgdir sz : Z) (argv : list cstring) : X (option (Z * Z)) :=
  let sz := PGROUNDUP sz in
  let* sz := on_mem (allocuvm kend pgdir sz (u32 (sz + 2 * PGSIZE))) in
  if sz =? 0 then ret None
  else
    on_mem (clearpteu pgdir (u32 (sz - 2 * PGSIZE))) ;;;
    let* pushed := push_args pgdir argv 0 sz in
    match pushed with
    | None => ret None
    | Some (sp, ws) =>
        let argc := Z.of_nat (length ws) in
        let ustack := 0xffffffff :: argc :: u32 (sp - (argc + 1) * 4) :: ws ++ [0] in
        let sp := u32 (sp - (3 + argc + 1) * 4) in
        let* r := on_mem (copyout pgdir sp (words_bytes ustack)) in
        if r <? 0 then ret None else ret (Some (sz, sp))
    end.

(** From the first read on: the size, the stack pointer and the entry point,
    with the directory; on an error what [bad] has to take down. *)
Inductive built := Built (pgdir sz sp entry : Z) | Bad (pgdir : Z) (ip : option nat).

Definition exec_build (ip : nat) (argv : list cstring) : X built :=
  let* (r, d) := on_fs (pf_readi ip 0 ELFHDR) in
  if negb (u32 r =? ELFHDR) then ret (Bad 0 (Some ip))
  else
    let elf := elf_of d in
    if negb (e_magic elf =? ELF_MAGIC) then ret (Bad 0 (Some ip))
    else
      let* pgdir := on_mem (setupkvm kend kdata) in
      if pgdir =? 0 then ret (Bad 0 (Some ip))
      else
        let* loaded := load_segments (Z.to_nat (e_phnum elf)) ip pgdir (i32 (e_phoff elf)) 0 in
        match loaded with
        | None => ret (Bad pgdir (Some ip))
        | Some sz =>
            on_fs (pf_iunlockput ip) ;;;
            on_fs pf_end_op ;;;
            let* st := exec_stack pgdir sz argv in
            match st with
            | None => ret (Bad pgdir None)
            | Some (sz, sp) => ret (Built pgdir sz sp (e_entry elf))
            end
        end.

(** [p] is the current process; the result is what the call returns and the
    process afterwards. The two messages on the console are left out. *)
Definition exec (cs : manager) (p : proc) (pathcmd : cstring) (argv : list cstring) : X (Z * proc) :=
  let* path := lift (fits 128 pathcmd) in
  let* (r, path, p) := lift (setpath (-1) path 2 cs p) in
  if r <? 0 then ret (-1, p)
  else
    on_fs pf_begin_op ;;;
    let* ip := on_fs (pf_namei path) in
    match ip with
    | None => on_fs pf_end_op ;;; ret (-1, p)
    | Some ip =>
        on_fs (pf_ilock ip) ;;;
        let* b := exec_build ip argv in
        match b with
        | Bad pgdir ip => let* r := exec_bad pgdir ip in ret (r, p)
        | Built pgdir sz sp entry =>
            let oldpgdir := p_pgdir p in
            let p := set_name (short_name (last_name path path)) p in
            let p := set_tf (tf_set_entry entry sp (p_tf p)) (set_sz sz (set_pgdir pgdir p)) in
            on_mem (switchuvm p) ;;;
            on_mem (freevm kend oldpgdir) ;;;
            ret (0, p)
        end
    end.
End exec.
