(* ===== verification/ExecProof.v ===== *)
(** * What exec does

    The promise of the file system, the meaning of an executable file as the
    memory, the entry point and the stack of a program, and the proof that
    [exec] builds exactly that, or leaves everything as it was. *)

From S2P Require Import Prelude Mem CString Params Bytes Cache Kalloc ProcDef Container Vm VmProof VmCopy UserMem Proc Exec.

(** ** The file system *)

(** What [readi] gives of a file with the bytes [data]. *)
Definition file_read (data : list Z) (off n : Z) : Z * list Z :=
  if (Z.of_nat (length data) <? off) || (u32 (off + n) <? off) then (-1, [])
  else let x := take (Z.to_nat n) (drop (Z.to_nat off) data) in (Z.of_nat (length x), x).

Definition bytes_ok (d : list Z) : Prop := Forall (fun b => 0 <= b < 256) d.

(** The file system is [pf_idle], or in an operation ([pf_busy]), which may
    have a reference to a file ([pf_held]) and its lock ([pf_locked]);
    [tree] is what it holds at a path. *)
Class ProgFsSpec (F : Type) `{ProgFs F} (tree : cstring -> option (list Z)) (regular : cstring -> Prop) := {
  pf_idle : F -> Prop;
  pf_busy : F -> Prop;
  pf_held : F -> nat -> list Z -> Prop;
  pf_locked : F -> nat -> list Z -> Prop;
  pf_begin_law s : pf_idle s -> runs pf_begin_op s (fun _ s' => pf_busy s');
  pf_end_law s : pf_busy s -> runs pf_end_op s (fun _ s' => pf_idle s');
  pf_namei_law s path : pf_busy s -> regular path -> runs (pf_namei path) s (fun r s' =>
    match tree path with
    | None => r = None /\ pf_busy s'
    | Some data => exists ip, r = Some ip /\ pf_held s' ip data
    end);
  pf_ilock_law s ip data : pf_held s ip data -> runs (pf_ilock ip) s (fun _ s' => pf_locked s' ip data);
  pf_readi_law s ip data off n : pf_locked s ip data -> 0 <= off < 4294967296 -> 0 <= n <= PGSIZE ->
    runs (pf_readi ip off n) s (fun r s' => r = file_read data off n /\ pf_locked s' ip data);
  pf_put_law s ip data : pf_locked s ip data -> runs (pf_iunlockput ip) s (fun _ s' => pf_busy s');
  pf_size_law s ip data : pf_locked s ip data ->
    Z.of_nat (length data) < 2147483648 /\ bytes_ok data
}.

(** ** The meaning of an executable file *)

(** The memory of the program: its size and its bytes. *)
Record image := mkImage { im_sz : Z; im_byte : Z -> Z }.

Definition slice (data : list Z) (off n : Z) : list Z := take (Z.to_nat n) (drop (Z.to_nat off) data).

(** A segment is copied to its place; the rest is zero. *)
Definition ref_segment (data : list Z) (ph : proghdr) (im : image) : option image :=
  let sz := Z.max (im_sz im) (ph_vaddr ph + ph_memsz ph) in
  if (ph_memsz ph <? ph_filesz ph) || (KERNBASE <=? ph_vaddr ph + ph_memsz ph) || (sz =? 0) ||
     negb (ph_vaddr ph mod PGSIZE =? 0) ||
     (negb (ph_filesz ph =? 0) && (Z.of_nat (length data) <? ph_off ph + ph_filesz ph))
  then None
  else Some (mkImage sz (write_bytes (im_byte im) (ph_vaddr ph) (slice data (ph_off ph) (ph_filesz ph)))).

Fixpoint ref_load (n : nat) (data : list Z) (off : Z) (im : image) : option image :=
  match n with
  | O => Some im
  | S n' =>
      if Z.of_nat (length data) <? off + PROGHDR then None
      else
        let ph := ph_of (slice data off PROGHDR) in
        im ← (if ph_type ph =? ELF_PROG_LOAD then ref_segment data ph im else Some im);
        ref_load n' data (off + PROGHDR) im
  end.

(** The strings below [sp], down to the end of the stack at [base]. *)
Fixpoint ref_push (base : Z) (argv : list cstring) (argc : nat) (sp : Z) (f : Z -> Z) : option (Z * list Z * (Z -> Z)) :=
  match argv with
  | [] => Some (sp, [], f)
  | a :: argv' =>
      let sp' := (sp - (Z.of_nat (length a) + 1)) / 4 * 4 in
      if (MAXARG <=? argc)%nat || (sp' <? base) then None
      else
        r ← ref_push base argv' (S argc) sp' (write_bytes f sp' (a ++ [0]));
        Some (r.1.1, sp' :: r.1.2, r.2)
  end.

Record program := mkProgram { pr_sz : Z; pr_sp : Z; pr_entry : Z; pr_byte : Z -> Z }.

(** The guard page and the stack page above the image, with the strings, a
    fake return address and the arguments of [main]. *)
Definition ref_stack (entry : Z) (im : image) (argv : list cstring) : option program :=
  let sz := (npages (im_sz im) + 2) * PGSIZE in
  let base := sz - PGSIZE in
  if KERNBASE <=? sz then None
  else
    r ← ref_push base argv 0 sz (im_byte im);
    let '(sp, ws, f) := r in
    let argc := Z.of_nat (length ws) in
    let sp' := sp - (argc + 4) * 4 in
    if sp' <? base then None
    else Some (mkProgram sz sp' entry (write_bytes f sp' (words_bytes (0xffffffff :: argc :: (sp - (argc + 1) * 4) :: ws ++ [0])))).

Definition ref_exec (data : list Z) (argv : list cstring) : option program :=
  let elf := elf_of (slice data 0 ELFHDR) in
  if (Z.of_nat (length data) <? ELFHDR) || negb (e_magic elf =? ELF_MAGIC) then None
  else
    im ← ref_load (Z.to_nat (e_phnum elf)) data (e_phoff elf) (mkImage 0 (fun _ => 0));
    ref_stack (e_entry elf) im argv.

Lemma slice_length data off n : 0 <= off -> 0 <= n -> off + n <= Z.of_nat (length data) -> Z.of_nat (length (slice data off n)) = n.
Proof. intros Ho Hn Hl. unfold slice. rewrite length_take, length_drop. lia. Qed.

Lemma file_read_ok data off n : 0 <= off -> 0 <= n -> off + n <= Z.of_nat (length data) < 2147483648 ->
  file_read data off n = (n, slice data off n).
Proof.
  intros Ho Hn Hl. unfold file_read. rewrite u32_small by lia.
  rewrite (proj2 (orb_false_iff _ _)) by (split; apply Z.ltb_ge; lia). cbv zeta. fold (slice data off n). by rewrite slice_length by lia.
Qed.

Lemma file_read_short data off n :
  0 <= off < 4294967296 -> 0 < n <= PGSIZE -> Z.of_nat (length data) < off + n -> Z.of_nat (length data) < 2147483648 ->
  (u32 (file_read data off n).1 =? n) = false /\ Z.of_nat (length (file_read data off n).2) < n.
Proof.
  intros Ho Hn Hl Hd. unfold file_read, PGSIZE in *. destruct (_ || _) eqn:Hc; cbn [fst snd].
  - change (u32 (-1)) with 4294967295. split; [apply Z.eqb_neq; lia | cbn; lia].
  - apply orb_false_iff in Hc as [Hc _]. apply Z.ltb_ge in Hc. rewrite !length_take, !length_drop.
    rewrite u32_small by lia. split; [apply Z.eqb_neq |]; lia.
Qed.

Lemma ref_segment_sz data ph im im' : ref_segment data ph im = Some im' -> im_sz im <= im_sz im'.
Proof. unfold ref_segment. case_match; [done |]. intros [= <-]. cbn. lia. Qed.

Lemma ref_load_sz n data : forall off im im', ref_load n data off im = Some im' -> im_sz im <= im_sz im'.
Proof.
  induction n as [|n IH]; intros off im im'; cbn [ref_load]; [by intros [= ->] |].
  case_match; [done |]. intros (im1 & H1 & H2)%bind_Some. apply IH in H2.
  case_match; [apply ref_segment_sz in H1; lia | injection H1 as ->; lia].
Qed.

Lemma byte_at_range d i : bytes_ok d -> 0 <= byte_at d i < 256.
Proof. intros Hd. unfold byte_at. destruct (d !! i) eqn:Hi; cbn; [by eapply Forall_lookup_1 in Hi; [| exact Hd] | lia]. Qed.

Lemma get32_range d off : bytes_ok d -> 0 <= get32 d off < 4294967296.
Proof.
  intros Hd. unfold get32. pose proof (byte_at_range d off Hd). pose proof (byte_at_range d (off + 1) Hd).
  pose proof (byte_at_range d (off + 2) Hd). pose proof (byte_at_range d (off + 3) Hd). lia.
Qed.

Lemma slice_ok data off n : bytes_ok data -> bytes_ok (slice data off n).
Proof. intros Hd. unfold slice. by apply Forall_take, Forall_drop. Qed.

Lemma ref_push_count base argv : forall argc sp f sp' ws f',
  ref_push base argv argc sp f = Some (sp', ws, f') -> (argc <= MAXARG)%nat -> (argc + length ws <= MAXARG)%nat.
Proof.
  induction argv as [|a argv IH]; intros argc sp f sp' ws f'; cbn [ref_push]; [intros [= <- <- <-]; simpl; lia |].
  destruct (Nat.leb_spec MAXARG argc); [done |]. case_match; [done |]. intros ([[sp2 ws2] f2] & Hr & [= <- <- <-])%bind_Some Ha.
  apply IH in Hr; [| lia]. simpl. lia.
Qed.

(** ** What [main] finds on its stack *)

(** A fake return address, [argc] and [argv], which points to the words after
    it, each the address of a string. *)
Definition passed (m : mem) (sp : Z) (argv : list cstring) : Prop :=
  load32 m sp = 0xffffffff /\ load32 m (sp + 4) = Z.of_nat (length argv) /\ load32 m (sp + 8) = sp + 12 /\
  (forall i a, argv !! i = Some a -> cstr m (load32 m (sp + 12 + 4 * Z.of_nat i)) a) /\
  load32 m (sp + 12 + 4 * Z.of_nat (length argv)) = 0.

Lemma cstr_written f p a : Forall (fun c => c <> 0) a -> cstr (write_bytes f p (a ++ [0])) p a.
Proof.
  intros Ha. assert (Hgen : forall m q, (forall i c, (a ++ [0]) !! i = Some c -> m (q + Z.of_nat i) = c) -> cstr m q a).
  { induction Ha as [|c a Hc Ha IH]; intros m q Hm; cbn.
    - rewrite <- (Hm 0%nat 0); [f_equal; lia | done].
    - split; [rewrite <- (Hm 0%nat c); [f_equal; lia | done] |]. split; [done |]. apply IH. intros i c' Hi.
      rewrite <- (Hm (S i) c' Hi). f_equal. lia. }
  apply Hgen. intros i c Hi. pose proof (lookup_lt_Some _ _ _ Hi). rewrite write_bytes_in by lia.
  replace (Z.to_nat (p + Z.of_nat i - p)) with i by lia. by rewrite Hi.
Qed.

Lemma words_bytes_length ws : length (words_bytes ws) = (4 * length ws)%nat.
Proof. unfold words_bytes. induction ws as [|w ws IH]; [done |]. cbn [fmap list_fmap concat length le32 app]. rewrite IH. lia. Qed.

Lemma words_bytes_lookup ws i (j : nat) w : ws !! i = Some w -> (j < 4)%nat -> words_bytes ws !! (4 * i + j)%nat = le32 w !! j.
Proof.
  revert i. induction ws as [|w0 ws IH]; intros [|i] Hi Hj; try done.
  - injection Hi as ->. unfold words_bytes. cbn [fmap list_fmap concat]. rewrite lookup_app_l; [done |]. cbn. lia.
  - unfold words_bytes. cbn [fmap list_fmap concat]. rewrite lookup_app_r by (cbn [length le32]; lia). cbn [length le32].
    replace (4 * S i + j - 4)%nat with (4 * i + j)%nat by lia. by apply IH.
Qed.

Lemma load32_written f p ws i w :
  ws !! i = Some w -> 0 <= w < 4294967296 -> load32 (write_bytes f p (words_bytes ws)) (p + 4 * Z.of_nat i) = w.
Proof.
  intros Hi Hw. pose proof (lookup_lt_Some _ _ _ Hi) as Hlt.
  assert (Hb : forall j b, (j < 4)%nat -> le32 w !! j = Some b ->
    write_bytes f p (words_bytes ws) (p + 4 * Z.of_nat i + Z.of_nat j) = b).
  { intros j b Hj Hb. rewrite write_bytes_in by (rewrite words_bytes_length; lia).
    replace (Z.to_nat _) with (4 * i + j)%nat by lia. by rewrite (words_bytes_lookup ws i j w Hi Hj), Hb. }
  pose proof (Hb 0%nat _ ltac:(lia) eq_refl) as B0. pose proof (Hb 1%nat _ ltac:(lia) eq_refl) as B1.
  pose proof (Hb 2%nat _ ltac:(lia) eq_refl) as B2. pose proof (Hb 3%nat _ ltac:(lia) eq_refl) as B3.
  unfold load32. rewrite Z.add_0_r in B0. change (Z.of_nat 1) with 1 in B1. change (Z.of_nat 2) with 2 in B2. change (Z.of_nat 3) with 3 in B3.
  rewrite B0, B1, B2, B3. by apply le32_digits.
Qed.

Lemma ref_push_strings base argv : forall argc sp f sp' ws f',
  ref_push base argv argc sp f = Some (sp', ws, f') -> base <= sp -> Forall (Forall (fun c => c <> 0)) argv ->
  base <= sp' <= sp /\ (forall b, ~ sp' <= b < sp -> f' b = f b) /\
  Forall2 (fun a w => sp' <= w < sp /\ w + Z.of_nat (length a) < sp /\ cstr f' w a) argv ws.
Proof.
  induction argv as [|a argv IH]; intros argc sp f sp' ws f'; cbn [ref_push].
  { intros [= <- <- <-] Hb _. split; [lia |]. split; [done | constructor]. }
  set (q := (sp - (Z.of_nat (length a) + 1)) / 4 * 4). destruct (MAXARG <=? argc)%nat; cbn [orb]; [done |].
  destruct (Z.ltb_spec q base) as [|Hq]; [done |]. intros ([[sp2 ws2] f2] & Hr & [= <- <- <-])%bind_Some Hb Hargs.
  apply Forall_cons in Hargs as [Ha Hargs]. destruct (IH _ _ _ _ _ _ Hr Hq Hargs) as (Hsp & Hsame & Hall).
  assert (Hqa : q + Z.of_nat (length a) + 1 <= sp).
  { unfold q. pose proof (Z.div_mod (sp - (Z.of_nat (length a) + 1)) 4 ltac:(lia)).
    pose proof (Z.mod_pos_bound (sp - (Z.of_nat (length a) + 1)) 4 ltac:(lia)). lia. }
  split; [lia |]. split.
  - intros b Hn. rewrite Hsame by lia. apply write_bytes_out. rewrite length_app. cbn [length]. lia.
  - constructor; [| eapply Forall2_impl; [exact Hall |]; intros a' w (H1 & H2 & H3); split; [lia |]; split; [lia | done]].
    split; [lia |]. split; [lia |]. eapply cstr_ext; [| by apply (cstr_written f q a)].
    intros x Hx. symmetry. apply Hsame. lia.
Qed.

Lemma ref_stack_passed entry im argv pr :
  0 <= im_sz im -> Forall (Forall (fun c => c <> 0)) argv -> ref_stack entry im argv = Some pr ->
  passed (pr_byte pr) (pr_sp pr) argv /\ pr_entry pr = entry /\
  forall b, b < npages (im_sz im) * PGSIZE -> pr_byte pr b = im_byte im b.
Proof.
  intros Hsz Hargs. unfold ref_stack. set (sz := (npages (im_sz im) + 2) * PGSIZE).
  destruct (Z.leb_spec KERNBASE sz) as [|Hk]; [done |]. intros ([[sp ws] f] & Hp & Hr)%bind_Some.
  pose proof (ref_push_count _ _ _ _ _ _ _ _ Hp ltac:(unfold MAXARG; lia)) as Hc.
  destruct (ref_push_strings _ _ _ _ _ _ _ _ Hp ltac:(unfold PGSIZE; lia) Hargs) as (Hsp & Hsame & Hall).
  pose proof (Forall2_length _ _ _ Hall) as Hlen. set (argc := Z.of_nat (length ws)) in *.
  destruct (Z.ltb_spec (sp - (argc + 4) * 4) (sz - PGSIZE)) as [|Hge]; [done |]. injection Hr as <-. cbn [pr_byte pr_sp pr_entry].
  set (sp' := sp - (argc + 4) * 4) in *. set (us := _ :: _ :: _ :: _).
  pose proof (npages_bounds (im_sz im)) as Hnb. unfold KERNBASE, PGSIZE, MAXARG in *.
  assert (Hsz0 : 0 <= sp') by (unfold sz in *; lia).
  assert (Hw : forall i w, us !! i = Some w -> 0 <= w < 4294967296 -> load32 (write_bytes f sp' (words_bytes us)) (sp' + 4 * Z.of_nat i) = w).
  { intros i w. apply load32_written. }
  assert (Hul : Z.of_nat (length (words_bytes us)) = (argc + 4) * 4).
  { rewrite words_bytes_length. unfold us, argc. cbn [length]. rewrite length_app. cbn [length]. lia. }
  split; [split_and! |].
  - rewrite <- (Hw 0%nat 0xffffffff); [f_equal; lia | done | lia].
  - rewrite Hlen. fold argc. rewrite <- (Hw 1%nat argc); [f_equal; lia | done | unfold argc; lia].
  - rewrite <- (Hw 2%nat (sp' + 12)); [f_equal; lia | | lia]. cbn. f_equal. unfold sp'. lia.
  - intros i a Hi. destruct (Forall2_lookup_l _ _ _ _ _ Hall Hi) as (w & Hwi & (H1 & H2 & H3)).
    assert (load32 (write_bytes f sp' (words_bytes us)) (sp' + 12 + 4 * Z.of_nat i) = w) as ->.
    { rewrite <- (Hw (3 + i)%nat w); [f_equal; lia | | lia].
      change (us !! (3 + i)%nat) with ((ws ++ [0]) !! i). rewrite lookup_app_l; [done |]. by eapply lookup_lt_Some. }
    eapply cstr_ext; [| exact H3]. intros x Hx. symmetry. apply write_bytes_out. rewrite Hul. unfold sp' in *. lia.
  - rewrite Hlen. rewrite <- (Hw (3 + length ws)%nat 0); [f_equal; lia | | lia].
    change (us !! (3 + length ws)%nat) with ((ws ++ [0]) !! length ws). by rewrite lookup_app_r, Nat.sub_diag by lia.
  - split; [done |]. intros b Hb. rewrite write_bytes_out by (rewrite Hul; unfold sz in *; lia). apply Hsame. unfold sz in *. lia.
Qed.

Section exec.
Context {F : Type} {tree : cstring -> option (list Z)} {regular : cstring -> Prop} `{ProgFsSpec F tree regular}.
Variables kend kdata : Z.
Hypotheses (Hkend : KERNBASE < kend) (Hkdata : kdata_ok kdata).

Abbreviation holds := (holds kend kdata).
Abbreviation wrote := (wrote kend).

Lemma runs_on_fs {A} (c : ST F A) (s : xst F) (Q : A -> xst F -> Prop) :
  runs c (x_fs s) (fun a f => Q a (mkX f (x_vm s))) -> runs (on_fs c) s Q.
Proof. apply (runs_lift_st x_fs (fun f s => mkX f (x_vm s))). Qed.

Lemma runs_on_mem {A} (c : ST vst A) (s : xst F) (Q : A -> xst F -> Prop) :
  runs c (x_vm s) (fun a v => Q a (mkX (x_fs s) v)) -> runs (on_mem c) s Q.
Proof. apply (runs_lift_st x_vm (fun v s => mkX (x_fs s) v)). Qed.

(** ** loaduvm *)

(** The file is still locked, and only user pages of [pd] have changed. *)
Definition loading (s s' : xst F) (ip : nat) (data : list Z) (pd : Z) (x l : list Z) : Prop :=
  pf_locked (x_fs s') ip data /\ wrote (x_vm s) (x_vm s') pd x l.

Lemma slice_split data off (k n : Z) : 0 <= k <= n -> 0 <= off ->
  slice data off n = slice data off k ++ slice data (off + k) (n - k).
Proof.
  intros Hk Ho. unfold slice. rewrite Z2Nat.inj_add, Z2Nat.inj_sub, <- drop_drop by lia.
  rewrite <- (take_drop (Z.to_nat k) (take (Z.to_nat n) (drop (Z.to_nat off) data))).
  rewrite take_take, Nat.min_l by lia. by rewrite skipn_firstn_comm.
Qed.

Lemma loaduvm_loop_spec ip data pd x l n fl addr offset sz fuel : forall s g i,
  pf_locked (x_fs s) ip data -> space kend (x_vm s) pd x l -> holds (x_vm s) pd n fl g ->
  addr mod PGSIZE = 0 -> 0 <= addr -> addr + sz <= n * PGSIZE -> 0 <= offset < 4294967296 ->
  i mod PGSIZE = 0 -> 0 <= i -> (i = 0 \/ offset + i <= Z.of_nat (length data)) -> sz <= i + Z.of_nat fuel * PGSIZE ->
  runs (loaduvm_loop fuel pd addr ip offset sz i) s (fun r s' => loading s s' ip data pd x l /\ exists g', holds (x_vm s') pd n fl g' /\
    ((r = 0 /\ (i < sz -> offset + sz <= Z.of_nat (length data)) /\
      forall b, g' b = write_bytes g (addr + i) (slice data (offset + i) (sz - i)) b) \/
     (r = -1 /\ i < sz /\ Z.of_nat (length data) < offset + sz))).
Proof.
  induction fuel as [|fuel IH]; intros s g i Hlk Hs Hh Haddr Ha0 Hend Hoff Hi Hi0 Hin Hfuel; cbn [loaduvm_loop];
    (destruct (Z.leb_spec sz i) as [Hle|Hgt]; [apply runs_ret; split; [split; [done | by apply wrote_refl] |]; exists g;
      split; [done |]; left; split; [done |]; split; [lia |]; intros b; rewrite write_bytes_out; [done |];
      unfold slice; rewrite length_take; lia |]); [lia |].
  pose proof Hh as [Hpg Hfl Hu _ _]. destruct (pf_size_law _ _ _ Hlk) as [Hsize _].
  apply aligned_eq_mul in Haddr as [ka Hka]. apply aligned_eq_mul in Hi as [ki Hki].
  assert (Hmod : (addr + i) mod PGSIZE = 0) by (rewrite Hka, Hki, <- Z.mul_add_distr_r; by apply Z.mod_mul).
  rewrite u32_small by (unfold KERNBASE in *; lia).
  destruct (Hu (addr + i) ltac:(lia)) as (v & Hv & Hsh & Hl & _).
  destruct (walk_entry kend (x_vm s) pd x l _ _ Hs Hl) as (t & Ht & Hw & Hne & He & _).
  apply runs_bind, runs_on_mem. eexists _, _. split; [exact Hw |]. rewrite (proj2 (Z.eqb_neq _ 0) Hne).
  apply runs_bind, runs_on_mem, runs_get. cbn [x_vm x_fs]. fold (leaf (v_mem (x_vm s)) t (ptx (addr + i))). rewrite He.
  rewrite (pte_frame kend Hkend v _ Hv (Hfl _)). set (m := if sz - i <? PGSIZE then sz - i else PGSIZE).
  assert (Hm : m = Z.min (sz - i) PGSIZE) by (unfold m; destruct (Z.ltb_spec (sz - i) PGSIZE); lia).
  assert (Hm0 : 0 < m <= PGSIZE) by (unfold PGSIZE in *; lia).
  assert (Hoi : u32 (offset + i) = offset + i) by (apply u32_small; destruct Hin as [->|Hin]; lia). rewrite Hoi.
  apply runs_bind, runs_on_fs. eapply runs_mono; [apply (pf_readi_law _ ip data (offset + i) m Hlk); [destruct Hin as [->|Hin]; lia | lia] |].
  intros r fs1 [-> Hlk1]. destruct (file_read data (offset + i) m) as [r y] eqn:Hr.
  assert (Hylen : Z.of_nat (length y) <= m).
  { apply (f_equal snd) in Hr. cbn in Hr. subst y. unfold file_read. case_match; cbn; [lia |]. rewrite length_take. lia. }
  apply runs_bind, runs_on_mem, runs_modify. cbn [x_vm x_fs].
  destruct (holds_write kend kdata Hkend (x_vm s) pd x l n fl g (addr + i) v y Hs Hh ltac:(lia) Hv Hsh Hl ltac:(lia)) as [Hw1 Hh1].
  rewrite Hmod, Z.add_0_r in Hw1, Hh1. set (s1 := with_vmem _ (x_vm s)) in *.
  destruct (decide (offset + i + m <= Z.of_nat (length data))) as [Hok|Hshort].
  - rewrite file_read_ok in Hr by (destruct Hin as [->|Hin]; lia). injection Hr as <- <-.
    rewrite u32_small, Z.eqb_refl by (unfold PGSIZE in *; lia). cbn [negb].
    destruct (decide (sz - i <= PGSIZE)) as [Hlast|Hmore].
    + rewrite u32_small by (unfold KERNBASE, PGSIZE in *; lia).
      assert (runs (loaduvm_loop fuel pd addr ip offset sz (i + PGSIZE)) (mkX fs1 s1) (fun r s' => r = 0 /\ s' = mkX fs1 s1)) as Hdone.
      { destruct fuel; cbn [loaduvm_loop]; rewrite (proj2 (Z.leb_le sz (i + PGSIZE))) by lia; by apply runs_ret. }
      eapply runs_mono; [exact Hdone |]. intros r s' [-> ->]. split; [done |]. eexists. split; [exact Hh1 |]. left.
      split; [done |]. split; [lia |]. by replace (sz - i) with m by lia.
    + assert (Hmeq : m = PGSIZE) by lia. rewrite u32_small by (unfold KERNBASE, PGSIZE in *; lia).
      eapply runs_mono; [apply (IH (mkX fs1 s1) _ (i + PGSIZE) Hlk1 (wr_space _ _ _ _ _ _ Hw1) Hh1); try done; try (unfold PGSIZE in *; lia) |].
      * by rewrite Hka, Z.mod_mul.
      * replace (i + PGSIZE) with ((ki + 1) * PGSIZE) by lia. by apply Z.mod_mul.
      * intros r s' ([Hlk' Hw'] & g' & Hg' & Hout). split; [split; [done | by eapply mem_wrote_trans] |]. exists g'. split; [done |].
        destruct Hout as [(-> & Hlen & Heq) | (-> & Hlt & Hsh')]; [left | right; split; [done |]; split; [done | lia]].
        split; [done |]. split; [intros _; apply Hlen; lia |]. intros b. rewrite Heq.
        rewrite (slice_split data (offset + i) m (sz - i)) by (unfold PGSIZE in *; lia).
        assert (Hsl : length (slice data (offset + i) m) = Z.to_nat m) by (pose proof (slice_length data (offset + i) m); lia).
        rewrite <- (write_bytes_split g (addr + i) (Z.to_nat m) (slice data (offset + i) m ++ _)) by (rewrite length_app; lia).
        rewrite take_app_length', drop_app_length' by done. rewrite Z2Nat.id, Hmeq by lia.
        by rewrite <- !Z.add_assoc, <- Z.sub_add_distr.
  - pose proof (file_read_short data (offset + i) m ltac:(destruct Hin as [->|Hin]; lia) ltac:(lia) ltac:(lia) Hsize) as [Hne' _].
    rewrite Hr in Hne'. cbn [fst] in Hne'. rewrite Hne'. cbn [negb]. apply runs_ret. split; [done |].
    eexists. split; [exact Hh1 |]. right. split; [done |]. lia.
Qed.

Lemma loaduvm_spec s ip data pd x l n fl g addr offset sz :
  pf_locked (x_fs s) ip data -> space kend (x_vm s) pd x l -> holds (x_vm s) pd n fl g ->
  addr mod PGSIZE = 0 -> 0 <= addr -> 0 <= sz -> addr + sz <= n * PGSIZE -> 0 <= offset < 4294967296 ->
  runs (loaduvm pd addr ip offset sz) s (fun r s' => loading s s' ip data pd x l /\ exists g', holds (x_vm s') pd n fl g' /\
    ((r = 0 /\ (0 < sz -> offset + sz <= Z.of_nat (length data)) /\ forall b, g' b = write_bytes g addr (slice data offset sz) b) \/
     (r = -1 /\ 0 < sz /\ Z.of_nat (length data) < offset + sz))).
Proof.
  intros Hlk Hs Hh Ha Ha0 Hsz Hend Hoff. unfold loaduvm. rewrite Ha. cbn [Z.eqb negb].
  eapply runs_mono; [apply (loaduvm_loop_spec ip data pd x l n fl addr offset sz _ s g 0); try done; [by left |] |].
  - pose proof (Z.div_mod sz PGSIZE ltac:(done)). pose proof (Z.mod_pos_bound sz PGSIZE ltac:(done)).
    pose proof (Z.div_pos sz PGSIZE Hsz ltac:(done)). unfold PGSIZE in *. lia.
  - intros r s' (Hl & g' & Hg & Hout). split; [done |]. exists g'. by rewrite !Z.add_0_r, Z.sub_0_r in Hout.
Qed.

(** ** Growing *)

Definition WU : Z := Z.lor PTE_W PTE_U.
Definition writable (_ : Z) : Z := WU.

Definition spare (s : vst) (pd : Z) (l : list Z) : Z := Z.of_nat (length (tabs (v_mem s) pd) + length l).

Lemma npages_mono a b : a <= b -> npages a <= npages b.
Proof. intros. unfold npages. apply Z.div_le_mono; lia. Qed.

Lemma grow_spec s pd x l g sz newsz :
  space kend s pd x l -> holds s pd (npages sz) writable g -> 0 <= sz <= KERNBASE -> 0 <= newsz < 4294967296 ->
  runs (allocuvm kend pd sz newsz) s (fun r s' => exists l', space kend s' pd x l' /\ stable kend pd s s' l l' /\
    ((newsz < KERNBASE /\ r = Z.max sz newsz /\ holds s' pd (npages r) writable g /\
      spare s' pd l' + npages r = spare s pd l + npages sz) \/
     (r = 0 /\ (KERNBASE <= newsz \/ spare s pd l + npages sz <= 1024 + npages (Z.max sz newsz))))).
Proof.
  intros Hs Hh Hsz Hnew. destruct (decide (sz <= newsz < KERNBASE)) as [Hr|Hr].
  - eapply runs_mono; [apply (allocuvm_holds kend kdata Hkend Hkdata s pd x l writable g sz newsz Hs Hh); [lia | lia | done] |].
    intros r s' (l' & Hs' & Hst & Hout). exists l'. split; [done |]. split; [done |]. rewrite Z.max_r by lia. unfold spare.
    destruct Hout as [(-> & Hh' & Hc) | (-> & Hc)]; [left | right; split; [done | right; lia]].
    split; [lia |]. split; [done |]. split; [done | lia].
  - unfold allocuvm. destruct (Z.leb_spec KERNBASE newsz).
    { apply runs_ret. exists l. split; [done |]. split; [apply stable_refl |]. right. split; [done | by left]. }
    destruct (Z.ltb_spec newsz sz); [| lia]. apply runs_ret. exists l. split; [done |]. split; [apply stable_refl |]. left.
    rewrite Z.max_l by lia. done.
Qed.

(** ** The segments *)

(** The file is locked; pages have moved between [pd] and the free ones. *)
Definition moved (s s' : xst F) (ip : nat) (data : list Z) (pd : Z) (x l l' : list Z) : Prop :=
  pf_locked (x_fs s') ip data /\ space kend (x_vm s') pd x l' /\ stable kend pd (x_vm s) (x_vm s') l l'.

Lemma moved_trans s1 s2 s3 ip data pd x l1 l2 l3 :
  moved s1 s2 ip data pd x l1 l2 -> moved s2 s3 ip data pd x l2 l3 -> moved s1 s3 ip data pd x l1 l3.
Proof. intros (_ & _ & H1) (A & B & H2). split; [done |]. split; [done |]. by eapply stable_trans. Qed.

(** What the loader has to show for an image that it has, and for the one the
    file means. *)
Definition load_post (data : list Z) (ip : nat) (pd : Z) (x : list Z) (im : image) (ref : option image)
  (s : xst F) (l : list Z) (r : option Z) (s' : xst F) : Prop :=
  exists l', moved s s' ip data pd x l l' /\
    match r with
    | Some sz => exists im', ref = Some im' /\ sz = im_sz im' /\ 0 <= sz < KERNBASE /\
        holds (x_vm s') pd (npages sz) writable (im_byte im') /\
        spare (x_vm s') pd l' + npages sz = spare (x_vm s) pd l + npages (im_sz im)
    | None => match ref with
              | Some im' => spare (x_vm s) pd l + npages (im_sz im) <= 1024 + npages (im_sz im')
              | None => True
              end
    end.

Lemma load_post_step data ip pd x im im1 ref s s1 l l1 r s' :
  moved s s1 ip data pd x l l1 -> spare (x_vm s1) pd l1 + npages (im_sz im1) = spare (x_vm s) pd l + npages (im_sz im) ->
  load_post data ip pd x im1 ref s1 l1 r s' -> load_post data ip pd x im ref s l r s'.
Proof.
  intros Hm Hsp (l' & Hm' & Hr). exists l'. split; [by eapply moved_trans |]. destruct r as [sz|].
  - destruct Hr as (im' & H1 & H2 & H3 & H4 & H5). exists im'. rewrite <- Hsp. done.
  - destruct ref; [lia | done].
Qed.

(** A segment: [rest] is the loader on what follows. *)
Lemma segment_spec s ip data pd x l im ph (rest : Z -> ST (xst F) (option Z)) (cont : image -> option image) :
  pf_locked (x_fs s) ip data -> space kend (x_vm s) pd x l -> holds (x_vm s) pd (npages (im_sz im)) writable (im_byte im) ->
  0 <= im_sz im < KERNBASE -> 0 <= ph_vaddr ph < 4294967296 -> 0 <= ph_memsz ph < 4294967296 ->
  0 <= ph_filesz ph -> 0 <= ph_off ph < 4294967296 ->
  (forall im1 im2, cont im1 = Some im2 -> im_sz im1 <= im_sz im2) ->
  (forall s1 l1 im1, pf_locked (x_fs s1) ip data -> space kend (x_vm s1) pd x l1 ->
    holds (x_vm s1) pd (npages (im_sz im1)) writable (im_byte im1) -> 0 <= im_sz im1 < KERNBASE ->
    runs (rest (im_sz im1)) s1 (load_post data ip pd x im1 (cont im1) s1 l1)) ->
  runs (if ph_memsz ph <? ph_filesz ph then ret None
        else if u32 (ph_vaddr ph + ph_memsz ph) <? ph_vaddr ph then ret None
        else
          let* sz := on_mem (allocuvm kend pd (im_sz im) (u32 (ph_vaddr ph + ph_memsz ph))) in
          if sz =? 0 then ret None
          else if negb (ph_vaddr ph mod PGSIZE =? 0) then ret None
          else
            let* r := loaduvm pd (ph_vaddr ph) ip (ph_off ph) (ph_filesz ph) in
            if r <? 0 then ret None else rest sz) s
    (load_post data ip pd x im (ref_segment data ph im ≫= cont) s l).
Proof.
  intros Hlk Hs Hh Hsz Hv Hm Hf Ho Hmono Hrest. unfold ref_segment.
  assert (Hfail : forall s1 l1 Q, moved s s1 ip data pd x l l1 ->
    Q = @None image -> runs (ret None) s1 (load_post data ip pd x im Q s l)).
  { intros s1 l1 Q Hm1 ->. apply runs_ret. by exists l1. }
  assert (Hself : moved s s ip data pd x l l) by (split; [done |]; split; [done |]; apply stable_refl).
  destruct (Z.ltb_spec (ph_memsz ph) (ph_filesz ph)) as [Hmf|Hmf]; [by apply (Hfail s l) |]. cbn [orb].
  set (new := ph_vaddr ph + ph_memsz ph) in *. assert (Hnb : ph_vaddr ph <= new < ph_vaddr ph + 4294967296) by (unfold new; lia).
  destruct (Z.ltb_spec (u32 new) (ph_vaddr ph)) as [Hwrap|Hwrap].
  { apply (Hfail s l); [done |]. rewrite (proj2 (Z.leb_le KERNBASE new)); [done |].
    destruct (decide (KERNBASE <= new)); [done |]. rewrite u32_small in Hwrap by (unfold KERNBASE in *; lia). lia. }
  assert (Hnew : u32 new = new).
  { apply u32_small. destruct (decide (new < 4294967296)); [lia |]. unfold u32 in Hwrap.
    pose proof (Z.mod_unique_pos new 4294967296 1 (new - 4294967296) ltac:(lia) ltac:(lia)). lia. }
  pose proof (u32_range new) as Hur. rewrite Hnew in Hur |- *. apply runs_bind, runs_on_mem.
  eapply runs_mono; [apply (grow_spec (x_vm s) pd x l (im_byte im) (im_sz im) new Hs Hh); lia |].
  intros r s1 (l1 & Hs1 & Hst1 & Hout).
  assert (Hm1 : moved s (mkX (x_fs s) s1) ip data pd x l l1) by done.
  destruct Hout as [(Hk & -> & Hh1 & Hsp) | (-> & Hshort)].
  2: { cbn [Z.eqb]. apply runs_ret. exists l1. split; [done |]. destruct (_ || _) eqn:Hc; [done |]. cbn [mbind option_bind].
       destruct (cont _) as [im'|] eqn:Hcont; [| done]. apply Hmono in Hcont. cbn in Hcont.
       apply orb_false_iff in Hc as [Hc _]. apply orb_false_iff in Hc as [Hc _]. apply orb_false_iff in Hc as [Hc _].
       apply Z.leb_gt in Hc. destruct Hshort as [|Hshort]; [lia |]. apply npages_mono in Hcont. lia. }
  rewrite (proj2 (Z.leb_gt KERNBASE new)) by done. cbn [orb]. set (sz := Z.max (im_sz im) new) in *.
  destruct (Z.eqb_spec sz 0); [by apply (Hfail (mkX (x_fs s) s1) l1) |]. cbn [orb].
  destruct (Z.eqb_spec (ph_vaddr ph mod PGSIZE) 0) as [Hal|]; [| by apply (Hfail (mkX (x_fs s) s1) l1)]. cbn [negb orb].
  apply runs_bind. pose proof (npages_bounds sz).
  eapply runs_mono; [apply (loaduvm_spec (mkX (x_fs s) s1) ip data pd x l1 _ _ _ _ _ _ Hlk Hs1 Hh1 Hal); unfold new in *; lia |].
  intros r s2 ([Hlk2 Hw2] & g & Hg & Hout). cbn [x_vm] in Hw2.
  assert (Hm2 : moved s s2 ip data pd x l l1).
  { split; [done |]. split; [by apply Hw2 |]. eapply stable_trans; [exact Hst1 |]. by eapply wrote_stable. }
  destruct Hout as [(-> & Hlen & Heq) | (-> & Hpos & Hlen)]; cbn [Z.ltb Z.compare].
  - assert (negb (ph_filesz ph =? 0) && (Z.of_nat (length data) <? ph_off ph + ph_filesz ph) = false) as ->.
    { destruct (Z.eqb_spec (ph_filesz ph) 0); [done |]. cbn [negb andb]. apply Z.ltb_ge. apply Hlen. lia. }
    cbn [mbind option_bind]. set (im1 := mkImage sz _).
    eapply runs_mono; [apply (Hrest s2 l1 im1 Hlk2); [by apply Hw2 | | cbn; lia] |].
    + eapply (holds_ext kend kdata); [exact Hg | exact Heq].
    + intros r s'. apply load_post_step; [done |]. cbn [im_sz im1]. unfold spare in *. by rewrite (wr_tabs _ _ _ _ _ _ Hw2).
  - apply (Hfail s2 l1); [done |]. destruct (Z.eqb_spec (ph_filesz ph) 0); [lia |].
    by rewrite (proj2 (Z.ltb_lt _ _) Hlen).
Qed.

Lemma load_segments_spec ip data pd x n : forall s l off im,
  pf_locked (x_fs s) ip data -> space kend (x_vm s) pd x l -> holds (x_vm s) pd (npages (im_sz im)) writable (im_byte im) ->
  0 <= im_sz im < KERNBASE -> -2147483648 <= off < 2147483648 ->
  runs (load_segments kend n ip pd off (im_sz im)) s (load_post data ip pd x im (ref_load n data (u32 off) im) s l).
Proof.
  induction n as [|n IH]; intros s l off im Hlk Hs Hh Hsz Hoff; cbn [load_segments ref_load].
  { apply runs_ret. exists l. split; [split; [done |]; split; [done | apply stable_refl] |]. by exists im. }
  destruct (pf_size_law _ _ _ Hlk) as [Hsize Hby]. pose proof (u32_range off) as Hu.
  apply runs_bind, runs_on_fs. eapply runs_mono; [apply (pf_readi_law _ ip data _ PROGHDR Hlk Hu); done |].
  intros r fs1 [-> Hlk1]. set (s1 := mkX fs1 (x_vm s)).
  assert (Hm1 : moved s s1 ip data pd x l l) by (split; [done |]; split; [done |]; apply stable_refl).
  destruct (Z.ltb_spec (Z.of_nat (length data)) (u32 off + PROGHDR)) as [Hlt|Hge].
  { pose proof (file_read_short data (u32 off) PROGHDR Hu ltac:(done) Hlt Hsize) as [Hne _].
    destruct (file_read data (u32 off) PROGHDR) as [r d]. cbn [fst] in Hne. rewrite Hne. cbn [negb]. apply runs_ret. by exists l. }
  unfold PROGHDR in Hge |- *. rewrite file_read_ok by lia. rewrite u32_small, Z.eqb_refl by lia. cbn [negb].
  assert (Hoff0 : u32 off = off).
  { destruct (decide (0 <= off)); [apply u32_small; lia |]. exfalso. unfold u32 in Hge, Hu.
    pose proof (Z.mod_unique_pos off 4294967296 (-1) (off + 4294967296) ltac:(lia) ltac:(lia)). lia. }
  rewrite Hoff0 in *. set (d := slice data off 32). assert (Hd : bytes_ok d) by (by apply slice_ok).
  rewrite (proj2 (Z.ltb_ge 2147483647 (off + 32))) by lia.
  assert (Hnext : forall s2 l2 im2, pf_locked (x_fs s2) ip data -> space kend (x_vm s2) pd x l2 ->
    holds (x_vm s2) pd (npages (im_sz im2)) writable (im_byte im2) -> 0 <= im_sz im2 < KERNBASE ->
    runs (load_segments kend n ip pd (off + 32) (im_sz im2)) s2 (load_post data ip pd x im2 (ref_load n data (off + 32) im2) s2 l2)).
  { intros s2 l2 im2 A1 A2 A3 A4. pose proof (IH s2 l2 (off + 32) im2 A1 A2 A3 A4 ltac:(lia)) as Hr. by rewrite u32_small in Hr by lia. }
  destruct (Z.eqb_spec (ph_type (ph_of d)) ELF_PROG_LOAD) as [Ht|Ht]; cbn [negb].
  - eapply runs_mono; [apply (segment_spec s1 ip data pd x l im (ph_of d) (load_segments kend n ip pd (off + 32)) (ref_load n data (off + 32)));
      try done; try (by apply get32_range) |].
    + intros im1 im2. apply ref_load_sz.
    + intros r s'. by apply load_post_step.
  - cbn [mbind option_bind]. eapply runs_mono; [by apply (Hnext s1 l im) |]. intros r s'. by apply load_post_step.
Qed.

(** ** The stack *)

(** All pages but the one below the stack are open to the user. *)
Definition guarded (n j : Z) : Z := if decide (j = n - 2) then PTE_W else writable j.

Lemma guarded_user n j : user_page (guarded n) j <-> j <> n - 2.
Proof. unfold user_page, guarded. case_decide; split; intros; done. Qed.

(** The stack is one page: what does not fit touches the guard page. *)
Lemma copy_stack s pd x l n f sp buf :
  space kend s pd x l -> holds s pd n (guarded n) f -> 2 <= n -> buf <> [] -> 0 <= sp ->
  (n - 1) * PGSIZE - 4 < sp + Z.of_nat (length buf) <= n * PGSIZE ->
  runs (copyout pd sp buf) s (fun r s' => wrote s s' pd x l /\
    ((r = 0 /\ (n - 1) * PGSIZE <= sp /\ holds s' pd n (guarded n) (write_bytes f sp buf)) \/
     (r = -1 /\ sp < (n - 1) * PGSIZE /\ exists f', holds s' pd n (guarded n) f'))).
Proof.
  intros Hs Hh Hn Hne Hsp Hend. assert (Hlen : 0 < Z.of_nat (length buf)) by (destruct buf; [done | simpl; lia]).
  eapply runs_mono; [apply (copyout_spec kend kdata Hkend pd x l n (guarded n) s sp buf f Hs Hh); lia |].
  intros r s' (Hw & f' & Hf' & Hout). split; [done |].
  destruct (decide ((n - 1) * PGSIZE <= sp)) as [Hin|Hout'].
  - left. destruct Hout as [(-> & Heq & _) | (-> & b & Hb & Hnu)].
    + split; [done |]. split; [done |]. by eapply (holds_ext kend kdata).
    + exfalso. apply Hnu, guarded_user. pose proof (Z.div_le_mono ((n - 1) * PGSIZE) b PGSIZE ltac:(done) ltac:(lia)) as Hd.
      rewrite Z.div_mul in Hd by done. lia.
  - right. destruct Hout as [(-> & _ & Hup) | (-> & _)]; [| split; [done |]; split; [lia | by exists f']].
    exfalso. set (b := Z.min (sp + Z.of_nat (length buf) - 1) ((n - 1) * PGSIZE - 1)).
    assert (Hb : sp <= b < sp + Z.of_nat (length buf)) by lia. apply (proj1 (guarded_user n _) (Hup b Hb)).
    symmetry. apply (Z.div_unique b PGSIZE (n - 2) (b - PGSIZE * (n - 2))); unfold PGSIZE in *; lia.
Qed.

Lemma land_lnot3 z : Z.land z (Z.lnot 3) = z / 4 * 4.
Proof.
  rewrite <- Z.ldiff_land. change 3 with (Z.ones 2). rewrite Z.ldiff_ones_r, Z.shiftr_div_pow2, Z.shiftl_mul_pow2 by lia. done.
Qed.

Lemma push_args_spec pd x l n argv : forall (s : xst F) argc sp f,
  space kend (x_vm s) pd x l -> holds (x_vm s) pd n (guarded n) f -> 2 <= n ->
  (n - 1) * PGSIZE <= sp <= n * PGSIZE -> Forall (fun a => Z.of_nat (length a) < 33554432) argv ->
  runs (push_args pd argv argc sp) s (fun r s' => x_fs s' = x_fs s /\ wrote (x_vm s) (x_vm s') pd x l /\
    match r with
    | Some (sp', ws) => exists f', ref_push ((n - 1) * PGSIZE) argv argc sp f = Some (sp', ws, f') /\
        holds (x_vm s') pd n (guarded n) f' /\ (n - 1) * PGSIZE <= sp' <= n * PGSIZE
    | None => ref_push ((n - 1) * PGSIZE) argv argc sp f = None
    end).
Proof.
  induction argv as [|a argv IH]; intros s argc sp f Hs Hh Hn Hsp Hargs; cbn [push_args ref_push].
  { apply runs_ret. split; [done |]. split; [by apply wrote_refl |]. by exists f. }
  apply Forall_cons in Hargs as [Ha Hargs]. pose proof (ho_pages _ _ _ _ _ _ _ Hh) as Hpg.
  destruct (Nat.leb_spec MAXARG argc) as [|Hargc]; cbn [orb].
  { apply runs_ret. split; [done |]. split; [by apply wrote_refl | done]. }
  set (q := sp - (Z.of_nat (length a) + 1)). rewrite land_lnot3. apply runs_bind, runs_on_mem.
  assert (Hq4 : q - 3 <= q / 4 * 4 <= q) by (pose proof (Z.div_mod q 4 ltac:(lia)); pose proof (Z.mod_pos_bound q 4 ltac:(lia)); lia).
  destruct (decide (0 <= q)) as [Hq|Hq].
  - rewrite u32_small by (unfold KERNBASE in *; lia).
    assert (Hq0 : 0 <= q / 4 * 4) by (pose proof (Z.div_pos q 4 Hq ltac:(lia)); lia).
    eapply runs_mono; [apply (copy_stack (x_vm s) pd x l n f (q / 4 * 4) (a ++ [0]) Hs Hh Hn); [by destruct a | done |] |].
    { rewrite length_app. cbn [length]. unfold q in *. lia. }
    intros r s1 (Hw & [(-> & Hge & Hh1) | (-> & Hlt & _)]); cbn [Z.ltb Z.compare].
    2: { apply runs_ret. split; [done |]. split; [done |]. by rewrite (proj2 (Z.ltb_lt _ _) Hlt). }
    rewrite (proj2 (Z.ltb_ge _ _) Hge). apply runs_bind.
    eapply runs_mono; [apply (IH (mkX (x_fs s) s1) (S argc) (q / 4 * 4) _ (wr_space _ _ _ _ _ _ Hw) Hh1 Hn ltac:(unfold q in *; lia) Hargs) |].
    intros rest s2 (Hfs & Hw2 & Hr). pose proof (mem_wrote_trans _ _ _ _ _ _ _ Hw Hw2) as Hw12.
    destruct rest as [[sp' ws]|]; apply runs_ret; (split; [done |]; split; [done |]).
    + destruct Hr as (f' & -> & Hh2 & Hsp2). by exists f'.
    + by rewrite Hr.
  - assert (Hu : u32 q = q + 4294967296).
    { unfold u32. symmetry. apply (Z.mod_unique_pos q 4294967296 (-1)); unfold q, PGSIZE in *; lia. }
    assert (Hw : DEVSPACE <= u32 q / 4 * 4 < 4294967296).
    { rewrite Hu. replace (q + 4294967296) with (q + 1073741824 * 4) by lia. rewrite Z.div_add by lia.
      unfold DEVSPACE, q, PGSIZE in *. pose proof (Z.div_mod (sp - (Z.of_nat (length a) + 1)) 4 ltac:(lia)). lia. }
    assert (exists c buf, a ++ [0] = c :: buf) as (c & buf & ->) by (destruct a; eauto).
    eapply runs_mono; [by apply (copyout_wrapped kend kdata pd x l n (guarded n) (x_vm s) _ c buf f) |].
    intros r s1 [-> ->]. cbn [Z.ltb Z.compare]. apply runs_ret. split; [done |]. split; [by apply wrote_refl |].
    rewrite (proj2 (Z.ltb_lt _ _)); [done |]. unfold PGSIZE in *. lia.
Qed.

Lemma npages_mul k : npages (k * PGSIZE) = k.
Proof. unfold npages, PGSIZE. rewrite Z.add_comm, Z.div_add by lia. done. Qed.

Lemma exec_stack_spec (s : xst F) pd x l im argv entry :
  space kend (x_vm s) pd x l -> holds (x_vm s) pd (npages (im_sz im)) writable (im_byte im) -> 0 <= im_sz im < KERNBASE ->
  Forall (fun a => Z.of_nat (length a) < 33554432) argv ->
  runs (exec_stack kend pd (im_sz im) argv) s (fun r s' => exists l', x_fs s' = x_fs s /\
    space kend (x_vm s') pd x l' /\ stable kend pd (x_vm s) (x_vm s') l l' /\
    match r with
    | Some (sz, sp) => exists f n, ref_stack entry im argv = Some (mkProgram sz sp entry f) /\ sz = n * PGSIZE /\ 2 <= n /\
        holds (x_vm s') pd n (guarded n) f
    | None => match ref_stack entry im argv with
              | Some pr => spare (x_vm s) pd l + npages (im_sz im) <= 1024 + npages (pr_sz pr)
              | None => True
              end
    end).
Proof.
  intros Hs Hh Hsz Hargs. unfold exec_stack, ref_stack. pose proof (npages_bounds (im_sz im)) as Hnb. pose proof (ho_pages _ _ _ _ _ _ _ Hh) as Hpg.
  rewrite pgroundup_npages by lia. set (k := npages (im_sz im)) in *. apply runs_bind, runs_on_mem.
  assert (Hnew : k * PGSIZE + 2 * PGSIZE = (k + 2) * PGSIZE) by lia.
  rewrite u32_small, Hnew by (unfold KERNBASE, PGSIZE in *; lia).
  eapply runs_mono; [apply (grow_spec (x_vm s) pd x l (im_byte im) (k * PGSIZE) ((k + 2) * PGSIZE) Hs); rewrite ?npages_mul; try done; unfold KERNBASE, PGSIZE in *; lia |].
  rewrite npages_mul, Z.max_r by (unfold PGSIZE; lia). intros r s1 (l1 & Hs1 & Hst1 & Hout).
  destruct Hout as [(Hk & -> & Hh1 & _) | (-> & Hshort)].
  2: { cbn [Z.eqb]. apply runs_ret. exists l1. do 3 (split; [done |]). destruct (Z.leb_spec KERNBASE ((k + 2) * PGSIZE)); [done |].
       destruct (ref_push _ _ _ _ _) as [[[sp ws] f]|]; cbn [mbind option_bind]; [| done]. destruct (_ <? _); [done |].
       cbn [pr_sz]. rewrite npages_mul in *. destruct Hshort; lia. }
  rewrite npages_mul in Hh1. rewrite (proj2 (Z.leb_gt KERNBASE _)) by done.
  rewrite (proj2 (Z.eqb_neq _ 0)) by (unfold PGSIZE; lia). apply runs_bind, runs_on_mem. cbn [x_vm x_fs].
  replace ((k + 2) * PGSIZE - 2 * PGSIZE) with (k * PGSIZE) by lia. rewrite u32_small by (unfold KERNBASE, PGSIZE in *; lia).
  eapply runs_mono; [apply (clearpteu_holds kend kdata Hkend s1 pd x l1 (k + 2) writable (im_byte im) k Hs1 Hh1); [lia | done] |].
  intros _ s2 (Hw2 & Hh2). set (n := k + 2) in *.
  assert (Hh2' : holds s2 pd n (guarded n) (im_byte im)).
  { destruct Hh2 as [A1 A2 A3 A4 A5]. split; try done.
    - intros j. unfold guarded. by case_decide.
    - intros b Hb. destruct (A3 b Hb) as (v & B1 & B2 & B3 & B4). exists v. split; [done |]. split; [done |]. split; [| done].
      rewrite B3. unfold guarded. replace (n - 2) with k by lia. done. }
  replace (n * PGSIZE - PGSIZE) with ((n - 1) * PGSIZE) by lia. apply runs_bind.
  eapply runs_mono; [apply (push_args_spec pd x l1 n argv (mkX (x_fs s) s2) 0 (n * PGSIZE) (im_byte im)); try done;
    [by apply Hw2 | lia | unfold PGSIZE; lia] |].
  intros pushed s3 (Hfs3 & Hw3 & Hr). cbn [x_vm x_fs] in *.
  pose proof (stable_trans _ _ _ _ _ _ _ _ Hst1 (wrote_stable _ _ _ _ _ _ (mem_wrote_trans _ _ _ _ _ _ _ Hw2 Hw3))) as Hst3.
  destruct pushed as [[sp ws]|].
  2: { apply runs_ret. exists l1. split; [done |]. split; [by apply Hw3 |]. split; [done |]. by rewrite Hr. }
  destruct Hr as (f & Heq & Hh3 & Hsp). rewrite Heq. cbn [mbind option_bind]. set (argc := Z.of_nat (length ws)).
  pose proof (ref_push_count _ _ _ _ _ _ _ _ Heq ltac:(unfold MAXARG; lia)) as Hargc. unfold MAXARG in Hargc.
  replace ((3 + argc + 1) * 4) with ((argc + 4) * 4) by lia.
  assert (Hpos : 0 <= sp - (argc + 4) * 4) by (unfold argc, PGSIZE in *; lia).
  rewrite !u32_small by (unfold argc, KERNBASE, PGSIZE in *; lia).
  set (ustack := _ :: _ :: _ :: _). set (sp' := sp - (argc + 4) * 4) in *.
  assert (Hul : Z.of_nat (length (words_bytes ustack)) = (argc + 4) * 4).
  { rewrite words_bytes_length. unfold ustack, argc. cbn [length]. rewrite length_app. cbn [length]. lia. }
  apply runs_bind, runs_on_mem.
  eapply runs_mono; [apply (copy_stack (x_vm s3) pd x l1 n f sp' (words_bytes ustack) (wr_space _ _ _ _ _ _ Hw3) Hh3); [lia | | done | unfold sp' in *; lia] |].
  { intros He. rewrite He in Hul. cbn in Hul. unfold argc in Hul. lia. }
  intros r s4 (Hw4 & Hout). pose proof (stable_trans _ _ _ _ _ _ _ _ Hst3 (wrote_stable _ _ _ _ _ _ Hw4)) as Hst4.
  destruct Hout as [(-> & Hge & Hh4) | (-> & Hlt & _)]; cbn [Z.ltb Z.compare]; apply runs_ret; exists l1;
    (split; [done |]; split; [by apply Hw4 |]; split; [done |]).
  - rewrite (proj2 (Z.ltb_ge _ _) Hge). eexists _, n. split; [done |]. split; [done |]. split; [lia | done].
  - by rewrite (proj2 (Z.ltb_lt _ _) Hlt).
Qed.

(** ** Building the program *)

Lemma u32_i32 z : 0 <= z < 4294967296 -> u32 (i32 z) = z.
Proof.
  intros Hz. unfold i32, u32. rewrite Zminus_mod_idemp_l. replace (z + 2147483648 - 2147483648) with z by lia. by apply Z.mod_small.
Qed.

(** The pages outside the new space are as before. *)
Definition outside (s s' : vst) (l : list Z) : Prop :=
  v_shm s' = v_shm s /\ forall w, page kend w -> w ∉ l -> same_page (v_mem s) (v_mem s') w.

Lemma outside_stable s s1 s2 pd l l1 l2 :
  outside s s1 l -> own s1 pd ++ l1 ≡ₚ l -> stable kend pd s1 s2 l1 l2 -> outside s s2 l /\ own s2 pd ++ l2 ≡ₚ l.
Proof.
  intros [Hsh Hfr] Hp [Hsh2 Hp2 Hfr2]. split; [split |].
  - congruence.
  - intros w Hw Hn. eapply same_page_trans; [by apply Hfr | apply Hfr2; [done | by rewrite Hp]].
  - by rewrite Hp2.
Qed.

(** The free pages did not suffice for what the file means. *)
Definition short (ref : option program) (l : list Z) : Prop :=
  match ref with Some pr => Z.of_nat (length l) <= 1025 + npages (pr_sz pr) | None => True end.

Definition build_post (ip : nat) (data : list Z) (argv : list cstring) (s : xst F) (y l : list Z) (r : built) (s' : xst F) : Prop :=
  outside (x_vm s) (x_vm s') l /\
  match r with
  | Built pd sz sp entry => pf_idle (x_fs s') /\ exists l' f n, ref_exec data argv = Some (mkProgram sz sp entry f) /\
      sz = n * PGSIZE /\ 2 <= n /\ space kend (x_vm s') pd y l' /\ own (x_vm s') pd ++ l' ≡ₚ l /\
      holds (x_vm s') pd n (guarded n) f
  | Bad pd ipo => short (ref_exec data argv) l /\
      ((ipo = Some ip /\ pf_locked (x_fs s') ip data) \/ (ipo = None /\ pf_idle (x_fs s'))) /\
      exists l', (pd = 0 /\ kmem_free kend (v_kmem (x_vm s')) l' /\ l' ≡ₚ l) \/
        (pd <> 0 /\ space kend (x_vm s') pd y l' /\ own (x_vm s') pd ++ l' ≡ₚ l)
  end.

Lemma ref_stack_sz entry im argv pr : ref_stack entry im argv = Some pr -> npages (im_sz im) <= npages (pr_sz pr).
Proof.
  unfold ref_stack. destruct (_ <=? _); [done |]. intros ([[sp ws] f] & _ & Hr)%bind_Some. case_match; [done |].
  injection Hr as <-. cbn [pr_sz]. rewrite npages_mul. lia.
Qed.

Lemma exec_build_spec s ip data argv y l :
  pf_locked (x_fs s) ip data -> pool kend (x_vm s) y l -> Forall (fun a => Z.of_nat (length a) < 33554432) argv ->
  runs (exec_build kend kdata ip argv) s (build_post ip data argv s y l).
Proof.
  intros Hlk Hpool Hargs. destruct (pf_size_law _ _ _ Hlk) as [Hsize Hby]. unfold exec_build.
  apply runs_bind, runs_on_fs. eapply runs_mono; [apply (pf_readi_law _ ip data 0 ELFHDR Hlk); done |].
  intros r fs1 [-> Hlk1]. set (s1 := mkX fs1 (x_vm s)).
  assert (Hout0 : outside (x_vm s) (x_vm s1) l) by (split; [done | by intros w _ _ z _]).
  assert (Hbad0 : ref_exec data argv = None -> runs (ret (Bad 0 (Some ip))) s1 (build_post ip data argv s y l)).
  { intros Hr. apply runs_ret. split; [done |]. unfold short. rewrite Hr. split; [done |]. split; [by left |]. exists l. left.
    split; [done |]. split; [apply Hpool | done]. }
  destruct (Z.ltb_spec (Z.of_nat (length data)) ELFHDR) as [Hlt|Hge].
  { pose proof (file_read_short data 0 ELFHDR ltac:(lia) ltac:(done) ltac:(lia) Hsize) as [Hne _].
    destruct (file_read data 0 ELFHDR) as [r d]. cbn [fst] in Hne. rewrite Hne. apply Hbad0. unfold ref_exec.
    by rewrite (proj2 (Z.ltb_lt _ _) Hlt). }
  unfold ELFHDR in Hge. rewrite file_read_ok by (unfold ELFHDR; lia). change (u32 ELFHDR =? ELFHDR) with true. cbn [negb].
  set (elf := elf_of (slice data 0 ELFHDR)).
  assert (Href : ref_exec data argv = if negb (e_magic elf =? ELF_MAGIC) then None else
    im ← ref_load (Z.to_nat (e_phnum elf)) data (e_phoff elf) (mkImage 0 (fun _ => 0)); ref_stack (e_entry elf) im argv).
  { unfold ref_exec. rewrite (proj2 (Z.ltb_ge _ _)) by (unfold ELFHDR; lia). done. }
  destruct (e_magic elf =? ELF_MAGIC); cbn [negb] in *; [| by apply Hbad0].
  apply runs_bind, runs_on_mem. eapply runs_mono; [by apply (setupkvm_spec kend Hkend kdata Hkdata (x_vm s) y l) |].
  intros pd v2 (Hsh2 & Hfr2 & l2 & Hout). set (s2 := mkX fs1 v2).
  assert (Hout2 : outside (x_vm s) v2 l) by done.
  destruct Hout as [(-> & Hf2 & Hp2 & Hshort) | (Hpd & Hs2 & Hp2 & Hl2)].
  { cbn [Z.eqb]. apply runs_ret. split; [done |]. split.
    - unfold short. rewrite Href. destruct (ref_load _ _ _ _) as [im|] eqn:Hr1; cbn [mbind option_bind]; [| done].
      destruct (ref_stack _ _ _) as [pr|] eqn:Hr2; [| done]. apply ref_load_sz, npages_mono in Hr1. apply ref_stack_sz in Hr2.
      cbn [im_sz] in Hr1. change (npages 0) with 0 in Hr1. lia.
    - split; [by left |]. exists l2. by left. }
  rewrite (proj2 (Z.eqb_neq pd 0) Hpd). set (im0 := mkImage 0 (fun _ => 0)) in *.
  assert (Hspare : spare v2 pd l2 + 1 = Z.of_nat (length l)).
  { apply Permutation_length in Hp2. unfold own in Hp2. rewrite upages_none, app_nil_r in Hp2.
    - rewrite length_app, length_cons in Hp2. unfold spare. lia.
    - intros b Hb. rewrite Hl2 by (unfold KERNBASE in *; lia). apply kmap_view_user; [by apply kmap_kmap_ok | done]. }
  assert (Hh2 : holds v2 pd (npages (im_sz im0)) writable (im_byte im0)) by (by apply (holds_init kend kdata)).
  apply runs_bind. change 0 with (im_sz im0).
  eapply runs_mono; [apply (load_segments_spec ip data pd y _ s2 l2 (i32 (e_phoff elf)) im0); try done; apply i32_range |].
  rewrite u32_i32 by (by apply get32_range, slice_ok).
  intros r s3 (l3 & (Hlk3 & Hs3 & Hst3) & Hr). destruct (outside_stable _ _ _ _ _ _ _ Hout2 Hp2 Hst3) as [Hout3 Hp3].
  change (npages (im_sz im0)) with 0 in Hr. cbn [x_vm s2] in Hr.
  destruct r as [sz|].
  2: { apply runs_ret. split; [done |]. split; [| split; [by left | exists l3; by right]].
       unfold short. rewrite Href. destruct (ref_load _ _ _ _) as [im|]; cbn [mbind option_bind]; [| done].
       destruct (ref_stack (e_entry elf) im argv) as [pr|] eqn:Hpr; [| done]. apply ref_stack_sz in Hpr. lia. }
  destruct Hr as (im & Him & -> & Hsz & Hh3 & Hsp3). rewrite Him in Href. cbn [mbind option_bind] in Href.
  apply runs_bind, runs_on_fs. eapply runs_mono; [by apply (pf_put_law _ ip data) |]. intros [] fs4 Hb4.
  apply runs_bind, runs_on_fs. eapply runs_mono; [by apply pf_end_law |]. intros [] fs5 Hi5. cbn [x_vm x_fs] in *.
  apply runs_bind. eapply runs_mono; [by apply (exec_stack_spec (mkX fs5 (x_vm s3)) pd y l3 im argv (e_entry elf)) |].
  intros r s6 (l6 & Hfs6 & Hs6 & Hst6 & Hr). cbn [x_vm x_fs] in *.
  destruct (outside_stable _ _ _ _ _ _ _ Hout3 Hp3 Hst6) as [Hout6 Hp6].
  destruct r as [[sz sp]|]; apply runs_ret; (split; [done |]); rewrite Hfs6.
  - destruct Hr as (f & n & Hr & Hn & Hn2 & Hh6). split; [done |]. exists l6, f, n. by rewrite Href.
  - split; [| split; [by right | exists l6; by right]]. unfold short. rewrite Href.
    destruct (ref_stack _ _ _); [lia | done].
Qed.

(** ** Two address spaces *)

(** A space whose tables have not changed, with other pages in transit and
    free. *)
Lemma space_carry s s' pd x x' l l' :
  space kend s pd x l -> v_shm s' = v_shm s ->
  (forall w, w ∈ pd :: tabs (v_mem s) pd -> same_page (v_mem s) (v_mem s') w) ->
  kmem_free kend (v_kmem s') l' -> x' ++ l' ≡ₚ x ++ l ->
  space kend s' pd x' l' /\ own s' pd = own s pd /\ forall b, lookup_pte (v_mem s') pd b = lookup_pte (v_mem s) pd b.
Proof.
  intros Hs Hsh Hsame Hf Hp. assert (Hpd : same_page (v_mem s) (v_mem s') pd) by (apply Hsame; by left).
  assert (Ht : forall t, t ∈ tabs (v_mem s) pd -> same_page (v_mem s) (v_mem s') t) by (intros t Ht; apply Hsame; by right).
  assert (Hown : own s' pd = own s pd).
  { unfold own. rewrite Hsh, (tabs_ext (v_mem s)), (upages_ext _ (v_mem s)) by done. done. }
  split; [| split; [done | intros b; by apply lookup_pte_ext]].
  eapply space_step; [exact Hs | exact Hf | done | by rewrite Hown, Hp |].
  intros i j t Hi Hj Htab. rewrite (tab_ext (v_mem s)) in Htab by (done || lia).
  rewrite (leaf_ext (v_mem s)); [| eapply Ht, tab_elem; [| done]; lia | done]. by apply (sp_leaf _ _ _ _ _ Hs i).
Qed.

Lemma own_not_free s pd x l w : space kend s pd x l -> w ∈ own s pd -> w ∉ x ++ l.
Proof. intros Hs Hw. pose proof (sp_nodup _ _ _ _ _ Hs) as Hnd. apply NoDup_app in Hnd as (_ & Hd & _). by apply Hd. Qed.

Lemma tables_own s pd w : w ∈ pd :: tabs (v_mem s) pd -> w ∈ own s pd.
Proof. intros Hw. unfold own. rewrite app_comm_cons, elem_of_app. auto. Qed.

Lemma own_page s pd x l w : space kend s pd x l -> w ∈ own s pd -> page kend w.
Proof. intros Hs Hw. apply (sp_pages _ _ _ _ _ Hs). rewrite elem_of_app. auto. Qed.

Lemma outside_tables s s' pd x l :
  space kend s pd x l -> outside s s' l -> forall w, w ∈ pd :: tabs (v_mem s) pd -> same_page (v_mem s) (v_mem s') w.
Proof.
  intros Hs [_ Hfr] w Hw%tables_own. apply Hfr; [by eapply own_page |]. pose proof (own_not_free s pd x l w Hs Hw) as Hn.
  intros Hl. apply Hn. rewrite elem_of_app. auto.
Qed.

Lemma holds_carry s s' pd x l n fl f :
  space kend s pd x l -> holds s pd n fl f -> v_shm s' = v_shm s ->
  (forall b, lookup_pte (v_mem s') pd b = lookup_pte (v_mem s) pd b) ->
  (forall w, w ∈ own s pd -> same_page (v_mem s) (v_mem s') w) -> holds s' pd n fl f.
Proof.
  intros Hs [A1 A2 A3 A4 A5] Hsh Hlk Hsame. split; try done.
  - intros b Hb. destruct (A3 b Hb) as (v & B1 & B2 & B3 & B4). exists v. rewrite Hsh, Hlk. do 3 (split; [done |]).
    rewrite <- B4. pose proof (Z.mod_pos_bound b PGSIZE ltac:(done)). apply (Hsame v); [| lia].
    eapply (frame_own kend Hkend s pd x l b v _ Hs); [lia | done | apply A2 | done | exact B3].
  - intros b Hb. rewrite Hlk. by apply A4.
Qed.

(** ** The label [bad] *)

Lemma exec_bad_spec s0 s ip data argv pd ipo old y l :
  space kend (x_vm s0) old y l ->
  build_post ip data argv s0 (own (x_vm s0) old ++ y) l (Bad pd ipo) s ->
  runs (exec_bad kend pd ipo) s (fun r s' => r = -1 /\ pf_idle (x_fs s') /\ outside (x_vm s0) (x_vm s') l /\
    exists l', l' ≡ₚ l /\ space kend (x_vm s') old y l').
Proof.
  intros Hs0 (Hout & _ & Hfs & l1 & Hpd). unfold exec_bad. apply runs_bind.
  assert (runs (if pd =? 0 then ret tt else on_mem (freevm kend pd)) s (fun _ s' => x_fs s' = x_fs s /\
    outside (x_vm s0) (x_vm s') l /\ exists l', l' ≡ₚ l /\ kmem_free kend (v_kmem (x_vm s')) l')) as Hfree.
  { destruct Hpd as [(-> & Hf & Hp) | (Hne & Hs & Hp)].
    - cbn [Z.eqb]. apply runs_ret. split; [done |]. split; [done |]. by exists l1.
    - rewrite (proj2 (Z.eqb_neq pd 0) Hne). apply runs_on_mem.
      eapply runs_mono; [eapply (freevm_spec kend Hkend pd (x_vm s)); exact Hs |].
      intros [] v2 (l2 & Hf2 & Hp2 & Hsh2 & Hfr2). destruct Hout as [Hsh Hfr]. split; [done |]. split; [split |].
      + cbn. congruence.
      + intros w Hw Hn. eapply same_page_trans; [by apply Hfr | apply Hfr2; [done | by rewrite Hp]].
      + exists l2. split; [by rewrite Hp2, Hp | done]. }
  eapply runs_mono; [exact Hfree |]. intros [] s1 (Hfs1 & Hout1 & l2 & Hp2 & Hf2).
  destruct (space_carry (x_vm s0) (x_vm s1) old y y l l2 Hs0) as (Hs1 & _); [apply Hout1 | by eapply outside_tables | done | by rewrite Hp2 |].
  destruct Hfs as [(-> & Hlk) | (-> & Hid)].
  - rewrite <- Hfs1 in Hlk. apply runs_bind, runs_on_fs. eapply runs_mono; [by apply (pf_put_law _ ip data) |]. intros [] fs2 Hb2.
    apply runs_bind, runs_on_fs. eapply runs_mono; [by apply pf_end_law |]. intros [] fs3 Hi3. apply runs_ret.
    split; [done |]. split; [done |]. split; [done |]. by exists l2.
  - apply runs_ret. rewrite Hfs1. split; [done |]. split; [done |]. split; [done |]. by exists l2.
Qed.

(** The switch: the old space is freed. *)
Lemma exec_switch_spec s0 s ip data argv old y l pd sz sp entry :
  space kend (x_vm s0) old y l ->
  build_post ip data argv s0 (own (x_vm s0) old ++ y) l (Built pd sz sp entry) s ->
  runs (on_mem (freevm kend old)) s (fun _ s' => x_fs s' = x_fs s /\
    outside (x_vm s0) (x_vm s') (own (x_vm s0) old ++ l) /\
    exists l' f n, ref_exec data argv = Some (mkProgram sz sp entry f) /\ sz = n * PGSIZE /\ 2 <= n /\
      space kend (x_vm s') pd y l' /\ own (x_vm s') pd ++ l' ≡ₚ own (x_vm s0) old ++ l /\ holds (x_vm s') pd n (guarded n) f).
Proof.
  intros Hs0 (Hout & _ & l1 & f & n & Href & Hn & Hn2 & Hs & Hp & Hh). pose proof Hout as [Hsh Hfr].
  destruct (space_carry (x_vm s0) (x_vm s) old y (own (x_vm s) pd ++ y) l l1 Hs0) as (Hso & Hoo & _);
    [done | by apply (outside_tables _ _ old y l) | apply Hs | by rewrite <- Hp, <- app_assoc, (Permutation_app_swap_app y) |].
  apply runs_on_mem. eapply runs_mono; [eapply (freevm_spec kend Hkend old (x_vm s)); exact Hso |].
  intros [] v2 (l2 & Hf2 & Hp2 & Hsh2 & Hfr2). rewrite Hoo in *. cbn [x_vm x_fs].
  assert (Hnew : forall w, w ∈ own (x_vm s) pd -> same_page (v_mem (x_vm s)) (v_mem v2) w).
  { intros w Hw. apply Hfr2; [exact (own_page _ _ _ _ w Hs Hw) |]. pose proof (own_not_free _ _ _ _ w Hs Hw) as Hn'.
    rewrite !elem_of_app in *. tauto. }
  destruct (space_carry (x_vm s) v2 pd _ y l1 l2 Hs) as (Hs2 & Ho2 & Hlk2); [done | | done | |].
  { intros w Hw. by apply Hnew, tables_own. }
  { rewrite Hp2, (Permutation_app_comm _ y), <- app_assoc. done. }
  split; [done |]. split.
  { split; [congruence |]. intros w Hw Hn'. rewrite elem_of_app in Hn'. eapply same_page_trans; [apply Hfr; tauto |].
    apply Hfr2; [done |]. rewrite elem_of_app. intros [?|Hl]; [tauto |]. apply Hn'. right. rewrite <- Hp, elem_of_app. auto. }
  exists l2, f, n. split; [done |]. split; [done |]. split; [done |]. split; [done |]. split.
  - rewrite Ho2, Hp2, (Permutation_app_swap_app _ (own (x_vm s0) old)). by rewrite Hp.
  - eapply holds_carry; [exact Hs | exact Hh | done | done | done].
Qed.
End exec.

(** * Properties of exec *)

(** The bytes a user program can read and write. *)
Definition user_byte (m : mem) (pd b : Z) : option Z :=
  e ← lookup_pte m pd b;
  if (Z.land e PTE_U =? 0) || (Z.land e PTE_W =? 0) then None else Some (m (P2V (PTE_ADDR e) + b mod PGSIZE)).

(** The address space of a program: its bytes, but for the guard page below
    its stack, and above them the mappings of the kernel. *)
Definition program_in (kdata : Z) (m : mem) (pd : Z) (pr : program) : Prop :=
  (forall b, 0 <= b < pr_sz pr -> user_byte m pd b =
    if decide (b / PGSIZE = pr_sz pr / PGSIZE - 2) then None else Some (pr_byte pr b)) /\
  (forall b, pr_sz pr <= b < 4294967296 -> lookup_pte m pd b = kmap_view (kmap kdata) b).

Lemma holds_program kend kdata s pd n f sp entry :
  KERNBASE < kend -> holds kend kdata s pd n (guarded n) f -> program_in kdata (v_mem s) pd (mkProgram (n * PGSIZE) sp entry f).
Proof.
  intros Hk [A1 A2 A3 A4 A5]. split; cbn [pr_sz pr_byte]; [| done]. rewrite Z.div_mul by done. intros b Hb.
  destruct (A3 b Hb) as (v & Hv & _ & Hl & <-). unfold user_byte. rewrite Hl. cbn [mbind option_bind].
  rewrite (pte_frame kend Hk v _ Hv (A2 _)). destruct (page_V2P_aligned kend Hk v Hv) as [[k ->]%aligned_eq_mul _].
  rewrite pte_U_perm. assert (Z.land (pte_of (k * PGSIZE) (guarded n (b / PGSIZE))) PTE_W = PTE_W) as ->.
  { rewrite pte_bits by done. unfold guarded. by case_decide. }
  unfold guarded. by case_decide.
Qed.

(** The process that runs the program. *)
Definition started (pr : program) (pd : Z) (path : cstring) (p : proc) : proc :=
  set_tf (tf_set_entry (pr_entry pr) (pr_sp pr) (p_tf p))
    (set_sz (pr_sz pr) (set_pgdir pd (set_name (short_name (last_name path path)) p))).

Lemma setpath_keeps index path_addr cs p r path p' :
  setpath index path_addr 2 cs p = Ok (r, path, p') -> p_pgdir p' = p_pgdir p /\ p_kstack p' = p_kstack p.
Proof.
  unfold setpath. intros H. repeat (apply rbind_Ok in H as (? & ? & H)).
  destruct (strcmp _ _ =? 0); [by injection H as <- <- <- |]. repeat (apply rbind_Ok in H as (? & ? & H)).
  destruct (negb (rootcmp _ _ =? 0)) in H; by injection H as <- <- <-.
Qed.

(** The program a path means. *)
Definition meant (tree : cstring -> option (list Z)) (r : Z) (path : cstring) (argv : list cstring) : option program :=
  if r <? 0 then None else data ← tree path; ref_exec data argv.

Lemma ref_exec_passed data argv pr :
  Forall (Forall (fun c => c <> 0)) argv -> ref_exec data argv = Some pr -> passed (pr_byte pr) (pr_sp pr) argv.
Proof.
  intros Hargs. unfold ref_exec. case_match; [done |]. intros (im & Hl & Hst)%bind_Some.
  apply ref_load_sz in Hl. cbn [im_sz] in Hl. by apply (ref_stack_passed _ im argv pr Hl Hargs) in Hst as [Hp _].
Qed.

(** What a call of exec leaves: [l'] are the free pages. *)
Definition exec_done (kend kdata : Z) (v v' : vst) (p p' p1 : proc) (path : cstring) (argv : list cstring)
  (prog : option program) (y l : list Z) (ret : Z) (l' : list Z) : Prop :=
  v_shm v' = v_shm v /\
  ((ret = 0 /\ exists pr pd, prog = Some pr /\ p' = started pr pd path p1 /\
      space kend v' pd y l' /\ own v' pd ++ l' ≡ₚ own v (p_pgdir p) ++ l /\
      program_in kdata (v_mem v') pd pr /\ passed (pr_byte pr) (pr_sp pr) argv) \/
   (ret = -1 /\ p' = p1 /\ space kend v' (p_pgdir p) y l' /\ l' ≡ₚ l /\
      (forall w, page kend w -> w ∉ l -> same_page (v_mem v) (v_mem v') w) /\
      match prog with Some pr => Z.of_nat (length l) <= 1025 + npages (pr_sz pr) | None => True end)).

(** [exec] with a file system that keeps its promise. *)
Lemma exec_spec {F : Type} {tree : cstring -> option (list Z)} {regular : cstring -> Prop} `{ProgFsSpec F tree regular}
  kend kdata (s : xst F) cs p pathcmd argv y l r path p1 :
  KERNBASE < kend -> kdata_ok kdata -> pf_idle (x_fs s) -> space kend (x_vm s) (p_pgdir p) y l -> p_kstack p <> 0 ->
  (length pathcmd < 128)%nat -> setpath (-1) pathcmd 2 cs p = Ok (r, path, p1) -> (0 <= r -> regular path) ->
  Forall (fun a => Z.of_nat (length a) < 33554432 /\ Forall (fun c => c <> 0) a) argv ->
  exists ret p' s' l', exec kend kdata cs p pathcmd argv s = Ok ((ret, p'), s') /\ pf_idle (x_fs s') /\
    exec_done kend kdata (x_vm s) (x_vm s') p p' p1 path argv (meant tree r path argv) y l ret l'.
Proof.
  intros Hkend Hkdata Hidle Hs Hks Hlen Hset Hreg Hargs.
  assert (Hargs1 : Forall (fun a => Z.of_nat (length a) < 33554432) argv) by (eapply Forall_impl; [exact Hargs |]; by intros ? []).
  assert (Hargs2 : Forall (Forall (fun c => c <> 0)) argv) by (eapply Forall_impl; [exact Hargs |]; by intros ? []).
  destruct (setpath_keeps _ _ _ _ _ _ _ Hset) as [Hpd1 Hks1].
  assert (runs (exec kend kdata cs p pathcmd argv) s (fun a s' => pf_idle (x_fs s') /\ exists l',
    exec_done kend kdata (x_vm s) (x_vm s') p a.2 p1 path argv (meant tree r path argv) y l a.1 l'))
    as ([ret p'] & s' & He & Hi & l' & HQ); [| by exists ret, p', s', l'].
  unfold exec. apply runs_bind. eapply runs_lift; [unfold fits; by rewrite (proj2 (Nat.ltb_lt _ _) Hlen) |].
  apply runs_bind. eapply runs_lift; [exact Hset |]. unfold meant.
  assert (Hsame : forall fs : F, exec_done kend kdata (x_vm s) (x_vm (mkX fs (x_vm s))) p p1 p1 path argv None y l (-1) l).
  { intros fs. split; [done |]. right. split; [done |]. split; [done |]. split; [done |]. split; [done |].
    split; [by intros w _ _ z _ | done]. }
  destruct (Z.ltb_spec r 0) as [Hr|Hr].
  { apply runs_ret. split; [done |]. exists l. apply (Hsame (x_fs s)). }
  specialize (Hreg Hr).
  apply runs_bind, runs_on_fs. eapply runs_mono; [by apply pf_begin_law |]. intros [] fs1 Hb1. cbn [x_fs x_vm].
  apply runs_bind, runs_on_fs. eapply runs_mono; [by apply (pf_namei_law _ path) |]. intros ipo fs2 Hn2. cbn [x_fs x_vm].
  destruct (tree path) as [data|]; cbn [mbind option_bind].
  2: { destruct Hn2 as [-> Hb2]. apply runs_bind, runs_on_fs. eapply runs_mono; [by apply pf_end_law |].
       intros [] fs3 Hi3. apply runs_ret. split; [done |]. exists l. apply (Hsame fs3). }
  destruct Hn2 as (ip & -> & Hh2). apply runs_bind, runs_on_fs. eapply runs_mono; [by apply (pf_ilock_law _ ip data) |].
  intros [] fs3 Hlk3. cbn [x_fs x_vm]. set (s3 := mkX fs3 (x_vm s)). apply runs_bind.
  eapply runs_mono; [apply (exec_build_spec kend kdata Hkend Hkdata s3 ip data argv (own (x_vm s) (p_pgdir p) ++ y) l Hlk3); [by apply space_pool | done] |].
  intros [pd sz sp entry | pd ipo] s4 Hpost.
  - pose proof Hpost as (_ & Hidle4 & _). apply runs_bind, runs_on_mem. eexists tt, _. split.
    { unfold switchuvm. cbn [p_kstack p_pgdir set_tf set_sz set_pgdir set_name]. rewrite Hks1, (proj2 (Z.eqb_neq _ 0) Hks).
      destruct Hpost as (_ & _ & l4 & f & n & _ & _ & _ & Hs4 & _). rewrite (proj2 (Z.eqb_neq pd 0)); [done |].
      by eapply (page_ne0 kend), space_pd_page. }
    replace (mkX (x_fs s4) (x_vm s4)) with s4 by (by destruct s4). rewrite Hpd1. apply runs_bind.
    eapply runs_mono; [eapply (exec_switch_spec kend kdata Hkend s3 s4 ip data argv (p_pgdir p) y l); [done | exact Hpost] |].
    intros [] s5 (Hfs5 & [Hsh5 _] & l5 & f & n & Href & -> & Hn & Hs5 & Hp5 & Hh5). apply runs_ret. rewrite Hfs5. split; [done |].
    exists l5. split; [done |]. left. split; [done |]. eexists _, pd. split; [exact Href |]. split; [done |]. split; [done |].
    split; [done |]. split; [by eapply (holds_program kend) |]. by eapply ref_exec_passed.
  - apply runs_bind. eapply runs_mono; [eapply (exec_bad_spec kend kdata Hkend s3 s4 ip data argv pd ipo (p_pgdir p) y l); [done | exact Hpost] |].
    intros r' s5 (-> & Hi5 & [Hsh5 Hfr5] & l5 & Hp5 & Hs5). apply runs_ret. split; [done |]. exists l5. split; [done |]. right.
    split; [done |]. split; [done |]. split; [done |]. split; [done |]. split; [done |].
    destruct Hpost as (_ & Hshort & _). exact Hshort.
Qed.
