(* ===== verification/ExecFs.v ===== *)
(** * Programs from the file system

    The file system of fs.c on the log of log.c keeps the promise that [exec]
    relies on: between [begin_op] and [end_op] the paths and the contents of
    files are those of the disk, and a call leaves the disk and the counts of
    the inode cache as they were. *)

From stdpp Require Import gmap functions.
From S2P Require Import Prelude Mem CString Params Bytes Cache Bio Log Tx Fs FsAlloc FsFile FsDisk FsDemo FsDir FsPath Kalloc Pipe File Sysfile FsIo ProcDef Container Vm VmProof VmCopy Exec ExecProof.

(** ** The paths of two disks with the same file system blocks *)

Section agree.
Context {area : Z -> Prop} {sb : superblock} (Hg : geometry area sb).
Context (v v' : Z -> block) (Hv : forall b, area b -> v' b = v b) (Hd : disk_ok (sb := sb) v) (Hdirs : dirs_ok (sb := sb) v).

Abbreviation live j := (is_inum (sb := sb) j /\ d_type (dinode_at (sb := sb) v j) <> 0).

Lemma dents_agree j : live j -> dents (sb := sb) v' j = dents (sb := sb) v j.
Proof.
  intros [Hj Hty]. unfold dents. rewrite (dinode_agree Hg v v' Hv) by done.
  apply list_fmap_ext. intros k x _. by rewrite (file_agree Hg v v' Hv Hd).
Qed.

Lemma dirs_agree : dirs_ok (sb := sb) v'.
Proof.
  intros j Hj Hty. rewrite (dinode_agree Hg v v' Hv) in Hty by done. destruct (Hdirs j Hj Hty) as [H1 H2].
  assert (live j) by (split; [done |]; rewrite Hty; done). split; [by rewrite (dinode_agree Hg v v' Hv) |].
  intros de Hde Hnz. rewrite dents_agree in Hde by done. destruct (H2 de Hde Hnz) as (H3 & H4 & H5).
  by rewrite (dinode_agree Hg v v' Hv).
Qed.

Lemma path_walk_agree parent es : forall j, live j ->
  path_walk (sb := sb) parent v' j es = path_walk (sb := sb) parent v j es.
Proof.
  induction es as [|e es IH]; intros j Hj; [done |]. cbn [path_walk]. rewrite (dinode_agree Hg v v' Hv) by apply Hj.
  destruct (Z.eqb_spec (d_type (dinode_at (sb := sb) v j)) T_DIR) as [Hty|]; [| done]. cbn [negb].
  destruct (parent && bool_decide (es = [])); [done |]. unfold dir_find. rewrite dents_agree by done.
  destruct (dir_scan _ _ _) as [[j' off]|] eqn:Hf; [| done].
  destruct (dir_find_lasting (sb := sb) v ∅ j (take DIRSIZ e) j' off) as (H1 & H2 & _); [by apply Hdirs; [apply Hj |] | exact Hf |].
  by apply IH.
Qed.

Lemma path_walk_live refs parent es : forall j j', lasting (sb := sb) v refs j ->
  path_walk (sb := sb) parent v j es = Some j' -> lasting (sb := sb) v refs j'.
Proof.
  induction es as [|e es IH]; intros j j' Hj; cbn [path_walk]; [destruct parent; [done |]; by intros [= <-] |].
  destruct (Z.eqb_spec (d_type (dinode_at (sb := sb) v j)) T_DIR) as [Hty|]; [| done]. cbn [negb].
  destruct (parent && bool_decide (es = [])); [by intros [= <-] |].
  destruct (dir_find (sb := sb) v j (take DIRSIZ e)) as [[k off]|] eqn:Hf; [| done]. apply IH.
  eapply dir_find_lasting; [by apply Hdirs; [apply Hj |] | exact Hf].
Qed.

Lemma icache_agree {T} (s : fs T) refs lk : icache_ok (sb := sb) s v refs lk -> icache_ok (sb := sb) s v' refs lk.
Proof.
  intros [H1 H2 H3 H4 H5]. split; [done | done | | done | done]. intros ip i Hi Hp.
  destruct (H3 ip i Hi Hp) as (K1 & K2 & K3 & K4). by rewrite (dinode_agree Hg v v' Hv).
Qed.

Lemma lasting_agree refs j : lasting (sb := sb) v refs j -> lasting (sb := sb) v' refs j.
Proof. intros (H1 & H2 & H3). unfold lasting. by rewrite !(dinode_agree Hg v v' Hv). Qed.
End agree.

Lemma byte_ok x k : bytes_ok x -> 0 <= byte_at x k < 256.
Proof.
  intros Hx. unfold byte_at. destruct (x !! k) as [b|] eqn:Hb; cbn; [| lia]. by apply (Forall_lookup_1 _ _ _ _ Hx Hb).
Qed.

(** ** The interface *)

Section files.
Context {S : Type} {disksize : Z} `{CacheSpec S disksize} `{!DevSw (T := log S)}.
Context {start lsize : Z} {sb : superblock} (Hg : geometry (home disksize start lsize) sb).

(** [exec] on this file system, for a process whose current directory is
    [cwd]; [stack] is what [namei] finds in its local array. *)
Definition fs_prog (cwd : nat) (stack : list Z) : ProgFs (fs (log S)) := {|
  pf_begin_op := op_begin;
  pf_end_op := op_end;
  pf_namei path := namei cwd path stack;
  pf_ilock ip := ilock (Some ip);
  pf_readi := readi;
  pf_iunlockput := iunlockput
|}.

(** The disk [d] and the references [refs] that the processes hold. *)
Context (d : Z -> block) (refs : gmap Z Z) (cwd : nat) (stack : list Z).

Definition disk_tree (path : cstring) : option (list Z) :=
  file_bytes (sb := sb) d <$> path_walk (sb := sb) false d ROOTINO (tokens [SLASH] path).

(** Absolute paths that do not lead to a device. *)
Definition plain_path (path : cstring) : Prop :=
  byte_at path 0 = SLASH /\ Forall (fun c => c <> 0) path /\
  forall j, path_walk (sb := sb) false d ROOTINO (tokens [SLASH] path) = Some j -> d_type (dinode_at (sb := sb) d j) <> T_DEV.

Record disk_fit : Prop := {
  df_disk : disk_ok (sb := sb) d;
  df_dirs : dirs_ok (sb := sb) d;
  df_root : lasting (sb := sb) d ∅ ROOTINO;
  df_bytes : forall b, bytes_ok (d b);
  df_room : roomy refs;
  df_lsize : 28 < lsize
}.

(** The inode cache with the references [R], seen through the view [v]. *)
Definition near (s : fs (log S)) (v : Z -> block) (R : gmap Z Z) (lk : option nat) : Prop :=
  (forall b, home disksize start lsize b -> v b = d b) /\ icache_ok (sb := sb) s v R lk /\
  (size refs + 1 < length (fs_ic s))%nat.

Definition in_op (s : fs (log S)) (R : gmap Z Z) (lk : option nat) : Prop :=
  exists d0 w v L, settled (H0 := log_tx_spec d0 w start lsize CAP) (fs_tx s) v ∅ L /\ near s v R lk.

Definition fs_idle (s : fs (log S)) : Prop :=
  exists d0 w v, logged (fs_tx s) d0 v [] w /\ l_start (fs_tx s) = start /\ l_size (fs_tx s) = lsize /\
    l_outstanding (fs_tx s) = 0 /\ l_committing (fs_tx s) = 0 /\ near s v refs None.

Definition of_file (s : fs (log S)) (ip : nat) (data : list Z) (lk : option nat) : Prop :=
  exists j, refers s ip j /\ lasting (sb := sb) d refs j /\ d_type (dinode_at (sb := sb) d j) <> T_DEV /\
    data = file_bytes (sb := sb) d j /\ in_op s (incr j refs) lk /\
    (lk = Some ip -> exists i, fs_ic s !! ip = Some i /\ i_inum i = j /\ i_di i = dinode_at (sb := sb) d j).

Hypothesis Hfit : disk_fit.

Lemma fs_begin s : fs_idle s -> runs op_begin s (fun _ s' => in_op s' refs None).
Proof.
  intros (d0 & w & v & Hl & Hst & Hsz & Ho & Hc & Hv & Hic & Hlen).
  eapply runs_mono; [by apply (op_begin_spec (start := start) (lsize := lsize) s d0 v w); [.. | apply Hfit] |].
  intros [] s' (t & -> & Ht). exists d0, w, v, ∅. split; [done |]. split; [done |]. split; [by apply icache_tx | done].
Qed.

Lemma fs_end s : in_op s refs None -> runs op_end s (fun _ s' => fs_idle s').
Proof.
  intros (d0 & w & v & L & Hs & Hv & Hic & Hlen). eapply runs_mono; [by apply (op_end_spec (start := start) (lsize := lsize) s d0 w v L) |].
  intros [] s' (t & -> & ws & (v' & Hl) & Hst & Hsz & Ho & Hc & _ & Hhome & _).
  assert (Hv' : forall b, home disksize start lsize b -> v' b = v b).
  { intros b Hb. rewrite <- (Hhome b Hb). by apply (quiet_clean _ _ _ _ _ b (lg_quiet _ _ _ _ _ Hl)). }
  exists (apply_writes ws d0), (w ++ ws), v'. split_and!; try done. split; [intros b Hb; rewrite Hv' by done; by apply Hv |].
  split; [| done]. apply icache_tx. by apply (icache_agree Hg v v' Hv').
Qed.

Lemma near_disk s v R lk : near s v R lk -> disk_ok (sb := sb) v /\ dirs_ok (sb := sb) v /\ lasting (sb := sb) v ∅ ROOTINO.
Proof.
  destruct Hfit as [H1 H2 H3 _ _ _]. intros [Hv _]. split; [by apply (disk_agree Hg d v) |].
  split; [by apply (dirs_agree Hg d v) | by apply (lasting_agree Hg d v)].
Qed.

Lemma root_live R : lasting (sb := sb) d R ROOTINO.
Proof.
  destruct (df_root Hfit) as (H1 & H2 & H3). split; [done |]. split; [done |]. left.
  destruct H3 as [?|[? H3]]; [done |]. by rewrite lookup_empty in H3.
Qed.

Lemma fs_namei s path : in_op s refs None -> plain_path path -> runs (namei cwd path stack) s (fun r s' =>
  match disk_tree path with
  | None => r = None /\ in_op s' refs None
  | Some data => exists ip, r = Some ip /\ of_file s' ip data None
  end).
Proof.
  intros (d0 & w & v & L & Hs & Hn) (Hsl & Hnz & Hdev). destruct (near_disk _ _ _ _ Hn) as (Hd & Hdirs & Hr1 & Hr2 & Hr3).
  destruct Hr3 as [Hr3|[? Hr3]]; [| by rewrite lookup_empty in Hr3]. destruct Hn as (Hv & Hic & Hlen). pose proof (root_live refs) as Hroot.
  unfold namei. apply runs_bind. eapply runs_mono; [apply (namex_root (H0 := log_tx_spec d0 w start lsize CAP) Hg s v refs L); try done; apply Hfit |].
  intros [r name] s' [(Hs' & Hlen' & Hres) _]. cbn [fst] in Hres. apply runs_ret. unfold disk_tree.
  rewrite (path_walk_agree Hg d v Hv) in Hres; [| apply Hfit | apply Hfit | by split; apply Hroot].
  assert (Hnear : forall R, icache_ok (sb := sb) s' v R None -> in_op s' R None).
  { intros R HR. exists d0, w, v, L. split; [done |]. split; [done |]. split; [done | lia]. }
  destruct (path_walk (sb := sb) false d ROOTINO (tokens [SLASH] path)) as [j|] eqn:Hw; cbn.
  - destruct Hres as (ip & -> & Href & Hic'). exists ip. split; [done |]. exists j. split; [done |].
    split; [by eapply (path_walk_live d (df_dirs Hfit) refs); [exact Hroot | exact Hw] |]. split; [by apply Hdev |]. split; [done |]. split; [by apply Hnear | done].
  - destruct Hres as [-> Hic']. split; [done |]. by apply Hnear.
Qed.

Lemma fs_ilock s ip data : of_file s ip data None -> runs (ilock (Some ip)) s (fun _ s' => of_file s' ip data (Some ip)).
Proof.
  intros (j & Href & Hl & Hdev & -> & (d0 & w & v & L & Hs & Hv & Hic & Hlen) & _).
  pose proof (dinode_agree Hg d v Hv j (proj1 Hl)) as Hdi.
  eapply runs_mono; [apply (ilock_counts (H0 := log_tx_spec d0 w start lsize CAP) Hg s v _ ip j L Hs Hic Href); rewrite Hdi; apply Hl |].
  intros [] s' (Hs' & Hlen' & Hic' & i & Hca & Hpos). destruct Hca as [_ Hi _ Hin _ Hidi]. exists j.
  split; [by exists i |]. split; [done |]. split; [done |]. split; [done |]. split.
  - exists d0, w, v, L. split; [done |]. split; [done |]. split; [done | lia].
  - intros _. exists i. by rewrite Hidi.
Qed.

Lemma file_size j : is_inum (sb := sb) j -> Z.of_nat (length (file_bytes (sb := sb) d j)) = d_size (dinode_at (sb := sb) d j) /\
  0 <= d_size (dinode_at (sb := sb) d j) < 2147483648.
Proof.
  intros Hj. pose proof (dk_inodes _ (df_disk Hfit) _ Hj) as [Hw Hmx _]. pose proof (dw_size _ Hw). unfold file_bytes.
  rewrite bytes_length. unfold MAXBYTES in Hmx. lia.
Qed.

Lemma fs_readi s ip data off n : of_file s ip data (Some ip) -> 0 <= off < 4294967296 -> 0 <= n <= PGSIZE ->
  runs (readi ip off n) s (fun r s' => r = file_read data off n /\ of_file s' ip data (Some ip)).
Proof.
  intros (j & Href & Hl & Hdev & -> & Hop & Hi) Ho Hn. destruct (Hi eq_refl) as (i & Hat & Hin & Hdi).
  pose proof Hop as (d0 & w & v & L & Hs & Hnear). pose proof Hnear as (Hv & Hic & Hlen).
  destruct (near_disk _ _ _ _ Hnear) as (Hd & _). destruct (file_size j (proj1 Hl)) as [Hsz Hmx].
  unfold file_read. rewrite Hsz. destruct (Z.ltb_spec (d_size (dinode_at (sb := sb) d j)) off) as [Hlt|Hge].
  { cbn [orb]. unfold readi. eapply runs_inode_at; [exact Hat |]. rewrite Hdi, (proj2 (Z.eqb_neq _ _) Hdev).
    rewrite (proj2 (Z.ltb_lt _ _) Hlt). apply runs_ret. split; [done |]. by exists j. }
  assert (Hu : u32 (off + n) = off + n) by (apply Z.mod_small; unfold PGSIZE in Hn; lia).
  cbn [orb]. rewrite Hu, (proj2 (Z.ltb_ge _ _)) by lia. rewrite <- (file_agree Hg d v Hv (df_disk Hfit) j) by apply Hl.
  pose proof (dinode_agree Hg d v Hv j (proj1 Hl)) as Hdv. destruct Href as (i2 & Hi2 & _ & Hpos). rewrite Hat in Hi2. injection Hi2 as <-.
  destruct (ic_used _ _ _ _ Hic ip i Hat Hpos) as (Hdv1 & _).
  eapply runs_mono; [apply (readi_disk (H0 := log_tx_spec d0 w start lsize CAP) Hg s ip i v j L); try done |].
  - split; try done; [apply Hic | apply Hl | by rewrite Hdv].
  - rewrite Hdi. apply Hl.
  - by rewrite Hdi.
  - rewrite Hdi. lia.
  - lia.
  - unfold PGSIZE in Hn. lia.
  - intros r s' (-> & t & -> & Ht). split; [done |]. exists j. rewrite (file_agree Hg d v Hv (df_disk Hfit) j) by apply Hl.
    split; [by exists i |]. split; [done |]. split; [done |]. split; [done |]. split; [| by intros _; exists i].
    exists d0, w, v, L. split; [done |]. split; [done |]. split; [by apply icache_tx | done].
Qed.

Lemma fs_put s ip data : of_file s ip data (Some ip) -> runs (iunlockput ip) s (fun _ s' => in_op s' refs None).
Proof.
  intros (j & Href & Hl & Hdev & -> & (d0 & w & v & L & Hs & Hv & Hic & Hlen) & _).
  eapply runs_mono; [apply (iunlockput_counts (sb := sb) s v refs _ ip j Hic Href (lasting_agree Hg d v Hv refs j Hl));
    [apply incr_more |]; apply Hfit |].
  intros [] s' (Ht & Hlen' & Hic' & _). rewrite decr_incr in Hic' by (intros r Hr; by apply (df_room Hfit j)).
  exists d0, w, v, L. split; [by rewrite Ht |]. split; [done |]. split; [done | lia].
Qed.

(** The promise is kept. *)
Definition fs_prog_spec : ProgFsSpec (H := fs_prog cwd stack) (fs (log S)) disk_tree plain_path.
Proof.
  unshelve econstructor.
  - exact fs_idle.
  - exact (fun s => in_op s refs None).
  - exact (fun s ip data => of_file s ip data None).
  - exact (fun s ip data => of_file s ip data (Some ip)).
  - exact fs_begin.
  - exact fs_end.
  - exact fs_namei.
  - exact fs_ilock.
  - exact fs_readi.
  - exact fs_put.
  - intros s ip data (j & _ & Hl & _ & -> & _). destruct (file_size j (proj1 Hl)) as [-> Hsz]. split; [lia |].
    apply Forall_fmap, Forall_true. intros o. by apply byte_ok, (df_bytes Hfit).
Defined.
End files.


(** ** A program that starts *)

(** Memory with [n] free pages, and in it an address space with no user page. *)
Lemma fresh_space n :
  1025 < Z.of_nat n <= 32768 ->
  exists s pd l, space 0x80200000 s pd [] l /\ Z.of_nat n <= Z.of_nat (length l) + 1025.
Proof.
  intros Hn. destruct (freerange_loop_spec 0x80200000 n (S n) 0x80400000 (0x80400000 + Z.of_nat n * PGSIZE) (mkKmem 0 0 (fun _ => 0)) [])
    as (k & _ & Hf & _).
  - unfold PGSIZE. lia.
  - lia.
  - intros q (i & Hi & ->)%elem_of_range_pages. split; [| apply not_elem_of_nil]. unfold page, KERNBASE, PHYSTOP, PGSIZE.
    split; [| lia]. rewrite <- (Z.mod_mul (0x80400 + Z.of_nat i) 4096) by lia. f_equal. lia.
  - by split; [| constructor].
  - rewrite app_nil_r in Hf. set (L := reverse (range_pages 0x80400000 n)) in *.
    assert (length L = n) as HL by (unfold L; rewrite length_reverse; unfold range_pages; by rewrite length_fmap, length_seq).
    destruct (setupkvm_spec 0x80200000 ltac:(by vm_compute) 0x80108000 ltac:(by vm_compute) (mkVst k []) [] L) as (pd & s & _ & _ & _ & l & Hr).
    { split; [done | apply Hf | | done]. intros v Hv. destruct Hf as [Hc _]. by eapply free_chain_page. }
    destruct Hr as [(_ & _ & _ & Hle)|(_ & Hs & Hp & Hv)]; [lia |]. exists s, pd, l. split; [done |].
    pose proof (Permutation_length Hp) as He. rewrite length_app in He.
    assert (length (own s pd) <= 1025)%nat; [| lia]. apply own_tables. intros b Hb. rewrite Hv by (unfold KERNBASE in Hb; lia).
    apply kmap_view_user; [| done]. apply kmap_kmap_ok. by vm_compute.
Qed.


Definition demo_argv : list cstring := [[97]; [120; 121]].
Definition demo_container : container := mkContainer 1 [] [] [] 8 0 (render []) 1 0 0 0 0.
Definition demo_proc (pd : Z) : proc := set_kstack 1 (set_pgdir pd (set_path (render []) proc_zero)).

Lemma demo_means : exists pr, meant (disk_tree (sb := demo_sb) demo_disk) 0 (render [[97]]) demo_argv = Some pr /\
  pr_sz pr = 12288 /\ pr_sp pr = 12256.
Proof.
  assert (match meant (disk_tree (sb := demo_sb) demo_disk) 0 (render [[97]]) demo_argv with
          | Some pr => pr_sz pr = 12288 /\ pr_sp pr = 12256 | None => False end) as H by (vm_compute; done).
  destruct (meant _ _ _ _) as [pr|]; [by exists pr | done].
Qed.

Lemma demo_disk_bytes b : bytes_ok (demo_disk b).
Proof.
  assert (forall b, b ∈ [1; 32; 34; 35; 36; 37] -> forallb (fun x => (0 <=? x) && (x <? 256)) (demo_disk b) = true) as Ha.
  { intros c Hc. repeat (apply elem_of_cons in Hc as [->|Hc]; [by vm_compute |]). by apply not_elem_of_nil in Hc. }
  destruct (decide (b ∈ [1; 32; 34; 35; 36; 37])) as [Hb|Hb].
  - apply Forall_forall. intros x Hx. specialize (Ha b Hb). rewrite forallb_forall in Ha.
    specialize (Ha x (proj1 (list_elem_of_In _ _) Hx)). lia.
  - rewrite !not_elem_of_cons in Hb. destruct Hb as (H1 & H2 & H3 & H4 & H5 & H6 & _). unfold demo_disk.
    rewrite !(proj2 (Z.eqb_neq _ _)) by done. apply Forall_replicate. lia.
Qed.

Lemma demo_fit : disk_fit (lsize := 30) (sb := demo_sb) demo_disk {[1 := 1]}.
Proof.
  split.
  - apply demo_disk_ok.
  - apply demo_dirs.
  - split; [by vm_compute |]. split; [| left]; by vm_compute.
  - apply demo_disk_bytes.
  - intros x r [<- <-]%lookup_singleton_Some. lia.
  - lia.
Qed.

Lemma demo_idle : fs_idle (H0 := bio_spec 200) (start := 2) (lsize := 30) (sb := demo_sb) demo_disk {[1 := 1]} (demo_fs 1).
Proof.
  exists demo_disk, [], demo_disk. split; [apply demo_logged |]. do 4 (split; [reflexivity |]). split; [done |].
  split; [| rewrite map_size_singleton; simpl; lia]. destruct (demo_icache_ok 1) as [H1 H2 H3 H4 H5]; [unfold is_inum; simpl; lia |].
  by split.
Qed.

Lemma demo_kdata : kdata_ok 0x80108000.
Proof. by vm_compute. Qed.

Lemma demo_plain : plain_path (sb := demo_sb) demo_disk (render [[97]]).
Proof.
  split; [done |]. split; [apply (bool_decide_unpack _); by vm_compute |].
  assert (path_walk (sb := demo_sb) false demo_disk ROOTINO (tokens [SLASH] (render [[97]])) = Some 2) as -> by (vm_compute; done).
  intros j [= <-]. by vm_compute.
Qed.

#[local] Opaque boot_on demo_disk.

