(* ===== verification/Mkfs.v ===== *)
(** * Making the file system (mkfs.c)

    The program that writes the first disk: an empty image with a super block
    and a root directory, and in it the files of its arguments. The image is
    a file of the host, which mkfs reads and writes a sector at a time; what
    the host answers to [open] and [read] for the other files is part of the
    input. Where the program stops with [exit(1)] or a failed [assert] the
    model gives [Panic]; the host has no errors of its own on the image, and
    the messages of the program are left out. The machine that mkfs runs on
    keeps integers in the order of the disk. *)

From stdpp Require Import functions.
From S2P Require Import Prelude Mem Params Bytes Cache Log Fs.

Definition NINODES : Z := 200.

Definition nbitmap : Z := FSSIZE / (Z.of_nat BSIZE * 8) + 1.
Definition ninodeblocks : Z := NINODES / IPB + 1.
Definition nlog : Z := LOGSIZE.
Definition nmeta : Z := 2 + nlog + ninodeblocks + nbitmap.
Definition nblocks : Z := FSSIZE - nmeta.

(** Intel byte order, byte by byte. *)
Definition xshort (x : Z) : Z := get16 [uchar x; uchar (Z.shiftr x 8)] 0.
Definition xint (x : Z) : Z :=
  get32 [uchar x; uchar (Z.shiftr x 8); uchar (Z.shiftr x 16); uchar (Z.shiftr x 24)] 0.

Definition mkfs_sb : superblock :=
  mkSb (xint FSSIZE) (xint nblocks) (xint NINODES) (xint nlog) (xint 2) (xint (2 + nlog)) (xint (2 + nlog + ninodeblocks)).

(** The image, of [mk_len] sectors, and the two counters. *)
Record mk := mkMk {
  mk_img : Z -> block;
  mk_len : Z;
  mk_freeinode : Z;
  mk_freeblock : Z
}.

Definition zeroes : block := replicate BSIZE 0.

(** The sector at which [lseek] puts the file. *)
Definition sector (sec : Z) : Z := u32 (sec * Z.of_nat BSIZE) / Z.of_nat BSIZE.

Definition wsect (sec : Z) (buf : block) : ST mk unit :=
  modify (fun s => mkMk (<[sector sec := buf]> (mk_img s)) (Z.max (mk_len s) (sector sec + 1)) (mk_freeinode s) (mk_freeblock s)).

Definition rsect (sec : Z) : ST mk block :=
  let* len := get mk_len in
  if sector sec <? len then get (fun s => mk_img s (sector sec)) else panic "read".

Definition winode (inum : Z) (ip : dinode) : ST mk unit :=
  let bn := IBLOCK inum mkfs_sb in
  let* buf := rsect bn in
  wsect bn (dinode_put buf (dinode_off inum) ip).

Definition rinode (inum : Z) : ST mk dinode :=
  let* buf := rsect (IBLOCK inum mkfs_sb) in
  ret (dinode_get buf (dinode_off inum)).

Definition ialloc (type : Z) : ST mk Z :=
  let* inum := get mk_freeinode in
  modify (fun s => mkMk (mk_img s) (mk_len s) (u32 (inum + 1)) (mk_freeblock s)) ;;;
  winode inum (mkDinode (i16 (xshort type)) 0 0 (i16 (xshort 1)) (xint 0) (replicate (S NDIRECT) 0)) ;;;
  ret inum.

(** The buffer after [used] rounds of the loop. *)
Fixpoint used_bits (used : nat) : block :=
  match used with
  | O => zeroes
  | S k =>
      let buf := used_bits k in
      let i := Z.of_nat k in
      <[Z.to_nat (i / 8) := uchar (Z.lor (byte_at buf (Z.to_nat (i / 8))) (Z.shiftl 1 (i mod 8)))]> buf
  end.

Definition balloc (used : Z) : ST mk unit :=
  if negb (used <? Z.of_nat BSIZE * 8) then panic "used < BSIZE*8"
  else wsect (sb_bmapstart mkfs_sb) (used_bits (Z.to_nat used)).

(** [freeblock++] *)
Definition take_block : ST mk Z :=
  let* b := get mk_freeblock in
  modify (fun s => mkMk (mk_img s) (mk_len s) (mk_freeinode s) (u32 (b + 1))) ;;;
  ret b.

(** [din.addrs[k]], given a block if it has none. *)
Definition addr_block (k : nat) (din : dinode) : ST mk dinode :=
  if xint (default 0 (d_addrs din !! k)) =? 0 then
    let* b := take_block in
    ret (set_daddrs (<[k := xint b]> (d_addrs din)) din)
  else ret din.

(** The block of the file with the number [fbn]. *)
Definition file_block (fbn : Z) (din : dinode) : ST mk (Z * dinode) :=
  if fbn <? Z.of_nat NDIRECT then
    let* din := addr_block (Z.to_nat fbn) din in
    ret (xint (default 0 (d_addrs din !! Z.to_nat fbn)), din)
  else
    let* din := addr_block NDIRECT din in
    let ib := xint (default 0 (d_addrs din !! NDIRECT)) in
    let* indirect := rsect ib in
    let j := (Z.to_nat fbn - NDIRECT)%nat in
    if (NINDIRECT <=? j)%nat then undef
    else if get32 indirect (4 * j) =? 0 then
      let* b := take_block in
      let indirect := put32 indirect (4 * j) (xint b) in
      wsect ib indirect ;;;
      ret (xint (get32 indirect (4 * j)), din)
    else ret (xint (get32 indirect (4 * j)), din).

Fixpoint iappend_loop (fuel : nat) (p : list Z) (off : Z) (din : dinode) : ST mk (Z * dinode) :=
  let n := Z.of_nat (length p) in
  if n <=? 0 then ret (off, din)
  else
    match fuel with
    | O => fun _ => Hang
    | S f =>
        let fbn := off / Z.of_nat BSIZE in
        if negb (fbn <? MAXFILE) then panic "fbn < MAXFILE"
        else
          let* (x, din) := file_block fbn din in
          let n1 := Z.min n ((fbn + 1) * Z.of_nat BSIZE - off) in
          let* buf := rsect x in
          wsect x (blit buf (Z.to_nat (off - fbn * Z.of_nat BSIZE)) (take (Z.to_nat n1) p)) ;;;
          iappend_loop f (drop (Z.to_nat n1) p) (u32 (off + n1)) din
    end.

(** [p] are the [n] bytes at [xp]. *)
Definition iappend (inum : Z) (p : list Z) : ST mk unit :=
  let* din := rinode inum in
  let* (off, din) := iappend_loop (length p) p (xint (d_size din)) din in
  winode inum (set_dsize (xint off) din).

(** A directory entry whose name was filled in by [strcpy]. *)
Definition dot_entry (inum : Z) (name : cstring) : dirent :=
  mkDirent (xshort inum) (blit (replicate DIRSIZ 0) 0 (name ++ [0])).

(** An argument: the name, and what [open] and the calls of [read] up to the
    end of the file give. *)
Record arg := mkArg { a_name : cstring; a_reads : option (list (list Z)) }.

(** The name without its leading underscore. *)
Definition stored_name (name : cstring) : cstring :=
  match name with c :: rest => if c =? 95 then rest else name | [] => [] end.

Fixpoint append_all (inum : Z) (chunks : list (list Z)) : ST mk unit :=
  match chunks with
  | [] => ret tt
  | buf :: chunks' => iappend inum buf ;;; append_all inum chunks'
  end.

Definition add_file (rootino : Z) (a : arg) : ST mk unit :=
  if existsb (fun c => c =? 47) (a_name a) then panic "index(argv[i], '/') == 0"
  else
    match a_reads a with
    | None => panic "open"
    | Some chunks =>
        let* inum := ialloc T_FILE in
        iappend rootino (dirent_bytes (mkDirent (xshort inum) (strncpy_bytes (stored_name (a_name a)) DIRSIZ))) ;;;
        append_all inum chunks
    end.

Fixpoint add_files (rootino : Z) (files : list arg) : ST mk unit :=
  match files with
  | [] => ret tt
  | a :: files' => add_file rootino a ;;; add_files rootino files'
  end.

Fixpoint wzero (count : nat) (i : Z) : ST mk unit :=
  match count with
  | O => ret tt
  | S n => wsect i zeroes ;;; wzero n (i + 1)
  end.

(** "fix size of root inode dir" *)
Definition fix_root (rootino : Z) : ST mk unit :=
  let* din := rinode rootino in
  let off := xint (d_size din) in
  let off := u32 ((off / Z.of_nat BSIZE + 1) * Z.of_nat BSIZE) in
  winode rootino (set_dsize (xint off) din).

(** [main] once the image is open and empty. *)
Definition mkfs_main (files : list arg) : ST mk unit :=
  modify (fun s => mkMk (mk_img s) (mk_len s) (mk_freeinode s) nmeta) ;;;
  wzero (Z.to_nat FSSIZE) 0 ;;;
  wsect 1 (put32s zeroes 0 [sb_size mkfs_sb; sb_nblocks mkfs_sb; sb_ninodes mkfs_sb; sb_nlog mkfs_sb;
    sb_logstart mkfs_sb; sb_inodestart mkfs_sb; sb_bmapstart mkfs_sb]) ;;;
  let* rootino := ialloc T_DIR in
  if negb (rootino =? ROOTINO) then panic "rootino == ROOTINO"
  else
    iappend rootino (dirent_bytes (dot_entry rootino [46])) ;;;
    iappend rootino (dirent_bytes (dot_entry rootino [46; 46])) ;;;
    add_files rootino files ;;;
    fix_root rootino ;;;
    let* used := get mk_freeblock in
    balloc used.

(** The whole program: [argv] are its arguments after the name, of which the
    first is the image, and [fsfd] is what [open] gives for it. *)
Definition mkfs (argv : list arg) (fsfd : Z) : res (unit * mk) :=
  match argv with
  | [] => Panic "Usage: mkfs fs.img files..."
  | _ :: files => if fsfd <? 0 then Panic "open" else mkfs_main files (mkMk (fun _ => zeroes) 0 1 0)
  end.
