(* ===== verification/MkfsProof.v ===== *)
(** * What mkfs makes

    The image that [mkfs] writes is a file system in order, with an empty log,
    whose root directory leads to the files of the arguments. While it runs,
    the free map of the image is not yet there; the proofs look at the image
    with the free map that [balloc] will write for the blocks handed out so
    far, so that what is known about [writei] and the free map applies. *)

From stdpp Require Import gmap functions.
From S2P Require Import Prelude Mem CString Params Bytes Cache Log Tx Fs FsAlloc FsFile FsDisk FsDemo FsDir FsPath FsIo ExecProof ExecFs Mkfs.

(** ** Integers and layout *)

Lemma xint_eq x : xint x = u32 x.
Proof.
  unfold xint, get32, byte_at, u32, uchar. cbn. rewrite !Z.shiftr_div_pow2 by lia.
  change (2 ^ 8) with 256. change (2 ^ 16) with 65536. change (2 ^ 24) with 16777216. unfold id.
  pose proof (Z.rem_mul_r x 65536 65536 ltac:(lia) ltac:(lia)) as H1.
  pose proof (Z.rem_mul_r x 256 256 ltac:(lia) ltac:(lia)) as H2.
  pose proof (Z.rem_mul_r (x / 65536) 256 256 ltac:(lia) ltac:(lia)) as H3.
  rewrite Z.div_div in H3 by lia. change (65536 * 256) with 16777216 in H3. change (65536 * 65536) with 4294967296 in H1.
  change (256 * 256) with 65536 in *. lia.
Qed.

Lemma xshort_eq x : xshort x = x mod 65536.
Proof.
  unfold xshort, get16, byte_at, uchar. cbn. rewrite Z.shiftr_div_pow2 by lia. change (2 ^ 8) with 256. unfold id.
  by rewrite <- (Z.rem_mul_r x 256 256) by lia.
Qed.

Lemma mkfs_sb_eq : mkfs_sb = mkSb 4000 3941 200 30 2 32 58.
Proof. reflexivity. Qed.

Lemma mkfs_geometry : geometry (home 4000 2 30) mkfs_sb.
Proof.
  rewrite mkfs_sb_eq. split; unfold dstart; simpl; try rewrite IPB_eq; try rewrite BPB_eq.
  - lia.
  - repeat split; lia.
  - repeat split; lia.
  - intros b Hb. unfold home, on_disk. lia.
Qed.

Abbreviation Hg := mkfs_geometry.

Lemma mkfs_data b : is_data mkfs_sb b <-> 59 <= b < 4000.
Proof. rewrite mkfs_sb_eq. unfold is_data, dstart. simpl. lia. Qed.

Lemma mkfs_bblock b : 0 <= b < 4000 -> BBLOCK b mkfs_sb = 58.
Proof. intros Hb. rewrite (bblock_eq Hg) by (rewrite mkfs_sb_eq; simpl; lia). rewrite mkfs_sb_eq, BPB_eq. simpl. rewrite Z.div_small; lia. Qed.

Lemma mkfs_bmaps c : c ∈ bmaps mkfs_sb <-> c = 58.
Proof.
  split.
  - intros H%(bmaps_range Hg). rewrite mkfs_sb_eq in H. unfold dstart in H. simpl in H. lia.
  - intros ->. rewrite <- (mkfs_bblock 0) by lia. apply (bblock_range Hg). rewrite mkfs_sb_eq. simpl. lia.
Qed.

Lemma sector_small sec : 0 <= sec < 4000 -> sector sec = sec.
Proof. intros Hs. unfold sector. change (Z.of_nat BSIZE) with 512. rewrite u32_small by lia. apply Z.div_mul. lia. Qed.

(** ** The free map *)

Lemma used_bits_length n : length (used_bits n) = BSIZE.
Proof. induction n; [apply length_replicate | etrans; [apply length_insert | done]]. Qed.

Lemma used_bits_spec n b : (n <= 4096)%nat -> 0 <= b < 4096 ->
  Z.testbit (byte_at (used_bits n) (Z.to_nat (b / 8))) (b mod 8) = (b <? Z.of_nat n).
Proof.
  intros Hn Hb. induction n as [|n IH].
  - cbn [used_bits]. unfold zeroes, byte_at. rewrite (proj2 (Z.ltb_ge _ _)) by lia.
    destruct (replicate BSIZE 0 !! Z.to_nat (b / 8)) as [x|] eqn:Hx; cbn; [| apply Z.testbit_0_l].
    apply lookup_replicate in Hx as [-> _]. apply Z.testbit_0_l.
  - cbn [used_bits]. specialize (IH ltac:(lia)). set (i := Z.of_nat n) in *.
    pose proof (Z.div_mod b 8 ltac:(lia)). pose proof (Z.div_mod i 8 ltac:(lia)).
    pose proof (Z.mod_pos_bound b 8 ltac:(lia)). pose proof (Z.mod_pos_bound i 8 ltac:(lia)).
    pose proof (Z.div_pos b 8 ltac:(lia) ltac:(lia)). pose proof (Z.div_pos i 8 ltac:(lia) ltac:(lia)).
    assert (i / 8 < 512) by (apply Z.div_lt_upper_bound; lia).
    destruct (decide (b / 8 = i / 8)) as [He|Hne].
    + rewrite He in IH |- *. rewrite byte_at_insert_eq by (rewrite used_bits_length; unfold BSIZE; lia).
      rewrite set_bit_spec, IH by lia. case_decide; [rewrite (proj2 (Z.ltb_lt _ _)) by lia; done |].
      apply eq_true_iff_eq. rewrite !Z.ltb_lt. lia.
    + rewrite byte_at_insert_ne by lia. rewrite IH. apply eq_true_iff_eq. rewrite !Z.ltb_lt. lia.
Qed.

Lemma mkfs_bit v n b : (n <= 4096)%nat -> v 58 = used_bits n -> 0 <= b < 4000 -> bit mkfs_sb v b = (b <? Z.of_nat n).
Proof.
  intros Hn Hv Hb. unfold bit. rewrite mkfs_bblock, Hv, BPB_eq, (Z.mod_small b 4096) by lia. apply used_bits_spec; lia.
Qed.

(** The counter is the next block of the free map. *)
Lemma mkfs_balloced v n O :
  (59 <= n < 4000)%nat -> v 58 = used_bits n -> v (Z.of_nat n) = zeroes -> alloc_ok mkfs_sb v O ->
  balloced (sb := mkfs_sb) v (Z.of_nat n) O (<[58 := used_bits (S n)]> v).
Proof.
  intros Hn Hv Hz [Hb Hnd Hd]. set (v' := <[58 := _]> v).
  assert (v' 58 = used_bits (S n)) as Hv' by apply fn_lookup_insert.
  assert (Hbits : forall b, 0 <= b < 4000 -> dstart mkfs_sb <= b /\ b ∉ O <-> Z.of_nat n <= b).
  { intros b Hr. rewrite <- Hb by (rewrite mkfs_sb_eq; simpl; lia). rewrite (mkfs_bit v n) by (done || lia). apply Z.ltb_ge. }
  assert (Hno : Z.of_nat n ∉ O) by (apply (Hbits (Z.of_nat n)); lia).
  split; [apply mkfs_data; lia |]. split; [done |]. split; [| split].
  - subst v'. by rewrite fn_lookup_insert_ne by lia.
  - split; [| by apply NoDup_cons | apply Forall_cons; split; [apply mkfs_data; lia | done]].
    intros b Hr. rewrite mkfs_sb_eq in Hr. simpl in Hr. rewrite (mkfs_bit v' (S n)), Z.ltb_ge by (done || lia).
    rewrite not_elem_of_cons. destruct (Hbits b Hr) as [H1 H2]. split.
    + intros Hle. destruct (H2 ltac:(lia)). split; [done |]. split; [lia | done].
    + intros (H3 & H4 & H5). specialize (H1 (conj H3 H5)). lia.
  - intros c Hc Hm. subst v'. rewrite fn_lookup_insert_ne; [done |]. intros <-. by apply Hm, mkfs_bmaps.
Qed.

(** ** The image while mkfs runs *)

(** The image with the free map for the blocks handed out. *)
Definition view (s : mk) (v : Z -> block) : Prop :=
  forall c, v c = if c =? 58 then used_bits (Z.to_nat (mk_freeblock s)) else mk_img s c.

Record image_ok (s : mk) (v : Z -> block) : Prop := {
  im_view : view s v;
  im_len : mk_len s = 4000;
  im_free : 59 <= mk_freeblock s <= 4000;
  im_size : forall c, length (v c) = BSIZE;
  im_bytes : forall c, bytes_ok (mk_img s c);
  im_zero : forall c, mk_freeblock s <= c < 4000 -> v c = zeroes
}.

(** Blocks for [n] bytes. *)
Definition need (n : Z) : Z := (n + 511) / 512 + (if 6144 <? n then 1 else 0).

(** The file of [off] bytes has just the blocks for them, and zeros behind
    its end. *)
Record tight (v : Z -> block) (addrs : list Z) (off : Z) : Prop := {
  tg_nth : forall k, (k < NBLOCKS)%nat -> nth_block v addrs k <> 0 <-> 512 * Z.of_nat k < off;
  tg_ind : ind addrs <> 0 <-> 6144 < off;
  tg_zero : forall o, off <= o < (off + 511) / 512 * 512 -> fbyte v addrs o = 0
}.

Lemma runs_rsect s v sec (Q : block -> mk -> Prop) :
  image_ok s v -> 0 <= sec < 4000 -> sec <> 58 -> Q (v sec) s -> runs (rsect sec) s Q.
Proof.
  intros Him Hs Hne HQ. unfold rsect. apply runs_bind, runs_get. rewrite sector_small, (im_len _ _ Him) by done.
  rewrite (proj2 (Z.ltb_lt _ _)) by lia. apply runs_get. rewrite (im_view _ _ Him), (proj2 (Z.eqb_neq _ _) Hne) in HQ. exact HQ.
Qed.

Lemma runs_wsect s v sec buf (Q : unit -> mk -> Prop) :
  image_ok s v -> 0 <= sec < mk_freeblock s -> sec <> 58 -> length buf = BSIZE -> bytes_ok buf ->
  (forall s', image_ok s' (<[sec := buf]> v) -> mk_freeblock s' = mk_freeblock s -> mk_freeinode s' = mk_freeinode s -> Q tt s') ->
  runs (wsect sec buf) s Q.
Proof.
  intros [Hv Hl Hf Hsz Hb Hz] Hs Hne Hlen Hbuf HQ. unfold wsect. apply runs_modify. rewrite sector_small by lia. apply HQ; [| done | done].
  split; cbn [mk_freeblock mk_len mk_img]; try done.
  - intros c. cbn [mk_freeblock mk_img]. destruct (decide (c = sec)) as [->|Hc].
    + by rewrite !fn_lookup_insert, (proj2 (Z.eqb_neq _ _) Hne).
    + rewrite !fn_lookup_insert_ne by done. apply Hv.
  - rewrite Hl. lia.
  - intros c. destruct (decide (c = sec)) as [->|Hc]; [by rewrite fn_lookup_insert | by rewrite fn_lookup_insert_ne].
  - intros c. destruct (decide (c = sec)) as [->|Hc]; [by rewrite fn_lookup_insert | by rewrite fn_lookup_insert_ne].
  - intros c Hc. rewrite fn_lookup_insert_ne by lia. by apply Hz.
Qed.

Lemma runs_take_block s v O (Q : Z -> mk -> Prop) :
  image_ok s v -> mk_freeblock s < 4000 -> alloc_ok mkfs_sb v O ->
  (forall s' v', image_ok s' v' -> balloced (sb := mkfs_sb) v (mk_freeblock s) O v' ->
    mk_freeblock s' = mk_freeblock s + 1 -> mk_freeinode s' = mk_freeinode s -> Q (mk_freeblock s) s') ->
  runs take_block s Q.
Proof.
  intros [Hv Hl Hf Hsz Hb Hz] Hlt Ho HQ. unfold take_block. apply runs_bind, runs_get, runs_bind, runs_modify, runs_ret.
  assert (v 58 = used_bits (Z.to_nat (mk_freeblock s))) as H58 by (by rewrite Hv).
  pose proof (mkfs_balloced v (Z.to_nat (mk_freeblock s)) O ltac:(lia) H58) as Hbl. rewrite Z2Nat.id in Hbl by lia.
  rewrite u32_small by lia. eapply HQ; [| apply Hbl; [apply Hz; lia | done] | done | done].
  split; cbn [mk_freeblock mk_len mk_img]; try done.
  - intros c. cbn [mk_freeblock mk_img]. replace (Z.to_nat (mk_freeblock s + 1)) with (S (Z.to_nat (mk_freeblock s))) by lia.
    destruct (Z.eqb_spec c 58) as [->|Hc]; [by rewrite fn_lookup_insert |].
    rewrite fn_lookup_insert_ne, Hv by done. by rewrite (proj2 (Z.eqb_neq _ _) Hc).
  - lia.
  - intros c. destruct (decide (c = 58)) as [->|Hc]; [rewrite fn_lookup_insert; apply used_bits_length | by rewrite fn_lookup_insert_ne].
  - intros c Hc. rewrite fn_lookup_insert_ne by lia. apply Hz. lia.
Qed.

(** ** Bytes *)

Lemma insert_bytes (d : list Z) i x : bytes_ok d -> 0 <= x < 256 -> bytes_ok (<[i := x]> d).
Proof. intros Hd Hx. by apply Forall_insert. Qed.

Lemma mod256 x : 0 <= x mod 256 < 256.
Proof. by apply Z.mod_pos_bound. Qed.

#[local] Hint Resolve insert_bytes mod256 : core.

Lemma put32_bytes d off x : bytes_ok d -> bytes_ok (put32 d off x).
Proof. unfold put32. auto 10. Qed.

Lemma put16_bytes d off x : bytes_ok d -> bytes_ok (put16 d off x).
Proof. unfold put16. auto 10. Qed.

#[local] Hint Resolve put32_bytes put16_bytes : core.

Lemma put32s_bytes xs : forall d off, bytes_ok d -> bytes_ok (put32s d off xs).
Proof. induction xs as [|x xs IH]; intros d off Hd; [done |]. apply IH. auto. Qed.

Lemma dinode_put_bytes d off di : bytes_ok d -> bytes_ok (dinode_put d off di).
Proof. intros Hd. unfold dinode_put. apply put32s_bytes. auto 10. Qed.

Lemma blit_bytes d off x : bytes_ok d -> bytes_ok x -> bytes_ok (blit d off x).
Proof. intros Hd Hx. apply Forall_app. split; [by apply Forall_take |]. apply Forall_app. split; [done | by apply Forall_drop]. Qed.

Lemma zeroes_bytes n : bytes_ok (replicate n 0).
Proof. apply Forall_replicate. lia. Qed.

Lemma view_bytes s v c : image_ok s v -> c <> 58 -> bytes_ok (v c).
Proof. intros Him Hc. rewrite (im_view _ _ Him), (proj2 (Z.eqb_neq _ _) Hc). apply Him. Qed.

(** ** Appending to a file *)

Lemma need_step off : 0 <= off ->
  need (off + 1) - need off = (if off mod 512 =? 0 then 1 else 0) + (if off =? 6144 then 1 else 0).
Proof.
  intros Ho. unfold need. pose proof (Z.div_mod off 512 ltac:(lia)) as Hd. pose proof (Z.mod_pos_bound off 512 ltac:(lia)).
  assert ((off + 1 + 511) / 512 = off / 512 + 1) as ->.
  { replace (off + 1 + 511) with (off + 1 * 512) by lia. by rewrite Z.div_add by lia. }
  destruct (Z.eqb_spec (off mod 512) 0) as [Hm|Hm].
  - assert ((off + 511) / 512 = off / 512) as -> by (symmetry; apply (Z.div_unique _ _ _ 511); lia).
    destruct (Z.ltb_spec 6144 (off + 1)), (Z.ltb_spec 6144 off), (Z.eqb_spec off 6144); lia.
  - assert ((off + 511) / 512 = off / 512 + 1) as -> by (symmetry; apply (Z.div_unique _ _ _ (off mod 512 - 1)); lia).
    assert (off <> 6144) by (intros ->; by apply Hm). rewrite (proj2 (Z.eqb_neq off 6144)) by done.
    destruct (Z.ltb_spec 6144 (off + 1)), (Z.ltb_spec 6144 off); lia.
Qed.

Lemma set_daddrs_same di : set_daddrs (d_addrs di) di = di.
Proof. by destruct di. Qed.

Lemma addr_small a R v k : length a = S NDIRECT -> alloc_ok mkfs_sb v (fblocks v a ++ R) ->
  xint (default 0 (a !! k)) = default 0 (a !! k).
Proof.
  intros Hl Ho. rewrite xint_eq. apply u32_small. pose proof (addrs_range Hg R v a Hl Ho) as Ha.
  destruct (a !! k) as [x|] eqn:Hx; cbn; [by apply (Forall_lookup_1 _ _ _ _ Ha Hx) | lia].
Qed.

Lemma blk_no_start off : 0 <= off -> 512 * Z.of_nat (blk_no off) < off <-> off mod 512 <> 0.
Proof.
  intros Ho. unfold blk_no. pose proof (Z.div_pos off 512). pose proof (Z.div_mod off 512 ltac:(lia)).
  pose proof (Z.mod_pos_bound off 512 ltac:(lia)). rewrite Z2Nat.id by lia. lia.
Qed.

Lemma xint_block s v : image_ok s v -> xint (mk_freeblock s) = mk_freeblock s.
Proof. intros Him. pose proof (im_free _ _ Him). rewrite xint_eq. apply u32_small. lia. Qed.

Lemma owned_below s v O c : image_ok s v -> alloc_ok mkfs_sb v O -> c ∈ O -> 59 <= c < mk_freeblock s.
Proof.
  intros Him Ho Hc. pose proof (owned_data v O c Ho Hc) as Hd. rewrite mkfs_data in Hd. split; [lia |].
  destruct (Z.lt_ge_cases c (mk_freeblock s)) as [|Hge]; [done |]. pose proof (im_free _ _ Him).
  assert (bit mkfs_sb v c = false) as Hb.
  { rewrite (mkfs_bit v (Z.to_nat (mk_freeblock s))); [apply Z.ltb_ge; lia | lia | by rewrite (im_view _ _ Him) | lia]. }
  apply (ao_bits _ _ _ Ho) in Hb; [tauto |]. rewrite mkfs_sb_eq. simpl. lia.
Qed.

Section file_block.
Context (s : mk) (v : Z -> block) (R : list Z) (din : dinode) (off : Z) (L : gset Z).
Context (Him : image_ok s v) (Hlen : length (d_addrs din) = S NDIRECT).
Context (Ho : alloc_ok mkfs_sb v (fblocks v (d_addrs din) ++ R)) (Ht : tight v (d_addrs din) off).
Context (Hoff : 0 <= off < MAXBYTES) (Hroom : mk_freeblock s + (need (off + 1) - need off) <= 4000).

Abbreviation a := (d_addrs din).
Abbreviation k := (blk_no off).

Definition block_given (r : Z * dinode) (s' : mk) : Prop :=
  exists v1 L1 a1, r.2 = set_daddrs a1 din /\ image_ok s' v1 /\
    grown (sb := mkfs_sb) R v a L k r.1 v1 a1 L1 /\ mk_freeblock s' = mk_freeblock s + (need (off + 1) - need off) /\
    mk_freeinode s' = mk_freeinode s /\ (ind a1 <> 0 <-> 6144 < off + 1).

Lemma k_lt : (k < NBLOCKS)%nat.
Proof. by apply blk_no_lt. Qed.

Lemma k_nz : nth_block v a k <> 0 <-> off mod 512 <> 0.
Proof. rewrite (tg_nth _ _ _ Ht) by apply k_lt. apply blk_no_start. lia. Qed.

Lemma k_off : 512 * Z.of_nat k <= off < 512 * Z.of_nat k + 512.
Proof.
  unfold blk_no. pose proof (Z.div_pos off 512). pose proof (Z.div_mod off 512 ltac:(lia)).
  pose proof (Z.mod_pos_bound off 512 ltac:(lia)). lia.
Qed.

Lemma direct_spec : (k < NDIRECT)%nat ->
  runs (let* din := addr_block k din in ret (xint (default 0 (d_addrs din !! k)), din)) s block_given.
Proof.
  intros Hk. pose proof k_off as Hko. unfold NDIRECT in Hk. pose proof (need_step off ltac:(lia)) as Hn.
  rewrite (proj2 (Z.eqb_neq off 6144)) in Hn by lia. pose proof k_nz as Hnz.
  assert (nth_block v a k = default 0 (a !! k)) as Hnth by (unfold nth_block; by rewrite (proj2 (Nat.ltb_lt _ _)) by (unfold NDIRECT; lia)).
  assert (Hind : ind a = 0) by (destruct (decide (ind a = 0)) as [|Hi]; [done | apply (tg_ind _ _ _ Ht) in Hi; lia]).
  apply runs_bind. unfold addr_block. rewrite (addr_small a R v k Hlen Ho), <- Hnth.
  destruct (Z.eqb_spec (nth_block v a k) 0) as [Hz|Hz].
  - assert (off mod 512 = 0) as Hm by (destruct (decide (off mod 512 = 0)); [done |]; tauto). rewrite Hm in Hn. simpl in Hn.
    apply runs_bind. eapply (runs_take_block s v _ _ Him); [lia | exact Ho |]. intros s' v' Him' Hb Hf Hi. apply runs_ret, runs_ret.
    rewrite (xint_block s v Him).
    pose proof (grown_direct Hg R v a L k (mk_freeblock s) v' Ho ltac:(unfold NDIRECT; lia) Hlen Hz Hb) as Hgr.
    unfold block_given. cbn [fst snd d_addrs set_daddrs]. rewrite list_lookup_insert_eq by (rewrite Hlen; unfold NDIRECT; lia). cbn.
    unfold id. rewrite (xint_block s v Him). eexists v', _, _. split; [done |]. split; [done |]. split; [exact Hgr |]. split; [lia |].
    split; [done |]. unfold ind. rewrite list_lookup_insert_ne by (unfold NDIRECT; lia). fold (ind a). rewrite Hind. lia.
  - apply runs_ret, runs_ret. unfold block_given. cbn [fst snd]. rewrite (addr_small a R v k Hlen Ho), <- Hnth.
    rewrite (proj2 (Z.eqb_neq (off mod 512) 0)) in Hn by (by apply Hnz). exists v, L, a. rewrite set_daddrs_same. split; [done |].
    split; [done |]. split; [by apply grown_same |]. split; [lia |]. split; [done |]. rewrite Hind. lia.
Qed.

(** The indirect block is there, in [v1]. *)
Lemma indirect_ready : (NDIRECT <= k)%nat ->
  runs (addr_block NDIRECT din) s (fun din1 s1 => exists v1 L1 a1, din1 = set_daddrs a1 din /\ image_ok s1 v1 /\
    ready (sb := mkfs_sb) R v a L v1 a1 L1 /\ mk_freeblock s1 = mk_freeblock s + (if off =? 6144 then 1 else 0) /\
    mk_freeinode s1 = mk_freeinode s).
Proof.
  intros Hk. pose proof k_off as Hko. unfold NDIRECT in Hk. unfold addr_block. rewrite (addr_small a R v _ Hlen Ho).
  pose proof (need_step off ltac:(lia)) as Hn. fold (ind a). pose proof (tg_ind _ _ _ Ht) as Hi.
  destruct (Z.eqb_spec (ind a) 0) as [Hz|Hz].
  - assert (off = 6144) as He by lia. assert (need (off + 1) - need off = 2) by (rewrite Hn, He; reflexivity).
    apply runs_bind. eapply (runs_take_block s v _ _ Him); [lia | exact Ho |]. intros s' v' Him' Hb Hf Hi'. apply runs_ret.
    rewrite (xint_block s v Him). eexists v', _, _. split; [done |]. split; [done |].
    split; [by apply (ready_new Hg R v a L (mk_freeblock s) v') |]. rewrite He. simpl. split; [lia | done].
  - apply runs_ret. exists v, L, a. rewrite set_daddrs_same, (proj2 (Z.eqb_neq off 6144)) by lia. split; [done |]. split; [done |].
    split; [by apply ready_same |]. split; [lia | done].
Qed.

Lemma indirect_spec : (NDIRECT <= k)%nat ->
  runs (file_block (Z.of_nat k) din) s block_given.
Proof.
  intros Hk. pose proof k_off as Hko. pose proof k_nz as Hnz. pose proof k_lt as HkN. pose proof (need_step off ltac:(lia)) as Hn.
  unfold file_block. rewrite (proj2 (Z.ltb_ge (Z.of_nat k) (Z.of_nat NDIRECT))), Nat2Z.id by lia. apply runs_bind.
  eapply runs_mono; [by apply indirect_ready |]. intros din1 s1 (v1 & L1 & a1 & -> & Him1 & Hrd & Hf1 & Hi1). cbn [d_addrs set_daddrs].
  pose proof Hrd as [Ho1 Hl1 Hind1 Hnth1 _ _ _ _ Hold1]. rewrite Hlen in Hl1. rewrite (addr_small a1 R v1 _ Hl1 Ho1). fold (ind a1).
  assert (59 <= ind a1 < mk_freeblock s1) as Hd by (eapply owned_below; [done | exact Ho1 |]; apply elem_of_app; left; by apply ind_elem).
  pose proof (im_free _ _ Him1). pose proof (im_size _ _ Him1 (ind a1)) as Hsz.
  apply runs_bind. eapply (runs_rsect s1 v1); [done | lia | lia |]. rewrite (proj2 (Nat.leb_gt _ _)) by (rewrite NBLOCKS_eq in HkN; rewrite NINDIRECT_eq; unfold NDIRECT in *; lia).
  assert (get32 (v1 (ind a1)) (4 * (k - NDIRECT)) = nth_block v a k) as Hg1.
  { rewrite <- (Hnth1 k) by done. unfold nth_block. by rewrite (proj2 (Nat.ltb_ge _ _)), (proj2 (Z.eqb_neq _ _)) by (done || lia). }
  rewrite Hg1. destruct (Z.eqb_spec (nth_block v a k) 0) as [Hz|Hz].
  - assert (off mod 512 = 0) as Hm by (destruct (decide (off mod 512 = 0)); [done |]; tauto). rewrite Hm in Hn. simpl in Hn.
    apply runs_bind. eapply (runs_take_block s1 v1 _ _ Him1); [lia | exact Ho1 |]. intros s2 v2 Him2 Hb Hf2 Hi2.
    pose proof (im_size _ _ Him2) as Hsz2. pose proof (grown_indirect Hg R v a L v1 a1 L1 k _ v2 Hrd ltac:(lia) Hz Hsz2 Hb) as Hgr.
    assert (v2 (ind a1) = v1 (ind a1)) as Hsame.
    { eapply (balloced_keep Hg); [exact Ho1 | exact Hb |]. apply elem_of_app. left. by apply ind_elem. }
    rewrite (xint_block s1 v1 Him1). rewrite <- Hsame in *. set (x := put32 _ _ _).
    assert (get32 x (4 * (k - NDIRECT)) = mk_freeblock s1) as Hx.
    { unfold x. rewrite get32_put32_eq; [apply u32_small; lia |]. rewrite Hsz2, NBLOCKS_eq in *. unfold NDIRECT, BSIZE in *. lia. }
    apply runs_bind. eapply (runs_wsect s2 v2); [done | lia | lia | | |].
    + unfold x. rewrite length_put32. apply Hsz2.
    + apply put32_bytes. eapply view_bytes; [exact Him2 | lia].
    + intros s3 Him3 Hf3 Hi3. apply runs_ret. rewrite Hx, (xint_block s1 v1 Him1). eexists _, _, a1. cbn [fst snd].
      split; [done |]. split; [exact Him3 |]. split; [exact Hgr |]. split; [lia |]. split; [congruence |]. unfold NDIRECT in Hk. lia.
  - assert (ind a <> 0) as Hia by (apply (tg_ind _ _ _ Ht); apply Hnz in Hz; unfold NDIRECT in *; assert (off <> 6144) by (intros ->; by apply Hz); lia).
    destruct (Hold1 Hia) as (-> & -> & ->). apply runs_ret. apply Hnz in Hz as Hm.
    assert (off <> 6144) as H6 by (intros ->; by apply Hm).
    rewrite (proj2 (Z.eqb_neq off 6144)), (proj2 (Z.eqb_neq _ 0) Hm) in * by done. exists v, L, a. cbn [fst snd].
    split; [done |]. split; [done |]. split.
    + rewrite xint_eq, u32_small; [by apply grown_same |].
      assert (59 <= nth_block v a k < mk_freeblock s) by (eapply owned_below; [done | exact Ho |]; apply elem_of_app; left; by apply nth_block_elem).
      lia.
    + split; [lia |]. split; [done |]. unfold NDIRECT in *. lia.
Qed.

Lemma file_block_spec : runs (file_block (off / 512) din) s block_given.
Proof.
  replace (off / 512) with (Z.of_nat k) by (unfold blk_no; rewrite Z2Nat.id; [done | apply Z.div_pos; lia]).
  destruct (decide (k < NDIRECT)%nat) as [Hk|Hk]; [| apply indirect_spec; lia].
  unfold file_block. rewrite (proj2 (Z.ltb_lt _ _)), Nat2Z.id by lia. by apply direct_spec.
Qed.
End file_block.

Lemma need_mono a b : a <= b -> need a <= need b.
Proof.
  intros Hab. unfold need. pose proof (Z.div_le_mono (a + 511) (b + 511) 512 ltac:(lia) ltac:(lia)).
  destruct (Z.ltb_spec 6144 a), (Z.ltb_spec 6144 b); lia.
Qed.

Lemma chunk_end off m : 0 <= off -> 0 < m <= 512 - off mod 512 -> (off + m + 511) / 512 = off / 512 + 1.
Proof.
  intros Ho Hm. pose proof (Z.div_mod off 512 ltac:(lia)). pose proof (Z.mod_pos_bound off 512 ltac:(lia)).
  symmetry. apply (Z.div_unique _ _ _ (off mod 512 + m - 1)); lia.
Qed.

Lemma ceil_partial off : 0 <= off -> off mod 512 <> 0 -> (off + 511) / 512 = off / 512 + 1.
Proof.
  intros Ho Hm. pose proof (Z.div_mod off 512 ltac:(lia)). pose proof (Z.mod_pos_bound off 512 ltac:(lia)).
  symmetry. apply (Z.div_unique _ _ _ (off mod 512 - 1)); lia.
Qed.

Lemma need_chunk off m : 0 <= off -> 0 < m <= 512 - off mod 512 -> need (off + m) = need (off + 1).
Proof.
  intros Ho Hm. pose proof (Z.mod_pos_bound off 512 ltac:(lia)). unfold need. rewrite !chunk_end by lia. f_equal.
  destruct (Z.ltb_spec 6144 (off + m)), (Z.ltb_spec 6144 (off + 1)); try lia.
  pose proof (Z.div_mod off 512 ltac:(lia)). assert (off / 512 < 12) by (apply Z.div_lt_upper_bound; lia). lia.
Qed.

Lemma chunk_tight R v a L off x r v1 a1 L1 :
  tight v a off -> grown (sb := mkfs_sb) R v a L (blk_no off) r v1 a1 L1 -> (ind a1 <> 0 <-> 6144 < off + 1) ->
  0 <= off < MAXBYTES -> (0 < length x)%nat -> Z.of_nat (length x) <= 512 - off mod 512 -> (forall c, length (v1 c) = BSIZE) ->
  tight (<[r := blit (v1 r) (Z.to_nat (off mod 512)) x]> v1) a1 (off + Z.of_nat (length x)).
Proof.
  intros [T1 T2 T3] Hgr Hind Ho Hx Hm Hlen. pose proof Hgr as [A1 A2 A3 A4 A5 A6 A7 A8 _ _ _ _].
  pose proof (blk_no_lt off Ho) as Hk. set (m := Z.of_nat (length x)) in *. set (v2 := <[r := _]> v1).
  assert (r <> ind a1) as Hri.
  { rewrite <- A3 in A4 |- *. apply fblocks_ind; [| done | done]. by apply ao_NoDup, NoDup_app in A1 as (? & _ & _). }
  assert (forall j, nth_block v2 a1 j = nth_block v1 a1 j) as Hnth.
  { intros j. unfold nth_block, v2. by rewrite fn_lookup_insert_ne by congruence. }
  assert (512 * Z.of_nat (blk_no off) + off mod 512 = off) as Hdiv.
  { unfold blk_no. rewrite Z2Nat.id by (apply Z.div_pos; lia). pose proof (Z.div_mod off 512 ltac:(lia)). lia. }
  pose proof (Z.mod_pos_bound off 512 ltac:(lia)) as Hmod. split.
  - intros j Hj. rewrite Hnth. destruct (decide (j = blk_no off)) as [->|Hne].
    + rewrite A3. split; [lia | done].
    + rewrite A5, T1 by done. lia.
  - rewrite Hind. lia.
  - intros o Hor. rewrite chunk_end in Hor by lia.
    assert (blk_no o = blk_no off) as Hb.
    { unfold blk_no in *. rewrite Z2Nat.id in Hdiv by (apply Z.div_pos; lia). f_equal. symmetry.
      apply (Z.div_unique _ _ _ (o - 512 * (off / 512))); lia. }
    unfold fbyte. rewrite Hnth, Hb, A3. unfold v2. rewrite fn_lookup_insert, blit_byte by (rewrite Hlen; unfold BSIZE, m in *; lia).
    pose proof (same_blk off o m ltac:(lia) ltac:(lia) ltac:(lia) Hb) as Hiff. unfold m in Hiff at 2. rewrite Nat2Z.id in Hiff.
    rewrite decide_False by (intros Hc; apply Hiff in Hc; lia).
    destruct (decide (nth_block v a (blk_no off) = 0)) as [Hz|Hnz].
    + destruct (A7 Hz) as [-> _]. unfold byte_at. destruct (replicate BSIZE 0 !! _) as [y|] eqn:Hy; [| done].
      by apply lookup_replicate in Hy as [-> _].
    + assert (off mod 512 <> 0) as Hpart by (apply blk_no_start; [lia |]; by apply T1).
      destruct (A8 Hnz) as (E1 & E2 & _). rewrite E1 in A3 |- *. rewrite E2 in A3.
      rewrite <- (T3 o); [unfold fbyte; by rewrite Hb, A3 |]. rewrite ceil_partial by (done || lia). lia.
Qed.

Definition appended (R : list Z) (s s' : mk) (v : Z -> block) (a : list Z) (L : gset Z) (off : Z) (p : list Z)
  (v' : Z -> block) (a' : list Z) (L' : gset Z) : Prop :=
  image_ok s' v' /\ (exists n, wrote (sb := mkfs_sb) R v a L off p n v' a' L') /\
  tight v' a' (off + Z.of_nat (length p)) /\
  mk_freeblock s' = mk_freeblock s + (need (off + Z.of_nat (length p)) - need off) /\ mk_freeinode s' = mk_freeinode s.

Lemma appended_trans R s s1 s2 v a L off x y v1 a1 L1 v2 a2 L2 :
  0 <= off -> off + Z.of_nat (length (x ++ y)) <= MAXBYTES ->
  appended R s s1 v a L off x v1 a1 L1 -> appended R s1 s2 v1 a1 L1 (off + Z.of_nat (length x)) y v2 a2 L2 ->
  appended R s s2 v a L off (x ++ y) v2 a2 L2.
Proof.
  intros Ho Hmx (_ & (n & Hw1) & _ & Hf1 & Hi1) (Him2 & (n2 & Hw2) & Ht2 & Hf2 & Hi2).
  unfold appended. rewrite (length_app x y), Nat2Z.inj_add, Z.add_assoc. split; [done |].
  split; [| split; [done |]; split; [lia | congruence]].
  exists (n + n2)%nat. exact (wrote_trans R v a L off x n v1 a1 L1 y n2 v2 a2 L2 Ho Hmx Hw1 Hw2).
Qed.

Lemma appended_nil R s v din L off :
  image_ok s v -> alloc_ok mkfs_sb v (fblocks v (d_addrs din) ++ R) -> tight v (d_addrs din) off ->
  exists v' a' L', (off, din) = (off + Z.of_nat (length (@nil Z)), set_daddrs a' din) /\
    appended R s s v (d_addrs din) L off [] v' a' L'.
Proof.
  intros Him Ho Ht. exists v, (d_addrs din), L. rewrite set_daddrs_same. cbn [length]. rewrite Z.add_0_r. split; [done |].
  unfold appended. cbn [length]. rewrite Z.add_0_r. split; [done |]. split; [exists 0%nat; by apply wrote_nil |].
  split; [done |]. split; [lia | done].
Qed.

Lemma iappend_loop_spec R fuel : forall p s v din off L,
  image_ok s v -> length (d_addrs din) = S NDIRECT -> alloc_ok mkfs_sb v (fblocks v (d_addrs din) ++ R) ->
  tight v (d_addrs din) off -> bytes_ok p -> 0 <= off -> off + Z.of_nat (length p) <= MAXBYTES ->
  mk_freeblock s + (need (off + Z.of_nat (length p)) - need off) <= 4000 -> (length p <= fuel)%nat ->
  runs (iappend_loop fuel p off din) s (fun r s' => exists v' a' L',
    r = (off + Z.of_nat (length p), set_daddrs a' din) /\ appended R s s' v (d_addrs din) L off p v' a' L').
Proof.
  induction fuel as [|fuel IH]; intros p s v din off L Him Hl Ho Ht Hp Hoff Hmx Hroom Hfuel; cbn [iappend_loop].
  { destruct p; [| simpl in Hfuel; lia]. apply runs_ret. by apply appended_nil. }
  destruct (Z.leb_spec (Z.of_nat (length p)) 0) as [Hz|Hpos].
  { destruct p; [| simpl in Hz; lia]. apply runs_ret. by apply appended_nil. }
  change (Z.of_nat BSIZE) with 512. unfold MAXFILE. rewrite NINDIRECT_eq.
  set (m := Z.min (Z.of_nat (length p)) ((off / 512 + 1) * 512 - off)).
  pose proof (Z.div_mod off 512 ltac:(lia)) as Hdm. pose proof (Z.mod_pos_bound off 512 ltac:(lia)) as Hmod.
  assert (off / 512 < 140) by (unfold MAXBYTES in *; apply Z.div_lt_upper_bound; lia).
  rewrite (proj2 (Z.ltb_lt _ _)) by (unfold NDIRECT; lia). cbn [negb].
  pose proof (need_chunk off m Hoff ltac:(lia)) as Hnc. pose proof (need_mono (off + m) (off + Z.of_nat (length p)) ltac:(lia)) as Hnm.
  apply runs_bind. eapply runs_mono; [apply (file_block_spec s v R din off L); try done; [unfold MAXBYTES in *; lia | lia] |].
  intros [r din1] s1 (v1 & L1 & a1 & Hdin & Him1 & Hgr & Hf1 & Hi1 & Hind). cbn [fst snd] in Hdin, Hgr. subst din1.
  set (x := take (Z.to_nat m) p). assert (length x = Z.to_nat m) as Hx by (unfold x; rewrite length_take; lia).
  pose proof Hgr as [Ho1 Hl1 Hk1 Hnz1 _ _ _ _ _ _ _ _].
  assert (59 <= r < mk_freeblock s1) as Hr.
  { eapply owned_below; [done | exact Ho1 |]. apply elem_of_app. left. rewrite <- Hk1 in Hnz1 |- *.
    apply nth_block_elem; [apply blk_no_lt; unfold MAXBYTES in *; lia | done]. }
  pose proof (im_free _ _ Him1). apply runs_bind. eapply (runs_rsect s1 v1); [done | lia | lia |].
  replace (off - off / 512 * 512) with (off mod 512) by lia. apply runs_bind.
  eapply (runs_wsect s1 v1); [done | lia | lia | | |].
  - rewrite blit_length; [apply Him1 |]. rewrite Hx, (im_size _ _ Him1). unfold BSIZE. lia.
  - apply blit_bytes; [eapply view_bytes; [exact Him1 | lia] | by apply Forall_take].
  - intros s2 Him2 Hf2 Hi2. rewrite u32_small by (unfold MAXBYTES in *; lia).
    assert (appended R s s2 v (d_addrs din) L off x (<[r := blit (v1 r) (Z.to_nat (off mod 512)) x]> v1) a1 ({[r]} ∪ L1)) as Happ.
    { unfold appended. assert (Z.of_nat (length x) = m) as Hxm by lia. split; [done |]. split; [| split; [| rewrite Hxm; split; [lia | congruence]]].
      - exists 1%nat. apply (wrote_chunk Hg R v (d_addrs din) L off x r v1 a1 L1); try done; try lia; [apply Him1 |].
        by apply ao_NoDup, NoDup_app in Ho1 as (? & _ & _).
      - apply (chunk_tight R v (d_addrs din) L off x r v1 a1 L1); try done; try lia. apply Him1. }
    pose proof Happ as (_ & (n1 & Hw1) & Ht1 & Hfb1 & _). assert (Z.of_nat (length x) = m) as Hxm by lia. rewrite Hxm in Ht1, Hfb1.
    assert (Z.of_nat (length (drop (Z.to_nat m) p)) = Z.of_nat (length p) - m) as Hdl by (rewrite length_drop; lia).
    eapply runs_mono; [eapply (IH (drop (Z.to_nat m) p) s2 _ (set_daddrs a1 din) (off + m) ({[r]} ∪ L1) Him2) |]; cbn [d_addrs set_daddrs].
    + congruence.
    + apply Hw1.
    + exact Ht1.
    + by apply Forall_drop.
    + lia.
    + lia.
    + rewrite Hdl. replace (off + m + (Z.of_nat (length p) - m)) with (off + Z.of_nat (length p)) by lia. lia.
    + lia.
    + intros res s3 (v3 & a3 & L3 & -> & Happ3). exists v3, a3, L3. rewrite Hdl. split; [f_equal; lia |].
      rewrite <- (take_drop (Z.to_nat m) p). fold x. eapply appended_trans; [done | | exact Happ | by rewrite Hxm].
      unfold x. rewrite take_drop. lia.
Qed.

(** ** The files on the image *)

Lemma inode_block inum : is_inum (sb := mkfs_sb) inum -> 32 <= IBLOCK inum mkfs_sb < 58.
Proof.
  intros Hn. pose proof (iblock_range Hg inum Hn) as [[_ H2] _]. rewrite (iblock_eq Hg) in * by done.
  rewrite mkfs_sb_eq in *. cbn [sb_inodestart sb_bmapstart] in *. unfold is_inum in Hn. cbn in Hn.
  pose proof (Z.div_pos inum 8). lia.
Qed.

Lemma runs_winode s v inum di (Q : unit -> mk -> Prop) :
  image_ok s v -> is_inum (sb := mkfs_sb) inum ->
  (forall s', image_ok s' (iupdated (sb := mkfs_sb) v inum di) -> mk_freeblock s' = mk_freeblock s ->
    mk_freeinode s' = mk_freeinode s -> Q tt s') ->
  runs (winode inum di) s Q.
Proof.
  intros Him Hn HQ. pose proof (inode_block inum Hn). pose proof (im_free _ _ Him). unfold winode. apply runs_bind.
  eapply (runs_rsect s v); [done | lia | lia |]. eapply (runs_wsect s v); [done | lia | lia | | | exact HQ].
  - rewrite dinode_put_length. apply Him.
  - apply dinode_put_bytes. eapply view_bytes; [exact Him | lia].
Qed.

Lemma runs_rinode s v inum (Q : dinode -> mk -> Prop) :
  image_ok s v -> is_inum (sb := mkfs_sb) inum -> Q (dinode_at (sb := mkfs_sb) v inum) s -> runs (rinode inum) s Q.
Proof.
  intros Him Hn HQ. pose proof (inode_block inum Hn). unfold rinode. apply runs_bind.
  eapply (runs_rsect s v); [done | lia | lia |]. by apply runs_ret.
Qed.

Lemma tight_ext v v' a off :
  tight v a off -> 0 <= off <= MAXBYTES -> (forall c, c ∈ fblocks v a -> v' c = v c) -> tight v' a off.
Proof.
  intros [T1 T2 T3] Hoff Hv. assert (forall k, nth_block v' a k = nth_block v a k) as Hnth by (intros k; by apply nth_block_ext).
  split; [intros k Hk; rewrite Hnth; by apply T1 | done |]. intros o Ho. rewrite <- (T3 o Ho). unfold fbyte. rewrite Hnth.
  destruct (decide (off mod 512 = 0)) as [Hm|Hm].
  { pose proof (Z.div_mod off 512 ltac:(lia)). assert ((off + 511) / 512 = off / 512) as He by (symmetry; apply (Z.div_unique _ _ _ 511); lia). lia. }
  rewrite ceil_partial in Ho by lia. pose proof (Z.div_mod off 512 ltac:(lia)). pose proof (Z.mod_pos_bound off 512 ltac:(lia)).
  pose proof (Z.div_pos off 512 ltac:(lia) ltac:(lia)).
  assert (blk_no o = blk_no off) as Hb by (unfold blk_no; f_equal; symmetry; apply (Z.div_unique _ _ _ (o - 512 * (off / 512))); lia).
  assert (off <> MAXBYTES) by (intros ->; by apply Hm). assert (blk_no off < NBLOCKS)%nat as Hk by (apply blk_no_lt; lia).
  rewrite Hb, Hv; [done |]. apply nth_block_elem; [done |]. apply (T1 _ Hk). apply blk_no_start; [lia | done].
Qed.

Definition free_inode : dinode := mkDinode 0 0 0 0 0 (replicate (S NDIRECT) 0).

(** The blocks of files with these types and contents. *)
Fixpoint used (C : list (Z * list Z)) : Z :=
  match C with [] => 0 | (_, b) :: C' => need (Z.of_nat (length b)) + used C' end.

Lemma need_pos n : 0 <= n -> 0 <= need n.
Proof. intros Hn. pose proof (need_mono 0 n Hn). done. Qed.

Lemma used_pos C : 0 <= used C.
Proof. induction C as [|[ty b] C IH]; simpl; [lia |]. pose proof (need_pos (Z.of_nat (length b))). lia. Qed.

Lemma used_app C C' : used (C ++ C') = used C + used C'.
Proof. induction C as [|[ty b] C IH]; simpl; lia. Qed.

Lemma used_insert C : forall i ty b b', C !! i = Some (ty, b) ->
  used (<[i := (ty, b')]> C) = used C + (need (Z.of_nat (length b')) - need (Z.of_nat (length b))).
Proof.
  induction C as [|[ty0 b0] C IH]; intros [|i] ty b b' Hi; try done.
  - injection Hi as -> ->. simpl. lia.
  - simpl. rewrite (IH i ty b) by done. lia.
Qed.

(** Inode [j] is a file of type [ty] with the bytes [b]. *)
Record has_file (v : Z -> block) (j ty : Z) (b : list Z) : Prop := {
  h_type : d_type (dinode_at (sb := mkfs_sb) v j) = ty;
  h_used : ty <> 0;
  h_nlink : d_nlink (dinode_at (sb := mkfs_sb) v j) = 1;
  h_size : d_size (dinode_at (sb := mkfs_sb) v j) = Z.of_nat (length b);
  h_bytes : file_bytes (sb := mkfs_sb) v j = b;
  h_tight : tight v (d_addrs (dinode_at (sb := mkfs_sb) v j)) (Z.of_nat (length b))
}.

Record has_files (s : mk) (v : Z -> block) (C : list (Z * list Z)) : Prop := {
  hf_image : image_ok s v;
  hf_disk : disk_ok (sb := mkfs_sb) v;
  hf_count : mk_freeinode s = 1 + Z.of_nat (length C);
  hf_max : (length C < 200)%nat;
  hf_file : forall i ty b, C !! i = Some (ty, b) -> has_file v (Z.of_nat i + 1) ty b;
  hf_rest : forall j, is_inum (sb := mkfs_sb) j -> j = 0 \/ Z.of_nat (length C) < j ->
    dinode_at (sb := mkfs_sb) v j = free_inode;
  hf_used : mk_freeblock s = 59 + used C;
  hf_log : v 2 = zeroes
}.

Lemma has_file_ext v v' j ty b :
  disk_ok (sb := mkfs_sb) v -> is_inum (sb := mkfs_sb) j -> has_file v j ty b ->
  dinode_at (sb := mkfs_sb) v' j = dinode_at (sb := mkfs_sb) v j ->
  (forall c, c ∈ owned_by (sb := mkfs_sb) v j -> v' c = v c) -> has_file v' j ty b.
Proof.
  intros Hd Hj [H1 H2 H3 H4 H5 H6] Hdi Hv. pose proof (dk_inodes _ Hd _ Hj) as Hok. split; rewrite ?Hdi; try done.
  - rewrite (file_bytes_ext v v'); try done. congruence.
  - apply (tight_ext v); [done | rewrite <- H4; destruct Hok; lia |]. intros c Hc. apply Hv. unfold owned_by.
    rewrite (proj2 (Z.eqb_neq _ _)); [done | congruence].
Qed.

(** Files that an update of another inode leaves alone. *)
Lemma has_files_others v v' inum C :
  disk_ok (sb := mkfs_sb) v -> (length C < 200)%nat ->
  (forall j, is_inum (sb := mkfs_sb) j -> j <> inum -> dinode_at (sb := mkfs_sb) v' j = dinode_at (sb := mkfs_sb) v j) ->
  (forall c, c ∈ others (sb := mkfs_sb) v inum -> v' c = v c) ->
  forall i ty b, C !! i = Some (ty, b) -> Z.of_nat i + 1 <> inum ->
  has_file v (Z.of_nat i + 1) ty b -> has_file v' (Z.of_nat i + 1) ty b.
Proof.
  intros Hd Hmx Hdi Hv i ty b Hi Hne Hf. pose proof (lookup_lt_Some _ _ _ Hi).
  assert (is_inum (sb := mkfs_sb) (Z.of_nat i + 1)) as Hj by (unfold is_inum; rewrite mkfs_sb_eq; simpl; lia).
  apply (has_file_ext v); [done | done | done | by apply Hdi |]. intros c Hc. apply Hv. by eapply others_in.
Qed.

Lemma blit_end (d x : list Z) : blit d (length d) x = d ++ x.
Proof. unfold blit. rewrite firstn_all, drop_ge by lia. by rewrite app_nil_r. Qed.

Lemma iappend_spec s v C i ty b p :
  has_files s v C -> C !! i = Some (ty, b) -> bytes_ok p -> p <> [] -> Z.of_nat (length (b ++ p)) <= MAXBYTES ->
  59 + used (<[i := (ty, b ++ p)]> C) <= 4000 ->
  runs (iappend (Z.of_nat i + 1) p) s (fun _ s' => exists v', has_files s' v' (<[i := (ty, b ++ p)]> C)).
Proof.
  intros [Him Hd Hcnt Hmx Hfile Hrest Hused Hlog] Hi Hp Hne Hmax Hroom. pose proof (Hfile i ty b Hi) as [F1 F2 F3 F4 F5 F6].
  pose proof (lookup_lt_Some _ _ _ Hi) as Hlt. set (j := Z.of_nat i + 1) in *.
  assert (is_inum (sb := mkfs_sb) j) as Hj by (unfold is_inum, j; rewrite mkfs_sb_eq; simpl; lia).
  rewrite (used_insert C i ty b) in Hroom by done. rewrite length_app, Nat2Z.inj_add in Hmax, Hroom.
  assert (0 < length p)%nat as Hpl by (destruct p; [done | simpl; lia]).
  pose proof (dk_inodes _ Hd _ Hj) as [Hw Hsz Hmap]. set (din := dinode_at (sb := mkfs_sb) v j) in *.
  pose proof (dk_alloc _ Hd) as Ho. rewrite (owned_alloc v j Hd Hj) in Ho by (fold din; congruence). fold din in Ho.
  unfold iappend. apply runs_bind. apply (runs_rinode s v); [done | done |]. fold din. rewrite F4, xint_eq, u32_small by (unfold MAXBYTES in *; lia).
  apply runs_bind. eapply runs_mono; [apply (iappend_loop_spec _ (length p) p s v din (Z.of_nat (length b)) ∅ Him (dw_len _ Hw) Ho F6 Hp); lia |].
  intros r s1 (v1 & a1 & L1 & -> & Him1 & (n & Hwr) & Ht1 & Hf1 & Hi1). rewrite xint_eq, u32_small by (unfold MAXBYTES in *; lia).
  pose proof (written_beyond Hg (others (sb := mkfs_sb) v j) v din (Z.of_nat (length b)) p n ∅ v1 a1 L1 j Hw) as Hfw. cbv zeta in Hfw.
  ospecialize* Hfw; [apply Hmap; congruence | lia | lia | done | apply Him1 | exact Hwr |].
  set (di' := set_dsize _ _) in *. set (v2 := iupdated v1 j di') in *.
  pose proof (fw_disk _ _ _ _ _ _ _ _ Hfw eq_refl) as Hdi'. pose proof (fw_fields _ _ _ _ _ _ _ _ Hfw) as (Hty' & _ & _ & Hnl).
  assert (d_size di' = Z.of_nat (length b) + Z.of_nat (length p)) as Hsz' by done.
  destruct (disk_ok_change (sb := mkfs_sb) v v2 j Hd Hj) as [Hd' _].
  { split; rewrite Hdi'; [apply Hfw | lia | intros _; apply Hfw]. }
  { rewrite (fw_sb _ _ _ _ _ _ _ _ Hfw). apply Hd. }
  { apply Hfw. }
  { apply Hfw. }
  { unfold owned_by. rewrite Hdi', Hty', F1, (proj2 (Z.eqb_neq _ _) F2). apply Hfw. }
  eapply (runs_winode s1 v1); [done | done |]. intros s2 Him2 Hf2 Hi2. fold v2 in Him2. exists v2.
  split; [done | done | rewrite length_insert; congruence | by rewrite length_insert | | | | ].
  - intros i' ty' b' Hi'. destruct (decide (i' = i)) as [->|Hne'].
    + rewrite list_lookup_insert_eq in Hi' by done. injection Hi' as <- <-. fold j.
      split; rewrite ?Hdi', ?length_app, ?Nat2Z.inj_add; [congruence | done | congruence | done | |].
      * unfold file_bytes. rewrite Hdi'. etrans; [eapply written_bytes; [exact Hw | | exact Hfw]; lia |].
        fold (file_bytes (sb := mkfs_sb) v j). unfold file_bytes in F5. fold din in F5. rewrite F5, Nat2Z.id. apply blit_end.
      * apply (tight_ext v1); [done | lia |]. intros c Hc. apply (iupdated_data Hg); [done |].
        eapply owned_data; [apply Hwr |]. apply elem_of_app. by left.
    + rewrite list_lookup_insert_ne in Hi' by done. apply (has_files_others v v2 j C); try done; [apply Hfw | apply Hfw | unfold j; lia | by apply Hfile].
  - intros j' Hj' Hout. rewrite length_insert in Hout. rewrite (fw_other _ _ _ _ _ _ _ _ Hfw) by (done || unfold j; lia). by apply Hrest.
  - rewrite (used_insert C i ty b) by done. rewrite length_app, Nat2Z.inj_add. lia.
  - unfold v2, iupdated. pose proof (inode_block j Hj). rewrite fn_lookup_insert_ne by lia. rewrite (wr_meta _ _ _ _ _ _ _ _ _ _ Hwr); [done | |].
    + rewrite mkfs_data. lia.
    + rewrite mkfs_bmaps. lia.
Qed.

(** ** A new inode *)

Lemma zero_ind : ind (replicate (S NDIRECT) 0) = 0.
Proof. reflexivity. Qed.

Lemma zero_nth v k : nth_block v (replicate (S NDIRECT) 0) k = 0.
Proof.
  unfold nth_block. rewrite zero_ind. cbn [Z.eqb]. destruct (k <? NDIRECT)%nat; [| done].
  destruct (replicate (S NDIRECT) 0 !! k) as [x|] eqn:Hx; [| done]. by apply lookup_replicate in Hx as [-> _].
Qed.

Lemma zero_fblocks v : fblocks v (replicate (S NDIRECT) 0) = [].
Proof.
  unfold fblocks. rewrite zero_ind. cbn [present Z.eqb app]. induction (seq 0 NBLOCKS) as [|k l IH]; [done |].
  rewrite fmap_cons. cbn [concat]. by rewrite zero_nth, IH.
Qed.

Lemma zero_tight v : tight v (replicate (S NDIRECT) 0) 0.
Proof.
  split; [intros k _; rewrite zero_nth; lia | rewrite zero_ind; lia |]. intros o Ho. change ((0 + 511) / 512 * 512) with 0 in Ho. lia.
Qed.

Definition new_inode (ty : Z) : dinode := mkDinode ty 0 0 1 0 (replicate (S NDIRECT) 0).

Lemma new_inode_wf ty : 0 <= ty < 4 -> dinode_wf (new_inode ty).
Proof. intros Hty. split; cbn [new_inode d_type d_major d_minor d_nlink d_size d_addrs]; try lia; [done | apply Forall_replicate; lia]. Qed.

Lemma ialloc_spec s v C ty :
  has_files s v C -> (length C < 199)%nat -> 0 < ty < 4 ->
  runs (ialloc ty) s (fun r s' => r = Z.of_nat (length C) + 1 /\ exists v', has_files s' v' (C ++ [(ty, [])])).
Proof.
  intros [Him Hd Hcnt Hmx Hfile Hrest Hused Hlog] Hlt Hty. set (j := Z.of_nat (length C) + 1).
  assert (is_inum (sb := mkfs_sb) j) as Hj by (unfold is_inum, j; rewrite mkfs_sb_eq; simpl; lia).
  pose proof (Hrest j Hj ltac:(unfold j; lia)) as Hold. unfold ialloc. apply runs_bind, runs_get, runs_bind, runs_modify, runs_bind.
  rewrite Hcnt, u32_small by lia. replace (1 + Z.of_nat (length C)) with j by (unfold j; lia).
  replace (mkDinode _ 0 0 _ _ _) with (new_inode ty) by (rewrite !xshort_eq, !i16_mod by lia; reflexivity).
  set (s0 := mkMk _ _ _ _). assert (image_ok s0 v) as Him0 by (by destruct Him).
  apply (runs_winode s0 v); [done | done |]. intros s1 Him1 Hf1 Hi1. set (v' := iupdated v j (new_inode ty)) in *. apply runs_ret. split; [done |].
  assert (dinode_at (sb := mkfs_sb) v' j = new_inode ty) as Hdi by (apply iupdated_same; [by apply new_inode_wf; lia | apply Him]).
  assert (forall j', is_inum (sb := mkfs_sb) j' -> j' <> j -> dinode_at (sb := mkfs_sb) v' j' = dinode_at (sb := mkfs_sb) v j') as Hoth
    by (intros j' Hj' Hne; by apply (iupdated_other Hg)).
  pose proof (dk_alloc _ Hd) as Ho. rewrite (owned_split v j Hj) in Ho. unfold owned_by in Ho. rewrite Hold in Ho. cbn in Ho.
  assert (forall c, c ∈ others (sb := mkfs_sb) v j -> v' c = v c) as HR.
  { intros c Hc. apply (iupdated_data Hg); [done |]. by eapply owned_data. }
  destruct (disk_ok_change (sb := mkfs_sb) v v' j Hd Hj) as [Hd' _]; [| | done | done | |].
  { split; rewrite Hdi; [by apply new_inode_wf; lia | done |]. intros _ o Hr. simpl in Hr. lia. }
  { unfold v', iupdated. pose proof (inode_block j Hj). rewrite fn_lookup_insert_ne by lia. apply Hd. }
  { unfold owned_by. rewrite Hdi. cbn [d_type d_addrs new_inode]. rewrite (proj2 (Z.eqb_neq ty 0)) by lia. rewrite zero_fblocks. cbn [app].
    eapply (alloc_ext Hg); [| exact Ho]. intros c Hc. rewrite mkfs_bmaps in Hc. pose proof (inode_block j Hj).
    unfold v', iupdated. by rewrite fn_lookup_insert_ne by lia. }
  exists v'. split; [done | done | rewrite Hi1, length_app; cbn; unfold j; lia | rewrite length_app; cbn; lia | | | |].
  - intros i ty' b Hi. apply lookup_app_Some in Hi as [Hi|[Hge Hi]].
    + pose proof (lookup_lt_Some _ _ _ Hi). apply (has_files_others v v' j C); try done; [unfold j; lia | by apply Hfile].
    + apply list_lookup_singleton_Some in Hi as [Hi0 [= <- <-]]. replace (Z.of_nat i + 1) with j by (unfold j; lia).
      split; try rewrite Hdi; try done; [lia | | apply zero_tight]. unfold file_bytes. by rewrite Hdi.
  - intros j' Hj' Hout. rewrite length_app in Hout. cbn in Hout. rewrite Hoth by (done || unfold j; lia). apply Hrest; [done | lia].
  - rewrite used_app, Hf1. change (mk_freeblock s0) with (mk_freeblock s). change (used [(ty, [])]) with 0. lia.
  - unfold v', iupdated. pose proof (inode_block j Hj). by rewrite fn_lookup_insert_ne by lia.
Qed.

(** ** The empty file system *)

Lemma wzero_spec n : forall i s, (forall c, mk_img s c = zeroes) -> 0 <= i -> i + Z.of_nat n <= 4000 -> mk_len s = i ->
  runs (wzero n i) s (fun _ s' => (forall c, mk_img s' c = zeroes) /\ mk_len s' = i + Z.of_nat n /\
    mk_freeinode s' = mk_freeinode s /\ mk_freeblock s' = mk_freeblock s).
Proof.
  induction n as [|n IH]; intros i s Hz Hi Hle Hlen; cbn [wzero].
  - apply runs_ret. split; [done |]. split; [lia | done].
  - apply runs_bind. unfold wsect. apply runs_modify. rewrite sector_small by lia.
    eapply runs_mono; [apply (IH (i + 1)); cbn [mk_img mk_len] |].
    + intros c. destruct (decide (c = i)) as [->|Hc]; [by rewrite fn_lookup_insert | by rewrite fn_lookup_insert_ne].
    + lia.
    + lia.
    + lia.
    + intros [] s' (H1 & H2 & H3 & H4). split; [done |]. split; [lia | done].
Qed.

Definition sb_block : block := put32s zeroes 0 [4000; 3941; 200; 30; 2; 32; 58].

(** The image with a super block and zeros. *)
Definition empty_view (c : Z) : block := if c =? 58 then used_bits 59 else if c =? 1 then sb_block else zeroes.

Lemma empty_58 : empty_view 58 = used_bits 59.
Proof. unfold empty_view. by rewrite Z.eqb_refl. Qed.

Lemma empty_inode j : is_inum (sb := mkfs_sb) j -> dinode_at (sb := mkfs_sb) empty_view j = free_inode.
Proof.
  intros Hj. pose proof (inode_block j Hj). unfold dinode_at, empty_view.
  rewrite (proj2 (Z.eqb_neq _ 58)), (proj2 (Z.eqb_neq _ 1)) by lia. unfold dinode_get, free_inode, zeroes.
  assert (forall n o, get16 (replicate n 0) o = 0) as H16.
  { intros n o. unfold get16, byte_at. destruct (replicate n 0 !! o) as [x|] eqn:Hx, (replicate n 0 !! (o + 1)%nat) as [y|] eqn:Hy;
      repeat match goal with H : replicate _ _ !! _ = Some _ |- _ => apply lookup_replicate in H as [-> _] end; done. }
  rewrite !H16, !get32_zeros. f_equal. change (NDIRECT + 1)%nat with 13%nat. change (S NDIRECT) with 13%nat.
  apply list_eq. intros k. rewrite list_lookup_fmap. destruct (decide (k < 13)%nat) as [Hk|Hk].
  - rewrite lookup_seq_lt, lookup_replicate_2 by done. cbn [fmap option_fmap option_map]. by rewrite get32_zeros.
  - rewrite lookup_seq_ge by lia. symmetry. apply lookup_ge_None_2. rewrite length_replicate. lia.
Qed.

Lemma empty_disk : disk_ok (sb := mkfs_sb) empty_view.
Proof.
  assert (owned (sb := mkfs_sb) empty_view = []) as Ho.
  { unfold owned. change (sb_ninodes mkfs_sb) with 200.
    rewrite (concat_seq_ext (fun _ => []) (fun j => owned_by (sb := mkfs_sb) empty_view (Z.of_nat j))); [by vm_compute |].
    intros k Hk. unfold owned_by. rewrite empty_inode; [done |]. unfold is_inum. rewrite mkfs_sb_eq. cbn. lia. }
  split.
  - rewrite Ho. split; [| constructor | constructor]. intros b Hb. rewrite mkfs_sb_eq in Hb. simpl in Hb.
    rewrite (mkfs_bit empty_view 59 b ltac:(lia) empty_58 Hb), Z.ltb_ge, mkfs_sb_eq. change (Z.of_nat 59) with 59. unfold dstart. cbn [sb_size sb_nblocks].
    split; [intros ?; split; [lia | apply not_elem_of_nil] | lia].
  - vm_compute. reflexivity.
  - intros j Hj. split; rewrite (empty_inode j Hj); [| by apply Z.leb_le | by intros []].
    split; cbn [free_inode d_type d_major d_minor d_nlink d_size d_addrs]; try lia; [done | apply Forall_replicate; lia].
Qed.

Lemma empty_files s :
  mk_len s = 4000 -> mk_freeinode s = 1 -> mk_freeblock s = 59 ->
  (forall c, mk_img s c = if c =? 1 then sb_block else zeroes) -> has_files s empty_view [].
Proof.
  intros Hl Hi Hf Himg. split; [| apply empty_disk | done | cbn; lia | done | intros j Hj _; by apply empty_inode | done | done].
  split; [| done | lia | | |].
  - intros c. rewrite Hf, Himg. done.
  - intros c. unfold empty_view. destruct (c =? 58); [apply used_bits_length |].
    destruct (c =? 1); [etrans; [apply length_put32s |] |]; apply length_replicate.
  - intros c. rewrite Himg. destruct (c =? 1); [apply put32s_bytes |]; apply zeroes_bytes.
  - intros c Hc. unfold empty_view. by rewrite (proj2 (Z.eqb_neq c 58)), (proj2 (Z.eqb_neq c 1)) by lia.
Qed.

(** ** Adding the files *)

(** The bytes of an argument. *)
Definition contents (a : arg) : list Z := concat (default [] (a_reads a)).

(** Arguments that can be put on the disk: reads bring some bytes each, and
    an inode has room for them. *)
Record arg_ok (a : arg) : Prop := {
  ao_name : Forall (fun c => 0 < c < 256 /\ c <> SLASH) (a_name a);
  ao_open : is_Some (a_reads a);
  ao_reads : Forall (fun x => (0 < length x <= BSIZE)%nat /\ bytes_ok x) (default [] (a_reads a));
  ao_max : Z.of_nat (length (contents a)) <= MAXBYTES
}.

Definition entry_of (inum : Z) (a : arg) : dirent := mkDirent inum (strncpy_bytes (stored_name (a_name a)) DIRSIZ).

Fixpoint entries (inum : Z) (files : list arg) : list dirent :=
  match files with [] => [] | a :: files' => entry_of inum a :: entries (inum + 1) files' end.

Definition dir_bytes (des : list dirent) : list Z := concat (dirent_bytes <$> des).

Lemma append_all_spec i ty chunks : forall s v C b,
  has_files s v C -> C !! i = Some (ty, b) -> Forall (fun x => (0 < length x <= BSIZE)%nat /\ bytes_ok x) chunks ->
  Z.of_nat (length (b ++ concat chunks)) <= MAXBYTES -> 59 + used (<[i := (ty, b ++ concat chunks)]> C) <= 4000 ->
  runs (append_all (Z.of_nat i + 1) chunks) s (fun _ s' => exists v', has_files s' v' (<[i := (ty, b ++ concat chunks)]> C)).
Proof.
  induction chunks as [|x chunks IH]; intros s v C b Hf Hi Hch Hmx Hroom; cbn [append_all concat] in *.
  - apply runs_ret. exists v. rewrite app_nil_r, list_insert_id by done. done.
  - apply Forall_cons in Hch as [[Hx Hxb] Hch]. rewrite (app_assoc b x) in *. pose proof (lookup_lt_Some _ _ _ Hi) as Hlt. apply runs_bind.
    eapply runs_mono; [apply (iappend_spec s v C i ty b x); try done |].
    + intros ->. simpl in Hx. lia.
    + rewrite length_app in Hmx. lia.
    + rewrite (used_insert C i ty b) in Hroom |- * by done. rewrite (length_app (b ++ x)) in Hroom.
      pose proof (need_mono (Z.of_nat (length (b ++ x))) (Z.of_nat (length (b ++ x) + length (concat chunks))) ltac:(lia)). lia.
    + intros [] s1 (v1 & Hf1). eapply runs_mono; [apply (IH s1 v1 _ (b ++ x) Hf1); try done |].
      * by rewrite list_lookup_insert_eq.
      * by rewrite list_insert_insert_eq.
      * intros [] s2 (v2 & Hf2). exists v2. by rewrite list_insert_insert_eq in Hf2.
Qed.

Lemma strncpy_bytes_ok n : forall t, Forall (fun c => 0 < c < 256) t -> bytes_ok (strncpy_bytes t n).
Proof.
  induction n as [|n IH]; intros t Ht; [constructor |]. cbn [strncpy_bytes]. destruct (byte_at t 0 =? 0); [apply Forall_replicate; lia |].
  destruct t as [|c t]; [constructor; [done |]; by apply IH |]. apply Forall_cons in Ht as [Hc Ht]. constructor; [cbn; unfold id; lia | by apply IH].
Qed.

Lemma stored_ok a : arg_ok a -> Forall (fun c => 0 < c < 256 /\ c <> SLASH) (stored_name (a_name a)).
Proof. intros [Hn _ _ _]. destruct (a_name a) as [|c l]; [done |]. cbn. destruct (c =? 95); [| done]. by apply Forall_cons in Hn as [_ ?]. Qed.

Lemma dirent_bytes_length de : length (de_name de) = DIRSIZ -> length (dirent_bytes de) = 16%nat.
Proof. intros Hl. unfold dirent_bytes. rewrite length_app, length_put16, Hl. done. Qed.

Lemma dirent_bytes_ok de : bytes_ok (de_name de) -> bytes_ok (dirent_bytes de).
Proof. intros Hb. apply Forall_app. split; [apply put16_bytes; repeat constructor; lia | done]. Qed.

Lemma entry_ok inum a : arg_ok a -> length (dirent_bytes (entry_of inum a)) = 16%nat /\ bytes_ok (dirent_bytes (entry_of inum a)).
Proof.
  intros Ha. split; [apply dirent_bytes_length, strncpy_name |]. apply dirent_bytes_ok, strncpy_bytes_ok.
  eapply Forall_impl; [by apply stored_ok |]. by intros c [].
Qed.

Lemma add_file_spec s v dir F a :
  has_files s v ((T_DIR, dir) :: F) -> arg_ok a -> (length F < 198)%nat ->
  let dir' := dir ++ dirent_bytes (entry_of (Z.of_nat (length F) + 2) a) in
  Z.of_nat (length dir') <= MAXBYTES -> 59 + used ((T_DIR, dir') :: F ++ [(T_FILE, contents a)]) <= 4000 ->
  runs (add_file ROOTINO a) s (fun _ s' => exists v', has_files s' v' ((T_DIR, dir') :: F ++ [(T_FILE, contents a)])).
Proof.
  intros Hf Ha Hlt dir' Hmx Hroom. pose proof Ha as [Hn [chunks Hop] Hrd Hmax]. unfold contents in *. rewrite Hop in *. cbn [default from_option id] in *.
  unfold add_file. replace (existsb _ _) with false.
  2: { symmetry. apply not_true_is_false. intros (c & Hc & He)%existsb_exists. apply list_elem_of_In in Hc.
       apply (proj1 (Forall_forall _ _) Hn) in Hc as [_ Hc]. apply Z.eqb_eq in He. by apply Hc. }
  rewrite Hop. apply runs_bind. eapply runs_mono; [apply (ialloc_spec s v _ T_FILE Hf); [cbn; lia | by vm_compute] |].
  intros inum s1 (-> & v1 & Hf1). cbn [length] in *. apply runs_bind.
  replace (Z.of_nat (S (length F)) + 1) with (Z.of_nat (length F) + 2) by lia.
  replace (xshort (Z.of_nat (length F) + 2)) with (Z.of_nat (length F) + 2) by (rewrite xshort_eq, Z.mod_small; lia).
  destruct (entry_ok (Z.of_nat (length F) + 2) a Ha) as [Hel Heb].
  cbn [used] in Hroom. rewrite used_app in Hroom. cbn [used] in Hroom.
  pose proof (need_pos (Z.of_nat (length (concat chunks)))).
  eapply runs_mono; [apply (iappend_spec s1 v1 _ 0 T_DIR dir _ Hf1); [done | exact Heb | | exact Hmx |] |].
  - intros He. change (dirent_bytes (entry_of (Z.of_nat (length F) + 2) a) = []) in He. by rewrite He in Hel.
  - fold (entry_of (Z.of_nat (length F) + 2) a). fold dir'. change (59 + (need (Z.of_nat (length dir')) + used (F ++ [(T_FILE, [])])) <= 4000).
    rewrite used_app. change (used [(T_FILE, [])]) with 0. lia.
  - intros [] s2 (v2 & Hf2). fold (entry_of (Z.of_nat (length F) + 2) a) in Hf2. fold dir' in Hf2.
    change (<[0%nat := (T_DIR, dir')]> (((T_DIR, dir) :: F) ++ [(T_FILE, [])])) with (((T_DIR, dir') :: F) ++ [(T_FILE, [])]) in Hf2.
    pose proof (append_all_spec (S (length F)) T_FILE chunks s2 v2 _ [] Hf2) as Hap.
    replace (Z.of_nat (S (length F)) + 1) with (Z.of_nat (length F) + 2) in Hap by lia. cbn [app] in Hap.
    assert (<[S (length F) := (T_FILE, concat chunks)]> ((T_DIR, dir') :: F ++ [(T_FILE, [])]) = (T_DIR, dir') :: F ++ [(T_FILE, concat chunks)]) as Hins.
    { change ((T_DIR, dir') :: <[length F := (T_FILE, concat chunks)]> (F ++ [(T_FILE, [])]) = (T_DIR, dir') :: F ++ [(T_FILE, concat chunks)]). f_equal. rewrite insert_app_r_alt by lia. by rewrite Nat.sub_diag. }
    rewrite Hins in Hap. apply Hap; try done.
    + change ((F ++ [(T_FILE, [])]) !! length F = Some (T_FILE, [])). rewrite lookup_app_r by lia. by rewrite Nat.sub_diag.
    + cbn [used]. rewrite used_app. cbn [used]. lia.
Qed.

Definition plain_files (files : list arg) : list (Z * list Z) := (fun a => (T_FILE, contents a)) <$> files.

Lemma dir_bytes_app des des' : dir_bytes (des ++ des') = dir_bytes des ++ dir_bytes des'.
Proof. unfold dir_bytes. by rewrite fmap_app, concat_app. Qed.

Lemma add_files_spec files : forall s v dir F,
  has_files s v ((T_DIR, dir) :: F) -> Forall arg_ok files -> (length F + length files < 199)%nat ->
  let dir' := dir ++ dir_bytes (entries (Z.of_nat (length F) + 2) files) in
  Z.of_nat (length dir') <= MAXBYTES -> 59 + used ((T_DIR, dir') :: F ++ plain_files files) <= 4000 ->
  runs (add_files ROOTINO files) s (fun _ s' => exists v', has_files s' v' ((T_DIR, dir') :: F ++ plain_files files)).
Proof.
  induction files as [|a files IH]; intros s v dir F Hf Hall Hlt dir' Hmx Hroom; subst dir'; cbn [add_files entries] in *.
  - apply runs_ret. exists v. unfold dir_bytes, plain_files. cbn. by rewrite !app_nil_r.
  - apply Forall_cons in Hall as [Ha Hall]. set (e := entry_of _ a) in *. set (n := Z.of_nat (length F) + 2) in *.
    change (dir_bytes (e :: entries (n + 1) files)) with (dirent_bytes e ++ dir_bytes (entries (n + 1) files)) in *.
    change (plain_files (a :: files)) with ([(T_FILE, contents a)] ++ plain_files files) in *. rewrite !app_assoc in *.
    cbn [length] in Hlt. cbn [used] in Hroom. rewrite used_app in Hroom. pose proof (used_pos (plain_files files)).
    rewrite (length_app (dir ++ dirent_bytes e)) in Hmx, Hroom.
    pose proof (need_mono (Z.of_nat (length (dir ++ dirent_bytes e))) (Z.of_nat (length (dir ++ dirent_bytes e) + length (dir_bytes (entries (n + 1) files)))) ltac:(lia)).
    apply runs_bind. eapply runs_mono; [apply (add_file_spec s v dir F a Hf Ha ltac:(lia)); fold n e; [lia |] |].
    + cbn [used]. lia.
    + intros [] s1 (v1 & Hf1). fold n e in Hf1. pose proof (IH s1 v1 _ _ Hf1 Hall) as IH1. rewrite length_app in IH1. cbn [length] in IH1.
      replace (Z.of_nat (length F + 1) + 2) with (n + 1) in IH1 by (unfold n; lia). cbv zeta in IH1. apply IH1; [lia | | ].
      * rewrite length_app. lia.
      * cbn [used]. rewrite used_app, (length_app (dir ++ dirent_bytes e)). lia.
Qed.

(** ** The end: the size of the root directory and the free map *)

Lemma bytes_tail v a n m : (forall o, 0 <= n -> n <= o < m -> fbyte v a o = 0) -> 0 <= n <= m ->
  fbyte v a <$> seqZ 0 m = (fbyte v a <$> seqZ 0 n) ++ replicate (Z.to_nat (m - n)) 0.
Proof.
  intros Hz Hn. replace m with (n + (m - n)) at 1 by lia. rewrite seqZ_app, fmap_app by lia. f_equal.
  apply list_eq. intros k. rewrite list_lookup_fmap. destruct (decide (k < Z.to_nat (m - n))%nat) as [Hk|Hk].
  - rewrite lookup_replicate_2, lookup_seqZ_lt by lia. cbn. f_equal. apply Hz; lia.
  - rewrite lookup_seqZ_ge by lia. symmetry. apply lookup_ge_None_2. rewrite length_replicate. lia.
Qed.

(** The image in the end: [C] are the files, and the root is padded with zeros. *)
Record root_padded (v : Z -> block) (dir : list Z) (F : list (Z * list Z)) : Prop := {
  rp_disk : disk_ok (sb := mkfs_sb) v;
  rp_file : forall i ty b, F !! i = Some (ty, b) -> has_file v (Z.of_nat i + 2) ty b;
  rp_rest : forall j, is_inum (sb := mkfs_sb) j -> j = 0 \/ Z.of_nat (length F) + 1 < j ->
    dinode_at (sb := mkfs_sb) v j = free_inode;
  rp_type : d_type (dinode_at (sb := mkfs_sb) v 1) = T_DIR;
  rp_nlink : d_nlink (dinode_at (sb := mkfs_sb) v 1) = 1;
  rp_size : d_size (dinode_at (sb := mkfs_sb) v 1) = (Z.of_nat (length dir) / 512 + 1) * 512;
  rp_bytes : file_bytes (sb := mkfs_sb) v 1 =
    dir ++ replicate (Z.to_nat ((Z.of_nat (length dir) / 512 + 1) * 512 - Z.of_nat (length dir))) 0;
  rp_log : v 2 = zeroes
}.

Lemma fix_root_spec s v dir F :
  has_files s v ((T_DIR, dir) :: F) -> Z.of_nat (length dir) mod 512 <> 0 ->
  runs (fix_root ROOTINO) s (fun _ s' => exists v', image_ok s' v' /\ root_padded v' dir F).
Proof.
  intros [Him Hd Hcnt Hmx Hfile Hrest Hused Hlog] Hm. pose proof (Hfile 0%nat T_DIR dir eq_refl) as [F1 F2 F3 F4 F5 F6].
  change (Z.of_nat 0 + 1) with 1 in *. assert (is_inum (sb := mkfs_sb) 1) as H1 by (unfold is_inum; rewrite mkfs_sb_eq; simpl; lia).
  pose proof (dk_inodes _ Hd _ H1) as [Hw Hsz Hmap]. set (din := dinode_at (sb := mkfs_sb) v 1) in *. set (n := Z.of_nat (length dir)) in *.
  pose proof (Z.div_mod n 512 ltac:(lia)) as Hdm. pose proof (Z.mod_pos_bound n 512 ltac:(lia)) as Hmod. rewrite F4 in Hsz.
  assert (n / 512 < 140) by (unfold MAXBYTES in *; apply Z.div_lt_upper_bound; [lia |]; assert (n <> 512 * 140) by (intros E; by rewrite E in Hm); lia).
  set (m := (n / 512 + 1) * 512). unfold fix_root. apply runs_bind. apply (runs_rinode s v); [done | done |]. change ROOTINO with 1. fold din.
  assert (forall x, 0 <= x < 4294967296 -> xint x = x) as Hx by (intros x Hx; rewrite xint_eq; by apply u32_small).
  rewrite F4, (Hx n) by (unfold MAXBYTES in *; lia). change (Z.of_nat BSIZE) with 512. fold m.
  rewrite (u32_small m), (Hx m) by (unfold m; lia). apply (runs_winode s v); [done | done |]. intros s' Him' _ _.
  set (di' := set_dsize m din) in *. set (v' := iupdated v 1 di') in *. exists v'. split; [done |].
  assert (dinode_wf di') as Hw' by (destruct Hw; split; try done; simpl; unfold m; lia).
  assert (dinode_at (sb := mkfs_sb) v' 1 = di') as Hdi by (apply iupdated_same; [done | apply Him]).
  assert (forall j, is_inum (sb := mkfs_sb) j -> j <> 1 -> dinode_at (sb := mkfs_sb) v' j = dinode_at (sb := mkfs_sb) v j) as Hoth
    by (intros j Hj Hne; apply (iupdated_other Hg); [done | done | apply Hw' | done]).
  pose proof (dk_alloc _ Hd) as Ho. rewrite (owned_alloc v 1 Hd H1) in Ho by (fold din; congruence). fold din in Ho.
  assert (forall c, c ∈ others (sb := mkfs_sb) v 1 -> v' c = v c) as HR.
  { intros c Hc. apply (iupdated_data Hg); [done |]. eapply owned_data; [exact Ho |]. apply elem_of_app. by right. }
  assert (tight v' (d_addrs din) n) as Ht'.
  { apply (tight_ext v); [done | lia |]. intros c Hc. apply (iupdated_data Hg); [done |]. eapply owned_data; [exact Ho |]. apply elem_of_app. by left. }
  destruct (disk_ok_change (sb := mkfs_sb) v v' 1 Hd H1) as [Hd' _]; [| | done | done | |].
  { split; rewrite Hdi; [done | simpl; unfold m, MAXBYTES; lia |]. intros _ o Hor. unfold di' in Hor |- *. cbn [d_size d_addrs set_dsize] in Hor |- *.
    apply (tg_nth _ _ _ Ht'); [apply blk_no_lt; unfold m, MAXBYTES in *; lia |]. unfold blk_no.
    assert (o / 512 <= n / 512) by (unfold m in Hor; apply Z.lt_succ_r, Z.div_lt_upper_bound; lia). pose proof (Z.div_pos o 512). lia. }
  { unfold v', iupdated. pose proof (inode_block 1 H1). rewrite fn_lookup_insert_ne by lia. apply Hd. }
  { unfold owned_by. rewrite Hdi. unfold di'. cbn [set_dsize d_type d_addrs]. rewrite F1. change (T_DIR =? 0) with false. by apply (iupdated_alloc Hg). }
  split; [done | | | by rewrite Hdi | by rewrite Hdi | by rewrite Hdi | |].
  - intros i ty b Hi. replace (Z.of_nat i + 2) with (Z.of_nat (S i) + 1) by lia.
    apply (has_files_others v v' 1 ((T_DIR, dir) :: F) Hd Hmx Hoth HR); [exact Hi | lia |]. apply Hfile. exact Hi.
  - intros j Hj Hout. rewrite Hoth by (done || lia). apply Hrest; [done |]. cbn [length]. lia.
  - unfold file_bytes. rewrite Hdi. cbn [d_addrs d_size di' set_dsize]. fold n m. rewrite (bytes_tail _ _ n m); [| | unfold m; lia].
    + f_equal. rewrite <- F5. unfold file_bytes. fold din. rewrite F4. apply list_fmap_ext. intros k o [-> Hk]%lookup_seqZ.
      apply (iupdated_byte Hg v (others (sb := mkfs_sb) v 1)); [done | done | lia |]. apply Hmap; [congruence | lia].
    + intros o _ Hor. apply (tg_zero _ _ _ Ht'). rewrite ceil_partial by lia. done.
  - unfold v', iupdated. pose proof (inode_block 1 H1). by rewrite fn_lookup_insert_ne by lia.
Qed.

Lemma used_bits_bytes n : bytes_ok (used_bits n).
Proof. induction n as [|n IH]; [apply zeroes_bytes |]. apply insert_bytes; [done | apply mod256]. Qed.

Lemma free_map_spec s v : image_ok s v ->
  runs (balloc (mk_freeblock s)) s (fun _ s' => (forall c, mk_img s' c = v c) /\ mk_len s' = 4000 /\ forall c, bytes_ok (v c)).
Proof.
  intros [Hv Hl Hf Hsz Hb Hz]. unfold balloc. rewrite (proj2 (Z.ltb_lt _ _)) by (change (Z.of_nat BSIZE) with 512; lia). cbn [negb].
  unfold wsect. apply runs_modify. change (sector (sb_bmapstart mkfs_sb)) with 58. cbn [mk_img mk_len]. split; [| split; [lia |]].
  - intros c. rewrite Hv. destruct (Z.eqb_spec c 58) as [->|Hc]; [by rewrite fn_lookup_insert | by rewrite fn_lookup_insert_ne].
  - intros c. rewrite Hv. destruct (c =? 58); [apply used_bits_bytes | apply Hb].
Qed.

(** ** Directory entries in the bytes of the directory *)

Definition dirent_ok (de : dirent) : Prop := 0 <= de_inum de < 65536 /\ length (de_name de) = DIRSIZ.

Lemma dirent_get_put de : dirent_ok de -> dirent_of (dirent_bytes de) = de.
Proof.
  intros [Hi Hl]. unfold dirent_of, dirent_bytes. destruct de as [inum name]. cbn [de_inum de_name] in *. f_equal.
  unfold put16, get16, byte_at. cbn. unfold id. pose proof (Z.rem_mul_r inum 256 256 ltac:(lia) ltac:(lia)) as Hm.
  change (256 * 256) with 65536 in Hm. rewrite (Z.mod_small inum 65536) in Hm by lia. lia.
Qed.

Lemma slice_concat (l : list (list Z)) : forall k x t,
  Forall (fun y => length y = 16%nat) l -> l !! k = Some x -> take 16 (drop (16 * k) (concat l ++ t)) = x.
Proof.
  induction l as [|y l IH]; intros k x t Hl Hk; [done |]. apply Forall_cons in Hl as [Hy Hl]. destruct k as [|k].
  - injection Hk as ->. cbn [concat]. rewrite <- app_assoc. by rewrite drop_0, take_app_length'.
  - cbn [concat]. rewrite <- app_assoc. replace (16 * S k)%nat with (length y + 16 * k)%nat by lia. rewrite drop_app_add. by apply IH.
Qed.

Lemma length_concat16 (l : list (list Z)) : Forall (fun y => length y = 16%nat) l -> length (concat l) = (16 * length l)%nat.
Proof. induction 1 as [|y l Hy _ IH]; [done |]. cbn [concat length]. rewrite length_app. lia. Qed.

Definition no_entry : dirent := mkDirent 0 (replicate DIRSIZ 0).

Lemma dir_bytes_16 des : Forall dirent_ok des -> Forall (fun y => length y = 16%nat) (dirent_bytes <$> des).
Proof. intros Hd. apply Forall_fmap. eapply Forall_impl; [exact Hd |]. intros de [_ Hl]. by apply dirent_bytes_length. Qed.

Lemma dir_bytes_length des : Forall dirent_ok des -> length (dir_bytes des) = (16 * length des)%nat.
Proof. intros Hd. unfold dir_bytes. rewrite length_concat16 by (by apply dir_bytes_16). by rewrite length_fmap. Qed.

Lemma dents_padded v des F :
  root_padded v (dir_bytes des) F -> Forall dirent_ok des ->
  exists k, dents (sb := mkfs_sb) v 1 = des ++ replicate k no_entry.
Proof.
  intros Hrp Hd. pose proof (dir_bytes_length des Hd) as Hl. pose proof (dir_bytes_16 des Hd) as H16.
  set (n := Z.of_nat (length (dir_bytes des))). set (m := (n / 512 + 1) * 512).
  pose proof (Z.div_mod n 512 ltac:(lia)) as Hdm. pose proof (Z.mod_pos_bound n 512 ltac:(lia)).
  exists (Z.to_nat (m / 16) - length des)%nat. unfold dents. rewrite (rp_size _ _ _ Hrp), (rp_bytes _ _ _ Hrp). fold n m.
  assert (m = 16 * (m / 16)) as Hm16.
  { unfold m. replace ((n / 512 + 1) * 512) with ((n / 512 + 1) * 32 * 16) by lia. rewrite Z.div_mul by lia. lia. }
  assert (length des <= Z.to_nat (m / 16))%nat as Hle by lia.
  apply list_eq. intros k. rewrite list_lookup_fmap. destruct (decide (k < Z.to_nat (m / 16))%nat) as [Hk|Hk].
  2: { rewrite lookup_seq_ge by lia. symmetry. apply lookup_ge_None_2. rewrite length_app, length_replicate. lia. }
  rewrite lookup_seq_lt by lia. cbn [fmap option_fmap option_map Nat.add]. destruct (des !! k) as [de|] eqn:Hde.
  - rewrite (lookup_app_l_Some _ _ _ _ Hde). f_equal. unfold dir_bytes. rewrite (slice_concat _ k (dirent_bytes de)); [| done |].
    + apply dirent_get_put. by apply (Forall_lookup_1 _ _ _ _ Hd Hde).
    + by rewrite list_lookup_fmap, Hde.
  - apply lookup_ge_None in Hde. rewrite lookup_app_r, lookup_replicate_2 by lia. f_equal.
    rewrite drop_app_ge by lia. rewrite drop_replicate, take_replicate.
    replace (16 `min` _)%nat with 16%nat by lia. reflexivity.
Qed.

(** ** Looking up a name *)

Definition named (name : list Z) (de : dirent) : bool :=
  negb (de_inum de =? 0) && bool_decide (name_str (de_name de) DIRSIZ = name).

Lemma dir_scan_find name l : forall off, fst <$> dir_scan name l off = de_inum <$> find (named name) l.
Proof. induction l as [|de l IH]; intros off; [done |]. cbn [dir_scan find]. unfold named at 1. destruct (_ && _); [done | apply IH]. Qed.

Lemma find_app_l {A} (f : A -> bool) l l' : (forall x, x ∈ l' -> f x = false) -> find f (l ++ l') = find f l.
Proof.
  intros Hf. induction l as [|x l IH]; cbn [app find].
  - induction l' as [|y l' IH]; [done |]. cbn [find]. rewrite Hf by apply list_elem_of_here. apply IH. intros x Hx. by apply Hf, list_elem_of_further.
  - by destruct (f x).
Qed.

Lemma name_str_all n : forall t, Forall (fun c => c <> 0) t -> name_str t n = take n t.
Proof.
  induction n as [|n IH]; intros t Ht; [by rewrite take_0 |]. destruct t as [|c t]; [done |]. apply Forall_cons in Ht as [Hc Ht].
  cbn [name_str]. rewrite byte_at_cons, (proj2 (Z.eqb_neq _ _) Hc). rewrite firstn_cons. f_equal. by apply IH.
Qed.

Lemma entry_name inum a : arg_ok a -> name_str (de_name (entry_of inum a)) DIRSIZ = take DIRSIZ (stored_name (a_name a)).
Proof.
  intros Ha. cbn [entry_of de_name]. rewrite (proj1 (strncpy_name DIRSIZ _)). apply name_str_all.
  eapply Forall_impl; [by apply stored_ok |]. intros c [Hc _]. lia.
Qed.

(** The argument that a name leads to. *)
Definition file_named (name : list Z) (files : list arg) : option arg :=
  find (fun a => bool_decide (take DIRSIZ (stored_name (a_name a)) = take DIRSIZ name)) files.

Lemma find_entries name files : forall inum, 0 < inum -> Forall arg_ok files ->
  match file_named name files with
  | None => find (named (take DIRSIZ name)) (entries inum files) = None
  | Some a => exists i, files !! i = Some a /\
      find (named (take DIRSIZ name)) (entries inum files) = Some (entry_of (inum + Z.of_nat i) a)
  end.
Proof.
  induction files as [|a files IH]; intros inum Hi Hall; [done |]. apply Forall_cons in Hall as [Ha Hall]. unfold file_named in *. cbn [find entries].
  assert (named (take DIRSIZ name) (entry_of inum a) = bool_decide (take DIRSIZ (stored_name (a_name a)) = take DIRSIZ name)) as ->.
  { unfold named. rewrite (entry_name inum a Ha). cbn [entry_of de_inum]. by rewrite (proj2 (Z.eqb_neq inum 0)) by lia. }
  destruct (bool_decide (take DIRSIZ (stored_name (a_name a)) = take DIRSIZ name)).
  - exists 0%nat. rewrite Z.add_0_r. done.
  - specialize (IH (inum + 1) ltac:(lia) Hall). destruct (find _ files) as [a'|]; [| done].
    destruct IH as (i & Hi' & He). exists (S i). split; [done |]. rewrite He. do 2 f_equal. lia.
Qed.

Lemma entries_ok files : forall inum, 0 <= inum -> inum + Z.of_nat (length files) < 65536 -> Forall arg_ok files ->
  Forall dirent_ok (entries inum files).
Proof.
  induction files as [|a files IH]; intros inum H0 Hn Hall; [constructor |]. apply Forall_cons in Hall as [Ha Hall]. cbn [entries length] in *.
  constructor; [| apply IH; [lia | lia | done]]. split; [cbn; lia | apply strncpy_name].
Qed.

Lemma entries_elem files : forall inum de, de ∈ entries inum files -> exists i a, files !! i = Some a /\ de = entry_of (inum + Z.of_nat i) a.
Proof.
  induction files as [|a files IH]; intros inum de Hd; cbn [entries] in Hd; [by apply not_elem_of_nil in Hd |].
  apply elem_of_cons in Hd as [->|Hd]; [exists 0%nat, a; by rewrite Z.add_0_r |].
  destruct (IH _ _ Hd) as (i & a' & Hi & ->). exists (S i), a'. split; [done |]. f_equal. lia.
Qed.

(** What the root directory holds. *)
Definition root_entries (files : list arg) : list dirent :=
  [dot_entry 1 [46]; dot_entry 1 [46; 46]] ++ entries 2 files.

Lemma root_entries_ok files : Z.of_nat (length files) < 199 -> Forall arg_ok files -> Forall dirent_ok (root_entries files).
Proof.
  intros Hn Hall. apply Forall_app. split; [| apply entries_ok; [lia | lia | done]].
  repeat constructor; by vm_compute.
Qed.

Lemma find_root name files k :
  take DIRSIZ name <> [46] -> take DIRSIZ name <> [46; 46] ->
  find (named (take DIRSIZ name)) (root_entries files ++ replicate k no_entry) = find (named (take DIRSIZ name)) (entries 2 files).
Proof.
  intros H1 H2. rewrite find_app_l.
  - unfold root_entries. cbn [app find].
    assert (named (take DIRSIZ name) (dot_entry 1 [46]) = false) as ->.
    { unfold named. change (name_str (de_name (dot_entry 1 [46])) DIRSIZ) with [46]. by rewrite bool_decide_eq_false_2 by congruence. }
    assert (named (take DIRSIZ name) (dot_entry 1 [46; 46]) = false) as ->; [| done].
    unfold named. change (name_str (de_name (dot_entry 1 [46; 46])) DIRSIZ) with [46; 46]. by rewrite bool_decide_eq_false_2 by congruence.
  - intros de Hd%elem_of_replicate_inv. subst de. done.
Qed.

Section made.
Context (v : Z -> block) (files : list arg) (Hall : Forall arg_ok files) (Hn : Z.of_nat (length files) < 199).
Context (Hrp : root_padded v (dir_bytes (root_entries files)) (plain_files files)).

Lemma made_inum i : (i < length files)%nat -> is_inum (sb := mkfs_sb) (2 + Z.of_nat i).
Proof. intros Hi. unfold is_inum. rewrite mkfs_sb_eq. simpl. lia. Qed.

Lemma made_file i a : files !! i = Some a -> has_file v (2 + Z.of_nat i) T_FILE (contents a).
Proof.
  intros Hi. replace (2 + Z.of_nat i) with (Z.of_nat i + 2) by lia. apply (rp_file _ _ _ Hrp). unfold plain_files. by rewrite list_lookup_fmap, Hi.
Qed.

Lemma made_root : lasting (sb := mkfs_sb) v ∅ ROOTINO.
Proof.
  change ROOTINO with 1. split; [unfold is_inum; rewrite mkfs_sb_eq; simpl; lia |]. rewrite (rp_type _ _ _ Hrp), (rp_nlink _ _ _ Hrp).
  split; [done | by left].
Qed.

Lemma made_dirs : dirs_ok (sb := mkfs_sb) v.
Proof.
  intros j Hj Hty. destruct (decide (j = 1)) as [->|Hne].
  - destruct (dents_padded v _ _ Hrp (root_entries_ok files Hn Hall)) as [k Hk]. split.
    + rewrite (rp_size _ _ _ Hrp). apply Z.mod_divide; [lia |]. apply Z.divide_mul_r. by exists 32.
    + rewrite Hk. intros de Hde Hnz. apply elem_of_app in Hde as [Hde|Hde%elem_of_replicate_inv]; [| by subst de].
      apply elem_of_app in Hde as [Hde|Hde].
      * assert (de_inum de = 1) as -> by (apply elem_of_cons in Hde as [->|[->|[]%not_elem_of_nil]%elem_of_cons]; reflexivity).
        destruct made_root as (H1 & H2 & [H3|[x H3]]); [done | by rewrite lookup_empty in H3].
      * apply entries_elem in Hde as (i & a & Hi & ->). cbn [entry_of de_inum]. pose proof (lookup_lt_Some _ _ _ Hi).
        destruct (made_file i a Hi) as [H1 _ H3 _ _ _]. rewrite H1, H3. split; [by apply made_inum | done].
  - exfalso. destruct (decide (j = 0 \/ Z.of_nat (length (plain_files files)) + 1 < j)) as [Hout|Hin].
    + by rewrite (rp_rest _ _ _ Hrp j Hj Hout) in Hty.
    + unfold plain_files in Hin. rewrite length_fmap in Hin. unfold is_inum in Hj.
      destruct (lookup_lt_is_Some_2 files (Z.to_nat (j - 2))) as [a Ha]; [lia |].
      pose proof (h_type _ _ _ _ (made_file _ a Ha)) as Ht. replace (2 + Z.of_nat (Z.to_nat (j - 2))) with j in Ht by lia.
      rewrite Hty in Ht. done.
Qed.

Lemma made_tree path name :
  tokens [SLASH] path = [name] -> take DIRSIZ name <> [46] -> take DIRSIZ name <> [46; 46] ->
  disk_tree (sb := mkfs_sb) v path = contents <$> file_named name files.
Proof.
  intros Htok H1 H2. unfold disk_tree. rewrite Htok. cbn [path_walk]. change ROOTINO with 1. rewrite (rp_type _ _ _ Hrp). cbn [Z.eqb negb T_DIR andb].
  change (negb (T_DIR =? T_DIR)) with false. cbv iota. unfold dir_find.
  destruct (dents_padded v _ _ Hrp (root_entries_ok files Hn Hall)) as [k Hk]. rewrite Hk.
  pose proof (dir_scan_find (take DIRSIZ name) (root_entries files ++ replicate k no_entry) 0) as Hscan. rewrite find_root in Hscan by done.
  pose proof (find_entries name files 2 ltac:(lia) Hall) as Hfind. destruct (file_named name files) as [a|].
  - destruct Hfind as (i & Hi & He). rewrite He in Hscan. destruct (dir_scan _ _ _) as [[j off]|]; [| done]. cbn in Hscan.
    injection Hscan as ->. cbn. f_equal. apply (h_bytes _ _ _ _ (made_file i a Hi)).
  - rewrite Hfind in Hscan. by destruct (dir_scan _ _ _).
Qed.
End made.

(** ** The program *)

Definition final_files (files : list arg) : list (Z * list Z) := (T_DIR, dir_bytes (root_entries files)) :: plain_files files.

(** The files fit onto the disk, and the directory does not end with a block. *)
Record fits_disk (files : list arg) : Prop := {
  ft_args : Forall arg_ok files;
  ft_inodes : Z.of_nat (length files) < 199;
  ft_root : (Z.of_nat (length files) + 2) mod 32 <> 0;
  ft_blocks : nmeta + used (final_files files) <= FSSIZE
}.

Lemma root_length files : fits_disk files -> Z.of_nat (length (dir_bytes (root_entries files))) = 16 * (Z.of_nat (length files) + 2).
Proof.
  intros [Ha Hn _ _]. rewrite dir_bytes_length by (by apply root_entries_ok). unfold root_entries.
  assert (forall inum, length (entries inum files) = length files) as He.
  { clear. induction files as [|a files IH]; intros inum; [done |]. cbn. by rewrite IH. }
  rewrite length_app, He. cbn [length]. lia.
Qed.

Lemma mkfs_files files : fits_disk files ->
  runs (mkfs_main files) (mkMk (fun _ => zeroes) 0 1 0) (fun _ s' => exists v,
    root_padded v (dir_bytes (root_entries files)) (plain_files files) /\
    (forall c, mk_img s' c = v c) /\ mk_len s' = 4000 /\ (forall c, bytes_ok (v c)) /\ forall c, length (v c) = BSIZE).
Proof.
  intros Hfit. pose proof (root_length files Hfit) as Hroot. pose proof Hfit as [Hall Hn Hm Hb]. change nmeta with 59 in Hb. change FSSIZE with 4000 in Hb.
  unfold final_files in Hb. unfold mkfs_main. apply runs_bind, runs_modify, runs_bind. change nmeta with 59.
  eapply runs_mono; [apply wzero_spec; [done | lia | change FSSIZE with 4000; lia | done] |]. change FSSIZE with 4000.
  intros [] s1 (Hz & Hl & Hi & Hf). cbn [mk_freeinode mk_freeblock] in Hi, Hf. apply runs_bind. unfold wsect. apply runs_modify.
  change (sector 1) with 1. set (s2 := mkMk _ _ _ _).
  assert (has_files s2 empty_view []) as Hf2.
  { apply empty_files; unfold s2; cbn [mk_len mk_freeinode mk_freeblock mk_img]; [lia | done | done |]. intros c.
    destruct (Z.eqb_spec c 1) as [->|Hc]; [by rewrite fn_lookup_insert | by rewrite fn_lookup_insert_ne]. }
  apply runs_bind. eapply runs_mono; [apply (ialloc_spec s2 _ [] T_DIR Hf2); [cbn; lia | by vm_compute] |].
  intros r s3 (-> & v3 & Hf3). change (Z.of_nat (length (@nil (Z * list Z))) + 1) with 1. change (1 =? ROOTINO) with true. cbn [negb].
  set (d1 := dirent_bytes (dot_entry 1 [46])). set (d2 := dirent_bytes (dot_entry 1 [46; 46])).
  assert (Hused : forall d, Z.of_nat (length d) <= 16 * (Z.of_nat (length files) + 2) -> 59 + used [(T_DIR, d)] <= 4000).
  { intros d Hd. cbn [used] in Hb |- *. rewrite Hroot in Hb. pose proof (need_mono _ _ Hd). pose proof (used_pos (plain_files files)). lia. }
  apply runs_bind. eapply runs_mono; [apply (iappend_spec s3 v3 _ 0 T_DIR [] d1 Hf3); [done | | done | by apply Z.leb_le | apply Hused; cbn; lia] |].
  { apply (bool_decide_unpack _). by vm_compute. }
  intros [] s4 (v4 & Hf4). cbn [app] in Hf4. change (<[0%nat := (T_DIR, d1)]> [(T_DIR, [])]) with [(T_DIR, d1)] in Hf4.
  apply runs_bind. eapply runs_mono; [apply (iappend_spec s4 v4 _ 0 T_DIR d1 d2 Hf4); [done | | done | by apply Z.leb_le | apply Hused; cbn; lia] |].
  { apply (bool_decide_unpack _). by vm_compute. }
  intros [] s5 (v5 & Hf5). change (<[0%nat := (T_DIR, d1 ++ d2)]> [(T_DIR, d1)]) with [(T_DIR, d1 ++ d2)] in Hf5.
  assert (dir_bytes (root_entries files) = (d1 ++ d2) ++ dir_bytes (entries 2 files)) as Hdir.
  { unfold root_entries. rewrite dir_bytes_app. unfold dir_bytes at 1. cbn [fmap list_fmap concat]. by rewrite app_nil_r. }
  apply runs_bind. eapply runs_mono; [apply (add_files_spec files s5 v5 _ [] Hf5 Hall); change (Z.of_nat (length (@nil (Z * list Z))) + 2) with 2; rewrite <- ?Hdir |].
  { cbn [length]. lia. }
  { rewrite Hroot. unfold MAXBYTES. lia. }
  { exact Hb. }
  intros [] s6 (v6 & Hf6). change (Z.of_nat (length (@nil (Z * list Z))) + 2) with 2 in Hf6. rewrite <- Hdir in Hf6. cbn [app] in Hf6.
  apply runs_bind. eapply runs_mono; [apply (fix_root_spec s6 v6 _ _ Hf6) |].
  { rewrite Hroot. change 512 with (16 * 32). rewrite Z.mul_mod_distr_l by lia. lia. }
  intros [] s7 (v7 & Him7 & Hrp). apply runs_bind, runs_get. eapply runs_mono; [by apply (free_map_spec s7 v7) |].
  intros [] s8 (Himg & Hlen & Hbytes). exists v7. split; [done |]. split; [done |]. split; [done |]. split; [done | apply Him7].
Qed.

Lemma disk_tree_agree v v' path :
  (forall b, v' b = v b) -> disk_ok (sb := mkfs_sb) v -> dirs_ok (sb := mkfs_sb) v -> lasting (sb := mkfs_sb) v ∅ ROOTINO ->
  disk_tree (sb := mkfs_sb) v' path = disk_tree (sb := mkfs_sb) v path.
Proof.
  intros Hv Hd Hdirs Hroot. assert (forall b, home 4000 2 30 b -> v' b = v b) as Hh by (intros b _; apply Hv). unfold disk_tree.
  rewrite (path_walk_agree Hg v v' Hh Hd Hdirs) by (split; apply Hroot).
  destruct (path_walk false v ROOTINO (tokens [SLASH] path)) as [j|] eqn:Hw; [| done]. cbn. f_equal.
  destruct (path_walk_live v Hdirs ∅ false _ _ _ Hroot Hw) as (H1 & H2 & _). by apply (file_agree Hg v v' Hh Hd).
Qed.


(** The program of [FsDemo] as "_init", and a text in two reads. *)
Definition demo_args : list arg :=
  [mkArg [95; 105; 110; 105; 116] (Some [demo_prog]); mkArg [116] (Some [[104; 105]; [10]])].

Lemma demo_args_ok : Forall arg_ok demo_args.
Proof.
  repeat constructor; cbn [a_name a_reads default from_option id]; try done; try (unfold SLASH; lia).
Qed.

