(* ===== verification/Display.v ===== *)
(** * Console output (console.c, first half)

    The colour display and the serial line behind [consputc], with the
    formatted output of the kernel on top. The display is its memory of 25
    rows of 80 cells and the two cursor registers of its controller, which
    [cgaputc] reaches through the ports 14 and 15; the serial line is the list
    of bytes given to it. The lock of the console is not part of the state: a
    call of [cprintf] is atomic. *)

From S2P Require Import Prelude Mem.

Definition NL : Z := 10.
Definition BACKSPACE : Z := 0x100.

Record display := mkDisplay {
  d_serial : list Z;
  d_hi : Z;
  d_lo : Z;
  d_crt : list Z;
  d_panicked : Z
}.

(** [memmove(crt, crt + 80, 23 * 80 cells)] and [memset(crt + pos, 0, 24 * 80 -
    pos cells)]. *)
Definition scroll (crt : list Z) (pos : Z) : res (list Z) :=
  let crt := take (23 * 80) (drop 80 crt) ++ drop (23 * 80) crt in
  if 24 * 80 <? pos then Undef
  else Ok (take (Z.to_nat pos) crt ++ replicate (Z.to_nat (24 * 80 - pos)) 0 ++ drop (24 * 80) crt).

Definition cgaputc (c : Z) : ST display unit := fun d =>
  let pos := Z.lor (Z.shiftl (d_hi d) 8) (d_lo d) in
  let! (pos, crt) :=
    if c =? NL then Ok (pos + (80 - Z.rem pos 80), d_crt d)
    else if c =? BACKSPACE then Ok (if 0 <? pos then pos - 1 else pos, d_crt d)
    else let! crt := arr_set (d_crt d) pos (Z.lor (Z.land c 0xff) 0x0700) in Ok (pos + 1, crt) in
  if (pos <? 0) || (25 * 80 <? pos) then Panic "pos under/overflow"
  else
    let! (pos, crt) :=
      if 24 <=? Z.quot pos 80
      then let! crt := scroll crt (pos - 80) in Ok (pos - 80, crt)
      else Ok (pos, crt) in
    let! crt := arr_set crt pos (Z.lor 32 0x0700) in
    Ok (tt, mkDisplay (d_serial d) (uchar (Z.shiftr pos 8)) (uchar pos) crt (d_panicked d)).

Definition uartputc (c : Z) : ST display unit :=
  modify (fun d => mkDisplay (d_serial d ++ [uchar c]) (d_hi d) (d_lo d) (d_crt d) (d_panicked d)).

(** A machine that has panicked stops at the next character. *)
Definition consputc (c : Z) : ST display unit :=
  let* panicked := get d_panicked in
  if negb (panicked =? 0) then fun _ => Hang
  else
    (if c =? BACKSPACE then uartputc 8 ;;; uartputc 32 ;;; uartputc 8 else uartputc c) ;;;
    cgaputc c.

Fixpoint puts (l : list Z) : ST display unit :=
  match l with
  | [] => ret tt
  | c :: l' => consputc c ;;; puts l'
  end.

(** ** Numbers *)

Definition digits : list Z := [48; 49; 50; 51; 52; 53; 54; 55; 56; 57; 97; 98; 99; 100; 101; 102].

(** [buf[i++] = c] in [char buf[16]]. *)
Definition push16 (buf : list Z) (c : Z) : res (list Z) :=
  if (16 <=? length buf)%nat then Undef else Ok (buf ++ [c]).

Fixpoint printint_digits (fuel : nat) (x base : Z) (buf : list Z) : res (list Z) :=
  match fuel with
  | O => Hang
  | S fuel' =>
      if base =? 0 then Undef
      else
        let! c := arr_get digits (x mod base) in
        let! buf := push16 buf c in
        let x := x / base in
        if x =? 0 then Ok buf else printint_digits fuel' x base buf
  end.

(** [-xx] is not an [int] for the least one. *)
Definition printint (xx base sign : Z) : ST display unit :=
  let neg := negb (sign =? 0) && (xx <? 0) in
  let* x := lift (if neg then if xx =? -2147483648 then Undef else Ok (- xx) else Ok (u32 xx)) in
  let* buf := lift (printint_digits 32 x base []) in
  let* buf := lift (if neg then push16 buf 45 else Ok buf) in
  puts (reverse buf).

(** ** Formatted output *)

(** The words after the format: numbers, and strings or the null pointer. *)
Inductive arg := Num (w : Z) | Str (s : option cstring).

Fixpoint cprintf (fmt : cstring) (args : list arg) : ST display unit :=
  match fmt with
  | [] => ret tt
  | c :: fmt1 =>
      if negb (c =? 37) then consputc c ;;; cprintf fmt1 args
      else
        match fmt1 with
        | [] => ret tt
        | c :: fmt2 =>
            if c =? 100 then
              match args with
              | Num w :: args' => printint (i32 w) 10 1 ;;; cprintf fmt2 args'
              | _ => undef
              end
            else if (c =? 120) || (c =? 112) then
              match args with
              | Num w :: args' => printint (i32 w) 16 0 ;;; cprintf fmt2 args'
              | _ => undef
              end
            else if c =? 115 then
              match args with
              | Str s :: args' => puts (default [40; 110; 117; 108; 108; 41] s) ;;; cprintf fmt2 args'
              | _ => undef
              end
            else if c =? 37 then consputc 37 ;;; cprintf fmt2 args
            else consputc 37 ;;; consputc c ;;; cprintf fmt2 args
        end
  end.

(** ** The screen stays in bounds *)

Definition cursor (d : display) : Z := d_hi d * 256 + d_lo d.

Record display_ok (d : display) : Prop := {
  dk_hi : 0 <= d_hi d;
  dk_lo : 0 <= d_lo d < 256;
  dk_pos : cursor d < 25 * 80;
  dk_crt : length (d_crt d) = (25 * 80)%nat;
  dk_running : d_panicked d = 0
}.

Lemma scroll_ok crt pos :
  length crt = (25 * 80)%nat -> 0 <= pos <= 24 * 80 ->
  exists crt', scroll crt pos = Ok crt' /\ length crt' = (25 * 80)%nat.
Proof.
  intros Hl Hp. unfold scroll. rewrite (proj2 (Z.ltb_ge _ _)) by lia. eexists. split; [done |].
  rewrite !length_app, length_take, length_replicate, !length_drop, length_app, length_take, !length_drop, Hl. lia.
Qed.

Lemma cursor_split pos : 0 <= pos < 25 * 80 -> uchar (Z.shiftr pos 8) * 256 + uchar pos = pos.
Proof.
  intros Hp. rewrite Z.shiftr_div_pow2 by lia. change (2 ^ 8) with 256. unfold uchar.
  pose proof (Z.div_mod pos 256 ltac:(lia)). rewrite (Z.mod_small (pos / 256)); [lia |].
  split; [apply Z.div_pos; lia | apply Z.div_lt_upper_bound; lia].
Qed.

Lemma set_cursor_ok d pos crt :
  d_panicked d = 0 -> 0 <= pos < 25 * 80 -> length crt = (25 * 80)%nat ->
  display_ok (mkDisplay (d_serial d) (uchar (Z.shiftr pos 8)) (uchar pos) crt (d_panicked d)).
Proof.
  intros Hr Hp Hl. split; cbn [d_hi d_lo d_crt d_panicked]; try done.
  - apply Z.mod_pos_bound. lia.
  - apply Z.mod_pos_bound. lia.
  - unfold cursor. cbn [d_hi d_lo]. rewrite cursor_split by done. lia.
Qed.

(** Where a character moves the cursor, before scrolling. *)
Definition moved (c pos : Z) : Z :=
  if c =? NL then pos + (80 - Z.rem pos 80)
  else if c =? BACKSPACE then if 0 <? pos then pos - 1 else pos
  else pos + 1.

Lemma moved_range c pos : 0 <= pos < 25 * 80 -> 0 <= moved c pos <= 25 * 80.
Proof.
  intros Hp. unfold moved. pose proof (Z.rem_bound_pos pos 80 ltac:(lia) ltac:(lia)).
  pose proof (Z.quot_rem pos 80 ltac:(lia)).
  bool_cases; try lia.
Qed.

Lemma cgaputc_ok c d :
  display_ok d -> runs (cgaputc c) d (fun _ d' => display_ok d' /\ d_serial d' = d_serial d).
Proof.
  intros [Hh Hlo Hp Hl Hr]. unfold runs, cgaputc. rewrite lor_shiftl_add by lia. change (2 ^ 8) with 256.
  change (d_hi d * 256 + d_lo d) with (cursor d). assert (0 <= cursor d) as H0 by (unfold cursor; lia).
  set (first := if c =? NL then _ else _).
  assert (exists crt, first = Ok (moved c (cursor d), crt) /\ length crt = (25 * 80)%nat) as (crt & -> & Hcrt).
  { unfold first, moved. destruct (c =? NL); [eauto |]. destruct (c =? BACKSPACE); [eauto |].
    rewrite arr_set_in by lia. eexists. split; [done |]. by rewrite length_insert. }
  pose proof (moved_range c (cursor d) ltac:(lia)) as Hm. simpl rbind at 1.
  rewrite (proj2 (Z.ltb_ge _ 0)), (proj2 (Z.ltb_ge (25 * 80) _)) by lia. simpl orb. cbv iota.
  set (pos := moved c (cursor d)) in *.
  pose proof (Z.quot_rem pos 80 ltac:(lia)). pose proof (Z.rem_bound_pos pos 80 ltac:(lia) ltac:(lia)).
  destruct (Z.leb_spec 24 (Z.quot pos 80)).
  - destruct (scroll_ok crt (pos - 80)) as (crt' & -> & Hl'); [done | lia |]. simpl rbind.
    rewrite arr_set_in by lia. simpl rbind. eexists _, _. split; [done |]. split; [| done].
    apply set_cursor_ok; [done | lia | by rewrite length_insert].
  - simpl rbind. rewrite arr_set_in by lia. simpl rbind. eexists _, _. split; [done |]. split; [| done].
    apply set_cursor_ok; [done | lia | by rewrite length_insert].
Qed.

(** What a character sends over the serial line. *)
Definition serial_of (c : Z) : list Z := if c =? BACKSPACE then [8; 32; 8] else [uchar c].

Lemma serial_ok d s : display_ok d -> display_ok (mkDisplay s (d_hi d) (d_lo d) (d_crt d) (d_panicked d)).
Proof. by intros []. Qed.

Lemma consputc_ok c d :
  display_ok d -> runs (consputc c) d (fun _ d' => display_ok d' /\ d_serial d' = d_serial d ++ serial_of c).
Proof.
  intros Hd. unfold consputc, serial_of. apply runs_bind, runs_get. rewrite (dk_running d Hd). simpl negb. cbv iota.
  apply runs_bind. destruct (c =? BACKSPACE).
  - do 2 (apply runs_bind, runs_modify). apply runs_modify. cbn [d_serial d_hi d_lo d_crt d_panicked].
    eapply runs_mono; [by apply cgaputc_ok, serial_ok |]. intros _ d' [Hd' ->]. split; [done |].
    cbn [d_serial]. by rewrite <- !app_assoc.
  - apply runs_modify. eapply runs_mono; [by apply cgaputc_ok, serial_ok |]. by intros _ d' [Hd' ->].
Qed.

Lemma puts_ok l : forall d,
  display_ok d -> runs (puts l) d (fun _ d' => display_ok d' /\ d_serial d' = d_serial d ++ concat (serial_of <$> l)).
Proof.
  induction l as [|c l IH]; intros d Hd; cbn [puts].
  - apply runs_ret. split; [done |]. by rewrite app_nil_r.
  - apply runs_bind. eapply runs_mono; [by apply consputc_ok |]. intros _ d1 [Hd1 Hs1].
    eapply runs_mono; [by apply IH |]. intros _ d2 [Hd2 ->]. split; [done |].
    by rewrite Hs1, <- app_assoc.
Qed.

Lemma serial_bytes l : Forall (fun c => 0 <= c < 256) l -> concat (serial_of <$> l) = l.
Proof.
  induction 1 as [|c l Hc _ IH]; [done |]. rewrite fmap_cons. cbn [concat]. rewrite IH. unfold serial_of, BACKSPACE.
  rewrite (proj2 (Z.eqb_neq _ _)) by lia. by rewrite uchar_small.
Qed.

Lemma puts_text l d :
  display_ok d -> Forall (fun c => 0 <= c < 256) l ->
  runs (puts l) d (fun _ d' => display_ok d' /\ d_serial d' = d_serial d ++ l).
Proof.
  intros Hd Hl. eapply runs_mono; [by apply (puts_ok l) |]. intros _ d' [Hd' ->]. by rewrite serial_bytes.
Qed.

(** ** What the numbers mean *)

(** The value of digits in base [b], most significant first. *)
Definition value (b : Z) (ds : list Z) : Z := foldl (fun v c => v * b + c) 0 ds.

(** [t] shows [x] in base [b]: its characters are the digits of [x], without
    superfluous zeros. *)
Definition shows (b x : Z) (t : list Z) : Prop :=
  exists ds, value b ds = x /\ Forall (fun c => 0 <= c < b) ds /\ t = (fun c => digits !!! Z.to_nat c) <$> ds /\
    (exists c ds', ds = c :: ds' /\ (c <> 0 \/ ds' = [])).

Lemma digits_lookup c : 0 <= c < 16 -> arr_get digits c = Ok (digits !!! Z.to_nat c).
Proof.
  intros Hc. apply arr_get_Ok. split; [lia |].
  destruct (lookup_lt_is_Some_2 digits (Z.to_nat c)) as [x Hx]; [simpl; lia |].
  by rewrite (list_lookup_total_correct _ _ _ Hx).
Qed.

Lemma value_snoc b ds c : value b (ds ++ [c]) = value b ds * b + c.
Proof. unfold value. by rewrite foldl_app. Qed.

(** The loop puts the digits behind those it has, least significant first. *)
Lemma printint_digits_ok n b : forall fuel x buf,
  2 <= b <= 16 -> 0 <= x -> x < b ^ Z.of_nat n -> (length buf + n <= 16)%nat -> (0 < n <= fuel)%nat ->
  exists t, printint_digits fuel x b buf = Ok (buf ++ reverse t) /\ (0 < length t <= n)%nat /\ shows b x t.
Proof.
  induction n as [|n IH]; intros fuel x buf Hb Hx Hlt Hl Hf; [lia |].
  destruct fuel as [|fuel]; [lia |]. cbn [printint_digits].
  rewrite (proj2 (Z.eqb_neq b 0)) by lia.
  pose proof (Z.mod_pos_bound x b ltac:(lia)) as Hm. pose proof (Z.div_mod x b ltac:(lia)) as Hd.
  rewrite digits_lookup by lia. simpl rbind at 1. unfold push16.
  rewrite (proj2 (Nat.leb_gt _ _)) by lia. simpl rbind at 1.
  destruct (Z.eqb_spec (x / b) 0) as [H0|H0].
  - exists [digits !!! Z.to_nat (x mod b)]. split; [done |]. split; [simpl; lia |]. exists [x mod b].
    split; [unfold value; simpl; lia |]. split; [by repeat constructor; lia |]. split; [done |]. eauto.
  - assert (0 <= x / b) by (apply Z.div_pos; lia).
    assert (x / b < b ^ Z.of_nat n).
    { apply Z.div_lt_upper_bound; [lia |]. rewrite Nat2Z.inj_succ, Z.pow_succ_r in Hlt by lia. lia. }
    assert (0 < n)%nat by (destruct n; [simpl in *; lia | lia]).
    destruct (IH fuel (x / b) (buf ++ [digits !!! Z.to_nat (x mod b)])) as (t & -> & Ht & ds & Hv & Hds & -> & c & ds' & -> & Hc).
    all: try lia.
    { rewrite length_app. simpl. lia. }
    exists (((fun c => digits !!! Z.to_nat c) <$> c :: ds') ++ [digits !!! Z.to_nat (x mod b)]). split.
    { by rewrite reverse_app, <- app_assoc. }
    split; [rewrite length_app; simpl in *; lia |]. exists ((c :: ds') ++ [x mod b]).
    split; [rewrite value_snoc, Hv; lia |]. split; [apply Forall_app; split; [done |]; by repeat constructor; lia |].
    split; [by rewrite fmap_app |]. exists c, (ds' ++ [x mod b]). split; [done |]. left.
    destruct Hc as [?| ->]; [done |]. intros ->. unfold value in Hv. simpl in Hv. lia.
Qed.

(** What [printint] writes for [xx]. *)
Definition shows_int (base sign xx : Z) (t : list Z) : Prop :=
  if negb (sign =? 0) && (xx <? 0) then exists t', t = 45 :: t' /\ shows base (- xx) t'
  else shows base (u32 xx) t.

Lemma digit_byte c : 0 <= digits !!! c < 256.
Proof.
  destruct (digits !! c) as [x|] eqn:Hx.
  - rewrite (list_lookup_total_correct _ _ _ Hx). by do 16 (destruct c as [|c]; [injection Hx as <-; lia |]).
  - rewrite list_lookup_total_alt, Hx. done.
Qed.

Lemma shows_bytes b x t : shows b x t -> Forall (fun c => 0 <= c < 256) t.
Proof.
  intros (ds & _ & _ & -> & _). apply Forall_fmap, Forall_forall. intros c _. apply digit_byte.
Qed.

Lemma printint_ok xx base sign d :
  display_ok d -> base = 10 \/ base = 16 -> -2147483648 <= xx < 2147483648 -> (sign <> 0 -> xx <> -2147483648) ->
  exists t, shows_int base sign xx t /\
    runs (printint xx base sign) d (fun _ d' => display_ok d' /\ d_serial d' = d_serial d ++ t).
Proof.
  intros Hd Hb Hx Hs. unfold printint, shows_int. pose proof (u32_range xx).
  destruct (negb (sign =? 0) && (xx <? 0)) eqn:Hn.
  - apply andb_true_iff in Hn as [Hn1 Hn2]. apply negb_true_iff, Z.eqb_neq in Hn1. apply Z.ltb_lt in Hn2.
    rewrite (proj2 (Z.eqb_neq xx _)) by auto.
    destruct (printint_digits_ok 10 base 32 (- xx) []) as (t & Ht & Hl & Hsh); [lia | lia | | simpl; lia | lia |].
    { destruct Hb as [-> | ->]; simpl; lia. }
    exists (45 :: t). split; [eauto |]. apply runs_bind. eapply runs_lift; [done |].
    apply runs_bind. eapply runs_lift; [exact Ht |]. apply runs_bind. eapply runs_lift.
    { unfold push16. rewrite app_nil_l, length_reverse, (proj2 (Nat.leb_gt _ _)) by lia. done. }
    rewrite reverse_app, reverse_involutive. apply (puts_text (45 :: t)); [done |].
    constructor; [lia | by eapply shows_bytes].
  - destruct (printint_digits_ok 10 base 32 (u32 xx) []) as (t & Ht & Hl & Hsh); [lia | lia | | simpl; lia | lia |].
    { destruct Hb as [-> | ->]; simpl; lia. }
    exists t. split; [done |]. apply runs_bind. eapply runs_lift; [done |].
    apply runs_bind. eapply runs_lift; [exact Ht |]. apply runs_bind. eapply runs_lift; [done |].
    rewrite app_nil_l, reverse_involutive. apply puts_text; [done | by eapply shows_bytes].
Qed.

(** ** What a format means *)

(** [prints fmt args t]: [t] is the text of a format and its arguments. *)
Inductive prints : cstring -> list arg -> list Z -> Prop :=
| pr_end args : prints [] args []
| pr_char c fmt args t : c <> 37 -> prints fmt args t -> prints (c :: fmt) args (c :: t)
| pr_last args : prints [37] args []
| pr_dec fmt w args n t : shows_int 10 1 (i32 w) n -> prints fmt args t -> prints (37 :: 100 :: fmt) (Num w :: args) (n ++ t)
| pr_hex c fmt w args n t : c = 120 \/ c = 112 -> shows_int 16 0 (i32 w) n -> prints fmt args t ->
    prints (37 :: c :: fmt) (Num w :: args) (n ++ t)
| pr_str fmt s args t : prints fmt args t -> prints (37 :: 115 :: fmt) (Str (Some s) :: args) (s ++ t)
| pr_null fmt args t : prints fmt args t -> prints (37 :: 115 :: fmt) (Str None :: args) ([40; 110; 117; 108; 108; 41] ++ t)
| pr_percent fmt args t : prints fmt args t -> prints (37 :: 37 :: fmt) args (37 :: t)
| pr_other c fmt args t : c ∉ [100; 120; 112; 115; 37] -> prints fmt args t -> prints (37 :: c :: fmt) args (37 :: c :: t).

Definition bytes_ok (s : list Z) : Prop := Forall (fun c => 0 <= c < 256) s.

(** The arguments are of the kinds the format asks for, and the least [int] is
    not printed in decimal. *)
Fixpoint args_fit (fmt : cstring) (args : list arg) : Prop :=
  match fmt with
  | [] => True
  | c :: fmt1 =>
      if negb (c =? 37) then args_fit fmt1 args
      else
        match fmt1 with
        | [] => True
        | c :: fmt2 =>
            if (c =? 100) || (c =? 120) || (c =? 112) then
              match args with
              | Num w :: args' => (c = 100 -> i32 w <> -2147483648) /\ args_fit fmt2 args'
              | _ => False
              end
            else if c =? 115 then
              match args with
              | Str s :: args' => from_option bytes_ok True s /\ args_fit fmt2 args'
              | _ => False
              end
            else args_fit fmt2 args
        end
  end.

Definition writes (m : ST display unit) (d : display) (t : list Z) : Prop :=
  runs m d (fun _ d' => display_ok d' /\ d_serial d' = d_serial d ++ t).

Lemma writes_seq m1 m2 d t1 (P : list Z -> Prop) :
  writes m1 d t1 -> (forall d', display_ok d' -> exists t2, P t2 /\ writes m2 d' t2) ->
  exists t2, P t2 /\ writes (m1 ;;; m2) d (t1 ++ t2).
Proof.
  intros (u & d1 & Hm1 & Hd1 & Hs1) H2. destruct (H2 d1 Hd1) as (t2 & HP & Hw). exists t2. split; [done |].
  unfold writes. apply runs_bind. exists u, d1. split; [done |]. eapply runs_mono; [exact Hw |].
  intros _ d2 [Hd2 ->]. split; [done |]. by rewrite Hs1, app_assoc.
Qed.

(** One conversion: what it writes, then the rest of the format. *)
Lemma prints_seq (m1 m2 : ST display unit) d t1 fmt args fmt' args' :
  writes m1 d t1 -> (forall t, prints fmt' args' t -> prints fmt args (t1 ++ t)) ->
  (forall d', display_ok d' -> exists t, prints fmt' args' t /\ writes m2 d' t) ->
  exists t, prints fmt args t /\ writes (m1 ;;; m2) d t.
Proof.
  intros Hw Hp H2. destruct (writes_seq m1 m2 d t1 _ Hw H2) as (t & Ht & Hw'). eauto.
Qed.

Lemma consputc_writes c d : display_ok d -> 0 <= c < 256 -> writes (consputc c) d [c].
Proof.
  intros Hd Hc. eapply runs_mono; [by apply consputc_ok |]. intros _ d' [Hd' ->]. split; [done |].
  unfold serial_of, BACKSPACE. rewrite (proj2 (Z.eqb_neq _ _)) by lia. by rewrite uchar_small.
Qed.

Lemma cprintf_writes fmt args d :
  display_ok d -> bytes_ok fmt -> args_fit fmt args -> exists t, prints fmt args t /\ writes (cprintf fmt args) d t.
Proof.
  revert args d. induction fmt as [fmt IH] using (induction_ltof1 _ length). unfold ltof in IH.
  intros args d Hd Hb Ha. destruct fmt as [|c fmt1].
  { exists []. split; [constructor |]. apply runs_ret. by rewrite app_nil_r. }
  apply Forall_cons in Hb as [Hc Hb]. cbn [cprintf args_fit] in *. destruct (Z.eqb_spec c 37) as [->|Hne]; simpl negb in *; cbv iota in *.
  2: { eapply (prints_seq _ _ _ [c]); [by apply consputc_writes | intros; by constructor |].
       intros d' Hd'. apply IH; [simpl; lia | done ..]. }
  destruct fmt1 as [|c fmt2]; [exists []; split; [constructor | apply runs_ret; by rewrite app_nil_r] |].
  apply Forall_cons in Hb as [Hc' Hb].
  assert (Hrest : forall args' d', args_fit fmt2 args' -> display_ok d' -> exists t, prints fmt2 args' t /\ writes (cprintf fmt2 args') d' t)
    by (intros; apply IH; [simpl; lia | done ..]). clear IH.
  destruct (Z.eqb_spec c 100) as [->|H100]; cbn [orb] in *.
  { destruct args as [|[w|] args]; [done | | done]. destruct Ha as [Hw Ha].
    destruct (printint_ok (i32 w) 10 1 d) as (t1 & Hs & Hp); [done | lia | apply i32_range | naive_solver |].
    eapply (prints_seq _ _ _ t1); [done | intros; by constructor | auto]. }
  destruct ((c =? 120) || (c =? 112)) eqn:Hx; cbn [orb] in *.
  { destruct args as [|[w|] args]; [done | | done]. destruct Ha as [_ Ha].
    destruct (printint_ok (i32 w) 16 0 d) as (t1 & Hs & Hp); [done | lia | apply i32_range | done |].
    eapply (prints_seq _ _ _ t1); [done | | auto]. intros. constructor; try done.
    apply orb_true_iff in Hx as [Hx|Hx]; apply Z.eqb_eq in Hx; auto. }
  apply orb_false_iff in Hx as [Hx1 Hx2]. apply Z.eqb_neq in Hx1, Hx2.
  destruct (Z.eqb_spec c 115) as [->|H115].
  { destruct args as [|[|s] args]; [done | done |]. destruct Ha as [Hs Ha].
    destruct s as [s|]; (eapply prints_seq; [apply puts_text; [done |] | intros; by constructor | auto]); simpl; [done |].
    repeat constructor; lia. }
  destruct (Z.eqb_spec c 37) as [->|H37].
  { eapply (prints_seq _ _ _ [37]); [by apply consputc_writes | intros; by constructor | auto]. }
  destruct (writes_seq (consputc 37) (consputc c ;;; cprintf fmt2 args) d [37] (fun t => exists t', t = c :: t' /\ prints fmt2 args t'))
    as (t & (t' & -> & Ht) & Hw); [by apply consputc_writes | | exists (37 :: c :: t'); split; [constructor; [set_solver | done] | done]].
  intros d' Hd'. destruct (writes_seq (consputc c) (cprintf fmt2 args) d' [c] (prints fmt2 args)) as (t' & Ht & Hw); eauto.
  by apply consputc_writes.
Qed.


