(* ===== verification/Console.v ===== *)
(** * Console input (console.c, second half) and the process listing

    Eleven consoles share one keyboard: [input] is the line buffer of the
    active one and [inputs] keeps the others. A buffer is a ring of 128 bytes
    with three counters modulo 2^32: bytes between [r] and [w] can be read,
    those between [w] and [e] can still be edited. The interrupt handler runs
    with the console's lock and is atomic; [consoleread] is cut into turns at
    its calls of [sleep]. The inode's lock, which [consoleread] and
    [consolewrite] give up while they wait for the console, belongs to the
    caller. The abstract console is the text that can be read and the text
    that is being edited, for each console. *)

From S2P Require Import Prelude Mem Params ProcDef Container Sleep Display.

Definition INPUT_BUF : Z := 128.
Definition NCONSOLES : nat := S MAX_NUM_CONTAINERS.

(** [C(x)] of the code. *)
Definition CTL_D : Z := 4.
Definition CTL_H : Z := 8.
Definition CTL_P : Z := 16.
Definition CTL_T : Z := 20.
Definition CTL_U : Z := 21.
Definition DEL : Z := 0x7f.
Definition CR : Z := 13.

Record input := mkInput {
  in_buf : list Z;
  in_r : Z;
  in_w : Z;
  in_e : Z
}.

Record console := mkConsole {
  cs_input : input;
  cs_active : Z;
  cs_inputs : list input;
  cs_display : display;
  cs_procs : list proc
}.

Definition with_input (i : input) (s : console) : console :=
  mkConsole i (cs_active s) (cs_inputs s) (cs_display s) (cs_procs s).
Definition with_display (d : display) (s : console) : console :=
  mkConsole (cs_input s) (cs_active s) (cs_inputs s) d (cs_procs s).
Definition with_cprocs (ps : list proc) (s : console) : console :=
  mkConsole (cs_input s) (cs_active s) (cs_inputs s) (cs_display s) ps.

Definition on_display {A} (m : ST display A) : ST console A := fun s =>
  let! (a, d) := m (cs_display s) in Ok (a, with_display d s).

(** ** The process listing (proc.c) *)

Definition state_name (st : procstate) : cstring :=
  match st with
  | UNUSED => [117; 110; 117; 115; 101; 100]
  | EMBRYO => [101; 109; 98; 114; 121; 111]
  | SLEEPING => [115; 108; 101; 101; 112; 32]
  | RUNNABLE => [114; 117; 110; 98; 108; 101]
  | RUNNING => [114; 117; 110; 32; 32; 32]
  | ZOMBIE => [122; 111; 109; 98; 105; 101]
  end.

(** The loop over [pc[10]], which ends at a zero. *)
Fixpoint print_pcs (pc : list Z) : ST display unit :=
  match pc with
  | [] => ret tt
  | w :: pc' => if w =? 0 then ret tt else cprintf [32; 37; 112] [Num w] ;;; print_pcs pc'
  end.

(** [pcs i] is what [getcallerpcs] finds on the stack of process [i]. *)
Fixpoint procdump (pcs : nat -> list Z) (i : nat) (ps : list proc) : ST display unit :=
  match ps with
  | [] => ret tt
  | p :: ps' =>
      (if bool_decide (p_state p = UNUSED) then ret tt
       else
         cprintf [37; 100; 32; 37; 115; 32; 37; 115; 32; 37; 100]
           [Num (p_pid p); Str (Some (state_name (p_state p))); Str (Some (p_name p)); Num (p_ticks p)] ;;;
         (if bool_decide (p_state p = SLEEPING) then print_pcs (take 10 (pcs i)) else ret tt) ;;;
         cprintf [10] []) ;;;
      procdump pcs (S i) ps'
  end.

(** ** The interrupt handler *)

(** Going to another console builds a name in [char fs[32]] that is not used:
    it appends [vcfs], which is not initialised and holds what the stack
    happens to hold. *)
Definition switch_name (vcfs : list Z) : res unit :=
  match find_from (fun c => c =? 0) vcfs 0 with
  | Some len => if (1 + len <? 32)%nat then Ok tt else Undef
  | None => Undef
  end.

Definition consoleswitch (vcfs : list Z) : ST console unit := fun s =>
  let! inputs := arr_set (cs_inputs s) (cs_active s) (cs_input s) in
  let active := Z.rem (cs_active s + 1) (Z.of_nat NCONSOLES) in
  let! input := arr_get inputs active in
  let! _ := if 0 <? active then switch_name vcfs else Ok tt in
  Ok (tt, mkConsole input active inputs (cs_display s) (cs_procs s)).

Definition erase : ST console unit :=
  modify (fun s => let i := cs_input s in
    with_input (mkInput (in_buf i) (in_r i) (in_w i) (u32 (in_e i - 1))) s) ;;;
  on_display (consputc BACKSPACE).

Fixpoint kill_line (fuel : nat) : ST console unit :=
  match fuel with
  | O => fun _ => Hang
  | S fuel' =>
      let* i := get cs_input in
      if in_e i =? in_w i then ret tt
      else
        let* b := lift (arr_get (in_buf i) (u32 (in_e i - 1) mod INPUT_BUF)) in
        if b =? NL then ret tt else erase ;;; kill_line fuel'
  end.

Definition typed (c : Z) : ST console unit :=
  let* i := get cs_input in
  if negb (c =? 0) && (u32 (in_e i - in_r i) <? INPUT_BUF) then
    let c := if c =? CR then NL else c in
    let* buf := lift (arr_set (in_buf i) (in_e i mod INPUT_BUF) (uchar c)) in
    let i := mkInput buf (in_r i) (in_w i) (u32 (in_e i + 1)) in
    modify (with_input i) ;;;
    on_display (consputc c) ;;;
    if (c =? NL) || (c =? CTL_D) || (in_e i =? u32 (in_r i + INPUT_BUF)) then
      modify (with_input (mkInput (in_buf i) (in_r i) (in_e i) (in_e i))) ;;;
      modify (fun s => with_cprocs (wakeup ChInput (cs_procs s)) s)
    else ret tt
  else ret tt.

Definition intr_key (vcfs : list Z) (c : Z) : ST console unit :=
  if c =? CTL_P then ret tt
  else if c =? CTL_T then consoleswitch vcfs
  else if c =? CTL_U then kill_line (S (Z.to_nat INPUT_BUF))
  else if (c =? CTL_H) || (c =? DEL) then
    let* i := get cs_input in
    if in_e i =? in_w i then ret tt else erase
  else typed c.

(** The keys are what [getc] returns until it returns a negative number. *)
Fixpoint intr_keys (vcfs : list Z) (keys : list Z) (dump switch : bool) : ST console (bool * bool) :=
  match keys with
  | [] => ret (dump, switch)
  | c :: keys' => intr_key vcfs c ;;; intr_keys vcfs keys' (dump || (c =? CTL_P)) (switch || (c =? CTL_T))
  end.

(** "\nActive console now: %d\n" *)
Definition switch_msg : cstring :=
  [10; 65; 99; 116; 105; 118; 101; 32; 99; 111; 110; 115; 111; 108; 101; 32; 110; 111; 119; 58; 32; 37; 100; 10].

Definition consoleintr (vcfs : list Z) (pcs : nat -> list Z) (keys : list Z) : ST console unit :=
  let* (dump, switch) := intr_keys vcfs keys false false in
  let* ps := get cs_procs in
  let* active := get cs_active in
  (if dump then on_display (procdump pcs 0 ps) else ret tt) ;;;
  (if switch then on_display (cprintf switch_msg [Num active]) else ret tt).

(** ** Reading and writing *)

Inductive read_end := Return (r : Z) | Sleeps (rest : nat).

(** From the head of the loop to the return or the next [sleep]; [n] bytes are
    still wanted. The bytes are those the turn stores at [dst]. *)
Fixpoint consoleread_turn (mine killed : bool) (target : Z) (n : nat) (i : input) : res (read_end * list Z * input) :=
  match n with
  | O => Ok (Return target, [], i)
  | S n' =>
      if (in_r i =? in_w i) || negb mine then
        Ok (if killed then Return (-1) else Sleeps n, [], i)
      else
        let! c := arr_get (in_buf i) (in_r i mod INPUT_BUF) in
        let i' := mkInput (in_buf i) (u32 (in_r i + 1)) (in_w i) (in_e i) in
        if c =? CTL_D then
          let i' := if Z.of_nat n <? target
                    then mkInput (in_buf i) (u32 (in_r i' - 1)) (in_w i) (in_e i) else i' in
          Ok (Return (target - Z.of_nat n), [], i')
        else if c =? NL then Ok (Return (target - Z.of_nat n'), [c], i')
        else
          let! (e, bs, i'') := consoleread_turn mine killed target n' i' in
          Ok (e, c :: bs, i'')
  end.

(** A turn of process [cur] on the console with number [minor]. *)
Definition consoleread_run (cur : nat) (minor target : Z) (n : nat) : ST console (read_end * list Z) := fun s =>
  match cs_procs s !! cur with
  | None => Undef
  | Some p =>
      let! (e, bs, i) := consoleread_turn (cs_active s =? minor - 1) (negb (p_killed p =? 0)) target n (cs_input s) in
      let s := with_input i s in
      Ok ((e, bs), match e with
                   | Sleeps _ => with_cprocs (sleep cur ChInput (cs_procs s)) s
                   | Return _ => s
                   end)
  end.

Definition consoleread (cur : nat) (minor n : Z) : ST console (read_end * list Z) :=
  if n <=? 0 then ret (Return 0, []) else consoleread_run cur minor n (Z.to_nat n).

(** The next turn of a call that slept. *)
Definition consoleread_again (cur : nat) (minor target : Z) (n : nat) : ST console (read_end * list Z) :=
  modify (fun s => with_cprocs (sleep_done cur (cs_procs s)) s) ;;;
  consoleread_run cur minor target n.

Definition consolewrite (minor : Z) (buf : list Z) : ST console Z :=
  let* active := get cs_active in
  (if active =? minor - 1 then on_display (puts ((fun c => Z.land c 0xff) <$> buf)) else ret tt) ;;;
  ret (Z.of_nat (length buf)).

(** ** The abstract console *)

Record line := mkLine { l_done : list Z; l_edit : list Z }.

#[export] Instance line_inhabited : Inhabited line := populate (mkLine [] []).

Record conspec := mkSpec {
  sp_active : nat;
  sp_lines : list line;
  sp_serial : list Z;
  sp_procs : list proc
}.

Definition cur_line (a : conspec) : line := sp_lines a !!! sp_active a.
Definition put_line (l : line) (a : conspec) : conspec :=
  mkSpec (sp_active a) (<[sp_active a := l]> (sp_lines a)) (sp_serial a) (sp_procs a).
Definition echo (t : list Z) (a : conspec) : conspec :=
  mkSpec (sp_active a) (sp_lines a) (sp_serial a ++ t) (sp_procs a).
Definition put_procs (ps : list proc) (a : conspec) : conspec :=
  mkSpec (sp_active a) (sp_lines a) (sp_serial a) ps.

(** A character erased on the serial line. *)
Definition erased : list Z := [8; 32; 8].

Definition spec_key (a : conspec) (c : Z) : conspec :=
  let '(mkLine ready edit) := cur_line a in
  if c =? CTL_P then a
  else if c =? CTL_T then
    mkSpec (S (sp_active a) mod NCONSOLES)%nat (sp_lines a) (sp_serial a) (sp_procs a)
  else if c =? CTL_U then echo (concat (replicate (length edit) erased)) (put_line (mkLine ready []) a)
  else if (c =? CTL_H) || (c =? DEL) then
    if bool_decide (edit = []) then a else echo erased (put_line (mkLine ready (removelast edit)) a)
  else if negb (c =? 0) && (length ready + length edit <? 128)%nat then
    let c := if c =? CR then NL else c in
    let edit := edit ++ [c] in
    if (c =? NL) || (c =? CTL_D) || (length ready + length edit =? 128)%nat
    then put_procs (wakeup ChInput (sp_procs a)) (echo [c] (put_line (mkLine (ready ++ edit) []) a))
    else echo [c] (put_line (mkLine ready edit) a)
  else a.

(** A turn of a reader of the active console: it takes bytes up to a newline or
    an end of file, which it leaves there if it has taken bytes before. *)
Fixpoint spec_read (killed : bool) (target : Z) (n : nat) (ready : list Z) : read_end * list Z * list Z :=
  match n, ready with
  | O, _ => (Return target, [], ready)
  | S _, [] => (if killed then Return (-1) else Sleeps n, [], ready)
  | S n', c :: ready' =>
      if c =? CTL_D then (Return (target - Z.of_nat n), [], if Z.of_nat n <? target then ready else ready')
      else if c =? NL then (Return (target - Z.of_nat n'), [c], ready')
      else let '(e, bs, rest) := spec_read killed target n' ready' in (e, c :: bs, rest)
  end.

Definition spec_turn (cur : nat) (minor target : Z) (n : nat) (a : conspec) : read_end * list Z * conspec :=
  let killed := from_option (fun p => negb (p_killed p =? 0)) false (sp_procs a !! cur) in
  let '(mkLine ready edit) := cur_line a in
  let '(e, bs, ready) :=
    if Z.of_nat (sp_active a) =? minor - 1 then spec_read killed target n ready
    else match n with
         | O => (Return target, [], ready)
         | S _ => (if killed then Return (-1) else Sleeps n, [], ready)
         end in
  let a := put_line (mkLine ready edit) a in
  (e, bs, match e with
          | Sleeps _ => put_procs (sleep cur ChInput (sp_procs a)) a
          | Return _ => a
          end).

(** The text of the process listing. *)
Inductive lists_pcs : list Z -> list Z -> Prop :=
| lp_nil : lists_pcs [] []
| lp_zero pc : lists_pcs (0 :: pc) []
| lp_cons w pc t1 t2 : w <> 0 -> prints [32; 37; 112] [Num w] t1 -> lists_pcs pc t2 -> lists_pcs (w :: pc) (t1 ++ t2).

Inductive lists (pcs : nat -> list Z) : nat -> list proc -> list Z -> Prop :=
| ls_nil i : lists pcs i [] []
| ls_unused i p ps t : p_state p = UNUSED -> lists pcs (S i) ps t -> lists pcs i (p :: ps) t
| ls_used i p ps t1 t2 t : p_state p <> UNUSED ->
    prints [37; 100; 32; 37; 115; 32; 37; 115; 32; 37; 100]
      [Num (p_pid p); Str (Some (state_name (p_state p))); Str (Some (p_name p)); Num (p_ticks p)] t1 ->
    (if bool_decide (p_state p = SLEEPING) then lists_pcs (take 10 (pcs i)) t2 else t2 = []) ->
    lists pcs (S i) ps t -> lists pcs i (p :: ps) (t1 ++ t2 ++ [NL] ++ t).

(** ** What happens at a console *)

Inductive event :=
| Intr (keys : list Z)
| Read (cur : nat) (minor n : Z)
| Again (cur : nat) (minor target : Z) (n : nat)
| Write (minor : Z) (buf : list Z).

Inductive obs := ONone | ORead (e : read_end) (bs : list Z) | OWrite (n : Z).

Definition code_step (vcfs : list Z) (pcs : nat -> list Z) (ev : event) : ST console obs :=
  match ev with
  | Intr keys => consoleintr vcfs pcs keys ;;; ret ONone
  | Read cur minor n => let* (e, bs) := consoleread cur minor n in ret (ORead e bs)
  | Again cur minor target n => let* (e, bs) := consoleread_again cur minor target n in ret (ORead e bs)
  | Write minor buf => let* n := consolewrite minor buf in ret (OWrite n)
  end.

Fixpoint code_run (vcfs : list Z) (pcs : nat -> list Z) (evs : list event) : ST console (list obs) :=
  match evs with
  | [] => ret []
  | ev :: evs' =>
      let* o := code_step vcfs pcs ev in
      let* os := code_run vcfs pcs evs' in
      ret (o :: os)
  end.

Inductive spec_step (pcs : nat -> list Z) : event -> conspec -> obs -> conspec -> Prop :=
| ss_intr keys a t1 t2 : let a' := foldl spec_key a keys in
    (if bool_decide (CTL_P ∈ keys) then lists pcs 0 (sp_procs a') t1 else t1 = []) ->
    (if bool_decide (CTL_T ∈ keys) then prints switch_msg [Num (Z.of_nat (sp_active a'))] t2 else t2 = []) ->
    spec_step pcs (Intr keys) a ONone (echo (t1 ++ t2) a')
| ss_read_none cur minor n a : n <= 0 -> spec_step pcs (Read cur minor n) a (ORead (Return 0) []) a
| ss_read cur minor n a e bs a' : 0 < n -> spec_turn cur minor n (Z.to_nat n) a = (e, bs, a') ->
    spec_step pcs (Read cur minor n) a (ORead e bs) a'
| ss_again cur minor target n a e bs a' :
    spec_turn cur minor target n (put_procs (sleep_done cur (sp_procs a)) a) = (e, bs, a') ->
    spec_step pcs (Again cur minor target n) a (ORead e bs) a'
| ss_write minor buf a :
    spec_step pcs (Write minor buf) a (OWrite (Z.of_nat (length buf)))
      (if Z.of_nat (sp_active a) =? minor - 1 then echo ((fun c => Z.land c 0xff) <$> buf) a else a).

Inductive spec_run (pcs : nat -> list Z) : list event -> conspec -> list obs -> conspec -> Prop :=
| sr_nil a : spec_run pcs [] a [] a
| sr_cons ev evs a o a1 os a2 :
    spec_step pcs ev a o a1 -> spec_run pcs evs a1 os a2 -> spec_run pcs (ev :: evs) a (o :: os) a2.

(** ** The representation *)

(** [q] is in the ring from the counter [r] on. *)
Record ring_rep (buf : list Z) (r : Z) (q : list Z) : Prop := {
  rr_buf : length buf = 128%nat;
  rr_r : 0 <= r < 4294967296;
  rr_size : (length q <= 128)%nat;
  rr_bytes : forall k b, q !! k = Some b -> buf !! Z.to_nat ((r + Z.of_nat k) mod INPUT_BUF) = Some b
}.

Record input_rep (i : input) (l : line) : Prop := {
  ir_ring : ring_rep (in_buf i) (in_r i) (l_done l ++ l_edit l);
  ir_w : in_w i = u32 (in_r i + Z.of_nat (length (l_done l)));
  ir_e : in_e i = u32 (in_r i + Z.of_nat (length (l_done l ++ l_edit l)));
  ir_nl : NL ∉ l_edit l
}.

(** What [procdump] can print. *)
Definition printable (p : proc) : Prop :=
  i32 (p_pid p) <> -2147483648 /\ i32 (p_ticks p) <> -2147483648 /\ bytes_ok (p_name p).

Record rep (s : console) (a : conspec) : Prop := {
  rp_active : cs_active s = Z.of_nat (sp_active a);
  rp_lt : (sp_active a < NCONSOLES)%nat;
  rp_input : input_rep (cs_input s) (cur_line a);
  rp_inputs : length (cs_inputs s) = NCONSOLES;
  rp_lines : length (sp_lines a) = NCONSOLES;
  rp_others : forall j i l, j <> sp_active a ->
    cs_inputs s !! j = Some i -> sp_lines a !! j = Some l -> input_rep i l;
  rp_display : display_ok (cs_display s);
  rp_serial : d_serial (cs_display s) = sp_serial a;
  rp_procs : cs_procs s = sp_procs a;
  rp_nproc : length (cs_procs s) = NPROC;
  rp_printable : Forall printable (cs_procs s)
}.

Lemma ring_index x : u32 x mod INPUT_BUF = x mod INPUT_BUF.
Proof. apply u32_mod_ring; [done |]. by exists 33554432. Qed.

Lemma ring_index_ne x j k :
  (j < 128)%nat -> (k < 128)%nat -> j <> k ->
  Z.to_nat ((x + Z.of_nat j) mod INPUT_BUF) <> Z.to_nat ((x + Z.of_nat k) mod INPUT_BUF).
Proof.
  intros Hj Hk Hne He. unfold INPUT_BUF in He.
  pose proof (Z.mod_pos_bound (x + Z.of_nat j) 128 ltac:(lia)). pose proof (Z.mod_pos_bound (x + Z.of_nat k) 128 ltac:(lia)).
  pose proof (Z.div_mod (x + Z.of_nat j) 128 ltac:(lia)). pose proof (Z.div_mod (x + Z.of_nat k) 128 ltac:(lia)). lia.
Qed.

Lemma line_push buf r q c :
  ring_rep buf r q -> (length q < 128)%nat ->
  ring_rep (<[Z.to_nat (u32 (r + Z.of_nat (length q)) mod INPUT_BUF) := c]> buf) r (q ++ [c]).
Proof.
  intros [Hb Hr Hs Hby] Hl. split; [by rewrite length_insert | done | rewrite length_app; simpl; lia |].
  intros k b. rewrite ring_index. intros Hk. apply lookup_app_Some in Hk as [Hk|[Hk1 Hk2]].
  - apply lookup_lt_Some in Hk as Hlt. rewrite list_lookup_insert_ne; [by apply Hby |]. apply ring_index_ne; lia.
  - apply list_lookup_singleton_Some in Hk2 as [Hk2 <-]. replace k with (length q) by lia.
    apply list_lookup_insert_eq. rewrite Hb. pose proof (Z.mod_pos_bound (r + Z.of_nat (length q)) 128). unfold INPUT_BUF. lia.
Qed.

Lemma ring_prefix buf r q q' : ring_rep buf r (q ++ q') -> ring_rep buf r q.
Proof.
  intros [Hb Hr Hs Hby]. rewrite length_app in Hs. split; [done | done | lia |].
  intros k b Hk. apply Hby. by apply lookup_app_l_Some.
Qed.

Lemma ring_pop buf r c q : ring_rep buf r (c :: q) -> ring_rep buf (u32 (r + 1)) q.
Proof.
  intros [Hb Hr Hs Hby]. simpl in Hs. split; [done | apply u32_range | lia |]. intros k b Hk.
  rewrite <- ring_index, u32_add_l, ring_index. rewrite <- (Hby (S k) b Hk). do 3 f_equal. lia.
Qed.

Lemma line_head buf r c q : ring_rep buf r (c :: q) -> arr_get buf (r mod INPUT_BUF) = Ok c.
Proof.
  intros [_ _ _ Hby]. apply arr_get_Ok. split; [apply Z.mod_pos_bound; done |].
  rewrite <- (Hby 0%nat c eq_refl). do 3 f_equal. lia.
Qed.

Section input_rep_facts.
  Context (i : input) (ready edit : list Z) (Hi : input_rep i (mkLine ready edit)).

Lemma rep_size : (length ready + length edit <= 128)%nat.
Proof. destruct Hi as [[_ _ Hs _] _ _ _]. cbn [l_done l_edit] in Hs. by rewrite length_app in Hs. Qed.

Lemma rep_no_edit : (in_e i =? in_w i) = bool_decide (edit = []).
Proof.
  pose proof rep_size. rewrite (ir_w _ _ Hi), (ir_e _ _ Hi). cbn [l_done l_edit]. rewrite length_app, u32_add_eqb by lia.
  destruct edit; simpl; [apply Z.eqb_eq | apply Z.eqb_neq]; lia.
Qed.

Lemma rep_r_0 : in_r i = u32 (in_r i + 0).
Proof. rewrite Z.add_0_r, u32_small; [done |]. apply (rr_r _ _ _ (ir_ring _ _ Hi)). Qed.

Lemma rep_no_ready : (in_r i =? in_w i) = bool_decide (ready = []).
Proof.
  pose proof rep_size. rewrite (ir_w _ _ Hi), rep_r_0 at 1. cbn [l_done l_edit]. rewrite u32_add_eqb by lia.
  destruct ready; [done | apply Z.eqb_neq; simpl; lia].
Qed.

Lemma rep_room : (u32 (in_e i - in_r i) <? INPUT_BUF) = (length ready + length edit <? 128)%nat.
Proof.
  pose proof rep_size. pose proof (u32_diff (in_r i) 0 (Z.of_nat (length ready + length edit)) ltac:(lia)) as Hd.
  rewrite <- rep_r_0, <- length_app in Hd. rewrite (ir_e _ _ Hi). cbn [l_done l_edit]. rewrite Hd, length_app.
  unfold INPUT_BUF. destruct (Nat.ltb_spec (length ready + length edit) 128); bool_cases; lia.
Qed.

(** A character is typed; it ends a line or it does not. *)
Lemma rep_type c :
  (length ready + length edit < 128)%nat ->
  let i' := mkInput (<[Z.to_nat (in_e i mod INPUT_BUF) := c]> (in_buf i)) (in_r i) (in_w i) (u32 (in_e i + 1)) in
  (c <> NL -> input_rep i' (mkLine ready (edit ++ [c]))) /\
  input_rep (mkInput (in_buf i') (in_r i') (in_e i') (in_e i')) (mkLine (ready ++ edit ++ [c]) []) /\
  (in_e i' =? u32 (in_r i' + INPUT_BUF)) = (length ready + length (edit ++ [c]) =? 128)%nat.
Proof.
  intros Hl. pose proof Hi as [Hr Hw He Hnl]. cbn [l_done l_edit] in *. cbn [in_buf in_r in_w in_e].
  assert (He' : u32 (in_e i + 1) = u32 (in_r i + Z.of_nat (length (ready ++ edit ++ [c])))).
  { rewrite He, u32_add_l, !length_app. f_equal. simpl. lia. }
  assert (Hr' : ring_rep (<[Z.to_nat (in_e i mod INPUT_BUF) := c]> (in_buf i)) (in_r i) (ready ++ edit ++ [c])).
  { rewrite He, app_assoc. apply line_push; [done |]. by rewrite length_app. }
  split; [| split].
  - intros Hc. split; cbn [in_buf in_r in_w in_e l_done l_edit]; try done.
    rewrite not_elem_of_app, list_elem_of_singleton. naive_solver.
  - split; cbn [in_buf in_r in_w in_e l_done l_edit]; rewrite ?app_nil_r; try done. apply not_elem_of_nil.
  - rewrite He', u32_add_eqb by (rewrite ?length_app; simpl; unfold INPUT_BUF; lia). rewrite !length_app. unfold INPUT_BUF.
    destruct (Nat.eqb_spec (length ready + (length edit + length [c])) 128); bool_cases; simpl in *; lia.
Qed.

End input_rep_facts.

(** The last character of the edited part goes. *)
Lemma rep_erase i ready edit c :
  input_rep i (mkLine ready (edit ++ [c])) ->
  arr_get (in_buf i) (u32 (in_e i - 1) mod INPUT_BUF) = Ok c /\
  input_rep (mkInput (in_buf i) (in_r i) (in_w i) (u32 (in_e i - 1))) (mkLine ready edit).
Proof.
  intros [Hr Hw He Hnl]. cbn [l_done l_edit] in *.
  assert (He' : u32 (in_e i - 1) = u32 (in_r i + Z.of_nat (length (ready ++ edit)))).
  { rewrite He. rewrite <- Z.add_opp_r, u32_add_l, !length_app. f_equal. simpl. lia. }
  rewrite He'. split.
  - apply arr_get_Ok. rewrite ring_index. split; [apply Z.mod_pos_bound; done |]. apply (rr_bytes _ _ _ Hr).
    rewrite app_assoc, lookup_app_r, Nat.sub_diag; done.
  - split; cbn [in_buf in_r in_w in_e l_done l_edit]; try done.
    + rewrite app_assoc in Hr. by apply ring_prefix in Hr.
    + rewrite not_elem_of_app in Hnl. naive_solver.
Qed.

Lemma rep_take i c ready edit :
  input_rep i (mkLine (c :: ready) edit) ->
  arr_get (in_buf i) (in_r i mod INPUT_BUF) = Ok c /\
  input_rep (mkInput (in_buf i) (u32 (in_r i + 1)) (in_w i) (in_e i)) (mkLine ready edit) /\
  u32 (u32 (in_r i + 1) - 1) = in_r i.
Proof.
  intros [Hr Hw He Hnl]. cbn [l_done l_edit] in *. split; [by eapply line_head |]. split.
  - split; cbn [in_buf in_r in_w in_e l_done l_edit]; rewrite ?u32_add_l; try done.
    + by apply ring_pop in Hr.
    + rewrite Hw. f_equal. simpl. lia.
    + rewrite He. f_equal. simpl. lia.
  - rewrite <- Z.add_opp_r, u32_add_l. replace (in_r i + 1 + - (1)) with (in_r i) by lia. apply u32_small, (rr_r _ _ _ Hr).
Qed.

(** ** Each step of the code is one of the specification *)

Lemma rep_put s a i l : rep s a -> input_rep i l -> rep (with_input i s) (put_line l a).
Proof.
  intros [] Hi. split; cbn [with_input put_line cs_input cs_active cs_inputs cs_display cs_procs sp_active sp_lines sp_serial sp_procs]; try done.
  - unfold cur_line, put_line. cbn [sp_active sp_lines]. rewrite list_lookup_total_insert_eq; [done | lia].
  - by rewrite length_insert.
  - intros j i' l' Hj. rewrite list_lookup_insert_ne by done. eauto.
Qed.

Lemma rep_echo s a d t : rep s a -> display_ok d -> d_serial d = sp_serial a ++ t -> rep (with_display d s) (echo t a).
Proof. intros [] Hd Hs. by split. Qed.

Lemma rep_set_procs s a ps :
  rep s a -> length ps = NPROC -> Forall printable ps -> rep (with_cprocs ps s) (put_procs ps a).
Proof. intros [] Hl Hp. by split. Qed.

Lemma on_display_ok {A} (m : ST display A) s a t :
  rep s a -> runs m (cs_display s) (fun _ d => display_ok d /\ d_serial d = d_serial (cs_display s) ++ t) ->
  runs (on_display m) s (fun _ s' => rep s' (echo t a)).
Proof.
  intros Hr (x & d & Hm & Hd & Hs). exists x, (with_display d s). unfold on_display. rewrite Hm. split; [done |].
  apply rep_echo; [done | done |]. by rewrite Hs, (rp_serial _ _ Hr).
Qed.

Lemma echo_nil a : echo [] a = a.
Proof. destruct a. unfold echo. cbn. by rewrite app_nil_r. Qed.

Lemma echo_echo t1 t2 a : echo t2 (echo t1 a) = echo (t1 ++ t2) a.
Proof. unfold echo. cbn. by rewrite app_assoc. Qed.

Lemma edit_twice t1 t2 l1 l2 a : echo t2 (put_line l2 (echo t1 (put_line l1 a))) = echo (t1 ++ t2) (put_line l2 a).
Proof. unfold echo, put_line. cbn. by rewrite list_insert_insert_eq, app_assoc. Qed.

Lemma put_cur a : put_line (cur_line a) a = a.
Proof.
  destruct a as [k ls sr ps]. unfold put_line, cur_line. cbn. f_equal. destruct (decide (k < length ls)%nat).
  - apply list_insert_id, list_lookup_lookup_total_lt. done.
  - apply list_insert_ge. lia.
Qed.

Lemma cur_put s a l : rep s a -> cur_line (put_line l a) = l.
Proof. intros []. unfold cur_line, put_line. cbn. apply list_lookup_total_insert_eq. lia. Qed.

(** One character is erased. *)
Lemma erase_ok s a ready edit c :
  rep s a -> cur_line a = mkLine ready (edit ++ [c]) ->
  runs erase s (fun _ s' => rep s' (echo erased (put_line (mkLine ready edit) a))).
Proof.
  intros Hr Hc. pose proof (rp_input _ _ Hr) as Hi. rewrite Hc in Hi. apply rep_erase in Hi as [_ Hi].
  unfold erase. apply runs_bind, runs_modify. cbv zeta. eapply (rep_put s a) in Hr; [| exact Hi].
  apply on_display_ok; [done |]. apply consputc_ok, Hr.
Qed.

Lemma kill_line_ok ready : forall edit fuel s a,
  rep s a -> cur_line a = mkLine ready edit -> (length edit < fuel)%nat ->
  runs (kill_line fuel) s (fun _ s' =>
    rep s' (echo (concat (replicate (length edit) erased)) (put_line (mkLine ready []) a))).
Proof.
  intros edit. induction edit as [|c edit IH] using rev_ind; intros fuel s a Hr Hc Hf; (destruct fuel as [|fuel]; [lia |]);
    cbn [kill_line]; apply runs_bind, runs_get; pose proof (rp_input _ _ Hr) as Hi; rewrite Hc in Hi;
    rewrite (rep_no_edit _ _ _ Hi).
  - rewrite bool_decide_true by done. apply runs_ret. simpl. rewrite echo_nil, <- Hc, put_cur. done.
  - rewrite bool_decide_false by (by destruct edit). apply rep_erase in Hi as Hi'. destruct Hi' as [Hg _].
    apply runs_bind. eapply runs_lift; [exact Hg |]. apply ir_nl in Hi. cbn [l_edit] in Hi.
    rewrite not_elem_of_app, list_elem_of_singleton in Hi. rewrite (proj2 (Z.eqb_neq c NL)) by naive_solver.
    rewrite length_app in Hf |- *. simpl in Hf. apply runs_bind. eapply runs_mono; [by apply (erase_ok s a ready edit c) |].
    intros u s1 Hr1. eapply runs_mono; [apply (IH fuel s1 _ Hr1); [| lia] |].
    + by apply (cur_put s).
    + intros u' s2. rewrite edit_twice. by rewrite Nat.add_1_r.
Qed.

Lemma printable_wakeup c ps : Forall printable ps -> Forall printable (wakeup c ps).
Proof.
  intros H. apply Forall_fmap. eapply Forall_impl; [exact H |]. intros p Hp. simpl. by destruct (sleeps_on c p).
Qed.

Lemma printable_upd ps i f :
  (forall p, printable p -> printable (f p)) -> Forall printable ps -> Forall printable (upd_proc ps i f).
Proof.
  intros Hf H. apply Forall_lookup. intros j p. rewrite upd_proc_lookup. rewrite Forall_lookup in H.
  case_decide; [| by apply H]. destruct (ps !! j) as [q|] eqn:Hq; intros [= <-]. eauto.
Qed.

Lemma typed_ok s a c :
  rep s a -> 0 <= c < 256 -> c ∉ [CTL_P; CTL_T; CTL_U; CTL_H; DEL] ->
  runs (typed c) s (fun _ s' => rep s' (spec_key a c)).
Proof.
  intros Hr Hb Hc. unfold typed, spec_key. destruct (cur_line a) as [ready edit] eqn:Hl.
  rewrite !not_elem_of_cons in Hc. destruct Hc as (H1 & H2 & H3 & H4 & H5 & _).
  rewrite (proj2 (Z.eqb_neq _ _) H1), (proj2 (Z.eqb_neq _ _) H2), (proj2 (Z.eqb_neq _ _) H3), (proj2 (Z.eqb_neq _ _) H4),
    (proj2 (Z.eqb_neq _ _) H5). simpl orb. cbv iota.
  apply runs_bind, runs_get. pose proof (rp_input _ _ Hr) as Hi. rewrite Hl in Hi. rewrite (rep_room _ _ _ Hi).
  destruct (negb (c =? 0) && _) eqn:Hroom; [| by apply runs_ret].
  apply andb_true_iff in Hroom as [_ Hroom]. apply Nat.ltb_lt in Hroom. cbv zeta.
  set (c' := if c =? CR then NL else c). assert (0 <= c' < 256) by (unfold c', NL; destruct (c =? CR); lia).
  apply runs_bind. eapply runs_lift.
  { rewrite uchar_small by done. apply arr_set_in. rewrite (rr_buf _ _ _ (ir_ring _ _ Hi)). apply Z.mod_pos_bound. done. }
  destruct (rep_type _ _ _ Hi c' Hroom) as (Hi1 & Hi2 & Hfull). cbn [in_buf in_r in_w in_e] in *. rewrite Hfull.
  apply runs_bind, runs_modify, runs_bind.
  destruct (consputc_ok c' (cs_display s) (rp_display _ _ Hr)) as (u & d & Hm & Hd & Hs).
  exists u, (with_display d (with_input (mkInput (<[Z.to_nat (in_e (cs_input s) mod INPUT_BUF) := c']> (in_buf (cs_input s)))
    (in_r (cs_input s)) (in_w (cs_input s)) (u32 (in_e (cs_input s) + 1))) s)).
  split; [unfold on_display; cbn [with_input cs_display]; by rewrite Hm |].
  assert (Hs' : d_serial d = sp_serial a ++ [c']).
  { rewrite Hs, (rp_serial _ _ Hr). f_equal. unfold serial_of, BACKSPACE. rewrite (proj2 (Z.eqb_neq _ _)) by lia. by rewrite uchar_small. }
  destruct ((c' =? NL) || (c' =? CTL_D) || _) eqn:Hend.
  - apply runs_bind, runs_modify, runs_modify. rewrite <- (rp_procs _ _ Hr). apply (rep_set_procs (with_display d (with_input _ s))).
    + by apply (rep_echo (with_input _ s) (put_line _ a)), Hs'; [apply rep_put |].
    + unfold wakeup, wakeup1. rewrite length_fmap. apply Hr.
    + apply printable_wakeup, Hr.
  - apply runs_ret. apply orb_false_iff in Hend as [[Hnl _]%orb_false_iff _]. apply Z.eqb_neq in Hnl.
    apply (rep_echo (with_input _ s) (put_line _ a)), Hs'; [apply rep_put; auto | done].
Qed.

Lemma switch_ok s a vcfs :
  rep s a -> switch_name vcfs = Ok tt -> runs (consoleswitch vcfs) s (fun _ s' => rep s' (spec_key a CTL_T)).
Proof.
  intros Hr Hv. unfold spec_key. destruct (cur_line a) as [ready edit] eqn:Hl. simpl.
  pose proof Hr as [Ha Hlt Hi Hn Hm Ho Hd Hs Hp Hnp Hpr].
  set (k := (S (sp_active a) mod NCONSOLES)%nat).
  assert (Hk : (k < NCONSOLES)%nat) by (apply Nat.mod_upper_bound; done).
  assert (Hak : Z.rem (cs_active s + 1) (Z.of_nat NCONSOLES) = Z.of_nat k).
  { unfold k. rewrite Nat2Z.inj_mod, Ha, Z.rem_mod_nonneg by (unfold NCONSOLES; lia). f_equal. lia. }
  set (inputs := <[sp_active a := cs_input s]> (cs_inputs s)).
  destruct (lookup_lt_is_Some_2 inputs k) as [i Hik]; [unfold inputs; rewrite length_insert; lia |].
  assert (Hall : forall j i l, inputs !! j = Some i -> sp_lines a !! j = Some l -> input_rep i l).
  { intros j i' l Hj Hjl. unfold inputs in Hj. destruct (decide (j = sp_active a)) as [->|Hne].
    - rewrite list_lookup_insert_eq in Hj by lia. injection Hj as <-. unfold cur_line in Hi. by rewrite (list_lookup_total_correct _ _ _ Hjl) in Hi.
    - rewrite list_lookup_insert_ne in Hj by done. by eapply Ho. }
  exists tt, (mkConsole i (Z.of_nat k) inputs (cs_display s) (cs_procs s)). split.
  - unfold consoleswitch. rewrite Ha, arr_set_in by lia. simpl rbind. rewrite <- Ha, Hak, Ha, Nat2Z.id. fold inputs.
    rewrite (proj2 (arr_get_Ok inputs (Z.of_nat k) i)) by (rewrite Nat2Z.id; split; [lia | done]). simpl rbind.
    destruct (0 <? Z.of_nat k); [by rewrite Hv | done].
  - split; cbn [cs_input cs_active cs_inputs cs_display cs_procs sp_active sp_lines sp_serial sp_procs]; try done.
    + unfold cur_line. cbn [sp_active sp_lines]. eapply Hall; [exact Hik |]. apply list_lookup_lookup_total_lt. rewrite Hm. exact Hk.
    + unfold inputs. by rewrite length_insert.
    + intros. by eapply Hall.
Qed.

Lemma intr_key_ok s a vcfs c :
  rep s a -> 0 <= c < 256 -> switch_name vcfs = Ok tt -> runs (intr_key vcfs c) s (fun _ s' => rep s' (spec_key a c)).
Proof.
  intros Hr Hc Hv. unfold intr_key. destruct (Z.eqb_spec c CTL_P) as [->|H1].
  { apply runs_ret. unfold spec_key. by destruct (cur_line a). }
  destruct (Z.eqb_spec c CTL_T) as [->|H2]; [by apply switch_ok |].
  destruct (Z.eqb_spec c CTL_U) as [->|H3].
  { unfold spec_key. destruct (cur_line a) as [ready edit] eqn:Hl. apply kill_line_ok; [done | done |].
    pose proof (rp_input _ _ Hr) as Hi. rewrite Hl in Hi. pose proof (rep_size _ _ _ Hi). unfold INPUT_BUF. lia. }
  destruct ((c =? CTL_H) || (c =? DEL)) eqn:H4.
  - apply runs_bind, runs_get. unfold spec_key. destruct (cur_line a) as [ready edit] eqn:Hl.
    rewrite (proj2 (Z.eqb_neq _ _) H1), (proj2 (Z.eqb_neq _ _) H2), (proj2 (Z.eqb_neq _ _) H3), H4.
    pose proof (rp_input _ _ Hr) as Hi. rewrite Hl in Hi. rewrite (rep_no_edit _ _ _ Hi).
    case_bool_decide as He; [by apply runs_ret |]. destruct (exists_last He) as (edit' & c' & ->).
    rewrite removelast_last. by eapply erase_ok.
  - apply typed_ok; [done | done |]. apply orb_false_iff in H4 as [H4 H5]. apply Z.eqb_neq in H4, H5.
    rewrite !not_elem_of_cons. repeat split; try done. apply not_elem_of_nil.
Qed.

Lemma seen_cons (k c : Z) keys : bool_decide (k ∈ c :: keys) = (c =? k) || bool_decide (k ∈ keys).
Proof.
  rewrite (bool_decide_ext _ _ (elem_of_cons _ _ _)), bool_decide_or. f_equal.
  destruct (Z.eqb_spec c k); case_bool_decide; congruence.
Qed.

Lemma intr_keys_ok vcfs keys : forall s a dump switch,
  rep s a -> Forall (fun c => 0 <= c < 256) keys -> switch_name vcfs = Ok tt ->
  runs (intr_keys vcfs keys dump switch) s (fun r s' => rep s' (foldl spec_key a keys) /\
    r = (dump || bool_decide (CTL_P ∈ keys), switch || bool_decide (CTL_T ∈ keys))).
Proof.
  induction keys as [|c keys IH]; intros s a dump switch Hr Hk Hv; cbn [intr_keys].
  - apply runs_ret. split; [done |]. rewrite !bool_decide_false by apply not_elem_of_nil. by rewrite !orb_false_r.
  - apply Forall_cons in Hk as [Hc Hk]. apply runs_bind. eapply runs_mono; [by apply intr_key_ok |]. intros u s1 Hr1.
    eapply runs_mono; [apply (IH s1 _ _ _ Hr1 Hk Hv) |]. intros r s2 [Hr2 ->]. split; [done |].
    by rewrite !seen_cons, !orb_assoc.
Qed.

(** ** The listing *)

Lemma writes_nil d : display_ok d -> writes (ret tt) d [].
Proof. intros Hd. apply runs_ret. split; [done |]. by rewrite app_nil_r. Qed.

Ltac bytes := repeat (apply Forall_cons; split; [lia |]); apply Forall_nil_2.

Lemma print_pcs_ok pc : forall d, display_ok d -> exists t, lists_pcs pc t /\ writes (print_pcs pc) d t.
Proof.
  induction pc as [|w pc IH]; intros d Hd; cbn [print_pcs].
  - exists []. split; [constructor | by apply writes_nil].
  - destruct (Z.eqb_spec w 0) as [->|Hw]; [exists []; split; [constructor | by apply writes_nil] |].
    destruct (cprintf_writes [32; 37; 112] [Num w] d) as (t1 & Hp & Hw1); [done | bytes | done |].
    destruct (writes_seq _ (print_pcs pc) d t1 (lists_pcs pc) Hw1 IH) as (t2 & Hl & Hw2).
    exists (t1 ++ t2). split; [by constructor | done].
Qed.

Lemma procdump_ok pcs ps : forall i d,
  Forall printable ps -> display_ok d -> exists t, lists pcs i ps t /\ writes (procdump pcs i ps) d t.
Proof.
  induction ps as [|p ps IH]; intros i d Hps Hd; cbn [procdump].
  { exists []. split; [constructor | by apply writes_nil]. }
  apply Forall_cons in Hps as [(Hp1 & Hp2 & Hp3) Hps]. case_bool_decide as Hs.
  - destruct (writes_seq (ret tt) (procdump pcs (S i) ps) d [] (lists pcs (S i) ps)) as (t & Hl & Hw); [by apply writes_nil | auto |].
    exists t. split; [by constructor | done].
  - destruct (cprintf_writes [37; 100; 32; 37; 115; 32; 37; 115; 32; 37; 100]
      [Num (p_pid p); Str (Some (state_name (p_state p))); Str (Some (p_name p)); Num (p_ticks p)] d) as (t1 & H1 & W1);
      [done | bytes | |].
    { simpl. split_and!; try done. by destruct (p_state p); bytes. }
    destruct (writes_seq _ ((if bool_decide (p_state p = SLEEPING) then print_pcs (take 10 (pcs i)) else ret tt) ;;; cprintf [10] []) d t1
      (fun t => exists t2, t = t2 ++ [NL] /\ if bool_decide (p_state p = SLEEPING) then lists_pcs (take 10 (pcs i)) t2 else t2 = []) W1)
      as (t2 & (t2' & -> & H2) & W2).
    { intros d1 Hd1.
      assert (exists t2, (if bool_decide (p_state p = SLEEPING) then lists_pcs (take 10 (pcs i)) t2 else t2 = []) /\
        writes (if bool_decide (p_state p = SLEEPING) then print_pcs (take 10 (pcs i)) else ret tt) d1 t2) as (t2 & H2 & W2).
      { case_bool_decide; [by apply print_pcs_ok |]. exists []. split; [done | by apply writes_nil]. }
      destruct (writes_seq _ (cprintf [10] []) d1 t2 (fun t => t = [NL]) W2) as (t3 & -> & W3); [| eauto].
      intros d2 Hd2. exists [NL]. split; [done |]. cbn [cprintf]. change (negb (10 =? 37)) with true. cbv iota.
      destruct (writes_seq (consputc 10) (ret tt) d2 [10] (fun t => t = [])) as (t3 & -> & W3); [by apply consputc_writes | | done].
      intros d3 Hd3. exists []. split; [done | by apply writes_nil]. }
    destruct (writes_seq _ (procdump pcs (S i) ps) d _ (lists pcs (S i) ps) W2) as (t & Hl & W); [auto |].
    exists (t1 ++ t2' ++ [NL] ++ t). split; [by constructor |]. by rewrite <- !app_assoc in W.
Qed.

Lemma writes_on_display (m : ST display unit) s a t : rep s a -> writes m (cs_display s) t -> runs (on_display m) s (fun _ s' => rep s' (echo t a)).
Proof. intros Hr Hw. by apply on_display_ok. Qed.

(** The message after a switch. *)
Lemma switch_msg_ok k d : (k < NCONSOLES)%nat -> display_ok d ->
  exists t, prints switch_msg [Num (Z.of_nat k)] t /\ writes (cprintf switch_msg [Num (Z.of_nat k)]) d t.
Proof.
  intros Hk Hd. apply cprintf_writes; [done | unfold switch_msg; bytes |]. split; [| done]. intros _.
  rewrite i32_small; unfold NCONSOLES, MAX_NUM_CONTAINERS in Hk; lia.
Qed.

Lemma consoleintr_ok vcfs pcs keys s a :
  rep s a -> Forall (fun c => 0 <= c < 256) keys -> switch_name vcfs = Ok tt ->
  exists a', spec_step pcs (Intr keys) a ONone a' /\ runs (consoleintr vcfs pcs keys) s (fun _ s' => rep s' a').
Proof.
  intros Hr Hk Hv. destruct (intr_keys_ok vcfs keys s a false false Hr Hk Hv) as (r & s1 & Hrun & Hr1 & ->). simpl orb in Hrun.
  set (a1 := foldl spec_key a keys) in *.
  set (dump := bool_decide (CTL_P ∈ keys)) in *. set (switch := bool_decide (CTL_T ∈ keys)) in *.
  assert (exists t1, (if dump then lists pcs 0 (sp_procs a1) t1 else t1 = []) /\
    runs (if dump then on_display (procdump pcs 0 (cs_procs s1)) else ret tt) s1
      (fun _ s' => rep s' (echo t1 a1))) as (t1 & H1 & R1).
  { destruct dump.
    - destruct (procdump_ok pcs (cs_procs s1) 0 (cs_display s1)) as (t & Ht & Hw); [apply Hr1 | apply Hr1 |].
      exists t. split; [by rewrite <- (rp_procs _ _ Hr1) | by apply writes_on_display].
    - exists []. split; [done |]. apply runs_ret. by rewrite echo_nil. }
  destruct R1 as (u & s2 & R1 & Hr2).
  assert (exists t2, (if switch then prints switch_msg [Num (Z.of_nat (sp_active a1))] t2 else t2 = []) /\
    runs (if switch then on_display (cprintf switch_msg [Num (cs_active s1)]) else ret tt) s2
      (fun _ s' => rep s' (echo t2 (echo t1 a1)))) as (t2 & H2 & R2).
  { destruct switch.
    - destruct (switch_msg_ok (sp_active a1) (cs_display s2)) as (t & Ht & Hw); [apply (rp_lt _ _ Hr1) | apply Hr2 |].
      exists t. split; [done |]. rewrite (rp_active _ _ Hr1). by apply writes_on_display.
    - exists []. split; [done |]. apply runs_ret. by rewrite echo_nil. }
  eexists. split; [by apply (ss_intr pcs keys a t1 t2) |]. rewrite <- echo_echo. unfold consoleintr.
  apply runs_bind. eexists _, s1. split; [exact Hrun |]. do 2 (apply runs_bind, runs_get).
  apply runs_bind. by exists u, s2.
Qed.

Lemma read_turn_ok killed target edit : forall n i ready e bs rest,
  input_rep i (mkLine ready edit) -> spec_read killed target n ready = (e, bs, rest) ->
  exists i', consoleread_turn true killed target n i = Ok (e, bs, i') /\ input_rep i' (mkLine rest edit).
Proof.
  induction n as [|n IH]; intros i ready e bs rest Hi Hs; cbn [spec_read consoleread_turn] in *.
  - destruct ready; injection Hs as <- <- <-; eauto.
  - rewrite (rep_no_ready _ _ _ Hi), orb_false_r. destruct ready as [|c ready].
    { injection Hs as <- <- <-. rewrite bool_decide_true by done. eauto. }
    rewrite bool_decide_false by done. destruct (rep_take _ _ _ _ Hi) as (-> & Hi' & Hback). simpl rbind.
    cbn [in_buf in_r in_w in_e]. rewrite Hback.
    destruct (c =? CTL_D).
    { injection Hs as <- <- <-. eexists. split; [done |]. destruct (Z.of_nat (S n) <? target); [| done]. by destruct i. }
    destruct (c =? NL); [injection Hs as <- <- <-; eauto |].
    destruct (spec_read killed target n ready) as [[e' bs'] rest'] eqn:Hs'. injection Hs as <- <- <-.
    destruct (IH _ _ _ _ _ Hi' Hs') as (i' & -> & Hi''). eauto.
Qed.

Lemma turn_ok cur minor target n s a e bs a' :
  rep s a -> (cur < NPROC)%nat -> spec_turn cur minor target n a = (e, bs, a') ->
  runs (consoleread_run cur minor target n) s (fun r s' => r = (e, bs) /\ rep s' a').
Proof.
  intros Hr Hc Hs. unfold spec_turn, consoleread_run in *. rewrite <- (rp_procs _ _ Hr), <- (rp_active _ _ Hr) in Hs.
  destruct (lookup_lt_is_Some_2 (cs_procs s) cur) as [p Hp]; [rewrite (rp_nproc _ _ Hr); lia |].
  rewrite Hp in Hs. cbn [from_option] in Hs. unfold runs. rewrite Hp. set (killed := negb (p_killed p =? 0)) in *.
  destruct (cur_line a) as [ready edit] eqn:Hl. pose proof (rp_input _ _ Hr) as Hi. rewrite Hl in Hi.
  assert (exists i' ready', consoleread_turn (cs_active s =? minor - 1) killed target n (cs_input s) = Ok (e, bs, i') /\
    input_rep i' (mkLine ready' edit) /\
    a' = match e with Sleeps _ => put_procs (sleep cur ChInput (cs_procs s)) (put_line (mkLine ready' edit) a) | Return _ => put_line (mkLine ready' edit) a end)
    as (i' & ready' & Ht & Hi' & ->).
  { destruct (cs_active s =? minor - 1).
    - destruct (spec_read killed target n ready) as [[e' bs'] ready'] eqn:Hs'. injection Hs as <- <- <-.
      destruct (read_turn_ok killed target edit n _ _ _ _ _ Hi Hs') as (i' & Ht & Hi'). exists i', ready'.
      split; [done |]. split; [done |]. cbn [put_line sp_procs]. by rewrite (rp_procs _ _ Hr).
    - exists (cs_input s), ready. destruct n as [|n]; cbn [consoleread_turn]; rewrite ?orb_true_r; injection Hs as <- <- <-;
        (split; [done |]; split; [done |]); [done |]. cbn [put_line sp_procs]. by rewrite (rp_procs _ _ Hr). }
  rewrite Ht. simpl rbind. eexists _, _. split; [done |]. split; [done |].
  apply (rep_put s a) in Hi'; [| done]. destruct e; [done |]. apply rep_set_procs; [done | |].
  - unfold sleep, upd_proc. rewrite length_alter. apply Hr.
  - apply printable_upd; [done | apply Hr].
Qed.

(** ** The whole console *)

Definition event_ok (ev : event) : Prop :=
  match ev with
  | Intr keys => Forall (fun c => 0 <= c < 256) keys
  | Read cur _ _ | Again cur _ _ _ => (cur < NPROC)%nat
  | Write _ _ => True
  end.

Lemma step_ok vcfs pcs ev s a :
  rep s a -> event_ok ev -> switch_name vcfs = Ok tt ->
  exists o a', spec_step pcs ev a o a' /\ runs (code_step vcfs pcs ev) s (fun o' s' => o' = o /\ rep s' a').
Proof.
  intros Hr Hev Hv. destruct ev as [keys|cur minor n|cur minor target n|minor buf]; cbn [code_step event_ok] in *.
  - destruct (consoleintr_ok vcfs pcs keys s a Hr Hev Hv) as (a' & Hs & Hrun). exists ONone, a'. split; [done |].
    apply runs_bind. eapply runs_mono; [exact Hrun |]. intros u s' Hr'. by apply runs_ret.
  - unfold consoleread. destruct (Z.leb_spec n 0) as [Hn|Hn].
    + eexists _, a. split; [by apply ss_read_none |]. apply runs_bind. exists (Return 0, []), s. split; [done |]. by apply runs_ret.
    + destruct (spec_turn cur minor n (Z.to_nat n) a) as [[e bs] a'] eqn:Hs. eexists _, a'.
      split; [by apply (ss_read pcs cur minor n a e bs a') |]. apply runs_bind. eapply runs_mono; [by apply (turn_ok cur minor n (Z.to_nat n) s a e bs a') |].
      intros r s' [-> Hr']. by apply runs_ret.
  - destruct (spec_turn cur minor target n (put_procs (sleep_done cur (sp_procs a)) a)) as [[e bs] a'] eqn:Hs. eexists _, a'.
    split; [by apply (ss_again pcs cur minor target n a e bs a') |]. apply runs_bind. unfold consoleread_again. apply runs_bind, runs_modify.
    eapply runs_mono; [eapply turn_ok; [| done | exact Hs] |].
    + rewrite <- (rp_procs _ _ Hr). apply rep_set_procs; [done | |].
      * unfold sleep_done, upd_proc. rewrite length_alter. apply Hr.
      * apply printable_upd; [done | apply Hr].
    + intros r s' [-> Hr']. by apply runs_ret.
  - eexists _, _. split; [apply ss_write |]. apply runs_bind. unfold consolewrite. apply runs_bind, runs_get. apply runs_bind.
    rewrite <- (rp_active _ _ Hr). destruct (cs_active s =? minor - 1).
    + eapply runs_mono; [apply writes_on_display; [exact Hr |]; apply puts_text; [apply Hr |] |].
      * apply Forall_fmap, Forall_forall. intros c _. simpl. change 255 with (Z.ones 8). rewrite Z.land_ones by lia. apply Z.mod_pos_bound. done.
      * intros u s' Hr'. apply runs_ret. by apply runs_ret.
    + apply runs_ret. apply runs_ret. by apply runs_ret.
Qed.

Lemma run_ok vcfs pcs evs : forall s a,
  rep s a -> Forall event_ok evs -> switch_name vcfs = Ok tt ->
  exists os a', spec_run pcs evs a os a' /\ runs (code_run vcfs pcs evs) s (fun os' s' => os' = os /\ rep s' a').
Proof.
  induction evs as [|ev evs IH]; intros s a Hr Hev Hv; cbn [code_run].
  - exists [], a. split; [constructor |]. by apply runs_ret.
  - apply Forall_cons in Hev as [Hev Hevs]. destruct (step_ok vcfs pcs ev s a Hr Hev Hv) as (o & a1 & Hs & o' & s1 & Hc & -> & Hr1).
    destruct (IH s1 a1 Hr1 Hevs Hv) as (os & a2 & Hss & os' & s2 & Hcs & -> & Hr2). exists (o :: os), a2.
    split; [by econstructor |]. apply runs_bind. eexists _, _. split; [exact Hc |]. apply runs_bind. eexists _, _. split; [exact Hcs |].
    by apply runs_ret.
Qed.

(** The console at boot: every buffer is zero. *)
Definition input_zero : input := mkInput (replicate 128 0) 0 0 0.
Definition console_boot (d : display) (ps : list proc) : console :=
  mkConsole input_zero 0 (replicate NCONSOLES input_zero) d ps.
Definition spec_boot (serial : list Z) (ps : list proc) : conspec :=
  mkSpec 0 (replicate NCONSOLES (mkLine [] [])) serial ps.

Lemma input_zero_rep : input_rep input_zero (mkLine [] []).
Proof. split; [split |..]; try done; [simpl; lia | apply not_elem_of_nil]. Qed.

Lemma boot_rep d ps :
  display_ok d -> length ps = NPROC -> Forall printable ps -> rep (console_boot d ps) (spec_boot (d_serial d) ps).
Proof.
  intros Hd Hl Hp. split; try done; [simpl; unfold NCONSOLES; lia | apply input_zero_rep |].
  intros j i l _ Hi Hj. apply lookup_replicate in Hi as [-> _]. apply lookup_replicate in Hj as [-> _]. apply input_zero_rep.
Qed.

(** C11: from boot on, every sequence of keyboard interrupts, reads (with the
    turns of a read that sleeps) and writes runs without leaving a buffer and
    does what the abstract console does: each console keeps the text that can
    be read and the text being edited, a line is handed over at a newline, an
    end of file or a full buffer, and wakes the readers, readers get the bytes
    in their order, and the echo, the messages and the listing go out in the
    order they were made; the counters of the rings may wrap around. It assumes
    that the uninitialised string of the console switch is short. *)
Theorem console_refines vcfs pcs evs d ps :
  display_ok d -> length ps = NPROC -> Forall printable ps -> Forall event_ok evs -> switch_name vcfs = Ok tt ->
  exists os a', spec_run pcs evs (spec_boot (d_serial d) ps) os a' /\
    runs (code_run vcfs pcs evs) (console_boot d ps) (fun os' s' => os' = os /\ rep s' a').
Proof. intros Hd Hl Hp Hev Hv. apply run_ok; [by apply boot_rep | done | done]. Qed.

Definition demo_proc (pid : Z) : proc :=
  mkProc 0 0 0 RUNNING pid None tf_zero ChNone 0 [] None [105; 110; 105; 116] 0 None [] [] 0 0 [] 0 0.
Definition demo_procs : list proc := demo_proc <$> seqZ 0 64.
Definition demo_display : display := mkDisplay [] 0 0 (replicate (25 * 80) 0) 0.

(** Typing "ab^Hc" and a newline with a reader before and after, a switch and a
    write. *)
Definition demo_events : list event :=
  [Read 3 1 10; Intr [97; 98; CTL_H; 99; CR]; Again 3 1 10 10; Intr [CTL_T; 120; CTL_P]; Write 1 [104; 105]].

Lemma demo_display_ok : display_ok demo_display.
Proof. split; cbn [demo_display d_hi d_lo d_crt d_panicked]; [lia | lia | unfold cursor; cbn; lia | apply length_replicate | done]. Qed.

Lemma demo_printable : Forall printable demo_procs.
Proof.
  apply Forall_fmap, Forall_forall. intros pid Hpid. apply elem_of_seqZ in Hpid. unfold printable.
  cbn [compose demo_proc p_pid p_ticks p_name]. rewrite !i32_small by lia. split_and!; [lia | lia | bytes].
Qed.

Lemma demo_rep : rep (console_boot demo_display demo_procs) (spec_boot [] demo_procs).
Proof. apply boot_rep; [apply demo_display_ok | done | apply demo_printable]. Qed.

Lemma console_refines_witness : exists os a',
  spec_run (fun _ => [1; 2; 0]) demo_events (spec_boot [] demo_procs) os a' /\
  runs (code_run [118; 0] (fun _ => [1; 2; 0]) demo_events) (console_boot demo_display demo_procs)
    (fun os' s' => os' = os /\ rep s' a').
Proof.
  apply (console_refines [118; 0] (fun _ => [1; 2; 0]) demo_events demo_display demo_procs).
  - exact demo_display_ok.
  - vm_compute. reflexivity.
  - exact demo_printable.
  - repeat constructor; cbn [event_ok]; unfold NPROC, CTL_H, CTL_T, CTL_P, CR; lia.
  - reflexivity.
Defined.

(** What that reader gets: it sleeps, and then has the line as it was edited. *)
Example demo_reads :
  (fun r => take 3 r.1) <$> (match code_run [118; 0] (fun _ => []) demo_events (console_boot demo_display demo_procs) with
                            | Ok r => Some r | _ => None end) =
  Some [ORead (Sleeps 10) []; ONone; ORead (Return 3) [97; 99; NL]].
Proof. vm_compute. reflexivity. Qed.

(** A line is typed at console 0, the keyboard goes to console 1, a process
    reads console 0 and sleeps, and the keyboard comes back: the line can be
    read and the process sleeps on, since a switch wakes nobody up. *)
Example switch_wakes_nobody :
  match code_run [118; 0] (fun _ => []) [Intr [97; CR]; Intr [CTL_T]; Read 3 1 10; Intr (replicate 10 CTL_T)]
          (console_boot demo_display demo_procs) with
  | Ok (_, s) => cs_active s = 0 /\ in_w (cs_input s) - in_r (cs_input s) = 2 /\
      (fun p => (p_state p, p_chan p)) <$> cs_procs s !! 3%nat = Some (SLEEPING, ChInput)
  | _ => False
  end.
Proof. vm_compute. done. Qed.
