(* ===== verification/Kbd.v ===== *)
(** * The keyboard (kbd.c, kbd.h)

    [kbdgetc] turns scan codes into characters: it keeps which modifiers are
    down and looks the code up in one of three tables. The controller is the
    list of the scan codes it has ready. *)

From S2P Require Import Prelude ProcDef Params Display Console.

Definition SHIFT : Z := 1.
Definition CTL : Z := 2.
Definition ALT : Z := 4.
Definition CAPSLOCK : Z := 8.
Definition NUMLOCK : Z := 16.
Definition SCROLLLOCK : Z := 32.
Definition E0ESC : Z := 64.
Definition KEY_HOME : Z := 0xE0.
Definition KEY_END : Z := 0xE1.
Definition KEY_UP : Z := 0xE2.
Definition KEY_DN : Z := 0xE3.
Definition KEY_LF : Z := 0xE4.
Definition KEY_RT : Z := 0xE5.
Definition KEY_PGUP : Z := 0xE6.
Definition KEY_PGDN : Z := 0xE7.
Definition KEY_INS : Z := 0xE8.
Definition KEY_DEL : Z := 0xE9.

(** A [static uchar t[256]] with an initialiser: first elements, and elements
    given by their index; the rest is zero. *)
Definition table (first : list Z) (others : list (Z * Z)) : list Z :=
  foldl (fun t e => <[Z.to_nat e.1 := uchar e.2]> t) (first ++ replicate (256 - length first) 0) others.

Definition shiftcode : list Z :=
  table [] [(0x1D, CTL); (0x2A, SHIFT); (0x36, SHIFT); (0x38, ALT); (0x9D, CTL); (0xB8, ALT)].
Definition togglecode : list Z := table [] [(0x3A, CAPSLOCK); (0x45, NUMLOCK); (0x46, SCROLLLOCK)].

Definition normalmap : list Z :=
  table
    [0; 27; 49; 50; 51; 52; 53; 54; 55; 56; 57; 48; 45; 61; 8; 9; 113; 119; 101; 114; 116; 121; 117;
     105; 111; 112; 91; 93; 10; 0; 97; 115; 100; 102; 103; 104; 106; 107; 108; 59; 39; 96; 0; 92;
     122; 120; 99; 118; 98; 110; 109; 44; 46; 47; 0; 42; 0; 32; 0; 0; 0; 0; 0; 0; 0; 0; 0; 0; 0; 0;
     0; 55; 56; 57; 45; 52; 53; 54; 43; 49; 50; 51; 48; 46; 0; 0; 0; 0]
    [(0x9C, 10); (0xB5, 47); (0xC8, KEY_UP); (0xD0, KEY_DN); (0xC9, KEY_PGUP); (0xD1, KEY_PGDN);
     (0xCB, KEY_LF); (0xCD, KEY_RT); (0x97, KEY_HOME); (0xCF, KEY_END); (0xD2, KEY_INS); (0xD3,
     KEY_DEL)].

Definition shiftmap : list Z :=
  table
    [0; 27; 33; 64; 35; 36; 37; 94; 38; 42; 40; 41; 95; 43; 8; 9; 81; 87; 69; 82; 84; 89; 85; 73;
     79; 80; 123; 125; 10; 0; 65; 83; 68; 70; 71; 72; 74; 75; 76; 58; 34; 126; 0; 124; 90; 88; 67;
     86; 66; 78; 77; 60; 62; 63; 0; 42; 0; 32; 0; 0; 0; 0; 0; 0; 0; 0; 0; 0; 0; 0; 0; 55; 56; 57;
     45; 52; 53; 54; 43; 49; 50; 51; 48; 46; 0; 0; 0; 0]
    [(0x9C, 10); (0xB5, 47); (0xC8, KEY_UP); (0xD0, KEY_DN); (0xC9, KEY_PGUP); (0xD1, KEY_PGDN);
     (0xCB, KEY_LF); (0xCD, KEY_RT); (0x97, KEY_HOME); (0xCF, KEY_END); (0xD2, KEY_INS); (0xD3,
     KEY_DEL)].

Definition ctlmap : list Z :=
  table
    [0; 0; 0; 0; 0; 0; 0; 0; 0; 0; 0; 0; 0; 0; 0; 0; 17; 23; 5; 18; 20; 25; 21; 9; 15; 16; 0; 0; 13;
     0; 1; 19; 4; 6; 7; 8; 10; 11; 12; 0; 0; 0; 0; 28; 26; 24; 3; 22; 2; 14; 13; 0; 0; 239; 0; 0]
    [(0x9C, 13); (0xB5, 239); (0xC8, KEY_UP); (0xD0, KEY_DN); (0xC9, KEY_PGUP); (0xD1, KEY_PGDN);
     (0xCB, KEY_LF); (0xCD, KEY_RT); (0x97, KEY_HOME); (0xCF, KEY_END); (0xD2, KEY_INS); (0xD3,
     KEY_DEL)].

Definition charcode : list (list Z) := [normalmap; shiftmap; ctlmap; ctlmap].

(** [x & ~y] of two [uint]s. *)
Definition andnot (x y : Z) : Z := Z.land x (u32 (Z.lnot y)).

(** The result, the static [shift] and the codes that are left. *)
Definition kbdgetc (shift : Z) (codes : list Z) : res (Z * Z * list Z) :=
  match codes with
  | [] => Ok (-1, shift, [])
  | data :: codes' =>
      if data =? 0xE0 then Ok (0, Z.lor shift E0ESC, codes')
      else if negb (Z.land data 0x80 =? 0) then
        let data := if negb (Z.land shift E0ESC =? 0) then data else Z.land data 0x7F in
        let! m := arr_get shiftcode data in
        Ok (0, andnot shift (Z.lor m E0ESC), codes')
      else
        let '(data, shift) :=
          if negb (Z.land shift E0ESC =? 0) then (Z.lor data 0x80, andnot shift E0ESC) else (data, shift) in
        let! m := arr_get shiftcode data in
        let shift := Z.lor shift m in
        let! g := arr_get togglecode data in
        let shift := Z.lxor shift g in
        let! map := arr_get charcode (Z.land shift (Z.lor CTL SHIFT)) in
        let! c := arr_get map data in
        let c :=
          if negb (Z.land shift CAPSLOCK =? 0) then
            if (97 <=? c) && (c <=? 122) then u32 (c + (65 - 97))
            else if (65 <=? c) && (c <=? 90) then u32 (c + (97 - 65))
            else c
          else c in
        Ok (c, shift, codes')
  end.

(** The calls of [getc] that one interrupt makes. *)
Fixpoint kbd_keys (fuel : nat) (shift : Z) (codes : list Z) : res (list Z * Z) :=
  match fuel with
  | O => Hang
  | S fuel' =>
      let! (c, shift, codes) := kbdgetc shift codes in
      if i32 c <? 0 then Ok ([], shift)
      else let! (keys, shift) := kbd_keys fuel' shift codes in Ok (c :: keys, shift)
  end.

Definition kbdintr (vcfs : list Z) (pcs : nat -> list Z) (codes : list Z) (shift : Z) : ST console Z := fun s =>
  let! (keys, shift) := kbd_keys (S (length codes)) shift codes in
  let! (_, s) := consoleintr vcfs pcs keys s in
  Ok (shift, s).

(** ** Every scan code in every state of the modifiers *)

(** The result of one code is a byte and the modifiers stay in their seven
    bits. *)
Definition code_fine (shift data : Z) : bool :=
  match kbdgetc shift [data] with
  | Ok (c, shift', _) => (0 <=? c) && (c <? 256) && (0 <=? shift') && (shift' <? 128)
  | _ => false
  end.

Lemma codes_fine : forallb (fun shift => forallb (code_fine shift) (seqZ 0 256)) (seqZ 0 128) = true.
Proof. vm_compute. reflexivity. Qed.

Lemma kbdgetc_head shift data codes c shift' codes' :
  kbdgetc shift [data] = Ok (c, shift', codes') -> kbdgetc shift (data :: codes) = Ok (c, shift', codes).
Proof.
  unfold kbdgetc. destruct (data =? 0xE0); [intros [= <- <- _]; done |].
  destruct (negb (Z.land data 0x80 =? 0)).
  - destruct (arr_get shiftcode _); simpl; try done. by intros [= <- <- _].
  - destruct (if negb (Z.land shift E0ESC =? 0) then _ else _) as [d sh].
    destruct (arr_get shiftcode d) as [m| | |]; simpl; try done. destruct (arr_get togglecode d) as [g| | |]; simpl; try done.
    destruct (arr_get charcode _) as [t| | |]; simpl; try done. destruct (arr_get t d) as [x| | |]; simpl; try done.
    by intros [= <- <- _].
Qed.

Lemma kbdgetc_typed shift data codes :
  0 <= shift < 128 -> 0 <= data < 256 ->
  exists c shift', kbdgetc shift (data :: codes) = Ok (c, shift', codes) /\ 0 <= c < 256 /\ 0 <= shift' < 128.
Proof.
  intros Hs Hd. pose proof codes_fine as H. rewrite forallb_forall in H.
  specialize (H shift ltac:(apply list_elem_of_In, elem_of_seqZ; lia)). rewrite forallb_forall in H.
  specialize (H data ltac:(apply list_elem_of_In, elem_of_seqZ; lia)). unfold code_fine in H.
  destruct (kbdgetc shift [data]) as [[[c shift'] rest]| | |] eqn:Hk; try done.
  rewrite !andb_true_iff in H. exists c, shift'. split; [by eapply kbdgetc_head |]. lia.
Qed.

Lemma kbd_keys_typed codes : forall shift,
  0 <= shift < 128 -> Forall (fun c => 0 <= c < 256) codes ->
  exists keys shift', kbd_keys (S (length codes)) shift codes = Ok (keys, shift') /\
    length keys = length codes /\ Forall (fun c => 0 <= c < 256) keys /\ 0 <= shift' < 128.
Proof.
  induction codes as [|data codes IH]; intros shift Hs Hc.
  - exists [], shift. done.
  - apply Forall_cons in Hc as [Hd Hc]. destruct (kbdgetc_typed shift data codes Hs Hd) as (c & shift1 & Hk & Hcb & Hs1).
    destruct (IH shift1 Hs1 Hc) as (keys & shift2 & Hks & Hl & Hkeys & Hs2). exists (c :: keys), shift2.
    cbn [length]. remember (S (length codes)) as n eqn:En. cbn [kbd_keys]. rewrite Hk. simpl rbind.
    rewrite i32_small, (proj2 (Z.ltb_ge _ _)) by lia. rewrite Hks. split; [done |]. split; [by rewrite Hl |].
    split; [by constructor | done].
Qed.

(** The letters: lower case, upper case under exactly one of shift and caps
    lock, and control characters under control. *)
Definition letters : list Z :=
  [0x1E; 0x30; 0x2E; 0x20; 0x12; 0x21; 0x22; 0x23; 0x17; 0x24; 0x25; 0x26; 0x32; 0x31; 0x18; 0x19; 0x10; 0x13; 0x1F; 0x14;
   0x16; 0x2F; 0x11; 0x2D; 0x15; 0x2C].

Definition letter_value (shift k : Z) : Z :=
  if Z.testbit shift 1 then k + 1
  else if xorb (Z.testbit shift 0) (Z.testbit shift 3) then 65 + k
  else 97 + k.

#[export] Instance res_eq_dec {A} `{EqDecision A} : EqDecision (res A).
Proof. solve_decision. Defined.

Lemma letters_fine :
  forallb (fun shift => forallb (fun k =>
    bool_decide (kbdgetc shift [letters !!! Z.to_nat k] = Ok (letter_value shift k, shift, []))) (seqZ 0 26)) (seqZ 0 64) = true.
Proof. vm_compute. reflexivity. Qed.

(** C33: a keyboard interrupt reads every scan code without leaving a table,
    keeps the modifiers in their seven bits, gives the console one byte for
    each code, and the console does with them what the abstract console does;
    the 26 letter keys give the letter in the case that shift and caps lock
    select, or the control character. *)
Theorem kbdintr_correct vcfs pcs codes shift s a :
  rep s a -> 0 <= shift < 128 -> Forall (fun c => 0 <= c < 256) codes -> switch_name vcfs = Ok tt ->
  (exists keys shift' a', kbd_keys (S (length codes)) shift codes = Ok (keys, shift') /\ length keys = length codes /\
    0 <= shift' < 128 /\ spec_step pcs (Intr keys) a ONone a' /\
    runs (kbdintr vcfs pcs codes shift) s (fun r s' => r = shift' /\ rep s' a')) /\
  (forall k scan, letters !! k = Some scan -> shift < E0ESC ->
    kbdgetc shift [scan] = Ok (letter_value shift (Z.of_nat k), shift, [])).
Proof.
  intros Hr Hs Hc Hv. split.
  - destruct (kbd_keys_typed codes shift Hs Hc) as (keys & shift' & Hk & Hl & Hb & Hs').
    destruct (consoleintr_ok vcfs pcs keys s a Hr Hb Hv) as (a' & Hst & u & s' & Hci & Hr'). exists keys, shift', a'.
    split_and!; try done; [lia | lia |]. exists shift', s'. unfold kbdintr. rewrite Hk. simpl rbind. by rewrite Hci.
  - intros k scan Hk He. apply lookup_lt_Some in Hk as Hlt. pose proof letters_fine as H. rewrite forallb_forall in H.
    specialize (H shift ltac:(apply list_elem_of_In, elem_of_seqZ; unfold E0ESC in He; lia)). rewrite forallb_forall in H.
    specialize (H (Z.of_nat k) ltac:(apply list_elem_of_In, elem_of_seqZ; simpl in Hlt; lia)).
    apply bool_decide_eq_true in H. rewrite Nat2Z.id in H. by rewrite (list_lookup_total_correct _ _ _ Hk) in H.
Qed.

(** Shift down, "a", shift up, "b", enter. *)
Lemma kbdintr_correct_witness :
  (exists keys shift' a', kbd_keys 6 0 [0x2A; 0x1E; 0xAA; 0x30; 0x1C] = Ok (keys, shift') /\ (length keys = 5)%nat /\
    0 <= shift' < 128 /\ spec_step (fun _ => []) (Intr keys) (spec_boot [] demo_procs) ONone a' /\
    runs (kbdintr [0] (fun _ => []) [0x2A; 0x1E; 0xAA; 0x30; 0x1C] 0) (console_boot demo_display demo_procs)
      (fun r s' => r = shift' /\ rep s' a')) /\
  kbdgetc 0 [0x1E] = Ok (97, 0, []).
Proof.
  destruct (kbdintr_correct [0] (fun _ => []) [0x2A; 0x1E; 0xAA; 0x30; 0x1C] 0 (console_boot demo_display demo_procs) (spec_boot [] demo_procs))
    as [H1 H2]; [exact demo_rep | lia | repeat constructor; lia | reflexivity |].
  split; [exact H1 |]. exact (H2 0%nat 0x1E eq_refl ltac:(reflexivity)).
Defined.

Example kbd_types : kbd_keys 6 0 [0x2A; 0x1E; 0xAA; 0x30; 0x1C] = Ok ([0; 65; 0; 98; 10], 0).
Proof. vm_compute. reflexivity. Qed.
