(* ===== verification/Umalloc.v ===== *)
(** * The user-level allocator (umalloc.c)

    Kernighan and Ritchie's allocator on the memory of a process: a circular
    list of free blocks in the order of their addresses, entered at [freep],
    with the header [base] below the heap. A block is a header of 8 bytes, the
    pointer and the size in units of 8 bytes, and the units after it. The
    break moves as [growproc] of proc.c moves it; whether the kernel finds the
    pages for it is the parameter [grows]. Bytes above the break are those
    that a page will have when it is mapped. *)

From stdpp Require Import sorting.
From S2P Require Import Prelude Mem Params.

Record heap := mkHeap { h_mem : mem; h_freep : Z; h_brk : Z }.

Definition hptr (m : mem) (a : Z) : Z := load32 m a.
Definition hsize (m : mem) (a : Z) : Z := load32 m (a + 4).
Definition set_ptr (m : mem) (a v : Z) : mem := store32 m a v.
Definition set_size (m : mem) (a v : Z) : mem := store32 m (a + 4) (u32 v).

(** [a + n] of a [Header *]. *)
Definition hadd (a n : Z) : Z := u32 (a + 8 * n).

Section allocator.
  Context (base : Z) (grows : Z -> Z -> bool).

(** The search of [free] for the place of [bp]. *)
Fixpoint free_find (fuel : nat) (m : mem) (bp p : Z) : res Z :=
  match fuel with
  | O => Hang
  | S fuel' =>
      if (p <? bp) && (bp <? hptr m p) then Ok p
      else if (hptr m p <=? p) && ((p <? bp) || (bp <? hptr m p)) then Ok p
      else free_find fuel' m bp (hptr m p)
  end.

Definition free (ap : Z) (h : heap) : res heap :=
  let bp := hadd ap (-1) in
  let m := h_mem h in
  let! p := free_find (Z.to_nat (h_brk h)) m bp (h_freep h) in
  let m :=
    if hadd bp (hsize m bp) =? hptr m p then
      let m := set_size m bp (hsize m bp + hsize m (hptr m p)) in
      set_ptr m bp (hptr m (hptr m p))
    else set_ptr m bp (hptr m p) in
  let m :=
    if hadd p (hsize m p) =? bp then
      let m := set_size m p (hsize m p + hsize m bp) in
      set_ptr m p (hptr m bp)
    else set_ptr m p bp in
  Ok (mkHeap m p (h_brk h)).

(** The size [allocuvm] and [deallocuvm] return to [growproc]. *)
Definition newbreak (sz n : Z) : Z :=
  let newsz := u32 (sz + n) in
  if 0 <? n then
    if KERNBASE <=? newsz then 0
    else if newsz <? sz then sz
    else if grows sz n then newsz else 0
  else if n <? 0 then if sz <=? newsz then sz else newsz
  else sz.

(** [sbrk(n)]: the system call returns the old break, or -1. *)
Definition sbrk (n : Z) (h : heap) : Z * heap :=
  let sz := newbreak (h_brk h) n in
  if negb (n =? 0) && (sz =? 0) then (u32 (-1), h)
  else (h_brk h, mkHeap (h_mem h) (h_freep h) sz).

(** The result is [freep], or 0. *)
Definition morecore (nu : Z) (h : heap) : res (Z * heap) :=
  let nu := if nu <? 4096 then 4096 else nu in
  let '(p, h) := sbrk (i32 (nu * 8)) h in
  if p =? u32 (-1) then Ok (0, h)
  else
    let! h := free (hadd p 1) (mkHeap (set_size (h_mem h) p nu) (h_freep h) (h_brk h)) in
    Ok (h_freep h, h).

Fixpoint malloc_loop (fuel : nat) (nunits prevp p : Z) (h : heap) : res (Z * heap) :=
  match fuel with
  | O => Hang
  | S fuel' =>
      let m := h_mem h in
      if nunits <=? hsize m p then
        if hsize m p =? nunits
        then Ok (hadd p 1, mkHeap (set_ptr m prevp (hptr m p)) prevp (h_brk h))
        else
          let m := set_size m p (hsize m p - nunits) in
          let p := hadd p (hsize m p) in
          Ok (hadd p 1, mkHeap (set_size m p nunits) prevp (h_brk h))
      else if p =? h_freep h then
        let! (p, h) := morecore nunits h in
        if p =? 0 then Ok (0, h) else malloc_loop fuel' nunits p (hptr (h_mem h) p) h
      else malloc_loop fuel' nunits p (hptr m p) h
  end.

Definition units (nbytes : Z) : Z := u32 (nbytes + 8 - 1) / 8 + 1.

Definition malloc (nbytes : Z) (h : heap) : res (Z * heap) :=
  let nunits := units nbytes in
  let h :=
    if h_freep h =? 0 then mkHeap (set_size (set_ptr (h_mem h) base base) base 0) base (h_brk h)
    else h in
  malloc_loop (Z.to_nat (h_brk h)) nunits (h_freep h) (hptr (h_mem h) (h_freep h)) h.

(** ** Blocks *)

(** A block: the address of its header and its size in units; [base] has size
    0 and takes the room of its header. *)
Abbreviation chunk := (Z * Z)%type.

Definition stop (b : chunk) : Z := b.1 + 8 * Z.max 1 b.2.
Definition sep (b b' : chunk) : Prop := stop b <= b'.1 \/ stop b' <= b.1.

Definition below (b b' : chunk) : Prop := b.1 < b'.1.

Fixpoint apart (bs : list chunk) : Prop :=
  match bs with
  | [] => True
  | b :: bs' => Forall (sep b) bs' /\ apart bs'
  end.

(** The node after a list of nodes that ends at [q]. *)
Definition nxt (l : list chunk) (q : Z) : Z := match l with [] => q | b :: _ => b.1 end.

(** The nodes [l] are linked in this order, and the last one to [q]. *)
Fixpoint chain (m : mem) (l : list chunk) (q : Z) : Prop :=
  match l with
  | [] => True
  | b :: l' => hsize m b.1 = b.2 /\ hptr m b.1 = nxt l' q /\ chain m l' q
  end.

(** [ns] are the nodes of the free list from [base] on, in the order of their
    addresses; [live] are the blocks in use. *)
Record heap_ok (h : heap) (ns live : list chunk) : Prop := {
  hk_base : 0 < base;
  hk_brk : h_brk h < KERNBASE;
  hk_first : exists fl, ns = (base, 0) :: fl /\ Forall (fun b => 1 <= b.2) fl;
  hk_ring : chain (h_mem h) ns base;
  hk_sorted : StronglySorted below ns;
  hk_freep : h_freep h ∈ ns.*1;
  hk_apart : apart (ns ++ live);
  hk_inside : Forall (fun b => base <= b.1 /\ stop b <= h_brk h) (ns ++ live);
  hk_live : Forall (fun b => 1 <= b.2 /\ hsize (h_mem h) b.1 = b.2) live
}.

(** ** Headers in memory *)

Lemma hptr_set_ptr m a v : 0 <= v < 4294967296 -> hptr (set_ptr m a v) a = v.
Proof. apply load32_store32_eq. Qed.
Lemma hptr_set_ptr_ne m a b v : b + 8 <= a \/ a + 8 <= b -> hptr (set_ptr m a v) b = hptr m b.
Proof. intros H. apply load32_store32_ne. lia. Qed.
Lemma hsize_set_ptr m a b v : b + 8 <= a \/ a + 8 <= b \/ a = b -> hsize (set_ptr m a v) b = hsize m b.
Proof. intros H. apply load32_store32_ne. lia. Qed.
Lemma hsize_set_size m a v : 0 <= v < 4294967296 -> hsize (set_size m a v) a = v.
Proof. intros H. unfold hsize, set_size. rewrite u32_small by done. by apply load32_store32_eq. Qed.
Lemma hsize_set_size_ne m a b v : b + 8 <= a \/ a + 8 <= b -> hsize (set_size m a v) b = hsize m b.
Proof. intros H. apply load32_store32_ne. lia. Qed.
Lemma hptr_set_size m a b v : b + 8 <= a \/ a + 8 <= b \/ a = b -> hptr (set_size m a v) b = hptr m b.
Proof. intros H. apply load32_store32_ne. lia. Qed.

(** The headers of the blocks in a list are the same in two memories. *)
Definition same_headers (m m' : mem) (l : list chunk) : Prop :=
  Forall (fun b => hsize m' b.1 = hsize m b.1 /\ hptr m' b.1 = hptr m b.1) l.

Lemma blocks_frame m m' l q : same_headers m m' l -> chain m l q -> chain m' l q.
Proof.
  induction l as [|b l IH]; [done |]. intros [[Hs Hp] Hl]%Forall_cons (H1 & H2 & H3). cbn [chain].
  rewrite Hs, Hp. auto.
Qed.

Lemma nxt_app l1 l2 q : nxt (l1 ++ l2) q = nxt l1 (nxt l2 q).
Proof. by destruct l1. Qed.

Lemma blocks_app m l1 l2 q : chain m (l1 ++ l2) q <-> chain m l1 (nxt l2 q) /\ chain m l2 q.
Proof.
  induction l1 as [|b l1 IH]; simpl; [tauto |]. rewrite nxt_app, IH. tauto.
Qed.

(** ** Blocks that lie apart *)

Lemma sep_sym b b' : sep b b' -> sep b' b.
Proof. unfold sep. tauto. Qed.

Lemma apart_perm l l' : l ≡ₚ l' -> apart l -> apart l'.
Proof.
  induction 1 as [|b l l' Hp IH|b c l|l1 l2 l3 _ IH1 _ IH2]; simpl; auto.
  - intros [Hb Hl]. split; [by rewrite <- Hp | auto].
  - intros [[Hbc Hb]%Forall_cons [Hc Hl]]. rewrite Forall_cons. auto using sep_sym.
Qed.

Lemma apart_cons b l : apart (b :: l) <-> Forall (sep b) l /\ apart l.
Proof. done. Qed.

Lemma apart_sub l1 l2 : apart (l1 ++ l2) -> apart l1.
Proof. induction l1 as [|b l1 IH]; [done |]. intros [[H _]%Forall_app Ha]. split; auto. Qed.

Lemma apart_merge a n s l : 1 <= n -> 1 <= s -> apart ((a, n) :: (a + 8 * n, s) :: l) -> apart ((a, n + s) :: l).
Proof.
  intros Hn Hs. rewrite !apart_cons. intros ([_ H1]%Forall_cons & H2 & Hl). split; [| done].
  rewrite Forall_forall in H1, H2 |- *. intros c Hc. specialize (H1 c Hc). specialize (H2 c Hc).
  unfold sep, stop in *. simpl in *. lia.
Qed.

Lemma apart_split a n k l : 1 <= k < n -> apart ((a, n) :: l) -> apart ((a, n - k) :: (a + 8 * (n - k), k) :: l).
Proof.
  intros Hk. rewrite !apart_cons. intros [H1 Hl]. rewrite Forall_forall in H1. split_and!; [| | done].
  - constructor; [unfold sep, stop; simpl; lia |]. apply Forall_forall. intros c Hc. specialize (H1 c Hc).
    unfold sep, stop in *. simpl in *. lia.
  - apply Forall_forall. intros c Hc. specialize (H1 c Hc). unfold sep, stop in *. simpl in *. lia.
Qed.

(** Sorted blocks that lie apart are few. *)
Lemma nodes_few lo hi l :
  StronglySorted below l -> apart l -> Forall (fun b => lo <= b.1 /\ stop b <= hi) l -> lo <= hi ->
  8 * Z.of_nat (length l) <= hi - lo.
Proof.
  revert lo. induction l as [|b l IH]; intros lo Hs Ha Hi Hlo; [simpl; lia |].
  apply StronglySorted_inv in Hs as [Hs Hb]. destruct Ha as [Hsep Ha]. apply Forall_cons in Hi as [[H1 H2] Hi].
  specialize (IH (stop b)). rewrite length_cons. assert (b.1 + 8 <= stop b) by (unfold stop; lia).
  enough (8 * Z.of_nat (length l) <= hi - stop b) by lia. apply IH; [done | done | | lia].
  rewrite Forall_forall in Hi, Hsep, Hb. apply Forall_forall. intros c Hc.
  specialize (Hi c Hc). specialize (Hsep c Hc). specialize (Hb c Hc). unfold sep, stop, below in *. lia.
Qed.

(** ** The search of [free] *)

Lemma skip_low m bp q : forall l f,
  chain m l q -> StronglySorted below (l ++ [(q, 0)]) -> q < bp ->
  free_find (length l + f) m bp (nxt l q) = free_find f m bp q.
Proof.
  induction l as [|b l IH]; intros f Hc Hs Hq; [done |]. destruct Hc as (_ & Hp & Hc). cbn [length Nat.add free_find nxt].
  apply StronglySorted_inv in Hs as [Hs Hb]. rewrite Hp.
  assert (b.1 < nxt l q < bp) as [H1 H2].
  { rewrite Forall_forall in Hb. destruct l as [|c l]; cbn [nxt].
    - specialize (Hb (q, 0) ltac:(set_solver)). unfold below in Hb. simpl in Hb. lia.
    - pose proof (Hb c ltac:(set_solver)). apply StronglySorted_inv in Hs as [_ Hc'].
      rewrite Forall_forall in Hc'. specialize (Hc' (q, 0) ltac:(set_solver)). unfold below in *. simpl in *. lia. }
  rewrite (proj2 (Z.ltb_ge bp _)), (proj2 (Z.leb_gt _ b.1)) by lia. rewrite andb_false_r. simpl. by apply IH.
Qed.

Lemma skip_high m bp : forall l f,
  chain m l base -> StronglySorted below l -> Forall (fun b => bp < b.1) l -> base < bp ->
  free_find (length l + f) m bp (nxt l base) = free_find f m bp base.
Proof.
  induction l as [|b l IH]; intros f Hc Hs Hl Hb; [done |]. destruct Hc as (_ & Hp & Hc). cbn [length Nat.add free_find nxt].
  apply StronglySorted_inv in Hs as [Hs Hbl]. apply Forall_cons in Hl as [Hbp Hl]. rewrite Hp.
  rewrite (proj2 (Z.ltb_ge b.1 bp)) by lia. cbn [andb orb].
  replace ((nxt l base <=? b.1) && (bp <? nxt l base)) with false; [by apply IH |]. symmetry. destruct l as [|c l]; cbn [nxt].
  - rewrite (proj2 (Z.ltb_ge bp base)) by lia. apply andb_false_r.
  - rewrite Forall_forall in Hbl. specialize (Hbl c ltac:(set_solver)). unfold below in Hbl.
    by rewrite (proj2 (Z.leb_gt _ b.1)) by lia.
Qed.

Lemma sorted_app (l1 l2 : list chunk) :
  StronglySorted below (l1 ++ l2) <->
  StronglySorted below l1 /\ StronglySorted below l2 /\ (forall b c, b ∈ l1 -> c ∈ l2 -> b.1 < c.1).
Proof.
  induction l1 as [|b l1 IH]; cbn [app].
  - split; [intros H; split_and!; [constructor | done | set_solver] | by intros (_ & ? & _)].
  - split.
    + intros [Hs Hb]%StronglySorted_inv. apply IH in Hs as (H1 & H2 & H3). apply Forall_app in Hb as [Hb1 Hb2].
      rewrite Forall_forall in Hb2. split_and!; [by constructor | done |]. intros x c [->|Hx]%elem_of_cons Hc; [by apply Hb2 | auto].
    + intros ([H1 Hb]%StronglySorted_inv & H2 & H3). constructor; [apply IH; set_solver |]. apply Forall_app.
      split; [done |]. apply Forall_forall. intros c Hc. apply H3; set_solver.
Qed.

Lemma sorted_app_l (l1 l2 : list chunk) : StronglySorted below (l1 ++ l2) -> StronglySorted below l1.
Proof. by intros (? & _)%sorted_app. Qed.

Lemma sorted_app_r (l1 l2 : list chunk) : StronglySorted below (l1 ++ l2) -> StronglySorted below l2.
Proof. by intros (_ & ? & _)%sorted_app. Qed.

Lemma sorted_mid (l1 l2 : list chunk) (p q : chunk) :
  p.1 = q.1 -> StronglySorted below (l1 ++ p :: l2) -> StronglySorted below (l1 ++ q :: l2).
Proof.
  intros Hpq. induction l1 as [|b l1 IH]; intros [Hs Hb]%StronglySorted_inv; cbn [app]; constructor; auto.
  - eapply Forall_impl; [exact Hb |]. intros c. unfold below. by rewrite Hpq.
  - apply Forall_app in Hb as [Hb1 [Hb2 Hb3]%Forall_cons]. apply Forall_app. split; [done |]. constructor; [| done].
    unfold below in *. by rewrite <- Hpq.
Qed.

(** The search ends at the node before the place of [bp], wherever it starts. *)
Lemma free_find_ok m bp k p ps n start fuel :
  chain m (k ++ (p, ps) :: n) base -> StronglySorted below (k ++ (p, ps) :: n) ->
  nxt (k ++ [(p, ps)]) base = base -> base < bp -> p < bp -> base <= p -> Forall (fun b => bp < b.1) n ->
  start ∈ (k ++ (p, ps) :: n).*1 -> (length (k ++ (p, ps) :: n) < fuel)%nat ->
  free_find fuel m bp start = Ok p.
Proof.
  intros Hc Hs Hfirst Hb Hp Hbp Hn Hst Hf. pose proof (sorted_app_l (k ++ [(p, ps)]) n) as Hk.
  rewrite <- app_assoc in Hk. specialize (Hk Hs). apply (sorted_mid k [] _ (p, 0)) in Hk; [| done].
  pose proof (sorted_app_r (k ++ [(p, ps)]) n) as Hsn. rewrite <- app_assoc in Hsn. specialize (Hsn Hs).
  apply blocks_app in Hc as [Hck (_ & Hpn & Hcn)]. cbn [nxt fst] in *.
  assert (Hat : forall f, (0 < f)%nat -> free_find f m bp p = Ok p).
  { intros [|f] ?; [lia |]. cbn [free_find]. rewrite Hpn. destruct n as [|c n]; cbn [nxt].
    - rewrite (proj2 (Z.ltb_ge bp base)), andb_false_r, (proj2 (Z.leb_le base p)), (proj2 (Z.ltb_lt p bp)) by lia. done.
    - apply Forall_cons in Hn as [Hc _]. rewrite (proj2 (Z.ltb_lt p bp)), (proj2 (Z.ltb_lt bp _)) by lia. done. }
  assert (Hlow : forall l f, (exists x, k = x ++ l) -> (length l < f)%nat -> free_find f m bp (nxt l p) = Ok p).
  { intros l f [x ->] Hl. replace f with (length l + (f - length l))%nat by lia. rewrite skip_low; [apply Hat; lia | | | done].
    - by apply blocks_app in Hck as [_ ?].
    - rewrite <- app_assoc in Hk. by apply sorted_app_r in Hk. }
  rewrite fmap_app, fmap_cons, elem_of_app, elem_of_cons in Hst. rewrite length_app, length_cons in Hf.
  destruct Hst as [Hst|[->|Hst]]; [| apply Hat; lia |];
    apply list_elem_of_fmap in Hst as (b & -> & Hin); apply list_elem_of_split in Hin as (x & y & ->).
  - apply (Hlow (b :: y)); [by exists x |]. rewrite length_app in Hf. simpl in *. lia.
  - rewrite length_app in Hf. simpl in Hf. apply blocks_app in Hcn as [_ Hcy]. apply sorted_app_r in Hsn.
    apply Forall_app in Hn as [_ Hn]. replace fuel with (length (b :: y) + (fuel - length (b :: y)))%nat by (simpl; lia).
    rewrite (skip_high m bp (b :: y)) by done. rewrite <- Hfirst, nxt_app. apply (Hlow k); [by exists [] | simpl; lia].
Qed.

(** ** Bytes that stay *)

(** The bytes of the blocks in [l] are the same. *)
Definition kept (m m' : mem) (l : list chunk) : Prop :=
  forall b x, b ∈ l -> b.1 <= x < stop b -> m' x = m x.

Lemma kept_after m1 m2 m3 l : kept m1 m2 l -> kept m2 m3 l -> kept m1 m3 l.
Proof. intros H1 H2 b x Hb Hx. by rewrite (H2 b x), (H1 b x). Qed.

Lemma kept_sub m m' l l' : (forall b, b ∈ l' -> b ∈ l) -> kept m m' l -> kept m m' l'.
Proof. intros Hs H b x Hb Hx. apply (H b); auto. Qed.

Lemma kept_headers m m' l : kept m m' l -> same_headers m m' l.
Proof.
  intros H. apply Forall_forall. intros b Hb.
  split; apply load32_ext; intros x Hx; apply (H b x Hb); unfold stop; lia.
Qed.

Lemma kept_set_size m b v l : Forall (sep b) l -> kept m (set_size m b.1 v) l.
Proof.
  intros H c x Hc Hx. rewrite Forall_forall in H. specialize (H c Hc). unfold sep, stop, set_size in *.
  apply store32_ne. lia.
Qed.

Lemma kept_set_ptr m b v l : Forall (sep b) l -> kept m (set_ptr m b.1 v) l.
Proof.
  intros H c x Hc Hx. rewrite Forall_forall in H. specialize (H c Hc). unfold sep, stop, set_ptr in *.
  apply store32_ne. lia.
Qed.

Lemma kept_node m m' b l : kept m m' l -> b ∈ l -> hsize m' b.1 = hsize m b.1 /\ hptr m' b.1 = hptr m b.1.
Proof. intros Hk Hb. apply kept_headers in Hk. unfold same_headers in Hk. rewrite Forall_forall in Hk. auto. Qed.

Lemma kept_chain m m' l l' q : kept m m' l -> (forall b, b ∈ l' -> b ∈ l) -> chain m l' q -> chain m' l' q.
Proof. intros Hk Hs. apply blocks_frame, kept_headers. by eapply kept_sub. Qed.

(** ** Joining with the next block *)

Definition join_next (m : mem) (bp p : Z) : mem :=
  if hadd bp (hsize m bp) =? hptr m p then
    let m := set_size m bp (hsize m bp + hsize m (hptr m p)) in
    set_ptr m bp (hptr m (hptr m p))
  else set_ptr m bp (hptr m p).

Definition within (hi : Z) (b : chunk) : Prop := base <= b.1 /\ stop b <= hi.

Lemma nxt_range hi l : 0 < base -> base < hi -> hi < KERNBASE -> Forall (within hi) l -> 0 <= nxt l base < 4294967296.
Proof.
  intros Hb Hh Hk Hl. unfold KERNBASE in Hk. destruct l as [|c l]; cbn [nxt]; [lia |]. apply Forall_cons in Hl as [[H1 H2] _].
  unfold stop in H2. lia.
Qed.

Lemma join_next_ok m bp n p l2 rest hi :
  0 < base -> hi < KERNBASE -> base < bp -> p + 8 <= bp -> 1 <= n -> within hi (bp, n) -> Forall (within hi) l2 -> Forall (fun b => 1 <= b.2) l2 ->
  Forall (sep (bp, n)) l2 -> apart ((bp, n) :: l2 ++ rest) -> hsize m bp = n -> hptr m p = nxt l2 base -> chain m l2 base ->
  exists n' d l2', l2 = d ++ l2' /\ n <= n' /\ within hi (bp, n') /\
    hsize (join_next m bp p) bp = n' /\ hptr (join_next m bp p) bp = nxt l2' base /\ chain (join_next m bp p) l2' base /\
    kept m (join_next m bp p) (l2' ++ rest) /\ apart ((bp, n') :: l2' ++ rest).
Proof.
  intros Hb Hhi Hbp Hpb Hn [Hin1 Hin2] Hl2 Hs2 Hsep Hap Hsz Hp Hc. unfold join_next. cbv zeta. rewrite (hptr_set_size m bp p), Hsz, Hp by lia.
  unfold KERNBASE, stop in *. cbn [fst snd] in *.
  assert (Hadd : hadd bp n = bp + 8 * n) by (apply u32_small; lia). rewrite Hadd.
  pose proof (nxt_range hi l2 Hb ltac:(lia) Hhi Hl2) as Hr.
  destruct (Z.eqb_spec (bp + 8 * n) (nxt l2 base)) as [Heq|Hne].
  - destruct l2 as [|[b2 s2] l2]; cbn [nxt fst] in *; [lia |]. clear Hp. subst b2. apply Forall_cons in Hl2 as [[H1 H2] Hl2].
    apply Forall_cons in Hs2 as [Hs2 Hs2']. cbn [fst snd] in *. unfold stop in *. cbn [fst snd] in *.
    destruct Hc as (Hsz2 & Hp2 & Hc). cbn [fst snd] in *. rewrite Hsz2.
    pose proof (apart_merge _ _ _ _ Hn Hs2 Hap) as Hap'.
    assert (Hsep' : Forall (sep (bp, n + s2)) (l2 ++ rest)) by apply Hap'.
    pose proof (kept_after _ _ _ _ (kept_set_size m (bp, n + s2) (n + s2) _ Hsep')
      (kept_set_ptr (set_size m bp (n + s2)) (bp, n + s2) (hptr (set_size m bp (n + s2)) (bp + 8 * n)) _ Hsep')) as Hk. cbn [fst] in Hk.
    pose proof (nxt_range hi l2 Hb ltac:(lia) Hhi Hl2) as Hr2.
    exists (n + s2), [(bp + 8 * n, s2)], l2. split_and!; try done; try lia.
    + split; [done | unfold stop; cbn [fst snd]; lia].
    + rewrite hsize_set_ptr by lia. apply hsize_set_size. lia.
    + rewrite hptr_set_size by lia. rewrite Hp2. by apply hptr_set_ptr.
    + eapply kept_chain; [exact Hk | set_solver | done].
  - pose proof (proj1 Hap) as Hsep'. pose proof (kept_set_ptr m (bp, n) (nxt l2 base) _ Hsep') as Hk. cbn [fst] in Hk.
    exists n, [], l2. split_and!; try done; try lia.
    + by rewrite hsize_set_ptr by lia.
    + by apply hptr_set_ptr.
    + eapply kept_chain; [exact Hk | set_solver | done].
Qed.

(** ** Joining with the block before *)

Definition join_prev (m : mem) (bp p : Z) : mem :=
  if hadd p (hsize m p) =? bp then
    let m := set_size m p (hsize m p + hsize m bp) in
    set_ptr m p (hptr m bp)
  else set_ptr m p bp.

Lemma free_unfold ap h :
  free ap h =
  let! p := free_find (Z.to_nat (h_brk h)) (h_mem h) (hadd ap (-1)) (h_freep h) in
  Ok (mkHeap (join_prev (join_next (h_mem h) (hadd ap (-1)) p) (hadd ap (-1)) p) p (h_brk h)).
Proof. done. Qed.

(** [p] has size 0 when it is [base], which is too far below to be joined. *)
Lemma join_prev_ok m bp n p ps l2 rest hi :
  0 < base -> hi < KERNBASE -> 1 <= n -> 0 <= ps -> within hi (p, ps) -> within hi (bp, n) -> p < bp ->
  apart ((p, ps) :: (bp, n) :: l2 ++ rest) -> hsize m p = ps -> hsize m bp = n -> hptr m bp = nxt l2 base -> chain m l2 base ->
  Forall (within hi) l2 ->
  exists l', ((1 <= ps /\ l' = (p, ps + n) :: l2) \/ l' = (p, ps) :: (bp, n) :: l2) /\
    chain (join_prev m bp p) l' base /\ Forall (within hi) l' /\ kept m (join_prev m bp p) rest /\ apart (l' ++ rest).
Proof.
  intros Hb Hhi Hn Hps [Hp1 Hp2] [Hb1 Hb2] Hpb Hap Hsp Hsb Hpt Hc Hl2. unfold join_prev. rewrite Hsp.
  unfold KERNBASE, stop in *. cbn [fst snd] in *.
  assert (Hadd : hadd p ps = p + 8 * ps) by (apply u32_small; lia). rewrite Hadd.
  pose proof Hap as [Hsep _]. apply Forall_cons in Hsep as [Hs1 Hs2].
  assert (p + 8 * Z.max 1 ps <= bp) as Hfar by (unfold sep, stop in Hs1; cbn [fst snd] in Hs1; lia).
  pose proof (nxt_range hi l2 Hb ltac:(lia) Hhi Hl2) as Hr.
  destruct (Z.eqb_spec (p + 8 * ps) bp) as [Heq|Hne].
  - assert (1 <= ps) by lia. rewrite Hsb. exists ((p, ps + n) :: l2). rewrite <- Heq in Hap.
    pose proof (apart_merge _ _ _ _ ltac:(done) Hn Hap) as Hap'. pose proof (proj1 Hap') as Hsep'.
    rewrite (hptr_set_size m p bp) by lia. rewrite Hpt.
    pose proof (kept_after _ _ _ _ (kept_set_size m (p, ps + n) (ps + n) _ Hsep')
      (kept_set_ptr (set_size m p (ps + n)) (p, ps + n) (nxt l2 base) _ Hsep')) as Hk. cbn [fst] in Hk.
    split; [by left |]. cbn [chain fst snd nxt]. split_and!.
    + rewrite hsize_set_ptr by lia. apply hsize_set_size. lia.
    + by apply hptr_set_ptr.
    + eapply kept_chain; [exact Hk | set_solver | done].
    + constructor; [| done]. split; [done | unfold stop; cbn [fst snd]; lia].
    + eapply kept_sub; [| exact Hk]. set_solver.
    + done.
  - exists ((p, ps) :: (bp, n) :: l2).
    assert (Hsep' : Forall (sep (p, ps)) ((bp, n) :: l2 ++ rest)) by apply Hap.
    pose proof (kept_set_ptr m (p, ps) bp _ Hsep') as Hk. cbn [fst] in Hk. split; [by right |]. cbn [chain fst snd nxt]. split_and!.
    + cbn [fst snd]. by rewrite hsize_set_ptr by lia.
    + cbn [fst nxt]. apply hptr_set_ptr. lia.
    + cbn [fst snd]. by rewrite hsize_set_ptr by lia.
    + cbn [fst]. by rewrite hptr_set_ptr_ne by lia.
    + eapply kept_chain; [exact Hk | set_solver | done].
    + constructor; [by split | constructor; [by split | done]].
    + eapply kept_sub; [| exact Hk]. set_solver.
    + done.
Qed.

(** ** Freeing a block *)

(** The nodes on both sides of an address. *)
Lemma place (ns : list chunk) bp :
  StronglySorted below ns -> (exists b fl, ns = b :: fl /\ b.1 < bp) -> Forall (fun b => b.1 <> bp) ns ->
  exists k b l2, ns = k ++ b :: l2 /\ b.1 < bp /\ Forall (fun b => bp < b.1) l2.
Proof.
  intros Hs (b & fl & -> & Hb) Hne. revert b Hs Hb Hne. induction fl as [|c fl IH]; intros b Hs Hb Hne.
  - by exists [], b, [].
  - apply StronglySorted_inv in Hs as [Hs _]. apply Forall_cons in Hne as [_ Hne].
    destruct (Z.lt_ge_cases c.1 bp) as [Hc|Hc].
    + destruct (IH c Hs Hc Hne) as (k & x & l2 & -> & Hx & Hl2). by exists (b :: k), x, l2.
    + exists [], b, (c :: fl). split; [done |]. split; [done |]. apply Forall_cons in Hne as [Hne _].
      apply StronglySorted_inv in Hs as [_ Hcl]. constructor; [lia |]. eapply Forall_impl; [exact Hcl |].
      intros x. unfold below. lia.
Qed.

Lemma first_node k (p : chunk) l2 fl :
  k ++ p :: l2 = (base, 0) :: fl -> (k = [] /\ p = (base, 0) /\ l2 = fl) \/ (exists k', k = (base, 0) :: k' /\ fl = k' ++ p :: l2).
Proof. destruct k as [|b k]; intros [= -> <-]; [by left | right; by exists k]. Qed.

(** Where [free] puts a block. *)
Lemma free_place h ns bp n live :
  heap_ok h ns ((bp, n) :: live) ->
  exists k p ps l2, ns = k ++ (p, ps) :: l2 /\ p + 8 <= bp /\ 0 <= ps /\ (k = [] -> ps = 0) /\
    Forall (fun b => bp < b.1) l2 /\ Forall (fun b => 1 <= b.2) l2 /\
    free_find (Z.to_nat (h_brk h)) (h_mem h) (hadd (bp + 8) (-1)) (h_freep h) = Ok p /\
    hadd (bp + 8) (-1) = bp /\ base < bp.
Proof.
  intros [Hb Hbrk (fl & Hns & Hfl) Hring Hsort Hfreep Hap Hin Hlive].
  apply Forall_app in Hin as [Hin1 [[Hbp Hsb] _]%Forall_cons]. apply apart_sub in Hap as Hans.
  apply Forall_cons in Hlive as [[Hn _] _]. unfold KERNBASE, stop in Hbrk, Hsb. cbn [fst snd] in *.
  assert (Hsepns : Forall (sep (bp, n)) ns).
  { apply (apart_perm _ ((bp, n) :: ns ++ live)) in Hap; [| solve_Permutation]. destruct Hap as [Hs _]. by apply Forall_app in Hs as [? _]. }
  assert (Hbb : base + 8 <= bp).
  { subst ns. apply Forall_cons in Hsepns as [Hs _]. unfold sep, stop in Hs. cbn [fst snd] in Hs. lia. }
  assert (hadd (bp + 8) (-1) = bp) as Hadd by (unfold hadd; rewrite u32_small; lia).
  destruct (place ns bp Hsort) as (k & [p ps] & l2 & Hsplit & Hp & Hl2).
  { exists (base, 0), fl. split; [done | cbn; lia]. }
  { eapply Forall_impl; [exact Hsepns |]. intros c. unfold sep, stop. simpl. lia. }
  cbn [fst] in Hp. assert (Hpb : p + 8 <= bp).
  { rewrite Hsplit in Hsepns. apply Forall_app in Hsepns as [_ [Hs _]%Forall_cons]. unfold sep, stop in Hs. cbn [fst snd] in Hs. lia. }
  assert (Hnode : 0 <= ps /\ Forall (fun b => 1 <= b.2) l2 /\ (k = [] -> ps = 0) /\ base <= p /\ nxt (k ++ [(p, ps)]) base = base).
  { rewrite Hsplit in Hns, Hin1. apply Forall_app in Hin1 as [_ [[Hpb' _] _]%Forall_cons]. cbn [fst] in Hpb'.
    destruct (first_node _ _ _ _ Hns) as [(-> & [= -> ->] & ->)|(k' & -> & ->)]; [done |].
    apply Forall_app in Hfl as [_ [Hps Hl]%Forall_cons]. cbn [snd] in Hps. split_and!; [lia | done | done | done | done]. }
  destruct Hnode as (Hps & Hl2s & Hk0 & Hbp' & Hfst). exists k, p, ps, l2. rewrite Hadd. split_and!; try done; [| lia].
  apply (free_find_ok _ _ k p ps l2); rewrite <- ?Hsplit; try done; [lia |].
  pose proof (nodes_few base (h_brk h) ns Hsort Hans Hin1 ltac:(lia)). lia.
Qed.

(** Free blocks and their neighbours are joined; the nodes before and the
    blocks in use are not touched. *)
Lemma sorted_join k p ps bp n d (l l' : list chunk) :
  StronglySorted below (k ++ (p, ps) :: d ++ l) ->
  (1 <= ps /\ l' = (p, ps + n) :: l) \/ l' = (p, ps) :: (bp, n) :: l -> p < bp -> Forall (fun b => bp < b.1) l ->
  StronglySorted below (k ++ l').
Proof.
  intros (Hk & [(_ & Hl & _)%sorted_app Hp]%StronglySorted_inv & Hkl)%sorted_app Hl' Hpb Hb.
  apply Forall_app in Hp as [_ Hp]. apply sorted_app. split; [done |].
  assert (StronglySorted below ((bp, n) :: l)) by (by constructor). split.
  - destruct Hl' as [[_ ->]| ->]; constructor; try done. constructor; [done |]. eapply Forall_impl; [exact Hb |].
    intros c. unfold below. cbn. lia.
  - assert (Hkp : forall b, b ∈ k -> b.1 < p) by (intros b Hbk; apply (Hkl b (p, ps) Hbk); set_solver).
    intros b c Hbk Hc. specialize (Hkp b Hbk). rewrite Forall_forall in Hb.
    destruct Hl' as [[_ ->]| ->]; rewrite !elem_of_cons in Hc;
      repeat destruct Hc as [->|Hc]; cbn [fst]; try lia; apply (Hkl b c Hbk); set_solver.
Qed.

Lemma free_ok h ns bp n live :
  heap_ok h ns ((bp, n) :: live) ->
  exists h' ns', free (bp + 8) h = Ok h' /\ heap_ok h' ns' live /\ kept (h_mem h) (h_mem h') live /\
    h_brk h' = h_brk h /\ (length ns' <= S (length ns))%nat /\ exists b, b ∈ ns' /\ n <= b.2.
Proof.
  intros Hok. destruct (free_place _ _ _ _ _ Hok) as (k & p & ps & l2 & -> & Hpb & Hps & Hk0 & Hl2 & Hl2s & Hfind & Hadd & Hbb).
  destruct Hok as [Hb Hbrk (fl & Hns & Hfl) Hring Hsort Hfreep Hap Hin Hlive].
  rewrite free_unfold, Hfind. cbn [rbind]. rewrite Hadd.
  rewrite <- app_assoc in Hin. apply Forall_app in Hin as [Hink [Hinp [Hinl2 [Hinb Hinl]%Forall_cons]%Forall_app]%Forall_cons].
  apply Forall_cons in Hlive as [[Hn Hszb] Hlive]. cbn [fst snd] in *.
  apply blocks_app in Hring as [Hck (Hsp & Hpn & Hc2)]. cbn [fst snd nxt] in *.
  assert (Hap1 : apart ((bp, n) :: l2 ++ ((p, ps) :: k ++ live))) by (eapply apart_perm, Hap; solve_Permutation).
  destruct (join_next_ok (h_mem h) bp n p l2 ((p, ps) :: k ++ live) (h_brk h)) as (n' & d & l2' & -> & Hnn & Hinb' & Hs1 & Hp1 & Hc1 & Hk1 & Hap2); try done.
  { destruct Hap1 as [Hs _]. by apply Forall_app in Hs as [? _]. }
  set (m1 := join_next (h_mem h) bp p) in *. apply Forall_app in Hinl2 as [_ Hinl2]. apply Forall_app in Hl2s as [_ Hl2s].
  apply Forall_app in Hl2 as [_ Hl2].
  destruct (join_prev_ok m1 bp n' p ps l2' (k ++ live) (h_brk h)) as (l' & Hl' & Hc' & Hin' & Hk2 & Hap3); try done; [lia | lia | | |].
  { eapply apart_perm, Hap2. solve_Permutation. }
  { destruct (kept_node _ _ (p, ps) _ Hk1) as [He _]; [set_solver |]. cbn [fst] in He. by rewrite He. }
  set (m2 := join_prev m1 bp p) in *.
  exists (mkHeap m2 p (h_brk h)), (k ++ l'). split; [done |].
  assert (Hkk : kept (h_mem h) m2 (k ++ live)).
  { eapply kept_after; [| exact Hk2]. eapply kept_sub; [| exact Hk1]. set_solver. }
  assert (Hnx : nxt l' base = p) by (destruct Hl' as [[_ ->]| ->]; done).
  split; [| split_and!; [eapply kept_sub; [| exact Hkk]; set_solver | done | |]].
  2: { rewrite !length_app. destruct Hl' as [[_ ->]| ->]; rewrite !length_cons, ?length_app; lia. }
  2: { destruct Hl' as [[_ ->]| ->]; [exists (p, ps + n') | exists (bp, n')]; (split; [set_solver | cbn [snd]; lia]). }
  split; cbn [h_mem h_brk h_freep]; try done.
  - destruct (first_node _ _ _ _ Hns) as [(-> & [= -> ->] & <-)|(k' & -> & ->)].
    + destruct Hl' as [[? _]| ->]; [lia |]. exists ((bp, n') :: l2'). split; [done |]. constructor; [cbn; lia | done].
    + exists (k' ++ l'). split; [done |]. apply Forall_app in Hfl as [Hf1 [Hf2 Hf3]%Forall_cons]. apply Forall_app. split; [done |].
      destruct Hl' as [[_ ->]| ->]; repeat constructor; cbn [snd] in *; try done; lia.
  - apply blocks_app. rewrite Hnx. split; [| done]. eapply kept_chain; [exact Hkk | set_solver | done].
  - eapply sorted_join; [exact Hsort | exact Hl' | lia | done].
  - rewrite fmap_app, elem_of_app. right. destruct Hl' as [[_ ->]| ->]; by left.
  - eapply apart_perm, Hap3. solve_Permutation.
  - rewrite <- app_assoc. rewrite !Forall_app. done.
  - rewrite Forall_forall in Hlive |- *. intros b Hbl. destruct (Hlive b Hbl) as [? He]. split; [done |].
    rewrite <- He. apply (kept_node _ _ b _ Hkk). set_solver.
Qed.

(** ** Growing the heap *)

Lemma heap_ok_grow h ns live nu brk :
  heap_ok h ns live -> 1 <= nu -> brk = h_brk h + 8 * nu -> brk < KERNBASE ->
  heap_ok (mkHeap (set_size (h_mem h) (h_brk h) nu) (h_freep h) brk) ns ((h_brk h, nu) :: live) /\
  kept (h_mem h) (set_size (h_mem h) (h_brk h) nu) (ns ++ live).
Proof.
  intros [Hb Hbrk Hfirst Hring Hsort Hfreep Hap Hin Hlive] Hnu -> Hk. unfold KERNBASE in Hk.
  assert (Hbase : base + 8 <= h_brk h).
  { destruct Hfirst as (fl & -> & _). apply Forall_cons in Hin as [[_ Hs] _]. unfold stop in Hs. cbn [fst snd] in Hs. lia. }
  assert (Hsep : Forall (sep (h_brk h, nu)) (ns ++ live)).
  { eapply Forall_impl; [exact Hin |]. intros c [_ Hc]. unfold sep. right. done. }
  pose proof (kept_set_size (h_mem h) (h_brk h, nu) nu _ Hsep) as Hkept. cbn [fst] in Hkept. split; [| done].
  split; cbn [h_mem h_freep h_brk]; try done.
  - eapply kept_chain; [exact Hkept | set_solver | done].
  - eapply (apart_perm ((h_brk h, nu) :: ns ++ live)); [solve_Permutation | done].
  - apply Forall_app in Hin as [Hin1 Hin2]. apply Forall_app. split; [| constructor]; cbn [fst snd].
    + eapply Forall_impl; [exact Hin1 |]. cbn. intros c. lia.
    + unfold stop. cbn [fst snd]. lia.
    + eapply Forall_impl; [exact Hin2 |]. cbn. intros c. lia.
  - constructor; [cbn [fst snd]; split; [done | apply hsize_set_size; lia] |]. rewrite Forall_forall in Hlive |- *.
    intros b Hbl. destruct (Hlive b Hbl) as [? He]. split; [done |]. rewrite <- He. apply (kept_node _ _ b _ Hkept). set_solver.
Qed.

Lemma morecore_ok h ns live nu :
  heap_ok h ns live -> 1 <= nu < 268435456 ->
  morecore nu h = Ok (0, h) \/
  exists h' ns', morecore nu h = Ok (h_freep h', h') /\ heap_ok h' ns' live /\ kept (h_mem h) (h_mem h') live /\
    (length ns' <= S (length ns))%nat /\ h_brk h < h_brk h' /\ exists b, b ∈ ns' /\ nu <= b.2.
Proof.
  intros Hok Hnu. unfold morecore. set (nu' := if nu <? 4096 then 4096 else nu).
  assert (nu <= nu' /\ 4096 <= nu' < 268435456) as [Hnu1 Hnu2] by (unfold nu'; destruct (Z.ltb_spec nu 4096); lia).
  pose proof (hk_brk _ _ _ Hok) as Hbrk. pose proof (hk_base _ _ _ Hok) as Hb. unfold KERNBASE in Hbrk.
  assert (Hbase : base + 8 <= h_brk h).
  { destruct (hk_first _ _ _ Hok) as (fl & -> & _). pose proof (hk_inside _ _ _ Hok) as Hin.
    apply Forall_cons in Hin as [[_ Hs] _]. unfold stop in Hs. cbn [fst snd] in Hs. lia. }
  rewrite i32_small by lia. unfold sbrk, newbreak. rewrite (proj2 (Z.ltb_lt 0 _)), u32_small by lia.
  rewrite (proj2 (Z.eqb_neq (nu' * 8) 0)) by lia. cbn [negb andb].
  destruct (Z.leb_spec KERNBASE (h_brk h + nu' * 8)) as [Hk|Hk]; [by left |].
  rewrite (proj2 (Z.ltb_ge _ (h_brk h))) by lia. destruct (grows (h_brk h) (nu' * 8)); [| by left].
  rewrite (proj2 (Z.eqb_neq (h_brk h + nu' * 8) 0)) by lia. cbn [h_mem h_freep h_brk].
  rewrite (proj2 (Z.eqb_neq (h_brk h) (u32 (-1)))) by (change (u32 (-1)) with 4294967295; lia). right.
  destruct (heap_ok_grow h ns live nu' (h_brk h + nu' * 8) Hok) as [Hok' Hk1]; [lia | lia | done |].
  assert (hadd (h_brk h) 1 = h_brk h + 8) as -> by (unfold hadd; rewrite u32_small; lia).
  destruct (free_ok _ _ _ _ _ Hok') as (h' & ns' & -> & Hok2 & Hk2 & Hbr & Hlen & b & Hbn & Hbs). cbn [rbind].
  exists h', ns'. split_and!; try done.
  - eapply kept_after; [| exact Hk2]. eapply kept_sub; [| exact Hk1]. set_solver.
  - rewrite Hbr. cbn [h_brk]. lia.
  - exists b. split; [done | lia].
Qed.

(** ** Taking a block *)

Lemma sorted_unique (l1 l2 k1 k2 : list chunk) b d :
  StronglySorted below (l1 ++ b :: l2) -> l1 ++ b :: l2 = k1 ++ d :: k2 -> b.1 = d.1 -> l1 = k1 /\ b = d /\ l2 = k2.
Proof.
  revert k1. induction l1 as [|x l1 IH]; intros [|y k1] Hs He Hbd; cbn [app] in *.
  - by injection He as -> ->.
  - injection He as -> ->. apply StronglySorted_inv in Hs as [_ Hs]. rewrite Forall_forall in Hs.
    specialize (Hs d ltac:(set_solver)). unfold below in Hs. lia.
  - injection He as -> <-. apply StronglySorted_inv in Hs as [_ Hs]. rewrite Forall_forall in Hs.
    specialize (Hs b ltac:(set_solver)). unfold below in Hs. lia.
  - injection He as -> He. apply StronglySorted_inv in Hs as [Hs _]. destruct (IH k1 Hs He Hbd) as (-> & ? & ?). done.
Qed.

(** The node that points to [b] is the one before it. *)
Lemma pred_unique m n1 b n2 c :
  StronglySorted below (n1 ++ b :: n2) -> chain m (n1 ++ b :: n2) base -> base <> b.1 -> c ∈ n1 ++ b :: n2 ->
  hptr m c.1 = b.1 -> exists n1', n1 = n1' ++ [c].
Proof.
  intros Hs Hc Hb Hin Hp. apply list_elem_of_split in Hin as (x & y & Hxy). rewrite Hxy in Hc.
  apply blocks_app in Hc as [_ (_ & Hpc & _)]. rewrite Hp in Hpc. destruct y as [|d y]; cbn [nxt] in Hpc; [congruence |].
  exists x. replace (x ++ c :: d :: y) with ((x ++ [c]) ++ d :: y) in Hxy by (by rewrite <- app_assoc).
  by destruct (sorted_unique _ _ _ _ _ _ Hs Hxy Hpc) as (-> & _ & _).
Qed.

Definition take_block (nunits prevp p : Z) (h : heap) : Z * heap :=
  let m := h_mem h in
  if hsize m p =? nunits
  then (hadd p 1, mkHeap (set_ptr m prevp (hptr m p)) prevp (h_brk h))
  else
    let m := set_size m p (hsize m p - nunits) in
    let p := hadd p (hsize m p) in
    (hadd p 1, mkHeap (set_size m p nunits) prevp (h_brk h)).

(** All of a node becomes a block. *)
Lemma take_whole h n1 b s n2 c live :
  heap_ok h (n1 ++ (b, s) :: n2) live -> c ∈ n1 ++ (b, s) :: n2 -> hptr (h_mem h) c.1 = b -> 1 <= s ->
  exists ns', heap_ok (mkHeap (set_ptr (h_mem h) c.1 (hptr (h_mem h) b)) c.1 (h_brk h)) ns' ((b, s) :: live) /\
    kept (h_mem h) (set_ptr (h_mem h) c.1 (hptr (h_mem h) b)) live.
Proof.
  intros [Hb Hbrk (fl & Hns & Hfl) Hring Hsort Hfreep Hap Hin Hlive] Hc Hp Hs.
  assert (Hne : base <> b).
  { intros <-. destruct (first_node _ _ _ _ Hns) as [(_ & [= ->] & _)|(k' & -> & ->)]; [lia |].
    apply StronglySorted_inv in Hsort as [_ Hf]. rewrite Forall_forall in Hf. specialize (Hf (base, s) ltac:(set_solver)).
    unfold below in Hf. simpl in Hf. lia. }
  destruct (pred_unique _ _ _ _ _ Hsort Hring Hne Hc Hp) as [n1' ->]. clear Hc.
  apply blocks_app in Hring as [Hc1 (Hsz & Hpt & Hc2)]. apply blocks_app in Hc1 as [Hc1 (Hszc & _ & _)]. cbn [fst snd nxt] in *.
  assert (Hapc : apart (c :: n1' ++ n2 ++ (b, s) :: live)) by (eapply apart_perm, Hap; solve_Permutation).
  pose proof (kept_set_ptr (h_mem h) c (hptr (h_mem h) b) _ (proj1 Hapc)) as Hk.
  rewrite !Forall_app, !Forall_cons in Hin. destruct Hin as [[[Hi1 [Hic _]] [Hib Hi2]] Hil].
  assert (Hr : 0 <= nxt n2 base < 4294967296).
  { apply (nxt_range (h_brk h)); try done. destruct Hib as [? Hib]. unfold stop in Hib. simpl in *. lia. }
  rewrite Hpt in *. exists (n1' ++ c :: n2). split; [| eapply kept_sub; [| exact Hk]; set_solver].
  split; cbn [h_mem h_freep h_brk]; try done.
  - rewrite <- app_assoc in Hns. cbn [app] in Hns.
    destruct (first_node _ _ _ _ Hns) as [(-> & -> & <-)|(k' & -> & ->)].
    + exists n2. split; [done |]. by apply Forall_cons in Hfl as [_ ?].
    + exists (k' ++ c :: n2). split; [done |]. apply Forall_app in Hfl as [Hf1 [Hf2 [_ Hf3]%Forall_cons]%Forall_cons].
      apply Forall_app. split; [done | by constructor].
  - apply blocks_app. split; [| split_and!].
    + eapply kept_chain; [exact Hk | set_solver | done].
    + rewrite hsize_set_ptr by lia. done.
    + by apply hptr_set_ptr.
    + eapply kept_chain; [exact Hk | set_solver | done].
  - rewrite <- app_assoc in Hsort. apply sorted_app in Hsort as (H1 & [H2 Hc2']%StronglySorted_inv & H3).
    apply sorted_app. apply StronglySorted_inv in H2 as [H2 _]. apply Forall_cons in Hc2' as [_ Hc2'].
    split_and!; [done | by constructor | set_solver].
  - rewrite fmap_app. set_solver.
  - eapply apart_perm, Hapc. solve_Permutation.
  - rewrite !Forall_app, !Forall_cons. done.
  - constructor; [cbn [fst snd]; split; [done |] |].
    + destruct (kept_node _ _ (b, s) _ Hk) as [He _]; [set_solver |]. cbn [fst] in He. by rewrite He.
    + rewrite Forall_forall in Hlive |- *. intros x Hx. destruct (Hlive x Hx) as [? He]. split; [done |].
      rewrite <- He. apply (kept_node _ _ x _ Hk). set_solver.
Qed.

(** The end of a node becomes a block. *)
Lemma take_tail h n1 b s n2 k live f :
  heap_ok h (n1 ++ (b, s) :: n2) live -> 1 <= k < s -> f ∈ (n1 ++ (b, s) :: n2).*1 ->
  let m' := set_size (set_size (h_mem h) b (s - k)) (b + 8 * (s - k)) k in
  heap_ok (mkHeap m' f (h_brk h)) (n1 ++ (b, s - k) :: n2) ((b + 8 * (s - k), k) :: live) /\ kept (h_mem h) m' live.
Proof.
  intros [Hb Hbrk (fl & Hns & Hfl) Hring Hsort Hfreep Hap Hin Hlive] Hk Hf m'. unfold KERNBASE in Hbrk.
  assert (Hap' : apart ((b, s) :: n1 ++ n2 ++ live)) by (eapply apart_perm, Hap; solve_Permutation).
  apply (apart_split _ _ k) in Hap'; [| done]. pose proof Hap' as [Hs1 [Hs2 _]]. apply Forall_cons in Hs1 as [_ Hs1].
  rewrite !Forall_app, !Forall_cons in Hin. destruct Hin as [[Hi1 [[Hib Hib'] Hi2]] Hil].
  unfold stop in Hib'. cbn [fst snd] in Hib, Hib'.
  pose proof (kept_after _ _ _ _ (kept_set_size (h_mem h) (b, s - k) (s - k) _ Hs1)
    (kept_set_size (set_size (h_mem h) b (s - k)) (b + 8 * (s - k), k) k _ Hs2)) as Hkept. cbn [fst] in Hkept. fold m' in Hkept.
  apply blocks_app in Hring as [Hc1 (Hsz & Hpt & Hc2)]. cbn [fst snd nxt] in *.
  split; [| eapply kept_sub; [| exact Hkept]; set_solver]. split; cbn [h_mem h_freep h_brk]; try done.
  - destruct (first_node _ _ _ _ Hns) as [(-> & [= -> ->] & <-)|(k' & -> & ->)]; [lia |]. exists (k' ++ (b, s - k) :: n2).
    split; [done |]. apply Forall_app in Hfl as [Hf1 [_ Hf2]%Forall_cons]. apply Forall_app. split; [done |].
    constructor; [cbn; lia | done].
  - apply blocks_app. split; [| split_and!]; cbn [fst snd nxt].
    + eapply kept_chain; [exact Hkept | set_solver | done].
    + unfold m'. rewrite hsize_set_size_ne by lia. apply hsize_set_size. lia.
    + unfold m'. rewrite !hptr_set_size by lia. done.
    + eapply kept_chain; [exact Hkept | set_solver | done].
  - eapply sorted_mid; [| exact Hsort]. done.
  - rewrite fmap_app, fmap_cons in *. done.
  - eapply apart_perm, Hap'. solve_Permutation.
  - rewrite !Forall_app, !Forall_cons. split_and!; try done; unfold stop; cbn [fst snd]; lia.
  - constructor; [cbn [fst snd]; split; [lia |]; apply hsize_set_size; lia |].
    rewrite Forall_forall in Hlive |- *. intros x Hx. destruct (Hlive x Hx) as [? He]. split; [done |].
    rewrite <- He. apply (kept_node _ _ x _ Hkept). set_solver.
Qed.

Lemma take_block_ok h n1 b s n2 c live nunits :
  heap_ok h (n1 ++ (b, s) :: n2) live -> c ∈ n1 ++ (b, s) :: n2 -> hptr (h_mem h) c.1 = b -> 1 <= nunits <= s ->
  exists a h' ns', take_block nunits c.1 b h = (a + 8, h') /\ heap_ok h' ns' ((a, nunits) :: live) /\
    kept (h_mem h) (h_mem h') live /\ h_brk h' = h_brk h.
Proof.
  intros Hok Hc Hp Hn. pose proof (hk_ring _ _ _ Hok) as Hr. apply blocks_app in Hr as [_ (Hsz & _ & _)]. cbn [fst snd] in Hsz.
  pose proof (hk_inside _ _ _ Hok) as Hin. rewrite Forall_app, Forall_app, Forall_cons in Hin. destruct Hin as [[_ [[Hib Hib'] _]] _].
  pose proof (hk_brk _ _ _ Hok) as Hbrk. pose proof (hk_base _ _ _ Hok). unfold stop, KERNBASE in *. cbn [fst snd] in *.
  unfold take_block. rewrite Hsz. destruct (Z.eqb_spec s nunits) as [<-|Hne].
  - destruct (take_whole h n1 b s n2 c live Hok Hc Hp) as (ns' & Hok' & Hk); [lia |].
    exists b. eexists _, ns'. split_and!; [| done | done | done]. f_equal. unfold hadd. rewrite u32_small; lia.
  - destruct (take_tail h n1 b s n2 nunits live c.1 Hok) as [Hok' Hk]; [lia | by apply list_elem_of_fmap_2 |].
    rewrite hsize_set_size by lia. unfold hadd. rewrite (u32_small (b + 8 * (s - nunits))) by lia.
    eexists _, _, _. split_and!; [| exact Hok' | exact Hk | done]. f_equal. rewrite u32_small; lia.
Qed.

(** ** Walking along the list *)

Lemma malloc_step fuel nunits prevp p h :
  malloc_loop (S fuel) nunits prevp p h =
  if nunits <=? hsize (h_mem h) p then Ok (take_block nunits prevp p h)
  else if p =? h_freep h then
    let! (p, h) := morecore nunits h in
    if p =? 0 then Ok (0, h) else malloc_loop fuel nunits p (hptr (h_mem h) p) h
  else malloc_loop fuel nunits p (hptr (h_mem h) p) h.
Proof. cbn [malloc_loop]. unfold take_block. cbv zeta. by repeat destruct (_ =? _). Qed.

(** Nodes that are too small, other than [freep], are passed. *)
Lemma malloc_walk nunits h q : forall l c fuel,
  chain (h_mem h) (c :: l) q -> Forall (fun b => b.2 < nunits /\ b.1 <> h_freep h) l ->
  exists d, (d = c \/ d ∈ l) /\ hptr (h_mem h) d.1 = q /\
    malloc_loop (length l + fuel) nunits c.1 (nxt l q) h = malloc_loop fuel nunits d.1 q h.
Proof.
  induction l as [|b l IH]; intros c fuel Hc Hl.
  - destruct Hc as (_ & Hp & _). exists c. auto.
  - destruct Hc as (_ & _ & Hc). apply Forall_cons in Hl as [[Hb Hf] Hl]. destruct (IH b fuel Hc Hl) as (d & Hd & Hp & He).
    destruct Hc as (Hsz & Hpt & _). exists d. split; [set_solver |]. split; [done |]. cbn [length Nat.add nxt]. rewrite malloc_step, Hsz.
    rewrite (proj2 (Z.leb_gt _ _)), (proj2 (Z.eqb_neq _ _) Hf), Hpt by lia. done.
Qed.

Lemma first_fit nunits (l : list chunk) :
  Forall (fun b => b.2 < nunits) l \/ exists l1 b l2, l = l1 ++ b :: l2 /\ Forall (fun b => b.2 < nunits) l1 /\ nunits <= b.2.
Proof.
  induction l as [|b l IH]; [by left |]. destruct (Z.lt_ge_cases b.2 nunits) as [Hb|Hb].
  - destruct IH as [IH|(l1 & x & l2 & -> & Hl1 & Hx)]; [left; by constructor |]. right. exists (b :: l1), x, l2.
    split; [done |]. split; [by constructor | done].
  - right. by exists [], b, l.
Qed.

(** The list as seen from one of its nodes. *)
Lemma rotate m x f y :
  chain m (x ++ f :: y) base -> nxt (x ++ f :: y) base = base -> chain m (f :: y ++ x) f.1.
Proof.
  intros [Hx (Hs & Hp & Hy)]%blocks_app Hfirst. rewrite nxt_app in Hfirst. cbn [nxt] in *.
  change (f :: y ++ x) with ((f :: y) ++ x). apply blocks_app. rewrite Hfirst. done.
Qed.

Lemma first_is_base h ns live : heap_ok h ns live -> nxt ns base = base.
Proof. intros Hok. by destruct (hk_first _ _ _ Hok) as (fl & -> & _). Qed.

(** From [freep] once around: a node is taken, or all are too small. *)
Lemma malloc_pass h ns live nunits fuel :
  heap_ok h ns live -> 1 <= nunits -> (length ns <= fuel)%nat ->
  (exists c b n1 n2, ns = n1 ++ b :: n2 /\ c ∈ ns /\ hptr (h_mem h) c.1 = b.1 /\ nunits <= b.2 /\
    malloc_loop fuel nunits (h_freep h) (hptr (h_mem h) (h_freep h)) h = Ok (take_block nunits c.1 b.1 h)) \/
  (Forall (fun b => b.2 < nunits) ns /\ exists c,
    malloc_loop fuel nunits (h_freep h) (hptr (h_mem h) (h_freep h)) h =
    malloc_loop (S (fuel - length ns)) nunits c (h_freep h) h).
Proof.
  intros Hok Hn Hf. pose proof (first_is_base _ _ _ Hok) as Hfirst. destruct Hok as [_ _ _ Hring Hsort Hfreep _ _ _].
  apply list_elem_of_fmap in Hfreep as (f & Hfe & Hin). rewrite Hfe.
  apply list_elem_of_split in Hin as (x & y & ->). pose proof (rotate _ _ _ _ Hring Hfirst) as Hc.
  assert (Hother : Forall (fun b => b.1 <> h_freep h) (y ++ x)).
  { apply sorted_app in Hsort as (_ & [_ Hy]%StronglySorted_inv & Hxf). rewrite Forall_forall in Hy. apply Forall_app.
    split; apply Forall_forall; intros b Hb; rewrite Hfe.
    - specialize (Hy b Hb). unfold below in Hy. lia.
    - specialize (Hxf b f Hb ltac:(set_solver)). lia. }
  assert (Hsame : forall b, b ∈ f :: y ++ x -> b ∈ x ++ f :: y) by set_solver.
  assert (Hlen : length (x ++ f :: y) = S (length (y ++ x))) by (rewrite !length_app; simpl; lia). rewrite Hlen in *.
  destruct (first_fit nunits (y ++ x)) as [Hsmall|(w1 & b & w2 & Hw & Hsmall & Hb)].
  - destruct (malloc_walk nunits h f.1 (y ++ x) f (fuel - length (y ++ x)) Hc) as (d & Hd & Hp & He).
    { apply Forall_and. auto. }
    pose proof Hc as (Hsz & Hpf & _). rewrite Hpf. replace (length (y ++ x) + (fuel - length (y ++ x)))%nat with fuel in He by lia.
    destruct (Z.lt_ge_cases f.2 nunits) as [Hs|Hs].
    + right. split; [rewrite Forall_app, Forall_cons; apply Forall_app in Hsmall; naive_solver |].
      exists d.1. rewrite He. f_equal. lia.
    + left. exists d, f, x, y. split_and!; try done; [apply Hsame; set_solver |].
      rewrite He. destruct (fuel - length (y ++ x))%nat as [|n] eqn:En; [lia |]. rewrite malloc_step, Hsz.
      by rewrite (proj2 (Z.leb_le _ _)) by lia.
  - left. rewrite Hw in Hc, Hother, Hlen. change (f :: w1 ++ b :: w2) with ((f :: w1) ++ b :: w2) in Hc.
    apply blocks_app in Hc as [Hc1 (Hsz & _ & _)]. cbn [nxt] in Hc1. apply Forall_app in Hother as [Ho1 _].
    destruct (malloc_walk nunits h b.1 w1 f (fuel - length w1) Hc1) as (d & Hd & Hp & He).
    { apply Forall_and. auto. }
    assert (b ∈ x ++ f :: y) as Hbin by (apply Hsame; rewrite Hw; set_solver).
    apply list_elem_of_split in Hbin as (n1 & n2 & Hsplit). exists d, b, n1, n2. split_and!; try done.
    + apply Hsame. rewrite Hw. set_solver.
    + destruct Hc1 as (_ & Hpf & _). rewrite Hpf.
      assert (length w1 < fuel)%nat by (rewrite Hw, length_app in Hf; simpl in Hf; lia).
      replace fuel with (length w1 + (fuel - length w1))%nat by lia. rewrite He.
      destruct (fuel - length w1)%nat as [|n] eqn:En; [lia |]. rewrite malloc_step, Hsz.
      by rewrite (proj2 (Z.leb_le _ _)) by lia.
Qed.

(** ** The allocator and its clients *)

(** Before the first call of [malloc] there is no list. *)
Definition heap_inv (h : heap) (live : list chunk) : Prop :=
  (h_freep h = 0 /\ live = [] /\ 0 < base /\ base + 8 <= h_brk h < KERNBASE) \/ exists ns, heap_ok h ns live.

Lemma heap_ok_first m brk :
  0 < base -> base + 8 <= brk < KERNBASE ->
  heap_ok (mkHeap (set_size (set_ptr m base base) base 0) base brk) [(base, 0)] [].
Proof.
  intros Hb Hk. unfold KERNBASE in Hk. split; cbn [h_mem h_freep h_brk].
  - done.
  - unfold KERNBASE. lia.
  - by exists [].
  - cbn [chain fst snd nxt]. split_and!; [apply hsize_set_size; lia | | done].
    rewrite hptr_set_size by lia. apply hptr_set_ptr. lia.
  - repeat constructor.
  - by left.
  - split; [apply Forall_nil_2 | done].
  - constructor; [| constructor]. unfold stop. cbn [fst snd]. lia.
  - constructor.
Qed.

Lemma units_ok nbytes : 0 <= nbytes <= 2147483632 -> 1 <= units nbytes < 268435456 /\ nbytes <= 8 * (units nbytes - 1) < nbytes + 8.
Proof.
  intros Hn. unfold units. rewrite u32_small by lia. replace (nbytes + 8 - 1) with (nbytes + 7) by lia.
  pose proof (Z.div_mod (nbytes + 7) 8 ltac:(lia)). pose proof (Z.mod_pos_bound (nbytes + 7) 8 ltac:(lia)). lia.
Qed.

Lemma freep_pos h ns live : heap_ok h ns live -> h_freep h <> 0.
Proof.
  intros Hok. pose proof (hk_base _ _ _ Hok). pose proof (hk_freep _ _ _ Hok) as Hf. apply list_elem_of_fmap in Hf as (b & -> & Hb).
  pose proof (hk_inside _ _ _ Hok) as Hin. rewrite Forall_forall in Hin. destruct (Hin b) as [? _]; [set_solver |]. lia.
Qed.

(** A block of enough units, or none when the heap cannot grow. *)
Lemma malloc_loop_ok h ns live nunits :
  heap_ok h ns live -> 1 <= nunits < 268435456 ->
  exists ap h', malloc_loop (Z.to_nat (h_brk h)) nunits (h_freep h) (hptr (h_mem h) (h_freep h)) h = Ok (ap, h') /\
    kept (h_mem h) (h_mem h') live /\
    ((ap = 0 /\ h' = h) \/ (0 < ap - 8 /\ exists ns', heap_ok h' ns' ((ap - 8, nunits) :: live))).
Proof.
  intros Hok Hn. pose proof Hok as [Hb Hbrk _ _ Hsort _ Hap Hin _]. apply apart_sub in Hap. pose proof Hin as Hin'. apply Forall_app in Hin' as [Hin' _].
  assert (Hlen : 8 * Z.of_nat (length ns) <= h_brk h - base /\ (0 < length ns)%nat).
  { destruct (hk_first _ _ _ Hok) as (fl & Hfl & _). split; [| rewrite Hfl; simpl; lia]. apply nodes_few; try done.
    rewrite Hfl in Hin. apply Forall_cons in Hin as [[? Hs] _]. unfold stop in Hs. cbn [fst snd] in Hs. lia. }
  assert (Htake : forall h1 ns1 c b n1 n2, heap_ok h1 ns1 live -> ns1 = n1 ++ b :: n2 -> c ∈ ns1 -> hptr (h_mem h1) c.1 = b.1 -> nunits <= b.2 ->
    kept (h_mem h) (h_mem h1) live -> exists ap h', take_block nunits c.1 b.1 h1 = (ap, h') /\ kept (h_mem h) (h_mem h') live /\
      ((ap = 0 /\ h' = h) \/ (0 < ap - 8 /\ exists ns', heap_ok h' ns' ((ap - 8, nunits) :: live)))).
  { intros h1 ns1 c [b s] n1 n2 Hok1 -> Hc Hp Hs Hk. cbn [fst snd] in *. destruct (take_block_ok h1 n1 b s n2 c live nunits Hok1 Hc Hp) as (a & h' & ns' & -> & Hok' & Hk' & _); [lia |].
    exists (a + 8), h'. split; [done |]. split; [by eapply kept_after |]. right. replace (a + 8 - 8) with a by lia. split; [| eauto].
    pose proof (hk_inside _ _ _ Hok') as Hi. rewrite Forall_forall in Hi. destruct (Hi (a, nunits)) as [Ha _]; [set_solver |]. cbn in Ha. lia. }
  destruct (malloc_pass h ns live nunits (Z.to_nat (h_brk h)) Hok) as [(c & b & n1 & n2 & Hsp & Hc & Hp & Hs & ->)|[Hsmall [c ->]]]; [lia | lia | |].
  - destruct (Htake h ns c b n1 n2) as (ap & h' & -> & Hr); try done. eauto.
  - rewrite malloc_step. pose proof (hk_freep _ _ _ Hok) as Hf. apply list_elem_of_fmap in Hf as (f & Hfe & Hfin).
    rewrite Forall_forall in Hsmall. pose proof (Hsmall f Hfin) as Hfs. apply list_elem_of_split in Hfin as (x & y & Hxy).
    assert (hsize (h_mem h) (h_freep h) = f.2) as ->.
    { pose proof (hk_ring _ _ _ Hok) as Hr. rewrite Hxy in Hr. apply blocks_app in Hr as [_ (Hr & _)]. by rewrite Hfe. }
    rewrite (proj2 (Z.leb_gt _ _)), Z.eqb_refl by lia.
    destruct (morecore_ok h ns live nunits Hok Hn) as [->|(h1 & ns1 & -> & Hok1 & Hk1 & Hlen1 & Hbr & b & Hbin & Hbs)]; cbn [rbind].
    { exists 0, h. split; [done |]. split; [by intros ? ? ? ? | by left]. }
    rewrite (proj2 (Z.eqb_neq _ _) (freep_pos _ _ _ Hok1)).
    destruct (malloc_pass h1 ns1 live nunits (Z.to_nat (h_brk h) - length ns) Hok1) as [(c1 & b1 & n1 & n2 & Hsp & Hc & Hp & Hs & ->)|[Hsm _]]; [lia | lia | |].
    + destruct (Htake h1 ns1 c1 b1 n1 n2) as (ap & h' & -> & Hr); try done. eauto.
    + rewrite Forall_forall in Hsm. specialize (Hsm b Hbin). lia.
Qed.

Lemma malloc_ok h live nbytes :
  heap_inv h live -> 0 <= nbytes <= 2147483632 ->
  exists ap h', malloc nbytes h = Ok (ap, h') /\ kept (h_mem h) (h_mem h') live /\
    ((ap = 0 /\ heap_inv h' live) \/ (0 < ap - 8 /\ heap_inv h' ((ap - 8, units nbytes) :: live))).
Proof.
  intros Hi Hn. destruct (units_ok nbytes Hn) as [Hu _]. unfold malloc. destruct Hi as [(Hf & -> & Hb & Hbrk)|[ns Hok]].
  - rewrite Hf. cbn [Z.eqb]. destruct (malloc_loop_ok _ _ _ (units nbytes) (heap_ok_first (h_mem h) (h_brk h) Hb Hbrk) Hu) as (ap & h' & He & Hk & Hr).
    cbn [h_freep h_brk h_mem] in *. exists ap, h'. split; [exact He |]. split; [by intros b x Hb0%elem_of_nil |].
    destruct Hr as [[-> ->]|[Ha [ns' Hok']]]; [left; split; [done |] | right; split; [done |]]; right; [| eauto].
    eexists. by apply heap_ok_first.
  - rewrite (proj2 (Z.eqb_neq _ _) (freep_pos _ _ _ Hok)). destruct (malloc_loop_ok h ns live (units nbytes) Hok Hu) as (ap & h' & -> & Hk & Hr).
    exists ap, h'. split; [done |]. split; [done |].
    destruct Hr as [[-> ->]|[Ha [ns' Hok']]]; [left | right]; (split; [done |]); right; eauto.
Qed.

Lemma heap_ok_perm h ns live live' : live ≡ₚ live' -> heap_ok h ns live -> heap_ok h ns live'.
Proof.
  intros Hp []. split; try done; try (by rewrite <- Hp). eapply apart_perm; [| eassumption]. by rewrite Hp.
Qed.

(** Writing inside a block that is in use. *)
Lemma heap_ok_write h ns live b x v :
  heap_ok h ns live -> b ∈ live -> b.1 + 8 <= x < b.1 + 8 * b.2 -> heap_ok (mkHeap (store (h_mem h) x v) (h_freep h) (h_brk h)) ns live.
Proof.
  intros [Hb Hbrk Hfirst Hring Hsort Hfreep Hap Hin Hlive] Hbl Hx.
  assert (Hsame : same_headers (h_mem h) (store (h_mem h) x v) (ns ++ live)).
  { apply Forall_forall. intros c Hc. unfold hsize, hptr. rewrite !load32_store_ne; [done | |];
    (destruct (decide (c = b)) as [->|Hne]; [lia |]);
    (assert (sep b c) as Hs; [| unfold sep, stop in Hs; lia]);
    apply list_elem_of_split in Hbl as (l1 & l2 & ->);
    (apply (apart_perm _ (b :: ns ++ l1 ++ l2)) in Hap; [| solve_Permutation]); destruct Hap as [Hs _]; rewrite Forall_forall in Hs; apply Hs; set_solver. }
  apply Forall_app in Hsame as [Hs1 Hs2]. split; cbn [h_mem h_freep h_brk]; try done.
  - by eapply blocks_frame.
  - unfold same_headers in Hs2. rewrite Forall_forall in Hlive, Hs2 |- *. intros c Hc. destruct (Hlive c Hc) as [? He]. split; [done |].
    destruct (Hs2 c Hc) as [-> _]. done.
Qed.

(** A program that allocates, frees blocks it has, and writes into them. *)
Inductive client_step : heap * list chunk -> heap * list chunk -> Prop :=
| cs_malloc nbytes h live ap h' : 0 <= nbytes <= 2147483632 -> malloc nbytes h = Ok (ap, h') ->
    client_step (h, live) (h', if ap =? 0 then live else (ap - 8, units nbytes) :: live)
| cs_free h l1 b l2 h' : free (b.1 + 8) h = Ok h' -> client_step (h, l1 ++ b :: l2) (h', l1 ++ l2)
| cs_write h live b x v : b ∈ live -> b.1 + 8 <= x < b.1 + 8 * b.2 ->
    client_step (h, live) (mkHeap (store (h_mem h) x v) (h_freep h) (h_brk h), live).

Lemma free_inv h l1 b l2 :
  heap_inv h (l1 ++ b :: l2) ->
  exists h', free (b.1 + 8) h = Ok h' /\ kept (h_mem h) (h_mem h') (l1 ++ l2) /\ heap_inv h' (l1 ++ l2).
Proof.
  intros [(_ & He & _)|[ns Hok]]; [by destruct l1 |]. destruct b as [bp n].
  apply (heap_ok_perm _ _ _ ((bp, n) :: l1 ++ l2)) in Hok; [| solve_Permutation].
  destruct (free_ok _ _ _ _ _ Hok) as (h' & ns' & Hf & Hok' & Hk & _). exists h'. split; [done |]. split; [done |]. right. eauto.
Qed.

Lemma client_inv s s' : client_step s s' -> heap_inv s.1 s.2 -> heap_inv s'.1 s'.2.
Proof.
  intros [nbytes h live ap h' Hn Hm|h l1 b l2 h' Hf|h live b x v Hb Hx] Hi; cbn [fst snd] in *.
  - destruct (malloc_ok h live nbytes Hi Hn) as (ap' & h'' & Hm' & _ & Hr). rewrite Hm in Hm'. injection Hm' as <- <-.
    destruct Hr as [[-> Hr]|[Ha Hr]]; [done |]. by rewrite (proj2 (Z.eqb_neq ap 0)) by lia.
  - destruct (free_inv h l1 b l2 Hi) as (h'' & Hf' & _ & Hr). congruence.
  - destruct Hi as [(_ & -> & _)|[ns Hok]]; [by apply elem_of_nil in Hb |]. right. exists ns. by eapply heap_ok_write.
Qed.

Lemma heap_inv_live h live :
  heap_inv h live -> apart live /\ Forall (fun b => base + 8 <= b.1 /\ b.1 + 8 * b.2 <= h_brk h) live.
Proof.
  intros [(_ & -> & _)|[ns Hok]]; [by split |]. destruct Hok as [Hb Hbrk (fl & -> & _) _ _ _ Hap Hin Hlive].
  apply Forall_app in Hin as [[[_ Hs] _]%Forall_cons Hin].
  split; [apply (apart_sub live ((base, 0) :: fl)), (apart_perm _ _ (Permutation_app_comm _ _) Hap) |].
  destruct Hap as [[_ Hsep]%Forall_app _]. rewrite Forall_forall in Hin, Hsep, Hlive |- *. intros b Hbl.
  specialize (Hin b Hbl). specialize (Hsep b Hbl). specialize (Hlive b Hbl). unfold sep, stop in *. cbn [fst snd] in *. lia.
Qed.

(** C12: a program that calls malloc and free, frees only blocks it has and
    writes only inside them, always holds disjoint blocks inside the heap.
    Every further malloc of less than 2^31 - 15 bytes terminates and returns 0
    or a block, disjoint from all others and inside the heap, with room for
    the bytes; every free of a block it has terminates; and neither changes a
    byte of another block. *)
Theorem allocator_safe m brk h live :
  0 < base -> base + 8 <= brk < KERNBASE -> rtc client_step (mkHeap m 0 brk, []) (h, live) ->
  apart live /\ Forall (fun b => base + 8 <= b.1 /\ b.1 + 8 * b.2 <= h_brk h) live /\
  (forall nbytes, 0 <= nbytes <= 2147483632 ->
    exists ap h', malloc nbytes h = Ok (ap, h') /\ kept (h_mem h) (h_mem h') live /\
      (ap = 0 \/ (base + 16 <= ap /\ ap + nbytes <= h_brk h' /\
        forall b, b ∈ live -> ap + nbytes <= b.1 \/ b.1 + 8 * b.2 <= ap - 8))) /\
  (forall l1 b l2, live = l1 ++ b :: l2 ->
    exists h', free (b.1 + 8) h = Ok h' /\ kept (h_mem h) (h_mem h') (l1 ++ l2)).
Proof.
  intros Hb Hk Hr. assert (Hi : heap_inv h live).
  { apply (rtc_invariant client_step (fun s => heap_inv s.1 s.2) _ (h, live)) in Hr; [done | | by left].
    intros s s' Hs Hst. by eapply client_inv. }
  destruct (heap_inv_live _ _ Hi) as [Hap Hin]. split_and!; [done | done | |].
  - intros nbytes Hn. destruct (malloc_ok h live nbytes Hi Hn) as (ap & h' & Hm & Hkept & Hr'). exists ap, h'.
    split; [done |]. split; [done |]. destruct Hr' as [[-> _]|[_ Hi']]; [by left | right]. destruct (units_ok nbytes Hn) as [Hu1 Hu2].
    destruct (heap_inv_live _ _ Hi') as [[Hs _] [[H1 H2] _]%Forall_cons]. cbn [fst snd] in *. split; [lia |]. split; [lia |].
    intros b Hbl. rewrite Forall_forall in Hs. specialize (Hs b Hbl). unfold sep, stop in Hs. cbn [fst snd] in Hs. lia.
  - intros l1 b l2 ->. destruct (free_inv h l1 b l2 Hi) as (h' & Hf & Hkept & _). eauto.
Qed.

End allocator.

(** ** A program *)

Definition ok_or {A} (d : A) (r : res A) : A := match r with Ok a => a | _ => d end.

Definition demo_heap0 : heap := mkHeap (fun _ => 0) 0 8192.
Definition demo_heap1 : heap := (ok_or (0, demo_heap0) (malloc 4096 (fun _ _ => true) 100 demo_heap0)).2.
Definition demo_heap2 : heap := (ok_or (0, demo_heap0) (malloc 4096 (fun _ _ => true) 24 demo_heap1)).2.
Definition demo_heap3 : heap := ok_or demo_heap0 (free (40848 + 8) demo_heap2).

(** Two blocks are taken from the end of the heap and the first is freed. *)
Lemma demo_client : rtc (client_step 4096 (fun _ _ => true)) (demo_heap0, []) (demo_heap3, [(40816, 4)]).
Proof.
  eapply rtc_l; [apply (cs_malloc _ _ 100 demo_heap0 [] 40856 demo_heap1); [lia | vm_compute; reflexivity] |].
  eapply rtc_l; [apply (cs_malloc _ _ 24 demo_heap1 _ 40824 demo_heap2); [lia | vm_compute; reflexivity] |].
  eapply rtc_l; [apply (cs_free _ _ demo_heap2 [(40816, 4)] (40848, 14) [] demo_heap3); vm_compute; reflexivity |].
  apply rtc_refl.
Qed.

Lemma allocator_safe_witness :
  apart [(40816, 4)] /\ exists ap h', malloc 4096 (fun _ _ => true) 1000 demo_heap3 = Ok (ap, h') /\
    kept (h_mem demo_heap3) (h_mem h') [(40816, 4)].
Proof.
  destruct (allocator_safe 4096 (fun _ _ => true) (fun _ => 0) 8192 demo_heap3 [(40816, 4)]) as (Ha & _ & Hm & _);
    [lia | unfold KERNBASE; lia | exact demo_client |].
  split; [exact Ha |]. destruct (Hm 1000) as (ap & h' & He & Hk & _); [lia |]. exists ap, h'. split; [exact He | exact Hk].
Defined.

(** A request of 2^32 - 1 bytes wraps around and gets a block without room. *)
Example malloc_wraps :
  units 4294967295 = 1 /\ (ok_or (0, demo_heap0) (malloc 4096 (fun _ _ => true) 4294967295 demo_heap0)).1 <> 0.
Proof. split; [reflexivity |]. vm_compute. discriminate. Qed.

(** For 2^31 bytes and more the argument of [sbrk] is negative, [sbrk] succeeds
    without growing the process, and the block lies beyond its end. *)
Example malloc_beyond_break :
  match malloc 4096 (fun _ _ => true) 2147483648 demo_heap0 with
  | Ok (ap, h) => ap = 8200 /\ h_brk h = 8192
  | _ => False
  end.
Proof. vm_compute. done. Qed.
