(* ===== verification/Jsmn.v ===== *)
(** * The JSON tokenizer (jsmn.h)

    The tokenizer that reads the specification of a container, as helpers.h
    compiles it: not strict, without parent links, and with a token array. The
    text is the list of its [len] bytes. A position of the parser is a natural
    number: [pos] is below [len] where it is used, so the [unsigned int] does
    not wrap around. [tokens] is the whole array, of which the parser has
    filled the first [toknext] elements. *)

From S2P Require Import Prelude.

Inductive jsmntype := JSMN_UNDEFINED | JSMN_OBJECT | JSMN_ARRAY | JSMN_STRING | JSMN_PRIMITIVE.

#[export] Instance jsmntype_eq_dec : EqDecision jsmntype.
Proof. solve_decision. Defined.

Definition JSMN_ERROR_NOMEM : Z := -1.
Definition JSMN_ERROR_INVAL : Z := -2.
Definition JSMN_ERROR_PART : Z := -3.

Record token := mkTok { t_type : jsmntype; t_start : Z; t_end : Z; t_size : Z }.

#[export] Instance token_eq_dec : EqDecision token.
Proof. solve_decision. Defined.

Record parser := mkParser {
  p_pos : nat;
  p_toknext : nat;
  p_toksuper : Z;
  p_tokens : list token
}.

Definition with_pos (n : nat) (p : parser) : parser := mkParser n (p_toknext p) (p_toksuper p) (p_tokens p).
Definition with_super (s : Z) (p : parser) : parser := mkParser (p_pos p) (p_toknext p) s (p_tokens p).
Definition with_tokens (ts : list token) (p : parser) : parser := mkParser (p_pos p) (p_toknext p) (p_toksuper p) ts.

Definition jsmn_init (tokens : list token) : parser := mkParser 0 0 (-1) tokens.

(** The new token, or [None] for the null pointer. *)
Definition jsmn_alloc_token (p : parser) : res (option nat * parser) :=
  if (length (p_tokens p) <=? p_toknext p)%nat then Ok (None, p)
  else
    let! t := arr_get (p_tokens p) (Z.of_nat (p_toknext p)) in
    let! ts := arr_set (p_tokens p) (Z.of_nat (p_toknext p)) (mkTok (t_type t) (-1) (-1) 0) in
    Ok (Some (p_toknext p), mkParser (p_pos p) (S (p_toknext p)) (p_toksuper p) ts).

Definition jsmn_fill_token (i : nat) (ty : jsmntype) (start stop : Z) (p : parser) : res parser :=
  let! ts := arr_set (p_tokens p) (Z.of_nat i) (mkTok ty start stop 0) in
  Ok (with_tokens ts p).

(** [js[pos]] where the loops look at it: before [len] and not NUL. *)
Definition char_at (js : list Z) (pos : nat) : option Z :=
  match js !! pos with
  | Some c => if c =? 0 then None else Some c
  | None => None
  end.

(** Characters that end a primitive: colon, white space, comma, brackets. *)
Definition ends_primitive (c : Z) : bool := existsb (Z.eqb c) [58; 9; 13; 10; 32; 44; 93; 125].

(** The loop of [jsmn_parse_primitive]: where it stops, or an error. *)
Fixpoint primitive_end (fuel : nat) (js : list Z) (pos : nat) : res (option nat) :=
  match fuel with
  | O => Hang
  | S fuel' =>
      match char_at js pos with
      | None => Ok (Some pos)
      | Some c =>
          if ends_primitive c then Ok (Some pos)
          else if (c <? 32) || (127 <=? c) then Ok None
          else primitive_end fuel' js (S pos)
      end
  end.

(** The decrement of [pos] would wrap around for an empty primitive at 0, which
    does not occur. *)
Definition jsmn_parse_primitive (js : list Z) (p : parser) : res (Z * parser) :=
  let start := p_pos p in
  let! r := primitive_end (S (length js)) js start in
  match r with
  | None => Ok (JSMN_ERROR_INVAL, with_pos start p)
  | Some pos =>
      let! (i, p) := jsmn_alloc_token (with_pos pos p) in
      match i with
      | None => Ok (JSMN_ERROR_NOMEM, with_pos start p)
      | Some i =>
          let! p := jsmn_fill_token i JSMN_PRIMITIVE (Z.of_nat start) (Z.of_nat pos) p in
          if (pos =? 0)%nat then Undef else Ok (0, with_pos (pos - 1) p)
      end
  end.

Definition is_hex (c : Z) : bool :=
  ((48 <=? c) && (c <=? 57)) || ((65 <=? c) && (c <=? 70)) || ((97 <=? c) && (c <=? 102)).

(** The four digits after [\u]: the position after them, or an error. *)
Fixpoint hex_end (n : nat) (js : list Z) (pos : nat) : option nat :=
  match n with
  | O => Some pos
  | S n' =>
      match char_at js pos with
      | None => Some pos
      | Some c => if is_hex c then hex_end n' js (S pos) else None
      end
  end.

(** The characters that may follow a backslash, other than [u]. *)
Definition is_escape (c : Z) : bool := existsb (Z.eqb c) [34; 47; 92; 98; 102; 114; 110; 116].

Inductive string_end := Quote (pos : nat) | Partial | Invalid.

(** The loop of [jsmn_parse_string] after the opening quote. *)
Fixpoint string_scan (fuel : nat) (js : list Z) (pos : nat) : res string_end :=
  match fuel with
  | O => Hang
  | S fuel' =>
      match char_at js pos with
      | None => Ok Partial
      | Some c =>
          if c =? 34 then Ok (Quote pos)
          else if (c =? 92) && (pos + 1 <? length js)%nat then
            match js !! S pos with
            | None => Undef
            | Some e =>
                if is_escape e then string_scan fuel' js (S (S pos))
                else if e =? 117 then
                  match hex_end 4 js (S (S pos)) with
                  | None => Ok Invalid
                  | Some pos' => string_scan fuel' js pos'
                  end
                else Ok Invalid
            end
          else string_scan fuel' js (S pos)
      end
  end.

Definition jsmn_parse_string (js : list Z) (p : parser) : res (Z * parser) :=
  let start := p_pos p in
  let! r := string_scan (S (length js)) js (S start) in
  match r with
  | Partial => Ok (JSMN_ERROR_PART, with_pos start p)
  | Invalid => Ok (JSMN_ERROR_INVAL, with_pos start p)
  | Quote pos =>
      let! (i, p) := jsmn_alloc_token (with_pos pos p) in
      match i with
      | None => Ok (JSMN_ERROR_NOMEM, with_pos start p)
      | Some i =>
          let! p := jsmn_fill_token i JSMN_STRING (Z.of_nat start + 1) (Z.of_nat pos) p in
          Ok (0, p)
      end
  end.

(** [tokens[i].start != -1 && tokens[i].end == -1] *)
Definition unclosed (t : token) : bool := negb (t_start t =? -1) && (t_end t =? -1).
Definition is_container (t : token) : bool := bool_decide (t_type t = JSMN_ARRAY \/ t_type t = JSMN_OBJECT).

(** The loops that search the tokens [n - 1], ..., 0. *)
Fixpoint find_back (f : token -> bool) (ts : list token) (n : nat) : res (option nat) :=
  match n with
  | O => Ok None
  | S i =>
      let! t := arr_get ts (Z.of_nat i) in
      if f t then Ok (Some i) else find_back f ts i
  end.

Definition bump_size (i : Z) (p : parser) : res parser :=
  if i =? -1 then Ok p
  else
    let! t := arr_get (p_tokens p) i in
    let! ts := arr_set (p_tokens p) i (mkTok (t_type t) (t_start t) (t_end t) (t_size t + 1)) in
    Ok (with_tokens ts p).

(** What an iteration of [jsmn_parse] does: go on, with [count], or return. *)
Inductive outcome := Next (count : Z) (p : parser) | Return (r : Z) (p : parser).

Definition open_bracket (c : Z) (count : Z) (p : parser) : res outcome :=
  let! (i, p) := jsmn_alloc_token p in
  match i with
  | None => Ok (Return JSMN_ERROR_NOMEM p)
  | Some i =>
      let! p := bump_size (p_toksuper p) p in
      let! t := arr_get (p_tokens p) (Z.of_nat i) in
      let! ts := arr_set (p_tokens p) (Z.of_nat i)
        (mkTok (if c =? 123 then JSMN_OBJECT else JSMN_ARRAY) (Z.of_nat (p_pos p)) (t_end t) (t_size t)) in
      Ok (Next (count + 1) (mkParser (p_pos p) (p_toknext p) (Z.of_nat (p_toknext p) - 1) ts))
  end.

Definition close_bracket (c : Z) (count : Z) (p : parser) : res outcome :=
  let ty := if c =? 125 then JSMN_OBJECT else JSMN_ARRAY in
  let! i := find_back unclosed (p_tokens p) (p_toknext p) in
  match i with
  | None => Ok (Return JSMN_ERROR_INVAL p)
  | Some i =>
      let! t := arr_get (p_tokens p) (Z.of_nat i) in
      if negb (bool_decide (t_type t = ty)) then Ok (Return JSMN_ERROR_INVAL p)
      else
        let! ts := arr_set (p_tokens p) (Z.of_nat i) (mkTok (t_type t) (t_start t) (Z.of_nat (p_pos p) + 1) (t_size t)) in
        let! j := find_back unclosed ts (S i) in
        Ok (Next count (mkParser (p_pos p) (p_toknext p) (from_option Z.of_nat (-1) j) ts))
  end.

Definition comma (count : Z) (p : parser) : res outcome :=
  if p_toksuper p =? -1 then Ok (Next count p)
  else
    let! t := arr_get (p_tokens p) (p_toksuper p) in
    if is_container t then Ok (Next count p)
    else
      let! j := find_back (fun t => is_container t && unclosed t) (p_tokens p) (p_toknext p) in
      Ok (Next count (with_super (from_option Z.of_nat (p_toksuper p) j) p)).

Definition scalar (parse : parser -> res (Z * parser)) (count : Z) (p : parser) : res outcome :=
  let! (r, p) := parse p in
  if r <? 0 then Ok (Return r p)
  else
    let! p := bump_size (p_toksuper p) p in
    Ok (Next (count + 1) p).

(** The [switch] on the character at [pos]. *)
Definition parse_char (js : list Z) (c : Z) (count : Z) (p : parser) : res outcome :=
  if (c =? 123) || (c =? 91) then open_bracket c count p
  else if (c =? 125) || (c =? 93) then close_bracket c count p
  else if c =? 34 then scalar (jsmn_parse_string js) count p
  else if (c =? 9) || (c =? 13) || (c =? 10) || (c =? 32) then Ok (Next count p)
  else if c =? 58 then Ok (Next count (with_super (Z.of_nat (p_toknext p) - 1) p))
  else if c =? 44 then comma count p
  else scalar (jsmn_parse_primitive js) count p.

(** The end: every object and array must be closed. *)
Definition parse_end (count : Z) (p : parser) : res (Z * parser) :=
  let! i := find_back unclosed (p_tokens p) (p_toknext p) in
  Ok (match i with Some _ => JSMN_ERROR_PART | None => count end, p).

Fixpoint parse_loop (fuel : nat) (js : list Z) (count : Z) (p : parser) : res (Z * parser) :=
  match fuel with
  | O => Hang
  | S fuel' =>
      match char_at js (p_pos p) with
      | None => parse_end count p
      | Some c =>
          let! o := parse_char js c count p in
          match o with
          | Return r p => Ok (r, p)
          | Next count p => parse_loop fuel' js count (with_pos (S (p_pos p)) p)
          end
      end
  end.

Definition jsmn_parse (js : list Z) (p : parser) : res (Z * parser) :=
  parse_loop (S (length js)) js (Z.of_nat (p_toknext p)) p.

(** ** Well-formed tokens *)

Definition closed (len : nat) (t : token) : Prop :=
  t_type t <> JSMN_UNDEFINED /\ 0 <= t_start t <= t_end t /\ t_end t <= Z.of_nat len /\ 0 <= t_size t.

Definition pending (pos : nat) (t : token) : Prop :=
  is_container t = true /\ 0 <= t_start t <= Z.of_nat pos /\ t_end t = -1 /\ 0 <= t_size t.

Definition tok_ok (len pos : nat) (t : token) : Prop := closed len t \/ pending pos t.

(** The tokens made so far. *)
Definition made (p : parser) : list token := take (p_toknext p) (p_tokens p).

(** They are inside the text, and the links of the parser inside the array. *)
Record parser_ok (js : list Z) (p : parser) : Prop := {
  po_next : (p_toknext p <= length (p_tokens p))%nat;
  po_super : -1 <= p_toksuper p < Z.of_nat (p_toknext p);
  po_tokens : Forall (tok_ok (length js) (p_pos p)) (made p)
}.

Lemma closed_not_open len t : closed len t -> unclosed t = false.
Proof. intros (_ & Hs & He & _). unfold unclosed. bool_cases; simpl; try reflexivity; lia. Qed.

Lemma pending_open pos t : pending pos t -> unclosed t = true.
Proof. intros (_ & Hs & He & _). unfold unclosed. bool_cases; simpl; try reflexivity; lia. Qed.

(** *** The last token with a property *)

Fixpoint last_such (f : token -> bool) (l : list token) : option nat :=
  match l with
  | [] => None
  | t :: l' => match last_such f l' with Some i => Some (S i) | None => if f t then Some 0%nat else None end
  end.

Lemma last_such_app f l1 l2 :
  last_such f (l1 ++ l2) = match last_such f l2 with Some i => Some (length l1 + i)%nat | None => last_such f l1 end.
Proof. induction l1 as [|t l1 IH]; simpl; [by destruct (last_such f l2) |]. rewrite IH. by destruct (last_such f l2). Qed.

Lemma last_such_none f l : last_such f l = None <-> Forall (fun t => f t = false) l.
Proof.
  induction l as [|t l IH]; simpl; [split; [constructor | reflexivity] |]. rewrite Forall_cons, <- IH.
  destruct (last_such f l), (f t); naive_solver.
Qed.

Lemma last_such_some f l i : last_such f l = Some i -> exists l1 t l2, l = l1 ++ t :: l2 /\ i = length l1 /\ f t = true /\ last_such f l2 = None.
Proof.
  revert i. induction l as [|t l IH]; intros i; simpl; [discriminate |].
  destruct (last_such f l) as [j|] eqn:Hl.
  - intros [= <-]. destruct (IH j eq_refl) as (l1 & x & l2 & -> & -> & Hx & Hn). by exists (t :: l1), x, l2.
  - destruct (f t) eqn:Hf; [| discriminate]. intros [= <-]. by exists [], t, l.
Qed.

Lemma find_back_eq f ts : forall n, (n <= length ts)%nat -> find_back f ts n = Ok (last_such f (take n ts)).
Proof.
  induction n as [|n IH]; intros Hn; cbn [find_back]; [by destruct ts |].
  destruct (lookup_lt_is_Some_2 ts n) as [t Ht]; [lia |]. rewrite (arr_get_nat _ _ t) by exact Ht. cbn [rbind].
  rewrite IH, (take_S_r _ _ t), last_such_app by (exact Ht || lia). simpl. rewrite length_take, Nat.min_l by lia.
  destruct (f t); [| reflexivity]. by rewrite Nat.add_0_r.
Qed.

(** *** What the operations do to the tokens made *)

Definition grown_size (t : token) : token := mkTok (t_type t) (t_start t) (t_end t) (t_size t + 1).
Definition bump (s : Z) (l : list token) : list token := if s =? -1 then l else alter grown_size (Z.to_nat s) l.

Lemma grown_ok len pos t : tok_ok len pos t -> tok_ok len pos (grown_size t).
Proof. intros [(? & ? & ? & ?)|(? & ? & ? & ?)]; [left | right]; (split_and!; try assumption; cbn; lia). Qed.

Lemma take_alter {A} (f : A -> A) i (l : list A) : forall n, (i < n)%nat -> take n (alter f i l) = alter f i (take n l).
Proof.
  revert i. induction l as [|x l IH]; intros i [|n] Hn; [done | by destruct i | lia |]. destruct i as [|i]; [reflexivity |].
  cbn [take]. change (alter f (S i) (x :: l)) with (x :: alter f i l). cbn [take]. rewrite IH by lia. reflexivity.
Qed.

(** Growing the size of the token above leaves the rest alone. *)
Lemma bump_size_spec p s :
  (p_toknext p <= length (p_tokens p))%nat -> -1 <= s < Z.of_nat (p_toknext p) ->
  exists ts, bump_size s p = Ok (with_tokens ts p) /\ length ts = length (p_tokens p) /\ take (p_toknext p) ts = bump s (made p) /\
    forall i, Z.of_nat i <> s -> ts !! i = p_tokens p !! i.
Proof.
  intros Hl Hs. unfold bump_size, bump. destruct (Z.eqb_spec s (-1)) as [->|Hne]; [exists (p_tokens p); by destruct p |].
  destruct (lookup_lt_is_Some_2 (p_tokens p) (Z.to_nat s)) as [t Ht]; [lia |]. exists (alter grown_size (Z.to_nat s) (p_tokens p)).
  split; [| split_and!].
  - replace s with (Z.of_nat (Z.to_nat s)) by lia. rewrite (arr_get_nat _ _ t) by exact Ht. cbn [rbind].
    rewrite arr_set_nat by lia. cbn [rbind]. rewrite Nat2Z.id. by rewrite (list_alter_lookup_insert _ _ _ t).
  - apply length_alter.
  - apply take_alter. lia.
  - intros i Hi. apply list_lookup_alter_ne. lia.
Qed.

Lemma alloc_spec p :
  (p_toknext p <= length (p_tokens p))%nat ->
  (p_toknext p = length (p_tokens p) /\ jsmn_alloc_token p = Ok (None, p)) \/
  (exists ty, (p_toknext p < length (p_tokens p))%nat /\
    jsmn_alloc_token p = Ok (Some (p_toknext p),
      mkParser (p_pos p) (S (p_toknext p)) (p_toksuper p) (<[p_toknext p := mkTok ty (-1) (-1) 0]> (p_tokens p)))).
Proof.
  intros Hl. unfold jsmn_alloc_token. destruct (Nat.leb_spec (length (p_tokens p)) (p_toknext p)) as [Hle|Hlt]; [left; split; [lia | done] |].
  right. destruct (lookup_lt_is_Some_2 (p_tokens p) (p_toknext p)) as [t Ht]; [lia |]. exists (t_type t). split; [lia |].
  rewrite (arr_get_nat _ _ t) by exact Ht. cbn [rbind]. rewrite arr_set_nat by lia. reflexivity.
Qed.

Lemma take_insert_snoc {A} (l : list A) n x : (n < length l)%nat -> take (S n) (<[n := x]> l) = take n l ++ [x].
Proof.
  intros Hn. rewrite (take_S_r _ _ x) by (by apply list_lookup_insert_eq). by rewrite take_insert_ge by lia.
Qed.

(** [p'] has one token more than [p], which counts for the one above. *)
Definition pushed (p p' : parser) (tok : token) : Prop :=
  p_toknext p' = S (p_toknext p) /\ length (p_tokens p') = length (p_tokens p) /\
  made p' = bump (p_toksuper p) (made p) ++ [tok].

Lemma made_length p : (p_toknext p <= length (p_tokens p))%nat -> length (made p) = p_toknext p.
Proof. intros H. unfold made. rewrite length_take. lia. Qed.

Lemma bump_snoc s l t : -1 <= s < Z.of_nat (length l) -> bump s (l ++ [t]) = bump s l ++ [t].
Proof. intros Hs. unfold bump. destruct (Z.eqb_spec s (-1)); [reflexivity |]. apply alter_app_l. lia. Qed.

Lemma bump_length s l : length (bump s l) = length l.
Proof. unfold bump. destruct (s =? -1); [reflexivity | apply length_alter]. Qed.

(** Filling the next token and counting it. *)
Lemma push_bump p pos tok :
  (p_toknext p < length (p_tokens p))%nat -> -1 <= p_toksuper p < Z.of_nat (p_toknext p) ->
  exists p', bump_size (p_toksuper p) (mkParser pos (S (p_toknext p)) (p_toksuper p) (<[p_toknext p := tok]> (p_tokens p))) = Ok p' /\
    pushed p p' tok /\ p_pos p' = pos /\ p_toksuper p' = p_toksuper p /\ p_tokens p' !! p_toknext p = Some tok.
Proof.
  intros Hn Hs. destruct (bump_size_spec (mkParser pos (S (p_toknext p)) (p_toksuper p) (<[p_toknext p := tok]> (p_tokens p))) (p_toksuper p))
    as (ts & He & Hl & Ht & Hi); cbn [p_toknext p_tokens]; rewrite ?length_insert; [lia | lia |].
  cbn [p_toknext p_tokens p_toksuper with_tokens] in *. rewrite length_insert in Hl. unfold made in Ht. cbn [p_toknext p_tokens] in Ht.
  rewrite take_insert_snoc, bump_snoc in Ht by (rewrite ?length_take; lia).
  eexists. split; [exact He |]. split; [split; [reflexivity | split; [exact Hl | exact Ht]] |].
  cbn [p_tokens with_tokens]. split; [reflexivity |]. split; [reflexivity |]. rewrite Hi by lia. by apply list_lookup_insert_eq.
Qed.

Lemma string_spec js p pos' :
  string_scan (S (length js)) js (S (p_pos p)) = Ok (Quote pos') ->
  (p_toknext p <= length (p_tokens p))%nat -> -1 <= p_toksuper p < Z.of_nat (p_toknext p) ->
  (p_toknext p = length (p_tokens p) /\ scalar (jsmn_parse_string js) (Z.of_nat (p_toknext p)) p = Ok (Return JSMN_ERROR_NOMEM p)) \/
  (exists p', scalar (jsmn_parse_string js) (Z.of_nat (p_toknext p)) p = Ok (Next (Z.of_nat (p_toknext p')) p') /\
    pushed p p' (mkTok JSMN_STRING (Z.of_nat (p_pos p) + 1) (Z.of_nat pos') 0) /\ p_pos p' = pos' /\ p_toksuper p' = p_toksuper p).
Proof.
  intros Hscan Hn Hs. unfold scalar, jsmn_parse_string. rewrite Hscan. cbn [rbind].
  destruct (alloc_spec (with_pos pos' p) Hn) as [[Hfull ->]|(ty & Hlt & ->)]; cbn [rbind].
  - left. split; [exact Hfull |]. by destruct p.
  - right. cbn [with_pos p_toknext p_tokens p_toksuper p_pos] in *. unfold jsmn_fill_token. cbn [p_tokens].
    rewrite arr_set_nat, list_insert_insert_eq by (by rewrite length_insert). cbn [rbind with_tokens p_pos p_toknext p_toksuper].
    change (0 <? 0) with false. cbv iota. unfold with_tokens. cbn [p_pos p_toknext p_toksuper].
    destruct (push_bump p pos' (mkTok JSMN_STRING (Z.of_nat (p_pos p) + 1) (Z.of_nat pos') 0) Hlt Hs) as (p' & -> & Hp & Hpos & Hsup & _).
    cbn [rbind]. exists p'. pose proof (proj1 Hp) as Hnx. rewrite Hnx. split_and!; try assumption. do 2 f_equal. lia.
Qed.

Lemma primitive_spec js p pos' :
  primitive_end (S (length js)) js (p_pos p) = Ok (Some pos') -> (0 < pos')%nat ->
  (p_toknext p <= length (p_tokens p))%nat -> -1 <= p_toksuper p < Z.of_nat (p_toknext p) ->
  (p_toknext p = length (p_tokens p) /\ scalar (jsmn_parse_primitive js) (Z.of_nat (p_toknext p)) p = Ok (Return JSMN_ERROR_NOMEM p)) \/
  (exists p', scalar (jsmn_parse_primitive js) (Z.of_nat (p_toknext p)) p = Ok (Next (Z.of_nat (p_toknext p')) p') /\
    pushed p p' (mkTok JSMN_PRIMITIVE (Z.of_nat (p_pos p)) (Z.of_nat pos') 0) /\ p_pos p' = (pos' - 1)%nat /\ p_toksuper p' = p_toksuper p).
Proof.
  intros Hend H0 Hn Hs. unfold scalar, jsmn_parse_primitive. rewrite Hend. cbn [rbind].
  destruct (alloc_spec (with_pos pos' p) Hn) as [[Hfull ->]|(ty & Hlt & ->)]; cbn [rbind].
  - left. split; [exact Hfull |]. by destruct p.
  - right. cbn [with_pos p_toknext p_tokens p_toksuper p_pos] in *. unfold jsmn_fill_token. cbn [p_tokens].
    rewrite arr_set_nat, list_insert_insert_eq by (by rewrite length_insert). cbn [rbind with_tokens p_pos p_toknext p_toksuper].
    rewrite (proj2 (Nat.eqb_neq pos' 0)) by lia. cbn [rbind]. change (0 <? 0) with false. cbv iota.
    destruct (push_bump p (pos' - 1) (mkTok JSMN_PRIMITIVE (Z.of_nat (p_pos p)) (Z.of_nat pos') 0) Hlt Hs) as (p' & He & Hp & Hpos & Hsup & _).
    unfold with_tokens, with_pos. cbn [p_pos p_toknext p_toksuper p_tokens]. rewrite He.
    cbn [rbind]. exists p'. pose proof (proj1 Hp) as Hnx. rewrite Hnx. split_and!; try assumption. do 2 f_equal. lia.
Qed.

Lemma open_spec c p :
  (p_toknext p <= length (p_tokens p))%nat -> -1 <= p_toksuper p < Z.of_nat (p_toknext p) ->
  (p_toknext p = length (p_tokens p) /\ open_bracket c (Z.of_nat (p_toknext p)) p = Ok (Return JSMN_ERROR_NOMEM p)) \/
  (exists p', open_bracket c (Z.of_nat (p_toknext p)) p = Ok (Next (Z.of_nat (p_toknext p')) p') /\
    pushed p p' (mkTok (if c =? 123 then JSMN_OBJECT else JSMN_ARRAY) (Z.of_nat (p_pos p)) (-1) 0) /\ p_pos p' = p_pos p /\
    p_toksuper p' = Z.of_nat (p_toknext p)).
Proof.
  intros Hn Hs. unfold open_bracket. destruct (alloc_spec p Hn) as [[Hfull ->]|(ty & Hlt & ->)]; cbn [rbind].
  - by left.
  - right. cbn [p_toksuper]. destruct (push_bump p (p_pos p) (mkTok ty (-1) (-1) 0) Hlt Hs) as (p1 & -> & (Hn1 & Hl1 & Hm1) & Hp1 & Hs1 & Ht1).
    cbn [rbind]. rewrite (arr_get_nat _ _ _ Ht1). cbn [rbind t_end t_size]. rewrite arr_set_nat by lia. cbn [rbind].
    eexists. split; [f_equal; f_equal; cbn [p_toknext]; rewrite Hn1; lia |]. cbn [p_pos p_toksuper].
    split_and!; [| exact Hp1 | rewrite Hn1; lia]. unfold pushed. cbn [p_toknext p_tokens]. split; [exact Hn1 |].
    split; [by rewrite length_insert |]. unfold made in Hm1 |- *. cbn [p_toknext p_tokens]. rewrite Hn1 in Hm1 |- *.
    rewrite take_insert_snoc by lia. rewrite (take_S_r _ _ (mkTok ty (-1) (-1) 0)) in Hm1 by exact Ht1.
    apply app_inj_2 in Hm1 as [-> _]; [| reflexivity]. by rewrite Hp1.
Qed.

Definition end_at (pos : nat) (t : token) : token := mkTok (t_type t) (t_start t) (Z.of_nat pos + 1) (t_size t).

Lemma made_insert p d1 t d2 t' :
  made p = d1 ++ t :: d2 -> take (p_toknext p) (<[length d1 := t']> (p_tokens p)) = d1 ++ t' :: d2.
Proof.
  intros Hm. unfold made in Hm. rewrite take_insert_lt.
  - rewrite Hm, insert_app_r_alt by lia. by rewrite Nat.sub_diag.
  - assert (length (take (p_toknext p) (p_tokens p)) = length (d1 ++ t :: d2)) as Hl by (by rewrite Hm).
    rewrite length_take, length_app in Hl. simpl in Hl. lia.
Qed.

Lemma close_spec c count p d1 t d2 :
  (p_toknext p <= length (p_tokens p))%nat -> made p = d1 ++ t :: d2 -> unclosed t = true -> last_such unclosed d2 = None ->
  (t_type t <> (if c =? 125 then JSMN_OBJECT else JSMN_ARRAY) /\ close_bracket c count p = Ok (Return JSMN_ERROR_INVAL p)) \/
  (t_type t = (if c =? 125 then JSMN_OBJECT else JSMN_ARRAY) /\
   exists p', close_bracket c count p = Ok (Next count p') /\ p_toknext p' = p_toknext p /\ length (p_tokens p') = length (p_tokens p) /\
     p_pos p' = p_pos p /\ made p' = d1 ++ end_at (p_pos p) t :: d2 /\
     p_toksuper p' = from_option Z.of_nat (-1) (last_such unclosed d1)).
Proof.
  intros Hn Hm Ho Hd2. unfold close_bracket. rewrite find_back_eq by exact Hn. cbn [rbind]. unfold made in Hm. rewrite Hm.
  rewrite last_such_app. cbn [last_such]. rewrite Hd2, Ho. rewrite Nat.add_0_r. fold (made p) in Hm.
  assert (Hlen : (length d1 < p_toknext p)%nat).
  { pose proof (made_length p Hn) as Hl. rewrite Hm, length_app in Hl. simpl in Hl. lia. }
  assert (Ht : p_tokens p !! length d1 = Some t).
  { rewrite <- (lookup_take_lt _ (p_toknext p)) by lia. fold (made p). rewrite Hm. by rewrite lookup_app_r, Nat.sub_diag by lia. }
  rewrite (arr_get_nat _ _ _ Ht). cbn [rbind]. set (ty := if c =? 125 then _ else _).
  destruct (decide (t_type t = ty)) as [Hty|Hty].
  - right. split; [exact Hty |]. rewrite bool_decide_true by exact Hty. cbn [negb]. rewrite arr_set_nat by lia. cbn [rbind].
    change (mkTok (t_type t) (t_start t) (Z.of_nat (p_pos p) + 1) (t_size t)) with (end_at (p_pos p) t).
    rewrite find_back_eq by (rewrite length_insert; lia). cbn [rbind]. eexists. split; [reflexivity |].
    cbn [p_toknext p_tokens p_pos p_toksuper]. rewrite length_insert. unfold made. cbn [p_toknext p_tokens].
    rewrite (made_insert p d1 t d2) by exact Hm. split_and!; try reflexivity.
    rewrite take_insert_snoc by lia. rewrite last_such_app. cbn [last_such].
    replace (unclosed (end_at (p_pos p) t)) with false.
    + replace (take (length d1) (p_tokens p)) with d1; [reflexivity |].
      transitivity (take (length d1) (made p)); [by rewrite Hm, take_app_length | unfold made; rewrite take_take; f_equal; lia].
    + unfold unclosed, end_at. cbn [t_start t_end]. rewrite (proj2 (Z.eqb_neq (Z.of_nat (p_pos p) + 1) (-1))) by lia. by rewrite andb_false_r.
  - left. split; [exact Hty |]. by rewrite bool_decide_false by exact Hty.
Qed.

Lemma close_none c count p :
  (p_toknext p <= length (p_tokens p))%nat -> last_such unclosed (made p) = None -> close_bracket c count p = Ok (Return JSMN_ERROR_INVAL p).
Proof. intros Hn Hl. unfold close_bracket. rewrite find_back_eq by exact Hn. cbn [rbind]. fold (made p). by rewrite Hl. Qed.

Definition open_container (t : token) : bool := is_container t && unclosed t.

Lemma comma_spec count p :
  (p_toknext p <= length (p_tokens p))%nat -> -1 <= p_toksuper p < Z.of_nat (p_toknext p) ->
  comma count p = Ok (Next count (with_super
    (if p_toksuper p =? -1 then p_toksuper p
     else if from_option is_container true (made p !! Z.to_nat (p_toksuper p)) then p_toksuper p
     else from_option Z.of_nat (p_toksuper p) (last_such open_container (made p))) p)).
Proof.
  intros Hn Hs. unfold comma. destruct (Z.eqb_spec (p_toksuper p) (-1)) as [He|Hne]; [by destruct p |].
  destruct (lookup_lt_is_Some_2 (p_tokens p) (Z.to_nat (p_toksuper p))) as [t Ht]; [lia |].
  unfold made. rewrite lookup_take_lt, Ht by lia. rewrite (proj2 (arr_get_Ok _ _ t)) by (split; [lia | exact Ht]). cbn [rbind from_option].
  destruct (is_container t); [by destruct p |]. rewrite find_back_eq by exact Hn. cbn [rbind]. reflexivity.
Qed.

(** *** The scans stay in the text *)

Lemma char_at_lt js pos c : char_at js pos = Some c -> (pos < length js)%nat /\ js !! pos = Some c /\ c <> 0.
Proof.
  unfold char_at. destruct (js !! pos) as [x|] eqn:Hx; [| discriminate]. apply lookup_lt_Some in Hx as Hl.
  destruct (Z.eqb_spec x 0); [discriminate |]. by intros [= ->].
Qed.

Lemma primitive_end_total js : forall fuel pos, (pos <= length js)%nat -> (length js - pos < fuel)%nat ->
  exists r, primitive_end fuel js pos = Ok r /\ forall pos', r = Some pos' -> (pos <= pos' <= length js)%nat.
Proof.
  induction fuel as [|fuel IH]; intros pos Hp Hf; [lia |]. cbn [primitive_end].
  destruct (char_at js pos) as [c|] eqn:Hc; [| exists (Some pos); split; [reflexivity |]; intros ? [= <-]; lia].
  apply char_at_lt in Hc as (Hlt & _ & _). destruct (ends_primitive c); [exists (Some pos); split; [reflexivity |]; intros ? [= <-]; lia |].
  destruct ((c <? 32) || (127 <=? c)); [by exists None |]. destruct (IH (S pos)) as (r & He & Hr); [lia | lia |].
  exists r. split; [exact He |]. intros pos' Hpos. specialize (Hr pos' Hpos). lia.
Qed.

Lemma hex_end_range js n : forall pos pos', (pos <= length js)%nat -> hex_end n js pos = Some pos' -> (pos <= pos' <= length js)%nat.
Proof.
  induction n as [|n IH]; intros pos pos' Hp; cbn [hex_end]; [intros [= <-]; lia |].
  destruct (char_at js pos) as [c|] eqn:Hc; [| intros [= <-]; lia]. apply char_at_lt in Hc as (Hlt & _ & _).
  destruct (is_hex c); [| discriminate]. intros H. apply IH in H; lia.
Qed.

Lemma string_scan_total js : forall fuel pos, (pos <= length js)%nat -> (length js - pos < fuel)%nat ->
  exists r, string_scan fuel js pos = Ok r /\ forall pos', r = Quote pos' -> (pos <= pos' < length js)%nat.
Proof.
  induction fuel as [|fuel IH]; intros pos Hp Hf; [lia |]. cbn [string_scan].
  destruct (char_at js pos) as [c|] eqn:Hc; [| by exists Partial]. apply char_at_lt in Hc as (Hlt & _ & _).
  destruct (c =? 34); [exists (Quote pos); split; [reflexivity |]; intros ? [= <-]; lia |].
  assert (Hgo : forall pos1, (pos < pos1 <= length js)%nat ->
    exists r, string_scan fuel js pos1 = Ok r /\ forall pos', r = Quote pos' -> (pos <= pos' < length js)%nat).
  { intros pos1 H1. destruct (IH pos1) as (r & He & Hr); [lia | lia |]. exists r. split; [exact He |]. intros pos' Hq. specialize (Hr pos' Hq). lia. }
  destruct (c =? 92); cbn [andb]; [| apply Hgo; lia]. destruct (Nat.ltb_spec (pos + 1) (length js)); [| apply Hgo; lia].
  destruct (lookup_lt_is_Some_2 js (S pos)) as [e ->]; [lia |]. destruct (is_escape e); [apply Hgo; lia |].
  destruct (e =? 117); [| by exists Invalid]. destruct (hex_end 4 js (S (S pos))) as [pos1|] eqn:Hh; [| by exists Invalid].
  apply hex_end_range in Hh; [| lia]. apply Hgo. lia.
Qed.

(** *** Every character is handled *)

Lemma tok_ok_mono len pos pos' t : (pos <= pos')%nat -> tok_ok len pos t -> tok_ok len pos' t.
Proof. intros Hp [H|(? & ? & ? & ?)]; [by left | right]. split_and!; try assumption; lia. Qed.

Lemma bump_ok len pos s l : Forall (tok_ok len pos) l -> Forall (tok_ok len pos) (bump s l).
Proof.
  intros Hl. unfold bump. destruct (s =? -1); [exact Hl |]. apply Forall_alter; [exact Hl |]. intros t _. apply grown_ok.
Qed.

Lemma pushed_ok js p p' tok :
  parser_ok js p -> pushed p p' tok -> (p_pos p <= p_pos p')%nat -> tok_ok (length js) (p_pos p') tok -> -1 <= p_toksuper p' < Z.of_nat (p_toknext p') -> parser_ok js p'.
Proof.
  intros [Hn Hs Ht] (Hn' & Hl & Hm) Hpos Htok Hs'. split; [| exact Hs' |].
  - assert (length (made p') = S (p_toknext p)) as Hlen.
    { rewrite Hm, length_app, bump_length, made_length by exact Hn. simpl. lia. }
    unfold made in Hlen. rewrite length_take, Hn' in Hlen. lia.
  - rewrite Hm. apply Forall_app. split; [| by constructor]. apply bump_ok. eapply Forall_impl; [exact Ht |].
    intros t. by apply tok_ok_mono.
Qed.

Definition is_error (r : Z) : Prop := r = JSMN_ERROR_NOMEM \/ r = JSMN_ERROR_INVAL \/ r = JSMN_ERROR_PART.

Definition step_ok (js : list Z) (p : parser) (o : outcome) : Prop :=
  match o with
  | Return r p' => is_error r /\ parser_ok js p'
  | Next count p' => count = Z.of_nat (p_toknext p') /\ parser_ok js p' /\ (p_pos p <= p_pos p' < length js)%nat
  end.

Lemma open_ok js c p :
  parser_ok js p -> (p_pos p < length js)%nat -> exists o, open_bracket c (Z.of_nat (p_toknext p)) p = Ok o /\ step_ok js p o.
Proof.
  intros Hok Hpos. pose proof Hok as [Hn Hs _].
  destruct (open_spec c p Hn Hs) as [[_ ->]|(p' & -> & Hp & Hpp & Hsup)]; eexists; (split; [reflexivity |]).
  - split; [by left | exact Hok].
  - split; [reflexivity |]. rewrite Hpp. split; [| lia]. eapply pushed_ok; [exact Hok | exact Hp | lia | | rewrite Hsup, (proj1 Hp); lia].
    rewrite Hpp. right. split_and!; cbn; try lia. unfold is_container. cbn. apply bool_decide_eq_true. destruct (c =? 123); auto.
Qed.

Lemma close_ok js c p :
  parser_ok js p -> (p_pos p < length js)%nat -> exists o, close_bracket c (Z.of_nat (p_toknext p)) p = Ok o /\ step_ok js p o.
Proof.
  intros Hok Hpos. pose proof Hok as [Hn Hs Ht]. destruct (last_such unclosed (made p)) as [i|] eqn:Hl.
  - apply last_such_some in Hl as (d1 & t & d2 & Hm & -> & Ho & Hd2).
    destruct (close_spec c (Z.of_nat (p_toknext p)) p d1 t d2 Hn Hm Ho Hd2) as [[_ ->]|(Hty & p' & -> & Hn' & Hl' & Hp' & Hm' & Hs')];
      eexists; (split; [reflexivity |]); [split; [right; by left | exact Hok] |].
    split; [by rewrite Hn' |]. rewrite Hp'. split; [| lia]. rewrite Hm in Ht. apply Forall_app in Ht as [Ht1 [Htt Ht2]%Forall_cons].
    pose proof (made_length p Hn) as Hlen. rewrite Hm, length_app in Hlen. simpl in Hlen. split.
    + lia.
    + rewrite Hs', Hn'. destruct (last_such unclosed d1) as [j|] eqn:Hj; cbn [from_option]; [| lia].
      apply last_such_some in Hj as (e1 & ? & e2 & -> & -> & _). rewrite length_app in Hlen. simpl in Hlen. lia.
    + rewrite Hm', Hp'. apply Forall_app. split; [exact Ht1 |]. constructor; [| exact Ht2]. left.
      destruct Htt as [Hcl|(Hc & Hst & He & Hsz)]; [by rewrite (closed_not_open _ _ Hcl) in Ho |].
      split_and!; cbn; try lia. unfold is_container in Hc. apply bool_decide_eq_true in Hc. destruct Hc as [-> | ->]; discriminate.
  - rewrite (close_none c _ p Hn Hl). eexists. split; [reflexivity |]. split; [right; by left | exact Hok].
Qed.

Lemma with_pos_same p : with_pos (p_pos p) p = p.
Proof. by destruct p. Qed.

Lemma scalar_ok js parse p tok :
  parser_ok js p ->
  (p_toknext p = length (p_tokens p) /\ scalar parse (Z.of_nat (p_toknext p)) p = Ok (Return JSMN_ERROR_NOMEM p)) \/
  (exists p', scalar parse (Z.of_nat (p_toknext p)) p = Ok (Next (Z.of_nat (p_toknext p')) p') /\ pushed p p' tok /\
    (p_pos p <= p_pos p' < length js)%nat /\ p_toksuper p' = p_toksuper p) -> closed (length js) tok ->
  exists o, scalar parse (Z.of_nat (p_toknext p)) p = Ok o /\ step_ok js p o.
Proof.
  intros Hok H Htok. destruct H as [[_ ->]|(p' & -> & Hp & Hpos & Hs)]; eexists; (split; [reflexivity |]).
  - split; [by left | exact Hok].
  - split; [reflexivity |]. split; [| exact Hpos]. eapply pushed_ok; [exact Hok | exact Hp | lia | by left |].
    pose proof (po_super _ _ Hok). rewrite Hs, (proj1 Hp). lia.
Qed.

Lemma string_ok js p :
  parser_ok js p -> (p_pos p < length js)%nat ->
  exists o, scalar (jsmn_parse_string js) (Z.of_nat (p_toknext p)) p = Ok o /\ step_ok js p o.
Proof.
  intros Hok Hpos. destruct (string_scan_total js (S (length js)) (S (p_pos p))) as (r & Hr & Hq); [lia | lia |].
  destruct r as [pos'| |].
  - specialize (Hq pos' eq_refl). eapply scalar_ok; [exact Hok | |].
    + destruct (string_spec js p pos' Hr (po_next _ _ Hok) (po_super _ _ Hok)) as [H|(p' & Hsc & Hpu & Hp' & Hsu)]; [left; exact H | right; exists p'].
      rewrite Hp'. split; [exact Hsc |]. split; [exact Hpu |]. split; [lia | exact Hsu].
    + split_and!; cbn; [discriminate | lia ..].
  - unfold scalar, jsmn_parse_string. rewrite Hr. cbn [rbind]. rewrite with_pos_same. eexists. split; [reflexivity |].
    split; [right; by right | exact Hok].
  - unfold scalar, jsmn_parse_string. rewrite Hr. cbn [rbind]. rewrite with_pos_same. eexists. split; [reflexivity |].
    split; [right; by left | exact Hok].
Qed.

Lemma primitive_ok js p c :
  parser_ok js p -> char_at js (p_pos p) = Some c -> ends_primitive c = false ->
  exists o, scalar (jsmn_parse_primitive js) (Z.of_nat (p_toknext p)) p = Ok o /\ step_ok js p o.
Proof.
  intros Hok Hc He. destruct (char_at_lt _ _ _ Hc) as (Hpos & _ & _).
  assert (exists r, primitive_end (S (length js)) js (p_pos p) = Ok r /\ forall pos', r = Some pos' -> (p_pos p < pos' <= length js)%nat) as (r & Hr & Hq).
  { cbn [primitive_end]. rewrite Hc, He. destruct ((c <? 32) || (127 <=? c)); [by exists None |].
    destruct (primitive_end_total js (length js) (S (p_pos p))) as (r & Hr & Hq); [lia | lia |]. exists r. split; [exact Hr |].
    intros pos' Hp. specialize (Hq pos' Hp). lia. }
  destruct r as [pos'|].
  - specialize (Hq pos' eq_refl). eapply scalar_ok; [exact Hok | |].
    + destruct (primitive_spec js p pos' Hr ltac:(lia) (po_next _ _ Hok) (po_super _ _ Hok)) as [H|(p' & Hsc & Hpu & Hp' & Hsu)]; [left; exact H | right; exists p'].
      rewrite Hp'. split; [exact Hsc |]. split; [exact Hpu |]. split; [lia | exact Hsu].
    + split_and!; cbn; [discriminate | lia ..].
  - unfold scalar, jsmn_parse_primitive. rewrite Hr. cbn [rbind]. rewrite with_pos_same. eexists. split; [reflexivity |].
    split; [right; by left | exact Hok].
Qed.

Lemma parse_char_ok js c p :
  parser_ok js p -> char_at js (p_pos p) = Some c -> exists o, parse_char js c (Z.of_nat (p_toknext p)) p = Ok o /\ step_ok js p o.
Proof.
  intros Hok Hc. destruct (char_at_lt _ _ _ Hc) as (Hpos & _ & _). pose proof Hok as [Hn Hs Ht].
  assert (Hsup : forall s, -1 <= s < Z.of_nat (p_toknext p) -> step_ok js p (Next (Z.of_nat (p_toknext p)) (with_super s p))).
  { intros s Hs'. split; [reflexivity |]. split; [by split | cbn; lia]. }
  unfold parse_char. destruct ((c =? 123) || (c =? 91)) eqn:E1; [by apply open_ok |].
  destruct ((c =? 125) || (c =? 93)) eqn:E2; [by apply close_ok |]. destruct (c =? 34) eqn:E3; [by apply string_ok |].
  destruct ((c =? 9) || (c =? 13) || (c =? 10) || (c =? 32)) eqn:E4.
  { eexists. split; [reflexivity |]. destruct p. by apply (Hsup p_toksuper0). }
  destruct (c =? 58) eqn:E5; [eexists; split; [reflexivity |]; apply Hsup; lia |].
  destruct (c =? 44) eqn:E6.
  - rewrite comma_spec by assumption. eexists. split; [reflexivity |]. apply Hsup.
    destruct (p_toksuper p =? -1); [exact Hs |]. destruct (from_option is_container true _); [exact Hs |].
    destruct (last_such open_container (made p)) as [j|] eqn:Hj; cbn [from_option]; [| exact Hs].
    apply last_such_some in Hj as (d1 & ? & d2 & Hm & -> & _). pose proof (made_length p Hn) as Hlen. rewrite Hm, length_app in Hlen.
    simpl in Hlen. lia.
  - apply (primitive_ok js p c); try assumption. unfold ends_primitive. cbn [existsb].
    repeat (rewrite !orb_false_iff in *; destruct_and!).
    split_and!; (assumption || reflexivity).
Qed.

Lemma parse_loop_ok js : forall fuel p,
  parser_ok js p -> (length js - p_pos p < fuel)%nat ->
  exists r p', parse_loop fuel js (Z.of_nat (p_toknext p)) p = Ok (r, p') /\ parser_ok js p' /\
    (is_error r \/ (r = Z.of_nat (p_toknext p') /\ Forall (closed (length js)) (made p'))).
Proof.
  induction fuel as [|fuel IH]; intros p Hok Hf; [lia |]. cbn [parse_loop].
  destruct (char_at js (p_pos p)) as [c|] eqn:Hc.
  - destruct (parse_char_ok js c p Hok Hc) as (o & -> & Ho). cbn [rbind]. destruct o as [count p1|r p1].
    + destruct Ho as (-> & Hok1 & Hp1). apply (IH (with_pos (S (p_pos p1)) p1)).
      * destruct Hok1 as [H1 H2 H3]. split; [exact H1 | exact H2 |]. eapply Forall_impl; [exact H3 |]. intros t. apply tok_ok_mono. cbn. lia.
      * cbn. lia.
    + destruct Ho as [Hr Hok1]. exists r, p1. auto.
  - unfold parse_end. rewrite find_back_eq by apply Hok. cbn [rbind]. fold (made p).
    eexists _, p. split; [reflexivity |]. split; [exact Hok |]. destruct (last_such unclosed (made p)) as [i|] eqn:Hl; [left; right; by right |].
    right. split; [reflexivity |]. apply last_such_none in Hl. pose proof (po_tokens _ _ Hok) as Ht. rewrite Forall_forall in Hl, Ht |- *.
    intros t Hin. destruct (Ht t Hin) as [H|H]; [exact H |]. specialize (Hl t Hin).
    rewrite (pending_open _ _ H) in Hl. discriminate.
Qed.

(** The tokenizer returns. *)
Lemma jsmn_parse_ok js tokens :
  exists r p, jsmn_parse js (jsmn_init tokens) = Ok (r, p) /\ parser_ok js p /\
    (is_error r \/ (r = Z.of_nat (p_toknext p) /\ Forall (closed (length js)) (made p))).
Proof. apply parse_loop_ok; [split; cbn; try lia; constructor | cbn; lia]. Qed.

(** C31: on every text and with every array of tokens the tokenizer returns:
    with one of its three errors, or with the number of tokens it has made, and
    then every one of them has a type and lies inside the text. It never reads
    outside the text or the array, and the tokens made before an error are well
    formed too. *)
Theorem jsmn_parse_typed js tokens :
  exists r p, jsmn_parse js (jsmn_init tokens) = Ok (r, p) /\ parser_ok js p /\
    (is_error r \/ (r = Z.of_nat (p_toknext p) /\ Forall (closed (length js)) (made p))).
Proof. apply jsmn_parse_ok. Qed.

(** ** The grammar of JSON

    [value n s ts]: the text [s] that begins at position [n] is a JSON value,
    and [ts] are its tokens in the order in which they begin. The size of an
    object or array is the number of its members, that of a name is 1. *)

Definition ws (s : list Z) : Prop := Forall (fun c => c ∈ [9; 13; 10; 32]) s.

(** Numbers and names such as [true]: printable characters that mean nothing
    else. *)
Definition prim_text (s : list Z) : Prop :=
  s <> [] /\ Forall (fun c => 32 <= c < 127 /\ ends_primitive c = false /\ c ∉ [123; 91; 34]) s.

Inductive str_text : list Z -> Prop :=
| st_nil : str_text []
| st_char c s : c ∉ [0; 34; 92] -> str_text s -> str_text (c :: s)
| st_escape e s : is_escape e = true -> str_text s -> str_text (92 :: e :: s)
| st_unicode h s : length h = 4%nat -> forallb is_hex h = true -> str_text s -> str_text (92 :: 117 :: h ++ s).

Definition str_token (n : nat) (s : list Z) (size : Z) : token :=
  mkTok JSMN_STRING (Z.of_nat n + 1) (Z.of_nat n + 1 + Z.of_nat (length s)) size.

Definition obracket (obj : bool) : Z := if obj then 123 else 91.
Definition cbracket (obj : bool) : Z := if obj then 125 else 93.
Definition list_token (obj : bool) (n : nat) (s : list Z) (size : Z) : token :=
  mkTok (if obj then JSMN_OBJECT else JSMN_ARRAY) (Z.of_nat n) (Z.of_nat n + 2 + Z.of_nat (length s)) size.

Inductive value : nat -> list Z -> list token -> Prop :=
| v_prim n s : prim_text s -> value n s [mkTok JSMN_PRIMITIVE (Z.of_nat n) (Z.of_nat n + Z.of_nat (length s)) 0]
| v_str n s : str_text s -> value n (34 :: s ++ [34]) [str_token n s 0]
| v_empty obj n s : ws s -> value n (obracket obj :: s ++ [cbracket obj]) [list_token obj n s 0]
| v_list obj n s ts k : items obj (S n) s ts k -> value n (obracket obj :: s ++ [cbracket obj]) (list_token obj n s k :: ts)
with items : bool -> nat -> list Z -> list token -> Z -> Prop :=
| it_one obj n s ts : item obj n s ts -> items obj n s ts 1
| it_more obj n s ts s' ts' k : item obj n s ts -> items obj (n + length s + 1) s' ts' k ->
    items obj n (s ++ 44 :: s') (ts ++ ts') (k + 1)
with item : bool -> nat -> list Z -> list token -> Prop :=
| i_element n w1 s w2 ts : ws w1 -> ws w2 -> value (n + length w1) s ts -> item false n (w1 ++ s ++ w2) ts
| i_member n w1 key w2 w3 s w4 ts : ws w1 -> str_text key -> ws w2 -> ws w3 -> ws w4 ->
    value (n + length w1 + length key + 2 + length w2 + 1 + length w3) s ts ->
    item true n (w1 ++ (34 :: key ++ [34]) ++ w2 ++ [58] ++ w3 ++ s ++ w4) (str_token (n + length w1) key 1 :: ts).

Scheme value_mut := Induction for value Sort Prop
  with items_mut := Induction for items Sort Prop
  with item_mut := Induction for item Sort Prop.
Combined Scheme json_mut from value_mut, items_mut, item_mut.

(** *** The scans on texts of the grammar *)

Lemma char_at_app pre c post : c <> 0 -> char_at (pre ++ c :: post) (length pre) = Some c.
Proof.
  intros Hc. unfold char_at. rewrite lookup_app_r, Nat.sub_diag by lia. cbn. by rewrite (proj2 (Z.eqb_neq _ _) Hc).
Qed.

(** After a primitive comes the end of the text or a character that ends it. *)
Definition stops (post : list Z) : Prop := match post with [] => True | c :: _ => ends_primitive c = true /\ c <> 0 end.

Lemma primitive_scan post : stops post -> forall s pre fuel,
  Forall (fun c => 32 <= c < 127 /\ ends_primitive c = false /\ c ∉ [123; 91; 34]) s -> (length s < fuel)%nat ->
  primitive_end fuel (pre ++ s ++ post) (length pre) = Ok (Some (length pre + length s)%nat).
Proof.
  intros Hpost. induction s as [|c s IH]; intros pre fuel Hs Hf; (destruct fuel as [|fuel]; [lia |]); cbn [primitive_end].
  - cbn [app length]. rewrite Nat.add_0_r. destruct post as [|c post].
    + unfold char_at. by rewrite lookup_ge_None_2 by (rewrite length_app; simpl; lia).
    + destruct Hpost as [He H0]. by rewrite char_at_app, He by exact H0.
  - apply Forall_cons in Hs as [(Hc & He & _) Hs]. cbn [app]. rewrite char_at_app by lia. rewrite He.
    rewrite (proj2 (Z.ltb_ge c 32)), (proj2 (Z.leb_gt 127 c)) by lia. cbn [orb].
    specialize (IH (pre ++ [c]) fuel Hs). rewrite <- app_assoc, length_app in IH. cbn [app length] in IH.
    replace (S (length pre)) with (length pre + 1)%nat by lia. rewrite IH by (simpl in Hf; lia). do 2 f_equal. simpl. lia.
Qed.

Lemma hex_scan post : forall h pre, forallb is_hex h = true ->
  hex_end (length h) (pre ++ h ++ post) (length pre) = Some (length pre + length h)%nat.
Proof.
  induction h as [|c h IH]; intros pre Hh; cbn [length hex_end]; [by rewrite Nat.add_0_r |].
  cbn [forallb] in Hh. apply andb_true_iff in Hh as [Hc Hh]. cbn [app]. rewrite char_at_app.
  - rewrite Hc. specialize (IH (pre ++ [c]) Hh). rewrite <- app_assoc, length_app in IH. cbn [app length] in IH.
    replace (S (length pre)) with (length pre + 1)%nat by lia. rewrite IH. f_equal. lia.
  - intros ->. discriminate.
Qed.

Lemma string_scan_text s : str_text s -> forall pre post fuel, (length s < fuel)%nat ->
  string_scan fuel (pre ++ s ++ 34 :: post) (length pre) = Ok (Quote (length pre + length s)).
Proof.
  induction 1 as [|c s Hc _ IH|e s He _ IH|h s Hl Hh _ IH]; intros pre post fuel Hf; (destruct fuel as [|fuel]; [lia |]);
    cbn [string_scan app length] in *.
  - rewrite char_at_app by lia. by rewrite Nat.add_0_r.
  - rewrite !not_elem_of_cons in Hc. destruct Hc as (H0 & H34 & H92 & _). rewrite char_at_app by lia.
    rewrite (proj2 (Z.eqb_neq _ _) H34), (proj2 (Z.eqb_neq _ _) H92). cbn [andb].
    specialize (IH (pre ++ [c]) post fuel). rewrite <- app_assoc, length_app in IH. cbn [app length] in IH.
    replace (S (length pre)) with (length pre + 1)%nat by lia. rewrite IH by lia. do 2 f_equal. lia.
  - rewrite char_at_app by lia. cbn [Z.eqb Pos.eqb andb]. rewrite (proj2 (Nat.ltb_lt _ _)) by (rewrite length_app; simpl; lia).
    replace (S (length pre)) with (length (pre ++ [92])) by (rewrite length_app; simpl; lia).
    replace (pre ++ 92 :: e :: s ++ 34 :: post) with ((pre ++ [92]) ++ e :: s ++ 34 :: post) by (by rewrite <- app_assoc).
    rewrite lookup_app_r, Nat.sub_diag by lia. cbn [lookup list_lookup]. rewrite He.
    specialize (IH ((pre ++ [92]) ++ [e]) post fuel). rewrite <- (app_assoc _ [e]), (length_app _ [e]) in IH. cbn [app length] in IH.
    replace (S (length (pre ++ [92]))) with (length (pre ++ [92%Z]) + 1)%nat by lia. rewrite IH by lia. do 2 f_equal.
    rewrite length_app. simpl. lia.
  - rewrite char_at_app by lia. cbn [Z.eqb Pos.eqb andb]. rewrite (proj2 (Nat.ltb_lt _ _)) by (rewrite length_app; simpl; lia).
    replace (S (length pre)) with (length (pre ++ [92])) by (rewrite length_app; simpl; lia).
    replace (pre ++ 92 :: 117 :: (h ++ s) ++ 34 :: post) with ((pre ++ [92]) ++ 117 :: h ++ s ++ 34 :: post) by (by rewrite <- !app_assoc).
    rewrite lookup_app_r, Nat.sub_diag by lia. cbn [lookup list_lookup]. change (is_escape 117) with false. cbn [Z.eqb Pos.eqb].
    pose proof (hex_scan (s ++ 34 :: post) h ((pre ++ [92]) ++ [117]) Hh) as Hhex. rewrite Hl in Hhex.
    rewrite <- (app_assoc _ [117]), (length_app _ [117]) in Hhex. cbn [app length] in Hhex.
    replace (S (length (pre ++ [92]))) with (length (pre ++ [92%Z]) + 1)%nat by lia. rewrite Hhex.
    specialize (IH ((pre ++ [92]) ++ 117 :: h) post fuel). rewrite <- (app_assoc _ (117 :: h)), (length_app _ (117 :: h)) in IH. cbn [app length] in IH.
    replace (length (pre ++ [92%Z]) + 1 + 4)%nat with (length (pre ++ [92%Z]) + S (length h))%nat by lia.
    rewrite length_app in Hf. rewrite IH by lia. do 2 f_equal. rewrite !length_app. simpl. lia.
Qed.

(** *** Running the loop along a text *)

Definition step (js : list Z) (p p' : parser) : Prop :=
  exists c p1, char_at js (p_pos p) = Some c /\
    parse_char js c (Z.of_nat (p_toknext p)) p = Ok (Next (Z.of_nat (p_toknext p1)) p1) /\ p' = with_pos (S (p_pos p1)) p1.

Lemma step_parser_ok js p p' : step js p p' -> parser_ok js p -> parser_ok js p' /\ (p_pos p < p_pos p' <= length js)%nat.
Proof.
  intros (c & p1 & Hc & He & ->) Hok. destruct (parse_char_ok js c p Hok Hc) as (o & He' & Ho). rewrite He in He'.
  injection He' as <-. destruct Ho as (_ & [H1 H2 H3] & Hp). split; [| cbn; lia]. split; [exact H1 | exact H2 |].
  eapply Forall_impl; [exact H3 |]. intros t. apply tok_ok_mono. cbn. lia.
Qed.

Lemma steps_parser_ok js p p' : rtc (step js) p p' -> parser_ok js p -> parser_ok js p'.
Proof. induction 1 as [|p p1 p2 Hs _ IH]; intros Hok; [exact Hok |]. apply IH. by eapply step_parser_ok. Qed.

Lemma loop_steps js p p' : rtc (step js) p p' -> parser_ok js p -> char_at js (p_pos p') = None -> forall fuel,
  (length js - p_pos p < fuel)%nat -> parse_loop fuel js (Z.of_nat (p_toknext p)) p = parse_end (Z.of_nat (p_toknext p')) p'.
Proof.
  intros Hr Hok Hend. induction Hr as [p|p p1 p2 Hs _ IH]; intros fuel Hf; (destruct fuel as [|fuel]; [lia |]); cbn [parse_loop].
  - by rewrite Hend.
  - destruct (step_parser_ok _ _ _ Hs Hok) as [Hok1 Hp]. destruct Hs as (c & q & -> & -> & ->). cbn [rbind].
    apply (IH Hok1 Hend). cbn in *. lia.
Qed.

Lemma ws_steps js : forall w pre post p, ws w -> js = pre ++ w ++ post -> p_pos p = length pre ->
  rtc (step js) p (with_pos (length pre + length w) p).
Proof.
  induction w as [|c w IH]; intros pre post p Hw Hjs Hp.
  - rewrite Nat.add_0_r, <- Hp, with_pos_same. apply rtc_refl.
  - apply Forall_cons in Hw as [Hc Hw]. apply (rtc_l _ _ (with_pos (S (p_pos p)) p)).
    + exists c, p. rewrite Hjs, Hp. cbn [app]. rewrite char_at_app by (intros ->; set_solver). split; [reflexivity |].
      split; [| reflexivity]. rewrite !elem_of_cons in Hc. unfold parse_char.
      destruct Hc as [-> |[-> |[-> |[-> |Hc]]]]; try reflexivity. by apply not_elem_of_nil in Hc.
    + replace (with_pos (length pre + length (c :: w)) p) with (with_pos (length (pre ++ [c]) + length w) (with_pos (S (p_pos p)) p)).
      * apply (IH (pre ++ [c]) post); [exact Hw | by rewrite Hjs, <- app_assoc | cbn; rewrite Hp, length_app; simpl; lia].
      * unfold with_pos. cbn. f_equal. rewrite length_app. simpl. lia.
Qed.

(** The state after a value: its tokens are made, and what is above is as
    before or the innermost open object or array. *)
Record after (p p' : parser) (s : list Z) (ts : list token) : Prop := {
  af_pos : p_pos p' = (p_pos p + length s)%nat;
  af_next : p_toknext p' = (p_toknext p + length ts)%nat;
  af_room : length (p_tokens p') = length (p_tokens p);
  af_made : made p' = bump (p_toksuper p) (made p) ++ ts;
  af_super : p_toksuper p' = p_toksuper p \/ p_toksuper p' = from_option Z.of_nat (-1) (last_such unclosed (made p))
}.

(** [o] is the innermost open container and what is above. *)
Definition inside (o : nat) (p : parser) : Prop :=
  last_such unclosed (made p) = Some o /\ p_toksuper p = Z.of_nat o.

Definition add_size (k : Z) (t : token) : token := mkTok (t_type t) (t_start t) (t_end t) (t_size t + k).

(** The state after items of the container [o]: what is above is [o] or a name
    in it. *)
Record listed (o : nat) (p p' : parser) (s : list Z) (ts : list token) (k : Z) : Prop := {
  li_pos : p_pos p' = (p_pos p + length s)%nat;
  li_next : p_toknext p' = (p_toknext p + length ts)%nat;
  li_room : length (p_tokens p') = length (p_tokens p);
  li_made : made p' = alter (add_size k) o (made p) ++ ts;
  li_super : p_toksuper p' = Z.of_nat o \/
    (0 <= p_toksuper p' /\ exists t, made p' !! Z.to_nat (p_toksuper p') = Some t /\ is_container t = false)
}.

Definition quiet (ts : list token) : Prop := Forall (fun t => unclosed t = false) ts.

Lemma last_such_quiet l ts : quiet ts -> last_such unclosed (l ++ ts) = last_such unclosed l.
Proof. intros H. rewrite last_such_app. by rewrite (proj2 (last_such_none _ _) H). Qed.

Lemma last_such_alter f g l i : (forall t, f (g t) = f t) -> last_such f (alter g i l) = last_such f l.
Proof.
  intros Hg. revert i. induction l as [|t l IH]; intros [|i]; [reflexivity | reflexivity | |].
  - cbn. by rewrite Hg.
  - change (alter g (S i) (t :: l)) with (t :: alter g i l). cbn [last_such]. by rewrite IH.
Qed.

Lemma last_such_bump s l : last_such unclosed (bump s l) = last_such unclosed l.
Proof. unfold bump. destruct (s =? -1); [reflexivity |]. by apply last_such_alter. Qed.

(** A scalar value. *)
Lemma scalar_after js p c p1 s tok :
  char_at js (p_pos p) = Some c ->
  parse_char js c (Z.of_nat (p_toknext p)) p = Ok (Next (Z.of_nat (p_toknext p1)) p1) -> pushed p p1 tok ->
  S (p_pos p1) = (p_pos p + length s)%nat -> p_toksuper p1 = p_toksuper p ->
  exists p', rtc (step js) p p' /\ after p p' s [tok] /\ p_toksuper p' = p_toksuper p.
Proof.
  intros Hc He (Hn & Hl & Hm) Hpos Hs. exists (with_pos (S (p_pos p1)) p1). split.
  - apply rtc_once. by exists c, p1.
  - split; [| exact Hs]. split; cbn; try assumption; [rewrite Hn; lia | by left].
Qed.

Lemma string_after js p pre s post :
  js = pre ++ (34 :: s ++ [34]) ++ post -> p_pos p = length pre -> str_text s -> parser_ok js p ->
  (p_toknext p < length (p_tokens p))%nat ->
  exists p', rtc (step js) p p' /\ after p p' (34 :: s ++ [34]) [str_token (p_pos p) s 0] /\ p_toksuper p' = p_toksuper p.
Proof.
  intros Hjs Hpos Hs Hok Hroom. assert (Hscan : string_scan (S (length js)) js (S (p_pos p)) = Ok (Quote (length pre + 1 + length s))).
  { rewrite Hjs, Hpos. replace (S (length pre)) with (length (pre ++ [34])) by (rewrite length_app; simpl; lia).
    replace (pre ++ (34 :: s ++ [34]) ++ post) with ((pre ++ [34]) ++ s ++ 34 :: post) by (by cbn; rewrite <- !app_assoc).
    rewrite string_scan_text; [by rewrite (length_app pre) | exact Hs | rewrite !length_app; simpl; lia]. }
  destruct (string_spec js p _ Hscan (po_next _ _ Hok) (po_super _ _ Hok)) as [[? _]|(p1 & He & Hpu & Hp1 & Hs1)]; [lia |].
  apply (scalar_after js p 34 p1); [rewrite Hjs, Hpos; by apply char_at_app | exact He | | | exact Hs1].
  - replace (str_token (p_pos p) s 0) with (mkTok JSMN_STRING (Z.of_nat (p_pos p) + 1) (Z.of_nat (length pre + 1 + length s)) 0); [exact Hpu |].
    unfold str_token. f_equal. lia.
  - rewrite Hp1, Hpos. cbn. rewrite length_app. simpl. lia.
Qed.

Lemma primitive_after js p pre s post :
  js = pre ++ s ++ post -> p_pos p = length pre -> prim_text s -> stops post -> parser_ok js p ->
  (p_toknext p < length (p_tokens p))%nat ->
  exists p', rtc (step js) p p' /\ after p p' s [mkTok JSMN_PRIMITIVE (Z.of_nat (p_pos p)) (Z.of_nat (p_pos p) + Z.of_nat (length s)) 0] /\
    p_toksuper p' = p_toksuper p.
Proof.
  intros Hjs Hpos [Hne Hs] Hpost Hok Hroom.
  assert (Hscan : primitive_end (S (length js)) js (p_pos p) = Ok (Some (length pre + length s)%nat)).
  { rewrite Hjs, Hpos. apply primitive_scan; [exact Hpost | exact Hs | rewrite !length_app; lia]. }
  destruct s as [|c s]; [done |]. pose proof Hs as [(Hc & Hend & Hsp) _]%Forall_cons.
  destruct (primitive_spec js p _ Hscan ltac:(simpl; lia) (po_next _ _ Hok) (po_super _ _ Hok)) as [[? _]|(p1 & He & Hpu & Hp1 & Hs1)]; [lia |].
  apply (scalar_after js p c p1); [rewrite Hjs, Hpos; apply char_at_app; lia | | | | exact Hs1].
  - rewrite <- He. unfold parse_char. unfold ends_primitive in Hend. cbn [existsb] in Hend. rewrite !orb_false_iff in Hend.
    rewrite !not_elem_of_cons in Hsp. destruct_and!. repeat match goal with H : (c =? _) = false |- _ => rewrite H; clear H end.
    repeat match goal with H : c <> _ |- _ => rewrite (proj2 (Z.eqb_neq _ _) H); clear H end. reflexivity.
  - replace (Z.of_nat (p_pos p) + Z.of_nat (length (c :: s))) with (Z.of_nat (length pre + length (c :: s))) by lia. exact Hpu.
  - rewrite Hp1, Hpos. simpl. lia.
Qed.

(** *** Every value of the grammar *)

Definition value_runs (n : nat) (s : list Z) (ts : list token) : Prop :=
  quiet ts /\ (0 < length ts)%nat /\ forall js pre post p,
    js = pre ++ s ++ post -> length pre = n -> stops post -> parser_ok js p -> p_pos p = n ->
    (p_toknext p + length ts <= length (p_tokens p))%nat -> exists p', rtc (step js) p p' /\ after p p' s ts.

Definition items_run (n : nat) (s : list Z) (ts : list token) (k : Z) : Prop :=
  quiet ts /\ forall js pre post p o,
    js = pre ++ s ++ post -> length pre = n -> stops post -> parser_ok js p -> p_pos p = n -> inside o p ->
    (p_toknext p + length ts <= length (p_tokens p))%nat -> exists p', rtc (step js) p p' /\ listed o p p' s ts k.

Lemma str_token_quiet n s k : unclosed (str_token n s k) = false.
Proof. unfold unclosed, str_token. cbn [t_start t_end]. rewrite (proj2 (Z.eqb_neq (Z.of_nat n + 1 + Z.of_nat (length s)) (-1))) by lia. apply andb_false_r. Qed.

Lemma list_token_quiet b n s k : unclosed (list_token b n s k) = false.
Proof. unfold unclosed, list_token. cbn [t_start t_end]. rewrite (proj2 (Z.eqb_neq (Z.of_nat n + 2 + Z.of_nat (length s)) (-1))) by lia. apply andb_false_r. Qed.

Lemma listed_refl o p : inside o p -> listed o p p [] [] 0.
Proof.
  intros [Hl Hs]. split; cbn; try lia. rewrite app_nil_r. symmetry. apply list_alter_id. intros t.
  destruct t. unfold add_size. cbn. f_equal. lia.
Qed.

Lemma stops_ws w post : ws w -> stops post -> stops (w ++ post).
Proof.
  intros Hw Hp. destruct w as [|c w]; [exact Hp |]. apply Forall_cons in Hw as [Hc _]. rewrite !elem_of_cons in Hc.
  destruct Hc as [-> |[-> |[-> |[-> |Hc]]]]; try done. by apply not_elem_of_nil in Hc.
Qed.

(** A bracket, the items and the bracket that closes. *)
Lemma list_runs obj n s ts k : items_run (S n) s ts k -> value_runs n (obracket obj :: s ++ [cbracket obj]) (list_token obj n s k :: ts).
Proof.
  intros [Hq Hi]. split; [constructor; [apply list_token_quiet | exact Hq] |]. split; [simpl; lia |].
  intros js pre post p Hjs Hpre Hpost Hok Hpos Hroom. simpl in Hroom.
  destruct (open_spec (obracket obj) p (po_next _ _ Hok) (po_super _ _ Hok)) as [[? _]|(p1 & He & (Hn1 & Hl1 & Hm1) & Hp1 & Hs1)]; [lia |].
  set (tok := mkTok (if obracket obj =? 123 then JSMN_OBJECT else JSMN_ARRAY) (Z.of_nat (p_pos p)) (-1) 0) in *.
  assert (Hst1 : step js p (with_pos (S (p_pos p1)) p1)).
  { exists (obracket obj), p1. split; [rewrite Hjs, Hpos, <- Hpre; apply char_at_app; by destruct obj |]. split; [| reflexivity].
    rewrite <- He. by destruct obj. }
  set (p2 := with_pos (S (p_pos p1)) p1) in *. destruct (step_parser_ok _ _ _ Hst1 Hok) as [Hok2 _].
  assert (Hm2 : made p2 = bump (p_toksuper p) (made p) ++ [tok]) by exact Hm1.
  assert (Hin : inside (p_toknext p) p2).
  { split; [| exact Hs1]. rewrite Hm2, last_such_app. cbn [last_such]. replace (unclosed tok) with true.
    - by rewrite Nat.add_0_r, bump_length, made_length by apply Hok.
    - unfold unclosed, tok. cbn. rewrite (proj2 (Z.eqb_neq (Z.of_nat (p_pos p)) (-1))) by lia. reflexivity. }
  destruct (Hi js (pre ++ [obracket obj]) ([cbracket obj] ++ post) p2 (p_toknext p)) as (p3 & Hr3 & [Hp3 Hn3 Hl3 Hm3 _]).
  - rewrite Hjs. cbn. by rewrite <- !app_assoc.
  - rewrite length_app. simpl. lia.
  - by destruct obj.
  - exact Hok2.
  - cbn. by rewrite Hp1, Hpos.
  - exact Hin.
  - cbn. lia.
  - assert (Hm3' : made p3 = bump (p_toksuper p) (made p) ++ add_size k tok :: ts).
    { rewrite Hm3, Hm2, alter_app_r_alt by (rewrite bump_length, made_length by apply Hok; lia).
      rewrite bump_length, made_length, Nat.sub_diag by apply Hok. by rewrite <- app_assoc. }
    pose proof (steps_parser_ok _ _ _ Hr3 Hok2) as Hok3.
    destruct (close_spec (cbracket obj) (Z.of_nat (p_toknext p3)) p3 _ _ _ (po_next _ _ Hok3) Hm3') as [[Hty _]|(_ & p4 & He4 & Hn4 & Hl4 & Hp4 & Hm4 & Hs4)].
    + unfold unclosed, add_size, tok. cbn. rewrite (proj2 (Z.eqb_neq (Z.of_nat (p_pos p)) (-1))) by lia. reflexivity.
    + by apply last_such_none.
    + exfalso. apply Hty. by destruct obj.
    + exists (with_pos (S (p_pos p4)) p4). cbn in Hp3, Hn3, Hl3. split.
      * eapply rtc_l; [exact Hst1 |]. eapply rtc_r; [exact Hr3 |]. exists (cbracket obj), p4. split; [| split; [| reflexivity]].
        -- replace (p_pos p3) with (length (pre ++ obracket obj :: s)) by (rewrite length_app; simpl; lia).
           replace js with ((pre ++ obracket obj :: s) ++ cbracket obj :: post); [apply char_at_app; by destruct obj |].
           rewrite Hjs. cbn. by rewrite <- !app_assoc.
        -- rewrite Hn4, <- He4. by destruct obj.
      * split; cbn; [rewrite Hp4, Hp3, length_app; simpl; lia | lia | lia | | right; by rewrite Hs4, last_such_bump].
        unfold made in Hm4 |- *. cbn. rewrite Hm4. do 2 f_equal. unfold end_at, add_size, list_token, tok. cbn. rewrite Hp3. cbn.
        destruct obj; cbn; f_equal; lia.
Qed.

Lemma after_ws js p p1 pre w post : rtc (step js) p p1 -> js = pre ++ w ++ post -> p_pos p1 = length pre -> ws w ->
  rtc (step js) p (with_pos (p_pos p1 + length w) p1).
Proof. intros Hr Hjs Hp Hw. etrans; [exact Hr |]. rewrite Hp. by eapply ws_steps. Qed.

Lemma ws_items n s : ws s -> items_run n s [] 0.
Proof.
  intros Hs. split; [constructor |]. intros js pre post p o Hjs Hpre _ _ Hpos Hin _. rewrite <- Hpre in Hpos.
  exists (with_pos (p_pos p + length s) p). split; [eapply after_ws; [apply rtc_refl | exact Hjs | exact Hpos | exact Hs] |].
  destruct (listed_refl o p Hin) as [_ H2 H3 H4 H5]. by split.
Qed.

Lemma parser_ok_with_pos js p pos : parser_ok js p -> (p_pos p <= pos)%nat -> parser_ok js (with_pos pos p).
Proof.
  intros [H1 H2 H3] Hp. split; [exact H1 | exact H2 |]. eapply Forall_impl; [exact H3 |]. intros t. by apply tok_ok_mono.
Qed.

Lemma element_runs n w1 s w2 ts : ws w1 -> ws w2 -> value_runs (n + length w1) s ts -> items_run n (w1 ++ s ++ w2) ts 1.
Proof.
  intros Hw1 Hw2 (Hq & Hl & Hv). split; [exact Hq |]. intros js pre post p o Hjs Hpre Hpost Hok Hpos [Hin Hsup] Hroom.
  set (p1 := with_pos (p_pos p + length w1) p).
  assert (Hr1 : rtc (step js) p p1).
  { eapply (after_ws js p p pre w1 (s ++ w2 ++ post)); [apply rtc_refl | by rewrite Hjs, <- !app_assoc | lia | exact Hw1]. }
  destruct (Hv js (pre ++ w1) (w2 ++ post) p1) as (p2 & Hr2 & [Hp2 Hn2 Hl2 Hm2 Hs2]); cbn; try lia.
  - by rewrite Hjs, <- !app_assoc.
  - rewrite length_app. lia.
  - by apply stops_ws.
  - by eapply steps_parser_ok.
  - cbn in Hp2, Hn2, Hl2, Hs2. exists (with_pos (p_pos p2 + length w2) p2). split.
    + eapply (after_ws js p p2 (pre ++ w1 ++ s) w2 post); [etrans; eassumption | by rewrite Hjs, <- !app_assoc | rewrite !length_app; lia | exact Hw2].
    + split; cbn; try assumption; [rewrite !length_app; lia | |].
      * unfold made in Hm2 |- *. cbn. rewrite Hm2. cbn. rewrite Hsup. unfold bump.
        rewrite (proj2 (Z.eqb_neq (Z.of_nat o) (-1))), Nat2Z.id by lia. reflexivity.
      * left. destruct Hs2 as [-> | ->]; [exact Hsup |]. unfold made in Hin |- *. cbn. by rewrite Hin.
Qed.

Lemma bump_last l t : bump (Z.of_nat (length l)) (l ++ [t]) = l ++ [grown_size t].
Proof.
  unfold bump. rewrite (proj2 (Z.eqb_neq (Z.of_nat (length l)) (-1))), Nat2Z.id by lia.
  rewrite alter_app_r_alt, Nat.sub_diag by lia. reflexivity.
Qed.

Ltac lengths := repeat first [rewrite length_app | rewrite length_cons | rewrite length_nil]; lia.

(** The name of a member and its colon: the name is what is above. *)
Lemma name_runs js pre w1 key w2 w3 rest p :
  js = pre ++ w1 ++ (34 :: key ++ [34]) ++ w2 ++ [58] ++ w3 ++ rest -> p_pos p = length pre ->
  ws w1 -> str_text key -> ws w2 -> ws w3 -> parser_ok js p -> (p_toknext p < length (p_tokens p))%nat ->
  exists p', rtc (step js) p p' /\ p_pos p' = length (pre ++ w1 ++ (34 :: key ++ [34]) ++ w2 ++ [58] ++ w3) /\
    p_toknext p' = S (p_toknext p) /\ length (p_tokens p') = length (p_tokens p) /\ p_toksuper p' = Z.of_nat (p_toknext p) /\
    made p' = bump (p_toksuper p) (made p) ++ [str_token (p_pos p + length w1) key 0].
Proof.
  intros Hjs Hpos Hw1 Hkey Hw2 Hw3 Hok Hroom. set (p1 := with_pos (p_pos p + length w1) p).
  assert (Hr1 : rtc (step js) p p1).
  { eapply (after_ws js p p pre w1); [apply rtc_refl | exact Hjs | exact Hpos | exact Hw1]. }
  destruct (string_after js p1 (pre ++ w1) key (w2 ++ [58] ++ w3 ++ rest)) as (p2 & Hr2 & [Hp2 Hn2 Hl2 Hm2 _] & _);
    [by rewrite Hjs, <- !app_assoc | cbn; lengths | exact Hkey | by eapply steps_parser_ok | exact Hroom |].
  cbn in Hp2, Hn2, Hl2. rewrite length_app in Hp2. simpl in Hp2.
  assert (Hr3 : rtc (step js) p (with_pos (p_pos p2 + length w2) p2)).
  { eapply (after_ws js p p2 (pre ++ w1 ++ (34 :: key ++ [34])) w2 ([58] ++ w3 ++ rest));
      [etrans; eassumption | by rewrite Hjs, <- !app_assoc | lengths | exact Hw2]. }
  set (p4 := with_pos (S (p_pos p2 + length w2)) (with_super (Z.of_nat (p_toknext p)) p2)).
  assert (Hr4 : rtc (step js) p p4).
  { eapply rtc_r; [exact Hr3 |]. exists 58, (with_pos (p_pos p2 + length w2) (with_super (Z.of_nat (p_toknext p)) p2)). split; [| split; [| reflexivity]].
    - replace (p_pos (with_pos (p_pos p2 + length w2) p2)) with (length (pre ++ w1 ++ (34 :: key ++ [34]) ++ w2)) by (cbn; lengths).
      replace js with ((pre ++ w1 ++ (34 :: key ++ [34]) ++ w2) ++ 58 :: w3 ++ rest) by (by rewrite Hjs, <- !app_assoc). by apply char_at_app.
    - unfold parse_char, with_super, with_pos. cbn. do 2 f_equal. f_equal. lia. }
  exists (with_pos (p_pos p4 + length w3) p4). split.
  - eapply (after_ws js p p4 (pre ++ w1 ++ (34 :: key ++ [34]) ++ w2 ++ [58]) w3 rest);
      [exact Hr4 | by rewrite Hjs, <- !app_assoc | cbn; lengths | exact Hw3].
  - cbn. split; [lengths |]. split; [lia |]. split; [exact Hl2 |]. split; [reflexivity |]. exact Hm2.
Qed.

Lemma member_runs n w1 key w2 w3 s w4 ts :
  ws w1 -> str_text key -> ws w2 -> ws w3 -> ws w4 ->
  value_runs (n + length w1 + length key + 2 + length w2 + 1 + length w3) s ts ->
  items_run n (w1 ++ (34 :: key ++ [34]) ++ w2 ++ [58] ++ w3 ++ s ++ w4) (str_token (n + length w1) key 1 :: ts) 1.
Proof.
  intros Hw1 Hkey Hw2 Hw3 Hw4 (Hq & _ & Hv). split; [constructor; [apply str_token_quiet | exact Hq] |].
  intros js pre post p o Hjs Hpre Hpost Hok Hpos [Hin Hsup] Hroom. simpl in Hroom.
  destruct (name_runs js pre w1 key w2 w3 (s ++ w4 ++ post) p) as (p5 & Hr5 & Hp5 & Hn5 & Hl5 & Hs5 & Hm5); try assumption; try lia.
  { by rewrite Hjs, <- !app_assoc. }
  assert (Hnl : length (bump (Z.of_nat o) (made p)) = p_toknext p) by (rewrite bump_length; apply made_length, Hok).
  destruct (Hv js (pre ++ w1 ++ (34 :: key ++ [34]) ++ w2 ++ [58] ++ w3) (w4 ++ post) p5) as (p6 & Hr6 & [Hp6 Hn6 Hl6 Hm6 Hs6]); try lia;
    [by rewrite Hjs, <- !app_assoc | lengths | by apply stops_ws | by eapply steps_parser_ok | revert Hp5; lengths |].
  exists (with_pos (p_pos p6 + length w4) p6). split.
  { eapply (after_ws js p p6 (pre ++ w1 ++ (34 :: key ++ [34]) ++ w2 ++ [58] ++ w3 ++ s) w4 post);
      [etrans; eassumption | by rewrite Hjs, <- !app_assoc | rewrite Hp6, Hp5; lengths | exact Hw4]. }
  assert (Hm : made p6 = alter (add_size 1) o (made p) ++ str_token (n + length w1) key 1 :: ts).
  { rewrite Hm6, Hs5, Hm5, Hsup, <- Hnl, bump_last, <- app_assoc. unfold bump. rewrite (proj2 (Z.eqb_neq (Z.of_nat o) (-1))), Nat2Z.id by lia.
    cbn [app]. do 2 f_equal. unfold grown_size, str_token. cbn. by rewrite Hpos. }
  assert (Hkt : made p6 !! p_toknext p = Some (str_token (n + length w1) key 1)).
  { rewrite Hm, lookup_app_r by (rewrite length_alter, made_length by apply Hok; lia).
    by rewrite length_alter, made_length, Nat.sub_diag by apply Hok. }
  split; cbn.
  - rewrite Hp6, Hp5, Hpos, <- Hpre. lengths.
  - lia.
  - lia.
  - exact Hm.
  - rewrite Hs5 in Hs6. destruct Hs6 as [-> | ->].
    + right. split; [lia |]. rewrite Nat2Z.id. exists (str_token (n + length w1) key 1). split; [exact Hkt | reflexivity].
    + left. rewrite Hm5, last_such_app. cbn [last_such]. by rewrite str_token_quiet, Hsup, last_such_bump, Hin.
Qed.

Lemma last_such_ext f g l : Forall (fun t => f t = g t) l -> last_such f l = last_such g l.
Proof. induction 1 as [|t l Ht _ IH]; [reflexivity |]. cbn. by rewrite IH, Ht. Qed.

(** Open tokens are containers. *)
Lemma open_is_container js p : parser_ok js p -> Forall (fun t => open_container t = unclosed t) (made p).
Proof.
  intros Hok. eapply Forall_impl; [exact (po_tokens _ _ Hok) |]. intros t [H|H]; unfold open_container.
  - by rewrite (closed_not_open _ _ H), andb_false_r.
  - by rewrite (proj1 H).
Qed.

(** A comma goes back to the container. *)
Lemma comma_step js p p1 pre s post ts k o :
  js = pre ++ s ++ 44 :: post -> p_pos p = length pre -> parser_ok js p1 -> inside o p -> quiet ts -> listed o p p1 s ts k ->
  exists p2, step js p1 p2 /\ inside o p2 /\ p_pos p2 = S (p_pos p1) /\ p_toknext p2 = p_toknext p1 /\
    length (p_tokens p2) = length (p_tokens p1) /\ made p2 = made p1.
Proof.
  intros Hjs Hpos Hok1 [Hin Hsup] Hq [Hp Hn Hl Hm Hs].
  assert (Hlo : last_such unclosed (made p1) = Some o) by (rewrite Hm, last_such_quiet by exact Hq; by rewrite last_such_alter).
  exists (with_pos (S (p_pos p1)) (with_super (Z.of_nat o) p1)). split; [| by split].
  exists 44, (with_super (Z.of_nat o) p1). split; [| split; [| reflexivity]].
  - rewrite Hp, Hpos, Hjs, <- length_app, app_assoc. by apply char_at_app.
  - unfold parse_char. cbn [Z.eqb Pos.eqb orb]. rewrite comma_spec by apply Hok1. do 2 f_equal. cbn. f_equal.
    destruct Hs as [Hs|(Hs0 & t & Ht & Hc)].
    + rewrite Hs. rewrite (proj2 (Z.eqb_neq (Z.of_nat o) (-1))), Nat2Z.id by lia.
      destruct (last_such_some _ _ _ Hlo) as (d1 & t & d2 & Hd & -> & Ho & _). rewrite Hd, lookup_app_r, Nat.sub_diag by lia. cbn.
      pose proof (open_is_container js p1 Hok1) as Hoc. rewrite Hd in Hoc. apply Forall_app in Hoc as [_ [Hoc _]%Forall_cons].
      rewrite Ho in Hoc. unfold open_container in Hoc. apply andb_true_iff in Hoc as [-> _]. reflexivity.
    + rewrite (proj2 (Z.eqb_neq (p_toksuper p1) (-1))), Ht by lia. cbn. rewrite Hc.
      by rewrite (last_such_ext _ unclosed), Hlo by (by eapply open_is_container).
Qed.

Lemma items_more n s ts s' ts' k :
  items_run n s ts 1 -> items_run (n + length s + 1) s' ts' k -> items_run n (s ++ 44 :: s') (ts ++ ts') (k + 1).
Proof.
  intros [Hq Hi] [Hq' Hi']. split; [by apply Forall_app |].
  intros js pre post p o Hjs Hpre Hpost Hok Hpos Hin Hroom. rewrite length_app in Hroom.
  destruct (Hi js pre (44 :: s' ++ post) p o) as (p1 & Hr1 & Hl1); try assumption; [by rewrite Hjs, <- app_assoc | done | lia |].
  pose proof (steps_parser_ok _ _ _ Hr1 Hok) as Hok1.
  destruct (comma_step js p p1 pre s (s' ++ post) ts 1 o) as (p2 & Hs2 & Hin2 & Hp2 & Hn2 & Hlen2 & Hm2); try assumption; [by rewrite Hjs, <- app_assoc | lia |].
  destruct Hl1 as [Hp1 Hn1 Hlen1 Hm1 _].
  destruct (Hi' js (pre ++ s ++ [44]) post p2 o) as (p3 & Hr3 & [Hp3 Hn3 Hlen3 Hm3 Hs3]); try assumption; try lia.
  - by rewrite Hjs, <- !app_assoc.
  - lengths.
  - by eapply step_parser_ok.
  - exists p3. split; [etrans; [exact Hr1 |]; eapply rtc_l; eassumption |]. split; try assumption; try lia; [lengths | lengths |].
    rewrite Hm3, Hm2, Hm1. assert (Hlt : (o < length (made p))%nat).
    { destruct Hin as [Hin _]. destruct (last_such_some _ _ _ Hin) as (d1 & t & d2 & -> & -> & _). lengths. }
    rewrite alter_app_l, list_alter_alter by (by rewrite length_alter). rewrite <- app_assoc. f_equal. apply list_alter_ext; [| reflexivity].
    intros t _. unfold add_size. cbn. f_equal. lia.
Qed.

Lemma json_runs :
  (forall n s ts, value n s ts -> value_runs n s ts) /\
  (forall obj n s ts k, items obj n s ts k -> items_run n s ts k) /\
  (forall obj n s ts, item obj n s ts -> items_run n s ts 1).
Proof.
  apply (json_mut (fun n s ts _ => value_runs n s ts) (fun obj n s ts k _ => items_run n s ts k) (fun obj n s ts _ => items_run n s ts 1)).
  - intros n s Hs. split; [constructor; [| constructor]; unfold unclosed; cbn; by rewrite (proj2 (Z.eqb_neq (_ + _) (-1))), andb_false_r by lia |].
    split; [simpl; lia |]. intros js pre post p Hjs Hpre Hpost Hok Hpos Hroom. simpl in Hroom. rewrite <- Hpos.
    destruct (primitive_after js p pre s post) as (p' & Hr & Ha & _); try assumption; [lia | lia |]. eauto.
  - intros n s Hs. split; [constructor; [apply str_token_quiet | constructor] |]. split; [simpl; lia |].
    intros js pre post p Hjs Hpre Hpost Hok Hpos Hroom. simpl in Hroom. rewrite <- Hpos.
    destruct (string_after js p pre s post) as (p' & Hr & Ha & _); try assumption; [lia | lia |]. eauto.
  - intros obj n s Hs. apply (list_runs obj n s [] 0). by apply ws_items.
  - intros obj n s ts k _ IH. by apply list_runs.
  - intros obj n s ts _ IH. exact IH.
  - intros obj n s ts s' ts' k _ IH1 _ IH2. by apply items_more.
  - intros n w1 s w2 ts Hw1 Hw2 _ IH. by apply element_runs.
  - intros n w1 key w2 w3 s w4 ts H1 H2 H3 H4 H5 _ IH. by apply member_runs.
Qed.

(** A value is tokenized. *)
Lemma jsmn_parse_value w1 s w2 ts tokens :
  ws w1 -> value (length w1) s ts -> ws w2 -> (length ts <= length tokens)%nat ->
  exists p, jsmn_parse (w1 ++ s ++ w2) (jsmn_init tokens) = Ok (Z.of_nat (length ts), p) /\ made p = ts.
Proof.
  intros Hw1 Hv Hw2 Hroom. set (js := w1 ++ s ++ w2). destruct (proj1 json_runs _ _ _ Hv) as (Hq & _ & Hrun).
  assert (Hok : parser_ok js (jsmn_init tokens)) by (split; cbn; [lia | lia | constructor]).
  set (p1 := with_pos (length w1) (jsmn_init tokens)).
  assert (Hr1 : rtc (step js) (jsmn_init tokens) p1).
  { apply (after_ws js _ (jsmn_init tokens) [] w1 (s ++ w2)); [apply rtc_refl | reflexivity | reflexivity | exact Hw1]. }
  destruct (Hrun js w1 w2 p1) as (p2 & Hr2 & [Hp2 Hn2 _ Hm2 _]); try reflexivity; [| by eapply steps_parser_ok | exact Hroom |].
  { rewrite <- (app_nil_r w2). by apply stops_ws. }
  cbn in Hp2, Hn2. change (made p2 = ts) in Hm2. set (p3 := with_pos (p_pos p2 + length w2) p2).
  assert (Hr3 : rtc (step js) (jsmn_init tokens) p3).
  { apply (after_ws js _ p2 (w1 ++ s) w2 []); [etrans; eassumption | unfold js; by rewrite app_nil_r, <- app_assoc | lengths | exact Hw2]. }
  exists p3. split; [| exact Hm2]. unfold jsmn_parse. rewrite (loop_steps js _ p3 Hr3 Hok).
  - unfold parse_end. rewrite find_back_eq by (by eapply steps_parser_ok). cbn [rbind]. fold (made p3). change (made p3) with (made p2).
    rewrite Hm2, (proj2 (last_such_none _ _) Hq). change (p_toknext p3) with (p_toknext p2). by rewrite Hn2.
  - unfold char_at, js. cbn. rewrite lookup_ge_None_2; [reflexivity |]. lengths.
  - cbn. lia.
Qed.

(** C14: on a text that is a JSON value of any depth, with white space
    anywhere it is allowed and escapes in its strings, and with enough tokens,
    the tokenizer succeeds and makes exactly the tokens of the value: one for
    each object, array, string and primitive, in the order in which they
    begin, with their bounds in the text and the number of their members. *)
Theorem jsmn_parse_correct w1 s w2 ts tokens :
  ws w1 -> value (length w1) s ts -> ws w2 -> (length ts <= length tokens)%nat ->
  exists p, jsmn_parse (w1 ++ s ++ w2) (jsmn_init tokens) = Ok (Z.of_nat (length ts), p) /\ made p = ts.
Proof. apply jsmn_parse_value. Qed.

(** ** The specification file of the repository *)

(** [{"init":"/sh", "fs":"/c1/", "nproc":4}] and a newline. *)
Definition demo_object : list Z :=
  [123; 34; 105; 110; 105; 116; 34; 58; 34; 47; 115; 104; 34; 44; 32; 34; 102; 115; 34; 58; 34; 47; 99; 49; 47; 34; 44; 32;
   34; 110; 112; 114; 111; 99; 34; 58; 52; 125].
Definition demo_tokens : list token :=
  [mkTok JSMN_OBJECT 0 38 3; mkTok JSMN_STRING 2 6 1; mkTok JSMN_STRING 9 12 0; mkTok JSMN_STRING 16 18 1;
   mkTok JSMN_STRING 21 25 0; mkTok JSMN_STRING 29 34 1; mkTok JSMN_PRIMITIVE 36 37 0].

Ltac text := repeat (apply st_nil || (apply st_char; [set_solver |])).

Lemma demo_value : value 0 demo_object demo_tokens.
Proof.
  refine (v_list true 0 [34; 105; 110; 105; 116; 34; 58; 34; 47; 115; 104; 34; 44; 32; 34; 102; 115; 34; 58; 34; 47; 99; 49; 47; 34; 44; 32;
    34; 110; 112; 114; 111; 99; 34; 58; 52] (tail demo_tokens) 3 _).
  refine (it_more true 1 [34; 105; 110; 105; 116; 34; 58; 34; 47; 115; 104; 34] [mkTok JSMN_STRING 2 6 1; mkTok JSMN_STRING 9 12 0] _ _ 2 _
    (it_more true 14 [32; 34; 102; 115; 34; 58; 34; 47; 99; 49; 47; 34] [mkTok JSMN_STRING 16 18 1; mkTok JSMN_STRING 21 25 0] _ _ 1 _
      (it_one true 27 [32; 34; 110; 112; 114; 111; 99; 34; 58; 52] [mkTok JSMN_STRING 29 34 1; mkTok JSMN_PRIMITIVE 36 37 0] _))).
  - apply (i_member 1 [] [105; 110; 105; 116] [] [] [34; 47; 115; 104; 34] [] _); [constructor | text | constructor .. |].
    apply (v_str 8 [47; 115; 104]). text.
  - apply (i_member 14 [32] [102; 115] [] [] [34; 47; 99; 49; 47; 34] [] _); [repeat constructor; set_solver | text | constructor .. |].
    apply (v_str 20 [47; 99; 49; 47]). text.
  - apply (i_member 27 [32] [110; 112; 114; 111; 99] [] [] [52] [] _); [repeat constructor; set_solver | text | constructor .. |].
    apply (v_prim 36 [52]). split; [discriminate |]. repeat constructor; try lia; set_solver.
Qed.

Lemma jsmn_parse_correct_witness :
  exists p, jsmn_parse (demo_object ++ [10]) (jsmn_init (replicate 128 (mkTok JSMN_UNDEFINED 0 0 0))) = Ok (7, p) /\ made p = demo_tokens.
Proof.
  apply (jsmn_parse_correct [] demo_object [10] demo_tokens (replicate 128 (mkTok JSMN_UNDEFINED 0 0 0))).
  - constructor.
  - exact demo_value.
  - repeat constructor; set_solver.
  - rewrite length_replicate. simpl. lia.
Defined.
