(* ===== verification/Cm.v ===== *)
(** * The container manager (helpers.h, cm.h)

    Reading the specification of a container, on top of the tokenizer, and
    the sequence of system calls that sets a container up. A [char] array is
    the list of its bytes; arrays on the stack that the code does not
    initialise are arguments. A program that makes system calls is a tree: a
    call and what the program does with its answer, which is a number and, for
    [read], the bytes stored. *)

From S2P Require Import Prelude Mem CString Jsmn.

(** ** Strings of helpers.h *)

Fixpoint strncmp_const (p q : list Z) (n : nat) {struct n} : res Z :=
  match n with
  | O => Ok 0
  | S n' =>
      match p, q with
      | a :: p', b :: q' => if negb (a =? 0) && (a =? b) then strncmp_const p' q' n' else Ok (a - b)
      | _, _ => Undef
      end
  end.

Definition strlen_const (s : list Z) : res nat :=
  match find_from (fun c => c =? 0) s 0 with Some n => Ok n | None => Undef end.

(** [s] is a literal; the text is the array [json]. *)
Definition jsoneq (json : list Z) (tok : token) (s : list Z) : res Z :=
  if bool_decide (t_type tok = JSMN_STRING) then
    let! n := strlen_const (s ++ [0]) in
    if Z.of_nat n =? t_end tok - t_start tok then
      if t_start tok <? 0 then Undef
      else
        let! c := strncmp_const (drop (Z.to_nat (t_start tok)) json) (s ++ [0]) (Z.to_nat (t_end tok - t_start tok)) in
        Ok (if c =? 0 then 0 else -1)
    else Ok (-1)
  else Ok (-1).

(** [target[i - start] = source[i]] for [i] up to [end], and a NUL at
    [end - start]. *)
Fixpoint substring_loop (target source : list Z) (start i : Z) (n : nat) : res (list Z) :=
  match n with
  | O => Ok target
  | S n' =>
      let! c := arr_get source i in
      let! target := arr_set target (i - start) c in
      substring_loop target source start (i + 1) n'
  end.

Definition substring (target source : list Z) (start stop : Z) : res (list Z) :=
  let! target := substring_loop target source start start (Z.to_nat (stop - start + 1)) in
  arr_set target (stop - start) 0.

(** ** The fields of the specification *)

Record spec := mkSpec { s_init : list Z; s_fs : list Z; s_nproc : Z }.

Definition INIT_KEY : list Z := [105; 110; 105; 116].
Definition FS_KEY : list Z := [102; 115].
Definition NPROC_KEY : list Z := [110; 112; 114; 111; 99].

Definition bytes_mem (b : list Z) : mem := fun x => default 0 (b !! Z.to_nat x).

(** The value at [t[i + 1]], copied into an array. *)
Definition value_into (target buf : list Z) (ts : list token) (i : nat) : res (list Z) :=
  let! v := arr_get ts (Z.of_nat i + 1) in
  let len := t_end v - t_start v in
  if t_start v <? 0 then Undef else substring target (drop (Z.to_nat (t_start v)) buf) 0 len.

(** [nproc_str] is the array [char nproc_str[5]] on the stack. *)
Fixpoint parse_fields (fuel : nat) (nproc_str buf : list Z) (ts : list token) (r : nat) (i : nat) (st : spec) : res spec :=
  match fuel with
  | O => Hang
  | S fuel' =>
      if (i <? r)%nat then
        let! t := arr_get ts (Z.of_nat i) in
        let! c := jsoneq buf t INIT_KEY in
        if c =? 0 then
          let! x := value_into (s_init st) buf ts i in
          parse_fields fuel' nproc_str buf ts r (i + 2) (mkSpec x (s_fs st) (s_nproc st))
        else
          let! c := jsoneq buf t FS_KEY in
          if c =? 0 then
            let! x := value_into (s_fs st) buf ts i in
            parse_fields fuel' nproc_str buf ts r (i + 2) (mkSpec (s_init st) x (s_nproc st))
          else
            let! c := jsoneq buf t NPROC_KEY in
            if c =? 0 then
              let! x := value_into nproc_str buf ts i in
              let! n := atoi 6 (bytes_mem x) 0 in
              parse_fields fuel' x buf ts r (i + 2) (mkSpec (s_init st) (s_fs st) n)
            else parse_fields fuel' nproc_str buf ts r (i + 1) st
      else Ok st
  end.

(** [parse_spec] after the file has been read into [buf]; [t] is the array of
    tokens on the stack. *)
Definition parse_buf (nproc_str buf : list Z) (t : list token) (st : spec) : res (Z * spec) :=
  let! len := strlen_const buf in
  let! (r, p) := jsmn_parse (take len buf) (jsmn_init t) in
  if r <? 0 then Ok (-1, st)
  else if r <? 1 then Ok (1, st)
  else
    let! t0 := arr_get (p_tokens p) 0 in
    if negb (bool_decide (t_type t0 = JSMN_OBJECT)) then Ok (1, st)
    else
      let! st := parse_fields (S (Z.to_nat r)) nproc_str buf (p_tokens p) (Z.to_nat r) 1 st in
      Ok (0, st).

(** ** What a specification means *)

(** The token covers the text [x]. *)
Definition spans (js : list Z) (t : token) (x : list Z) : Prop :=
  exists before after, js = before ++ x ++ after /\ t_start t = Z.of_nat (length before) /\ t_end t = t_start t + Z.of_nat (length x).

(** The tokens of the members of a flat object: names and values. *)
Inductive fields (js : list Z) : list token -> list (list Z * list Z) -> Prop :=
| f_nil : fields js [] []
| f_cons k v ts name x fs : t_type k = JSMN_STRING -> spans js k name -> spans js v x -> fields js ts fs ->
    fields js (k :: v :: ts) ((name, x) :: fs).

Definition known : list (list Z) := [INIT_KEY; FS_KEY; NPROC_KEY].

(** A field that fits. The value of a field of another name must not look
    like a name: the scan advances by one token there. *)
Definition field_ok (f : list Z * list Z) : Prop :=
  let '(name, x) := f in
  (name = INIT_KEY /\ (length x < 128)%nat) \/ (name = FS_KEY /\ (length x < 128)%nat) \/
  (name = NPROC_KEY /\ (length x < 5)%nat /\ Forall (fun c => 48 <= c <= 57) x) \/
  ((name ∉ known) /\ (x ∉ known)).

Record config := mkConfig { c_init : list Z; c_fs : list Z; c_nproc : Z }.

(** The decimal number. *)
Definition decimal (x : list Z) : Z := le_val (reverse ((fun c => c - 48) <$> x)).

Definition set_field (c : config) (f : list Z * list Z) : config :=
  let '(name, x) := f in
  if bool_decide (name = INIT_KEY) then mkConfig x (c_fs c) (c_nproc c)
  else if bool_decide (name = FS_KEY) then mkConfig (c_init c) x (c_nproc c)
  else if bool_decide (name = NPROC_KEY) then mkConfig (c_init c) (c_fs c) (decimal x)
  else c.

(** An array of [n] bytes holds a string. *)
Definition holds (n : nat) (b x : list Z) : Prop := length b = n /\ take (S (length x)) b = x ++ [0].

Definition spec_rep (st : spec) (c : config) : Prop :=
  holds 128 (s_init st) (c_init c) /\ holds 128 (s_fs st) (c_fs c) /\ s_nproc st = c_nproc c.

(** ** Strings *)

Lemma strncmp_same : forall x p q, Forall (fun c => c <> 0) x -> strncmp_const (x ++ p) (x ++ q) (length x) = Ok 0.
Proof.
  induction x as [|c x IH]; intros p q Hx; [reflexivity |]. apply Forall_cons in Hx as [Hc Hx]. cbn [app length strncmp_const].
  rewrite (proj2 (Z.eqb_neq c 0) Hc), Z.eqb_refl. cbn [negb andb]. by apply IH.
Qed.

Lemma strncmp_diff : forall x y p q, length x = length y -> x <> y -> Forall (fun c => c <> 0) y ->
  exists d, strncmp_const (x ++ p) (y ++ q) (length x) = Ok d /\ d <> 0.
Proof.
  induction x as [|a x IH]; intros [|b y] p q Hl Hne Hy; try done. apply Forall_cons in Hy as [Hb Hy]. cbn [app length strncmp_const].
  destruct (Z.eqb_spec a b) as [->|Hab].
  - rewrite (proj2 (Z.eqb_neq b 0) Hb). cbn [negb andb]. apply IH; [simpl in Hl; lia | congruence | exact Hy].
  - rewrite andb_false_r. exists (a - b). split; [reflexivity | lia].
Qed.

Lemma strlen_prefix s rest : Forall (fun c => c <> 0) s -> strlen_const (s ++ 0 :: rest) = Ok (length s).
Proof.
  intros Hs. unfold strlen_const. assert (H : forall from, find_from (fun c => c =? 0) (s ++ 0 :: rest) from = Some (from + length s)%nat).
  { induction Hs as [|c s Hc _ IH]; intros from; cbn [app find_from length].
    - cbn. by rewrite Nat.add_0_r.
    - rewrite (proj2 (Z.eqb_neq c 0) Hc), IH. f_equal. lia. }
  by rewrite H.
Qed.

(** The text from the start of a token begins with what the token covers. *)
Lemma spans_drop js rest t x : spans js t x -> exists tail, drop (Z.to_nat (t_start t)) (js ++ rest) = x ++ tail ++ rest.
Proof.
  intros (before & after & -> & -> & _). exists after. rewrite Nat2Z.id, <- !app_assoc. by rewrite drop_app_length.
Qed.

Lemma spans_len js t x : spans js t x -> 0 <= t_start t /\ t_end t - t_start t = Z.of_nat (length x).
Proof. intros (before & after & _ & -> & ->). lia. Qed.

(** A name is recognised exactly when it is the literal. *)
Lemma jsoneq_spec js rest tok name s :
  t_type tok = JSMN_STRING -> spans js tok name -> Forall (fun c => c <> 0) s ->
  exists c, jsoneq (js ++ rest) tok s = Ok c /\ (c =? 0) = bool_decide (name = s).
Proof.
  intros Hty Hsp Hlit. unfold jsoneq. rewrite bool_decide_true, strlen_prefix by assumption. cbn [rbind].
  destruct (spans_len _ _ _ Hsp) as [Hs ->]. destruct (spans_drop _ rest _ _ Hsp) as [tail ->].
  destruct (Z.eqb_spec (Z.of_nat (length s)) (Z.of_nat (length name))) as [Hl|Hl].
  - rewrite (proj2 (Z.ltb_ge _ 0)), Nat2Z.id by lia. destruct (decide (name = s)) as [->|Hne].
    + rewrite strncmp_same by exact Hlit. cbn [rbind]. exists 0. split; [reflexivity |]. by rewrite bool_decide_true.
    + destruct (strncmp_diff name s (tail ++ rest) [0]) as (d & -> & Hd); [lia | exact Hne | exact Hlit |].
      cbn [rbind]. rewrite (proj2 (Z.eqb_neq d 0) Hd). exists (-1). split; [reflexivity |]. by rewrite bool_decide_false.
  - exists (-1). split; [reflexivity |]. rewrite bool_decide_false; [reflexivity |]. intros ->. lia.
Qed.

(** ** Copying a value *)

Lemma substring_loop_spec source target : forall n i,
  (i + n <= length source)%nat -> (i + n <= length target)%nat ->
  substring_loop target source 0 (Z.of_nat i) n = Ok (take i target ++ take n (drop i source) ++ drop (i + n) target).
Proof.
  intros n i. revert target i. induction n as [|n IH]; intros target i Hs Ht; cbn [substring_loop].
  - rewrite Nat.add_0_r, take_0. cbn [app]. by rewrite take_drop.
  - destruct (lookup_lt_is_Some_2 source i) as [c Hc]; [lia |]. rewrite (arr_get_nat _ _ c) by exact Hc. cbn [rbind].
    replace (Z.of_nat i - 0) with (Z.of_nat i) by lia. rewrite arr_set_nat by lia. cbn [rbind].
    replace (Z.of_nat i + 1) with (Z.of_nat (S i)) by lia. rewrite IH by (rewrite ?length_insert; lia). f_equal.
    rewrite take_insert_snoc, drop_insert_lt by lia. rewrite <- app_assoc. f_equal.
    rewrite (drop_S source c i) by exact Hc. cbn. do 2 f_equal. f_equal. lia.
Qed.

Lemma substring_spec target source x rest :
  source = x ++ rest -> (0 < length rest)%nat -> (length x < length target)%nat ->
  exists b, substring target source 0 (Z.of_nat (length x)) = Ok b /\ holds (length target) b x.
Proof.
  intros -> Hr Ht. unfold substring. replace (Z.to_nat (Z.of_nat (length x) - 0 + 1)) with (S (length x)) by lia.
  change 0 with (Z.of_nat 0) at 2. rewrite substring_loop_spec by (rewrite ?length_app; lia). rewrite take_0, drop_0. cbn [app Nat.add rbind]. replace (Z.of_nat (length x) - 0) with (Z.of_nat (length x)) by lia.
  rewrite arr_set_nat by (rewrite length_app, length_take, length_drop, length_app; lia). eexists. split; [reflexivity |].
  split; [rewrite length_insert, length_app, length_take, length_drop, length_app; lia |].
  rewrite take_insert_snoc by (rewrite length_app, length_take, length_drop, length_app; lia). f_equal.
  rewrite take_app_le by (rewrite length_take, length_app; lia). rewrite take_take, Nat.min_l by lia. by rewrite take_app_length.
Qed.

Lemma value_into_spec target js rest ts i v x :
  ts !! S i = Some v -> spans js v x -> (0 < length rest)%nat -> (length x < length target)%nat ->
  exists b, value_into target (js ++ rest) ts i = Ok b /\ holds (length target) b x.
Proof.
  intros Hv Hsp Hr Ht. unfold value_into. replace (Z.of_nat i + 1) with (Z.of_nat (S i)) by lia.
  rewrite (arr_get_nat _ _ _ Hv). cbn [rbind]. destruct (spans_len _ _ _ Hsp) as [Hs ->].
  rewrite (proj2 (Z.ltb_ge _ 0)) by lia. destruct (spans_drop _ rest _ _ Hsp) as [tail ->].
  apply (substring_spec _ _ _ (tail ++ rest)); [reflexivity | rewrite length_app; lia | exact Ht].
Qed.

(** ** The number *)

Lemma holds_lookup n b x j : holds n b x -> (j <= length x)%nat -> b !! j = (x ++ [0]) !! j.
Proof. intros [_ H] Hj. rewrite <- H. by rewrite lookup_take_lt by lia. Qed.

Lemma atoi_decimal n b x :
  holds n b x -> (length x < 5)%nat -> Forall (fun c => 48 <= c <= 57) x -> atoi 6 (bytes_mem b) 0 = Ok (decimal x).
Proof.
  intros Hb Hl Hx. set (ds := (fun c => c - 48) <$> x). assert (Hlen : length ds = length x) by apply length_fmap.
  assert (Hds : Forall (fun d => 0 <= d < 10) ds) by (apply Forall_fmap; eapply Forall_impl; [exact Hx |]; cbn; lia).
  assert (Hval : 0 <= le_val (reverse ds) < 10 ^ Z.of_nat (length (reverse ds))) by (apply le_val_range, Forall_reverse, Hds).
  rewrite length_reverse, Hlen in Hval.
  assert (10 ^ Z.of_nat (length x) <= 10 ^ 4) by (apply Z.pow_le_mono_r; lia).
  unfold atoi. rewrite (atoi_loop_spec 6 _ 0 0 ds); [f_equal; unfold decimal; fold ds; lia | exact Hds | lia | lia | lia | |].
  - intros j d Hj. unfold ds in Hj. apply list_lookup_fmap_Some in Hj as (c & -> & Hj). unfold bytes_mem.
    pose proof (lookup_lt_Some _ _ _ Hj). rewrite Z.add_0_l, Nat2Z.id, (holds_lookup _ _ _ _ Hb), lookup_app_l, Hj by lia. cbn. lia.
  - unfold bytes_mem. by rewrite Z.add_0_l, Nat2Z.id, Hlen, (holds_lookup _ _ _ _ Hb), lookup_app_r, Nat.sub_diag by lia.
Qed.

(** ** The scan of the tokens *)

(** A token that does not name a field is passed over. *)
Lemma pass_token f np js rest ts r i st t x :
  ts !! i = Some t -> (i < r)%nat -> spans js t x -> x ∉ known ->
  parse_fields (S f) np (js ++ rest) ts r i st = parse_fields f np (js ++ rest) ts r (i + 1) st.
Proof.
  intros Ht Hi Hsp Hx. cbn [parse_fields]. rewrite (proj2 (Nat.ltb_lt i r) Hi), (arr_get_nat _ _ _ Ht). cbn [rbind].
  assert (Hno : forall s, s ∈ known -> exists c, jsoneq (js ++ rest) t s = Ok c /\ (c =? 0) = false).
  { intros s Hs. destruct (decide (t_type t = JSMN_STRING)) as [Hty|Hty].
    - destruct (jsoneq_spec js rest t x s) as (c & Hc & Hz); [done .. | |].
      + unfold known in Hs. set_unfold in Hs. destruct Hs as [->|[->|[->|[]]]]; repeat constructor; discriminate.
      + exists c. split; [exact Hc |]. rewrite Hz. apply bool_decide_false. by intros ->.
    - exists (-1). split; [| reflexivity]. unfold jsoneq. by rewrite bool_decide_false. }
  destruct (Hno INIT_KEY) as (c1 & -> & H1); [set_solver |]. cbn [rbind]. rewrite H1.
  destruct (Hno FS_KEY) as (c2 & -> & H2); [set_solver |]. cbn [rbind]. rewrite H2.
  destruct (Hno NPROC_KEY) as (c3 & -> & H3); [set_solver |]. cbn [rbind]. by rewrite H3.
Qed.

Lemma strings_nonzero s : s ∈ known -> Forall (fun c => c <> 0) s.
Proof. unfold known. intros Hs. set_unfold in Hs. destruct Hs as [->|[->|[->|[]]]]; repeat constructor; discriminate. Qed.

(** A member of the object: its name and its value. *)
Lemma take_field f np js rest ts r i st c k v name x :
  ts !! i = Some k -> ts !! S i = Some v -> (S i < r)%nat -> t_type k = JSMN_STRING -> spans js k name -> spans js v x ->
  (0 < length rest)%nat -> length np = 5%nat -> spec_rep st c -> field_ok (name, x) ->
  exists f' np' st', (f <= f')%nat /\ length np' = 5%nat /\ spec_rep st' (set_field c (name, x)) /\
    parse_fields (S (S f)) np (js ++ rest) ts r i st = parse_fields f' np' (js ++ rest) ts r (i + 2) st'.
Proof.
  intros Hk Hv Hi Hty Hn Hx Hr Hnp (Hinit & Hfs & Hproc) Hf.
  assert (Heq : forall s, s ∈ known -> exists c, jsoneq (js ++ rest) k s = Ok c /\ (c =? 0) = bool_decide (name = s))
    by (intros s Hs; apply jsoneq_spec, strings_nonzero; assumption).
  destruct (Heq INIT_KEY) as (c1 & E1 & H1); [set_solver |]. destruct (Heq FS_KEY) as (c2 & E2 & H2); [set_solver |].
  destruct (Heq NPROC_KEY) as (c3 & E3 & H3); [set_solver |].
  assert (Hi' : (i <? r)%nat = true) by (apply Nat.ltb_lt; lia).
  destruct Hf as [[-> Hl]|[[-> Hl]|[(-> & Hl & Hd)|[Hno Hnx]]]].
  - destruct (value_into_spec (s_init st) js rest ts i v x) as (b & Hb & Hh); [done .. | by rewrite (proj1 Hinit) |].
    exists (S f), np, (mkSpec b (s_fs st) (s_nproc st)). rewrite (proj1 Hinit) in Hh. split_and!; [lia | exact Hnp | by split_and! |].
    cbn [parse_fields]. rewrite Hi', (arr_get_nat _ _ _ Hk). cbn [rbind]. rewrite E1. cbn [rbind]. rewrite H1. cbn [bool_decide].
    by rewrite bool_decide_true, Hb by reflexivity.
  - destruct (value_into_spec (s_fs st) js rest ts i v x) as (b & Hb & Hh); [done .. | by rewrite (proj1 Hfs) |].
    exists (S f), np, (mkSpec (s_init st) b (s_nproc st)). rewrite (proj1 Hfs) in Hh. split_and!; [lia | exact Hnp | by split_and! |].
    cbn [parse_fields]. rewrite Hi', (arr_get_nat _ _ _ Hk). cbn [rbind]. rewrite E1, E2. cbn [rbind]. rewrite H1, H2.
    by rewrite bool_decide_false, bool_decide_true, Hb by done.
  - destruct (value_into_spec np js rest ts i v x) as (b & Hb & Hh); [done .. | by rewrite Hnp |].
    exists (S f), b, (mkSpec (s_init st) (s_fs st) (decimal x)). rewrite Hnp in Hh. split_and!; [lia | apply Hh | by split_and! |].
    cbn [parse_fields]. rewrite Hi', (arr_get_nat _ _ _ Hk). cbn [rbind]. rewrite E1, E2, E3. cbn [rbind]. rewrite H1, H2, H3.
    rewrite !bool_decide_false, bool_decide_true, Hb by done. cbn [rbind]. by rewrite (atoi_decimal _ _ _ Hh Hl Hd).
  - exists f, np, st. split_and!; [lia | exact Hnp | |].
    + unfold set_field. rewrite !bool_decide_false by (intros ->; apply Hno; set_solver). by split_and!.
    + rewrite (pass_token _ _ _ _ _ _ _ _ k name), (pass_token _ _ _ _ _ _ _ _ v x) by (done || lia || by rewrite Nat.add_1_r). f_equal. lia.
Qed.

(** All the members. *)
Lemma parse_fields_spec js rest ts r : (0 < length rest)%nat -> (r <= length ts)%nat -> forall new fs, fields js new fs ->
  forall f np i st c, drop i (take r ts) = new -> length np = 5%nat -> spec_rep st c -> Forall field_ok fs -> (length new < f)%nat ->
  exists st', parse_fields f np (js ++ rest) ts r i st = Ok st' /\ spec_rep st' (foldl set_field c fs).
Proof.
  intros Hrest Hr new fs Hnew. induction Hnew as [|k v new name x fs Hty Hk Hv _ IH]; intros f np i st c Hdrop Hnp Hst Hok Hf.
  - destruct f as [|f]; [simpl in Hf; lia |]. exists st. split; [| exact Hst]. cbn [parse_fields].
    assert (Hl := f_equal length Hdrop). rewrite length_drop, length_take in Hl. simpl in Hl.
    by rewrite (proj2 (Nat.ltb_ge i r)) by lia.
  - simpl in Hf. destruct f as [|[|f]]; [lia .. |]. apply Forall_cons in Hok as [Hok Hoks].
    assert (Hki : take r ts !! i = Some k) by (rewrite <- (Nat.add_0_r i), <- lookup_drop, Hdrop; reflexivity).
    assert (Hvi : take r ts !! S i = Some v) by (rewrite <- Nat.add_1_r, <- lookup_drop, Hdrop; reflexivity).
    apply lookup_take_Some in Hki as [Hki _]. apply lookup_take_Some in Hvi as [Hvi ?].
    destruct (take_field f np js rest ts r i st c k v name x) as (f' & np' & st' & Hf' & Hnp' & Hst' & ->); try done.
    apply IH; [| done .. | lia]. rewrite <- (drop_drop (take r ts)), Hdrop. reflexivity.
Qed.

(** ** The scan ends

    Whatever the text and the arrays hold, the code comes to an end, unless it
    writes outside an array. *)

Definition ends {A} (c : res A) (Q : A -> Prop) : Prop :=
  match c with Ok a => Q a | Undef => True | Panic _ | Hang => False end.

Lemma ends_bind {A B} (c : res A) (k : A -> res B) P Q : ends c P -> (forall a, P a -> ends (k a) Q) -> ends (rbind c k) Q.
Proof. destruct c; cbn; auto. Qed.

Lemma ends_get {A} (l : list A) i : ends (arr_get l i) (fun _ => True).
Proof. unfold arr_get. destruct (i <? 0); [done |]. by destruct (l !! Z.to_nat i). Qed.

Lemma ends_set {A} (l : list A) i x : ends (arr_set l i x) (fun l' => length l' = length l).
Proof. unfold arr_set. destruct (_ && _); [apply length_insert | done]. Qed.

Lemma strncmp_ends : forall n p q, ends (strncmp_const p q n) (fun _ => True).
Proof. induction n as [|n IH]; intros [|a p] [|b q]; cbn; try done. destruct (negb (a =? 0) && (a =? b)); [apply IH | done]. Qed.

Lemma strlen_ends s : ends (strlen_const s) (fun _ => True).
Proof. unfold strlen_const. by destruct (find_from _ s 0). Qed.

Lemma jsoneq_ends js t s : ends (jsoneq js t s) (fun _ => True).
Proof.
  unfold jsoneq. destruct (bool_decide _); [| done]. eapply ends_bind; [apply strlen_ends |]. intros n _.
  destruct (_ =? _); [| done]. destruct (_ <? _); [done |]. eapply ends_bind; [apply strncmp_ends |]. done.
Qed.

Lemma substring_ends target source start stop : ends (substring target source start stop) (fun b => length b = length target).
Proof.
  assert (H : forall n target i, ends (substring_loop target source start i n) (fun b => length b = length target)).
  { induction n as [|n IH]; intros tg i; cbn [substring_loop]; [done |]. eapply ends_bind; [apply ends_get |]. intros c _.
    eapply ends_bind; [apply ends_set |]. intros tg' <-. apply IH. }
  unfold substring. eapply ends_bind; [apply H |]. intros tg' <-. apply ends_set.
Qed.

Lemma value_into_ends target js ts i : ends (value_into target js ts i) (fun b => length b = length target).
Proof. unfold value_into. eapply ends_bind; [apply ends_get |]. intros v _. destruct (_ <? _); [done | apply substring_ends]. Qed.

Lemma atoi_ends b fuel : forall i n, (i <= length b)%nat -> (length b < i + fuel)%nat ->
  ends (atoi_loop fuel (bytes_mem b) (Z.of_nat i) n) (fun _ => True).
Proof.
  induction fuel as [|f IH]; intros i n Hi Hf; [lia |]. cbn [atoi_loop]. unfold bytes_mem at 1 2. rewrite Nat2Z.id.
  destruct (b !! i) as [c|] eqn:Hc; cbn [default]; [| done]. apply lookup_lt_Some in Hc.
  destruct (_ && _); [| done]. replace (Z.of_nat i + 1) with (Z.of_nat (S i)) by lia. apply IH; lia.
Qed.

Lemma parse_fields_ends js ts r : forall fuel np i st, length np = 5%nat -> (r <= i + fuel)%nat ->
  ends (parse_fields (S fuel) np js ts r i st) (fun _ => True).
Proof.
  induction fuel as [|f IH]; intros np i st Hnp Hf; cbn [parse_fields]; (destruct (Nat.ltb_spec i r); [| done]); [lia |].
  eapply ends_bind; [apply ends_get |]. intros t _. eapply ends_bind; [apply jsoneq_ends |]. intros c _.
  destruct (c =? 0); [eapply ends_bind; [apply value_into_ends |]; intros x _; apply IH; lia |].
  eapply ends_bind; [apply jsoneq_ends |]. intros c2 _.
  destruct (c2 =? 0); [eapply ends_bind; [apply value_into_ends |]; intros x _; apply IH; lia |].
  eapply ends_bind; [apply jsoneq_ends |]. intros c3 _. destruct (c3 =? 0); [| apply IH; lia].
  eapply ends_bind; [apply value_into_ends |]. intros x Hx. cbn in Hx.
  eapply ends_bind; [apply (atoi_ends x 6 0); lia |]. intros n _. apply IH; lia.
Qed.

Lemma parse_buf_ends np buf t st : length np = 5%nat -> ends (parse_buf np buf t st) (fun r => fst r = -1 \/ fst r = 0 \/ fst r = 1).
Proof.
  intros Hnp. unfold parse_buf. eapply ends_bind; [apply strlen_ends |]. intros n _.
  destruct (jsmn_parse_ok (take n buf) t) as (r & p & -> & _). cbn [rbind].
  destruct (Z.ltb_spec r 0); [by left |]. destruct (Z.ltb_spec r 1); [by right; right |].
  eapply ends_bind; [apply ends_get |]. intros t0 _. destruct (bool_decide _); cbn [negb]; [| by right; right].
  eapply ends_bind; [apply parse_fields_ends; lia |]. intros st' _. by right; left.
Qed.


Lemma spans_at js ty a b n : (a + b <= length js)%nat -> spans js (mkTok ty (Z.of_nat a) (Z.of_nat (a + b)) n) (take b (drop a js)).
Proof.
  intros Hl. exists (take a js), (drop b (drop a js)). cbn [t_start t_end]. rewrite !take_drop, !length_take, length_drop.
  split_and!; [reflexivity | lia | lia].
Qed.

Definition demo_stack : list token := replicate 128 (mkTok JSMN_UNDEFINED 0 0 0).
Definition demo_globals : spec := mkSpec (replicate 128 0) (replicate 128 0) 0.

