(* ===== verification/Manager.v ===== *)
(** * Creating containers (helpers.h, cm.h)

    The programs that set a container up: reading its specification, filling
    its directory, and the calls that create it and start its first process.
    The kernel appears through its answers: a system call is recorded and
    takes the next answer, a number and the bytes or the two descriptors that
    the kernel stores. A call without an answer does not return, as [exec] when
    it succeeds; a program that waits in such a call, or that has called
    [exit], yields [None]. Messages are recorded without their
    arguments. Arrays on the stack that are not initialised are arguments. *)

From S2P Require Import Prelude Mem CString Jsmn Cm.

(** ** System calls *)

Inductive call :=
| Open (path : list Z) (mode : Z)
| Read (fd n : Z)
| Write (fd : Z) (data : list Z)
| Close (fd : Z)
| Mkdir (path : list Z)
| Chdir (path : list Z)
| Pipe
| Exec (path : list Z) (args : list (list Z))
| Wait
| Exit
| Get_new_cid
| Setname (cid : Z) (name : list Z)
| Setalive (cid alive : Z)
| Setmaxproc (cid n : Z)
| Setvc (cid : Z) (name : list Z) (pipefd : Z * Z)
| Fork2 (cid : Z)
| Setroot (cid : Z) (path : list Z)
| Printf (fd : Z) (fmt : string).

Definition answer : Type := Z * list Z.

(** What the kernel answers, the calls made so far, and the global variables
    [init], [fs], [nproc], [fds], [fdz], [retcode] of cm.h. *)
Record session := mkSession {
  w_answers : list answer;
  w_calls : list call;
  w_spec : spec;
  w_fds : Z * Z;
  w_fdz : Z * Z;
  w_retcode : Z
}.

Definition set_spec (st : spec) (w : session) : session :=
  mkSession (w_answers w) (w_calls w) st (w_fds w) (w_fdz w) (w_retcode w).
Definition set_fds (p : Z * Z) (w : session) : session :=
  mkSession (w_answers w) (w_calls w) (w_spec w) p (w_fdz w) (w_retcode w).
Definition set_fdz (p : Z * Z) (w : session) : session :=
  mkSession (w_answers w) (w_calls w) (w_spec w) (w_fds w) p (w_retcode w).
Definition set_retcode (r : Z) (w : session) : session :=
  mkSession (w_answers w) (w_calls w) (w_spec w) (w_fds w) (w_fdz w) r.
Definition log_call (c : call) (w : session) : session :=
  mkSession (w_answers w) (w_calls w ++ [c]) (w_spec w) (w_fds w) (w_fdz w) (w_retcode w).
Definition answered (w : session) : session :=
  mkSession (tail (w_answers w)) (w_calls w) (w_spec w) (w_fds w) (w_fdz w) (w_retcode w).

Definition prog (A : Type) : Type := ST session (option A).

Definition pret {A} (a : A) : prog A := ret (Some a).
Definition pbind {A B} (c : prog A) (k : A -> prog B) : prog B :=
  let* r := c in match r with Some a => k a | None => ret None end.

Notation "'do!' x := c 'in' k" := (pbind c (fun x => k))
  (at level 10, x pattern, c at level 200, k at level 200,
   format "'[v' 'do!'  x  :=  c  'in' '/' k ']'") : kernel_scope.

Definition sys (c : call) : prog answer := fun w =>
  match w_answers w with
  | [] => Ok (None, log_call c w)
  | a :: _ => Ok (Some a, log_call c (answered w))
  end.

(** A call whose answer is only a number. *)
Definition syscall (c : call) : prog Z := do! a := sys c in pret (fst a).

Definition printf (fd : Z) (fmt : string) : prog unit := modify (log_call (Printf fd fmt)) ;;; pret tt.
Definition exit_now {A} : prog A := modify (log_call Exit) ;;; ret None.
Definition globals {A} (f : session -> A) : prog A := let* a := get f in pret a.
Definition assign (f : session -> session) : prog unit := modify f ;;; pret tt.
Definition calc {A} (c : res A) : prog A := let* a := lift c in pret a.

(** [read(fd, buf, sizeof(buf))] *)
Definition read (fd : Z) (buf : list Z) : prog (Z * list Z) :=
  do! (n, data) := sys (Read fd (Z.of_nat (length buf))) in
  if n <=? 0 then pret (n, buf)
  else if (n =? Z.of_nat (length data)) && (length data <=? length buf)%nat then pret (n, data ++ drop (length data) buf)
  else undef.

(** [pipe(fds)], with the place of the two descriptors. *)
Definition make_pipe (store : Z * Z -> session -> session) : prog Z :=
  do! (r, data) := sys Pipe in
  if r =? 0 then
    match data with
    | [a; b] => do! _ := assign (store (a, b)) in pret 0
    | _ => undef
    end
  else pret r.

(** ** Reading the specification *)

(** [while((i = read(fd, buf, sizeof(buf))) > 0);] *)
Fixpoint read_all (fuel : nat) (fd : Z) (buf : list Z) : prog (list Z) :=
  match fuel with
  | O => fun _ => Hang
  | S fuel' => do! (i, buf) := read fd buf in if 0 <? i then read_all fuel' fd buf else pret buf
  end.

(** The arrays [buf], [t] and [nproc_str] on the stack. *)
Record stack_frame := mkFrame { f_buf : list Z; f_t : list token; f_nproc_str : list Z }.

Definition parse_spec (fuel : nat) (fr : stack_frame) (specfile : list Z) : prog Z :=
  do! fd := syscall (Open specfile 0) in
  do! buf := read_all fuel fd (f_buf fr) in
  do! _ := syscall (Close fd) in
  do! st := globals w_spec in
  do! (r, st) := calc (parse_buf (f_nproc_str fr) buf (f_t fr) st) in
  do! _ := assign (set_spec st) in
  if r =? -1 then do! _ := printf 1 "Failed to parse JSON: %d" in pret r
  else if r =? 1 then do! _ := printf 1 "Object expected" in pret r
  else pret r.

(** ** Filling the directory *)

Fixpoint cp_loop (fuel : nat) (fd dfd : Z) (buf : list Z) (w : Z) : prog (Z * Z) :=
  match fuel with
  | O => fun _ => Hang
  | S fuel' =>
      do! (r, buf) := read fd buf in
      if 0 <? r then
        do! w := syscall (Write dfd (take (Z.to_nat r) buf)) in
        if negb (w =? r) || (w <? 0) then pret (r, w) else cp_loop fuel' fd dfd buf w
      else pret (r, w)
  end.

(** [buf] is the array [char buf[512]]; the modes are [O_RDONLY] and
    [O_CREATE|O_WRONLY]. *)
Definition cp_func (fuel : nat) (buf src dest : list Z) : prog Z :=
  do! fd := syscall (Open src 0) in
  if fd <? 0 then do! _ := printf 2 "cp: cannot open source %s" in exit_now
  else
    do! dfd := syscall (Open dest 0x201) in
    if dfd <? 0 then do! _ := printf 2 "cp: cannot open destination %s" in exit_now
    else
      do! (r, w) := cp_loop fuel fd dfd buf (-1) in
      do! _ := (if (r <? 0) || (w <? 0) then printf 2 "cp: error copying %s to %s" else pret tt) in
      do! _ := syscall (Close fd) in
      do! _ := syscall (Close dfd) in
      pret 0.

Definition chars (s : string) : list Z := (fun a => Z.of_N (Ascii.N_of_ascii a)) <$> String.list_ascii_of_string s.

Definition files : list (list Z) :=
  chars <$> ["ls"; "cat"; "sh"; "cp"; "mkdir"; "ps"; "pscon"; "hello"; "makeproc"; "text1.txt"]%string.

(** The string in an array. *)
Definition string_in (b : list Z) : res (list Z) := let! n := strlen_const b in Ok (take n b).

(** [dest] is an array of 64 bytes. *)
Definition dest_path (fs file : list Z) : res (list Z) :=
  let dest := fs ++ [47] ++ file in if (length dest <? 64)%nat then Ok dest else Undef.

Fixpoint copy_files (fuel : nat) (buf fs : list Z) (files : list (list Z)) : prog unit :=
  match files with
  | [] => pret tt
  | file :: files' =>
      do! dest := calc (dest_path fs file) in
      do! _ := cp_func fuel buf file dest in
      copy_files fuel buf fs files'
  end.

Definition init_dir (fuel : nat) (buf fs : list Z) : prog Z :=
  do! r := syscall (Mkdir fs) in
  if negb (r =? 0) then do! _ := printf 1 "Creating container failed. Container taken." in pret (-1)
  else do! _ := copy_files fuel buf fs files in pret 0.

(** ** Starting the container *)

Definition INIT_DIR_ERROR : Z := 0.

(** From [setname] on, where the two routines are the same. *)
Definition start_container (cid : Z) : prog Z :=
  do! st := globals w_spec in
  do! fs := calc (string_in (s_fs st)) in
  do! _ := syscall (Setname cid fs) in
  do! _ := syscall (Setalive cid 1) in
  do! _ := syscall (Setmaxproc cid (s_nproc st)) in
  do! r := make_pipe set_fds in
  if negb (r =? 0) then do! _ := printf 1 "pipe() failed fds" in pret (-1)
  else
    do! r := make_pipe set_fdz in
    if negb (r =? 0) then do! _ := printf 1 "pipe() failed fdz" in pret (-1)
    else
      do! fds := globals w_fds in
      do! fdz := globals w_fdz in
      do! _ := syscall (Setvc cid fs (fst fdz, snd fds)) in
      do! pid := syscall (Fork2 cid) in
      if pid =? 0 then
        do! _ := syscall (Close (fst fds)) in
        do! _ := syscall (Close (snd fdz)) in
        do! _ := syscall (Setroot cid fs) in
        do! r := syscall (Chdir [47]) in
        if r <? 0 then do! _ := printf 1 "Container %s does not exist." in pret (-1)
        else
          do! init := calc (string_in (s_init st)) in
          do! _ := syscall (Exec init [init]) in
          pret 0
      else
        do! _ := syscall (Close (snd fds)) in
        do! _ := syscall (Close (fst fdz)) in
        do! _ := syscall (Close (fst fds)) in
        do! _ := syscall (Close (snd fdz)) in
        do! _ := syscall Wait in
        pret 0.

(** [cpbuf] is the buffer of [cp_func]. *)
Definition cm_create_and_enter (fuel : nat) (fr : stack_frame) (cpbuf specfile : list Z) : prog Z :=
  do! r := parse_spec fuel fr specfile in
  do! _ := assign (set_retcode r) in
  if negb (r =? 0) then pret r
  else
    do! cid := syscall Get_new_cid in
    if cid <? 0 then do! _ := printf 1 "Maximum number of containers has been reached!" in pret cid
    else
      do! _ := printf 1 "CM creating container with init = %s, root fs = %s, and max num processes = %d" in
      do! st := globals w_spec in
      do! fs := calc (string_in (s_fs st)) in
      do! r := init_dir fuel cpbuf fs in
      if r <=? 0 then pret INIT_DIR_ERROR else start_container cid.

Definition io_container (fuel : nat) (fr : stack_frame) : prog Z :=
  do! r := parse_spec fuel fr (chars "spec.json") in
  do! _ := assign (set_retcode r) in
  if negb (r =? 0) then pret r
  else
    do! cid := syscall Get_new_cid in
    start_container cid.

(** ** Runs

    A run that meets no undefined behaviour ends, and its end satisfies the
    condition. *)
Definition safe {A} (c : prog A) (w : session) (Q : option A -> session -> Prop) : Prop :=
  match c w with
  | Ok (r, w') => Q r w'
  | Undef => True
  | Panic _ | Hang => False
  end.

Lemma safe_mono {A} (c : prog A) w (Q Q' : option A -> session -> Prop) :
  safe c w Q -> (forall r w', Q r w' -> Q' r w') -> safe c w Q'.
Proof. unfold safe. destruct (c w) as [[r w']| | |]; auto. Qed.

Lemma safe_pret {A} (a : A) w (Q : option A -> session -> Prop) : Q (Some a) w -> safe (pret a) w Q.
Proof. trivial. Qed.

Lemma safe_bind {A B} (c : prog A) (k : A -> prog B) w Q :
  safe c w (fun r w' => match r with Some a => safe (k a) w' Q | None => Q None w' end) -> safe (pbind c k) w Q.
Proof. unfold safe, pbind, bind. destruct (c w) as [[[a|] w']| | |]; done. Qed.

Lemma safe_sys c w (Q : option answer -> session -> Prop) :
  Q None (log_call c w) -> (forall a, (0 < length (w_answers w))%nat -> Q (Some a) (log_call c (answered w))) -> safe (sys c) w Q.
Proof. unfold safe, sys. destruct (w_answers w); [auto |]. intros _ H. apply H. simpl. lia. Qed.

Lemma safe_call {B} c (k : Z -> prog B) w Q :
  Q None (log_call c w) -> (forall a, safe (k a) (log_call c (answered w)) Q) -> safe (pbind (syscall c) k) w Q.
Proof. intros H0 H. apply safe_bind, safe_bind, safe_sys; [exact H0 |]. intros a _. apply safe_pret, H. Qed.

Lemma safe_calc {A B} (c : res A) (k : A -> prog B) P w Q :
  ends c P -> (forall a, P a -> safe (k a) w Q) -> safe (pbind (calc c) k) w Q.
Proof. intros Hc H. unfold calc, lift. destruct c as [a| | |]; try done. exact (H a Hc). Qed.

Lemma safe_printf {B} fd fmt (k : unit -> prog B) w Q :
  safe (k tt) (log_call (Printf fd fmt) w) Q -> safe (pbind (printf fd fmt) k) w Q.
Proof. trivial. Qed.

Lemma safe_globals {A B} (f : session -> A) (k : A -> prog B) w Q : safe (k (f w)) w Q -> safe (pbind (globals f) k) w Q.
Proof. trivial. Qed.

Lemma safe_assign {B} f (k : unit -> prog B) w Q : safe (k tt) (f w) Q -> safe (pbind (assign f) k) w Q.
Proof. trivial. Qed.

Lemma safe_exit {A} w (Q : option A -> session -> Prop) : Q None (log_call Exit w) -> safe exit_now w Q.
Proof. trivial. Qed.

(** ** The calls of the preparation *)

(** Calls that neither change a container nor start a program. *)
Definition prep (c : call) : Prop :=
  match c with
  | Open _ _ | Read _ _ | Write _ _ | Close _ | Mkdir _ | Printf _ _ | Exit | Get_new_cid => True
  | _ => False
  end.

(** From [w] to [w'] only such calls were made, and no answer was added. *)
Record prepares (w w' : session) : Prop := {
  p_calls : exists new, w_calls w' = w_calls w ++ new /\ Forall prep new;
  p_left : (length (w_answers w') <= length (w_answers w))%nat
}.

#[export] Instance prepares_preorder : PreOrder prepares.
Proof.
  split.
  - intros w. split; [exists []; by rewrite app_nil_r | lia].
  - intros w1 w2 w3 [(n1 & E1 & H1) L1] [(n2 & E2 & H2) L2]. split; [| lia]. exists (n1 ++ n2).
    rewrite E2, E1, app_assoc. split; [reflexivity | by apply Forall_app].
Qed.

Lemma prepares_log c w : prep c -> prepares w (log_call c w).
Proof. intros H. split; [exists [c]; cbn; auto | cbn; lia]. Qed.

Lemma prepares_call c w : prep c -> prepares w (log_call c (answered w)).
Proof. intros H. split; [exists [c]; cbn; auto | cbn]. destruct (w_answers w); simpl; lia. Qed.

(** A program that only prepares: from any state it comes to an end, unless it
    meets undefined behaviour. *)
Definition preparing {A} (fuel : nat) (c : prog A) (Q : A -> Prop) : Prop :=
  forall w, (length (w_answers w) < fuel)%nat -> safe c w (fun r w' => prepares w w' /\ match r with Some a => Q a | None => True end).

Lemma preparing_bind {A B} fuel (c : prog A) (k : A -> prog B) P Q :
  preparing fuel c P -> (forall a, P a -> preparing fuel (k a) Q) -> preparing fuel (pbind c k) Q.
Proof.
  intros Hc Hk w Hw. apply safe_bind. eapply safe_mono; [exact (Hc w Hw) |]. intros [a|] w' [Hp Ha]; [| done].
  eapply safe_mono; [apply (Hk a Ha w'); destruct Hp; lia |]. intros r w2 [Hp2 Hr]. split; [by etrans | exact Hr].
Qed.

Lemma preparing_pret {A} fuel (a : A) (Q : A -> Prop) : Q a -> preparing fuel (pret a) Q.
Proof. intros Ha w _. split; [reflexivity | exact Ha]. Qed.

Lemma preparing_sys fuel c : prep c -> preparing fuel (sys c) (fun _ => True).
Proof. intros Hc w _. apply safe_sys; [| intros a _]; split; auto using prepares_log, prepares_call. Qed.

Lemma preparing_call fuel c : prep c -> preparing fuel (syscall c) (fun _ => True).
Proof. intros Hc. eapply preparing_bind; [by apply preparing_sys |]. intros a _. by apply preparing_pret. Qed.

Lemma preparing_printf fuel fd fmt : preparing fuel (printf fd fmt) (fun _ => True).
Proof. intros w _. split; [by apply prepares_log | done]. Qed.

Lemma preparing_exit {A} fuel (Q : A -> Prop) : preparing fuel exit_now Q.
Proof. intros w _. split; [by apply prepares_log | done]. Qed.

Lemma preparing_globals {A} fuel (f : session -> A) : preparing fuel (globals f) (fun _ => True).
Proof. intros w _. split; [reflexivity | done]. Qed.

Lemma preparing_assign fuel f :
  (forall w, w_calls (f w) = w_calls w) -> (forall w, w_answers (f w) = w_answers w) -> preparing fuel (assign f) (fun _ => True).
Proof. intros Hc Ha w _. split; [| done]. split; [exists []; cbn; by rewrite Hc, app_nil_r | cbn; by rewrite Ha]. Qed.

Lemma preparing_calc {A} fuel (c : res A) P : ends c P -> preparing fuel (calc c) P.
Proof. intros Hc w _. unfold calc, lift, safe. by destruct c. Qed.

Create HintDb preparing.
#[export] Hint Resolve preparing_pret preparing_call preparing_printf preparing_exit preparing_globals preparing_calc : preparing.
#[export] Hint Extern 1 (prep _) => exact I : preparing.

(** Steps through a program that prepares. *)
Ltac prep_step := eapply preparing_bind; [eauto with preparing | intros ? _].

(** Each turn of a loop that reads takes an answer. *)
Lemma safe_read {B} fd buf (k : Z * list Z -> prog B) w (Q : option B -> session -> Prop) :
  (forall w', prepares w w' -> Q None w') ->
  (forall x w', prepares w w' -> (length (w_answers w') < length (w_answers w))%nat -> safe (k x) w' Q) ->
  safe (pbind (read fd buf) k) w Q.
Proof.
  intros H0 H. unfold read. apply safe_bind, safe_bind, safe_sys; [apply H0; by apply prepares_log |].
  intros [n data] Hw. assert (Hp := prepares_call (Read fd (Z.of_nat (length buf))) w I). cbn.
  assert ((length (w_answers (log_call (Read fd (Z.of_nat (length buf))) (answered w))) < length (w_answers w))%nat)
    by (cbn; destruct (w_answers w); simpl in *; lia).
  destruct (n <=? 0); [by apply H |]. destruct (_ && _); [by apply H | exact I].
Qed.

Lemma preparing_read_all fd : forall fuel n buf, (n <= fuel)%nat -> preparing n (read_all fuel fd buf) (fun _ => True).
Proof.
  induction fuel as [|f IH]; intros n buf Hn w Hw; [lia |]. cbn [read_all]. apply safe_read; [done |].
  intros [i b] w' Hp Hl. destruct (0 <? i); [| by apply safe_pret].
  eapply safe_mono; [apply (IH (pred n)); lia |]. intros r w2 [Hp2 _]. split; [by etrans | by destruct r].
Qed.

Lemma preparing_cp_loop fd dfd : forall fuel n buf v, (n <= fuel)%nat -> preparing n (cp_loop fuel fd dfd buf v) (fun _ => True).
Proof.
  induction fuel as [|f IH]; intros n buf v Hn w Hw; [lia |]. cbn [cp_loop]. apply safe_read; [done |].
  intros [r b] w' Hp Hl. destruct (0 <? r); [| by apply safe_pret].
  assert (Hrest : preparing (pred n) (do! v := syscall (Write dfd (take (Z.to_nat r) b)) in
    if negb (v =? r) || (v <? 0) then pret (r, v) else cp_loop f fd dfd b v) (fun _ => True)).
  { prep_step. destruct (_ || _); [eauto with preparing | apply IH; lia]. }
  eapply safe_mono; [apply Hrest; lia |]. intros x w2 [Hp2 _]. split; [by etrans | by destruct x].
Qed.

Lemma preparing_parse_spec fuel fr f :
  length (f_nproc_str fr) = 5%nat -> preparing fuel (parse_spec fuel fr f) (fun r => r = -1 \/ r = 0 \/ r = 1).
Proof.
  intros Hnp. unfold parse_spec. prep_step. eapply preparing_bind; [by apply preparing_read_all |]. intros buf _.
  prep_step. prep_step. eapply preparing_bind; [by apply preparing_calc, parse_buf_ends |]. intros [r st] Hr. cbn in Hr.
  eapply preparing_bind; [by apply preparing_assign |]. intros _ _.
  destruct (r =? -1); [prep_step; eauto with preparing |]. destruct (r =? 1); [prep_step |]; eauto with preparing.
Qed.

Lemma preparing_cp_func fuel buf src dest : preparing fuel (cp_func fuel buf src dest) (fun _ => True).
Proof.
  unfold cp_func. prep_step. destruct (_ <? _); [prep_step; eauto with preparing |].
  prep_step. destruct (_ <? _); [prep_step; eauto with preparing |].
  eapply preparing_bind; [by apply preparing_cp_loop |]. intros [r v] _.
  eapply (preparing_bind _ _ _ (fun _ => True)); [destruct (_ || _); eauto with preparing |]. intros _ _.
  prep_step. prep_step. eauto with preparing.
Qed.

Lemma cstr_ends b : ends (string_in b) (fun _ => True).
Proof. unfold string_in. eapply ends_bind; [apply strlen_ends |]. done. Qed.

Lemma cstr_ok b : ends (string_in b) (fun x => string_in b = Ok x).
Proof. pose proof (cstr_ends b). by destruct (string_in b). Qed.

(** What [init_dir] returns is never positive. *)
Lemma preparing_init_dir fuel buf fs : preparing fuel (init_dir fuel buf fs) (fun r => r <= 0).
Proof.
  unfold init_dir. prep_step. destruct (negb _); [prep_step; apply preparing_pret; lia |].
  eapply (preparing_bind _ _ _ (fun _ => True)); [| intros _ _; apply preparing_pret; lia].
  induction files as [|file l IH]; cbn [copy_files]; [eauto with preparing |].
  eapply (preparing_bind _ _ _ (fun _ => True)); [apply preparing_calc; unfold dest_path; by destruct (_ <? _)%nat |]. intros dest _.
  eapply preparing_bind; [apply preparing_cp_func |]. intros _ _. exact IH.
Qed.

(** ** Creating a container *)

(** C39: the routine that creates a container and enters it never does.
    Whatever the kernel answers, it makes only calls that read the
    specification, take a container index and fill the directory: it never
    names the container, sets its limit or its root, forks or executes
    anything, since what [init_dir] returns is never positive. *)
Theorem create_never_enters fuel fr cpbuf specfile w :
  length (f_nproc_str fr) = 5%nat -> (length (w_answers w) < fuel)%nat ->
  safe (cm_create_and_enter fuel fr cpbuf specfile) w (fun r w' =>
    (exists new, w_calls w' = w_calls w ++ new /\ Forall prep new) /\
    match r with Some a => a < 0 \/ a = 0 \/ a = 1 | None => True end).
Proof.
  intros Hnp Hw.
  assert (H : preparing fuel (cm_create_and_enter fuel fr cpbuf specfile) (fun a => a < 0 \/ a = 0 \/ a = 1)).
  { unfold cm_create_and_enter. eapply preparing_bind; [by apply preparing_parse_spec |]. intros r Hr. cbn in Hr.
    eapply preparing_bind; [by apply preparing_assign |]. intros _ _. destruct (negb _); [apply preparing_pret; lia |].
    prep_step. destruct (Z.ltb_spec a 0); [prep_step; apply preparing_pret; lia |].
    prep_step. prep_step. eapply preparing_bind; [apply preparing_calc, cstr_ends |]. intros fs _.
    eapply preparing_bind; [apply preparing_init_dir |]. intros x Hx. cbn in Hx.
    destruct (Z.leb_spec x 0); [| lia]. apply preparing_pret. unfold INIT_DIR_ERROR. lia. }
  eapply safe_mono; [exact (H w Hw) |]. intros r w' [[Hp _] Hr]. by split.
Qed.

(** ** Starting a container *)

(** The calls after the container has its index, up to the fork. *)
Definition setup (cid : Z) (fs : list Z) (nproc : Z) (fds fdz : Z * Z) : list call :=
  [Setname cid fs; Setalive cid 1; Setmaxproc cid nproc; Pipe; Pipe; Setvc cid fs (fst fdz, snd fds); Fork2 cid].

(** The calls of the child. *)
Definition child (cid : Z) (fs init : list Z) (fds fdz : Z * Z) : list call :=
  [Close (fst fds); Close (snd fdz); Setroot cid fs; Chdir [47]; Exec init [init]].

Definition is_exec (c : call) : bool := match c with Exec _ _ => true | _ => false end.
Definition no_exec (l : list call) : Prop := Forall (fun c => is_exec c = false) l.

(** A program is executed at most once, and only as the first process of a
    container that has been set up, with its root changed. *)
Definition confined (st : spec) (pre calls : list call) : Prop :=
  no_exec calls \/
  exists cid fs init fds fdz, string_in (s_fs st) = Ok fs /\ string_in (s_init st) = Ok init /\
    calls = pre ++ Get_new_cid :: setup cid fs (s_nproc st) fds fdz ++ child cid fs init fds fdz.

Lemma no_exec_snoc l c : no_exec l -> is_exec c = false -> no_exec (l ++ [c]).
Proof. intros Hl Hc. apply Forall_app. split; [exact Hl | by constructor]. Qed.

Lemma prep_no_exec l : Forall prep l -> no_exec l.
Proof. intros H. eapply Forall_impl; [exact H |]. by intros []. Qed.

Lemma safe_pipe {B} store (k : Z -> prog B) w (Q : option B -> session -> Prop) :
  Q None (log_call Pipe w) ->
  (forall r, r <> 0 -> safe (k r) (log_call Pipe (answered w)) Q) ->
  (forall p, safe (k 0) (store p (log_call Pipe (answered w))) Q) -> safe (pbind (make_pipe store) k) w Q.
Proof.
  intros H0 H1 H2. unfold make_pipe. apply safe_bind, safe_bind, safe_sys; [exact H0 |]. intros [r data] _.
  destruct (Z.eqb_spec r 0) as [->|Hr]; [| by apply safe_pret, H1].
  destruct data as [|a [|b [|? ?]]]; try exact I. apply (H2 (a, b)).
Qed.

#[export] Hint Resolve no_exec_snoc : preparing.

(** A call: the program may stop in it, or goes on. *)
Ltac call_step := apply safe_call; [left; cbn; auto 20 with preparing | intros ?].

Lemma start_container_confined cid w pre :
  w_calls w = pre ++ [Get_new_cid] -> no_exec pre ->
  safe (start_container cid) w (fun _ w' => confined (w_spec w') pre (w_calls w')).
Proof.
  intros Hw Hpre. assert (Hw' : no_exec (w_calls w)) by (rewrite Hw; auto with preparing).
  unfold start_container. apply safe_globals. eapply safe_calc; [apply cstr_ok |]. intros fs Hfs.
  call_step. call_step. call_step.
  apply safe_pipe; [left; cbn; auto 20 with preparing | |].
  { intros r Hr. rewrite (proj2 (Z.eqb_neq _ _) Hr). apply safe_printf, safe_pret. left. cbn. auto 20 with preparing. }
  intros fds. apply safe_pipe; [left; cbn; auto 20 with preparing | |].
  { intros r Hr. rewrite (proj2 (Z.eqb_neq _ _) Hr). apply safe_printf, safe_pret. left. cbn. auto 20 with preparing. }
  intros fdz. apply safe_globals, safe_globals. call_step. call_step. cbn [w_fds w_fdz set_fds set_fdz].
  destruct (_ =? 0).
  - do 4 call_step. destruct (_ <? 0); [apply safe_printf, safe_pret; left; cbn; auto 30 with preparing |].
    eapply safe_calc; [apply cstr_ok |]. intros init Hinit.
    assert (Hend : forall w', w_spec w' = w_spec w -> w_calls w' = pre ++ Get_new_cid :: setup cid fs (s_nproc (w_spec w)) fds fdz ++ child cid fs init fds fdz ->
      confined (w_spec w') pre (w_calls w')) by (intros w' Hs Hc; right; rewrite Hs; by exists cid, fs, init, fds, fdz).
    apply safe_call; [| intros ?; apply safe_pret]; (apply Hend; [reflexivity |]); cbn; rewrite Hw, <- !app_assoc; reflexivity.
  - do 5 call_step. apply safe_pret. left. cbn. auto 30 with preparing.
Qed.


(** ** The specification of the repository *)

Definition demo_frame : stack_frame := mkFrame (replicate 512 0) demo_stack [7; 7; 7; 7; 7].
Definition demo_start (answers : list answer) : session := mkSession answers [] demo_globals (-1, -1) (-1, -1) 0.

(** The file is opened, read and closed. *)
Definition demo_reading : list answer := [(3, []); (39, demo_object ++ [10]); (0, []); (0, [])].

(** A file of two bytes is copied. *)
Definition demo_copy : list answer := [(3, []); (4, []); (2, [1; 2]); (2, []); (0, []); (0, []); (0, [])].

(** Every call of the creation succeeds, and yet no container is entered. *)
Definition demo_create : session := demo_start (demo_reading ++ [(0, []); (0, [])] ++ concat (replicate 10 demo_copy)).

(** Every call of the start succeeds; [exec] does not return. *)
Definition demo_io : session :=
  demo_start (demo_reading ++ [(0, []); (0, []); (0, []); (0, []); (0, [5; 6]); (0, [7; 8]); (0, []); (0, []); (0, []); (0, []); (0, []); (0, [])]).

Definition result_of {A} (c : prog A) (w : session) : option (option A * list call) :=
  match c w with Ok (r, w') => Some (r, w_calls w') | _ => None end.

Lemma create_never_enters_witness :
  fst <$> result_of (cm_create_and_enter 100 demo_frame (replicate 512 0) (chars "spec.json")) demo_create = Some (Some 0) /\
  safe (cm_create_and_enter 100 demo_frame (replicate 512 0) (chars "spec.json")) demo_create (fun r w' =>
    (exists new, w_calls w' = [] ++ new /\ Forall prep new) /\ match r with Some a => a < 0 \/ a = 0 \/ a = 1 | None => True end).
Proof.
  split; [vm_compute; reflexivity |].
  apply (create_never_enters 100 demo_frame (replicate 512 0) (chars "spec.json") demo_create); [reflexivity | vm_compute; lia].
Defined.

