(* ===== verification/Syscall.v ===== *)
(** * The system-call interface (syscall.c, syscall.h, sysproc.c, sysfile.c)

    What the kernel takes from a user program: the number of the call in
    [eax], the arguments on the user stack, and the memory they point to. A
    system call is decoded into the kernel routine that is called and its
    arguments, or refused with -1. The routines themselves are in the files of
    their components; here an argument says what the routine does with it. *)

From S2P Require Import Prelude Mem Params.

(** The part of the current process that the decoding looks at. *)
Record user := mkUser {
  u_mem : mem;
  u_sz : Z;
  u_esp : Z;
  u_eax : Z;
  u_ofile : list (option nat)
}.

(** ** Fetching *)

Definition fetchint (u : user) (addr : Z) : option Z :=
  if (u_sz u <=? addr) || (u_sz u <? u32 (addr + 4)) then None else Some (i32 (load32 (u_mem u) addr)).

(** The loop over [s]: the distance to the NUL. *)
Fixpoint scan_nul (m : mem) (s : Z) (n : nat) : option Z :=
  match n with
  | O => None
  | S n' => if m s =? 0 then Some 0 else len ← scan_nul m (s + 1) n'; Some (1 + len)
  end.

(** The pointer and the length. *)
Definition fetchstr (u : user) (addr : Z) : option (Z * Z) :=
  if u_sz u <=? addr then None
  else len ← scan_nul (u_mem u) addr (Z.to_nat (u_sz u - addr)); Some (addr, len).

Definition argint (u : user) (n : Z) : option Z := fetchint u (u32 (u_esp u + 4 + 4 * n)).

Definition argptr (u : user) (n size : Z) : option Z :=
  i ← argint u n;
  if (size <? 0) || (u_sz u <=? u32 i) || (u_sz u <? u32 (u32 i + size)) then None else Some (u32 i).

Definition argstr (u : user) (n : Z) : option Z :=
  addr ← argint u n; fst <$> fetchstr u (u32 addr).

Definition argfd (u : user) (n : Z) : option (Z * nat) :=
  fd ← argint u n;
  if (fd <? 0) || (Z.of_nat NOFILE <=? fd) then None else f ← mjoin (u_ofile u !! Z.to_nat fd); Some (fd, f).

(** ** Calls *)

Inductive kfn :=
| Fork | Exit | Wait | Pipe | Read | Kill | Exec | Fstat | Chdir | Dup | Getpid | Sbrk | Sleep | Uptime | Open | Write
| Mknod | Unlink | Link | Mkdir | Close | Getname | Setname | Getmaxproc | Setmaxproc | Setvc | Getcwd | Tostring
| Getpath | Setpath | Ps | Fork2 | Setalive | Getnumcontainers | Setroot | Getcid | Get_con_shm | Get_new_cid | Kprint
| Get_proc_pipe | Mutex_create | Mutex_delete | Mutex_lock | Mutex_unlock | Cv_wait | Cv_signal | Shm_get | Shm_rem
| Mutex_get | Prio_set | Test_0 | Test_1 | Test_2 | Remove_node.

#[export] Instance kfn_eq_dec : EqDecision kfn.
Proof. solve_decision. Defined.

(** An argument: a number, a string that is read up to its NUL, a block of
    memory that is read or written, an open file, a vector of strings, or a
    structure of the kernel. *)
Inductive karg :=
| AInt (n : Z)
| AStr (p : Z)
| APtr (p n : Z)
| AFile (fd : Z) (f : nat)
| AArgv (ps : list Z)
| AKernel (p : Z).

Inductive kcall := KCall (f : kfn) (args : list karg).

(** The loop of [sys_exec]: at most [n] further words. *)
Fixpoint exec_args (u : user) (uargv : Z) (n : nat) : option (list Z) :=
  match n with
  | O => None
  | S n' =>
      uarg ← fetchint u (u32 uargv);
      if uarg =? 0 then Some []
      else
        s ← fetchstr u (u32 uarg);
        rest ← exec_args u (uargv + 4) n';
        Some (fst s :: rest)
  end.

(** sysproc.c, up to [sys_uptime] *)
Definition proc_calls (f : kfn) (u : user) : option (list karg) :=
  match f with
  | Fork => Some []
  | Fork2 => cid ← argint u 0; Some [AInt cid]
  | Setalive => index ← argint u 0; val ← argint u 1; Some [AInt index; AInt val]
  | Exit => Some []
  | Wait => Some []
  | Kill => pid ← argint u 0; Some [AInt pid]
  | Getpid => Some []
  | Sbrk => n ← argint u 0; Some [AInt n]
  | Sleep => n ← argint u 0; Some [AInt n]
  | Uptime => Some []
  | _ => None
  end.

(** sysproc.c, from [sys_getname] to [sys_getnumcontainers]. [getname] and
    [getpath] write the name or the path of 32 and 128 bytes to the address,
    and [setvc] reads two descriptors, of which no byte has been checked:
    [sizeof( *fds) < 0] is the size 0. *)
Definition container_calls (f : kfn) (u : user) : option (list karg) :=
  match f with
  | Getname => index ← argint u 0; name ← argstr u 1; Some [AInt index; APtr name 32]
  | Setname => index ← argint u 0; name ← argstr u 1; Some [AInt index; AStr name]
  | Setroot => index ← argint u 0; name ← argstr u 1; Some [AInt index; AStr name]
  | Getmaxproc => index ← argint u 0; Some [AInt index]
  | Setmaxproc => index ← argint u 0; max ← argint u 1; Some [AInt index; AInt max]
  | Setvc => index ← argint u 0; vc ← argstr u 1; fds ← argptr u 2 0; Some [AInt index; AStr vc; APtr fds 8]
  | Tostring => Some []
  | Getpath => index ← argint u 0; path ← argstr u 1; Some [AInt index; APtr path 128]
  | Setpath => index ← argint u 0; path ← argstr u 1; remove ← argint u 2; Some [AInt index; AStr path; AInt remove]
  | Ps => Some []
  | Getnumcontainers => Some []
  | _ => None
  end.

(** sysproc.c, from [sys_prio_set] on. The size is 0 again; the argument of
    [remove_node] is used as a [struct proc] of the kernel; [get_con_shm]
    copies the shared page of a container, a string, to its argument. *)
Definition sync_calls (f : kfn) (u : user) : option (list karg) :=
  match f with
  | Prio_set => pid ← argint u 0; priority ← argint u 0; Some [AInt pid; AInt priority]
  | Remove_node => p ← argptr u 0 0; Some [AKernel p]
  | Shm_get => name ← argstr u 0; Some [AStr name]
  | Shm_rem => name ← argstr u 0; Some [AStr name]
  | Mutex_create => name ← argptr u 0 0; Some [AStr name]
  | Mutex_delete | Mutex_lock | Mutex_unlock | Cv_wait | Cv_signal => muxid ← argint u 0; Some [AInt muxid]
  | Mutex_get => name ← argptr u 0 0; Some [AStr name]
  | Get_con_shm => cid ← argint u 0; str ← argstr u 0; Some [AInt cid; APtr str PGSIZE]
  | _ => None
  end.

(** sysfile.c, the calls on an open file *)
Definition fd_calls (f : kfn) (u : user) : option (list karg) :=
  match f with
  | Dup => fd ← argfd u 0; Some [AFile (fst fd) (snd fd)]
  | Read => fd ← argfd u 0; n ← argint u 2; p ← argptr u 1 n; Some [AFile (fst fd) (snd fd); APtr p n]
  | Write => fd ← argfd u 0; n ← argint u 2; p ← argptr u 1 n; Some [AFile (fst fd) (snd fd); APtr p n]
  | Close => fd ← argfd u 0; Some [AFile (fst fd) (snd fd)]
  | Fstat => fd ← argfd u 0; st ← argptr u 1 20; Some [AFile (fst fd) (snd fd); APtr st 20]
  | _ => None
  end.

(** sysfile.c, the fetching of [sys_link] to [sys_pipe] *)
Definition path_calls (f : kfn) (u : user) : option (list karg) :=
  match f with
  | Link => old ← argstr u 0; new ← argstr u 1; Some [AStr old; AStr new]
  | Unlink => path ← argstr u 0; Some [AStr path]
  | Open => path ← argstr u 0; omode ← argint u 1; Some [AStr path; AInt omode]
  | Mkdir => path ← argstr u 0; Some [AStr path]
  | Mknod => path ← argstr u 0; major ← argint u 1; minor ← argint u 2; Some [AStr path; AInt major; AInt minor]
  | Chdir => path ← argstr u 0; Some [AStr path]
  | Exec => path ← argstr u 0; uargv ← argint u 1; argv ← exec_args u (u32 uargv) MAXARG; Some [AStr path; AArgv argv]
  | Pipe => fd ← argptr u 0 8; Some [APtr fd 8]
  | _ => None
  end.

(** sysfile.c, from [sys_getcwd] on *)
Definition info_calls (f : kfn) (u : user) : option (list karg) :=
  match f with
  | Getcwd => n ← argint u 1; p ← argptr u 0 n; Some [APtr p n]
  | Getcid => Some []
  | Get_new_cid => Some []
  | Kprint => str ← argstr u 0; n ← argint u 1; Some [AStr str; AInt n]
  | Get_proc_pipe => fds ← argptr u 0 8; Some [APtr fds 8]
  | Test_0 | Test_1 | Test_2 => Some []
  | _ => None
  end.

(** syscall.h *)
Definition numbers : list (Z * kfn) :=
  [(1, Fork); (2, Exit); (3, Wait); (4, Pipe); (5, Read); (6, Kill); (7, Exec); (8, Fstat); (9, Chdir); (10, Dup); (11, Getpid);
   (12, Sbrk); (13, Sleep); (14, Uptime); (15, Open); (16, Write); (17, Mknod); (18, Unlink); (19, Link); (20, Mkdir); (21, Close);
   (22, Getname); (23, Setname); (24, Getmaxproc); (25, Setmaxproc); (34, Setvc); (38, Getcwd); (39, Tostring); (43, Getpath);
   (44, Setpath); (45, Ps); (54, Fork2); (55, Setalive); (56, Getnumcontainers); (62, Setroot); (63, Getcid); (64, Get_con_shm);
   (65, Get_new_cid); (66, Kprint); (67, Get_proc_pipe); (72, Mutex_create); (73, Mutex_delete); (74, Mutex_lock);
   (75, Mutex_unlock); (76, Cv_wait); (77, Cv_signal); (78, Shm_get); (79, Shm_rem); (80, Mutex_get); (92, Prio_set); (93, Test_0);
   (94, Test_1); (95, Test_2); (96, Remove_node)].

(** The table of syscall.c: the routine behind a number. *)
Definition syscalls (num : Z) : option kfn := snd <$> head (filter (fun p => p.1 = num) numbers).

Definition handler (f : kfn) (u : user) : option (list karg) :=
  match f with
  | Fork | Fork2 | Setalive | Exit | Wait | Kill | Getpid | Sbrk | Sleep | Uptime => proc_calls f u
  | Getname | Setname | Setroot | Getmaxproc | Setmaxproc | Setvc | Tostring | Getpath | Setpath | Ps | Getnumcontainers => container_calls f u
  | Prio_set | Remove_node | Shm_get | Shm_rem | Mutex_create | Mutex_delete | Mutex_lock | Mutex_unlock | Cv_wait | Cv_signal
  | Mutex_get | Get_con_shm => sync_calls f u
  | Dup | Read | Write | Close | Fstat => fd_calls f u
  | Getcwd | Getcid | Get_new_cid | Kprint | Get_proc_pipe | Test_0 | Test_1 | Test_2 => info_calls f u
  | _ => path_calls f u
  end.

(** What becomes of a call: a routine runs, the arguments are refused, or the
    number is unknown and the kernel prints a message; both give -1, but for
    [sys_shm_get], which refuses its argument with 0. *)
Inductive decoded := Runs (c : kcall) | Refused (f : kfn) | Unknown (num : Z).

Definition syscall (u : user) : decoded :=
  let num := i32 (u_eax u) in
  if (0 <? num) && (num <? 97) then
    match syscalls num with
    | Some f => match handler f u with Some args => Runs (KCall f args) | None => Refused f end
    | None => Unknown num
    end
  else Unknown num.

(** ** What may be passed *)

(** A process: its size is below the kernel, its memory holds bytes. *)
Record user_ok (u : user) : Prop := {
  uo_sz : 0 <= u_sz u <= KERNBASE;
  uo_esp : 0 <= u_esp u < 4294967296;
  uo_bytes a : 0 <= u_mem u a < 256
}.

(** A string that ends inside the memory of the process. *)
Definition str_ok (u : user) (p : Z) : Prop :=
  exists s, cstr (u_mem u) p s /\ 0 <= p /\ p + Z.of_nat (length s) < u_sz u.

Definition block_ok (u : user) (p n : Z) : Prop := 0 <= p /\ 0 <= n /\ p + n <= u_sz u.

Definition arg_ok (u : user) (a : karg) : Prop :=
  match a with
  | AInt n => -2147483648 <= n < 2147483648
  | AStr p => str_ok u p
  | APtr p n => block_ok u p n
  | AFile fd f => 0 <= fd < Z.of_nat NOFILE /\ u_ofile u !! Z.to_nat fd = Some (Some f)
  | AArgv ps => (length ps < MAXARG)%nat /\ Forall (str_ok u) ps
  | AKernel _ => False
  end.

(** ** The fetching routines *)

Lemma fetchint_spec u addr x : user_ok u -> 0 <= addr < 4294967296 ->
  fetchint u addr = Some x <-> addr + 4 <= u_sz u /\ x = i32 (load32 (u_mem u) addr).
Proof.
  intros [Hsz _ _] Ha. unfold fetchint, KERNBASE in *. destruct (Z.leb_spec (u_sz u) addr); cbn [orb].
  - split; [done | lia].
  - rewrite u32_small by lia. destruct (Z.ltb_spec (u_sz u) (addr + 4)); [split; [done | lia] |]. split; [intros [= <-]; auto with lia | intros [_ ->]; done].
Qed.

Lemma scan_nul_spec m : forall n s len, scan_nul m s n = Some len <->
  exists t, cstr m s t /\ len = Z.of_nat (length t) /\ (length t < n)%nat.
Proof.
  induction n as [|n IH]; intros s len; cbn [scan_nul].
  - split; [done | intros (t & _ & _ & H); lia].
  - destruct (Z.eqb_spec (m s) 0) as [H0|H0].
    + split; [intros [= <-]; exists []; cbn; auto with lia |]. intros ([|c t] & Hc & -> & _); [done |]. cbn in Hc. naive_solver.
    + rewrite bind_Some. split.
      * intros (l & Hl & [= <-]). apply IH in Hl as (t & Hc & -> & Hlen). exists (m s :: t). cbn. split_and!; try done; lia.
      * intros ([|c t] & Hc & -> & Hlen); cbn in Hc, Hlen; [done |]. destruct Hc as (<- & _ & Hc).
        exists (Z.of_nat (length t)). split; [apply IH; exists t; split_and!; [done | done | lia] | cbn; f_equal; lia].
Qed.

Lemma fetchstr_spec u addr r : 0 <= addr -> fetchstr u addr = Some r <->
  exists t, cstr (u_mem u) addr t /\ r = (addr, Z.of_nat (length t)) /\ addr + Z.of_nat (length t) < u_sz u.
Proof.
  intros Ha. unfold fetchstr. destruct (Z.leb_spec (u_sz u) addr).
  - split; [done | intros (t & _ & _ & ?); lia].
  - rewrite bind_Some. setoid_rewrite scan_nul_spec. split.
    + intros (len & (t & Hc & -> & Hl) & [= <-]). exists t. split_and!; [done | done | lia].
    + intros (t & Hc & -> & Hl). exists (Z.of_nat (length t)). split; [exists t; split_and!; [done | done | lia] | done].
Qed.

(** The [n]th word above the return address. *)
Definition arg_word (u : user) (n : Z) : Z := u32 (u_esp u + 4 + 4 * n).

Lemma argint_spec u n x : user_ok u ->
  argint u n = Some x <-> arg_word u n + 4 <= u_sz u /\ x = i32 (load32 (u_mem u) (arg_word u n)).
Proof. intros Hu. apply fetchint_spec; [exact Hu | apply u32_range]. Qed.

Lemma argint_range u n x : user_ok u -> argint u n = Some x -> -2147483648 <= x < 2147483648.
Proof. intros Hu Hx. apply argint_spec in Hx as [_ ->]; [| exact Hu]. apply i32_range. Qed.

Lemma argptr_spec u n size p : user_ok u -> size < 2147483648 ->
  argptr u n size = Some p <-> (exists x, argint u n = Some x /\ p = u32 x) /\ p < u_sz u /\ block_ok u p size.
Proof.
  intros Hu Hsz. pose proof (uo_sz u Hu). unfold argptr, block_ok, KERNBASE in *. rewrite bind_Some. split.
  - intros (x & Hx & He). pose proof (u32_range x). destruct (Z.ltb_spec size 0); [done |]. destruct (Z.leb_spec (u_sz u) (u32 x)); [done |].
    cbn [orb] in He. rewrite (u32_small (u32 x + size)) in He by lia. destruct (Z.ltb_spec (u_sz u) (u32 x + size)); [done |].
    injection He as <-. split; [by exists x |]. lia.
  - intros ((x & Hx & ->) & Hlt & Hp & Hn & Hb). exists x. split; [exact Hx |].
    rewrite (proj2 (Z.ltb_ge _ _)), (proj2 (Z.leb_gt _ _)) by lia. cbn [orb]. rewrite (u32_small (u32 x + size)) by lia.
    by rewrite (proj2 (Z.ltb_ge _ _)) by lia.
Qed.

Lemma argstr_spec u n p : argstr u n = Some p <-> (exists x, argint u n = Some x /\ p = u32 x) /\ str_ok u p.
Proof.
  unfold argstr, str_ok. rewrite bind_Some. split.
  - intros (x & Hx & He). apply fmap_Some in He as (r & Hr & ->). pose proof (u32_range x).
    apply fetchstr_spec in Hr as (t & Hc & -> & Hl); [| lia]. split; [by exists x |]. exists t. cbn. split_and!; [done | lia | done].
  - intros ((x & Hx & ->) & t & Hc & Hp & Hl). exists x. split; [exact Hx |]. apply fmap_Some. exists (u32 x, Z.of_nat (length t)).
    split; [| done]. apply fetchstr_spec; [lia |]. by exists t.
Qed.

Lemma argfd_opened u n r : user_ok u -> argfd u n = Some r ->
  0 <= r.1 < Z.of_nat NOFILE /\ u_ofile u !! Z.to_nat r.1 = Some (Some r.2).
Proof.
  intros Hu. unfold argfd. rewrite bind_Some. intros (fd & Hfd & He). destruct (Z.ltb_spec fd 0); [done |].
  destruct (Z.leb_spec (Z.of_nat NOFILE) fd); [done |]. cbn [orb] in He. apply bind_Some in He as (f & Hf & [= <-]).
  cbn. split; [lia |]. by destruct (u_ofile u !! Z.to_nat fd) as [[]|]; cbn in Hf; simplify_eq.
Qed.

Lemma exec_args_spec u : forall n uargv ps, exec_args u uargv n = Some ps -> (length ps < n)%nat /\ Forall (str_ok u) ps.
Proof.
  induction n as [|n IH]; intros uargv ps; cbn [exec_args]; [done |]. rewrite bind_Some. intros (x & _ & He).
  destruct (x =? 0); [injection He as <-; split; [simpl; lia | constructor] |].
  apply bind_Some in He as ([p len] & Hp & He). apply bind_Some in He as (rest & Hrest & [= <-]).
  destruct (IH _ _ Hrest) as [Hl Hf]. cbn. split; [lia |]. constructor; [| exact Hf]. pose proof (u32_range x).
  apply fetchstr_spec in Hp as (t & Hc & [= -> ->] & Hlen); [| lia]. exists t. split_and!; [done | lia | done].
Qed.

(** ** The theorem *)

(** The calls that hand on a pointer that has not been checked. *)
Definition unchecked : list kfn := [Getname; Getpath; Setvc; Remove_node; Mutex_create; Mutex_get; Get_con_shm].

Ltac fetched Hu :=
  repeat match goal with
  | H : _ ≫= _ = Some _ |- _ => apply bind_Some in H as (? & ? & H)
  | H : Some _ = Some _ |- _ => injection H as <-
  end;
  repeat (apply Forall_cons_2 || apply Forall_nil_2); cbn [arg_ok];
  repeat match goal with
  | H : argint _ _ = Some _ |- _ => apply (argint_range _ _ _ Hu) in H
  | H : argstr _ _ = Some _ |- _ => apply argstr_spec in H as [_ H]
  | H : argfd _ _ = Some _ |- _ => apply (argfd_opened _ _ _ Hu) in H
  | H : exec_args _ _ _ = Some _ |- _ => apply exec_args_spec in H
  | H : argptr _ _ _ = Some _ |- _ => apply argptr_spec in H as (_ & _ & H); [| exact Hu | lia]
  end; try assumption.

Lemma handler_args u f args : user_ok u -> f ∉ unchecked -> handler f u = Some args -> Forall (arg_ok u) args.
Proof.
  intros Hu Hf H. destruct f; try (exfalso; apply Hf; unfold unchecked; set_solver);
    cbn [handler proc_calls container_calls sync_calls fd_calls path_calls info_calls] in H; fetched Hu.
Qed.


(** ** Programs *)

(** A process of one page, full of the byte 65 but for its last one, with
    three arguments on its stack. *)
Definition demo_user (num last w0 w1 w2 : Z) : user :=
  mkUser (store (store32 (store32 (store32 (fun _ => 65) 4004 w0) 4008 w1) 4012 w2) 4095 last) 4096 4000 num [Some 0%nat].

Lemma demo_user_ok num last w0 w1 w2 : 0 <= last < 256 -> user_ok (demo_user num last w0 w1 w2).
Proof.
  intros Hl. split; cbn [u_sz u_esp u_mem demo_user]; [unfold KERNBASE; lia | lia |].
  intros a. unfold store32, store. repeat (destruct (_ =? _)); try lia; apply Z.mod_pos_bound; lia.
Qed.



