(* ===== verification/Sh.v ===== *)
(** * The shell's parser (sh.c)

    Recursive descent over a command line. The line is the list of its bytes
    before the NUL, which are not 0; a pointer into it is the text from there
    to [es], and where the code keeps a pointer it is the length of that text,
    the distance to [es]. [parseexec] goes on filling the [execcmd] that the
    redirections it has met already wrap: here the arguments and the
    redirections are collected and put together at the end. Messages that end
    the child are [Panic]. *)

From S2P Require Import Prelude.

Definition MAXARGS : nat := 10.

(** [file], [efile], [mode] and [fd] of a [redircmd]. *)
Record redir := mkRedir { rd_file : nat; rd_efile : nat; rd_mode : Z; rd_fd : Z }.

Inductive cmd :=
| EXEC (argv : list (nat * nat))       (** [argv[i]] and [eargv[i]] *)
| REDIR (c : cmd) (r : redir)
| PIPE (left right : cmd)
| LIST (left right : cmd)
| BACK (c : cmd).

Definition whitespace : list Z := [32; 9; 13; 10; 11].
Definition symbols : list Z := [60; 124; 62; 38; 59; 40; 41].

(** [strchr(toks, c)] for a [c] that is not 0. *)
Definition mem_of (toks : list Z) (c : Z) : bool := bool_decide (c ∈ toks).

(** [while (s < es && strchr(whitespace, *s)) s++] *)
Fixpoint skip_ws (s : list Z) : list Z :=
  match s with
  | c :: s' => if mem_of whitespace c then skip_ws s' else s
  | [] => []
  end.

Fixpoint word_end (s : list Z) : list Z :=
  match s with
  | c :: s' => if negb (mem_of whitespace c) && negb (mem_of symbols c) then word_end s' else s
  | [] => []
  end.

(** The token, [*q], [*eq] and the new [*ps]; ['a'] is 97 and ['+'] 43. *)
Definition gettoken (s : list Z) : Z * nat * nat * list Z :=
  let s := skip_ws s in
  let q := length s in
  let '(ret, s) :=
    match s with
    | [] => (0, s)
    | c :: s' =>
        if mem_of [124; 40; 41; 59; 38; 60] c then (c, s')
        else if c =? 62 then
          match s' with
          | c' :: s'' => if c' =? 62 then (43, s'') else (62, s')
          | [] => (62, s')
          end
        else (97, word_end s)
    end in
  (ret, q, length s, skip_ws s).

Definition peek (s : list Z) (toks : list Z) : bool * list Z :=
  let s := skip_ws s in
  (match s with c :: _ => mem_of toks c | [] => false end, s).

(** The redirections, in their order. *)
Fixpoint parseredirs (fuel : nat) (s : list Z) : res (list redir * list Z) :=
  match fuel with
  | O => Hang
  | S f =>
      let '(b, s) := peek s [60; 62] in
      if b then
        let '(tok, _, _, s) := gettoken s in
        let '(tok2, q, eq, s) := gettoken s in
        if negb (tok2 =? 97) then Panic "missing file for redirection"
        else
          let r := if tok =? 60 then mkRedir q eq 0 0 else mkRedir q eq 0x201 1 in
          let! (rs, s) := parseredirs f s in
          Ok (r :: rs, s)
      else Ok ([], s)
  end.

Definition wrap (c : cmd) (rs : list redir) : cmd := foldl REDIR c rs.

(** The loop of [parseexec]; [argc] arguments are stored. *)
Fixpoint exec_loop (fuel : nat) (argc : nat) (s : list Z) : res (list (nat * nat) * list redir * list Z) :=
  match fuel with
  | O => Hang
  | S f =>
      let '(b, s) := peek s [124; 41; 38; 59] in
      if b then Ok ([], [], s)
      else
        let '(tok, q, eq, s) := gettoken s in
        if tok =? 0 then Ok ([], [], s)
        else if negb (tok =? 97) then Panic "syntax"
        else if (MAXARGS <=? S argc)%nat then Panic "too many args"
        else
          let! (rs, s) := parseredirs f s in
          let! (args, rs', s) := exec_loop f (S argc) s in
          Ok ((q, eq) :: args, rs ++ rs', s)
  end.

(** [while (peek(ps, es, "&"))] *)
Fixpoint back_loop (fuel : nat) (c : cmd) (s : list Z) : res (cmd * list Z) :=
  match fuel with
  | O => Hang
  | S f =>
      let '(b, s) := peek s [38] in
      if b then let '(_, _, _, s) := gettoken s in back_loop f (BACK c) s else Ok (c, s)
  end.

Fixpoint parseline (fuel : nat) (s : list Z) {struct fuel} : res (cmd * list Z) :=
  match fuel with
  | O => Hang
  | S f =>
      let! (c, s) := parsepipe f s in
      let! (c, s) := back_loop f c s in
      let '(b, s) := peek s [59] in
      if b then
        let '(_, _, _, s) := gettoken s in
        let! (r, s) := parseline f s in
        Ok (LIST c r, s)
      else Ok (c, s)
  end
with parsepipe (fuel : nat) (s : list Z) {struct fuel} : res (cmd * list Z) :=
  match fuel with
  | O => Hang
  | S f =>
      let! (c, s) := parseexec f s in
      let '(b, s) := peek s [124] in
      if b then
        let '(_, _, _, s) := gettoken s in
        let! (r, s) := parsepipe f s in
        Ok (PIPE c r, s)
      else Ok (c, s)
  end
with parseexec (fuel : nat) (s : list Z) {struct fuel} : res (cmd * list Z) :=
  match fuel with
  | O => Hang
  | S f =>
      let '(b, s) := peek s [40] in
      if b then parseblock f s
      else
        let! (rs, s) := parseredirs f s in
        let! (args, rs', s) := exec_loop f 0 s in
        Ok (wrap (EXEC args) (rs ++ rs'), s)
  end
with parseblock (fuel : nat) (s : list Z) {struct fuel} : res (cmd * list Z) :=
  match fuel with
  | O => Hang
  | S f =>
      let '(b, s) := peek s [40] in
      if negb b then Panic "parseblock"
      else
        let '(_, _, _, s) := gettoken s in
        let! (c, s) := parseline f s in
        let '(b, s) := peek s [41] in
        if negb b then Panic "syntax - missing )"
        else
          let '(_, _, _, s) := gettoken s in
          let! (rs, s) := parseredirs f s in
          Ok (wrap c rs, s)
  end.

(** [*e = 0], where [e] is at a distance from [es]; the buffer holds the line
    and its NUL. *)
Definition put_nul (e : nat) (buf : list Z) : res (list Z) := arr_set buf (Z.of_nat (length buf) - 1 - Z.of_nat e) 0.

Fixpoint put_nuls (es : list (nat * nat)) (buf : list Z) : res (list Z) :=
  match es with
  | [] => Ok buf
  | (_, e) :: es' => let! buf := put_nul e buf in put_nuls es' buf
  end.

Fixpoint nulterminate (c : cmd) (buf : list Z) : res (list Z) :=
  match c with
  | EXEC argv => put_nuls argv buf
  | REDIR c r => let! buf := nulterminate c buf in put_nul (rd_efile r) buf
  | PIPE l r | LIST l r => let! buf := nulterminate l buf in nulterminate r buf
  | BACK c => nulterminate c buf
  end.

(** The command and the buffer with the strings terminated. *)
Definition parsecmd (fuel : nat) (line : list Z) : res (cmd * list Z) :=
  let! (c, s) := parseline fuel line in
  let '(_, s) := peek s [] in
  if bool_decide (s = []) then
    let! buf := nulterminate c (line ++ [0]) in
    Ok (c, buf)
  else Panic "syntax".

(** ** The parser ends

    On every line it returns a command or stops with a message. *)

(** The result is sound and what is left is the end of the text. *)
Definition leaves {A} (s0 : list Z) (P : A -> Prop) (c : res (A * list Z)) : Prop :=
  match c with Ok (a, s) => P a /\ s `suffix_of` s0 | Panic _ => True | Undef | Hang => False end.

Lemma leaves_bind {A B} s0 s1 P Q (c : res (A * list Z)) (k : A * list Z -> res (B * list Z)) :
  leaves s0 P c -> (forall a s, P a -> s `suffix_of` s0 -> (length s <= length s0)%nat -> leaves s1 Q (k (a, s))) -> leaves s1 Q (rbind c k).
Proof. destruct c as [[a s]| | |]; cbn; auto. intros [Ha Hs] H. apply H; [exact Ha | exact Hs | by apply suffix_length]. Qed.

Lemma leaves_mono {A} s0 s1 P (c : res (A * list Z)) : leaves s0 P c -> s0 `suffix_of` s1 -> leaves s1 P c.
Proof. destruct c as [[a s]| | |]; cbn; auto. intros [? ?] ?. split; [done | by etrans]. Qed.

Definition wordchar (c : Z) : bool := negb (mem_of whitespace c) && negb (mem_of symbols c).

(** What is not part of a word begins the text. *)
Definition no_word (t : list Z) : Prop := match t with [] => True | c :: _ => wordchar c = false end.

(** The word of a line between two pointers. *)
Definition word_ok (line : list Z) (p : nat * nat) (w : list Z) : Prop :=
  exists pre t, line = pre ++ w ++ t /\ p = (length (w ++ t), length t) /\ w <> [] /\ Forall (fun c => wordchar c = true) w /\ no_word t.

Definition ptr_ok (line : list Z) (p : nat * nat) : Prop := exists w, word_ok line p w.

Fixpoint cmd_ok (line : list Z) (c : cmd) : Prop :=
  match c with
  | EXEC argv => (length argv < MAXARGS)%nat /\ Forall (ptr_ok line) argv
  | REDIR c r => cmd_ok line c /\ ptr_ok line (rd_file r, rd_efile r)
  | PIPE l r | LIST l r => cmd_ok line l /\ cmd_ok line r
  | BACK c => cmd_ok line c
  end.

Definition redirs_ok (line : list Z) : list redir -> Prop := Forall (fun r => ptr_ok line (rd_file r, rd_efile r)).

Lemma wrap_ok line c rs : cmd_ok line c -> redirs_ok line rs -> cmd_ok line (wrap c rs).
Proof. intros Hc Hrs. revert c Hc. induction Hrs as [|r rs Hr _ IH]; intros c Hc; [exact Hc |]. apply (IH (REDIR c r)). by split. Qed.

(** ** Tokens *)

Lemma skip_ws_suffix s : skip_ws s `suffix_of` s.
Proof. induction s as [|c s IH]; cbn; [done |]. destruct (mem_of whitespace c); [by apply suffix_cons_r | done]. Qed.

Lemma skip_ws_idem s : skip_ws (skip_ws s) = skip_ws s.
Proof. induction s as [|c s IH]; cbn; [done |]. destruct (mem_of whitespace c) eqn:H; [exact IH |]. cbn. by rewrite H. Qed.

Lemma skip_ws_head s c s' : skip_ws s = c :: s' -> mem_of whitespace c = false.
Proof. induction s as [|d s IH]; cbn; [done |]. destruct (mem_of whitespace d) eqn:H; [exact IH |]. by intros [= -> ->]. Qed.

Lemma word_end_spec s : exists w, s = w ++ word_end s /\ Forall (fun c => wordchar c = true) w /\ no_word (word_end s).
Proof.
  induction s as [|c s (w & Hw & Hf & Hn)]; [by exists [] |]. cbn [word_end]. fold (wordchar c). destruct (wordchar c) eqn:Hc.
  - exists (c :: w). cbn. split_and!; [by rewrite <- Hw | by constructor | exact Hn].
  - exists []. split_and!; [done | constructor | exact Hc].
Qed.

Lemma not_special c : mem_of [124; 40; 41; 59; 38; 60] c = false -> c <> 62 -> mem_of symbols c = false.
Proof. unfold mem_of, symbols. intros Hc H62. apply bool_decide_eq_false in Hc. apply bool_decide_eq_false_2. set_solver. Qed.

(** What a token is, and where it ends. *)
Lemma gettoken_spec s tok q e s' : gettoken s = (tok, q, e, s') ->
  s' `suffix_of` s /\ (tok <> 0 -> (length s' < length s)%nat) /\ (skip_ws s <> [] -> tok <> 0) /\
  (tok = 97 -> exists w t, skip_ws s = w ++ t /\ q = length (w ++ t) /\ e = length t /\ w <> [] /\ Forall (fun c => wordchar c = true) w /\ no_word t).
Proof.
  unfold gettoken. pose proof (skip_ws_suffix s) as Hsuf. destruct (skip_ws s) as [|c t] eqn:Hs.
  { intros [= <- <- <- <-]. cbn. split_and!; [apply suffix_nil | done | done | done]. }
  pose proof (skip_ws_head _ _ _ Hs) as Hws. pose proof (suffix_length _ _ Hsuf) as Hlen. cbn in Hlen.
  assert (Hstep : forall k, k `suffix_of` t -> skip_ws k `suffix_of` s /\ (length (skip_ws k) < length s)%nat).
  { intros k Hk. assert (skip_ws k `suffix_of` t) as Hkt by (etrans; [apply skip_ws_suffix | exact Hk]). split.
    - etrans; [exact Hkt |]. etrans; [| exact Hsuf]. by apply suffix_cons_r.
    - apply suffix_length in Hkt. lia. }
  destruct (mem_of [124; 40; 41; 59; 38; 60] c) eqn:Hc; [| destruct (Z.eqb_spec c 62) as [->|H62]].
  - intros [= <- <- <- <-]. destruct (Hstep t ltac:(done)). split_and!; auto.
    + intros _ ->. by apply bool_decide_eq_true in Hc; set_solver.
    + intros ->. by apply bool_decide_eq_true in Hc; set_solver.
  - destruct t as [|d t]; [| destruct (d =? 62)]; intros [= <- <- <- <-].
    + destruct (Hstep [] ltac:(done)). by split_and!; auto.
    + destruct (Hstep t ltac:(by apply suffix_cons_r)). by split_and!; auto.
    + destruct (Hstep (d :: t) ltac:(done)). by split_and!; auto.
  - intros [= <- <- <- <-]. cbn [word_end]. rewrite Hws, (not_special c Hc H62). cbn [negb andb].
    destruct (word_end_spec t) as (w & Hw & Hf & Hn). destruct (Hstep (word_end t)); [exists w; exact Hw |]. split_and!; auto.
    intros _. exists (c :: w), (word_end t). cbn. rewrite <- Hw. split_and!; try done. constructor; [| exact Hf].
    unfold wordchar. by rewrite Hws, (not_special c Hc H62).
Qed.

Lemma gettoken_ptr line s q e s' : gettoken s = (97, q, e, s') -> s `suffix_of` line -> ptr_ok line (q, e).
Proof.
  intros Hg [pre ->]. apply gettoken_spec in Hg as (_ & _ & _ & Hw). destruct (Hw eq_refl) as (w & t & Hs & -> & -> & Hne & Hf & Hn).
  destruct (skip_ws_suffix s) as [k Hk]. exists w, (pre ++ k), t. split_and!; try done. by rewrite Hk, Hs, <- app_assoc at 1.
Qed.

Lemma peek_spec s toks b s' : peek s toks = (b, s') -> s' = skip_ws s /\ s' `suffix_of` s /\ (length s' <= length s)%nat /\ (b = true -> s' <> []).
Proof.
  unfold peek. intros [= <- <-]. pose proof (skip_ws_suffix s) as H. split_and!; [done | done | by apply suffix_length |].
  by destruct (skip_ws s).
Qed.

(** A token that was seen is taken. *)
Lemma taken_spec s toks s' tok q e s2 :
  peek s toks = (true, s') -> gettoken s' = (tok, q, e, s2) -> (length s2 < length s)%nat /\ s2 `suffix_of` s.
Proof.
  intros Hp Hg. apply peek_spec in Hp as (-> & Hs & Hl & Hne). apply gettoken_spec in Hg as (Hs2 & Hlt & Hn & _).
  rewrite skip_ws_idem in Hn. specialize (Hlt (Hn (Hne eq_refl))). split; [lia | by etrans].
Qed.

(** ** The routines *)

(** The fuel that is enough for a text. *)
Definition enough (s : list Z) : nat := 5 * length s + 5.

Section sound.
Context (line : list Z).

Lemma parseredirs_sound : forall f s, (length s < f)%nat -> s `suffix_of` line -> leaves s (redirs_ok line) (parseredirs f s).
Proof.
  induction f as [|f IH]; intros s Hf Hs; [lia |]. cbn [parseredirs]. destruct (peek s [60; 62]) as [[] s1] eqn:Hp.
  - destruct (gettoken s1) as [[[tok q1] e1] s2] eqn:Hg. destruct (taken_spec _ _ _ _ _ _ _ Hp Hg) as [Hl2 Hs2].
    destruct (gettoken s2) as [[[tok2 q] e] s3] eqn:Hg2. destruct (gettoken_spec _ _ _ _ _ Hg2) as (Hs3 & _).
    pose proof (suffix_length _ _ Hs3). destruct (Z.eqb_spec tok2 97) as [->|]; [cbn [negb] | done].
    assert (Hptr : ptr_ok line (q, e)) by (eapply gettoken_ptr; [exact Hg2 | by etrans]).
    eapply leaves_bind; [apply IH; [lia | by etrans; [| etrans]] |]. intros rs s4 Hrs Hs4 _. cbn. split; [| by etrans; [| etrans]].
    constructor; [by destruct (tok =? 60) | exact Hrs].
  - apply peek_spec in Hp as (_ & Hs1 & _). split; [constructor | exact Hs1].
Qed.

Definition args_ok (argc : nat) (x : list (nat * nat) * list redir) : Prop :=
  (argc + length x.1 < MAXARGS)%nat /\ Forall (ptr_ok line) x.1 /\ redirs_ok line x.2.

Lemma exec_loop_sound : forall f argc s, (length s < f)%nat -> s `suffix_of` line -> (argc < MAXARGS)%nat ->
  leaves s (args_ok argc) (exec_loop f argc s).
Proof.
  induction f as [|f IH]; intros argc s Hf Hs Hargc; [lia |]. cbn [exec_loop].
  assert (Hnil : args_ok argc ([], [])) by (split_and!; [cbn; lia | constructor | constructor]).
  destruct (peek s [124; 41; 38; 59]) as [[] s1] eqn:Hp; apply peek_spec in Hp as (_ & Hs1 & Hl1 & _); [by split |].
  destruct (gettoken s1) as [[[tok q] e] s2] eqn:Hg. destruct (gettoken_spec _ _ _ _ _ Hg) as (Hs2 & Hlt & _).
  destruct (Z.eqb_spec tok 0) as [H0|H0]; [split; [done | by etrans] |]. specialize (Hlt H0).
  destruct (Z.eqb_spec tok 97) as [->|]; [cbn [negb] | done]. destruct (Nat.leb_spec MAXARGS (S argc)); [done |].
  assert (Hptr : ptr_ok line (q, e)) by (eapply gettoken_ptr; [exact Hg | by etrans]).
  assert (Hs2' : s2 `suffix_of` s) by (by etrans).
  eapply leaves_bind; [apply parseredirs_sound; [lia | by etrans] |]. intros rs s3 Hrs Hs3 Hl3.
  eapply leaves_bind; [apply IH; [lia | by etrans; [| etrans] | lia] |]. intros [args rs'] s4 (Ha & Hp1 & Hr) Hs4 _. cbn in *.
  split; [| by etrans; [| etrans]]. split_and!; cbn; [lia | by constructor | by apply Forall_app].
Qed.

Lemma back_loop_sound : forall f c s, (length s < f)%nat -> cmd_ok line c -> leaves s (cmd_ok line) (back_loop f c s).
Proof.
  induction f as [|f IH]; intros c s Hf Hc; [lia |]. cbn [back_loop]. destruct (peek s [38]) as [[] s1] eqn:Hp.
  - destruct (gettoken s1) as [[[tok q] e] s2] eqn:Hg. destruct (taken_spec _ _ _ _ _ _ _ Hp Hg) as [Hl Hs].
    eapply leaves_mono; [apply IH; [lia | exact Hc] | exact Hs].
  - apply peek_spec in Hp as (_ & Hs1 & _). by split.
Qed.

Lemma parse_sound : forall f s, s `suffix_of` line ->
  ((enough s <= f)%nat -> leaves s (cmd_ok line) (parseline f s)) /\
  ((enough s <= S f)%nat -> leaves s (cmd_ok line) (parsepipe f s)) /\
  ((enough s <= S (S f))%nat -> leaves s (cmd_ok line) (parseexec f s)) /\
  ((enough s <= S (S (S f)))%nat -> leaves s (cmd_ok line) (parseblock f s)).
Proof.
  unfold enough. induction f as [|f IH]; intros s Hs; [split_and!; intros; lia |]. split_and!; intros Hf.
  - cbn [parseline]. eapply leaves_bind; [apply IH; [done | lia] |]. intros c s1 Hc Hs1 Hl1.
    eapply leaves_bind; [apply back_loop_sound; [lia | exact Hc] |]. intros c2 s2 Hc2 Hs2 Hl2.
    destruct (peek s2 [59]) as [[] s3] eqn:Hp; [| apply peek_spec in Hp as (_ & Hs3 & _); split; [done | by etrans; [| etrans]]].
    destruct (gettoken s3) as [[[tok q] e] s4] eqn:Hg. destruct (taken_spec _ _ _ _ _ _ _ Hp Hg) as [Hl4 Hs4].
    assert (Hs4' : s4 `suffix_of` s) by (by etrans; [| etrans]).
    eapply leaves_bind; [apply IH; [by etrans | lia] |]. intros r s5 Hr Hs5 _. split; [done | by etrans].
  - cbn [parsepipe]. eapply leaves_bind; [apply IH; [done | lia] |]. intros c s1 Hc Hs1 Hl1.
    destruct (peek s1 [124]) as [[] s3] eqn:Hp; [| apply peek_spec in Hp as (_ & Hs3 & _); split; [done | by etrans]].
    destruct (gettoken s3) as [[[tok q] e] s4] eqn:Hg. destruct (taken_spec _ _ _ _ _ _ _ Hp Hg) as [Hl4 Hs4].
    assert (Hs4' : s4 `suffix_of` s) by (by etrans).
    eapply leaves_bind; [apply IH; [by etrans | lia] |]. intros r s5 Hr Hs5 _. split; [done | by etrans].
  - cbn [parseexec]. destruct (peek s [40]) as [[] s1] eqn:Hp; apply peek_spec in Hp as (_ & Hs1 & Hl1 & _).
    { eapply leaves_mono; [apply IH; [by etrans | lia] | done]. }
    eapply leaves_bind; [apply parseredirs_sound; [lia | by etrans] |]. intros rs s2 Hrs Hs2 Hl2.
    eapply leaves_bind; [apply exec_loop_sound; [lia | by etrans; [| etrans] | unfold MAXARGS; lia] |]. intros [args rs'] s3 (Ha & Hp1 & Hr) Hs3 _.
    split; [| by etrans; [| etrans]]. apply wrap_ok; [by split | by apply Forall_app].
  - cbn [parseblock]. destruct (peek s [40]) as [[] s1] eqn:Hp; [| done]. cbn [negb].
    destruct (gettoken s1) as [[[tok q] e] s2] eqn:Hg. destruct (taken_spec _ _ _ _ _ _ _ Hp Hg) as [Hl2 Hs2].
    eapply leaves_bind; [apply IH; [by etrans | lia] |]. intros c s3 Hc Hs3 Hl3. destruct (peek s3 [41]) as [[] s4] eqn:Hp2; [| done]. cbn [negb].
    destruct (gettoken s4) as [[[tok2 q2] e2] s5] eqn:Hg2. destruct (taken_spec _ _ _ _ _ _ _ Hp2 Hg2) as [Hl5 Hs5].
    assert (Hs5' : s5 `suffix_of` s) by (by etrans; [| etrans]).
    eapply leaves_bind; [apply parseredirs_sound; [lia | by etrans] |]. intros rs s6 Hrs Hs6 _. split; [by apply wrap_ok | by etrans].
Qed.

End sound.

(** ** The strings are terminated *)

Fixpoint ptrs (c : cmd) : list (nat * nat) :=
  match c with
  | EXEC argv => argv
  | REDIR c r => ptrs c ++ [(rd_file r, rd_efile r)]
  | PIPE l r | LIST l r => ptrs l ++ ptrs r
  | BACK c => ptrs c
  end.

Lemma put_nuls_app l1 l2 buf : put_nuls (l1 ++ l2) buf = rbind (put_nuls l1 buf) (put_nuls l2).
Proof.
  revert buf. induction l1 as [|[q e] l1 IH]; intros buf; [done |]. cbn [app put_nuls]. destruct (put_nul e buf); cbn [rbind]; [apply IH | done ..].
Qed.

Lemma nulterminate_ptrs c : forall buf, nulterminate c buf = put_nuls (ptrs c) buf.
Proof.
  induction c as [argv|c IH r|l IHl r IHr|l IHl r IHr|c IH]; intros buf; cbn [nulterminate ptrs]; try done; rewrite ?put_nuls_app.
  - rewrite IH. destruct (put_nuls (ptrs c) buf) as [b| | |]; cbn; [by destruct (put_nul (rd_efile r) b) | done ..].
  - rewrite IHl. destruct (put_nuls (ptrs l) buf) as [b| | |]; cbn; [apply IHr | done ..].
  - rewrite IHl. destruct (put_nuls (ptrs l) buf) as [b| | |]; cbn; [apply IHr | done ..].
Qed.

Lemma cmd_ok_ptrs line c : cmd_ok line c -> Forall (ptr_ok line) (ptrs c).
Proof.
  induction c; cbn; intros H.
  - apply H.
  - apply Forall_app. split; [apply IHc, H | constructor; [apply H | constructor]].
  - apply Forall_app. naive_solver.
  - apply Forall_app. naive_solver.
  - auto.
Qed.

(** The buffer is the line with NULs in place of some bytes outside of words. *)
Definition marked (line buf : list Z) : Prop :=
  length buf = S (length line) /\
  forall i c, line !! i = Some c -> buf !! i = Some c \/ (buf !! i = Some 0 /\ wordchar c = false).

(** The string at a pointer. *)
Definition string_at (buf : list Z) (p : nat) (w : list Z) : Prop :=
  take (S (length w)) (drop (length buf - 1 - p) buf) = w ++ [0].

Lemma put_nul_ok line buf p : marked line buf -> ptr_ok line p ->
  put_nul p.2 buf = Ok (<[(length line - p.2)%nat := 0]> buf) /\ marked line (<[(length line - p.2)%nat := 0]> buf).
Proof.
  intros [Hl Hm] (w & pre & t & -> & -> & _ & _ & Ht). cbn [snd]. rewrite !length_app in *.
  replace (length pre + (length w + length t) - length t)%nat with (length pre + length w)%nat by lia. split.
  - unfold put_nul. rewrite arr_set_in by lia. do 2 f_equal. lia.
  - split; [rewrite length_insert, !length_app; lia |]. intros i c Hi. destruct (decide (i = length pre + length w)%nat) as [->|Hne].
    + right. rewrite list_lookup_insert_eq by lia. split; [done |].
      rewrite app_assoc, lookup_app_r in Hi by (rewrite length_app; lia). rewrite length_app in Hi.
      replace (length pre + length w - (length pre + length w))%nat with 0%nat in Hi by lia. destruct t as [|d t]; [done |]. by injection Hi as ->.
    + rewrite list_lookup_insert_ne by done. by apply Hm.
Qed.

Lemma put_nuls_ok line : forall ps buf, marked line buf -> Forall (ptr_ok line) ps ->
  exists buf', put_nuls ps buf = Ok buf' /\ marked line buf' /\ (forall i, buf !! i = Some 0 -> buf' !! i = Some 0) /\
    Forall (fun p => buf' !! (length line - p.2)%nat = Some 0) ps.
Proof.
  induction ps as [|[q e] ps IH]; intros buf Hm Hps; [exists buf; split_and!; [done | done | auto | constructor] |]. apply Forall_cons in Hps as [Hp Hps].
  destruct (put_nul_ok line buf (q, e) Hm Hp) as [Hput Hm1]. cbn [snd] in *. cbn [put_nuls]. rewrite Hput. cbn [rbind].
  destruct (IH _ Hm1 Hps) as (buf' & Hrun & Hm' & Hkeep & Hall). exists buf'. split_and!; [done | done | |].
  - intros i Hi. apply Hkeep. destruct (decide (i = length line - e)%nat) as [->|Hne]; [| by rewrite list_lookup_insert_ne].
    apply list_lookup_insert_eq. by apply lookup_lt_Some in Hi.
  - constructor; [| exact Hall]. apply Hkeep, list_lookup_insert_eq. destruct Hm as [-> _]. cbn. lia.
Qed.

Lemma word_string line buf p w : marked line buf -> word_ok line p w -> buf !! (length line - p.2)%nat = Some 0 -> string_at buf p.1 w.
Proof.
  intros [Hl Hm] (pre & t & -> & -> & Hne & Hw & Ht) H0. unfold string_at. cbn [fst snd] in *. rewrite !length_app in *.
  replace (length buf - 1 - (length w + length t))%nat with (length pre) by lia.
  replace (length pre + (length w + length t) - length t)%nat with (length pre + length w)%nat in H0 by lia.
  rewrite (take_S_r _ _ 0) by (by rewrite lookup_drop). f_equal. apply list_eq. intros i. rewrite lookup_take.
  case_decide as Hi; [| by rewrite lookup_ge_None_2 by lia]. rewrite lookup_drop. destruct (lookup_lt_is_Some_2 w i Hi) as [c Hc].
  destruct (Hm (length pre + i)%nat c) as [->|[_ Hno]]; [| done |].
  - rewrite lookup_app_r, lookup_app_l by lia. by replace (length pre + i - length pre)%nat with i by lia.
  - rewrite Forall_forall in Hw. rewrite Hw in Hno; [done | by apply list_elem_of_lookup_2 in Hc].
Qed.

(** What the parser makes of any line, and its buffer. *)
Lemma parsecmd_sound line : Forall (fun c => c <> 0) line ->
  match parsecmd (enough line) line with
  | Ok (c, buf) => cmd_ok line c /\ Forall (fun p => exists w, word_ok line p w /\ string_at buf p.1 w) (ptrs c)
  | Panic _ => True
  | Undef | Hang => False
  end.
Proof.
  intros Hz. unfold parsecmd. destruct (parse_sound line (enough line) line ltac:(done)) as [H _]. specialize (H ltac:(lia)).
  destruct (parseline (enough line) line) as [[c s]| | |]; cbn in H; try done. destruct H as [Hc _]. cbn [rbind]. cbn [peek].
  destruct (bool_decide _); [| done]. rewrite nulterminate_ptrs.
  destruct (put_nuls_ok line (ptrs c) (line ++ [0])) as (buf & -> & Hm & _ & Hall); [| by apply cmd_ok_ptrs |].
  - split; [rewrite length_app; cbn; lia |]. intros i x Hi. left. rewrite lookup_app_l; [done | by apply lookup_lt_Some in Hi].
  - cbn [rbind]. split; [exact Hc |]. apply cmd_ok_ptrs in Hc. rewrite Forall_forall in *. intros p Hp.
    destruct (Hc p Hp) as [w Hw]. exists w. split; [exact Hw |]. eapply word_string; [exact Hm | exact Hw | by apply Hall].
Qed.
