(* ===== verification/ShRound.v ===== *)
(** * Commands of the shell and their texts

    The abstract commands, their printed form with the parentheses that the
    grammar needs, and the proof that the parser of Sh.v gives every printed
    command back. *)

From S2P Require Import Prelude Sh.

Inductive ast :=
| AExec (ws : list (list Z))
| ARedir (a : ast) (out : bool) (file : list Z)
| APipe (l r : ast)
| AList (l r : ast)
| ABack (a : ast).

(** A word is not empty and has no special byte. *)
Definition word (w : list Z) : Prop := w <> [] /\ Forall (fun c => wordchar c = true /\ c <> 0) w.

Fixpoint ast_ok (a : ast) : Prop :=
  match a with
  | AExec ws => (length ws < MAXARGS)%nat /\ Forall word ws
  | ARedir a _ f => ast_ok a /\ word f
  | APipe l r | AList l r => ast_ok l /\ ast_ok r
  | ABack a => ast_ok a
  end.

(** ** Printing *)

Definition words_text (ws : list (list Z)) : list Z := concat ((fun w => 32 :: w) <$> ws).
Definition redir_text (r : bool * list Z) : list Z := (if r.1 then 62 else 60) :: r.2.
Definition redirs_text (rs : list (bool * list Z)) : list Z := concat (redir_text <$> rs).

Definition paren (b : bool) (s : list Z) : list Z := if b then 40 :: s ++ [41] else s.

(** The levels of the grammar: 0 a line, 1 a pipeline with its [&], 2 a
    pipeline, 3 a command. *)
Fixpoint show (lvl : nat) (a : ast) : list Z :=
  match a with
  | AExec ws => words_text ws
  | ARedir a out f => show 3 a ++ redir_text (out, f)
  | APipe l r => paren (2 <? lvl)%nat (show 3 l ++ 124 :: show 2 r)
  | ABack a => paren (1 <? lvl)%nat (show 1 a ++ [38])
  | AList l r => paren (0 <? lvl)%nat (show 1 l ++ 59 :: show 0 r)
  end.

(** The command in memory is the abstract command: its pointers delimit the
    words in the line. *)
Fixpoint means (line : list Z) (c : cmd) (a : ast) : Prop :=
  match c, a with
  | EXEC argv, AExec ws => Forall2 (word_ok line) argv ws
  | REDIR c r, ARedir a out f => means line c a /\ word_ok line (rd_file r, rd_efile r) f /\
      rd_mode r = (if out then 0x201 else 0) /\ rd_fd r = (if out then 1 else 0)
  | PIPE l r, APipe l' r' | LIST l r, AList l' r' => means line l l' /\ means line r r'
  | BACK c, ABack a => means line c a
  | _, _ => False
  end.

(** The first byte of the text that is not white space is one of these. *)
Definition stops (toks : list Z) (s : list Z) : Prop := match skip_ws s with [] => True | c :: _ => c ∈ toks end.

(** ** Bytes *)

Lemma wordchar_not c toks : wordchar c = true -> toks ⊆ symbols -> mem_of toks c = false.
Proof.
  unfold wordchar, mem_of. intros H Ht. apply andb_prop in H as [_ H]. apply negb_true_iff, bool_decide_eq_false in H.
  apply bool_decide_eq_false_2. set_solver.
Qed.

Lemma wordchar_ws c : wordchar c = true -> mem_of whitespace c = false.
Proof. unfold wordchar. intros H. by apply andb_prop in H as [H%negb_true_iff _]. Qed.

Lemma word_cons w : word w -> exists c w', w = c :: w' /\ wordchar c = true.
Proof. intros [Hne Hf]. destruct w as [|c w]; [done |]. apply Forall_cons in Hf as [[Hc _] _]. by exists c, w. Qed.

Lemma skip_ws_word w t : word w -> skip_ws (w ++ t) = w ++ t.
Proof. intros (c & w' & -> & Hc)%word_cons. cbn. by rewrite (wordchar_ws _ Hc). Qed.

Lemma skip_ws_sym c t : c ∈ symbols -> skip_ws (c :: t) = c :: t.
Proof.
  intros Hc. cbn. assert (mem_of whitespace c = false) as ->; [| done]. apply bool_decide_eq_false_2. unfold symbols, whitespace in *. set_solver.
Qed.

Lemma stops_no_word toks s : toks ⊆ symbols -> stops toks s -> no_word s.
Proof.
  unfold stops, no_word. destruct s as [|c s]; [done |]. cbn. unfold wordchar. destruct (mem_of whitespace c); [done |].
  intros Ht Hc. apply andb_false_intro2. apply negb_false_iff, bool_decide_eq_true_2. set_solver.
Qed.

Lemma stops_mono toks toks' s : toks ⊆ toks' -> stops toks s -> stops toks' s.
Proof. unfold stops. destruct (skip_ws s); [done | set_solver]. Qed.

Lemma stops_sym toks c s : c ∈ symbols -> c ∈ toks -> stops toks (c :: s).
Proof. intros Hc Ht. unfold stops. by rewrite skip_ws_sym. Qed.

Lemma word_end_word w t : Forall (fun c => wordchar c = true /\ c <> 0) w -> no_word t -> word_end (w ++ t) = t.
Proof.
  intros Hw Ht. induction Hw as [|c w [Hc _] _ IH]; cbn.
  - destruct t as [|d t]; [done |]. cbn in *. unfold wordchar in Ht. by rewrite Ht.
  - unfold wordchar in Hc. by rewrite Hc.
Qed.

(** ** Tokens *)

Lemma gettoken_word s w t : skip_ws s = w ++ t -> word w -> no_word t -> gettoken s = (97, length (w ++ t), length t, skip_ws t).
Proof.
  intros Hs Hw Ht. unfold gettoken. rewrite Hs. destruct (word_cons w Hw) as (c & w' & -> & Hc). cbn [app].
  rewrite (wordchar_not c) by (done || (unfold symbols; set_solver)).
  assert ((c =? 62) = false) as -> by (apply Z.eqb_neq; intros ->; done).
  change (c :: w' ++ t) with ((c :: w') ++ t). rewrite word_end_word by (done || apply Hw). done.
Qed.

Lemma gettoken_sym s c t : skip_ws s = c :: t -> c ∈ [124; 40; 41; 59; 38; 60] -> exists q e, gettoken s = (c, q, e, skip_ws t).
Proof. intros Hs Hc. unfold gettoken. rewrite Hs. unfold mem_of at 1. rewrite bool_decide_eq_true_2 by exact Hc. eauto. Qed.

Lemma gettoken_gt s w t : skip_ws s = 62 :: w ++ t -> word w -> exists q e, gettoken s = (62, q, e, w ++ t).
Proof.
  intros Hs Hw. unfold gettoken. rewrite Hs. destruct (word_cons w Hw) as (c & w' & -> & Hc). cbn -[skip_ws].
  assert ((c =? 62) = false) as -> by (apply Z.eqb_neq; intros ->; done). eexists _, _. f_equal. apply (skip_ws_word (c :: w')), Hw.
Qed.

Lemma peek_yes s toks c t : skip_ws s = c :: t -> c ∈ toks -> peek s toks = (true, c :: t).
Proof. intros Hs Hc. unfold peek, mem_of. rewrite Hs. by rewrite bool_decide_eq_true_2. Qed.

Lemma peek_no s toks : match skip_ws s with [] => True | c :: _ => c ∉ toks end -> peek s toks = (false, skip_ws s).
Proof. unfold peek, mem_of. destruct (skip_ws s); [done |]. intros H. by rewrite bool_decide_eq_false_2. Qed.

Lemma peek_stop s toks toks' : stops toks' s -> (forall c, c ∈ toks' -> c ∉ toks) -> peek s toks = (false, skip_ws s).
Proof. intros Hs Ht. apply peek_no. unfold stops in Hs. destruct (skip_ws s); auto. Qed.

(** ** The routines on printed text *)

Section round.
Context (line : list Z).

Definition redir_means (r : redir) (x : bool * list Z) : Prop :=
  word_ok line (rd_file r, rd_efile r) x.2 /\ rd_mode r = (if x.1 then 0x201 else 0) /\ rd_fd r = (if x.1 then 1 else 0).

Lemma word_here w t : w ++ t `suffix_of` line -> word w -> no_word t -> word_ok line (length (w ++ t), length t) w.
Proof.
  intros [pre ->] [Hne Hw] Ht. exists pre, t. split_and!; try done. eapply Forall_impl; [exact Hw |]. by intros c [].
Qed.

Lemma suffix_app_tail {A} (a b l : list A) : a ++ b `suffix_of` l -> b `suffix_of` l.
Proof. intros H. etrans; [| exact H]. by exists a. Qed.

(** After a redirection comes another one or the rest. *)
Lemma redirs_no_word rs rest : no_word rest -> no_word (redirs_text rs ++ rest).
Proof. destruct rs as [|[[] f] rs]; done. Qed.

Lemma redirs_round : forall rs f s rest,
  skip_ws s = skip_ws (redirs_text rs ++ rest) -> redirs_text rs ++ rest `suffix_of` line -> Forall (fun r => word r.2) rs ->
  no_word rest -> match skip_ws rest with [] => True | c :: _ => c ∉ [60; 62] end -> (length rs < f)%nat ->
  exists rds, parseredirs f s = Ok (rds, skip_ws rest) /\ Forall2 redir_means rds rs.
Proof.
  induction rs as [|[out w] rs IH]; intros [|f] s rest Hs Hsuf Hrs Hnw Hrest Hf; try (simpl in Hf; lia); cbn [parseredirs].
  - cbn in Hs. rewrite peek_no by (by rewrite Hs). rewrite Hs. exists []. by split; [| constructor].
  - apply Forall_cons in Hrs as [Hw Hrs]. cbn [snd] in Hw. set (t := redirs_text rs ++ rest).
    assert (Hsuf' : redir_text (out, w) ++ t `suffix_of` line) by (unfold t; rewrite app_assoc; exact Hsuf).
    assert (Hs' : skip_ws s = (if out then 62 else 60) :: w ++ t).
    { rewrite Hs. unfold t. change (redirs_text ((out, w) :: rs)) with ((if out then 62 else 60) :: w ++ redirs_text rs). cbn [app].
      rewrite <- app_assoc. apply skip_ws_sym. unfold symbols. destruct out; set_solver. }
    assert (Ht : no_word t) by by apply redirs_no_word.
    rewrite (peek_yes s [60; 62] _ _ Hs') by (destruct out; set_solver).
    assert (Hg : exists q e, gettoken ((if out then 62 else 60) :: w ++ t) = ((if out then 62 else 60), q, e, w ++ t)).
    { assert (Hi : skip_ws ((if out then 62 else 60) :: w ++ t) = (if out then 62 else 60) :: w ++ t)
        by (apply skip_ws_sym; unfold symbols; destruct out; set_solver).
      destruct out; [by apply gettoken_gt |]. destruct (gettoken_sym _ _ _ Hi) as (q & e & He); [set_solver |].
      exists q, e. by rewrite He, skip_ws_word. }
    destruct Hg as (q & e & ->). rewrite (gettoken_word (w ++ t) w t) by (done || by apply skip_ws_word). cbn [negb Z.eqb].
    apply (suffix_app_tail [if out then 62 else 60]) in Hsuf'.
    destruct (IH f (skip_ws t) rest) as (rds & Hr & Hm); try done; [by rewrite skip_ws_idem | by apply suffix_app_tail in Hsuf' | simpl in Hf; lia |].
    change (97 =? 97) with true. cbn [negb]. rewrite Hr. cbn [rbind]. eexists. split; [reflexivity |]. constructor; [| exact Hm].
    destruct out; (split; [by apply word_here | done]).
Qed.

(** What ends a command. *)
Definition ENDS : list Z := [124; 41; 38; 59].

Lemma skip_ws_words w ws t : word w -> skip_ws (words_text (w :: ws) ++ t) = w ++ words_text ws ++ t.
Proof.
  intros Hw. change (words_text (w :: ws)) with (32 :: w ++ words_text ws). cbn [app]. rewrite <- app_assoc. apply (skip_ws_word w _ Hw).
Qed.

Lemma words_no_word ws t : no_word t -> no_word (words_text ws ++ t).
Proof. by destruct ws. Qed.

Lemma not_redir rest toks : toks ⊆ ENDS -> stops toks rest -> match skip_ws rest with [] => True | c :: _ => c ∉ [60; 62] end.
Proof. unfold stops, ENDS. intros Ht. destruct (skip_ws rest); [done |]. set_solver. Qed.

(** The arguments, and the redirections after the last one. *)
Lemma exec_round : forall ws rs argc f s rest,
  skip_ws s = skip_ws (words_text ws ++ redirs_text rs ++ rest) -> words_text ws ++ redirs_text rs ++ rest `suffix_of` line ->
  Forall word ws -> Forall (fun r => word r.2) rs -> (ws = [] -> rs = []) -> stops ENDS rest ->
  (argc + length ws < MAXARGS)%nat -> (length ws + length rs < f)%nat ->
  exists argv rds, exec_loop f argc s = Ok (argv, rds, skip_ws rest) /\ Forall2 (word_ok line) argv ws /\ Forall2 redir_means rds rs.
Proof.
  induction ws as [|w ws IH]; intros rs argc [|f] s rest Hs Hsuf Hws Hrs Hempty Hstop Hargc Hf; try (simpl in Hf; lia); cbn [exec_loop].
  - rewrite Hempty in * by done. cbn in Hs. exists [], []. split; [| by split]. unfold peek. rewrite Hs.
    unfold stops in Hstop. destruct (skip_ws rest) as [|c t] eqn:Hr.
    + unfold gettoken. by rewrite Hs || done.
    + unfold mem_of. by rewrite bool_decide_eq_true_2.
  - apply Forall_cons in Hws as [Hw Hws]. rewrite skip_ws_words in Hs by exact Hw. set (t := words_text ws ++ redirs_text rs ++ rest) in *.
    assert (Hnr : no_word rest) by (apply (stops_no_word ENDS); [unfold ENDS, symbols; set_solver | exact Hstop]).
    assert (Ht : no_word t) by (apply words_no_word, redirs_no_word, Hnr).
    assert (Hp : peek s [124; 41; 38; 59] = (false, w ++ t)).
    { rewrite <- Hs. apply peek_no. rewrite Hs. destruct (word_cons w Hw) as (c & w' & -> & Hc). cbn. intros Hin.
      apply (wordchar_not c symbols) in Hc; [| done]. apply bool_decide_eq_false in Hc. apply Hc. unfold symbols. set_solver. }
    rewrite Hp, (gettoken_word (w ++ t) w t) by (done || by apply skip_ws_word).
    change (97 =? 0) with false. change (97 =? 97) with true. cbn [negb]. simpl in Hargc, Hf. rewrite (proj2 (Nat.leb_gt _ _)) by lia.
    assert (Hsw : w ++ t `suffix_of` line).
    { change (words_text (w :: ws)) with (32 :: w ++ words_text ws) in Hsuf. apply (suffix_app_tail [32]). cbn. unfold t. by rewrite app_assoc. }
    assert (Hst : t `suffix_of` line) by by apply suffix_app_tail in Hsw.
    assert (Hred : exists rds1 rs1, (ws = [] -> rs1 = []) /\ parseredirs f (skip_ws t) = Ok (rds1, skip_ws (words_text ws ++ redirs_text rs1 ++ rest)) /\
      words_text ws ++ redirs_text rs1 ++ rest `suffix_of` line /\ Forall (fun r => word r.2) rs1 /\ (length rs1 <= length rs)%nat /\
      forall rds2, Forall2 redir_means rds2 rs1 -> Forall2 redir_means (rds1 ++ rds2) rs).
    { destruct ws as [|w2 ws2].
      - destruct (redirs_round rs f (skip_ws t) rest) as (rds & Hr & Hm); try done;
          [by rewrite skip_ws_idem | by eapply not_redir | simpl in Hf; lia |].
        exists rds, []. split_and!; [done | done | exact (suffix_app_tail (redirs_text rs) rest line Hst) | constructor | simpl; lia |].
        intros rds2 H2. apply Forall2_nil_inv_r in H2 as ->. by rewrite app_nil_r.
      - destruct (redirs_round [] f (skip_ws t) t) as (rds & Hr & Hm); try done; [by rewrite skip_ws_idem | | simpl in Hf |-*; lia |].
        + apply Forall_cons in Hws as [Hw2 _]. unfold t. rewrite skip_ws_words by exact Hw2. destruct (word_cons w2 Hw2) as (c & w' & -> & Hc). cbn.
          intros Hin. apply (wordchar_not c symbols) in Hc; [| done]. apply bool_decide_eq_false in Hc. apply Hc. unfold symbols. set_solver.
        + exists rds, rs. apply Forall2_nil_inv_r in Hm as ->. by split_and!. }
    destruct Hred as (rds1 & rs1 & He1 & Hr1 & Hsuf1 & Hrs1 & Hl1 & Hm1). rewrite Hr1. cbn [rbind].
    destruct (IH rs1 (S argc) f (skip_ws (words_text ws ++ redirs_text rs1 ++ rest)) rest) as (argv & rds2 & Hx & Ha & Hm2); try done; [by rewrite skip_ws_idem | lia | lia |].
    rewrite Hx. cbn [rbind]. eexists _, _. split; [reflexivity |]. split; [| by apply Hm1]. constructor; [by apply word_here | exact Ha].
Qed.

(** ** The shape of commands *)

Definition awrap (a : ast) (rs : list (bool * list Z)) : ast := foldl (fun a r => ARedir a r.1 r.2) a rs.

Lemma means_wrap c a rds rs : means line c a -> Forall2 redir_means rds rs -> means line (wrap c rds) (awrap a rs).
Proof.
  intros Hc Hr. revert c a Hc. induction Hr as [|r x rds rs (Hw & Hm & Hf) _ IH]; intros c a Hc; [exact Hc |].
  apply (IH (REDIR c r) (ARedir a x.1 x.2)). by split_and!.
Qed.

Fixpoint size (a : ast) : nat :=
  match a with
  | AExec _ => 1
  | ARedir a _ _ | ABack a => S (size a)
  | APipe l r | AList l r => S (size l + size r)
  end.

Definition compound (a : ast) : bool := match a with APipe _ _ | AList _ _ | ABack _ => true | _ => false end.
Definition is_redir (a : ast) : bool := match a with ARedir _ _ _ => true | _ => false end.
Definition is_back (a : ast) : bool := match a with ABack _ => true | _ => false end.

(** A command and its redirections. *)
Lemma unredir a : ast_ok a -> exists b rs, a = awrap b rs /\ is_redir b = false /\ ast_ok b /\ Forall (fun r => word r.2) rs /\
  show 3 a = show 3 b ++ redirs_text rs /\ (size b <= size a)%nat.
Proof.
  induction a as [ws|a IH out w|l _ r _|l _ r _|a _]; intros Hok;
    try (eexists _, []; split_and!; [reflexivity | reflexivity | exact Hok | constructor | by rewrite app_nil_r | lia]).
  destruct Hok as [Ha Hw]. destruct (IH Ha) as (b & rs & -> & Hb & Hbok & Hrs & Hs & Hl). exists b, (rs ++ [(out, w)]). split_and!; try done.
  - unfold awrap. by rewrite foldl_app.
  - apply Forall_app. split; [exact Hrs | by repeat constructor; apply Hw].
  - cbn [show]. rewrite Hs. unfold redirs_text. rewrite fmap_app, concat_app. cbn. by rewrite app_nil_r, <- app_assoc.
  - cbn. lia.
Qed.

(** A pipeline and its [&]. *)
Lemma unback a : ast_ok a -> exists b n, a = Nat.iter n ABack b /\ is_back b = false /\ ast_ok b /\ show 1 a = show 2 b ++ replicate n 38 /\ (size b + n = size a)%nat.
Proof.
  induction a as [ws|a IH out w|l _ r _|l _ r _|a IH]; intros Hok;
    try (eexists _, 0%nat; split_and!; [reflexivity | reflexivity | exact Hok | by rewrite app_nil_r | lia]).
  destruct (IH Hok) as (b & n & -> & Hb & Hbok & Hs & Hl). exists b, (S n). split_and!; try done.
  - change (show 1 (ABack (Nat.iter n ABack b))) with (show 1 (Nat.iter n ABack b) ++ [38]). rewrite Hs, replicate_S_end. by rewrite <- app_assoc.
  - cbn. cbn in Hl. lia.
Qed.

Lemma means_backs n c a : means line c a -> means line (Nat.iter n BACK c) (Nat.iter n ABack a).
Proof. intros H. induction n as [|n IH]; [exact H | exact IH]. Qed.

Lemma back_round : forall n f c s rest, skip_ws s = skip_ws (replicate n 38 ++ rest) -> stops [41; 59] rest -> (n < f)%nat ->
  back_loop f c s = Ok (Nat.iter n BACK c, skip_ws rest).
Proof.
  induction n as [|n IH]; intros [|f] c s rest Hs Hr Hf; try lia; cbn [back_loop].
  - cbn in Hs. rewrite (peek_no s [38]); [by rewrite Hs |]. rewrite Hs. unfold stops in Hr. destruct (skip_ws rest); [done | set_solver].
  - change (replicate (S n) 38 ++ rest) with (38 :: replicate n 38 ++ rest) in Hs.
    rewrite (skip_ws_sym 38) in Hs by (unfold symbols; set_solver). rewrite (peek_yes s [38] _ _ Hs) by set_solver.
    destruct (gettoken_sym (38 :: replicate n 38 ++ rest) 38 (replicate n 38 ++ rest)) as (q & e & ->); [apply skip_ws_sym; unfold symbols; set_solver | set_solver |].
    rewrite (IH f (BACK c) _ rest); [| by rewrite skip_ws_idem | exact Hr | lia]. by rewrite Nat.iter_swap.
Qed.

(** ** Every level *)

Definition parses0 (a : ast) : Prop := forall f s rest, skip_ws s = skip_ws (show 0 a ++ rest) -> show 0 a ++ rest `suffix_of` line ->
  stops [41] rest -> (enough (show 0 a ++ rest) <= f)%nat -> exists c, parseline f s = Ok (c, skip_ws rest) /\ means line c a.
Definition parses2 (a : ast) : Prop := forall f s rest, skip_ws s = skip_ws (show 2 a ++ rest) -> show 2 a ++ rest `suffix_of` line ->
  stops [41; 59; 38] rest -> (enough (show 2 a ++ rest) <= S f)%nat -> exists c, parsepipe f s = Ok (c, skip_ws rest) /\ means line c a.
Definition parses3 (a : ast) : Prop := forall f s rest, skip_ws s = skip_ws (show 3 a ++ rest) -> show 3 a ++ rest `suffix_of` line ->
  stops ENDS rest -> (enough (show 3 a ++ rest) <= S (S f))%nat -> exists c, parseexec f s = Ok (c, skip_ws rest) /\ means line c a.

Lemma redirs_len rs : (length rs <= length (redirs_text rs))%nat.
Proof. induction rs as [|r rs IH]; [done |]. unfold redirs_text in *. cbn. rewrite length_app. lia. Qed.

Lemma words_len ws : (length ws <= length (words_text ws))%nat.
Proof. induction ws as [|w ws IH]; [done |]. unfold words_text in *. cbn. rewrite length_app. lia. Qed.

(** A simple command does not begin with a parenthesis. *)
Lemma simple_no_paren ws rs rest : Forall word ws -> stops ENDS rest ->
  match skip_ws (words_text ws ++ redirs_text rs ++ rest) with [] => True | c :: _ => c ∉ [40] end.
Proof.
  intros Hws Hr. destruct ws as [|w ws].
  - destruct rs as [|[out w] rs].
    + cbn. unfold stops, ENDS in Hr. destruct (skip_ws rest); [done | set_solver].
    + change (words_text [] ++ redirs_text ((out, w) :: rs) ++ rest) with ((if out then 62 else 60) :: (w ++ redirs_text rs) ++ rest).
      rewrite skip_ws_sym by (unfold symbols; destruct out; set_solver). destruct out; set_solver.
  - apply Forall_cons in Hws as [Hw _]. rewrite skip_ws_words by exact Hw. destruct (word_cons w Hw) as (c & w' & -> & Hc). cbn.
    intros Hin%list_elem_of_singleton. by rewrite Hin in Hc.
Qed.

Lemma simple_round ws rs : (length ws < MAXARGS)%nat -> Forall word ws -> Forall (fun r => word r.2) rs ->
  forall f s rest, skip_ws s = skip_ws (words_text ws ++ redirs_text rs ++ rest) -> words_text ws ++ redirs_text rs ++ rest `suffix_of` line ->
  stops ENDS rest -> (length ws + length rs < f)%nat -> exists c, parseexec (S f) s = Ok (c, skip_ws rest) /\ means line c (awrap (AExec ws) rs).
Proof.
  intros Hl Hws Hrs f s rest Hs Hsuf Hstop Hf. cbn [parseexec]. set (t := words_text ws ++ redirs_text rs ++ rest) in *.
  rewrite peek_no by (rewrite Hs; by apply simple_no_paren). rewrite Hs.
  assert (Hnr : no_word rest) by (apply (stops_no_word ENDS); [unfold ENDS, symbols; set_solver | exact Hstop]).
  destruct ws as [|w ws].
  - destruct (redirs_round rs f (skip_ws t) rest) as (rds & Hr & Hm); try done;
      [first [by rewrite skip_ws_idem | by eapply not_redir | simpl in Hf; lia] .. |]. rewrite Hr. cbn [rbind].
    destruct (exec_round [] [] 0 f (skip_ws rest) rest) as (argv & rds2 & Hx & Ha & Hm2); try done;
      [first [by rewrite skip_ws_idem | exact (suffix_app_tail (redirs_text rs) rest line Hsuf) | simpl in Hf |- *; lia] .. |].
    rewrite Hx. cbn [rbind]. eexists. split; [reflexivity |]. apply Forall2_nil_inv_r in Hm2 as ->. rewrite app_nil_r. by apply means_wrap.
  - apply Forall_cons in Hws as Hw. destruct Hw as [Hw _].
    destruct (redirs_round [] f (skip_ws t) t) as (rds & Hr & Hm); try done; [by rewrite skip_ws_idem | | simpl in Hf |- *; lia |].
    { unfold t. rewrite skip_ws_words by exact Hw. destruct (word_cons w Hw) as (c & w' & -> & Hc). cbn. intros Hin.
      apply (wordchar_not c symbols) in Hc; [| done]. apply bool_decide_eq_false in Hc. apply Hc. unfold symbols. set_solver. }
    rewrite Hr. cbn [rbind]. apply Forall2_nil_inv_r in Hm as ->.
    destruct (exec_round (w :: ws) rs 0 f (skip_ws t) rest) as (argv & rds2 & Hx & Ha & Hm2); try done; [by rewrite skip_ws_idem |].
    rewrite Hx. cbn [rbind app]. eexists. split; [reflexivity |]. by apply means_wrap.
Qed.

(** A command in parentheses. *)
Lemma block_round b rs : parses0 b -> Forall (fun r => word r.2) rs ->
  forall f s rest, let t := 40 :: show 0 b ++ 41 :: redirs_text rs ++ rest in
  skip_ws s = t -> t `suffix_of` line -> stops ENDS rest -> (enough t <= S (S f))%nat ->
  exists c, parseexec f s = Ok (c, skip_ws rest) /\ means line c (awrap b rs).
Proof.
  intros Hb Hrs f s rest t Hs Hsuf Hstop Hf. set (t1 := show 0 b ++ 41 :: redirs_text rs ++ rest) in *.
  assert (Hlen : length t = S (length t1)) by reflexivity. unfold enough in Hf. rewrite Hlen in Hf.
  assert (H1 : length t1 = (length (show 0 b) + S (length (redirs_text rs) + length rest))%nat) by (unfold t1; rewrite length_app; cbn; by rewrite length_app).
  destruct f as [|[|f]]; [lia .. |]. cbn [parseexec]. rewrite (peek_yes s [40] _ _ Hs) by set_solver. cbn [parseblock].
  assert (Hsk : skip_ws t = t) by (apply skip_ws_sym; unfold symbols; set_solver).
  rewrite (peek_yes (40 :: t1) [40] 40 t1) by (exact Hsk || set_solver). cbn [negb].
  destruct (gettoken_sym (40 :: t1) 40 t1) as (q & e & ->); [exact Hsk | set_solver |].
  destruct (Hb f (skip_ws t1) (41 :: redirs_text rs ++ rest)) as (c & Hc & Hm).
  { by rewrite skip_ws_idem. } { exact (suffix_app_tail [40] t1 line Hsuf). } { apply stops_sym; unfold symbols; set_solver. } { unfold enough. fold t1. lia. }
  rewrite Hc. cbn [rbind].
  assert (Hsk2 : forall u, skip_ws (41 :: u) = 41 :: u) by (intros u; apply skip_ws_sym; unfold symbols; set_solver). rewrite Hsk2.
  rewrite (peek_yes _ [41] 41 (redirs_text rs ++ rest)) by (apply Hsk2 || set_solver). cbn [negb].
  destruct (gettoken_sym (41 :: redirs_text rs ++ rest) 41 (redirs_text rs ++ rest)) as (q2 & e2 & ->); [apply Hsk2 | set_solver |].
  destruct (redirs_round rs f (skip_ws (redirs_text rs ++ rest)) rest) as (rds & Hr & Hmr); try done.
  - by rewrite skip_ws_idem.
  - apply (suffix_app_tail (40 :: show 0 b ++ [41])). rewrite <- app_comm_cons, <- app_assoc. exact Hsuf.
  - apply (stops_no_word ENDS); [unfold ENDS, symbols; set_solver | exact Hstop].
  - by eapply not_redir.
  - pose proof (redirs_len rs). lia.
  - rewrite Hr. cbn [rbind]. eexists. split; [reflexivity |]. by apply means_wrap.
Qed.

(** One level from those below it. *)
Lemma exec_level a : ast_ok a -> (forall b, (size b <= size a)%nat -> ast_ok b -> compound b = true -> parses0 b) -> parses3 a.
Proof.
  intros Hok IH f s rest Hs Hsuf Hstop Hf. destruct (unredir a Hok) as (b & rs & -> & Hb & Hbok & Hrs & Hshow & Hsize).
  rewrite Hshow in *. rewrite <- app_assoc in *.
  assert (Hcomp : (exists ws, b = AExec ws) \/ compound b = true /\ show 3 b = 40 :: show 0 b ++ [41])
    by (destruct b; cbn in Hb; try done; [left; by eexists | by right ..]).
  destruct Hcomp as [[ws ->]|[Hcomp Hpar]].
  - destruct Hbok as [Hl Hws]. unfold enough in Hf. rewrite !length_app in Hf. pose proof (redirs_len rs). pose proof (words_len ws). cbn [show] in *.
    destruct f as [|f]; [lia |]. apply simple_round; try done. lia.
  - rewrite Hpar in *. rewrite <- app_comm_cons, <- app_assoc in *. cbn [app] in *.
    eapply block_round; [by apply IH | exact Hrs | | exact Hsuf | exact Hstop | exact Hf].
    rewrite Hs. apply skip_ws_sym. unfold symbols. set_solver.
Qed.

Lemma pipe_step l r : parses3 l -> parses2 r -> parses2 (APipe l r).
Proof.
  intros Hl Hr f s rest Hs Hsuf Hstop Hf. change (show 2 (APipe l r)) with (show 3 l ++ 124 :: show 2 r) in *.
  rewrite <- app_assoc in *. cbn [app] in *. unfold enough in *. destruct f as [|f]; [lia |]. cbn [parsepipe].
  rewrite !length_app in Hf. cbn in Hf. rewrite length_app in Hf.
  destruct (Hl f s (124 :: show 2 r ++ rest)) as (c & Hc & Hm); [exact Hs | exact Hsuf | apply stops_sym; unfold symbols, ENDS; set_solver | unfold enough; rewrite length_app; cbn; rewrite length_app; lia |].
  rewrite Hc. cbn [rbind]. rewrite (skip_ws_sym 124) by (unfold symbols; set_solver).
  assert (Hsk : skip_ws (124 :: show 2 r ++ rest) = 124 :: show 2 r ++ rest) by (apply skip_ws_sym; unfold symbols; set_solver).
  rewrite (peek_yes _ [124] 124 (show 2 r ++ rest)) by (exact Hsk || set_solver).
  destruct (gettoken_sym _ _ _ Hsk) as (q & e & ->); [set_solver |].
  destruct (Hr f (skip_ws (show 2 r ++ rest)) rest) as (c2 & Hc2 & Hm2);
    [by rewrite skip_ws_idem | by apply (suffix_app_tail (show 3 l ++ [124])); rewrite <- app_assoc | exact Hstop | unfold enough; rewrite length_app; lia |].
  rewrite Hc2. cbn [rbind]. eexists. by split; [reflexivity |].
Qed.

(** A command that is not a pipeline. *)
Lemma pipe_single a : (forall l r, a <> APipe l r) -> parses3 a -> parses2 a.
Proof.
  intros Hne H3 f s rest Hs Hsuf Hstop Hf. assert (Hshow : show 2 a = show 3 a) by (by destruct a; cbn; try done; exfalso; eapply Hne).
  rewrite Hshow in *. unfold enough in Hf. destruct f as [|f]; [lia |]. cbn [parsepipe].
  destruct (H3 f s rest) as (c & Hc & Hm); [done | done | eapply stops_mono; [| exact Hstop]; unfold ENDS; set_solver | unfold enough; lia |].
  rewrite Hc. cbn [rbind]. rewrite (peek_stop _ [124] [41; 59; 38]); [| unfold stops in *; by rewrite skip_ws_idem | set_solver].
  rewrite skip_ws_idem. by exists c.
Qed.

(** A line without a [;] and one with it, up to the [&]. *)
Lemma back_level a : ast_ok a -> (forall b k, a = Nat.iter k ABack b -> ast_ok b -> is_back b = false -> parses2 b) ->
  forall f s rest, skip_ws s = skip_ws (show 1 a ++ rest) -> show 1 a ++ rest `suffix_of` line -> stops [41; 59] rest ->
  (enough (show 1 a ++ rest) <= S f)%nat -> exists c0 s0 c, parsepipe f s = Ok (c0, s0) /\ back_loop f c0 s0 = Ok (c, skip_ws rest) /\ means line c a.
Proof.
  intros Hok IH f s rest Hs Hsuf Hstop Hf. destruct (unback a Hok) as (b & n & -> & Hb & Hbok & Hshow & Hsize).
  rewrite Hshow in *. rewrite <- app_assoc in *. destruct (IH b n eq_refl Hbok Hb f s (replicate n 38 ++ rest)) as (c & Hc & Hm); try done.
  - destruct n as [|n]; [eapply stops_mono; [| exact Hstop]; set_solver | apply stops_sym; unfold symbols; set_solver].
  - eexists _, _, _. split; [exact Hc |]. split; [| by apply means_backs].
    unfold enough in Hf. rewrite !length_app, length_replicate in Hf. apply back_round; [by rewrite skip_ws_idem | exact Hstop | lia].
Qed.

Lemma list_step l r f s rest : ast_ok l ->
  (forall b k, l = Nat.iter k ABack b -> ast_ok b -> is_back b = false -> parses2 b) -> parses0 r ->
  skip_ws s = skip_ws (show 0 (AList l r) ++ rest) -> show 0 (AList l r) ++ rest `suffix_of` line -> stops [41] rest ->
  (enough (show 0 (AList l r) ++ rest) <= f)%nat -> exists c, parseline f s = Ok (c, skip_ws rest) /\ means line c (AList l r).
Proof.
  intros Hok IH Hr Hs Hsuf Hstop Hf. change (show 0 (AList l r)) with (show 1 l ++ 59 :: show 0 r) in *.
  rewrite <- app_assoc in *. cbn [app] in *. unfold enough in Hf. rewrite !length_app in Hf. cbn in Hf. rewrite length_app in Hf.
  destruct f as [|f]; [lia |]. cbn [parseline].
  destruct (back_level l Hok IH f s (59 :: show 0 r ++ rest)) as (c0 & s0 & c & Hp & Hb & Hm); [done | done | apply stops_sym; unfold symbols; set_solver | unfold enough; rewrite length_app; cbn; rewrite length_app; lia |].
  rewrite Hp. cbn [rbind]. rewrite Hb. cbn [rbind].
  assert (Hsk : skip_ws (59 :: show 0 r ++ rest) = 59 :: show 0 r ++ rest) by (apply skip_ws_sym; unfold symbols; set_solver). rewrite Hsk.
  rewrite (peek_yes _ [59] 59 (show 0 r ++ rest)) by (exact Hsk || set_solver). destruct (gettoken_sym _ _ _ Hsk) as (q & e & ->); [set_solver |].
  destruct (Hr f (skip_ws (show 0 r ++ rest)) rest) as (c2 & Hc2 & Hm2);
    [by rewrite skip_ws_idem | by apply (suffix_app_tail (show 1 l ++ [59])); rewrite <- app_assoc | exact Hstop | unfold enough; rewrite length_app; lia |].
  rewrite Hc2. cbn [rbind]. eexists. by split; [reflexivity |].
Qed.

Lemma line_single a : (forall l r, a <> AList l r) -> ast_ok a ->
  (forall b k, a = Nat.iter k ABack b -> ast_ok b -> is_back b = false -> parses2 b) -> parses0 a.
Proof.
  intros Hne Hok IH f s rest Hs Hsuf Hstop Hf. assert (Hshow : show 0 a = show 1 a) by (by destruct a; cbn; try done; exfalso; eapply Hne).
  rewrite Hshow in *. unfold enough in Hf. destruct f as [|f]; [lia |]. cbn [parseline].
  destruct (back_level a Hok IH f s rest) as (c0 & s0 & c & Hp & Hb & Hm); [done | done | eapply stops_mono; [| exact Hstop]; set_solver | unfold enough; lia |].
  rewrite Hp. cbn [rbind]. rewrite Hb. cbn [rbind]. rewrite (peek_stop _ [59] [41]); [| unfold stops in *; by rewrite skip_ws_idem | set_solver].
  rewrite skip_ws_idem. by exists c.
Qed.

Lemma size_backs k a : size (Nat.iter k ABack a) = (k + size a)%nat.
Proof. induction k as [|k IH]; [done | cbn; by rewrite <- IH]. Qed.

Lemma parse_round : forall n a, (size a <= n)%nat -> ast_ok a -> parses0 a /\ parses2 a /\ parses3 a.
Proof.
  induction n as [|n IH]; intros a0 Ha0 Hok0; [by destruct a0; cbn in Ha0; lia |].
  assert (Hcomp : forall a, (size a <= S n)%nat -> ast_ok a -> compound a = true -> parses0 a).
  { intros a Ha Hok Hc. destruct a as [ws|a out w|l r|l r|x]; try done; cbn in Ha.
    - apply line_single; [done | exact Hok |]. intros b [|k] Hb Hbok Hnb; [| done]. cbn in Hb. subst b. destruct Hok.
      apply pipe_step; apply IH; (lia || done).
    - destruct Hok as [Hl Hr]. intros f s rest. apply list_step; [exact Hl | | apply IH; (lia || done)].
      intros b k -> Hbok _. rewrite size_backs in Ha. apply IH; (lia || done).
    - apply line_single; [done | exact Hok |]. intros b [|k] Hb Hbok Hnb; [cbn in Hb; by subst b |].
      change (Nat.iter (S k) ABack b) with (ABack (Nat.iter k ABack b)) in Hb. injection Hb as ->.
      rewrite size_backs in Ha. apply IH; (lia || done). }
  assert (H3 : forall a, (size a <= S n)%nat -> ast_ok a -> parses3 a) by (intros a Ha Hok; apply exec_level; [exact Hok |]; intros b Hb; apply Hcomp; lia).
  assert (H2 : forall a, (size a <= S n)%nat -> ast_ok a -> parses2 a).
  { intros a Ha Hok. destruct a as [ws|a out w|l r|l r|a]; try (apply pipe_single; [done | by apply H3]).
    cbn in Ha. destruct Hok. apply pipe_step; apply IH; (lia || done). }
  split_and!; [| by apply H2 | by apply H3]. destruct a0 as [ws|a out w|l r|l r|a]; try (by apply Hcomp).
  - apply line_single; [done | done |]. intros b k Hb Hbok _. apply H2; [| exact Hbok]. rewrite Hb, size_backs in Ha0. lia.
  - apply line_single; [done | done |]. intros b k Hb Hbok _. apply H2; [| exact Hbok]. rewrite Hb, size_backs in Ha0. lia.
Qed.

End round.

(** ** The whole line *)

Lemma show_nonzero a : ast_ok a -> forall lvl, Forall (fun c => c <> 0) (show lvl a).
Proof.
  assert (Hw : forall w, word w -> Forall (fun c => c <> 0) w) by (intros w [_ Hw]; eapply Forall_impl; [exact Hw |]; by intros c []).
  assert (Hp : forall b s, Forall (fun c => c <> 0) s -> Forall (fun c => c <> 0) (paren b s)).
  { intros [] s Hs; [| exact Hs]. constructor; [done |]. apply Forall_app. split; [exact Hs | by repeat constructor]. }
  induction a as [ws|a IH out w|l IHl r IHr|l IHl r IHr|a IH]; intros Hok lvl; cbn [show].
  - destruct Hok as [_ Hws]. induction Hws as [|x ws Hx _ IH]; [constructor |]. unfold words_text. cbn. constructor; [done |]. apply Forall_app. by split; [apply Hw |].
  - destruct Hok as [Ha Hwd]. apply Forall_app. split; [by apply IH |]. constructor; [by destruct out | by apply Hw].
  - destruct Hok. apply Hp, Forall_app. split; [by apply IHl |]. constructor; [done | by apply IHr].
  - destruct Hok. apply Hp, Forall_app. split; [by apply IHl |]. constructor; [done | by apply IHr].
  - apply Hp, Forall_app. split; [by apply IH | by repeat constructor].
Qed.

(** The command gives the words of the abstract command as C strings. *)
Fixpoint strings (buf : list Z) (c : cmd) (a : ast) : Prop :=
  match c, a with
  | EXEC argv, AExec ws => Forall2 (fun p w => string_at buf p.1 w) argv ws
  | REDIR c r, ARedir a out f => strings buf c a /\ string_at buf (rd_file r) f /\
      rd_mode r = (if out then 0x201 else 0) /\ rd_fd r = (if out then 1 else 0)
  | PIPE l r, APipe l' r' | LIST l r, AList l' r' => strings buf l l' /\ strings buf r r'
  | BACK c, ABack a => strings buf c a
  | _, _ => False
  end.

Lemma word_ok_inj line p w w' : word_ok line p w -> word_ok line p w' -> w = w'.
Proof.
  intros (pre & t & -> & -> & _) (pre' & t' & He & [= Hl Ht] & _). apply app_inj_2 in He as [_ He]; [| exact Hl]. by apply app_inj_2 in He as [He _].
Qed.

Lemma means_strings line buf : forall c a, means line c a ->
  Forall (fun p => exists w, word_ok line p w /\ string_at buf p.1 w) (ptrs c) -> strings buf c a.
Proof.
  assert (Hone : forall p w, word_ok line p w -> (exists w', word_ok line p w' /\ string_at buf p.1 w') -> string_at buf p.1 w).
  { intros p w Hw (w' & Hw' & Hs). by rewrite (word_ok_inj _ _ _ _ Hw Hw'). }
  induction c as [argv|c IH r|l IHl r IHr|l IHl r IHr|c IH]; intros [ws|a out f|l' r'|l' r'|a] Hm Hp; cbn in Hm, Hp |- *; try done.
  - induction Hm as [|p w argv ws Hw _ IH]; [constructor |]. apply Forall_cons in Hp as [Hp Hps]. constructor; [by apply Hone | by apply IH].
  - apply Forall_app in Hp as [Hc [Hr _]%Forall_cons]. destruct Hm as (Hm & Hw & Hmode & Hfd). split_and!; [by apply IH | | done | done].
    exact (Hone _ _ Hw Hr).
  - apply Forall_app in Hp as []. destruct Hm. split; auto.
  - apply Forall_app in Hp as []. destruct Hm. split; auto.
  - auto.
Qed.

Lemma put_nuls_no_panic msg : forall ps buf, put_nuls ps buf <> Panic msg.
Proof.
  induction ps as [|[q e] ps IH]; intros buf; cbn; [done |]. unfold put_nul, arr_set. destruct (_ && _); cbn [rbind]; [apply IH | done].
Qed.

(** C32: the parser of the shell on any line: it always ends, with a command
    or one of its messages, without leaving the line; a command has at most
    nine arguments in each of its parts, and each of its arguments and file
    names is a whole word of the line, which the buffer holds as a string
    that ends with a NUL. *)
Theorem shell_parser_safe line :
  Forall (fun c => c <> 0) line ->
  match parsecmd (enough line) line with
  | Ok (c, buf) => cmd_ok line c /\ Forall (fun p => exists w, word_ok line p w /\ string_at buf p.1 w) (ptrs c)
  | Panic _ => True
  | Undef | Hang => False
  end.
Proof. apply parsecmd_sound. Qed.

(** [ls | wc >x] and two errors *)
Lemma shell_parser_safe_witness :
  (match parsecmd (enough [108; 115; 124; 119; 99; 62; 120]) [108; 115; 124; 119; 99; 62; 120] with
   | Ok (c, buf) => buf = [108; 115; 0; 119; 99; 0; 120; 0] /\ cmd_ok [108; 115; 124; 119; 99; 62; 120] c /\
       Forall (fun p => exists w, word_ok [108; 115; 124; 119; 99; 62; 120] p w /\ string_at buf p.1 w) (ptrs c)
   | _ => False
   end) /\
  parsecmd (enough [40; 108]) [40; 108] = Panic "syntax - missing )" /\ parsecmd (enough [62]) [62] = Panic "missing file for redirection".
Proof.
  split; [| split; reflexivity]. assert (H := shell_parser_safe [108; 115; 124; 119; 99; 62; 120] ltac:(repeat constructor; discriminate)).
  vm_compute (parsecmd _ _) in H |- *. split; [reflexivity | exact H].
Defined.

(** C22: printing and parsing commands. Every abstract command, of any
    depth, with words of ordinary bytes and at most nine arguments in each
    part, printed with the parentheses that the grammar needs, is parsed to a
    command of the same structure, whose arguments and file names are, as
    strings in the buffer, those of the abstract command. *)
Theorem shell_roundtrip a :
  ast_ok a -> exists c buf, parsecmd (enough (show 0 a)) (show 0 a) = Ok (c, buf) /\ strings buf c a.
Proof.
  intros Hok. set (line := show 0 a). destruct (parse_round line (size a) a ltac:(lia) Hok) as [H0 _].
  destruct (H0 (enough line) line []) as (c & Hc & Hm); [by rewrite app_nil_r | by rewrite app_nil_r | done | by rewrite app_nil_r |].
  pose proof (parsecmd_sound line (show_nonzero a Hok 0)) as Hs. unfold parsecmd in *. rewrite Hc in *. cbn [rbind skip_ws peek] in *.
  rewrite bool_decide_eq_true_2 in * by reflexivity. destruct (nulterminate c (line ++ [0])) as [buf|msg| |] eqn:Hn; cbn [rbind] in *; try done;
    [| rewrite nulterminate_ptrs in Hn; by apply put_nuls_no_panic in Hn].
  exists c, buf. split; [reflexivity |]. apply (means_strings line); [exact Hm | apply Hs].
Qed.

(** [(a <f; b &) | c d >e] *)
Definition demo_ast : ast :=
  APipe (AList (ARedir (AExec [[97]]) false [102]) (ABack (AExec [[98]]))) (ARedir (AExec [[99]; [100]]) true [101]).

Lemma shell_roundtrip_witness :
  show 0 demo_ast = [40; 32; 97; 60; 102; 59; 32; 98; 38; 41; 124; 32; 99; 32; 100; 62; 101] /\
  exists c buf, parsecmd (enough (show 0 demo_ast)) (show 0 demo_ast) = Ok (c, buf) /\ strings buf c demo_ast.
Proof. split; [reflexivity |]. apply (shell_roundtrip demo_ast). cbn. unfold word, MAXARGS. repeat split; try lia; repeat constructor; discriminate. Defined.
